(* ===== verification/_CoqProject ===== *)
-Q . S2P
Prelude.v
OrderedMap.v
StringUtil.v
Tree.v
TreeSpec.v
Stream.v
Endian.v
SnapshotFile.v
TreeSnapshot.v
TreeRPC.v
Consensus.v
StateMachine.v
StateMachineSpec.v
StateMachineDemo.v
Log.v
ClientProto.v
Disk.v
DiskSpec.v
Checksum.v
Printf.v
Durations.v
Address.v
Config.v
SegmentedLog.v
SegmentedLogSpec.v
SegmentedLogFormat.v
SegmentedLogSync.v
SegmentedLogLoad.v
SegmentedLogCrash.v
SegmentedLogRep.v
SegmentedLogRecovery.v
SegmentedLogOps.v
SegmentedLogSuffix.v
SegmentedLogDurable.v
SegmentedLogSystem.v
SegmentedLogDemo.v
SimpleFileLog.v
SimpleFileLogSpec.v
SimpleFileLogDemo.v
Configuration.v
Raft.v
RaftFrame.v
RaftSnapshots.v
RaftSpec.v
RaftLog.v
RaftConfig.v
RaftDemo.v
RaftVotes.v
ElectionSafety.v
RaftInvariants.v
Client.v
ClientSpec.v
ClientTree.v
MockClient.v
MessageSocket.v
MessageSocketSpec.v
ClientSession.v
OpaqueServer.v
RPCProtocol.v
RPCSystem.v
RPCServer.v
LeaderRPC.v
LeaderSpec.v
LeaderDemo.v
ClientSystem.v
ClientDemo.v
ClientService.v
ServicesSpec.v
ServicesDemo.v
