(* ===== verification/Prelude.v ===== *)
(** * LogCabin: a verification development

    LogCabin keeps a small tree of files on a cluster of servers. Each server
    runs the Raft consensus algorithm on a log kept on its disk, and applies the
    committed entries of the log to a state machine that holds the tree; a
    client library finds the leader, sends it commands and queries, and repeats
    them until they are answered. The development follows this structure:

    - the tree: [Tree.v] ([Tree/Tree.cc]: [File], [Directory], [Path], [Tree]),
      [TreeRPC.v] ([Tree/ProtoBuf.cc] and the tree messages of
      [Protocol/Client.proto]), [TreeSnapshot.v] (its snapshots, on the message
      streams of [Stream.v], [Core/ProtoBuf.h]). [TreeSpec.v] is the abstract
      store, a map from paths to files and directories;
    - the state machine: [StateMachine.v] ([Server/StateMachine.cc]: [apply],
      [query], [waitForResponse], sessions, versions, snapshots and the threads
      as steps), [SnapshotFile.v] ([Storage/SnapshotFile.cc]), and its theorems
      in [StateMachineSpec.v];
    - consensus: [Configuration.v] (servers, configurations, quorums) and
      [Raft.v] ([Server/RaftConsensus.{h,cc}]: RPC handlers, elections,
      replication, membership changes, snapshots, every thread as a step under
      the mutex), with [RaftFrame.v], [RaftSnapshots.v], [RaftSpec.v],
      [RaftLog.v], [RaftConfig.v], [RaftVotes.v] for the theorems about one server and [ElectionSafety.v] for
      a cluster; [RaftInvariants.v] ([Server/RaftConsensusInvariants.cc]) is the
      run-time checks. [Consensus.v] is what the state machine sees of it;
    - the log: [Log.v] ([Storage/Log.h] as operations with laws and
      [Storage/MemoryLog.cc] as an instance) and the segmented log on disk,
      [SegmentedLog.v] ([Storage/SegmentedLog.cc]), over the file system of
      [Disk.v] ([Storage/FilesystemUtil.cc]) with [Printf.v] and [Checksum.v]
      ([Core/Checksum.cc]). [DiskSpec.v] and the other [SegmentedLog*.v] lead to
      its crash safety. [SimpleFileLog.v] ([Storage/SimpleFileLog.cc],
      [LogFactory.cc]) is the older log with a file for each entry, with
      [SimpleFileLogSpec.v];
    - the client: [ClientProto.v] (messages), [Client.v] ([Client/ClientImpl.cc]
      and [Client/Client.cc]), [LeaderRPC.v] ([Client/LeaderRPC.cc],
      [SessionManager.cc], [Backoff.cc]), [MockClient.v]
      ([Client/MockClientImpl.cc]), with [ClientSpec.v], [ClientTree.v] and
      [LeaderSpec.v]; [ClientSystem.v] puts clients and the state machine
      together;
    - RPCs: [MessageSocket.v] ([RPC/MessageSocket.{h,cc}], framing, on a kernel
      that is a script of answers), [ClientSession.v] ([RPC/ClientSession.cc],
      [OpaqueClientRPC.cc]), [OpaqueServer.v] ([RPC/OpaqueServer.cc],
      [OpaqueServerRPC.cc]), [RPCProtocol.v] ([RPC/Protocol.cc],
      [ServerRPC.cc], [ClientRPC.cc], [Core/ProtoBuf.cc]), [RPCServer.v]
      ([RPC/Server.cc], [ThreadDispatchService.cc]), with
      [MessageSocketSpec.v] and [RPCSystem.v], which puts a client and a server
      on one connection;
    - services: [ClientService.v] ([Server/ClientService.cc] and
      [RaftService.cc]) with [ServicesSpec.v], on the consensus module and the
      state machine;
    - text that people write: [Durations.v] ([Core/Time.cc], [Client/Util.cc]),
      [Address.v] ([RPC/Address.cc]), [Config.v] ([Core/Config.cc]);
    - shared: this file, [OrderedMap.v] ([std::map]), [Endian.v] (byte orders)
      and [StringUtil.v] ([Core/StringUtil.cc]).

    ** How the code is written down

    A method is a function in the state monad with faults [M S A] of this file:
    [Ok (a, s)] is a return, [Fail f] the end of the process or of the run:
    [Panicked] for a [PANIC] or [EXIT], [AssertFailed] for a failed [assert],
    [Blocked] for a wait that nothing of the given run ends. The
    fields of an object are a record with the names of the source; a [uint64_t]
    is a [Z] and each operation that may wrap says so ([u64]). Objects that are
    shared by reference ([std::shared_ptr<Server>] in [Configuration], open
    segments, tickets of directories) are references into a store in the state.

    Locks and threads: a method that holds the mutex from start to end is one
    step. Where a method waits on a condition variable or releases the mutex
    for an RPC, it takes the code that runs meanwhile as an argument (an
    environment [M S unit], or a list of them, one for each wake-up), so that a
    theorem which quantifies over environments covers every interleaving at the
    points where the mutex is free. Clocks and random numbers are functions of
    the number of the reading, with no law unless a theorem names one.

    ** Interfaces

    What a component promises to another is a class that the other's theorems
    assume and an instance discharges: [LogOps], [LogLaws] and
    [LogMetadataLaws] (the log as [Raft.v] uses it; [MemoryLog], the simple
    file log and the segmented log are instances), [Consensus] (Raft for the state machine),
    [StreamLaws] (the streams snapshots go through), [LeaderRPCBase] and
    [LeaderTree] (the leader as the client library sees it; the mock and
    [LeaderRPC] are instances), [Network] and [NetworkLaws] (sessions below
    [LeaderRPC]), [Handler] (the owner of a message socket: a session or a
    server), [RPCHandler] (the owner of an [OpaqueServer]), [Service].
    Protocol buffers are generated code: their codec is the class [ProtoBuf]
    with the law [ProtoBufLaws] (parsing undoes serialization). The digests of
    checksums are Crypto++, a parameter. Concrete codecs, clocks and digests
    appear only in the [*Demo.v] files, which evaluate the definitions on
    concrete inputs and hold the witnesses of the theorems.

    ** What is shown

    - Raft on one server ([RaftSpec.v], [RaftLog.v], [RaftConfig.v],
      [Configuration.v]): at most one vote per term across restarts; elections
      are won with a quorum of votes; a voter is not the leader; quorums
      overlap; the rules for votes and for commitment; an accepted
      AppendEntries request merges its entries into the log, and a stale one
      changes nothing; what a leader sends is consecutive and within the size
      limit; entries go to the state machine in order and only when committed;
      every operation, at whatever interleaving, keeps the core invariant and
      moves the state forwards, and the last snapshot stays committed and covers
      what the log lacks ([RaftSnapshots.v]); servers that leave a configuration
      are retired; the configuration in force is the latest one;
      the run-time checks of successive states find nothing, in particular no
      change of what threads wait for goes without a notification.
    - Raft on a cluster ([RaftVotes.v], [ElectionSafety.v]): two servers never
      lead the same term. Each server runs any operations, with crashes and
      restarts; a ledger beside its log, which no operation reads, records the
      votes it gave and the terms it led. Of other servers' answers the theorem
      assumes that a granted vote was given, and of the membership that it is
      fixed where an election is won (a run that is otherwise gets stuck).
    - State machine ([StateMachineSpec.v]): a command takes effect once, its
      answer stays available and is the answer of its one execution; replicas
      agree; snapshots restore the state; sessions expire exactly when idle;
      versions are stable; [apply] fails on unacceptable entries only.
    - Tree ([TreeSpec.v], [TreeRPC.v], [TreeSnapshot.v]): sequences of
      operations and requests refine the abstract store, without a fault;
      snapshots round-trip, and loading ends whatever the bytes are.
    - Segmented log ([SegmentedLogSystem.v] and the files before it): every
      sequence of calls, of [Sync] objects waited for late, and of kills among
      the queued file operations and recoveries refines a list of entries with
      metadata (a kill inside an operation that runs at once is not covered): what a completed
      [Sync] covers survives, the rest survives as a prefix. The invariant
      ([SegmentedLogRep.v]) relates the segments in memory, the queue of file
      operations and the files; [SegmentedLogCrash.v] says what any prefix of
      the queue leaves on disk; [SegmentedLogDurable.v] that recovery finds it.
      [Sync]'s optimisation drops only flushes that a later one covers.
    - Simple file log ([SimpleFileLogSpec.v]): every sequence of calls and
      restarts refines a list of entries with metadata, without a fault; it is
      an instance of the log's interface. Power failures are not covered: the
      model of the disk keeps what was written.
    - Client library: path handling equals a stack-based reference and yields
      canonical paths; the tree operations refine the abstract store on any
      leader; the search for the leader returns, with no new
      attempt after its deadline; connection
      attempts are limited by [Backoff]; and, with the state machine
      ([ClientSystem.v]), each call of any number of clients takes effect at
      most once, returns the answer of that one effect, and sends nothing that
      stops a server.
    - RPCs ([MessageSocketSpec.v], [RPCSystem.v], [ServicesSpec.v]): messages
      arrive complete, in order and with their ids, whatever portions the
      kernel takes and delivers; a completed RPC of a client holds the answer
      to its own request, which the server answered at most once, under every
      interleaving of threads, timers and disconnections; the bytes of a
      request and of a response are read back ([request_roundtrip],
      [response_roundtrip]); each handler of the services answers its request
      exactly once.
    - Text: durations in every accepted spelling are parsed to their number of
      nanoseconds, cut off at 64 bits (with one exception), and what is printed
      is parsed back; lists of hosts are read as their grammar says; reading a
      configuration ends on every text, and what was read is written in a form
      that reads back the same.

    ** Fuel and bounds

    Recursion is structural wherever the code's is bounded by its data; the
    remaining arguments are: the number of components for the loop that irons
    out [".."] (each round consumes one); the bytes left in a stream for the
    messages of a snapshot (each read takes at least the length prefix; shown
    enough by [Tree_loadSnapshot_ends]); a list of attempts for
    [LeaderRPC::call], shown to be enough with one attempt per clock tick
    until the deadline; the answers that the kernel still has, and the bytes
    that have arrived, for the loops of a message socket (one call each;
    [framing_roundtrip] shows that they end); and the lists of environments for
    waits, which end in [Blocked] when the given run ends before the wait does,
    a case the theorems distinguish from a return. [operator>>] of a
    configuration has fuel for two rounds per character of the text, which
    [Config_reads] shows to be enough.

    The timer thread of the theorems about the consensus module stops before a
    term wraps around at 2^64 - 1 ([timerThread_bounded]), where the code does not.

    ** Not modelled

    The point of a kill inside an operation on files that the segmented log runs
    at once, [prepareNewSegment] on its own thread among them
    ([half_prepared_panics] shows what one such kill does).

    The event loop but for what it is asked to report, signals, listening and
    connecting sockets, the transport on lwip/IX, DNS queries, command lines,
    logging, statistics (they change no state the rest reads), start-up and the
    administrative service, tests, examples, and the vendored headers under
    [inc/]. *)

From stdpp Require Import base gmap strings list fin_maps sorting.
From Stdlib Require Import ZArith Lia.

#[global] Open Scope Z_scope.

Declare Scope logcabin_scope.
Delimit Scope logcabin_scope with logcabin.

(** ** Machine integers

    A [uint64_t], [uint32_t] or [uint16_t] is a [Z] in range; every arithmetic
    operation of the source that can wrap is written with the truncation below. *)

Definition u64 (x : Z) : Z := x mod 18446744073709551616.
Definition u32 (x : Z) : Z := x mod 4294967296.
Definition u16 (x : Z) : Z := x mod 65536.
Definition u64_max : Z := 18446744073709551615.
Definition u16_max : Z := 65535.
Definition is_u64 (x : Z) : Prop := 0 <= x < 18446744073709551616.

Lemma u64_small x : is_u64 x -> u64 x = x.
Proof. unfold is_u64, u64. intros. apply Z.mod_small. lia. Qed.

Lemma u64_range x : is_u64 (u64 x).
Proof. unfold is_u64, u64. apply Z.mod_pos_bound. lia. Qed.

(** [std::chrono] points and durations are [int64_t] nanosecond counts. *)
Definition TimePoint_max : Z := 9223372036854775807.
Definition TimePoint_min : Z := -9223372036854775808.

(** Signed 64-bit arithmetic, two's complement. *)
Definition i64 (x : Z) : Z :=
  (x + 9223372036854775808) mod 18446744073709551616 - 9223372036854775808.

(** ** Outcomes and the state monad

    The model follows the default (DEBUG) build: an [assert] that fails, a
    [PANIC], [std::vector::at] out of range and a
    [ThreadInterruptedException] all end the operation, and so does undefined
    behaviour of the language (a dangling pointer, a division by zero). [Blocked] is not an
    error of the program: it is the end of a finite schedule that leaves a
    thread waiting on a condition variable. *)

Inductive fault : Type :=
| AssertFailed
| Panicked
| OutOfRange
| Interrupted
| UndefinedBehavior
| Blocked.

#[export] Instance fault_eq_dec : EqDecision fault.
Proof. solve_decision. Defined.

Inductive outcome (A : Type) : Type :=
| Ok (a : A)
| Fail (f : fault).
Arguments Ok {A} a.
Arguments Fail {A} f.

Definition M (S A : Type) : Type := S -> outcome (A * S).

Section Monad.
Context {S : Type}.

Definition ret {A} (a : A) : M S A := fun s => Ok (a, s).
Definition bind {A B} (m : M S A) (k : A -> M S B) : M S B :=
  fun s => match m s with Ok (a, s') => k a s' | Fail f => Fail f end.
Definition fail {A} (f : fault) : M S A := fun _ => Fail f.
Definition get : M S S := fun s => Ok (s, s).
Definition gets {A} (f : S -> A) : M S A := fun s => Ok (f s, s).
Definition put (s : S) : M S unit := fun _ => Ok (tt, s).
Definition modify (f : S -> S) : M S unit := fun s => Ok (tt, f s).
Definition assert_ (b : bool) : M S unit := if b then ret tt else fail AssertFailed.
Definition when (b : bool) (m : M S unit) : M S unit := if b then m else ret tt.
Definition lift {A} (o : outcome A) : M S A :=
  fun s => match o with Ok a => Ok (a, s) | Fail f => Fail f end.

(** A C++ range loop over a container: [f] on every element, in order. *)
Definition forM {A} (l : list A) (f : A -> M S unit) : M S unit :=
  (fix loop l := match l with
                 | [] => ret tt
                 | a :: l' => bind (f a) (fun _ => loop l')
                 end) l.
End Monad.

Notation "'let!' x := m 'in' k" := (bind m (fun x => k))
  (at level 10, x pattern, m at level 100, k at level 200,
   format "'[v' 'let!'  x  :=  m  'in' '/' k ']'") : logcabin_scope.
Notation "m ;;; k" := (bind m (fun _ => k))
  (at level 100, k at level 200, right associativity,
   format "'[v' m ;;; '/' k ']'") : logcabin_scope.
#[global] Open Scope logcabin_scope.

(** [zoom] runs an operation of a member object inside the object that owns it. *)
Definition zoom {S T A} (sel : S -> T) (upd : T -> S -> S) (m : M T A) : M S A :=
  fun s => match m (sel s) with
           | Ok (a, t) => Ok (a, upd t s)
           | Fail f => Fail f
           end.

(** ** Assigning to a member

    [s <| f := v |>] is the record [s] with the field [f] replaced. A record
    type opts in by giving its expansion [Eta]; the setter of each projection is
    found from it. *)

Class Eta (R : Type) := eta : R -> R.
Class Setter {R T : Type} (proj : R -> T) := set_field : T -> R -> R.

Ltac solve_setter :=
  lazymatch goal with
  | |- @Setter ?R ?T ?proj =>
      unfold Setter; let v := fresh in let s := fresh in intros v s;
      let t := eval hnf in (eta s) in
      let t := eval pattern (proj s) in t in
      lazymatch t with ?F _ => let r := eval cbv beta in (F v) in exact r end
  end.
#[export] Hint Extern 0 (Setter _) => solve_setter : typeclass_instances.

Notation "s <| f := v |>" := (set_field (proj := f) v s)
  (at level 1, f at level 0, left associativity, format "s  <| f  :=  v |>") : logcabin_scope.

(** ** Waiting on a condition variable

    [while (cond) cv.wait(lock)]: waiting lets other threads run on the shared
    state. The schedule lists what they do between two wake-ups (spurious ones
    included); when it ends while the condition still holds, the thread stays
    [Blocked]. *)
Section Wait.
Context {S : Type}.

Fixpoint wait_while (cond : S -> bool) (sched : list (M S unit)) : M S unit :=
  let! s := get in
  if cond s then
    match sched with
    | [] => fail Blocked
    | env :: sched' => env ;;; wait_while cond sched'
    end
  else ret tt.
End Wait.

(** ** Weakest preconditions

    [wp E m Q s]: if [m] started in [s] returns then [Q] holds of its result,
    and a fault satisfies [E]. [safe m Q s] allows no fault at all (the
    operation is total); [post m Q s] says nothing about runs that fault. *)

Section WP.
Context {S : Type}.

Definition wp {A} (E : fault -> Prop) (m : M S A) (Q : A -> S -> Prop) (s : S) : Prop :=
  match m s with Ok (a, s') => Q a s' | Fail f => E f end.

Lemma wp_ret {A} E (a : A) Q s : Q a s -> wp E (ret a) Q s.
Proof. done. Qed.

Lemma wp_bind {A B} E (m : M S A) (k : A -> M S B) Q s :
  wp E m (fun a s' => wp E (k a) Q s') s -> wp E (bind m k) Q s.
Proof. unfold wp, bind. destruct (m s) as [[a s']|f]; done. Qed.

Lemma wp_bind_inv {A B} E (m : M S A) (k : A -> M S B) Q s :
  wp E (bind m k) Q s -> wp E m (fun a s' => wp E (k a) Q s') s.
Proof. unfold wp, bind. destruct (m s) as [[a s']|f]; done. Qed.

Lemma wp_fail {A} E f (Q : A -> S -> Prop) s : E f -> wp E (fail f) Q s.
Proof. done. Qed.

Lemma wp_get E Q s : Q s s -> wp E get Q s.
Proof. done. Qed.

Lemma wp_gets {A} E (f : S -> A) Q s : Q (f s) s -> wp E (gets f) Q s.
Proof. done. Qed.

Lemma wp_put E s0 Q s : Q tt s0 -> wp E (put s0) Q s.
Proof. done. Qed.

Lemma wp_modify E f Q s : Q tt (f s) -> wp E (modify f) Q s.
Proof. done. Qed.

Lemma wp_assert E b Q s :
  (b = false -> E AssertFailed) -> (b = true -> Q tt s) -> wp E (assert_ b) Q s.
Proof. destruct b; unfold wp, assert_; naive_solver. Qed.

Lemma wp_when E b m Q s :
  (b = true -> wp E m Q s) -> (b = false -> Q tt s) -> wp E (when b m) Q s.
Proof. destruct b; unfold when; naive_solver. Qed.

Lemma wp_lift {A} E (o : outcome A) Q s :
  match o with Ok a => Q a s | Fail f => E f end -> wp E (lift o) Q s.
Proof. unfold wp, lift. destruct o; done. Qed.

Lemma wp_mono {A} (E E' : fault -> Prop) (m : M S A) (Q Q' : A -> S -> Prop) s :
  wp E m Q s -> (forall f, E f -> E' f) -> (forall a s', Q a s' -> Q' a s') ->
  wp E' m Q' s.
Proof. unfold wp. destruct (m s) as [[a s']|f]; eauto. Qed.

Lemma wp_and {A} E (m : M S A) (Q Q' : A -> S -> Prop) s :
  wp E m Q s -> wp E m Q' s -> wp E m (fun a s' => Q a s' /\ Q' a s') s.
Proof. unfold wp. destruct (m s) as [[a s']|f]; eauto. Qed.

(** A loop keeps an invariant indexed by the elements still to visit. *)
Lemma wp_forM {A} E (l : list A) (f : A -> M S unit) (I : list A -> S -> Prop) s :
  I l s ->
  (forall a l' s', I (a :: l') s' -> wp E (f a) (fun _ s'' => I l' s'') s') ->
  wp E (forM l f) (fun _ s' => I [] s') s.
Proof.
  intros H0 Hstep. revert s H0. induction l as [|a l IH]; intros s H0; simpl.
  - by apply wp_ret.
  - apply wp_bind. eapply wp_mono; [by apply Hstep|done|].
    intros ? s' ?. by apply IH.
Qed.
End WP.

Definition safe {S A} (m : M S A) (Q : A -> S -> Prop) (s : S) : Prop := wp (fun _ => False) m Q s.
Definition post {S A} (m : M S A) (Q : A -> S -> Prop) (s : S) : Prop := wp (fun _ => True) m Q s.

Lemma safe_run {S A} (m : M S A) Q s :
  safe m Q s <-> exists a s', m s = Ok (a, s') /\ Q a s'.
Proof.
  unfold safe, wp. destruct (m s) as [[a s']|f]; [|by split; [|intros (? & ? & [=] & ?)]].
  split; [by eauto | by intros (? & ? & [= <- <-] & ?)].
Qed.

(** A sequence that returned, one step at a time. *)
Lemma bind_Ok {S A B} (m : M S A) (k : A -> M S B) s b s' :
  bind m k s = Ok (b, s') -> exists a s1, m s = Ok (a, s1) /\ k a s1 = Ok (b, s').
Proof. unfold bind. destruct (m s) as [[a s1]|f]; [by exists a, s1|done]. Qed.

Lemma post_run {S A} (m : M S A) Q s :
  post m Q s <-> forall a s', m s = Ok (a, s') -> Q a s'.
Proof.
  unfold post, wp. destruct (m s) as [[a s']|f]; [|done].
  split; [by intros ? ? ? [= <- <-] | by auto].
Qed.

Lemma wp_zoom {S T A} E (sel : S -> T) upd (m : M T A) Q s :
  wp E m (fun a t => Q a (upd t s)) (sel s) -> wp E (zoom sel upd m) Q s.
Proof. unfold wp, zoom. destruct (m (sel s)) as [[a t]|f]; done. Qed.

(** A wait that returns leaves its condition false, and any invariant that the
    other threads keep still holds. *)
Lemma wp_wait_while {S} (cond : S -> bool) sched (I : S -> Prop) s :
  I s -> Forall (fun env => forall s, I s -> post env (fun _ s' => I s') s) sched ->
  post (wait_while cond sched) (fun _ s' => I s' /\ cond s' = false) s.
Proof.
  intros Hs Hsched. revert s Hs. induction Hsched as [|env sched Henv _ IH]; intros s Hs;
    simpl; apply wp_bind, wp_get; destruct (cond s) eqn:Hc; try by apply wp_ret.
  - by apply wp_fail.
  - apply wp_bind. eapply wp_mono; [by apply Henv|done|]. intros [] s1 Hs1. by apply IH.
Qed.

(** ** Relations between the state before and after *)

(** An operation that is safe does, when it returns, what it is safe for. *)
Lemma safe_post {S A} (m : M S A) Q s : safe m Q s -> post m Q s.
Proof. intros Hm. eapply wp_mono; [exact Hm|done|done]. Qed.

Section Keeps.
Context {S : Type} (P : S -> S -> Prop) `{!PreOrder P}.

(** If the operation returns, the state after is related to the state before. *)
Definition keeps {A} (m : M S A) : Prop := forall s, post m (fun _ s' => P s s') s.

Lemma wp_keeps {A} (m : M S A) (Q : A -> S -> Prop) s :
  keeps m -> (forall a s', P s s' -> Q a s') -> wp (fun _ => True) m Q s.
Proof. intros Hm HQ. eapply wp_mono; [apply Hm|done|]. intros a s'. apply HQ. Qed.

Lemma keeps_bind {A B} (m : M S A) (k : A -> M S B) :
  keeps m -> (forall a, keeps (k a)) -> keeps (bind m k).
Proof.
  intros Hm Hk s. apply wp_bind. apply wp_keeps; [done|]. intros a s1 H1.
  apply wp_keeps; [done|]. intros b s2 H2. by transitivity s1.
Qed.

Lemma keeps_ret {A} (a : A) : keeps (ret a).
Proof. intros s. apply wp_ret. reflexivity. Qed.

Lemma keeps_forM {A} (l : list A) (f : A -> M S unit) :
  (forall a, keeps (f a)) -> keeps (forM l f).
Proof.
  intros Hf. induction l as [|a l IH]; [apply keeps_ret|]. by apply keeps_bind.
Qed.

Lemma keeps_when b m : keeps m -> keeps (when b m).
Proof. intros Hm. destruct b; [done|apply keeps_ret]. Qed.
End Keeps.

(** ** Two runs side by side

    [respects R m m']: from related states, both runs fault alike or both
    return, with the same value and related states. *)
Section Respects.
Context {S : Type} (R : S -> S -> Prop).

Definition respects {A} (m m' : M S A) : Prop := forall s s', R s s' ->
  match m s, m' s' with
  | Ok (a, t), Ok (a', t') => a = a' /\ R t t'
  | Fail f, Fail f' => f = f'
  | _, _ => False
  end.

Lemma respects_ret {A} (a : A) : respects (ret a) (ret a).
Proof. by intros s s' HR. Qed.

Lemma respects_fail {A} f : respects (fail (A:=A) f) (fail f).
Proof. by intros s s' HR. Qed.

Lemma respects_lift {A} (o : outcome A) : respects (lift o) (lift o).
Proof. intros s s' HR. unfold lift. by destruct o. Qed.

Lemma respects_bind {A B} (m m' : M S A) (k k' : A -> M S B) :
  respects m m' -> (forall a, respects (k a) (k' a)) -> respects (bind m k) (bind m' k').
Proof.
  intros Hm Hk s s' HR. specialize (Hm s s' HR). unfold bind.
  destruct (m s) as [[a t]|f], (m' s') as [[a' t']|f']; try done.
  destruct Hm as [-> HR']. by apply Hk.
Qed.

Lemma respects_modify f f' : (forall s s', R s s' -> R (f s) (f' s')) ->
  respects (modify f) (modify f').
Proof. intros Hf s s' HR. split; [done|]. by apply Hf. Qed.

(** Reading the state gives related states. *)
Lemma respects_get {B} (k k' : S -> M S B) :
  (forall s s', R s s' ->
     match k s s, k' s' s' with
     | Ok (a, t), Ok (a', t') => a = a' /\ R t t'
     | Fail f, Fail f' => f = f'
     | _, _ => False
     end) ->
  respects (bind get k) (bind get k').
Proof. intros Hk s s' HR. by apply Hk. Qed.

Lemma respects_gets {A} (f : S -> A) : (forall s s', R s s' -> f s = f s') ->
  respects (gets f) (gets f).
Proof. intros Hf s s' HR. split; [by apply Hf|done]. Qed.

Lemma respects_forM {A} (l : list A) (f f' : A -> M S unit) :
  (forall a, respects (f a) (f' a)) -> respects (forM l f) (forM l f').
Proof.
  intros Hf. induction l as [|a l IH]; [apply respects_ret|]. by apply respects_bind.
Qed.
End Respects.

(** One step of symbolic execution of a monadic operation. *)
Ltac wp_step :=
  lazymatch goal with
  | |- safe _ _ _ => unfold safe
  | |- post _ _ _ => unfold post
  | |- wp _ (bind _ _) _ _ => apply wp_bind
  | |- wp _ (ret _) _ _ => apply wp_ret
  | |- wp _ (gets _) _ _ => apply wp_gets
  | |- wp _ get _ _ => apply wp_get
  | |- wp _ (put _) _ _ => apply wp_put
  | |- wp _ (modify _) _ _ => apply wp_modify
  | |- wp _ (assert_ _) _ _ =>
      let H := fresh "Has" in apply wp_assert; intros H; [first [exact I | idtac] |]
  | |- wp _ (when _ _) _ _ => let H := fresh "Hw" in apply wp_when; intros H
  | |- wp _ (fail _) _ _ => apply wp_fail; try exact I
  | |- wp _ (zoom _ _ _) _ _ => apply wp_zoom
  | |- wp _ (lift _) _ _ => apply wp_lift
  | |- wp _ (if ?b then _ else _) _ _ => let H := fresh "Hif" in destruct b eqn:H
  | |- wp _ (match ?x with _ => _ end) _ _ => let H := fresh "Hm" in destruct x eqn:H
  end.
Ltac wp_go := repeat wp_step.
