(* ===== verification/OrderedMap.v ===== *)
(** * [std::map] as the components use it

    A [std::map<K, V>] is modelled by the list of its bindings in iteration
    order, strictly increasing in the key ([om_sorted]). [K] is [uint64_t] or
    [std::string], ordered by [std::less]. The operations are the members the
    source calls: [find], [operator[]], [insert], [erase], the erasure of the
    ranges cut by [lower_bound] and [upper_bound], and [--upper_bound(k)]. *)

From Stdlib Require Import ZArith Lia Ascii String.
From stdpp Require Import base gmap strings list fin_maps sorting.
From S2P Require Import Prelude.

(** ** Strict total orders on keys *)

Class KeyOrder (K : Type) := {
  key_eq_dec :: EqDecision K;
  key_lt : K -> K -> Prop;
  key_lt_dec :: RelDecision key_lt;
  key_lt_strict :: StrictOrder key_lt;
  key_lt_total :: Trichotomy key_lt
}.

Lemma Z_lt_strict : StrictOrder Z.lt.
Proof. constructor; [intros ? ?; lia | intros ? ? ?; lia]. Qed.

Lemma Z_lt_total : Trichotomy Z.lt.
Proof. intros x y. destruct (Z.lt_trichotomy x y) as [|[|]]; auto. Qed.

#[export] Instance Z_key_order : KeyOrder Z :=
  {| key_lt := Z.lt; key_lt_strict := Z_lt_strict; key_lt_total := Z_lt_total |}.

(** [std::string::compare]: bytewise lexicographic, bytes unsigned. *)
Fixpoint string_ltb (s t : string) : bool :=
  match s, t with
  | _, EmptyString => false
  | EmptyString, String _ _ => true
  | String a s', String b t' =>
      (N_of_ascii a <? N_of_ascii b)%N ||
      ((N_of_ascii a =? N_of_ascii b)%N && string_ltb s' t')
  end.

Lemma N_of_ascii_inj a b : N_of_ascii a = N_of_ascii b -> a = b.
Proof. intros H. rewrite <-(ascii_N_embedding a), <-(ascii_N_embedding b). by f_equal. Qed.

Lemma string_ltb_cons a s b t :
  string_ltb (String a s) (String b t) = true <->
  (N_of_ascii a < N_of_ascii b)%N \/ (a = b /\ string_ltb s t = true).
Proof.
  simpl. rewrite orb_true_iff, andb_true_iff, N.ltb_lt, N.eqb_eq.
  split; intros [H|[H1 H2]]; auto.
  - right. split; [by apply N_of_ascii_inj | done].
  - right. by subst.
Qed.

Lemma string_ltb_irrefl s : string_ltb s s = false.
Proof.
  induction s as [|a s IH]; [done|]. apply not_true_iff_false.
  rewrite string_ltb_cons. intros [H|[_ H]]; [lia|congruence].
Qed.

Lemma string_ltb_trans s t u :
  string_ltb s t = true -> string_ltb t u = true -> string_ltb s u = true.
Proof.
  revert t u. induction s as [|a s IH]; intros [|b t] [|c u]; try done.
  rewrite !string_ltb_cons.
  intros [H1|[-> H1]] [H2|[-> H2]]; [left; lia | by left | by left | right; eauto].
Qed.

Lemma string_ltb_total s t : string_ltb s t = true \/ s = t \/ string_ltb t s = true.
Proof.
  revert t. induction s as [|a s IH]; intros [|b t]; auto.
  rewrite !string_ltb_cons.
  destruct (N.lt_trichotomy (N_of_ascii a) (N_of_ascii b)) as [H|[H|H]]; auto.
  apply N_of_ascii_inj in H as ->.
  destruct (IH t) as [H|[->|H]]; auto.
Qed.

Definition string_lt (s t : string) : Prop := string_ltb s t = true.

#[export] Instance string_lt_dec : RelDecision string_lt.
Proof. intros s t. unfold string_lt. apply _. Defined.

Lemma string_lt_strict : StrictOrder string_lt.
Proof.
  unfold string_lt. constructor.
  - intros s Hs. by rewrite string_ltb_irrefl in Hs.
  - intros s t u. apply string_ltb_trans.
Qed.

Lemma string_lt_total : Trichotomy string_lt.
Proof. intros s t. apply string_ltb_total. Qed.

#[export] Instance string_key_order : KeyOrder string :=
  {| key_lt := string_lt; key_lt_strict := string_lt_strict; key_lt_total := string_lt_total |}.

(** ** The map operations *)

Section Ops.
Context {K : Type} `{KeyOrder K} {V : Type}.
Implicit Types (m : list (K * V)) (k : K) (v : V).

(** [m.find(k)] *)
Fixpoint om_lookup m k : option V :=
  match m with
  | [] => None
  | (k', v) :: m' => if decide (k = k') then Some v else om_lookup m' k
  end.

(** [m[k] = v] *)
Fixpoint om_set m k v : list (K * V) :=
  match m with
  | [] => [(k, v)]
  | (k', v') :: m' =>
      if decide (k = k') then (k, v) :: m'
      else if decide (key_lt k k') then (k, v) :: m
      else (k', v') :: om_set m' k v
  end.

(** [m.insert({k, v})]: an existing binding stays. *)
Definition om_insert m k v : list (K * V) :=
  match om_lookup m k with Some _ => m | None => om_set m k v end.

(** [m.erase(k)] *)
Fixpoint om_erase m k : list (K * V) :=
  match m with
  | [] => []
  | (k', v') :: m' => if decide (k = k') then m' else (k', v') :: om_erase m' k
  end.

(** [m.erase(m.begin(), m.lower_bound(k))]: keeps the keys that are not below [k]. *)
Fixpoint om_erase_below m k : list (K * V) :=
  match m with
  | [] => []
  | (k', v') :: m' => if decide (key_lt k' k) then om_erase_below m' k else m
  end.

(** [m.erase(m.upper_bound(k), m.end())]: keeps the keys that are not above [k]. *)
Fixpoint om_erase_above m k : list (K * V) :=
  match m with
  | [] => []
  | (k', v') :: m' => if decide (key_lt k k') then [] else (k', v') :: om_erase_above m' k
  end.

(** [*--m.upper_bound(k)], [None] where [upper_bound(k) == begin()]. *)
Definition om_before m k : option (K * V) := last (om_erase_above m k).

(** [*m.rbegin()] *)
Definition om_last m : option (K * V) := last m.

Definition om_sorted m : Prop := StronglySorted (fun p q => key_lt p.1 q.1) m.
End Ops.

Section Lemmas.
Context {K : Type} `{KeyOrder K} {V : Type}.
Implicit Types (m : list (K * V)) (k : K) (v : V).

Lemma key_lt_irrefl k : ~ key_lt k k.
Proof. apply irreflexivity, _. Qed.

Lemma key_lt_ne k k' : key_lt k k' -> k <> k'.
Proof. intros Hlt ->. by apply key_lt_irrefl in Hlt. Qed.

Lemma key_nlt k k' : ~ key_lt k k' -> k <> k' -> key_lt k' k.
Proof. intros. destruct (trichotomy key_lt k k') as [|[|]]; naive_solver. Qed.

Lemma om_sorted_cons k v m :
  om_sorted ((k, v) :: m) <-> om_sorted m /\ Forall (fun q => key_lt k q.1) m.
Proof. unfold om_sorted. split; [by inversion 1 | by intros [? ?]; constructor]. Qed.

Lemma om_lookup_above k k' m :
  Forall (fun q => key_lt k q.1) m -> ~ key_lt k k' -> om_lookup m k' = None.
Proof.
  induction 1 as [|[k1 v1] m Hlt Hm IH]; intros Hn; [done|]. simpl in *.
  rewrite decide_False; [auto|]. intros ->. done.
Qed.

Lemma om_lookup_head k m : Forall (fun q => key_lt k q.1) m -> om_lookup m k = None.
Proof. intros Hm. eapply om_lookup_above; [done|]. apply key_lt_irrefl. Qed.

Lemma om_lookup_set_eq m k v : om_lookup (om_set m k v) k = Some v.
Proof.
  induction m as [|[k' v'] m IH]; simpl; repeat case_decide; simplify_eq; simpl;
    repeat case_decide; simplify_eq; done.
Qed.

Lemma om_lookup_set_ne m k k' v : k <> k' -> om_lookup (om_set m k v) k' = om_lookup m k'.
Proof.
  intros Hne. induction m as [|[k1 v1] m IH]; simpl; repeat case_decide; simplify_eq; simpl;
    repeat case_decide; simplify_eq; done.
Qed.

Lemma om_lookup_set m k k' v :
  om_lookup (om_set m k v) k' = if decide (k = k') then Some v else om_lookup m k'.
Proof. case_decide; subst; [apply om_lookup_set_eq | by apply om_lookup_set_ne]. Qed.

Lemma om_set_Forall (P : K * V -> Prop) m k v :
  P (k, v) -> Forall P m -> Forall P (om_set m k v).
Proof.
  intros Hk. induction 1 as [|[k1 v1] m H1 Hm IH]; simpl; repeat case_decide; auto.
Qed.

Lemma om_set_sorted m k v : om_sorted m -> om_sorted (om_set m k v).
Proof.
  induction m as [|[k1 v1] m IH]; simpl.
  - intros _. apply om_sorted_cons. split; constructor.
  - rewrite om_sorted_cons. intros [Hs Hm]. repeat case_decide; subst.
    + by apply om_sorted_cons.
    + rewrite !om_sorted_cons. split; [done|]. constructor; [done|].
      eapply Forall_impl; [done|]. intros q Hq. by etransitivity.
    + apply om_sorted_cons. split; [auto|]. apply om_set_Forall; [|done].
      apply key_nlt; auto.
Qed.

Lemma om_set_id m k v : om_sorted m -> om_lookup m k = Some v -> om_set m k v = m.
Proof.
  induction m as [|[k1 v1] m IH]; simpl; [done|].
  rewrite om_sorted_cons. intros [Hs Hm]. case_decide; subst; [by intros [= ->]|].
  intros Hl. rewrite decide_False; [by rewrite IH|].
  intros Hlt. rewrite (om_lookup_above k1) in Hl; [done|done|].
  intros Hlt'. apply (key_lt_irrefl k). by etransitivity.
Qed.

Lemma om_lookup_insert m k k' v :
  om_lookup (om_insert m k v) k' =
    if decide (k = k') then Some (default v (om_lookup m k)) else om_lookup m k'.
Proof.
  unfold om_insert. destruct (om_lookup m k) eqn:Hk; simpl.
  - by case_decide; subst.
  - apply om_lookup_set.
Qed.

Lemma om_insert_Forall (P : K * V -> Prop) m k v :
  P (k, v) -> Forall P m -> Forall P (om_insert m k v).
Proof. unfold om_insert. destruct (om_lookup m k); auto using om_set_Forall. Qed.

Lemma om_insert_sorted m k v : om_sorted m -> om_sorted (om_insert m k v).
Proof. unfold om_insert. destruct (om_lookup m k); auto using om_set_sorted. Qed.

Lemma om_erase_Forall (P : K * V -> Prop) m k : Forall P m -> Forall P (om_erase m k).
Proof. induction 1 as [|[k1 v1] m H1 Hm IH]; simpl; [done|]. case_decide; auto. Qed.

Lemma om_erase_sorted m k : om_sorted m -> om_sorted (om_erase m k).
Proof.
  induction m as [|[k1 v1] m IH]; simpl; [done|]. rewrite om_sorted_cons. intros [Hs Hm].
  case_decide; [done|]. apply om_sorted_cons. auto using om_erase_Forall.
Qed.

Lemma om_lookup_erase m k k' :
  om_sorted m -> om_lookup (om_erase m k) k' = if decide (k = k') then None else om_lookup m k'.
Proof.
  induction m as [|[k1 v1] m IH]; simpl; [by case_decide|].
  rewrite om_sorted_cons. intros [Hs Hm].
  specialize (IH Hs). repeat (case_decide; subst; simpl); rewrite ?IH; try done;
    repeat case_decide; subst; try done; by apply om_lookup_head.
Qed.


Lemma om_erase_below_sorted m k : om_sorted m -> om_sorted (om_erase_below m k).
Proof.
  induction m as [|[k1 v1] m IH]; simpl; [done|]. intros Hs. case_decide; [|done].
  apply om_sorted_cons in Hs as [? ?]. auto.
Qed.

Lemma om_erase_above_Forall (P : K * V -> Prop) m k :
  Forall P m -> Forall P (om_erase_above m k).
Proof. induction 1 as [|[k1 v1] m H1 Hm IH]; simpl; [done|]. case_decide; auto. Qed.

Lemma om_erase_above_sorted m k : om_sorted m -> om_sorted (om_erase_above m k).
Proof.
  induction m as [|[k1 v1] m IH]; simpl; [done|]. rewrite om_sorted_cons. intros [Hs Hm].
  case_decide; [constructor|]. apply om_sorted_cons. auto using om_erase_above_Forall.
Qed.

Lemma om_lookup_erase_below m k k' :
  om_sorted m ->
  om_lookup (om_erase_below m k) k' = if decide (key_lt k' k) then None else om_lookup m k'.
Proof.
  induction m as [|[k1 v1] m IH]; simpl; [by case_decide|].
  rewrite om_sorted_cons. intros [Hs Hm]. destruct (decide (key_lt k1 k)) as [Hd|Hd].
  - rewrite IH by done. repeat case_decide; subst; done.
  - simpl. repeat case_decide; subst; try done.
    apply (om_lookup_above k1); [done|]. intros Hlt. destruct Hd. by etransitivity.
Qed.

Lemma om_lookup_erase_above m k k' :
  om_sorted m ->
  om_lookup (om_erase_above m k) k' = if decide (key_lt k k') then None else om_lookup m k'.
Proof.
  induction m as [|[k1 v1] m IH]; simpl; [by case_decide|].
  rewrite om_sorted_cons. intros [Hs Hm]. destruct (decide (key_lt k k1)) as [Hd|Hd]; simpl.
  - case_decide as Hd'; [done|]. case_decide; subst; [done|]. symmetry.
    apply (om_lookup_above k1); [done|]. intros Hlt. destruct Hd'. by etransitivity.
  - rewrite IH by done. repeat case_decide; subst; done.
Qed.

Lemma om_lookup_elem m k v : om_sorted m -> om_lookup m k = Some v <-> (k, v) ∈ m.
Proof.
  induction m as [|[k1 v1] m IH]; simpl.
  - intros _. split; [done|]. by intros ?%not_elem_of_nil.
  - rewrite om_sorted_cons. intros [Hs Hm]. rewrite elem_of_cons, <-IH by done.
    case_decide; subst; split; intros Hx; try naive_solver.
    destruct Hx as [Hx|Hx]; [congruence|]. rewrite om_lookup_head in Hx by done. done.
Qed.

Lemma om_sorted_keys m : om_sorted m -> StronglySorted key_lt (map fst m).
Proof.
  induction 1 as [|[k v] m _ IH Hm]; simpl; constructor; [done|].
  by apply Forall_map.
Qed.

Lemma om_elem_keys m k : k ∈ map fst m <-> is_Some (om_lookup m k).
Proof.
  induction m as [|[k' v] m IH]; simpl.
  - split; [by intros ?%elem_of_nil | by intros [? [=]]].
  - rewrite elem_of_cons, IH. case_decide; subst; [|naive_solver].
    split; [by eexists | by left].
Qed.

(** Writing above every key appends. *)
Lemma om_lookup_below m k : Forall (fun q => key_lt q.1 k) m -> om_lookup m k = None.
Proof.
  induction 1 as [|[k1 v1] m Hk _ IH]; simpl; [done|].
  rewrite decide_False; [done|]. intros ->. by apply key_lt_irrefl in Hk.
Qed.

Lemma om_set_above m k v :
  Forall (fun q => key_lt q.1 k) m -> om_set m k v = m ++ [(k, v)].
Proof.
  induction 1 as [|[k1 v1] m Hk _ IH]; simpl in *; [done|].
  rewrite decide_False by (intros ->; by apply key_lt_irrefl in Hk).
  rewrite decide_False; [by rewrite IH|]. intros Hk'.
  by apply (key_lt_irrefl k); transitivity k1.
Qed.

Lemma om_set_last m k v v' :
  Forall (fun q => key_lt q.1 k) m -> om_set (m ++ [(k, v)]) k v' = m ++ [(k, v')].
Proof.
  induction 1 as [|[k1 v1] m Hk _ IH]; simpl in *; [by rewrite decide_True|].
  rewrite decide_False by (intros ->; by apply key_lt_irrefl in Hk).
  rewrite decide_False; [by rewrite IH|]. intros Hk'.
  by apply (key_lt_irrefl k); transitivity k1.
Qed.

Lemma om_insert_above m k v :
  Forall (fun q => key_lt q.1 k) m -> om_insert m k v = m ++ [(k, v)].
Proof. intros Hm. unfold om_insert. by rewrite om_lookup_below, om_set_above. Qed.

Lemma om_sorted_app_inv m1 k v m2 :
  om_sorted (m1 ++ (k, v) :: m2) -> Forall (fun q => key_lt q.1 k) m1.
Proof.
  induction m1 as [|[k1 v1] m1 IH]; simpl; [by constructor|].
  rewrite om_sorted_cons. intros [Hs Hm]. constructor; [|by apply IH].
  rewrite Forall_app in Hm. destruct Hm as [_ Hm]. by inversion Hm.
Qed.
End Lemmas.

Create HintDb omap.
#[export] Hint Resolve om_set_sorted om_insert_sorted om_erase_sorted om_erase_below_sorted
  om_erase_above_sorted : omap.
