(* ===== verification/StringUtil.v ===== *)
(** * String helpers

    [Core/StringUtil.cc]: the predicates and joins the other components call,
    and the two facts of [Core::StringUtil::format] their messages rest on: a
    [%s] argument is a C string, so it ends at its first NUL byte. *)

From Stdlib Require Import ZArith Lia Ascii String.
From stdpp Require Import base gmap strings list fin_maps sorting.
From S2P Require Import Prelude.
Local Open Scope string_scope.

(** [haystack.compare(0, needle.length(), needle) == 0] *)
Definition startsWith (haystack needle : string) : bool :=
  String.eqb (substring 0 (String.length needle) haystack) needle.

(** [haystack.compare(haystack.length() - needle.length(), needle.length(), needle) == 0]
    where the haystack is at least as long as the needle. *)
Definition endsWith (haystack needle : string) : bool :=
  if (String.length haystack <? String.length needle)%nat then false
  else String.eqb (substring (String.length haystack - String.length needle)
                             (String.length needle) haystack) needle.

(** [join(components, glue)]: the loop adds the glue after every component but
    the last. *)
Fixpoint join (components : list string) (glue : string) : string :=
  match components with
  | [] => ""
  | [c] => c
  | c :: cs => c +:+ glue +:+ join cs glue
  end.

(** The bytes [c_str()] passes to a [%s]: those before the first NUL. *)
Fixpoint c_str (s : string) : string :=
  match s with
  | EmptyString => EmptyString
  | String a s' => if Ascii.eqb a Ascii.zero then EmptyString else String a (c_str s')
  end.

Definition string_empty (s : string) : bool :=
  match s with EmptyString => true | String _ _ => false end.

Fixpoint has_char (c : ascii) (s : string) : bool :=
  match s with
  | EmptyString => false
  | String a s' => Ascii.eqb a c || has_char c s'
  end.

Lemma startsWith_char (c : ascii) (s : string) :
  startsWith s (String c "") = true <-> exists s', s = String c s'.
Proof.
  unfold startsWith. rewrite String.eqb_eq. destruct s as [|a s]; simpl.
  - split; [done | by intros [? ?]].
  - split.
    + intros Heq. exists s. destruct s; simpl in Heq; by injection Heq as ->.
    + intros [s' [= -> ->]]. by destruct s'.
Qed.

Lemma substring_last (s : string) :
  substring (String.length s) 1 s = "".
Proof. induction s as [|a s IH]; simpl; auto. Qed.

Lemma endsWith_char (c : ascii) (s : string) :
  endsWith s (String c "") = true -> has_char c s = true.
Proof.
  unfold endsWith. simpl. destruct s as [|a s]; [done|]. simpl.
  rewrite Nat.sub_0_r, String.eqb_eq. revert a.
  induction s as [|b s IH]; intros a.
  - simpl. intros [= ->]. by rewrite Ascii.eqb_refl.
  - intros Hs. simpl in Hs. rewrite orb_true_iff. right. by apply IH.
Qed.

Lemma no_char_not_endsWith (c : ascii) (s : string) :
  has_char c s = false -> endsWith s (String c "") = false.
Proof.
  intros Hc. apply not_true_iff_false. intros He%endsWith_char. congruence.
Qed.

Lemma string_app_cons (a : ascii) (s t : string) : String a s +:+ t = String a (s +:+ t).
Proof. done. Qed.

Lemma string_app_assoc (s t u : string) : (s +:+ t) +:+ u = s +:+ (t +:+ u).
Proof. induction s as [|a s IH]; [done|]. rewrite !string_app_cons. by rewrite IH. Qed.

Lemma string_app_nil_r (s : string) : s +:+ "" = s.
Proof. induction s as [|a s IH]; [done|]. rewrite string_app_cons. by rewrite IH. Qed.

Lemma has_char_app (c : ascii) (s t : string) :
  has_char c (s +:+ t) = has_char c s || has_char c t.
Proof.
  induction s as [|a s IH]; [done|]. rewrite string_app_cons. simpl. by rewrite IH, orb_assoc.
Qed.
