(* ===== verification/Tree.v ===== *)
(** * The replicated tree

    [Tree/Tree.cc]: the hierarchical key-value store that the state machine
    replicates. [Directory] and [File] are the nodes, [Path] the parsed form of
    a symbolic path, [Tree] the store with its statistics.

    A [Directory*] into the tree is modelled by the names that lead to it from
    [superRoot] ([DirPtr]); the C++ pointers the operations hold are never kept
    across operations, and each directory has one owner, so the names determine
    the object. [Directory_at] runs a method on the object a pointer designates. *)

From Stdlib Require Import ZArith Lia Ascii String.
From stdpp Require Import base gmap strings list fin_maps sorting.
From S2P Require Import Prelude OrderedMap StringUtil.
Local Open Scope string_scope.
Local Open Scope Z_scope.
Local Open Scope list_scope.

(** ** Results *)

Inductive Status : Type :=
| OK
| INVALID_ARGUMENT
| LOOKUP_ERROR
| TYPE_ERROR
| CONDITION_NOT_MET.

#[export] Instance Status_eq_dec : EqDecision Status.
Proof. solve_decision. Defined.

Record Result : Type := mkResult { status : Status; error : string }.

Definition Result_init : Result := mkResult OK "".

(** ** Files and directories *)

Record File : Type := mkFile { contents : string }.

Definition File_init : File := mkFile "".

Inductive Directory : Type :=
| mkDirectory (ds : list (string * Directory)) (fs : list (string * File)).

Definition directories (d : Directory) : list (string * Directory) :=
  let 'mkDirectory ds _ := d in ds.
Definition files (d : Directory) : list (string * File) :=
  let 'mkDirectory _ fs := d in fs.

Definition Directory_init : Directory := mkDirectory [] [].

(** [assert(!name.empty()); assert(!endsWith(name, "/"));] *)
Definition assert_name (name : string) : outcome unit :=
  if string_empty name then Fail AssertFailed
  else if endsWith name "/" then Fail AssertFailed
  else Ok tt.

Definition Directory_getChildren (d : Directory) : list string :=
  map (fun p => p.1 +:+ "/") (directories d) ++ map fst (files d).

Definition Directory_lookupDirectory (name : string) : M Directory (option Directory) :=
  lift (assert_name name) ;;;
  gets (fun d => om_lookup (directories d) name).

Definition Directory_lookupFile (name : string) : M Directory (option File) :=
  lift (assert_name name) ;;;
  gets (fun d => om_lookup (files d) name).

(** Returns [NULL] ([false]) if [name] is a file; [&directories[name]] creates
    the directory if there is none. *)
Definition Directory_makeDirectory (name : string) : M Directory bool :=
  lift (assert_name name) ;;;
  let! f := Directory_lookupFile name in
  match f with
  | Some _ => ret false
  | None =>
      modify (fun d => mkDirectory (om_insert (directories d) name Directory_init) (files d)) ;;;
      ret true
  end.

Definition Directory_removeDirectory (name : string) : M Directory unit :=
  lift (assert_name name) ;;;
  modify (fun d => mkDirectory (om_erase (directories d) name) (files d)).

Definition Directory_makeFile (name : string) : M Directory bool :=
  lift (assert_name name) ;;;
  let! sub := Directory_lookupDirectory name in
  match sub with
  | Some _ => ret false
  | None =>
      modify (fun d => mkDirectory (directories d) (om_insert (files d) name File_init)) ;;;
      ret true
  end.

Definition Directory_removeFile (name : string) : M Directory bool :=
  lift (assert_name name) ;;;
  let! d := get in
  put (mkDirectory (directories d) (om_erase (files d) name)) ;;;
  ret (match om_lookup (files d) name with Some _ => true | None => false end).

(** ** Pointers into the tree *)

Definition DirPtr : Type := list string.

(** [ptr->method()]: dereferencing a pointer to no directory is undefined. *)
Fixpoint Directory_at {A} (ptr : DirPtr) (m : M Directory A) : M Directory A :=
  match ptr with
  | [] => m
  | name :: ptr' => fun d =>
      match om_lookup (directories d) name with
      | None => Fail UndefinedBehavior
      | Some sub =>
          match Directory_at ptr' m sub with
          | Ok (a, sub') => Ok (a, mkDirectory (om_set (directories d) name sub') (files d))
          | Fail f => Fail f
          end
      end
  end.

(** ** Paths *)

Record Path : Type := mkPath {
  path_result : Result;
  symbolic : string;
  parents : list string;
  target : string
}.

(** The loop over the characters: [word] is the component being read. *)
Fixpoint Path_split (s : string) (word : string) (acc : list string) : list string :=
  match s with
  | EmptyString => if string_empty word then acc else acc ++ [word]
  | String c s' =>
      if Ascii.eqb c "/"%char then
        if string_empty word then Path_split s' word acc
        else Path_split s' "" (acc ++ [word])
      else Path_split s' (word +:+ String c "") acc
  end.

Definition Path_init (sym : string) : Path :=
  if negb (startsWith sym "/") then
    mkPath (mkResult INVALID_ARGUMENT ("'" +:+ c_str sym +:+ "' is not a valid path"))
           sym [] ""
  else
    let ps := Path_split sym "" ["root"] in
    mkPath Result_init sym (removelast ps) (List.last ps "").

(** [parentsThrough(it)], [it] pointing at the element with offset [i]: the
    names after ["root"] up to and including that one. *)
Definition Path_parentsThrough (ps : list string) (i : nat) : string :=
  match take i (drop 1 ps) with
  | [] => "/"
  | l => String.concat "" (map (fun n => "/" +:+ n) l)
  end.

(** ** The tree *)

Inductive Counter : Type :=
| numConditionsChecked
| numConditionsFailed
| numMakeDirectoryAttempted
| numMakeDirectorySuccess
| numListDirectoryAttempted
| numListDirectorySuccess
| numRemoveDirectoryAttempted
| numRemoveDirectoryParentNotFound
| numRemoveDirectoryTargetNotFound
| numRemoveDirectoryDone
| numRemoveDirectorySuccess
| numWriteAttempted
| numWriteSuccess
| numReadAttempted
| numReadSuccess
| numRemoveFileAttempted
| numRemoveFileParentNotFound
| numRemoveFileTargetNotFound
| numRemoveFileDone
| numRemoveFileSuccess.

#[export] Instance Counter_eq_dec : EqDecision Counter.
Proof. solve_decision. Defined.

(** The counters are the [uint64_t] members named by [Counter]. *)
Record Tree : Type := mkTree { superRoot : Directory; stats : Counter -> Z }.

Definition set_superRoot (d : Directory) (t : Tree) : Tree := mkTree d (stats t).

(** [++counter] *)
Definition bump (c : Counter) : M Tree unit :=
  modify (fun t => mkTree (superRoot t)
    (fun c' => if decide (c = c') then u64 (stats t c' + 1) else stats t c')).

Definition at_dir {A} (ptr : DirPtr) (m : M Directory A) : M Tree A :=
  zoom superRoot set_superRoot (Directory_at ptr m).

(** The constructor makes the root directory so that clients need not. *)
Definition Tree_init : Tree :=
  match Directory_makeDirectory "root" Directory_init with
  | Ok (_, d) => mkTree d (fun _ => 0)
  | Fail _ => mkTree Directory_init (fun _ => 0)
  end.

Definition noParent (p : Path) (i : nat) : Result :=
  mkResult LOOKUP_ERROR ("Parent " +:+ c_str (Path_parentsThrough (parents p) i) +:+
                         " of " +:+ c_str (symbolic p) +:+ " does not exist").
Definition parentIsFile (p : Path) (i : nat) : Result :=
  mkResult TYPE_ERROR ("Parent " +:+ c_str (Path_parentsThrough (parents p) i) +:+
                       " of " +:+ c_str (symbolic p) +:+ " is a file").

(** The loops over [path.parents]: [current] is the directory reached so far,
    [i] the offset of the iterator. [None] is the [NULL] left in [*parent]. *)
Fixpoint normalLookup_loop (p : Path) (rest : list string) (i : nat) (current : DirPtr)
    : M Tree (Result * option DirPtr) :=
  match rest with
  | [] => ret (Result_init, Some current)
  | name :: rest' =>
      let! next := at_dir current (Directory_lookupDirectory name) in
      match next with
      | None =>
          let! f := at_dir current (Directory_lookupFile name) in
          match f with
          | None => ret (noParent p i, None)
          | Some _ => ret (parentIsFile p i, None)
          end
      | Some _ => normalLookup_loop p rest' (S i) (current ++ [name])
      end
  end.

Definition normalLookup (p : Path) : M Tree (Result * option DirPtr) :=
  normalLookup_loop p (parents p) 0 [].

Fixpoint mkdirLookup_loop (p : Path) (rest : list string) (i : nat) (current : DirPtr)
    : M Tree (Result * option DirPtr) :=
  match rest with
  | [] => ret (Result_init, Some current)
  | name :: rest' =>
      let! made := at_dir current (Directory_makeDirectory name) in
      if made then mkdirLookup_loop p rest' (S i) (current ++ [name])
      else ret (parentIsFile p i, None)
  end.

Definition mkdirLookup (p : Path) : M Tree (Result * option DirPtr) :=
  mkdirLookup_loop p (parents p) 0 [].

Definition Tree_makeDirectory (symbolicPath : string) : M Tree Result :=
  bump numMakeDirectoryAttempted ;;;
  let p := Path_init symbolicPath in
  if negb (bool_decide (status (path_result p) = OK)) then ret (path_result p) else
  let! (result, parent) := mkdirLookup p in
  match parent with
  | Some parent =>
      let! made := at_dir parent (Directory_makeDirectory (target p)) in
      if made then
        bump numMakeDirectorySuccess ;;;
        ret result
      else ret (mkResult TYPE_ERROR (c_str (symbolic p) +:+ " already exists but is a file"))
  | None => ret result
  end.

Definition Tree_listDirectory (symbolicPath : string) : M Tree (Result * list string) :=
  bump numListDirectoryAttempted ;;;
  let p := Path_init symbolicPath in
  if negb (bool_decide (status (path_result p) = OK)) then ret (path_result p, []) else
  let! (result, parent) := normalLookup p in
  match parent with
  | Some parent =>
      let! targetDir := at_dir parent (Directory_lookupDirectory (target p)) in
      match targetDir with
      | None =>
          let! f := at_dir parent (Directory_lookupFile (target p)) in
          match f with
          | None => ret (mkResult LOOKUP_ERROR (c_str (symbolic p) +:+ " does not exist"), [])
          | Some _ => ret (mkResult TYPE_ERROR (c_str (symbolic p) +:+ " is a file"), [])
          end
      | Some d =>
          bump numListDirectorySuccess ;;;
          ret (result, Directory_getChildren d)
      end
  | None => ret (result, [])
  end.

Definition Tree_removeDirectory (symbolicPath : string) : M Tree Result :=
  bump numRemoveDirectoryAttempted ;;;
  let p := Path_init symbolicPath in
  if negb (bool_decide (status (path_result p) = OK)) then ret (path_result p) else
  let! (result, parent) := normalLookup p in
  if bool_decide (status result = LOOKUP_ERROR) then
    bump numRemoveDirectoryParentNotFound ;;;
    bump numRemoveDirectorySuccess ;;;
    ret Result_init
  else match parent with
  | Some parent =>
      let! targetDir := at_dir parent (Directory_lookupDirectory (target p)) in
      match targetDir with
      | None =>
          let! f := at_dir parent (Directory_lookupFile (target p)) in
          match f with
          | Some _ => ret (mkResult TYPE_ERROR (c_str (symbolic p) +:+ " is a file"))
          | None =>
              bump numRemoveDirectoryTargetNotFound ;;;
              bump numRemoveDirectorySuccess ;;;
              ret result
          end
      | Some _ =>
          at_dir parent (Directory_removeDirectory (target p)) ;;;
          (* removeDirectory("/"): [parent == &superRoot] *)
          when (bool_decide (parent = []))
            (let! _ := at_dir parent (Directory_makeDirectory (target p)) in ret tt) ;;;
          bump numRemoveDirectoryDone ;;;
          bump numRemoveDirectorySuccess ;;;
          ret result
      end
  | None => ret result
  end.

Definition Tree_write (symbolicPath newContents : string) : M Tree Result :=
  bump numWriteAttempted ;;;
  let p := Path_init symbolicPath in
  if negb (bool_decide (status (path_result p) = OK)) then ret (path_result p) else
  let! (result, parent) := normalLookup p in
  match parent with
  | Some parent =>
      let! made := at_dir parent (Directory_makeFile (target p)) in
      if made then
        (* targetFile->contents = contents *)
        at_dir parent (modify (fun d =>
          mkDirectory (directories d) (om_set (files d) (target p) (mkFile newContents)))) ;;;
        bump numWriteSuccess ;;;
        ret result
      else ret (mkResult TYPE_ERROR (c_str (symbolic p) +:+ " is a directory"))
  | None => ret result
  end.

Definition Tree_read (symbolicPath : string) : M Tree (Result * string) :=
  bump numReadAttempted ;;;
  let p := Path_init symbolicPath in
  if negb (bool_decide (status (path_result p) = OK)) then ret (path_result p, "") else
  let! (result, parent) := normalLookup p in
  match parent with
  | Some parent =>
      let! targetFile := at_dir parent (Directory_lookupFile (target p)) in
      match targetFile with
      | None =>
          let! sub := at_dir parent (Directory_lookupDirectory (target p)) in
          match sub with
          | Some _ => ret (mkResult TYPE_ERROR (c_str (symbolic p) +:+ " is a directory"), "")
          | None => ret (mkResult LOOKUP_ERROR (c_str (symbolic p) +:+ " does not exist"), "")
          end
      | Some f =>
          bump numReadSuccess ;;;
          ret (result, contents f)
      end
  | None => ret (result, "")
  end.

Definition Tree_removeFile (symbolicPath : string) : M Tree Result :=
  bump numRemoveFileAttempted ;;;
  let p := Path_init symbolicPath in
  if negb (bool_decide (status (path_result p) = OK)) then ret (path_result p) else
  let! (result, parent) := normalLookup p in
  if bool_decide (status result = LOOKUP_ERROR) then
    bump numRemoveFileParentNotFound ;;;
    bump numRemoveFileSuccess ;;;
    ret Result_init
  else match parent with
  | Some parent =>
      let! sub := at_dir parent (Directory_lookupDirectory (target p)) in
      match sub with
      | Some _ => ret (mkResult TYPE_ERROR (c_str (symbolic p) +:+ " is a directory"))
      | None =>
          let! removed := at_dir parent (Directory_removeFile (target p)) in
          bump (if removed : bool then numRemoveFileDone else numRemoveFileTargetNotFound) ;;;
          bump numRemoveFileSuccess ;;;
          ret result
      end
  | None => ret result
  end.

Definition Tree_checkCondition (path required : string) : M Tree Result :=
  bump numConditionsChecked ;;;
  let! (readResult, actualContents) := Tree_read path in
  if bool_decide (status readResult = OK) then
    if String.eqb required actualContents then ret Result_init
    else
      bump numConditionsFailed ;;;
      ret (mkResult CONDITION_NOT_MET
             ("Path '" +:+ c_str path +:+ "' has value '" +:+ c_str actualContents +:+
              "', not '" +:+ c_str required +:+ "' as required"))
  else if bool_decide (status readResult = LOOKUP_ERROR) && string_empty required then
    ret Result_init
  else
    bump numConditionsFailed ;;;
    ret (mkResult CONDITION_NOT_MET
           ("Could not read value at path '" +:+ c_str path +:+ "': " +:+
            c_str (error readResult))).

(** [updateServerStats]: each counter under its protobuf field. *)
Definition Tree_updateServerStats (t : Tree) : list (string * Z) :=
  [("num_conditions_checked", stats t numConditionsChecked);
   ("num_conditions_failed", stats t numConditionsFailed);
   ("num_make_directory_attempted", stats t numMakeDirectoryAttempted);
   ("num_make_directory_success", stats t numMakeDirectorySuccess);
   ("num_list_directory_attempted", stats t numListDirectoryAttempted);
   ("num_list_directory_success", stats t numListDirectorySuccess);
   ("num_remove_directory_attempted", stats t numRemoveDirectoryAttempted);
   ("num_remove_directory_parent_not_found", stats t numRemoveDirectoryParentNotFound);
   ("num_remove_directory_target_not_found", stats t numRemoveDirectoryTargetNotFound);
   ("num_remove_directory_done", stats t numRemoveDirectoryDone);
   ("num_remove_directory_success", stats t numRemoveDirectorySuccess);
   ("num_write_attempted", stats t numWriteAttempted);
   ("num_write_success", stats t numWriteSuccess);
   ("num_read_attempted", stats t numReadAttempted);
   ("num_read_success", stats t numReadSuccess);
   ("num_remove_file_attempted", stats t numRemoveFileAttempted);
   ("num_remove_file_parent_not_found", stats t numRemoveFileParentNotFound);
   ("num_remove_file_target_not_found", stats t numRemoveFileTargetNotFound);
   ("num_remove_file_done", stats t numRemoveFileDone);
   ("num_remove_file_success", stats t numRemoveFileSuccess)].

Example tree_demo :
  match (Tree_makeDirectory "/a/b" ;;; Tree_write "/a/b/f" "x" ;;; Tree_read "/a//b/f/") Tree_init with
  | Ok (r, _) => r = (Result_init, "x")
  | Fail _ => False
  end.
Proof. vm_compute. reflexivity. Qed.

(** ** Names and paths *)

(** What the assertions of [Directory]'s methods need of a name, and a little more. *)
Definition valid_name (n : string) : Prop := n <> "" /\ has_char "/" n = false.

Lemma assert_name_valid n : valid_name n -> assert_name n = Ok tt.
Proof.
  intros [Hne Hslash]. unfold assert_name.
  destruct n as [|a n]; [done|]. cbn [string_empty].
  by rewrite no_char_not_endsWith.
Qed.

Lemma root_valid : valid_name "root".
Proof. by split. Qed.

Lemma Path_split_valid s word acc :
  has_char "/" word = false -> Forall valid_name acc ->
  Forall valid_name (Path_split s word acc).
Proof.
  revert word acc. induction s as [|c s IH]; intros word acc Hw Hacc; simpl.
  - destruct word as [|a w]; [done|]. simpl. apply Forall_app. split; [done|].
    constructor; [|done]. by split.
  - destruct (Ascii.eqb c "/"%char) eqn:Hc.
    + destruct word as [|a w]; simpl; [by apply IH|].
      apply IH; [done|]. apply Forall_app. split; [done|]. constructor; [by split|done].
    + apply IH; [|done]. rewrite has_char_app, Hw. simpl. by rewrite Hc.
Qed.

Lemma Path_split_acc s word acc : exists l, Path_split s word acc = acc ++ l.
Proof.
  revert word acc. induction s as [|c s IH]; intros word acc; simpl.
  - destruct (string_empty word); [exists []; by rewrite app_nil_r | by eexists].
  - destruct (Ascii.eqb c _); [destruct (string_empty word)|]; auto.
    destruct (IH "" (acc ++ [word])) as [l ->]. rewrite <-app_assoc. by eexists.
Qed.

(** The components of a path that [Path_init] accepts, ["root"] first. *)
Definition Path_components (p : Path) : list string := parents p ++ [target p].

Lemma Path_init_ok sym :
  status (path_result (Path_init sym)) = OK ->
  Forall valid_name (Path_components (Path_init sym)) /\
  exists l, Path_components (Path_init sym) = "root" :: l.
Proof.
  unfold Path_init. destruct (startsWith sym "/"); [|done]. simpl. intros _.
  unfold Path_components. simpl.
  destruct (Path_split_acc sym "" ["root"]) as [l Hl].
  assert (Path_split sym "" ["root"] <> []) as Hne by (by rewrite Hl).
  rewrite <-(app_removelast_last "" Hne). split.
  - apply Path_split_valid; [done|]. constructor; [apply root_valid|done].
  - rewrite Hl. by eexists.
Qed.
