(* ===== verification/TreeSpec.v ===== *)
(** * What the tree promises

    The abstract store is a function from absolute paths (lists of names, the
    first one ["root"]) to nodes. [abs] reads it off the directories; the
    [spec_*] functions say what each operation of [Tree] does to it, and
    [tree_refines] that the operations of [Tree] implement them, statuses and
    outputs included, without ever faulting. *)

From Stdlib Require Import ZArith Lia Ascii String.
From stdpp Require Import base gmap strings list fin_maps sorting.
From S2P Require Import Prelude OrderedMap StringUtil Tree.
Local Open Scope string_scope.
Local Open Scope Z_scope.
Local Open Scope list_scope.

Inductive node : Type :=
| NDir
| NFile (c : string).

#[export] Instance node_eq_dec : EqDecision node.
Proof. solve_decision. Defined.

Definition FS : Type := list string -> option node.

(** ** The abstraction of a directory *)

Fixpoint abs (d : Directory) (p : list string) : option node :=
  match p with
  | [] => Some NDir
  | n :: p' =>
      match om_lookup (directories d) n with
      | Some c => abs c p'
      | None =>
          match p' with
          | [] => match om_lookup (files d) n with Some f => Some (NFile (contents f)) | None => None end
          | _ :: _ => None
          end
      end
  end.

(** The directory a pointer designates, and the tree with it replaced. *)
Fixpoint dget (d : Directory) (p : list string) : option Directory :=
  match p with
  | [] => Some d
  | n :: p' => match om_lookup (directories d) n with Some c => dget c p' | None => None end
  end.

Fixpoint dset (d : Directory) (p : list string) (d' : Directory) : Directory :=
  match p with
  | [] => d'
  | n :: p' =>
      match om_lookup (directories d) n with
      | Some c => mkDirectory (om_set (directories d) n (dset c p' d')) (files d)
      | None => d
      end
  end.

(** Both maps of a directory are sorted, their keys are valid names, and no
    name is at once a directory and a file; and so on down the tree. *)
Inductive dir_wf : Directory -> Prop :=
| dir_wf_intro ds fs :
    om_sorted ds -> om_sorted fs ->
    Forall (fun q => valid_name q.1) ds -> Forall (fun q => valid_name q.1) fs ->
    (forall n c, om_lookup ds n = Some c -> om_lookup fs n = None) ->
    (forall n c, om_lookup ds n = Some c -> dir_wf c) ->
    dir_wf (mkDirectory ds fs).

(** ** The abstract operations, on the parents and the name of the target *)

Definition fs_set (p : list string) (x : option node) (fs : FS) : FS :=
  fun q => if decide (q = p) then x else fs q.

Fixpoint spec_parents (fs : FS) (done rest : list string) : Status :=
  match rest with
  | [] => OK
  | n :: rest' =>
      match fs (done ++ [n]) with
      | Some NDir => spec_parents fs (done ++ [n]) rest'
      | Some (NFile _) => TYPE_ERROR
      | None => LOOKUP_ERROR
      end
  end.

Definition spec_write (fs : FS) (ps : list string) (t c : string) : Status * FS :=
  match spec_parents fs [] ps with
  | OK => match fs (ps ++ [t]) with
          | Some NDir => (TYPE_ERROR, fs)
          | _ => (OK, fs_set (ps ++ [t]) (Some (NFile c)) fs)
          end
  | st => (st, fs)
  end.

Definition spec_read (fs : FS) (ps : list string) (t : string) : Status * string :=
  match spec_parents fs [] ps with
  | OK => match fs (ps ++ [t]) with
          | Some NDir => (TYPE_ERROR, "")
          | Some (NFile c) => (OK, c)
          | None => (LOOKUP_ERROR, "")
          end
  | st => (st, "")
  end.

(** Every prefix of the path that exists has to be a directory. *)
Fixpoint spec_blocked (fs : FS) (done rest : list string) : bool :=
  match rest with
  | [] => false
  | n :: rest' =>
      match fs (done ++ [n]) with
      | Some (NFile _) => true
      | _ => spec_blocked fs (done ++ [n]) rest'
      end
  end.

Definition spec_makeDirectory (fs : FS) (ps : list string) (t : string) : Status * FS :=
  if spec_blocked fs [] (ps ++ [t]) then (TYPE_ERROR, fs)
  else (OK, fun q => if decide (q `prefix_of` ps ++ [t]) then Some NDir else fs q).

Definition spec_removeDirectory (fs : FS) (ps : list string) (t : string) : Status * FS :=
  match spec_parents fs [] ps with
  | OK => match fs (ps ++ [t]) with
          | None => (OK, fs)
          | Some (NFile _) => (TYPE_ERROR, fs)
          | Some NDir =>
              (OK, fun q => if decide (ps = [] /\ q = [t]) then Some NDir
                            else if decide ((ps ++ [t]) `prefix_of` q) then None else fs q)
          end
  | LOOKUP_ERROR => (OK, fs)
  | st => (st, fs)
  end.

Definition spec_removeFile (fs : FS) (ps : list string) (t : string) : Status * FS :=
  match spec_parents fs [] ps with
  | OK => match fs (ps ++ [t]) with
          | Some NDir => (TYPE_ERROR, fs)
          | _ => (OK, fs_set (ps ++ [t]) None fs)
          end
  | LOOKUP_ERROR => (OK, fs)
  | st => (st, fs)
  end.

(** ** Lemmas on [dget], [dset] and [abs] *)

Lemma dir_wf_sorted d : dir_wf d -> om_sorted (directories d) /\ om_sorted (files d).
Proof. by destruct 1. Qed.

Lemma dir_wf_child d n c : dir_wf d -> om_lookup (directories d) n = Some c -> dir_wf c.
Proof. destruct 1; eauto. Qed.

Lemma dir_wf_disjoint d n c :
  dir_wf d -> om_lookup (directories d) n = Some c -> om_lookup (files d) n = None.
Proof. destruct 1; eauto. Qed.

Lemma dget_wf d p d' : dir_wf d -> dget d p = Some d' -> dir_wf d'.
Proof.
  revert d. induction p as [|n p IH]; intros d Hd; simpl; [by intros [= <-]|].
  destruct (om_lookup (directories d) n) eqn:Hn; [|done].
  apply IH. by eapply dir_wf_child.
Qed.

Lemma dset_wf d p d' : dir_wf d -> dir_wf d' -> dir_wf (dset d p d').
Proof.
  intros Hd Hd'. revert d Hd. induction p as [|n p IH]; intros d Hd; simpl; [done|].
  destruct (om_lookup (directories d) n) as [c|] eqn:Hn; [|done].
  destruct Hd as [ds fs H1 H2 H3 H4 H5 H6]; simpl in *.
  constructor; auto with omap.
  - apply om_set_Forall; [|done]. simpl. apply om_lookup_elem in Hn; [|done].
    rewrite Forall_forall in H3. by apply (H3 (n, c)).
  - intros n' c'. rewrite om_lookup_set. case_decide; subst; eauto.
  - intros n' c'. rewrite om_lookup_set. case_decide; subst; [intros [= <-]|]; eauto.
Qed.

Lemma dset_id d p d' : dir_wf d -> dget d p = Some d' -> dset d p d' = d.
Proof.
  revert d. induction p as [|n p IH]; intros d Hd; simpl; [by intros [= <-]|].
  destruct (om_lookup (directories d) n) as [c|] eqn:Hn; [|done]. intros Hp.
  rewrite IH; [|by eapply dir_wf_child|done].
  rewrite om_set_id; [by destruct d|by apply dir_wf_sorted|done].
Qed.

Lemma abs_dget d p d' r : dget d p = Some d' -> abs d (p ++ r) = abs d' r.
Proof.
  revert d. induction p as [|n p IH]; intros d; simpl; [by intros [= <-]|].
  destruct (om_lookup (directories d) n) eqn:Hn; [|done]. apply IH.
Qed.

Lemma abs_dset_in d p d1 d' r : dget d p = Some d1 -> abs (dset d p d') (p ++ r) = abs d' r.
Proof.
  revert d. induction p as [|n p IH]; intros d; simpl; [done|].
  destruct (om_lookup (directories d) n) eqn:Hn; [|done]. intros Hp.
  simpl. rewrite om_lookup_set_eq. by apply IH.
Qed.

Lemma abs_dset_out d p d' q : ~ p `prefix_of` q -> abs (dset d p d') q = abs d q.
Proof.
  revert d q. induction p as [|n p IH]; intros d q Hp; simpl.
  { destruct Hp. apply prefix_nil. }
  destruct (om_lookup (directories d) n) as [c|] eqn:Hn; [|done].
  destruct q as [|m q]; [done|]. simpl. rewrite om_lookup_set.
  case_decide; subst; [|done]. rewrite Hn. apply IH.
  intros Hpq. destruct Hp. by apply prefix_cons.
Qed.

Lemma dget_abs d p : dget d p = None -> abs d p <> Some NDir.
Proof.
  revert d. induction p as [|n p IH]; intros d; simpl; [done|].
  destruct (om_lookup (directories d) n); [apply IH|]. intros _.
  destruct p; [|done]. by destruct (om_lookup (files d) n).
Qed.

Lemma abs_dir d p : abs d p = Some NDir -> exists d', dget d p = Some d'.
Proof. intros Ha. destruct (dget d p) eqn:Hd; [by eexists|]. by apply dget_abs in Hd. Qed.

Lemma dget_snoc d p n :
  dget d (p ++ [n]) = d' ← dget d p; om_lookup (directories d') n.
Proof.
  revert d. induction p as [|m p IH]; intros d; simpl.
  - by destruct (om_lookup (directories d) n).
  - destruct (om_lookup (directories d) m); [apply IH | done].
Qed.

Lemma abs_child d n :
  abs d [n] = match om_lookup (directories d) n with
              | Some _ => Some NDir
              | None => match om_lookup (files d) n with
                        | Some f => Some (NFile (contents f)) | None => None end
              end.
Proof. simpl. by destruct (om_lookup (directories d) n). Qed.

(** ** Running a method on a directory of the tree *)

Definition tree_wf (t : Tree) : Prop :=
  dir_wf (superRoot t) /\ abs (superRoot t) ["root"] = Some NDir.

Lemma set_superRoot_id t : set_superRoot (superRoot t) t = t.
Proof. by destruct t. Qed.

Lemma wp_Directory_at {A} E ptr (m : M Directory A) Q d d1 :
  dget d ptr = Some d1 -> wp E m (fun a d' => Q a (dset d ptr d')) d1 ->
  wp E (Directory_at ptr m) Q d.
Proof.
  revert d Q. induction ptr as [|n ptr IH]; intros d Q; simpl; [by intros [= ->]|].
  unfold wp. destruct (om_lookup (directories d) n) as [c|] eqn:Hn; [|done].
  intros Hget Hm. specialize (IH c (fun a c' => Q a (mkDirectory (om_set (directories d) n c') (files d)))).
  unfold wp in IH. specialize (IH Hget Hm). by destruct (Directory_at ptr m c) as [[a c']|f].
Qed.

Lemma wp_at_dir {A} E ptr (m : M Directory A) Q t d1 :
  dget (superRoot t) ptr = Some d1 ->
  wp E m (fun a d' => Q a (set_superRoot (dset (superRoot t) ptr d') t)) d1 ->
  wp E (at_dir ptr m) Q t.
Proof. intros Hget Hm. apply wp_zoom. by eapply wp_Directory_at. Qed.

Lemma wp_assert_name {S} E n (Q : unit -> S -> Prop) s :
  valid_name n -> Q tt s -> wp E (lift (assert_name n)) Q s.
Proof. intros Hn HQ. apply wp_lift. by rewrite assert_name_valid. Qed.

Lemma wp_lookupDirectory E t ptr d1 n Q :
  tree_wf t -> dget (superRoot t) ptr = Some d1 -> valid_name n ->
  Q (om_lookup (directories d1) n) t ->
  wp E (at_dir ptr (Directory_lookupDirectory n)) Q t.
Proof.
  intros [Hwf _] Hget Hn HQ. eapply wp_at_dir; [done|].
  apply wp_bind, wp_assert_name; [done|]. apply wp_gets.
  by rewrite dset_id, set_superRoot_id.
Qed.

Lemma wp_lookupFile E t ptr d1 n Q :
  tree_wf t -> dget (superRoot t) ptr = Some d1 -> valid_name n ->
  Q (om_lookup (files d1) n) t ->
  wp E (at_dir ptr (Directory_lookupFile n)) Q t.
Proof.
  intros [Hwf _] Hget Hn HQ. eapply wp_at_dir; [done|].
  apply wp_bind, wp_assert_name; [done|]. apply wp_gets.
  by rewrite dset_id, set_superRoot_id.
Qed.

(** [normalLookup] walks the parents and changes nothing. *)
Lemma wp_normalLookup_loop E p rest i cur d1 Q t :
  tree_wf t -> dget (superRoot t) cur = Some d1 -> Forall valid_name rest ->
  (match spec_parents (abs (superRoot t)) cur rest with
   | OK => forall d2, dget (superRoot t) (cur ++ rest) = Some d2 ->
                      Q (Result_init, Some (cur ++ rest)) t
   | st => forall r, status r = st -> Q (r, None) t
   end) ->
  wp E (normalLookup_loop p rest i cur) Q t.
Proof.
  intros Hwf. revert i cur d1. induction rest as [|n rest IH]; intros i cur d1 Hget Hv; simpl.
  - rewrite app_nil_r. intros HQ. apply wp_ret. by eapply HQ.
  - inversion Hv as [|? ? Hn Hv']; subst. intros HQ.
    rewrite (abs_dget _ _ _ _ Hget), abs_child in HQ.
    apply wp_bind. eapply wp_lookupDirectory; [done..|].
    destruct (om_lookup (directories d1) n) as [c|] eqn:Hc.
    + apply (IH (S i) _ c); [by rewrite dget_snoc, Hget|done|]. by rewrite <-app_assoc.
    + apply wp_bind. eapply wp_lookupFile; [done..|].
      destruct (om_lookup (files d1) n); apply wp_ret; by apply HQ.
Qed.

Lemma wp_normalLookup E p Q t :
  tree_wf t -> Forall valid_name (parents p) ->
  (match spec_parents (abs (superRoot t)) [] (parents p) with
   | OK => forall d1, dget (superRoot t) (parents p) = Some d1 ->
                      Q (Result_init, Some (parents p)) t
   | st => forall r, status r = st -> Q (r, None) t
   end) ->
  wp E (normalLookup p) Q t.
Proof. intros Hwf Hv HQ. by eapply (wp_normalLookup_loop _ _ _ _ [] (superRoot t)). Qed.

Lemma wp_bump E c Q t :
  (forall st, Q tt (mkTree (superRoot t) st)) -> wp E (bump c) Q t.
Proof. intros HQ. apply wp_modify. apply HQ. Qed.

Ltac tree_step :=
  lazymatch goal with
  | |- wp _ (bump _) _ _ => apply wp_bump; intros ?
  | |- wp _ (bind _ _) _ _ => apply wp_bind
  | |- wp _ (ret _) _ _ => apply wp_ret
  end.
Ltac tree_go := repeat tree_step; cbn [superRoot set_superRoot fst snd].

(** Replacing the directory at [ps] by [d'] where only the name [n] differs
    changes the abstraction at [ps ++ [n]] and below it only. *)
Definition same_except (n : string) (d d' : Directory) : Prop :=
  forall q, ~ [n] `prefix_of` q -> abs d' q = abs d q.

Lemma abs_replace d ps d1 d' n q :
  dget d ps = Some d1 -> same_except n d1 d' ->
  abs (dset d ps d') q =
    if decide ((ps ++ [n]) `prefix_of` q) then abs d' (drop (length ps) q) else abs d q.
Proof.
  intros Hget Hsame. destruct (decide (ps `prefix_of` q)) as [[r ->]|Hp].
  - rewrite (abs_dset_in _ _ _ _ _ Hget), drop_app_length. case_decide as Hn; [done|].
    rewrite (abs_dget _ _ _ _ Hget). apply Hsame. contradict Hn. by apply prefix_app.
  - rewrite abs_dset_out by done. rewrite decide_False; [done|].
    contradict Hp. etransitivity; [|done]. by apply prefix_app_r.
Qed.

(** ** The changes the operations make inside one directory *)

Lemma same_except_intro n ds fs ds' fs' :
  (forall m, m <> n -> om_lookup ds' m = om_lookup ds m) ->
  (forall m, m <> n -> om_lookup fs' m = om_lookup fs m) ->
  same_except n (mkDirectory ds fs) (mkDirectory ds' fs').
Proof.
  intros Hds Hfs [|m q] Hq; [done|]. simpl.
  assert (m <> n) by (intros ->; destruct Hq; by exists q).
  by rewrite Hds, Hfs.
Qed.

Definition put_file (n c : string) (d : Directory) : Directory :=
  mkDirectory (directories d) (om_set (om_insert (files d) n File_init) n (mkFile c)).
Definition drop_file (n : string) (d : Directory) : Directory :=
  mkDirectory (directories d) (om_erase (files d) n).
Definition put_dir (n : string) (d : Directory) : Directory :=
  mkDirectory (om_insert (directories d) n Directory_init) (files d).
Definition drop_dir (n : string) (d : Directory) : Directory :=
  mkDirectory (om_erase (directories d) n) (files d).

Lemma Directory_init_wf : dir_wf Directory_init.
Proof. constructor; done || constructor. Qed.

Section Local.
Context (n : string) (Hn : valid_name n) (d : Directory) (Hd : dir_wf d).

Lemma put_file_wf c : om_lookup (directories d) n = None -> dir_wf (put_file n c d).
Proof.
  destruct Hd as [ds fs H1 H2 H3 H4 H5 H6]; simpl. intros Hnone.
  constructor; simpl; auto with omap.
  - by repeat first [apply om_set_Forall | apply om_insert_Forall].
  - intros m sub Hm. rewrite om_lookup_set, om_lookup_insert.
    repeat case_decide; subst; [congruence..|]. eauto.
Qed.

Lemma drop_file_wf : dir_wf (drop_file n d).
Proof.
  destruct Hd as [ds fs H1 H2 H3 H4 H5 H6]; simpl. constructor; simpl; auto with omap.
  - by apply om_erase_Forall.
  - intros m sub Hm. rewrite om_lookup_erase by done. case_decide; eauto.
Qed.

Lemma put_dir_wf : om_lookup (files d) n = None -> dir_wf (put_dir n d).
Proof.
  destruct Hd as [ds fs H1 H2 H3 H4 H5 H6]; simpl. intros Hnone.
  constructor; simpl; auto with omap.
  - by apply om_insert_Forall.
  - intros m sub. rewrite om_lookup_insert. case_decide; subst; eauto.
  - intros m sub. rewrite om_lookup_insert. case_decide; subst; [|eauto].
    intros [= <-]. destruct (om_lookup ds m) eqn:Hm; eauto using Directory_init_wf.
Qed.

Lemma drop_dir_wf : dir_wf (drop_dir n d).
Proof.
  destruct Hd as [ds fs H1 H2 H3 H4 H5 H6]; simpl. constructor; simpl; auto with omap.
  - by apply om_erase_Forall.
  - intros m sub. rewrite om_lookup_erase by done. case_decide; [done|]. eauto.
  - intros m sub. rewrite om_lookup_erase by done. case_decide; [done|]. eauto.
Qed.

Lemma put_file_same c : same_except n d (put_file n c d).
Proof.
  destruct d. apply same_except_intro; [done|]. intros m Hm. simpl.
  rewrite om_lookup_set, om_lookup_insert. by rewrite !decide_False by congruence.
Qed.

Lemma drop_file_same : same_except n d (drop_file n d).
Proof.
  destruct Hd. apply same_except_intro; [done|]. intros m Hm. simpl.
  rewrite om_lookup_erase by done. by rewrite decide_False by congruence.
Qed.

Lemma put_dir_same : same_except n d (put_dir n d).
Proof.
  destruct d. apply same_except_intro; [|done]. intros m Hm. simpl.
  rewrite om_lookup_insert. by rewrite decide_False by congruence.
Qed.

Lemma drop_dir_same : same_except n d (drop_dir n d).
Proof.
  destruct Hd. apply same_except_intro; [|done]. intros m Hm. simpl.
  rewrite om_lookup_erase by done. by rewrite decide_False by congruence.
Qed.

Lemma put_file_abs c q :
  om_lookup (directories d) n = None ->
  abs (put_file n c d) (n :: q) = match q with [] => Some (NFile c) | _ :: _ => abs d (n :: q) end.
Proof.
  intros Hnone. simpl. rewrite Hnone. destruct q; [|done]. by rewrite om_lookup_set_eq.
Qed.

Lemma drop_file_abs q :
  om_lookup (directories d) n = None ->
  abs (drop_file n d) (n :: q) = None.
Proof.
  intros Hnone. simpl. rewrite Hnone. destruct q; [|done].
  rewrite om_lookup_erase by (by apply dir_wf_sorted). by rewrite decide_True.
Qed.

Lemma put_dir_abs q :
  om_lookup (files d) n = None ->
  abs (put_dir n d) (n :: q) = match q with [] => Some NDir | _ :: _ => abs d (n :: q) end.
Proof.
  intros Hf. simpl. rewrite om_lookup_insert, decide_True by done.
  by destruct (om_lookup (directories d) n) as [c|] eqn:Hc; simpl; destruct q as [|? [|? ?]].
Qed.

Lemma drop_dir_abs c q :
  om_lookup (directories d) n = Some c -> abs (drop_dir n d) (n :: q) = None.
Proof.
  intros Hc. simpl. rewrite om_lookup_erase by (by apply dir_wf_sorted).
  rewrite decide_True by done. rewrite (dir_wf_disjoint _ _ _ Hd Hc). by destruct q.
Qed.
End Local.

(** ** Every operation implements its specification *)

Lemma dget_dset d p d1 d' : dget d p = Some d1 -> dget (dset d p d') p = Some d'.
Proof.
  revert d. induction p as [|n p IH]; intros d; simpl; [done|].
  destruct (om_lookup (directories d) n) eqn:Hn; [|done]. intros Hp.
  simpl. rewrite om_lookup_set_eq. by apply IH.
Qed.

Lemma om_set_set {V} (m : list (string * V)) k v v' : om_set (om_set m k v) k v' = om_set m k v'.
Proof.
  induction m as [|[k1 v1] m IH]; simpl; repeat case_decide; subst; simpl;
    repeat case_decide; subst; try done; by rewrite IH.
Qed.

Lemma dset_dset d p d1 d' d'' : dget d p = Some d1 -> dset (dset d p d') p d'' = dset d p d''.
Proof.
  revert d. induction p as [|n p IH]; intros d; simpl; [done|].
  destruct (om_lookup (directories d) n) eqn:Hn; [|done]. intros Hp.
  simpl. rewrite om_lookup_set_eq. by rewrite IH, om_set_set.
Qed.

Definition implements (t : Tree) (m : M Tree Result) (sp : Status * FS) : Prop :=
  safe m (fun r t' => tree_wf t' /\ status r = sp.1 /\
                      forall q, abs (superRoot t') q = sp.2 q) t.

(** The effect of replacing the parent [d1] of the target by [d']. *)
Lemma replaced_wf t ps n d1 d' st :
  tree_wf t -> dget (superRoot t) ps = Some d1 -> dir_wf d' -> same_except n d1 d' ->
  (ps ++ [n] = ["root"] -> abs d' [n] = Some NDir) ->
  tree_wf (mkTree (dset (superRoot t) ps d') st).
Proof.
  intros [Hwf Hroot] Hget Hd' Hsame Hr. split; cbn [superRoot]; [by apply dset_wf|].
  rewrite (abs_replace _ _ _ _ _ _ Hget Hsame). case_decide as Hp; [|done].
  destruct Hp as [k Hk]. destruct ps as [|x ps]; simpl in *.
  - injection Hk as <- _. auto.
  - injection Hk as <- Hk. by destruct ps.
Qed.

(** The target of a path, when its parent exists, is a child of that parent. *)
Lemma abs_target t ps d1 n :
  dget (superRoot t) ps = Some d1 ->
  abs (superRoot t) (ps ++ [n]) =
    match om_lookup (directories d1) n with
    | Some _ => Some NDir
    | None => match om_lookup (files d1) n with
              | Some f => Some (NFile (contents f)) | None => None end
    end.
Proof. intros Hget. by rewrite (abs_dget _ _ _ _ Hget), abs_child. Qed.

(** What [abs_replace] says at the paths through the target. *)
Lemma abs_replace_target d ps n d1 d' k :
  dget d ps = Some d1 -> abs (dset d ps d') ((ps ++ [n]) ++ k) = abs d' (n :: k).
Proof. intros Hget. rewrite <-app_assoc. by rewrite (abs_dset_in _ _ _ _ _ Hget). Qed.

Lemma abs_replace_other d ps n d1 d' q :
  dget d ps = Some d1 -> same_except n d1 d' -> ~ (ps ++ [n]) `prefix_of` q ->
  abs (dset d ps d') q = abs d q.
Proof. intros Hget Hs Hq. rewrite (abs_replace _ _ _ _ _ _ Hget Hs). by rewrite decide_False. Qed.

Lemma prefix_cases (l q : list string) :
  (exists k, q = l ++ k) \/ ~ l `prefix_of` q.
Proof. destruct (decide (l `prefix_of` q)) as [[k ->]|]; [left; by eexists | by right]. Qed.

Lemma app_self_nil (l k : list string) : l ++ k = l <-> k = [].
Proof. split; [|intros ->; by rewrite app_nil_r]. intros H. by apply (app_inv_head l); rewrite app_nil_r. Qed.

(** ** Making directories *)

Lemma wp_makeDirectory E t ptr d1 n Q :
  dir_wf (superRoot t) -> dget (superRoot t) ptr = Some d1 -> valid_name n ->
  match om_lookup (files d1) n with
  | Some _ => Q false t
  | None => Q true (set_superRoot (dset (superRoot t) ptr (put_dir n d1)) t)
  end ->
  wp E (at_dir ptr (Directory_makeDirectory n)) Q t.
Proof.
  intros Hwf Hget Hn HQ. eapply wp_at_dir; [done|].
  apply wp_bind, wp_assert_name; [done|]. apply wp_bind, wp_bind, wp_assert_name; [done|].
  apply wp_gets. destruct (om_lookup (files d1) n).
  - apply wp_ret. by rewrite dset_id, set_superRoot_id.
  - apply wp_bind, wp_modify, wp_ret. done.
Qed.

Lemma spec_blocked_app fs cur l1 l2 :
  spec_blocked fs cur (l1 ++ l2) = spec_blocked fs cur l1 || spec_blocked fs (cur ++ l1) l2.
Proof.
  revert cur. induction l1 as [|n l1 IH]; intros cur; simpl; [by rewrite app_nil_r|].
  rewrite IH. rewrite <-app_assoc. by destruct (fs (cur ++ [n])) as [[]|].
Qed.

Lemma spec_blocked_false fs cur l :
  (forall k c, fs (cur ++ k) <> Some (NFile c)) -> spec_blocked fs cur l = false.
Proof.
  revert cur. induction l as [|n l IH]; intros cur Hfs; simpl; [done|].
  destruct (fs (cur ++ [n])) as [[|c]|] eqn:Hn; [|by apply Hfs in Hn|];
    apply IH; intros k c; rewrite <-app_assoc; apply Hfs.
Qed.

Lemma spec_blocked_ext fs fs' cur l :
  (forall k, fs (cur ++ k) = fs' (cur ++ k)) -> spec_blocked fs cur l = spec_blocked fs' cur l.
Proof.
  revert cur. induction l as [|n l IH]; intros cur Hfs; simpl; [done|].
  rewrite Hfs. rewrite (IH (cur ++ [n])); [done|]. intros k. by rewrite <-!app_assoc.
Qed.

Lemma abs_prefix_dir d l k x : k <> [] -> abs d (l ++ k) = Some x -> abs d l = Some NDir.
Proof.
  intros Hk. revert d. induction l as [|n l IH]; intros d; simpl; [done|].
  destruct (om_lookup (directories d) n) as [c|]; [apply IH|].
  destruct l; simpl; by destruct k.
Qed.

Lemma put_dir_exists d n c : om_lookup (directories d) n = Some c -> put_dir n d = d.
Proof. intros Hc. unfold put_dir, om_insert. rewrite Hc. by destruct d. Qed.

(** The directories [mkdirLookup] leaves behind. *)
Definition with_dirs (fs : FS) (cur rest : list string) : FS := fun q =>
  if decide (cur `prefix_of` q /\ q `prefix_of` cur ++ rest) then Some NDir else fs q.

(** Creating the child [n] of [cur] is the first step of creating all of [n :: rest]. *)
Lemma with_dirs_step d cur d1 n rest q :
  dir_wf d -> dget d cur = Some d1 -> om_lookup (files d1) n = None ->
  with_dirs (abs (dset d cur (put_dir n d1))) (cur ++ [n]) rest q =
  with_dirs (abs d) cur (n :: rest) q.
Proof.
  intros Hwf Hget Hf. assert (dir_wf d1) as Hd1 by (by eapply dget_wf).
  assert (same_except n d1 (put_dir n d1)) as Hsame by (apply put_dir_same; done).
  unfold with_dirs. rewrite <-app_assoc. simpl.
  destruct (decide (cur `prefix_of` q /\ q `prefix_of` cur ++ n :: rest)) as [[[k ->] Hq]|Hno].
  - apply prefix_app_inv in Hq. case_decide as Hd; [done|].
    destruct k as [|m k].
    + rewrite (abs_dset_in _ _ _ _ _ Hget). done.
    + exfalso. apply Hd. assert (m = n) as -> by (by apply prefix_cons_inv_1 in Hq).
      split; [exists k; by rewrite <-app_assoc|]. by apply prefix_app.
  - rewrite decide_False.
    + destruct (prefix_cases (cur ++ [n]) q) as [[k ->]|Hq].
      * rewrite (abs_replace_target _ _ _ _ _ _ Hget), put_dir_abs by done.
        destruct k; [|by rewrite <-app_assoc, (abs_dget _ _ _ _ Hget)].
        destruct Hno. rewrite app_nil_r. split; [by eexists|]. apply prefix_app, prefix_cons, prefix_nil.
      * by rewrite (abs_replace_other _ _ _ _ _ _ Hget Hsame Hq).
    + intros [[k ->] H2]. destruct Hno. split; [|done]. rewrite <-app_assoc. by eexists.
Qed.

(** Creating a directory blocks no later name, and only a directory that was
    already there can have a file below it. *)
Lemma make_child_blocked d cur d1 n rest :
  dir_wf d -> dget d cur = Some d1 -> om_lookup (files d1) n = None ->
  let d' := dset d cur (put_dir n d1) in
  spec_blocked (abs d') (cur ++ [n]) rest = spec_blocked (abs d) (cur ++ [n]) rest /\
  (spec_blocked (abs d) (cur ++ [n]) rest = true -> d' = d).
Proof.
  intros Hwf Hget Hf d'. destruct (om_lookup (directories d1) n) as [c|] eqn:Hc.
  { subst d'. by rewrite (put_dir_exists _ _ _ Hc), dset_id. }
  assert (spec_blocked (abs d) (cur ++ [n]) rest = false) as Hb.
  { apply spec_blocked_false. intros k f'.
    rewrite <-app_assoc, (abs_dget _ _ _ _ Hget). simpl. rewrite Hc, Hf. by destruct k. }
  rewrite Hb. split; [|done]. apply spec_blocked_false. intros k f'. subst d'.
  rewrite (abs_replace_target _ _ _ _ _ _ Hget), put_dir_abs by done.
  destruct k; [done|]. simpl. by rewrite Hc.
Qed.

Definition mkdirLookup_post (d : Directory) (cur rest : list string)
    (Q : Result * option DirPtr -> Tree -> Prop) : Prop :=
  if spec_blocked (abs d) cur rest
  then forall r t', status r = TYPE_ERROR -> superRoot t' = d -> Q (r, None) t'
  else forall t' d2, dir_wf (superRoot t') -> dget (superRoot t') (cur ++ rest) = Some d2 ->
         (forall q, abs (superRoot t') q = with_dirs (abs d) cur rest q) ->
         Q (Result_init, Some (cur ++ rest)) t'.

Lemma mkdirLookup_post_step d cur d1 n rest Q :
  dir_wf d -> dget d cur = Some d1 -> om_lookup (files d1) n = None ->
  mkdirLookup_post d cur (n :: rest) Q ->
  mkdirLookup_post (dset d cur (put_dir n d1)) (cur ++ [n]) rest Q.
Proof.
  intros Hwf Hget Hf. unfold mkdirLookup_post. simpl.
  rewrite (abs_dget _ _ _ _ Hget), abs_child, Hf.
  destruct (make_child_blocked d cur d1 n rest Hwf Hget Hf) as [-> Hsame].
  destruct (om_lookup (directories d1) n);
    (destruct (spec_blocked (abs d) (cur ++ [n]) rest);
      [ rewrite Hsame by done; auto
      | intros HQ t' d2 Hwf' Hget' Habs; rewrite <-app_assoc in Hget' |- *;
        eapply HQ; [done..|]; intros q; rewrite Habs; by apply with_dirs_step ]).
Qed.

Lemma wp_mkdirLookup_loop E p rest i cur d1 Q t :
  dir_wf (superRoot t) -> dget (superRoot t) cur = Some d1 -> Forall valid_name rest ->
  mkdirLookup_post (superRoot t) cur rest Q ->
  wp E (mkdirLookup_loop p rest i cur) Q t.
Proof.
  revert i cur d1 t. induction rest as [|n rest IH]; intros i cur d1 t Hwf Hget Hv HQ.
  { apply wp_ret. unfold mkdirLookup_post in HQ. simpl in HQ. rewrite app_nil_r in HQ.
    eapply HQ; [done..|]. intros q. unfold with_dirs.
    case_decide as Hq; [|done]. rewrite app_nil_r in Hq.
    assert (q = cur) as -> by (destruct Hq; by apply (anti_symm prefix)).
    rewrite <-(app_nil_r cur). by rewrite (abs_dget _ _ _ _ Hget). }
  inversion Hv as [|? ? Hn Hv']; subst. assert (dir_wf d1) as Hd1 by (by eapply dget_wf).
  apply wp_bind. eapply wp_makeDirectory; [done..|].
  destruct (om_lookup (files d1) n) as [f|] eqn:Hf.
  - apply wp_ret. unfold mkdirLookup_post in HQ. simpl in HQ.
    rewrite (abs_dget _ _ _ _ Hget), abs_child, Hf in HQ.
    destruct (om_lookup (directories d1) n) eqn:Hc; [|by apply HQ].
    by rewrite (dir_wf_disjoint _ _ _ Hd1 Hc) in Hf.
  - eapply IH with (d1 := default Directory_init (om_lookup (directories d1) n)); [..|done|].
    + cbn. apply dset_wf; [done|]. by apply put_dir_wf.
    + cbn [superRoot set_superRoot]. rewrite dget_snoc, (dget_dset _ _ _ _ Hget). simpl.
      rewrite om_lookup_insert. by rewrite decide_True.
    + by apply mkdirLookup_post_step.
Qed.

Lemma prefix_snoc_cases (q l : list string) (x : string) :
  q `prefix_of` l ++ [x] <-> q `prefix_of` l \/ q = l ++ [x].
Proof.
  split.
  - intros [k Hk]. destruct k as [|y k _] using rev_ind.
    + right. by rewrite app_nil_r in Hk.
    + left. rewrite app_assoc in Hk. apply app_inj_tail in Hk as [-> _]. by exists k.
  - intros [Hq| ->]; [by apply prefix_app_r | done].
Qed.

Lemma not_prefix_longer (l k : list string) : k <> [] -> ~ (l ++ k) `prefix_of` l.
Proof. intros Hk Hp%prefix_length. rewrite length_app in Hp. destruct k; [done|]. simpl in Hp. lia. Qed.

(** The parents first, then the target: together, every prefix of the path. *)
Lemma make_target_abs d d' ps n d1 q :
  dir_wf d' -> dget d' ps = Some d1 -> om_lookup (files d1) n = None ->
  (forall q, abs d' q = with_dirs (abs d) [] ps q) ->
  abs (dset d' ps (put_dir n d1)) q =
    if decide (q `prefix_of` ps ++ [n]) then Some NDir else abs d q.
Proof.
  intros Hwf' Hget Hf Habs. assert (dir_wf d1) as Hd1 by (by eapply dget_wf).
  assert (same_except n d1 (put_dir n d1)) as Hsame by (apply put_dir_same; done).
  destruct (prefix_cases (ps ++ [n]) q) as [[k ->]|Hq].
  - rewrite (abs_replace_target _ _ _ _ _ _ Hget), put_dir_abs by done.
    destruct k as [|x k].
    + rewrite app_nil_r. by rewrite decide_True.
    + rewrite decide_False by (by apply not_prefix_longer).
      rewrite <-(abs_dget _ _ _ _ Hget), Habs, <-app_assoc. unfold with_dirs.
      rewrite decide_False; [done|]. intros [_ Hp]. by apply not_prefix_longer in Hp.
  - rewrite (abs_replace_other _ _ _ _ _ _ Hget Hsame Hq), Habs. unfold with_dirs. simpl.
    apply decide_ext. rewrite prefix_snoc_cases. split.
    + intros [_ H]. by left.
    + intros [H| ->]; [|by destruct Hq]. split; [apply prefix_nil|done].
Qed.

Section Refinement.
Context (sym : string) (t : Tree) (Hwf : tree_wf t).
Let p := Path_init sym.
Context (Hok : status (path_result p) = OK).

Lemma path_names_valid : Forall valid_name (parents p) /\ valid_name (target p).
Proof.
  destruct (Path_init_ok sym Hok) as [Hv _]. apply Forall_app in Hv as [Hps Ht].
  by inversion Ht.
Qed.

Lemma write_implements c :
  implements t (Tree_write sym c) (spec_write (abs (superRoot t)) (parents p) (target p) c).
Proof.
  destruct path_names_valid as [Hvps Hvt].
  apply wp_bind, wp_bump. intros st1. cbv beta zeta. fold p.
  rewrite bool_decide_true by done. cbn [negb].
  apply wp_bind, wp_normalLookup; [done..|]. cbn [superRoot]. unfold spec_write.
  destruct (spec_parents _ _ _) eqn:Hsp; try (intros r Hr; apply wp_ret; done).
  intros d1 Hget. rewrite (abs_target _ _ _ _ Hget).
  assert (dir_wf d1) as Hd1 by (by eapply dget_wf; [apply Hwf|]).
  apply wp_bind. eapply wp_at_dir; [done|].
  apply wp_bind, wp_assert_name; [done|]. apply wp_bind, wp_bind, wp_assert_name; [done|].
  apply wp_gets. destruct (om_lookup (directories d1) (target p)) as [sub|] eqn:Hsub.
  { apply wp_ret. rewrite dset_id by (done || apply Hwf). by apply wp_ret. }
  apply wp_bind, wp_modify, wp_ret.
  apply wp_bind. eapply wp_at_dir; [by eapply dget_dset|]. apply wp_modify.
  apply wp_bind, wp_bump. intros st2. apply wp_ret. cbn [superRoot set_superRoot files directories].
  rewrite (dset_dset _ _ _ _ _ Hget). fold (put_file (target p) c d1).
  assert (same_except (target p) d1 (put_file (target p) c d1)) as Hsame
    by (apply put_file_same; done).
  split; [|split].
  - eapply replaced_wf; [done..|by apply put_file_wf|done|].
    intros Heq. exfalso. destruct Hwf as [_ Hroot].
    rewrite <-Heq, (abs_target _ _ _ _ Hget), Hsub in Hroot.
    by destruct (om_lookup (files d1) (target p)).
  - by destruct (om_lookup (files d1) (target p)).
  - intros q. transitivity (fs_set (parents p ++ [target p]) (Some (NFile c)) (abs (superRoot t)) q);
      [|by destruct (om_lookup (files d1) (target p))].
    unfold fs_set. destruct (prefix_cases (parents p ++ [target p]) q) as [[k ->]|Hq].
    + rewrite (abs_replace_target _ _ _ _ _ _ Hget), put_file_abs by done.
      destruct k as [|x k].
      * rewrite decide_True; [done|]. by rewrite app_nil_r.
      * rewrite decide_False by (by rewrite app_self_nil).
        by rewrite <-app_assoc, (abs_dget _ _ _ _ Hget).
    + rewrite (abs_replace_other _ _ _ _ _ _ Hget Hsame Hq). rewrite decide_False; [done|].
      intros ->. by apply Hq.
Qed.

Lemma makeDirectory_implements :
  implements t (Tree_makeDirectory sym)
    (spec_makeDirectory (abs (superRoot t)) (parents p) (target p)).
Proof.
  destruct path_names_valid as [Hvps Hvt].
  apply wp_bind, wp_bump. intros st1. cbv beta zeta. fold p.
  rewrite bool_decide_true by done. cbn [negb].
  apply wp_bind. eapply wp_mkdirLookup_loop; [apply Hwf|done|done|].
  unfold mkdirLookup_post, spec_makeDirectory. cbn [superRoot].
  rewrite spec_blocked_app. simpl.
  destruct (spec_blocked (abs (superRoot t)) [] (parents p)) eqn:Hb; simpl.
  { intros r t' Hr Ht'. apply wp_ret. unfold tree_wf. rewrite Ht'. done. }
  intros t' d1 Hwf' Hget Habs.
  assert (dir_wf d1) as Hd1 by (by eapply dget_wf).
  assert (tree_wf t') as Ht'.
  { split; [done|]. rewrite Habs. unfold with_dirs. case_decide; [done|]. apply Hwf. }
  assert (abs (superRoot t) (parents p ++ [target p]) = abs (superRoot t') (parents p ++ [target p]))
    as Htgt.
  { rewrite Habs. unfold with_dirs. rewrite decide_False; [done|]. simpl.
    intros [_ Hpre]. apply prefix_length in Hpre. rewrite length_app in Hpre. simpl in Hpre. lia. }
  rewrite Htgt. rewrite (abs_target _ _ _ _ Hget).
  apply wp_bind. eapply wp_makeDirectory; [done..|].
  destruct (om_lookup (files d1) (target p)) as [f|] eqn:Hf.
  - apply wp_ret. destruct (om_lookup (directories d1) (target p)) eqn:Hc.
    { by rewrite (dir_wf_disjoint _ _ _ Hd1 Hc) in Hf. }
    split; [done|]. split; [done|]. intros q. rewrite Habs. unfold with_dirs. simpl.
    case_decide as Hq; [|done]. destruct Hq as [_ [k Hk]]. symmetry.
    rewrite (abs_target _ _ _ _ Hget), Hc, Hf in Htgt. rewrite Hk, <-app_assoc in Htgt.
    eapply abs_prefix_dir; [|exact Htgt]. by destruct k.
  - apply wp_bind, wp_bump. intros st2. apply wp_ret. cbn [superRoot set_superRoot].
    assert (same_except (target p) d1 (put_dir (target p) d1)) as Hsame
      by (apply put_dir_same; done).
    assert (match match om_lookup (directories d1) (target p) with
                  | Some _ => Some NDir | None => None end with
            | Some (NFile _) => true | _ => false end = false) as ->
      by (by destruct (om_lookup (directories d1) (target p))).
    split; [|split; [done|]].
    + eapply replaced_wf; [done..|by apply put_dir_wf|done|].
      intros _. by apply put_dir_abs.
    + intros q. by apply make_target_abs.
Qed.

Lemma removeFile_implements :
  implements t (Tree_removeFile sym)
    (spec_removeFile (abs (superRoot t)) (parents p) (target p)).
Proof.
  destruct path_names_valid as [Hvps Hvt].
  apply wp_bind, wp_bump. intros st1. cbv beta zeta. fold p.
  rewrite bool_decide_true by done. cbn [negb].
  apply wp_bind, wp_normalLookup; [done..|]. cbn [superRoot]. unfold spec_removeFile.
  destruct (spec_parents _ _ _) eqn:Hsp;
    try (intros r Hr; rewrite Hr; simpl; repeat wp_step; done).
  intros d1 Hget. rewrite (abs_target _ _ _ _ Hget). simpl.
  assert (dir_wf d1) as Hd1 by (by eapply dget_wf; [apply Hwf|]).
  apply wp_bind. eapply wp_lookupDirectory; [done..|].
  destruct (om_lookup (directories d1) (target p)) as [sub|] eqn:Hsub; [by apply wp_ret|].
  apply wp_bind. eapply wp_at_dir; [done|].
  apply wp_bind, wp_assert_name; [done|]. apply wp_bind, wp_get, wp_bind, wp_put, wp_ret.
  apply wp_bind, wp_bump. intros st2. apply wp_bind, wp_bump. intros st3. apply wp_ret.
  cbn [superRoot set_superRoot]. fold (drop_file (target p) d1).
  assert (same_except (target p) d1 (drop_file (target p) d1)) as Hsame
    by (apply drop_file_same; done).
  split; [|split].
  - eapply replaced_wf; [done..|by apply drop_file_wf|done|].
    intros Heq. exfalso. destruct Hwf as [_ Hroot].
    rewrite <-Heq, (abs_target _ _ _ _ Hget), Hsub in Hroot.
    by destruct (om_lookup (files d1) (target p)).
  - by destruct (om_lookup (files d1) (target p)).
  - intros q. transitivity (fs_set (parents p ++ [target p]) None (abs (superRoot t)) q);
      [|by destruct (om_lookup (files d1) (target p))].
    unfold fs_set. destruct (prefix_cases (parents p ++ [target p]) q) as [[k ->]|Hq].
    + rewrite (abs_replace_target _ _ _ _ _ _ Hget), drop_file_abs by done.
      case_decide as Hk; [done|]. rewrite app_self_nil in Hk.
      rewrite <-app_assoc, (abs_dget _ _ _ _ Hget). simpl. rewrite Hsub. by destruct k.
    + rewrite (abs_replace_other _ _ _ _ _ _ Hget Hsame Hq). rewrite decide_False; [done|].
      intros ->. by apply Hq.
Qed.

(** The root is dropped with all it holds, and made again. *)
Lemma remove_root_abs d1 c q :
  dget (superRoot t) [] = Some d1 -> om_lookup (directories d1) (target p) = Some c ->
  abs (put_dir (target p) (drop_dir (target p) d1)) q =
    if decide (([] : list string) = [] /\ q = [target p]) then Some NDir
    else if decide ([target p] `prefix_of` q) then None else abs (superRoot t) q.
Proof.
  intros [= <-] Hc. assert (dir_wf (superRoot t)) as Hd by apply Hwf.
  destruct path_names_valid as [_ Hvt].
  destruct (prefix_cases [target p] q) as [[k ->]|Hq].
  - cbn [app]. rewrite put_dir_abs by (apply (dir_wf_disjoint _ _ c Hd Hc)).
    destruct k; simpl; [by rewrite decide_True|].
    rewrite decide_False by naive_solver. rewrite decide_True; [|by eexists].
    rewrite om_lookup_erase by (by apply dir_wf_sorted). by rewrite decide_True.
  - rewrite decide_False by (intros [_ ->]; by destruct Hq). rewrite decide_False by done.
    rewrite put_dir_same by (by apply drop_dir_wf || done). by rewrite drop_dir_same.
Qed.

Lemma removeDirectory_implements :
  implements t (Tree_removeDirectory sym)
    (spec_removeDirectory (abs (superRoot t)) (parents p) (target p)).
Proof.
  destruct path_names_valid as [Hvps Hvt].
  apply wp_bind, wp_bump. intros st1. cbv beta zeta. fold p.
  rewrite bool_decide_true by done. cbn [negb].
  apply wp_bind, wp_normalLookup; [done..|]. cbn [superRoot]. unfold spec_removeDirectory.
  destruct (spec_parents _ _ _) eqn:Hsp;
    try (intros r Hr; rewrite Hr; simpl; tree_go; done).
  intros d1 Hget. rewrite (abs_target _ _ _ _ Hget). simpl.
  assert (dir_wf d1) as Hd1 by (by eapply dget_wf; [apply Hwf|]).
  apply wp_bind. eapply wp_lookupDirectory; [done..|].
  destruct (om_lookup (directories d1) (target p)) as [sub|] eqn:Hsub.
  2: { apply wp_bind. eapply wp_lookupFile; [done..|].
       destruct (om_lookup (files d1) (target p)); tree_go; done. }
  apply wp_bind. eapply wp_at_dir; [done|].
  apply wp_bind, wp_assert_name; [done|]. apply wp_modify. fold (drop_dir (target p) d1).
  assert (same_except (target p) d1 (drop_dir (target p) d1)) as Hsame
    by (apply drop_dir_same; done).
  apply wp_bind, wp_when; rewrite bool_decide_eq_true || rewrite bool_decide_eq_false; intros Hps.
  - rewrite Hps in *. injection Hget as <-.
    apply wp_bind. eapply wp_makeDirectory; [cbn; by apply drop_dir_wf|done|done|].
    cbn [dset superRoot set_superRoot].
    change (files (drop_dir ?n ?d)) with (files d).
    rewrite (dir_wf_disjoint _ _ _ Hd1 Hsub). tree_go.
    split; [|split; [done|intros q; by eapply remove_root_abs]]. split.
    + cbn [superRoot]. apply put_dir_wf; [done|by apply drop_dir_wf|].
      apply (dir_wf_disjoint _ _ sub Hd1 Hsub).
    + cbn [superRoot set_superRoot]. erewrite remove_root_abs by done.
      case_decide; [done|]. rewrite decide_False; [apply Hwf|].
      destruct (Path_init_ok sym Hok) as [_ [l Hl]]. unfold Path_components in Hl.
      fold p in Hl. rewrite Hps in Hl. injection Hl as Hl _. rewrite Hl in *. naive_solver.
  - tree_go. split; [|split; [done|]].
    + eapply replaced_wf; [done..|by apply drop_dir_wf|done|]. destruct (parents p); [done|].
      intros Heq. by destruct l.
    + intros q. rewrite decide_False by naive_solver.
      destruct (prefix_cases (parents p ++ [target p]) q) as [[k ->]|Hq].
      * rewrite (abs_replace_target _ _ _ _ _ _ Hget). erewrite drop_dir_abs by done.
        rewrite decide_True; [done|by eexists].
      * rewrite (abs_replace_other _ _ _ _ _ _ Hget Hsame Hq). by rewrite decide_False.
Qed.
End Refinement.

(** ** Reading *)

(** A listing: the directories in order, each with a trailing slash, then the
    files in order. It determines the list. *)
Definition spec_children (fs : FS) (p : list string) (out : list string) : Prop :=
  exists ds fls,
    out = map (fun n => n +:+ "/") ds ++ fls /\
    StronglySorted key_lt ds /\ StronglySorted key_lt fls /\
    (forall n, n ∈ ds <-> fs (p ++ [n]) = Some NDir) /\
    (forall n, n ∈ fls <-> exists c, fs (p ++ [n]) = Some (NFile c)).

Definition spec_listDirectory (fs : FS) (ps : list string) (t : string)
    (st : Status) (out : list string) : Prop :=
  match spec_parents fs [] ps with
  | OK => match fs (ps ++ [t]) with
          | Some NDir => st = OK /\ spec_children fs (ps ++ [t]) out
          | Some (NFile _) => st = TYPE_ERROR /\ out = []
          | None => st = LOOKUP_ERROR /\ out = []
          end
  | e => st = e /\ out = []
  end.

(** An absent file satisfies the condition that requires the empty string. *)
Definition spec_checkCondition (r : Status * string) (required : string) : Status :=
  match r with
  | (OK, c) => if decide (c = required) then OK else CONDITION_NOT_MET
  | (LOOKUP_ERROR, _) => if decide (required = "") then OK else CONDITION_NOT_MET
  | _ => CONDITION_NOT_MET
  end.

Lemma children_spec d q c :
  dir_wf d -> dget d q = Some c -> spec_children (abs d) q (Directory_getChildren c).
Proof.
  intros Hwf Hget. assert (dir_wf c) as Hc by (by eapply dget_wf).
  destruct (dir_wf_sorted _ Hc) as [Hds Hfs].
  exists (map fst (directories c)), (map fst (files c)).
  split; [|split; [|split; [|split]]].
  - unfold Directory_getChildren. by rewrite map_map.
  - by apply om_sorted_keys.
  - by apply om_sorted_keys.
  - intros n. rewrite (abs_dget _ _ _ _ Hget), abs_child, om_elem_keys.
    destruct (om_lookup (directories c) n), (om_lookup (files c) n); naive_solver.
  - intros n. rewrite (abs_dget _ _ _ _ Hget), abs_child, om_elem_keys.
    destruct (om_lookup (directories c) n) eqn:Hn; [|destruct (om_lookup (files c) n); naive_solver].
    rewrite (dir_wf_disjoint _ _ _ Hc Hn). naive_solver.
Qed.

Section Reading.
Context (sym : string) (t : Tree) (Hwf : tree_wf t).
Let p := Path_init sym.
Context (Hok : status (path_result p) = OK).
Let fs := abs (superRoot t).

Definition reads {A} (m : M Tree A) (Q : A -> Prop) : Prop :=
  safe m (fun a t' => superRoot t' = superRoot t /\ Q a) t.

Lemma read_implements :
  reads (Tree_read sym) (fun a => (status a.1, a.2) = spec_read fs (parents p) (target p)).
Proof using Hwf Hok.
  destruct (path_names_valid sym Hok) as [Hvps Hvt].
  apply wp_bind, wp_bump. intros st1. cbv beta zeta. fold p.
  rewrite bool_decide_true by done. cbn [negb].
  apply wp_bind, wp_normalLookup; [done..|]. cbn [superRoot]. unfold spec_read. fold fs.
  destruct (spec_parents _ _ _) eqn:Hsp; try (intros r <-; by apply wp_ret).
  intros d1 Hget. subst fs. rewrite (abs_target _ _ _ _ Hget).
  assert (dir_wf d1) as Hd1 by (by eapply dget_wf; [apply Hwf|]).
  apply wp_bind. eapply wp_lookupFile; [done..|].
  destruct (om_lookup (files d1) (target p)) as [f|] eqn:Hf.
  - tree_go. destruct (om_lookup (directories d1) (target p)) eqn:Hc; [|done].
    by rewrite (dir_wf_disjoint _ _ _ Hd1 Hc) in Hf.
  - apply wp_bind. eapply wp_lookupDirectory; [done..|].
    by destruct (om_lookup (directories d1) (target p)); tree_go.
Qed.

Lemma listDirectory_implements :
  reads (Tree_listDirectory sym)
    (fun a => spec_listDirectory fs (parents p) (target p) (status a.1) a.2).
Proof using Hwf Hok.
  destruct (path_names_valid sym Hok) as [Hvps Hvt].
  apply wp_bind, wp_bump. intros st1. cbv beta zeta. fold p.
  rewrite bool_decide_true by done. cbn [negb].
  apply wp_bind, wp_normalLookup; [done..|]. cbn [superRoot]. unfold spec_listDirectory. fold fs.
  destruct (spec_parents _ _ _) eqn:Hsp; try (intros r <-; by apply wp_ret).
  intros d1 Hget. subst fs. rewrite (abs_target _ _ _ _ Hget).
  assert (dir_wf d1) as Hd1 by (by eapply dget_wf; [apply Hwf|]).
  apply wp_bind. eapply wp_lookupDirectory; [done..|].
  destruct (om_lookup (directories d1) (target p)) as [c|] eqn:Hc.
  - tree_go. split; [done|]. split; [done|]. apply children_spec; [apply Hwf|].
    by rewrite dget_snoc, Hget.
  - apply wp_bind. eapply wp_lookupFile; [done..|].
    by destruct (om_lookup (files d1) (target p)); tree_go.
Qed.

End Reading.

Lemma reads_bump {A} c (m : M Tree A) t Q :
  (forall st, reads (mkTree (superRoot t) st) m Q) -> reads t (bump c ;;; m) Q.
Proof. intros Hm. unfold reads, safe. apply wp_bind, wp_bump. intros st. apply Hm. Qed.

(** [checkCondition] of any path is [read] and the comparison. *)
Lemma checkCondition_reads sym req t Q :
  (forall st, reads (mkTree (superRoot t) st) (Tree_read sym) (fun a => Q (status a.1, a.2))) ->
  reads t (Tree_checkCondition sym req) (fun r => exists a, Q a /\ status r = spec_checkCondition a req).
Proof.
  intros Hread. apply reads_bump. intros st. apply wp_bind.
  eapply wp_mono; [apply Hread|done|]. intros [r c] t' [Ht' HQ]. cbn [fst snd superRoot] in *.
  destruct (status r) eqn:Hr; simpl; try (tree_go; split; [done|]; eexists; split; [done|done]).
  - destruct (String.eqb_spec req c) as [->|Hne]; tree_go; (split; [done|]); eexists;
      (split; [done|]); simpl; [by rewrite decide_True|by rewrite decide_False].
  - destruct req; simpl; tree_go; (split; [done|]); eexists; (split; [done|]); done.
Qed.

(** ** Sequences of operations *)

Inductive op : Type :=
| OpMakeDirectory (path : string)
| OpListDirectory (path : string)
| OpRemoveDirectory (path : string)
| OpWrite (path contents : string)
| OpRead (path : string)
| OpRemoveFile (path : string)
| OpCheckCondition (path contents : string).

(** What the caller sees, but for the text of the error. *)
Inductive response : Type :=
| RStatus (st : Status)
| RContents (st : Status) (c : string)
| RChildren (st : Status) (l : list string).

Definition op_path (o : op) : string :=
  match o with
  | OpMakeDirectory p | OpListDirectory p | OpRemoveDirectory p | OpWrite p _
  | OpRead p | OpRemoveFile p | OpCheckCondition p _ => p
  end.

Definition run_op (o : op) : M Tree response :=
  match o with
  | OpMakeDirectory p => let! r := Tree_makeDirectory p in ret (RStatus (status r))
  | OpListDirectory p => let! (r, l) := Tree_listDirectory p in ret (RChildren (status r) l)
  | OpRemoveDirectory p => let! r := Tree_removeDirectory p in ret (RStatus (status r))
  | OpWrite p c => let! r := Tree_write p c in ret (RStatus (status r))
  | OpRead p => let! (r, c) := Tree_read p in ret (RContents (status r) c)
  | OpRemoveFile p => let! r := Tree_removeFile p in ret (RStatus (status r))
  | OpCheckCondition p c => let! r := Tree_checkCondition p c in ret (RStatus (status r))
  end.

Fixpoint run_ops (l : list op) : M Tree (list response) :=
  match l with
  | [] => ret []
  | o :: l' => let! r := run_op o in let! rs := run_ops l' in ret (r :: rs)
  end.

(** The effect of an operation that may change the store. *)
Definition spec_update (o : op) (fs : FS) (ps : list string) (tgt : string) : Status * FS :=
  match o with
  | OpMakeDirectory _ => spec_makeDirectory fs ps tgt
  | OpRemoveDirectory _ => spec_removeDirectory fs ps tgt
  | OpWrite _ c => spec_write fs ps tgt c
  | OpRemoveFile _ => spec_removeFile fs ps tgt
  | _ => (OK, fs)
  end.

Definition spec_response (o : op) (fs : FS) (ps : list string) (tgt : string) (r : response) : Prop :=
  match o with
  | OpListDirectory _ => exists st l, r = RChildren st l /\ spec_listDirectory fs ps tgt st l
  | OpRead _ => r = RContents (spec_read fs ps tgt).1 (spec_read fs ps tgt).2
  | OpCheckCondition _ c => r = RStatus (spec_checkCondition (spec_read fs ps tgt) c)
  | _ => r = RStatus (spec_update o fs ps tgt).1
  end.

(** On a path that does not parse. *)
Definition invalid_response (o : op) : response :=
  match o with
  | OpListDirectory _ => RChildren INVALID_ARGUMENT []
  | OpRead _ => RContents INVALID_ARGUMENT ""
  | OpCheckCondition _ _ => RStatus CONDITION_NOT_MET
  | _ => RStatus INVALID_ARGUMENT
  end.

(** One operation of the abstract store. *)
Definition spec_step (o : op) (fs : FS) (r : response) (fs' : FS) : Prop :=
  let p := Path_init (op_path o) in
  if startsWith (op_path o) "/" then
    spec_response o fs (parents p) (target p) r /\
    forall q, fs' q = (spec_update o fs (parents p) (target p)).2 q
  else r = invalid_response o /\ forall q, fs' q = fs q.

Inductive spec_run : FS -> list op -> list response -> FS -> Prop :=
| spec_run_nil fs fs' : (forall q, fs' q = fs q) -> spec_run fs [] [] fs'
| spec_run_cons fs o r fs1 l rs fs' :
    spec_step o fs r fs1 -> spec_run fs1 l rs fs' -> spec_run fs (o :: l) (r :: rs) fs'.

Lemma Path_init_status sym :
  status (path_result (Path_init sym)) = if startsWith sym "/" then OK else INVALID_ARGUMENT.
Proof. unfold Path_init. by destruct (startsWith sym "/"). Qed.

Lemma bool_decide_invalid sym :
  startsWith sym "/" = false ->
  bool_decide (status (path_result (Path_init sym)) = OK) = false.
Proof. intros Hs. by rewrite Path_init_status, Hs. Qed.

Ltac invalid_go Hs :=
  repeat (tree_step || rewrite (bool_decide_invalid _ Hs); cbv beta zeta; cbn [negb]);
  cbn [fst snd superRoot]; rewrite ?Path_init_status, ?Hs.

Lemma invalid_step o t :
  startsWith (op_path o) "/" = false ->
  safe (run_op o) (fun r t' => r = invalid_response o /\ superRoot t' = superRoot t) t.
Proof.
  intros Hs. destruct o; simpl in Hs |- *; unfold safe, Tree_makeDirectory, Tree_listDirectory,
    Tree_removeDirectory, Tree_write, Tree_read, Tree_removeFile; try by invalid_go Hs.
  apply wp_bind. eapply wp_mono; [eapply (checkCondition_reads _ _ _ (fun a => a.1 = INVALID_ARGUMENT))|done|].
  - intros st. unfold reads, safe, Tree_read. by invalid_go Hs.
  - intros r t' (Ht' & [st c] & Ha & Hr). simpl in Ha. subst st. apply wp_ret.
    split; [|done]. by rewrite Hr.
Qed.

Lemma run_op_refines o t :
  tree_wf t ->
  safe (run_op o) (fun r t' => tree_wf t' /\ spec_step o (abs (superRoot t)) r (abs (superRoot t'))) t.
Proof.
  intros Hwf. unfold spec_step. destruct (startsWith (op_path o) "/") eqn:Hs.
  2: { eapply wp_mono; [by apply invalid_step|done|]. intros r t' [-> Ht'].
       unfold tree_wf. by rewrite Ht'. }
  pose proof (Path_init_status (op_path o)) as Hok. rewrite Hs in Hok.
  assert (forall A (m : M Tree A) Q Q', reads t m Q ->
    (forall a t', superRoot t' = superRoot t -> Q a -> Q' a t') -> safe m Q' t) as Hreads.
  { intros A m Q Q' Hm HQ. eapply wp_mono; [apply Hm|done|]. intros a t' []. by apply HQ. }
  destruct o as [sym|sym|sym|sym c|sym|sym|sym c]; cbn [op_path] in Hs, Hok |- *; apply wp_bind.
  - eapply wp_mono; [by apply makeDirectory_implements|done|].
    intros r t' (? & -> & ?). by apply wp_ret.
  - eapply Hreads; [by apply listDirectory_implements|]. intros [r l] t' Ht' Hr.
    apply wp_ret. unfold tree_wf. rewrite Ht'. split; [done|]. split; [|done]. by do 2 eexists.
  - eapply wp_mono; [by apply removeDirectory_implements|done|].
    intros r t' (? & -> & ?). by apply wp_ret.
  - eapply wp_mono; [by apply write_implements|done|].
    intros r t' (? & -> & ?). by apply wp_ret.
  - eapply Hreads; [by apply read_implements|]. intros [r c] t' Ht' Hr. cbn [fst snd] in Hr.
    apply wp_ret. unfold tree_wf. cbn [op_path spec_response spec_update]. by rewrite Ht', <-Hr.
  - eapply wp_mono; [by apply removeFile_implements|done|].
    intros r t' (? & -> & ?). by apply wp_ret.
  - eapply Hreads.
    { apply (checkCondition_reads sym c t (fun a =>
        a = spec_read (abs (superRoot t)) (parents (Path_init sym)) (target (Path_init sym)))).
      intros st. by apply (read_implements sym (mkTree (superRoot t) st)). }
    intros r t' Ht' (a & -> & ->). apply wp_ret. unfold tree_wf. by rewrite Ht'.
Qed.

Lemma Tree_init_wf : tree_wf Tree_init.
Proof.
  split; [|done].
  change (superRoot Tree_init) with (put_dir "root" Directory_init).
  apply put_dir_wf; [apply root_valid|apply Directory_init_wf|done].
Qed.

(** C11: any sequence of tree operations on a well-formed tree returns, without a
    fault, exactly the statuses, contents and listings of the abstract
    file system (a map from paths to files and directories), and leaves the
    tree well-formed and representing the abstract result. *)
Theorem tree_refines l t :
  tree_wf t ->
  exists rs t', run_ops l t = Ok (rs, t') /\ tree_wf t' /\
    spec_run (abs (superRoot t)) l rs (abs (superRoot t')).
Proof.
  revert t. induction l as [|o l IH]; intros t Hwf; simpl.
  { exists [], t. split; [done|]. split; [done|]. by constructor. }
  pose proof (run_op_refines o t Hwf) as (r & t1 & Hr & Hwf1 & Hstep)%safe_run.
  destruct (IH t1 Hwf1) as (rs & t' & Hrs & Hwf' & Hrun).
  exists (r :: rs), t'. unfold bind. rewrite Hr, Hrs.
  split; [done|]. split; [done|]. by econstructor.
Qed.

Lemma tree_refines_witness :
  exists rs t', run_ops [OpMakeDirectory "/a"; OpWrite "/a/f" "x"; OpRead "/a/f"] Tree_init = Ok (rs, t')
    /\ tree_wf t' /\
    spec_run (abs (superRoot Tree_init)) [OpMakeDirectory "/a"; OpWrite "/a/f" "x"; OpRead "/a/f"]
      rs (abs (superRoot t')).
Proof. apply tree_refines. exact Tree_init_wf. Defined.
