(* ===== verification/Stream.v ===== *)
(** * Message streams

    [Core/ProtoBuf.h]: the abstract classes [InputStream] and [OutputStream],
    through which the tree and the state machine read and write snapshots.
    Here they are type classes; [StreamLaws] states what an implementation
    promises (what is written is what is read back), [SnapshotFile.v] provides
    the instance, and the snapshots of the tree and of the state machine are
    verified against the laws alone.

    The wire format of a message is the protobuf library's, so serialising and
    parsing are the methods of the class [ProtoBuf] and parameters of the
    development. *)

From Stdlib Require Import ZArith Lia Ascii String.
From stdpp Require Import countable base gmap strings list fin_maps.
From S2P Require Import Prelude.
Local Open Scope Z_scope.
Local Open Scope list_scope.

Definition bytes : Type := list ascii.

(** [SerializeToArray] and [ParseFromArray] of a generated message class. *)
Class ProtoBuf (T : Type) := {
  pb_serialize : T -> bytes;
  pb_parse : bytes -> option T
}.

(** The documented behaviour of the protobuf library. *)
Class ProtoBufLaws (T : Type) `{ProtoBuf T} :=
  pb_parse_serialize : forall m : T, pb_parse (pb_serialize m) = Some m.

Class OutputStream (W : Type) := {
  writeMessage : forall {T} `{ProtoBuf T}, T -> M W unit;
  writeRaw : bytes -> M W unit;
  getBytesWritten : W -> Z
}.

(** Why [readMessage] returned a non-empty error string. *)
Inductive read_error : Type :=
| ShortLengthField
| ShortMessage
| Unparsable.

(** [messagesLeft] is the model's: a bound on the messages still in the stream,
    the fuel of the recursive readers. *)
Class InputStream (R : Type) := {
  readMessage : forall T `{ProtoBuf T}, M R (read_error + T);
  readRaw : nat -> M R bytes;
  getBytesRead : R -> Z;
  messagesLeft : R -> nat
}.

Class StreamLaws (W R : Type) `{OutputStream W} `{InputStream R} := {
  writable : W -> Prop;
  written : W -> bytes;
  readable : R -> Prop;
  unread : R -> bytes;
  frameable : bytes -> Prop;
  frame : bytes -> bytes;
  writeMessage_law {T} `{ProtoBuf T} (m : T) w :
    writable w -> frameable (pb_serialize m) ->
    safe (writeMessage m)
      (fun _ w' => writable w' /\ written w' = written w ++ frame (pb_serialize m)) w;
  writeRaw_law b w :
    writable w ->
    safe (writeRaw b) (fun _ w' => writable w' /\ written w' = written w ++ b) w;
  readMessage_law {T} `{ProtoBuf T} b rest r :
    readable r -> frameable b -> unread r = frame b ++ rest ->
    safe (readMessage T)
      (fun res r' => unread r' = rest /\
         res = match pb_parse b with Some m => inr m | None => inl Unparsable end) r;
  readMessage_progress {T} `{ProtoBuf T} r :
    readable r ->
    safe (readMessage T)
      (fun res r' => readable r' /\
         match res with
         | inr _ => (messagesLeft r' < messagesLeft r)%nat
         | inl _ => True
         end) r;
  readRaw_law n r :
    readable r ->
    safe (readRaw n)
      (fun b r' => readable r' /\ unread r = b ++ unread r' /\
         length b = Nat.min n (length (unread r)) /\
         (messagesLeft r' <= messagesLeft r)%nat) r
}.

(** What the laws say of a message that was written. *)
Lemma readMessage_written `{StreamLaws W R} {T} `{ProtoBufLaws T} (m : T) rest r :
  readable r -> frameable (pb_serialize m) -> unread r = frame (pb_serialize m) ++ rest ->
  safe (readMessage T)
    (fun res r' => res = inr m /\ readable r' /\ unread r' = rest /\
                   (messagesLeft r' < messagesLeft r)%nat) r.
Proof.
  intros Hok Hf Hr.
  pose proof (readMessage_law (pb_serialize m) rest r Hok Hf Hr) as Hm.
  pose proof (readMessage_progress (T:=T) r Hok) as Hp.
  eapply wp_mono; [exact (wp_and _ _ _ _ _ Hm Hp)|done|].
  intros res r' [[Hr' ->] [Hok' Hleft]]. rewrite pb_parse_serialize in *. done.
Qed.

(** A codec for any countable type: the bits of its code. Used to run the
    model; no theorem depends on the choice. *)
Module Bits.
Fixpoint of_pos (p : positive) : bytes :=
  match p with
  | xH => []
  | xO p' => "0"%char :: of_pos p'
  | xI p' => "1"%char :: of_pos p'
  end.

Fixpoint to_pos (b : bytes) : positive :=
  match b with
  | [] => xH
  | c :: b' => if Ascii.eqb c "1"%char then xI (to_pos b') else xO (to_pos b')
  end.

Lemma to_of_pos p : to_pos (of_pos p) = p.
Proof. induction p; simpl; congruence. Qed.
End Bits.

Definition countable_protobuf (T : Type) `{Countable T} : ProtoBuf T :=
  {| pb_serialize m := Bits.of_pos (encode m); pb_parse b := decode (Bits.to_pos b) |}.

Lemma countable_protobuf_laws (T : Type) `{Countable T} :
  @ProtoBufLaws T (countable_protobuf T).
Proof. intros m. simpl. rewrite Bits.to_of_pos. apply decode_encode. Qed.
