(* ===== verification/Endian.v ===== *)
(** * Numbers in network order

    [Core/Endian.h] and the [htobe*] and [be*toh] functions of the C library:
    the big-endian bytes of numbers, and their reading. *)

From Stdlib Require Import ZArith Lia Ascii String.
From stdpp Require Import base strings list.
From S2P Require Import Prelude Stream.
Local Open Scope Z_scope.
Local Open Scope list_scope.

(** [htobe16]. *)
Definition be16 (x : Z) : bytes :=
  map (fun sh => ascii_of_N (Z.to_N (Z.land (Z.shiftr (u16 x) sh) 255))) [8; 0].

(** [htobe32], as the four bytes in memory. *)
Definition be32 (x : Z) : bytes :=
  map (fun sh => ascii_of_N (Z.to_N (Z.land (Z.shiftr (u32 x) sh) 255))) [24; 16; 8; 0].

(** [be32toh] of the bytes read; with two and eight bytes, [be16toh] and
    [be64toh]. *)
Definition of_be32 (b : bytes) : Z :=
  fold_left (fun acc c => Z.lor (Z.shiftl acc 8) (Z.of_N (N_of_ascii c))) b 0.

(** [htobe64], as the bytes in memory; [be64toh] is [of_be32]'s loop. *)
Definition be64 (x : Z) : bytes := be32 (Z.shiftr x 32) ++ be32 x.

(** ** What is written is what is read *)

Lemma byte_of_Z x : 0 <= x < 256 -> Z.of_N (N_of_ascii (ascii_of_N (Z.to_N x))) = x.
Proof. intros Hx. rewrite N_ascii_embedding by lia. lia. Qed.

Lemma byte_at x sh :
  Z.of_N (N_of_ascii (ascii_of_N (Z.to_N (Z.land (Z.shiftr x sh) 255)))) = Z.shiftr x sh mod 256.
Proof.
  change 255 with (Z.ones 8). rewrite Z.land_ones by lia. apply byte_of_Z.
  apply Z.mod_pos_bound. lia.
Qed.

Lemma land_shift8 a b : 0 <= b < 256 -> Z.land (Z.shiftl a 8) b = 0.
Proof.
  intros Hb. apply Z.bits_inj'. intros n Hn. rewrite Z.land_spec, Z.bits_0.
  destruct (Z.lt_ge_cases n 8); [by rewrite Z.shiftl_spec_low|].
  destruct (Z.eq_dec b 0) as [->|]; [by rewrite Z.bits_0, andb_false_r|].
  rewrite (Z.bits_above_log2 b n); [by rewrite andb_false_r|lia|].
  apply Z.log2_lt_pow2; [lia|]. eapply Z.lt_le_trans; [apply Hb|].
  apply (Z.pow_le_mono_r 2 8); lia.
Qed.

Lemma lor_shift8 a b : 0 <= b < 256 -> Z.lor (Z.shiftl a 8) b = a * 256 + b.
Proof.
  intros Hb. rewrite <-Z.lxor_lor, <-Z.add_nocarry_lxor by by apply land_shift8.
  rewrite Z.shiftl_mul_pow2; lia.
Qed.

Lemma be32_length x : length (be32 x) = 4%nat.
Proof. done. Qed.

Lemma of_be32_be32 x : 0 <= x < 4294967296 -> of_be32 (be32 x) = x.
Proof.
  intros Hx. unfold of_be32, be32, u32. rewrite (Z.mod_small x) by done. cbn [map fold_left].
  rewrite !byte_at. rewrite !lor_shift8 by (apply Z.mod_pos_bound; lia).
  rewrite !Z.shiftr_div_pow2 by lia.
  change (2 ^ 24) with (256 * 256 * 256). change (2 ^ 16) with (256 * 256).
  change (2 ^ 8) with 256. change (2 ^ 0) with 1.
  rewrite <-!Z.div_div by lia. rewrite Z.div_1_r.
  pose proof (Z.div_mod x 256 ltac:(lia)). pose proof (Z.div_mod (x / 256) 256 ltac:(lia)).
  pose proof (Z.div_mod (x / 256 / 256) 256 ltac:(lia)).
  pose proof (Z.mod_pos_bound x 256 ltac:(lia)).
  pose proof (Z.mod_pos_bound (x / 256) 256 ltac:(lia)).
  pose proof (Z.mod_pos_bound (x / 256 / 256) 256 ltac:(lia)).
  rewrite (Z.mod_small (x / 256 / 256 / 256)) by lia. lia.
Qed.

Lemma of_be32_bound b : 0 <= of_be32 (take 4 b) < 4294967296.
Proof.
  assert (forall c, 0 <= Z.of_N (N_of_ascii c) < 256) as Hc
    by (intros c; pose proof (N_ascii_bounded c); lia).
  unfold of_be32. destruct b as [|c1 [|c2 [|c3 [|c4 b]]]]; rewrite ?take_0; cbn [take fold_left]; [lia|..];
    rewrite ?take_0; cbn [fold_left];
    rewrite !lor_shift8 by apply Hc;
    try pose proof (Hc c1); try pose proof (Hc c2); try pose proof (Hc c3); try pose proof (Hc c4); lia.
Qed.

Lemma fold_be32 acc x : 0 <= x < 4294967296 ->
  fold_left (fun a c => Z.lor (Z.shiftl a 8) (Z.of_N (N_of_ascii c))) (be32 x) acc = acc * 4294967296 + x.
Proof.
  intros Hx. unfold be32, u32. rewrite (Z.mod_small x) by done. cbn [map fold_left].
  rewrite !byte_at, !lor_shift8 by (apply Z.mod_pos_bound; lia). rewrite !Z.shiftr_div_pow2 by lia.
  change (2 ^ 24) with (256 * 256 * 256). change (2 ^ 16) with (256 * 256).
  change (2 ^ 8) with 256. change (2 ^ 0) with 1. rewrite <-!Z.div_div by lia. rewrite Z.div_1_r.
  pose proof (Z.div_mod x 256 ltac:(lia)). pose proof (Z.div_mod (x / 256) 256 ltac:(lia)).
  pose proof (Z.div_mod (x / 256 / 256) 256 ltac:(lia)). pose proof (Z.mod_pos_bound x 256 ltac:(lia)).
  pose proof (Z.mod_pos_bound (x / 256) 256 ltac:(lia)).
  pose proof (Z.mod_pos_bound (x / 256 / 256) 256 ltac:(lia)).
  rewrite (Z.mod_small (x / 256 / 256 / 256)) by lia. lia.
Qed.

Lemma be32_u32 x : be32 (u32 x) = be32 x.
Proof.
  assert (u32 (u32 x) = u32 x) as Hx by (apply Z.mod_mod; lia). unfold be32. by rewrite Hx.
Qed.

Lemma of_be32_be64 x : is_u64 x -> of_be32 (be64 x) = x.
Proof.
  intros [H0 H1]. unfold of_be32, be64. rewrite fold_left_app, Z.shiftr_div_pow2 by lia.
  change (2 ^ 32) with 4294967296.
  assert (0 <= x / 4294967296 < 4294967296) as Hd by (split; [apply Z.div_pos; lia|apply Z.div_lt_upper_bound; lia]).
  rewrite <-(be32_u32 x), fold_be32 by (apply Z.mod_pos_bound; lia). rewrite fold_be32 by exact Hd.
  unfold u32. pose proof (Z.div_mod x 4294967296 ltac:(lia)). lia.
Qed.

Lemma of_be32_be16 x : 0 <= x < 65536 -> of_be32 (be16 x) = x.
Proof.
  intros Hx. unfold of_be32, be16, u16. rewrite (Z.mod_small x) by done. cbn [map fold_left].
  rewrite !byte_at, !lor_shift8 by (apply Z.mod_pos_bound; lia). rewrite !Z.shiftr_div_pow2 by lia.
  change (2 ^ 8) with 256. change (2 ^ 0) with 1. rewrite Z.div_1_r.
  pose proof (Z.div_mod x 256 ltac:(lia)). rewrite (Z.mod_small (x / 256)) by (split; [apply Z.div_pos|apply Z.div_lt_upper_bound]; lia). lia.
Qed.

Lemma be16_length x : length (be16 x) = 2%nat.
Proof. reflexivity. Qed.

Lemma be64_length x : length (be64 x) = 8%nat.
Proof. reflexivity. Qed.
