(* ===== verification/SnapshotFile.v ===== *)
(** * Snapshot files

    [Storage/SnapshotFile.cc]: a snapshot is written to a staging file
    ["partial.*"] and renamed to ["snapshot"] when complete. A message is
    stored as its length, 32 bits big-endian, and its bytes. [Reader] and
    [Writer] implement the stream interface of [Stream.v]; the instance of its
    laws is at the end.

    The snapshot directory is a map from file names to contents. Reading and
    writing never fails here: an error from the kernel ends the C++ process
    ([PANIC]). *)

From Stdlib Require Import ZArith Lia Ascii String.
From stdpp Require Import base gmap strings list fin_maps.
From S2P Require Import Prelude StringUtil Stream Endian.
Local Open Scope Z_scope.
Local Open Scope list_scope.

Abbreviation SnapshotDir := (gmap string bytes).

(** [discardPartialSnapshots] removes, among the files [ls] lists, those whose
    name starts with "partial". *)
Definition discardPartialSnapshots (dir : SnapshotDir) : SnapshotDir :=
  fold_right (fun (f : string * bytes) d =>
                if startsWith f.1 "partial" then delete f.1 d else d)
             dir (map_to_list dir).

(** ** Reader *)

Record Reader : Type := mkReader { reader_contents : bytes; bytesRead : Z }.

(** The constructor throws if there is no file "snapshot". *)
Definition Reader_init (dir : SnapshotDir) : option Reader :=
  match dir !! "snapshot"%string with
  | None => None
  | Some c => Some (mkReader c 0)
  end.

Definition Reader_getSizeBytes (r : Reader) : Z := Z.of_nat (length (reader_contents r)).

(** [FileContents::copyPartial] *)
Definition copyPartial (contents : bytes) (offset : Z) (maxLength : nat) : bytes :=
  if bool_decide (offset >= Z.of_nat (length contents)) then []
  else take maxLength (drop (Z.to_nat offset) contents).

Definition Reader_readRaw (n : nat) : M Reader bytes :=
  let! r := get in
  let data := copyPartial (reader_contents r) (bytesRead r) n in
  put (mkReader (reader_contents r) (u64 (bytesRead r + Z.of_nat (length data)))) ;;;
  ret data.

(** [contents->get(bytesRead, length)]: past the end it panics. *)
Definition FileContents_get (contents : bytes) (offset length : Z) : outcome bytes :=
  if negb (length =? 0) && (Z.of_nat (List.length contents) <? u64 (offset + length))
  then Fail Panicked
  else Ok (take (Z.to_nat length) (drop (Z.to_nat offset) contents)).

Definition Reader_readMessage (T : Type) `{ProtoBuf T} : M Reader (read_error + T) :=
  let! field := Reader_readRaw 4 in
  if bool_decide (length field < 4)%nat then ret (inl ShortLengthField) else
  let len := of_be32 field in
  let! r := get in
  if u64 (Reader_getSizeBytes r - bytesRead r) <? len then ret (inl ShortMessage) else
  let! buf := lift (FileContents_get (reader_contents r) (bytesRead r) len) in
  put (mkReader (reader_contents r) (u64 (bytesRead r + len))) ;;;
  ret (match pb_parse buf with Some m => inr m | None => inl Unparsable end).

(** ** Writer *)

(** [dir] is the directory the writer shares with the rest of the process and,
    after a [fork], with the child; so is [sharedBytesWritten], which lives in
    shared memory. [bytesWritten] is private to a process. *)
Record Writer : Type := mkWriter {
  dir : SnapshotDir;
  stagingName : string;
  is_open : bool;
  bytesWritten : Z;
  sharedBytesWritten : Z
}.

(** The staging file is created with [O_EXCL], so its name (from the system
    clock) must be new. *)
Definition Writer_init (d : SnapshotDir) (name : string) : outcome Writer :=
  match d !! name with
  | Some _ => Fail Panicked
  | None => Ok (mkWriter (<[name := []]> d) name true 0 0)
  end.

Definition staged (w : Writer) : bytes := default [] (dir w !! stagingName w).

(** One [write] to the descriptor: the bytes go to the end of the staging file. *)
Definition Writer_append (b : bytes) : M Writer unit :=
  let! w := get in
  if negb (is_open w) then fail Panicked else
  let n := Z.of_nat (length b) in
  put (mkWriter (<[stagingName w := staged w ++ b]> (dir w)) (stagingName w) true
                (u64 (bytesWritten w + n)) (u64 (sharedBytesWritten w + n))).

Definition Writer_writeRaw (b : bytes) : M Writer unit := Writer_append b.

Definition Writer_writeMessage {T} `{ProtoBuf T} (m : T) : M Writer unit :=
  let buf := pb_serialize m in
  Writer_append (be32 (Z.of_nat (length buf)) ++ buf).

Definition Writer_flushToOS : M Writer unit := ret tt.

Definition Writer_seekToEnd : M Writer unit :=
  let! w := get in
  if negb (is_open w) then fail Panicked else
  put (mkWriter (dir w) (stagingName w) true (Z.of_nat (length (staged w))) (sharedBytesWritten w)).

Definition Writer_discard : M Writer unit :=
  let! w := get in
  if negb (is_open w) then fail Panicked else
  put (mkWriter (delete (stagingName w) (dir w)) (stagingName w) false
                (bytesWritten w) (sharedBytesWritten w)).

(** [rename] replaces "snapshot" by the staging file in one step. *)
Definition Writer_save : M Writer Z :=
  let! w := get in
  if negb (is_open w) then fail Panicked else
  put (mkWriter (<["snapshot"%string := staged w]> (delete (stagingName w) (dir w)))
                (stagingName w) false (bytesWritten w) (sharedBytesWritten w)) ;;;
  ret (Z.of_nat (length (staged w))).

(** The destructor discards a snapshot that was never saved. *)
Definition Writer_destroy : M Writer unit :=
  let! w := get in
  when (is_open w) Writer_discard.

(** ** The stream instances *)

#[export] Instance Writer_stream : OutputStream Writer :=
  {| writeMessage _ _ m := Writer_writeMessage m;
     writeRaw := Writer_writeRaw;
     getBytesWritten := bytesWritten |}.

#[export] Instance Reader_stream : InputStream Reader :=
  {| readMessage T _ := Reader_readMessage T;
     readRaw := Reader_readRaw;
     getBytesRead := bytesRead;
     messagesLeft r := length (drop (Z.to_nat (bytesRead r)) (reader_contents r)) |}.

(** ** What is written is what is read *)

Definition reader_ok (r : Reader) : Prop :=
  0 <= bytesRead r <= Reader_getSizeBytes r /\ Reader_getSizeBytes r < 9223372036854775808.

Definition reader_unread (r : Reader) : bytes := drop (Z.to_nat (bytesRead r)) (reader_contents r).

Definition frame32 (b : bytes) : bytes := be32 (Z.of_nat (length b)) ++ b.

Lemma reader_unread_length r :
  reader_ok r -> Z.of_nat (length (reader_unread r)) = Reader_getSizeBytes r - bytesRead r.
Proof. unfold reader_ok, reader_unread, Reader_getSizeBytes. intros. rewrite length_drop. lia. Qed.

(** Moving [n] bytes forward. *)
Definition reader_advance (n : Z) (r : Reader) : Reader :=
  mkReader (reader_contents r) (u64 (bytesRead r + n)).

Lemma reader_advance_ok r n :
  reader_ok r -> 0 <= n <= Z.of_nat (length (reader_unread r)) ->
  reader_ok (reader_advance n r) /\
  reader_unread (reader_advance n r) = drop (Z.to_nat n) (reader_unread r).
Proof.
  intros Hr Hn. rewrite reader_unread_length in Hn by done. destruct Hr as [Hr Hsize].
  unfold reader_ok, reader_unread, Reader_getSizeBytes, reader_advance in *. simpl.
  rewrite u64_small by (unfold is_u64; lia). split; [lia|].
  rewrite drop_drop. f_equal. lia.
Qed.

Lemma copyPartial_unread r n :
  reader_ok r -> copyPartial (reader_contents r) (bytesRead r) n = take n (reader_unread r).
Proof.
  intros [Hr Hs]. unfold copyPartial, reader_unread, Reader_getSizeBytes in *. case_bool_decide as H; [|done].
  rewrite drop_ge by lia. by destruct n.
Qed.

Lemma wp_readRaw E n r Q :
  reader_ok r ->
  Q (take n (reader_unread r)) (reader_advance (Z.of_nat (length (take n (reader_unread r)))) r) ->
  wp E (Reader_readRaw n) Q r.
Proof.
  intros Hr HQ. apply wp_bind, wp_get, wp_bind, wp_put, wp_ret.
  by rewrite copyPartial_unread by done.
Qed.

Lemma readRaw_advance r n :
  reader_ok r ->
  let r' := reader_advance (Z.of_nat (length (take n (reader_unread r)))) r in
  reader_ok r' /\ reader_unread r' = drop n (reader_unread r).
Proof.
  intros Hr r'. destruct (reader_advance_ok r (Z.of_nat (length (take n (reader_unread r)))) Hr) as [H1 H2].
  { rewrite length_take. lia. }
  split; [done|]. subst r'. rewrite H2, Nat2Z.id, length_take.
  destruct (Nat.min_spec n (length (reader_unread r))) as [[_ ->]|[? ->]]; [done|].
  rewrite !drop_ge by lia. done.
Qed.


(** [readMessage] in terms of the bytes still unread. *)
Lemma wp_readMessage E T `{ProtoBuf T} r Q :
  reader_ok r ->
  (let field := take 4 (reader_unread r) in
   let r1 := reader_advance (Z.of_nat (length field)) r in
   let n := of_be32 field in
   if bool_decide (length field < 4)%nat then Q (inl ShortLengthField) r1
   else if Z.of_nat (length (reader_unread r1)) <? n then Q (inl ShortMessage) r1
   else Q (match pb_parse (take (Z.to_nat n) (reader_unread r1)) with
           | Some m => inr m | None => inl Unparsable end) (reader_advance n r1)) ->
  wp E (Reader_readMessage T) Q r.
Proof.
  intros Hr HQ. pose proof (of_be32_bound (reader_unread r)) as Hlen.
  apply wp_bind, wp_readRaw; [done|]. cbv zeta in HQ.
  destruct (readRaw_advance r 4 Hr) as [Hr1 _]. revert Hr1 HQ.
  set (r1 := reader_advance _ _). set (n := of_be32 _) in *. intros Hr1 HQ.
  case_bool_decide; [by apply wp_ret|]. apply wp_bind, wp_get.
  assert (u64 (Reader_getSizeBytes r1 - bytesRead r1) = Z.of_nat (length (reader_unread r1))) as ->.
  { rewrite reader_unread_length by done. apply u64_small. destruct Hr1. unfold is_u64. lia. }
  destruct (_ <? n) eqn:Hlt; [by apply wp_ret|]. apply Z.ltb_ge in Hlt.
  apply wp_bind, wp_lift. unfold FileContents_get.
  rewrite reader_unread_length in Hlt by done. destruct Hr1 as [Hb Hs]. unfold Reader_getSizeBytes in *.
  rewrite (proj2 (Z.ltb_ge _ _)) by (rewrite u64_small; unfold is_u64; lia).
  rewrite andb_false_r. apply wp_bind, wp_put, wp_ret. exact HQ.
Qed.

Lemma Reader_readMessage_spec T `{ProtoBuf T} b rest r :
  reader_ok r -> Z.of_nat (length b) < 4294967296 -> reader_unread r = frame32 b ++ rest ->
  safe (Reader_readMessage T)
    (fun res r' => reader_unread r' = rest /\
       res = match pb_parse b with Some m => inr m | None => inl Unparsable end) r.
Proof.
  intros Hr Hb Hun. apply wp_readMessage; [done|]. cbv zeta.
  destruct (readRaw_advance r 4 Hr) as [Hr1 Hun1].
  revert Hr1 Hun1. set (r1 := reader_advance _ _). intros Hr1 Hun1.
  assert (take 4 (reader_unread r) = be32 (Z.of_nat (length b))) as -> by (by rewrite Hun).
  rewrite of_be32_be32 by lia. rewrite bool_decide_eq_false_2 by (rewrite be32_length; lia).
  rewrite Hun in Hun1. change (drop 4 (frame32 b ++ rest)) with (b ++ rest) in Hun1.
  rewrite Hun1, (proj2 (Z.ltb_ge _ _)) by (rewrite length_app; lia).
  destruct (reader_advance_ok r1 (Z.of_nat (length b)) Hr1) as [_ ->].
  { rewrite Hun1, length_app. lia. }
  by rewrite Nat2Z.id, Hun1, drop_app_length, take_app_length.
Qed.

Lemma Reader_readMessage_progress T `{ProtoBuf T} r :
  reader_ok r ->
  safe (Reader_readMessage T)
    (fun res r' => reader_ok r' /\
       match res with
       | inr _ => (length (reader_unread r') < length (reader_unread r))%nat
       | inl _ => True
       end) r.
Proof.
  intros Hr. apply wp_readMessage; [done|]. cbv zeta.
  destruct (readRaw_advance r 4 Hr) as [Hr1 Hun1].
  revert Hr1 Hun1. set (r1 := reader_advance _ _). intros Hr1 Hun1.
  case_bool_decide as H4; [done|]. rewrite length_take in H4.
  destruct (_ <? _) eqn:Hlt; [done|]. apply Z.ltb_ge in Hlt.
  pose proof (of_be32_bound (reader_unread r)) as Hn.
  destruct (reader_advance_ok r1 (of_be32 (take 4 (reader_unread r))) Hr1 ltac:(lia)) as [Hr2 Hun2].
  split; [done|]. destruct (pb_parse _); [|done].
  rewrite Hun2, Hun1, !length_drop. lia.
Qed.

Lemma Reader_readRaw_spec n r :
  reader_ok r ->
  safe (Reader_readRaw n)
    (fun b r' => reader_ok r' /\ reader_unread r = b ++ reader_unread r' /\
       length b = Nat.min n (length (reader_unread r)) /\
       (length (reader_unread r') <= length (reader_unread r))%nat) r.
Proof.
  intros Hr. apply wp_readRaw; [done|]. destruct (readRaw_advance r n Hr) as [Hr1 ->].
  split; [done|]. rewrite take_drop, length_take, length_drop. split; [done|]. lia.
Qed.

Lemma Writer_append_spec b w :
  is_open w = true ->
  safe (Writer_append b) (fun _ w' => is_open w' = true /\ staged w' = staged w ++ b) w.
Proof.
  intros Hw. apply wp_bind, wp_get. rewrite Hw. cbn [negb]. apply wp_put.
  split; [done|]. unfold staged at 1. cbn [dir stagingName]. by rewrite lookup_insert_eq.
Qed.

(** Snapshot files are streams. *)
#[export] Instance SnapshotFile_laws : StreamLaws Writer Reader :=
  {| writable w := is_open w = true;
     written := staged;
     readable := reader_ok;
     unread := reader_unread;
     frameable b := Z.of_nat (length b) < 4294967296;
     frame := frame32;
     writeMessage_law _ _ m w Hw _ := Writer_append_spec _ w Hw;
     writeRaw_law b w Hw := Writer_append_spec b w Hw;
     readMessage_law T _ := Reader_readMessage_spec T;
     readMessage_progress T _ := Reader_readMessage_progress T;
     readRaw_law := Reader_readRaw_spec |}.
