(* ===== verification/TreeSnapshot.v ===== *)
(** * Snapshots of the tree

    [dumpSnapshot] and [loadSnapshot] of [Tree/Tree.cc], on the streams of
    [Stream.v]: a directory is a message that lists its children, then the
    children in the same order. What is loaded is the tree that was dumped,
    and loading ends on any input. *)

From Stdlib Require Import ZArith Lia Ascii String.
From stdpp Require Import countable base gmap strings list fin_maps sorting.
From S2P Require Import Prelude OrderedMap StringUtil Stream SnapshotFile Tree TreeSpec.
Local Open Scope string_scope.
Local Open Scope Z_scope.
Local Open Scope list_scope.

(** ** The messages of [Tree/Snapshot.proto] *)

Record Snapshot_Directory : Type := mkSnapshot_Directory {
  snap_directories : list string;
  snap_files : list string
}.

Record Snapshot_File : Type := mkSnapshot_File { snap_contents : string }.

#[export] Instance Snapshot_Directory_eq_dec : EqDecision Snapshot_Directory.
Proof. solve_decision. Defined.
#[export] Instance Snapshot_File_eq_dec : EqDecision Snapshot_File.
Proof. solve_decision. Defined.

#[export] Instance Snapshot_Directory_countable : Countable Snapshot_Directory.
Proof.
  refine (inj_countable' (fun m => (snap_directories m, snap_files m))
            (fun p => mkSnapshot_Directory p.1 p.2) _).
  by intros [].
Defined.
#[export] Instance Snapshot_File_countable : Countable Snapshot_File.
Proof. refine (inj_countable' snap_contents mkSnapshot_File _). by intros []. Defined.

Section Dump.
Context {W R : Type} `{OutputStream W} `{InputStream R}.
Context `{ProtoBuf Snapshot_Directory} `{ProtoBuf Snapshot_File}.

Definition File_dumpSnapshot (f : File) : M W unit :=
  writeMessage (mkSnapshot_File (contents f)).

Definition File_loadSnapshot : M R File :=
  let! res := readMessage Snapshot_File in
  match res with
  | inl _ => fail Panicked
  | inr node => ret (mkFile (snap_contents node))
  end.

Fixpoint Directory_dumpSnapshot (d : Directory) : M W unit :=
  match d with
  | mkDirectory ds fs =>
      writeMessage (mkSnapshot_Directory (map fst ds) (map fst fs)) ;;;
      forM ds (fun it => Directory_dumpSnapshot it.2) ;;;
      forM fs (fun it => File_dumpSnapshot it.2)
  end.

(** [files[name].loadSnapshot(stream)] and [directories[name].loadSnapshot(stream)]:
    the entry is made if there is none, and is overwritten in place. *)
Fixpoint load_files (names : list string) (d : Directory) : M R Directory :=
  match names with
  | [] => ret d
  | n :: names' =>
      let! f := File_loadSnapshot in
      load_files names' (mkDirectory (directories d) (om_set (om_insert (files d) n File_init) n f))
  end.

Fixpoint load_directories (load : Directory -> M R Directory) (names : list string)
    (d : Directory) : M R Directory :=
  match names with
  | [] => ret d
  | n :: names' =>
      let ds := om_insert (directories d) n Directory_init in
      let! sub := load (default Directory_init (om_lookup ds n)) in
      load_directories load names' (mkDirectory (om_set ds n sub) (files d))
  end.

(** Every call reads a message, so [messagesLeft] bounds the depth. *)
Fixpoint Directory_loadSnapshot (fuel : nat) (d : Directory) : M R Directory :=
  match fuel with
  | O => fail Blocked
  | S fuel =>
      let! res := readMessage Snapshot_Directory in
      match res with
      | inl _ => fail Panicked
      | inr dir =>
          let! d1 := load_directories (Directory_loadSnapshot fuel) (snap_directories dir) d in
          load_files (snap_files dir) d1
      end
  end.

Definition Tree_dumpSnapshot (t : Tree) : M W unit := Directory_dumpSnapshot (superRoot t).

(** The counters are kept. *)
Definition Tree_loadSnapshot (t : Tree) : M R Tree :=
  let! r := get in
  let! d := Directory_loadSnapshot (S (messagesLeft r)) Directory_init in
  ret (set_superRoot d t).
End Dump.

(** ** Round trip *)

Section RoundTrip.
Context {W R : Type} `{StreamLaws W R}.
Context `{PD : ProtoBufLaws Snapshot_Directory} `{PF : ProtoBufLaws Snapshot_File}.

Definition directory_message (d : Directory) : Snapshot_Directory :=
  mkSnapshot_Directory (map fst (directories d)) (map fst (files d)).

Definition file_message (f : File) : Snapshot_File := mkSnapshot_File (contents f).

(** Every message of the dump has a length the stream can frame. *)
Inductive dumpable : Directory -> Prop :=
| dumpable_intro ds fs :
    frameable (pb_serialize (directory_message (mkDirectory ds fs))) ->
    (forall n f, (n, f) ∈ fs -> frameable (pb_serialize (file_message f))) ->
    (forall n c, (n, c) ∈ ds -> dumpable c) ->
    dumpable (mkDirectory ds fs).

Fixpoint dump_bytes (d : Directory) : bytes :=
  match d with
  | mkDirectory ds fs =>
      frame (pb_serialize (directory_message (mkDirectory ds fs))) ++
      concat (map (fun it => dump_bytes it.2) ds) ++
      concat (map (fun it => frame (pb_serialize (file_message it.2))) fs)
  end.

(** A loop that appends the bytes of each element. *)
Lemma forM_writes {A} (l : list A) (f : A -> M W unit) (b : A -> bytes) w :
  (forall a w, a ∈ l -> writable w ->
     safe (f a) (fun _ w' => writable w' /\ written w' = written w ++ b a) w) ->
  writable w ->
  safe (forM l f) (fun _ w' => writable w' /\ written w' = written w ++ concat (map b l)) w.
Proof.
  intros Hf Hw. revert w Hw. induction l as [|a l IH]; intros w Hw; simpl.
  { apply wp_ret. by rewrite app_nil_r. }
  apply wp_bind. eapply wp_mono; [apply Hf; [left|done]|done|].
  intros _ w' [Hw' Hb]. eapply wp_mono; [apply IH; [|done]|done|].
  - intros a' w'' Ha. apply Hf. by right.
  - intros _ w'' [Hw'' Hb']. by rewrite Hb', Hb, <-app_assoc.
Qed.

Lemma dump_writes d w :
  dumpable d -> writable w ->
  safe (Directory_dumpSnapshot d)
    (fun _ w' => writable w' /\ written w' = written w ++ dump_bytes d) w.
Proof.
  intros Hd. revert w. induction Hd as [ds fs Hf Hfs _ IH]; intros w Hw. simpl.
  apply wp_bind. eapply wp_mono; [by apply (writeMessage_law (W:=W) (R:=R))|done|].
  intros _ w1 [Hw1 Hb1]. apply wp_bind. eapply wp_mono.
  { apply (forM_writes ds _ (fun it => dump_bytes it.2)); [|done].
    intros [n c] w' Hc Hw'. by eapply IH. }
  { done. }
  intros _ w2 [Hw2 Hb2]. eapply wp_mono.
  { apply (forM_writes fs _ (fun it => frame (pb_serialize (file_message it.2)))); [|done].
    intros [n f] w' Hin Hw'. apply (writeMessage_law (W:=W) (R:=R)); [done|]. by eapply Hfs. }
  { done. }
  intros _ w3 [Hw3 Hb3]. split; [done|]. by rewrite Hb3, Hb2, Hb1, <-!app_assoc.
Qed.

(** What a reader promises on the bytes [b]: the value [x], and progress. *)
Definition loads {A} (m : M R A) (b : bytes) (x : A) (r : R) : Prop :=
  forall rest, unread r = b ++ rest ->
    safe m (fun a r' => a = x /\ readable r' /\ unread r' = rest /\
                        (messagesLeft r' <= messagesLeft r)%nat) r.

Lemma load_files_dumped ds pre fs r :
  readable r -> om_sorted (pre ++ fs) ->
  (forall n f, (n, f) ∈ fs -> frameable (pb_serialize (file_message f))) ->
  loads (load_files (map fst fs) (mkDirectory ds pre))
    (concat (map (fun it => frame (pb_serialize (file_message it.2))) fs))
    (mkDirectory ds (pre ++ fs)) r.
Proof.
  revert pre r. induction fs as [|[n [c]] fs IH]; intros pre r Hr Hs Hfs rest Hun; simpl in *.
  { rewrite app_nil_r. by apply wp_ret. }
  apply wp_bind. unfold File_loadSnapshot. apply wp_bind.
  eapply wp_mono; [eapply (readMessage_written (file_message (mkFile c))); [done| |by rewrite <-app_assoc in Hun]|done|].
  { eapply Hfs. left. }
  intros res r1 (-> & Hr1 & Hun1 & Hleft). apply wp_ret. cbn [file_message snap_contents contents].
  apply om_sorted_app_inv in Hs as Hpre.
  rewrite om_insert_above, om_set_last by done.
  eapply wp_mono; [apply (IH (pre ++ [(n, mkFile c)]) r1 Hr1); [by rewrite <-app_assoc| |done]|done|].
  { intros n' f' Hin. eapply Hfs. by right. }
  intros d' r2 (-> & Hr2 & Hun2 & Hleft2). rewrite <-app_assoc. repeat (split; [done|]). lia.
Qed.

Lemma load_directories_dumped load pre ds fs r n0 :
  readable r -> om_sorted (pre ++ ds) -> (messagesLeft r < n0)%nat ->
  (forall n c r', (n, c) ∈ ds -> readable r' -> (messagesLeft r' < n0)%nat ->
     loads (load Directory_init) (dump_bytes c) c r') ->
  loads (load_directories load (map fst ds) (mkDirectory pre fs))
    (concat (map (fun it => dump_bytes it.2) ds)) (mkDirectory (pre ++ ds) fs) r.
Proof.
  revert pre r. induction ds as [|[n c] ds IH]; intros pre r Hr Hs Hn Hload rest Hun; simpl in *.
  { rewrite app_nil_r. by apply wp_ret. }
  apply om_sorted_app_inv in Hs as Hpre.
  rewrite om_insert_above by done. rewrite <-(om_insert_above _ _ Directory_init) by done.
  rewrite om_lookup_insert, decide_True, om_lookup_below by done. cbn [default].
  rewrite om_insert_above by done.
  apply wp_bind. rewrite <-app_assoc in Hun.
  eapply wp_mono; [by apply (Hload n c r (list_elem_of_here _ _))|done|].
  intros c' r1 (-> & Hr1 & Hun1 & Hleft1). rewrite om_set_last by done.
  eapply wp_mono; [apply (IH (pre ++ [(n, c)]) r1 Hr1); [by rewrite <-app_assoc|lia| |done]|done|].
  { intros n' c' r' Hin. eapply Hload. by right. }
  intros d' r2 (-> & Hr2 & Hun2 & Hleft2). rewrite <-app_assoc. repeat (split; [done|]). lia.
Qed.

Lemma load_dumped d fuel r :
  dumpable d -> dir_wf d -> readable r -> (messagesLeft r < fuel)%nat ->
  loads (Directory_loadSnapshot fuel Directory_init) (dump_bytes d) d r.
Proof.
  intros Hd. revert fuel r. induction Hd as [ds fs Hf Hfs _ IH].
  intros [|fuel] r Hwf Hr Hfuel rest Hun; [lia|]. simpl in *. apply wp_bind.
  rewrite <-!app_assoc in Hun.
  eapply wp_mono; [by eapply (readMessage_written (directory_message (mkDirectory ds fs)))|done|].
  intros res r1 (-> & Hr1 & Hun1 & Hleft1). apply wp_bind.
  destruct (dir_wf_sorted _ Hwf) as [Hds Hfss]. simpl in *.
  eapply wp_mono; [apply (load_directories_dumped _ [] ds [] r1 fuel); [done|done|lia| |done]|done|].
  { intros n c r' Hin Hr' Hleft'. eapply IH; [done| |done|lia].
    eapply dir_wf_child; [exact Hwf|]. by apply om_lookup_elem. }
  intros d' r2 (-> & Hr2 & Hun2 & Hleft2).
  eapply wp_mono; [by apply (load_files_dumped ds [] fs r2)|done|].
  intros d' r3 (-> & Hr3 & Hun3 & Hleft3). repeat (split; [done|]). lia.
Qed.
End RoundTrip.

Section Termination.
Context {W R : Type} `{StreamLaws W R}.
Context `{ProtoBuf Snapshot_Directory} `{ProtoBuf Snapshot_File}.

Definition only_panics (f : fault) : Prop := f = Panicked.

(** Ends with a value or a panic, and consumes input. *)
Definition ends {A} (m : M R A) (r : R) : Prop :=
  wp only_panics m (fun _ r' => readable r' /\ (messagesLeft r' <= messagesLeft r)%nat) r.

Lemma ends_readMessage {T} `{ProtoBuf T} {A} (k : T -> M R A) r :
  readable r ->
  (forall m r', readable r' -> (messagesLeft r' < messagesLeft r)%nat -> ends (k m) r') ->
  ends (let! res := readMessage T in
        match res with inl _ => fail Panicked | inr m => k m end) r.
Proof.
  intros Hr Hk. apply wp_bind.
  eapply wp_mono; [by apply (readMessage_progress (W:=W) (T:=T))|done|].
  intros [e|m] r' [Hr' Hleft]; [done|].
  eapply wp_mono; [by apply Hk|done|]. intros a r2 [? ?]. split; [done|lia].
Qed.

Lemma ends_bind {A B} (m : M R A) (k : A -> M R B) r :
  ends m r -> (forall a r', readable r' -> (messagesLeft r' <= messagesLeft r)%nat -> ends (k a) r') ->
  ends (bind m k) r.
Proof.
  intros Hm Hk. apply wp_bind. eapply wp_mono; [exact Hm|done|]. intros a r' [Hr' Hle].
  eapply wp_mono; [by apply Hk|done|]. intros b r2 [? ?]. split; [done|lia].
Qed.

Lemma load_files_ends names d r : readable r -> ends (load_files names d) r.
Proof.
  revert d r. induction names as [|n names IH]; intros d r Hr; simpl; [by apply wp_ret|].
  apply ends_bind; [|intros; by apply IH].
  apply ends_readMessage; [done|]. intros m r' Hr' _. by apply wp_ret.
Qed.

Lemma load_directories_ends load names d r n0 :
  readable r -> (messagesLeft r < n0)%nat ->
  (forall d' r', readable r' -> (messagesLeft r' < n0)%nat -> ends (load d') r') ->
  ends (load_directories load names d) r.
Proof.
  intros Hr Hn Hload. revert d r Hr Hn.
  induction names as [|n names IH]; intros d r Hr Hn; simpl; [by apply wp_ret|].
  apply ends_bind; [by apply Hload|]. intros c r' Hr' Hle. apply IH; [done|lia].
Qed.

Lemma load_ends fuel d r :
  readable r -> (messagesLeft r < fuel)%nat -> ends (Directory_loadSnapshot fuel d) r.
Proof.
  revert d r. induction fuel as [|fuel IH]; intros d r Hr Hfuel; [lia|]. simpl.
  apply ends_readMessage; [done|]. intros m r' Hr' Hleft.
  apply ends_bind; [|intros; by apply load_files_ends].
  eapply (load_directories_ends _ _ _ _ fuel); [done|lia|]. intros. by apply IH.
Qed.
End Termination.

(** C29: whatever the stream holds, [Tree::loadSnapshot] ends: it returns a tree
    or panics on a message it cannot read. The recursion never runs out of the
    fuel the model gives it. *)
Theorem Tree_loadSnapshot_ends `{StreamLaws W R}
    `{ProtoBuf Snapshot_Directory} `{ProtoBuf Snapshot_File} (t : Tree) (r : R) :
  readable r -> wp only_panics (Tree_loadSnapshot t) (fun _ r' => readable r') r.
Proof.
  intros Hr. apply wp_bind, wp_get, wp_bind.
  eapply wp_mono; [apply load_ends; [done|lia]|done|]. intros d r' [Hr' _]. by apply wp_ret.
Qed.

(** C28: what [Tree::dumpSnapshot] writes, [Tree::loadSnapshot] reads back: from
    a stream that starts with those bytes, into any tree, the directories
    loaded are the ones dumped and the rest of the stream is untouched. *)
Theorem Tree_snapshot_roundtrip `{StreamLaws W R}
    `{ProtoBufLaws Snapshot_Directory} `{ProtoBufLaws Snapshot_File} (t t0 : Tree) (w : W) :
  dir_wf (superRoot t) -> dumpable (superRoot t) -> writable w ->
  exists w' b, Tree_dumpSnapshot t w = Ok (tt, w') /\ written w' = written w ++ b /\
    forall (r : R) rest, readable r -> unread r = b ++ rest ->
      exists r', Tree_loadSnapshot t0 r = Ok (set_superRoot (superRoot t) t0, r') /\
                 readable r' /\ unread r' = rest.
Proof.
  intros Hwf Hd Hw.
  pose proof (dump_writes _ w Hd Hw) as ([] & w' & Hrun & Hw' & Hb)%safe_run.
  exists w', (dump_bytes (superRoot t)). split; [done|]. split; [done|].
  intros r rest Hr Hun.
  pose proof (load_dumped _ (S (messagesLeft r)) r Hd Hwf Hr ltac:(lia) rest Hun)
    as (d & r' & Hload & -> & Hr' & Hun' & _)%safe_run.
  exists r'. unfold Tree_loadSnapshot, bind, get. by rewrite Hload.
Qed.

(** ** A run on a snapshot file *)

Module Demo.
#[export] Instance directory_codec : ProtoBuf Snapshot_Directory :=
  countable_protobuf Snapshot_Directory.
#[export] Instance directory_codec_laws : ProtoBufLaws Snapshot_Directory :=
  countable_protobuf_laws Snapshot_Directory.
#[export] Instance file_codec : ProtoBuf Snapshot_File := countable_protobuf Snapshot_File.
#[export] Instance file_codec_laws : ProtoBufLaws Snapshot_File :=
  countable_protobuf_laws Snapshot_File.

Definition demo_dir : Directory :=
  mkDirectory [("root", mkDirectory [("a", Directory_init)] [("f", mkFile "x")])] [].
Definition demo_tree : Tree := mkTree demo_dir (fun _ => 0).
Definition demo_writer : Writer := mkWriter {["partial.1" := []]} "partial.1" true 0 0.

Lemma demo_wf : dir_wf demo_dir.
Proof.
  repeat constructor; simpl; try done; intros n c; repeat case_decide; subst; try done;
    intros [= <-]; repeat constructor; simpl; try done;
    intros m c'; repeat case_decide; subst; try done.
  intros [= <-]. apply Directory_init_wf.
Qed.

Ltac demo_step :=
  first [ apply dumpable_intro; [vm_compute; reflexivity|..]
        | progress intros ? ? ?
        | match goal with
          | Hin : (_, _) ∈ [] |- _ => by apply not_elem_of_nil in Hin
          | Hin : (_, _) ∈ _ :: _ |- _ => apply elem_of_cons in Hin as [[= -> ->]|Hin]
          end
        | vm_compute; reflexivity ].

Lemma demo_dumpable : dumpable (W:=Writer) (R:=Reader) demo_dir.
Proof. repeat demo_step. Qed.
End Demo.
Import Demo.

Lemma Tree_loadSnapshot_ends_witness :
  wp only_panics (Tree_loadSnapshot (R:=Reader) Demo.demo_tree) (fun _ r' => reader_ok r')
     (mkReader ["a"%char; "b"%char] 0).
Proof.
  refine (Tree_loadSnapshot_ends (W:=Writer) (R:=Reader) demo_tree (mkReader ["a"%char; "b"%char] 0) _).
  repeat split; vm_compute; congruence.
Defined.

Lemma Tree_snapshot_roundtrip_witness :
  exists w' b, Tree_dumpSnapshot Demo.demo_tree Demo.demo_writer = Ok (tt, w') /\
    staged w' = staged demo_writer ++ b /\
    forall (r : Reader) rest, reader_ok r -> reader_unread r = b ++ rest ->
      exists r', Tree_loadSnapshot Tree_init r = Ok (set_superRoot Demo.demo_dir Tree_init, r') /\
                 reader_ok r' /\ reader_unread r' = rest.
Proof.
  exact (Tree_snapshot_roundtrip (W:=Writer) (R:=Reader) demo_tree Tree_init demo_writer
           demo_wf demo_dumpable eq_refl).
Defined.
