(* ===== verification/TreeRPC.v ===== *)
(** * Requests on the tree

    The messages of [Protocol/Client.proto] that concern the tree, and
    [Tree/ProtoBuf.cc], which runs a request on a [Tree]: the condition first,
    then the one operation the request holds. *)

From Stdlib Require Import ZArith Lia Ascii String.
From stdpp Require Import base gmap strings list fin_maps sorting.
From S2P Require Import Prelude OrderedMap StringUtil Tree TreeSpec.
Local Open Scope string_scope.
Local Open Scope Z_scope.
Local Open Scope list_scope.

(** ** Messages. A [required] field is a field, an [optional] one an [option]. *)

Record ExactlyOnceRPCInfo : Type := mkExactlyOnceRPCInfo {
  client_id : Z;
  first_outstanding_rpc : Z;
  rpc_number : Z
}.

Inductive PC_Status : Type :=
| PC_OK
| PC_INVALID_ARGUMENT
| PC_LOOKUP_ERROR
| PC_TYPE_ERROR
| PC_CONDITION_NOT_MET
| PC_TIMEOUT
| PC_SESSION_EXPIRED
| PC_UNKNOWN.

#[export] Instance PC_Status_eq_dec : EqDecision PC_Status.
Proof. solve_decision. Defined.

(** [static_cast<PC::Status>]: the two enumerations number these alike. *)
Definition PC_Status_of (s : Status) : PC_Status :=
  match s with
  | OK => PC_OK
  | INVALID_ARGUMENT => PC_INVALID_ARGUMENT
  | LOOKUP_ERROR => PC_LOOKUP_ERROR
  | TYPE_ERROR => PC_TYPE_ERROR
  | CONDITION_NOT_MET => PC_CONDITION_NOT_MET
  end.

Record TreeCondition : Type := mkTreeCondition { cond_path : string; cond_contents : string }.

Record ReadOnlyTree_Request : Type := mkReadOnlyTree_Request {
  ro_condition : option TreeCondition;
  ro_list_directory : option string;
  ro_read : option string
}.

Record ReadOnlyTree_Response : Type := mkReadOnlyTree_Response {
  ror_status : option PC_Status;
  ror_error : option string;
  ror_list_directory : option (list string);
  ror_read : option string
}.

Record ReadWriteTree_Request : Type := mkReadWriteTree_Request {
  exactly_once : ExactlyOnceRPCInfo;
  rw_condition : option TreeCondition;
  make_directory : option string;
  remove_directory : option string;
  write_ : option (string * string);
  remove_file : option string
}.

Record ReadWriteTree_Response : Type := mkReadWriteTree_Response {
  rwr_status : option PC_Status;
  rwr_error : option string
}.

Definition ReadWriteTree_Response_init : ReadWriteTree_Response :=
  mkReadWriteTree_Response None None.

#[export] Instance ReadWriteTree_Response_eq_dec : EqDecision ReadWriteTree_Response.
Proof. solve_decision. Defined.

(** ** The handlers *)

Definition check_request_condition (c : option TreeCondition) : M Tree Result :=
  match c with
  | Some c => Tree_checkCondition (cond_path c) (cond_contents c)
  | None => ret Result_init
  end.

Definition is_ok (r : Result) : bool := bool_decide (status r = OK).

(** [response] starts empty: the callers pass the message they just made. The
    listing is added child by child, so that the field stays unset when there
    is none. *)
Definition readOnlyTreeRPC (request : ReadOnlyTree_Request) : M Tree ReadOnlyTree_Response :=
  let! result := check_request_condition (ro_condition request) in
  let! (result, children, contents) :=
    (if negb (is_ok result) then ret (result, None, None)
     else match ro_list_directory request, ro_read request with
     | Some path, _ =>
         let! (result, children) := Tree_listDirectory path in
         ret (result, match children with [] => None | _ :: _ => Some children end, None)
     | None, Some path =>
         let! (result, contents) := Tree_read path in
         ret (result, None, Some contents)
     | None, None => fail Panicked
     end) in
  ret (mkReadOnlyTree_Response (Some (PC_Status_of (status result)))
         (if is_ok result then None else Some (error result)) children contents).

Definition readWriteTreeRPC (request : ReadWriteTree_Request) : M Tree ReadWriteTree_Response :=
  let! result := check_request_condition (rw_condition request) in
  let! result :=
    (if negb (is_ok result) then ret result
     else match make_directory request, remove_directory request,
                write_ request, remove_file request with
     | Some path, _, _, _ => Tree_makeDirectory path
     | None, Some path, _, _ => Tree_removeDirectory path
     | None, None, Some (path, contents), _ => Tree_write path contents
     | None, None, None, Some path => Tree_removeFile path
     | None, None, None, None => fail Panicked
     end) in
  ret (mkReadWriteTree_Response (Some (PC_Status_of (status result)))
         (if is_ok result then None else Some (error result))).

(** ** Specification *)

Definition rw_op (req : ReadWriteTree_Request) : option op :=
  match make_directory req, remove_directory req, write_ req, remove_file req with
  | Some path, _, _, _ => Some (OpMakeDirectory path)
  | None, Some path, _, _ => Some (OpRemoveDirectory path)
  | None, None, Some (path, c), _ => Some (OpWrite path c)
  | None, None, None, Some path => Some (OpRemoveFile path)
  | None, None, None, None => None
  end.

Definition ro_op (req : ReadOnlyTree_Request) : option op :=
  match ro_list_directory req, ro_read req with
  | Some path, _ => Some (OpListDirectory path)
  | None, Some path => Some (OpRead path)
  | None, None => None
  end.

Definition spec_condition (fs : FS) (c : option TreeCondition) : Status :=
  match c with
  | None => OK
  | Some c =>
      let p := Path_init (cond_path c) in
      if startsWith (cond_path c) "/" then
        spec_checkCondition (spec_read fs (parents p) (target p)) (cond_contents c)
      else CONDITION_NOT_MET
  end.

Definition PC_decode (s : PC_Status) : option Status :=
  match s with
  | PC_OK => Some OK
  | PC_INVALID_ARGUMENT => Some INVALID_ARGUMENT
  | PC_LOOKUP_ERROR => Some LOOKUP_ERROR
  | PC_TYPE_ERROR => Some TYPE_ERROR
  | PC_CONDITION_NOT_MET => Some CONDITION_NOT_MET
  | _ => None
  end.

(** How a client reads the answer to the operation [o]. *)
Definition ro_response (o : op) (r : ReadOnlyTree_Response) : option response :=
  pc ← ror_status r; st ← PC_decode pc;
  match o with
  | OpListDirectory _ => Some (RChildren st (default [] (ror_list_directory r)))
  | OpRead _ => Some (RContents st (default "" (ror_read r)))
  | _ => None
  end.

Lemma check_request_condition_spec c t :
  tree_wf t ->
  reads t (check_request_condition c) (fun r => status r = spec_condition (abs (superRoot t)) c).
Proof.
  intros Hwf. destruct c as [[path c]|]; [|by apply wp_ret]. simpl.
  destruct (startsWith path "/") eqn:Hs.
  - eapply wp_mono.
    + apply (checkCondition_reads path c t (fun a =>
        a = spec_read (abs (superRoot t)) (parents (Path_init path)) (target (Path_init path)))).
      intros st. apply (read_implements path (mkTree (superRoot t) st)); [done|].
      by rewrite Path_init_status, Hs.
    + done.
    + intros r t' [Ht' (a & -> & Hr)]. done.
  - eapply wp_mono; [apply (checkCondition_reads path c t (fun a => a.1 = INVALID_ARGUMENT))|done|].
    + intros st. unfold reads, safe, Tree_read. by invalid_go Hs.
    + intros r t' [Ht' ([st c'] & Ha & Hr)]. simpl in Ha. subst st. by split.
Qed.

(** Reading operations leave the directories alone. *)
Lemma run_op_reads o t :
  tree_wf t -> (match o with OpRead _ | OpListDirectory _ => True | _ => False end) ->
  safe (run_op o) (fun r t' => superRoot t' = superRoot t) t.
Proof.
  intros Hwf Ho. destruct (startsWith (op_path o) "/") eqn:Hs.
  2: { eapply wp_mono; [by apply invalid_step|done|]. by intros r t' [_ ?]. }
  pose proof (Path_init_status (op_path o)) as Hok. rewrite Hs in Hok.
  destruct o as [|sym| | |sym| |]; try done; cbn [op_path] in *; apply wp_bind.
  - eapply wp_mono; [by apply listDirectory_implements|done|]. by intros [r l] t' [? _].
  - eapply wp_mono; [by apply read_implements|done|]. by intros [r l] t' [? _].
Qed.

Lemma run_op_ro o t :
  tree_wf t -> (match o with OpRead _ | OpListDirectory _ => True | _ => False end) ->
  safe (run_op o) (fun r t' => superRoot t' = superRoot t /\
                               spec_step o (abs (superRoot t)) r (abs (superRoot t))) t.
Proof.
  intros Hwf Ho.
  eapply wp_mono; [exact (wp_and _ _ _ _ _ (run_op_refines o t Hwf) (run_op_reads o t Hwf Ho))|done|].
  intros r t' [[_ Hstep] Ht']. by rewrite Ht' in Hstep.
Qed.

Lemma readOnlyTreeRPC_total req t :
  tree_wf t ->
  let fs := abs (superRoot t) in
  let st := spec_condition fs (ro_condition req) in
  if decide (st = OK) then
    match ro_op req with
    | None => readOnlyTreeRPC req t = Fail Panicked
    | Some o => safe (readOnlyTreeRPC req)
        (fun r t' => superRoot t' = superRoot t /\
                     exists x, ro_response o r = Some x /\ spec_step o fs x fs) t
    end
  else safe (readOnlyTreeRPC req)
         (fun r t' => superRoot t' = superRoot t /\ ror_status r = Some (PC_Status_of st)) t.
Proof.
  intros Hwf fs st.
  pose proof (check_request_condition_spec (ro_condition req) t Hwf) as (c & t1 & Hc & Ht1 & Hst)%safe_run.
  fold fs st in Hst. assert (tree_wf t1) as Hwf1 by (unfold tree_wf; by rewrite Ht1).
  case_decide as Hdec.
  - unfold safe, wp, readOnlyTreeRPC, bind, ro_op. rewrite Hc.
    unfold is_ok. rewrite Hst, bool_decide_true by done. cbn [negb].
    destruct (ro_list_directory req) as [path|].
    + pose proof (run_op_ro (OpListDirectory path) t1 Hwf1 I) as (x & t2 & Hx & Ht2 & Hstep)%safe_run.
      unfold run_op, bind in Hx. destruct (Tree_listDirectory path t1) as [[[r l] t3]|f]; [|done].
      injection Hx as <- ->. cbn [ret fst snd]. rewrite Ht2, Ht1 in *. split; [done|].
      eexists. split; [|done]. unfold ro_response. simpl. by destruct (status r), l.
    + destruct (ro_read req) as [path|]; [|done].
      pose proof (run_op_ro (OpRead path) t1 Hwf1 I) as (x & t2 & Hx & Ht2 & Hstep)%safe_run.
      unfold run_op, bind in Hx. destruct (Tree_read path t1) as [[[r l] t3]|f]; [|done].
      injection Hx as <- ->. cbn [ret fst snd]. rewrite Ht2, Ht1 in *. split; [done|].
      eexists. split; [|done]. unfold ro_response. simpl. by destruct (status r).
  - unfold safe, wp, readOnlyTreeRPC, bind. rewrite Hc.
    unfold is_ok. rewrite Hst, bool_decide_false by done. cbn [negb]. simpl. by rewrite Hst.
Qed.

(** A request that reads the tree. If the condition fails, that is the
    answer; else the answer is the one the operation has on the abstract store
    (a request without an operation panics). The store never changes. *)
Theorem readOnlyTreeRPC_refines req t :
  tree_wf t ->
  let fs := abs (superRoot t) in
  let st := spec_condition fs (ro_condition req) in
  if decide (st = OK) then
    match ro_op req with
    | None => readOnlyTreeRPC req t = Fail Panicked
    | Some o => safe (readOnlyTreeRPC req)
        (fun r t' => superRoot t' = superRoot t /\
                     exists x, ro_response o r = Some x /\ spec_step o fs x fs) t
    end
  else safe (readOnlyTreeRPC req)
         (fun r t' => superRoot t' = superRoot t /\ ror_status r = Some (PC_Status_of st)) t.
Proof. exact (readOnlyTreeRPC_total req t). Qed.

Lemma readWriteTreeRPC_total req t :
  tree_wf t ->
  let fs := abs (superRoot t) in
  let st := spec_condition fs (rw_condition req) in
  if decide (st = OK) then
    match rw_op req with
    | None => readWriteTreeRPC req t = Fail Panicked
    | Some o => safe (readWriteTreeRPC req)
        (fun r t' => tree_wf t' /\
           exists st', rwr_status r = Some (PC_Status_of st') /\
                       spec_step o fs (RStatus st') (abs (superRoot t'))) t
    end
  else safe (readWriteTreeRPC req)
         (fun r t' => superRoot t' = superRoot t /\ rwr_status r = Some (PC_Status_of st)) t.
Proof.
  intros Hwf fs st.
  pose proof (check_request_condition_spec (rw_condition req) t Hwf) as (c & t1 & Hc & Ht1 & Hst)%safe_run.
  fold fs st in Hst. assert (tree_wf t1) as Hwf1 by (unfold tree_wf; by rewrite Ht1).
  case_decide as Hdec.
  - assert (forall o m, run_op o = (let! r := m in ret (RStatus (status r))) ->
      safe (let! r := m in ret (mkReadWriteTree_Response (Some (PC_Status_of (status r)))
              (if is_ok r then None else Some (error r))))
        (fun r t' => tree_wf t' /\
           exists st', rwr_status r = Some (PC_Status_of st') /\
                       spec_step o fs (RStatus st') (abs (superRoot t'))) t1) as Hrun.
    { intros o m Hm. pose proof (run_op_refines o t1 Hwf1) as (x & t2 & Hx & Hwf2 & Hstep)%safe_run.
      rewrite Hm in Hx. unfold bind in Hx. unfold safe, wp, bind.
      destruct (m t1) as [[r t3]|]; [|done]. injection Hx as <- ->. rewrite Ht1 in Hstep.
      simpl. split; [done|]. by eexists. }
    unfold safe, wp, readWriteTreeRPC, rw_op. unfold bind at 1 3. rewrite Hc.
    unfold is_ok at 1 3. rewrite Hst, bool_decide_true by done. cbn [negb].
    destruct (make_directory req); [by apply (Hrun (OpMakeDirectory _))|].
    destruct (remove_directory req); [by apply (Hrun (OpRemoveDirectory _))|].
    destruct (write_ req) as [[path w]|]; [by apply (Hrun (OpWrite path w))|].
    destruct (remove_file req); [by apply (Hrun (OpRemoveFile _))|done].
  - unfold safe, wp, readWriteTreeRPC, bind. rewrite Hc.
    unfold is_ok. rewrite Hst, bool_decide_false by done. cbn [negb]. simpl. by rewrite Hst.
Qed.

(** C30: a request that changes the tree. Either the condition fails and
    nothing changes, or the one operation runs as it does on the abstract
    store; checking and changing are one step. A request without an operation
    panics. *)
Theorem readWriteTreeRPC_refines req t :
  tree_wf t ->
  let fs := abs (superRoot t) in
  let st := spec_condition fs (rw_condition req) in
  if decide (st = OK) then
    match rw_op req with
    | None => readWriteTreeRPC req t = Fail Panicked
    | Some o => safe (readWriteTreeRPC req)
        (fun r t' => tree_wf t' /\
           exists st', rwr_status r = Some (PC_Status_of st') /\
                       spec_step o fs (RStatus st') (abs (superRoot t'))) t
    end
  else safe (readWriteTreeRPC req)
         (fun r t' => superRoot t' = superRoot t /\ rwr_status r = Some (PC_Status_of st)) t.
Proof. exact (readWriteTreeRPC_total req t). Qed.

Lemma readOnlyTreeRPC_refines_witness :
  let req := mkReadOnlyTree_Request None (Some "/") None in
  safe (readOnlyTreeRPC req)
    (fun r t' => superRoot t' = superRoot Tree_init /\
       exists x, ro_response (OpListDirectory "/") r = Some x /\
         spec_step (OpListDirectory "/") (abs (superRoot Tree_init)) x (abs (superRoot Tree_init))) Tree_init.
Proof. exact (readOnlyTreeRPC_refines (mkReadOnlyTree_Request None (Some "/") None) Tree_init Tree_init_wf). Defined.

Lemma readWriteTreeRPC_refines_witness :
  let req := mkReadWriteTree_Request (mkExactlyOnceRPCInfo 1 1 1) None (Some "/a") None None None in
  safe (readWriteTreeRPC req)
    (fun r t' => tree_wf t' /\
       exists st', rwr_status r = Some (PC_Status_of st') /\
         spec_step (OpMakeDirectory "/a") (abs (superRoot Tree_init)) (RStatus st') (abs (superRoot t'))) Tree_init.
Proof.
  exact (readWriteTreeRPC_refines
    (mkReadWriteTree_Request (mkExactlyOnceRPCInfo 1 1 1) None (Some "/a") None None None) Tree_init Tree_init_wf).
Defined.
