(* ===== verification/Consensus.v ===== *)
(** * What the consensus module promises the state machine

    The part of [Server/RaftConsensus.h] that [Server/StateMachine.cc] calls:
    the committed entries one by one, and the files of the snapshots. The state
    machine is verified against this interface; [Raft.v] implements it. *)

From Stdlib Require Import ZArith Ascii String.
From stdpp Require Import base gmap strings list.
From S2P Require Import Prelude Stream SnapshotFile.
Local Open Scope Z_scope.

(** [Server/SnapshotStats.proto] *)
Record SnapshotStats : Type := mkSnapshotStats {
  last_snapshot_index : Z;
  last_snapshot_bytes : Z;
  log_start_index : Z;
  last_log_index : Z;
  log_bytes : Z;
  is_leader : bool
}.

(** [RaftConsensus::Entry] *)
Module Entry.
Inductive kind : Type := SKIP | DATA | SNAPSHOT.
End Entry.

Record Entry : Type := mkEntry {
  entry_type : Entry.kind;
  entry_index : Z;
  command : bytes;
  entry_reader : option Reader;
  clusterTime : Z
}.

(** [None] from [getNextEntry] is a [ThreadInterruptedException]. *)
Class Consensus (C : Type) := {
  setSupportedStateMachineVersions : Z -> Z -> M C unit;
  getNextEntry : Z -> M C (option Entry);
  getSnapshotStats : C -> SnapshotStats;
  beginSnapshot : Z -> M C Writer;
  snapshotDone : Z -> Writer -> M C unit;
  snapshotDir : C -> SnapshotDir;
  set_snapshotDir : SnapshotDir -> C -> C
}.
