(* ===== verification/StateMachine.v ===== *)
(** * The replicated state machine

    [Server/StateMachine.cc]: applies the committed entries of the Raft log to
    the tree, keeps the clients' sessions so that a command takes effect once,
    and takes snapshots through a forked child.

    [StateMachine] is the object under its mutex. What it asks of the consensus
    module is the class [Consensus] of [Consensus.v]. A clock reading is an argument ([now]) of
    the operation that takes it, and what other threads and processes do while
    the mutex is released is an argument too. Messages the code only logs are
    left out. *)

From Stdlib Require Import ZArith Lia Ascii String.
From stdpp Require Import countable base gmap strings list fin_maps sorting.
From S2P Require Import Prelude OrderedMap StringUtil Stream SnapshotFile Consensus Tree TreeSpec TreeSnapshot TreeRPC.
Local Open Scope string_scope.
Local Open Scope Z_scope.
Local Open Scope list_scope.

(** ** Messages *)

Record Command_Request : Type := mkCommand_Request {
  cmd_open_session : option unit;
  cmd_close_session : option Z;
  cmd_tree : option ReadWriteTree_Request;
  cmd_advance_version : option Z
}.

Record Command_Response : Type := mkCommand_Response {
  resp_open_session : option Z;
  resp_close_session : option unit;
  resp_tree : option ReadWriteTree_Response;
  resp_advance_version : option Z
}.

Definition Command_Response_init : Command_Response := mkCommand_Response None None None None.
#[export] Instance Command_Response_eta : Eta Command_Response := fun r =>
  mkCommand_Response (resp_open_session r) (resp_close_session r) (resp_tree r)
    (resp_advance_version r).

Record Query_Request : Type := mkQuery_Request { query_tree : option ReadOnlyTree_Request }.
Record Query_Response : Type := mkQuery_Response { queryr_tree : option ReadOnlyTree_Response }.

(** [Server/SnapshotStateMachine.proto] *)
Record Snapshot_Session : Type := mkSnapshot_Session {
  ss_client_id : Z;
  ss_last_modified : Z;
  ss_first_outstanding_rpc : Z;
  ss_rpc_response : list (Z * Command_Response)
}.

Record Snapshot_Header : Type := mkSnapshot_Header {
  version_update : list (Z * Z);
  session : list Snapshot_Session
}.

(** ** State *)

Definition MIN_SUPPORTED_VERSION : Z := 1.
Definition MAX_SUPPORTED_VERSION : Z := 2.

Record Session : Type := mkSession {
  lastModified : Z;
  firstOutstandingRPC : Z;
  responses : gmap Z Command_Response
}.

Definition Session_init : Session := mkSession 0 0 ∅.
#[export] Instance Session_eta : Eta Session := fun s =>
  mkSession (lastModified s) (firstOutstandingRPC s) (responses s).

Inductive signal : Type := SIGTERM | SIGKILL | SIGABRT.

#[export] Instance signal_eq_dec : EqDecision signal.
Proof. solve_decision. Defined.

(** [childPid] is 0 when there is no child. [signals] records the calls to
    [kill], which have no other effect on this process. *)
Record StateMachine : Type := mkStateMachine {
  exiting : bool;
  childPid : Z;
  lastApplied : Z;
  lastUnknownRequestMessage : Z;
  numUnknownRequests : Z;
  numUnknownRequestsSinceLastMessage : Z;
  numSnapshotsAttempted : Z;
  numSnapshotsFailed : Z;
  numRedundantAdvanceVersionEntries : Z;
  numRejectedAdvanceVersionEntries : Z;
  numSuccessfulAdvanceVersionEntries : Z;
  numTotalAdvanceVersionEntries : Z;
  isSnapshotRequested : bool;
  maySnapshotAt : Z;
  sessions : gmap Z Session;
  tree : Tree;
  versionHistory : list (Z * Z);
  writer : option Writer;
  signals : list (Z * signal)
}.

#[export] Instance StateMachine_eta : Eta StateMachine := fun s =>
  mkStateMachine (exiting s) (childPid s) (lastApplied s) (lastUnknownRequestMessage s)
    (numUnknownRequests s) (numUnknownRequestsSinceLastMessage s) (numSnapshotsAttempted s)
    (numSnapshotsFailed s) (numRedundantAdvanceVersionEntries s)
    (numRejectedAdvanceVersionEntries s) (numSuccessfulAdvanceVersionEntries s)
    (numTotalAdvanceVersionEntries s) (isSnapshotRequested s) (maySnapshotAt s) (sessions s)
    (tree s) (versionHistory s) (writer s) (signals s).

(** The options the constructor reads from the configuration file. *)
Record Options : Type := mkOptions {
  snapshotBlockPercentage : Z;
  snapshotMinLogSize : Z;
  snapshotRatio : Z;
  snapshotWatchdogInterval : Z;
  unknownRequestMessageBackoff : Z
}.

Definition Options_default : Options := mkOptions 0 67108864 4 10000000000 10000000000.

Definition sessionTimeoutNanos : Z := 1000 * 1000 * 1000 * 60 * 60.

Definition StateMachine_init : StateMachine :=
  mkStateMachine false 0 0 TimePoint_min 0 0 0 0 0 0 0 0 false TimePoint_min
    ∅ Tree_init [(0, 1)] None [].

(** ** Operations on the state machine alone *)

Section Operations.
Context (opts : Options) `{ProtoBuf Command_Request}.

(** [versionHistory.upper_bound(logIndex)], one back: before [begin()] there
    is nothing to point at. *)
Definition getVersion (logIndex : Z) : M StateMachine Z :=
  let! s := get in
  match om_before (versionHistory s) logIndex with
  | Some (_, v) => ret v
  | None => fail UndefinedBehavior
  end.

Definition warnUnknownRequest (now : Z) : M StateMachine unit :=
  modify (fun s => s <| numUnknownRequests := u64 (numUnknownRequests s + 1) |>) ;;;
  let! s := get in
  if i64 (lastUnknownRequestMessage s + unknownRequestMessageBackoff opts) <? now then
    modify (fun s => s <| lastUnknownRequestMessage := now |>) ;;;
    let! _ := getVersion u64_max in
    modify (fun s => s <| numUnknownRequestsSinceLastMessage := 0 |>)
  else
    modify (fun s => s <| numUnknownRequestsSinceLastMessage :=
                            u64 (numUnknownRequestsSinceLastMessage s + 1) |>).

(** [zoom]s: the tree, and the session of a client. *)
Definition on_tree {A} (m : M Tree A) : M StateMachine A :=
  zoom tree (fun t s => s <| tree := t |>) m.

Definition query (now : Z) (request : Query_Request) : M StateMachine (option Query_Response) :=
  match query_tree request with
  | Some r =>
      let! resp := on_tree (readOnlyTreeRPC r) in
      ret (Some (mkQuery_Response (Some resp)))
  | None => warnUnknownRequest now ;;; ret None
  end.

Definition wait (index : Z) (sched : list (M StateMachine unit)) : M StateMachine unit :=
  wait_while (fun s => lastApplied s <? index) sched.

(** [None]: the request was not understood when it was applied. *)
Definition waitForResponse (logIndex : Z) (command : Command_Request)
    (sched : list (M StateMachine unit)) : M StateMachine (option Command_Response) :=
  wait_while (fun s => lastApplied s <? logIndex) sched ;;;
  let! versionThen := getVersion logIndex in
  let! s := get in
  let expired := Command_Response_init
    <| resp_tree := Some (mkReadWriteTree_Response (Some PC_SESSION_EXPIRED) None) |> in
  match cmd_tree command with
  | Some t =>
      match sessions s !! client_id (exactly_once t) with
      | None => ret (Some expired)
      | Some session =>
          match responses session !! rpc_number (exactly_once t) with
          | None => ret (Some expired)
          | Some r => ret (Some r)
          end
      end
  | None =>
      match cmd_open_session command with
      | Some _ => ret (Some (Command_Response_init <| resp_open_session := Some logIndex |>))
      | None =>
          match (if 2 <=? versionThen then cmd_close_session command else None) with
          | Some _ => ret (Some (Command_Response_init <| resp_close_session := Some tt |>))
          | None =>
              match cmd_advance_version command with
              | Some _ =>
                  ret (Some (Command_Response_init <| resp_advance_version := Some versionThen |>))
              | None => ret None
              end
          end
      end
  end.

Definition isTakingSnapshot (s : StateMachine) : bool := negb (childPid s =? 0).

Definition killSnapshotProcess (signum : signal) : M StateMachine unit :=
  let! s := get in
  when (negb (childPid s =? 0))
    (put (s <| signals := signals s ++ [(childPid s, signum)] |>)).

Definition startTakingSnapshot (sched : list (M StateMachine unit)) : M StateMachine unit :=
  let! s := get in
  when (childPid s =? 0) (
    modify (fun s => s <| isSnapshotRequested := true |>) ;;;
    let nextSnapshot := u64 (numSnapshotsAttempted s + 1) in
    wait_while (fun s => negb (exiting s) && (numSnapshotsAttempted s <? nextSnapshot)) sched).

Definition stopTakingSnapshot (sched : list (M StateMachine unit)) : M StateMachine unit :=
  let! s := get in
  let pid := childPid s in
  when (negb (pid =? 0)) (
    killSnapshotProcess SIGTERM ;;;
    wait_while (fun s => negb (exiting s) && (pid =? childPid s)) sched).

Definition getInhibit (now : Z) (s : StateMachine) : Z :=
  if maySnapshotAt s <=? now then 0 else i64 (maySnapshotAt s - now).

Definition setInhibit (now duration : Z) : M StateMachine unit :=
  if duration <=? 0 then modify (fun s => s <| maySnapshotAt := TimePoint_min |>)
  else
    modify (fun s => s <| maySnapshotAt := i64 (now + duration) |>) ;;;
    let! s := get in
    when (maySnapshotAt s <? now)
      (modify (fun s => s <| maySnapshotAt := TimePoint_max |>)).

Definition expireResponses (s : Session) (first : Z) : Session :=
  if first <=? firstOutstandingRPC s then s
  else s <| firstOutstandingRPC := first |>
         <| responses := filter (fun p => ¬ (p.1 < first)) (responses s) |>.

Definition expireSessions (clusterTime : Z) (s : StateMachine) : StateMachine :=
  s <| sessions := filter (fun p => ¬ (u64 (lastModified p.2 + sessionTimeoutNanos) < clusterTime))
                          (sessions s) |>.

(** [Session& session = it->second]: assigning to it writes the map. *)
Definition set_session (clientId : Z) (session : Session) : M StateMachine unit :=
  modify (fun s => s <| sessions := <[clientId := session]> (sessions s) |>).

(** The DEBUG build's [Core::Util::downCast<uint16_t>]. *)
Definition downCast16 (x : Z) : outcome Z :=
  if u16 x =? x then Ok (u16 x) else Fail AssertFailed.

Definition apply_tree (clusterTime : Z) (t : ReadWriteTree_Request) : M StateMachine unit :=
  let rpcInfo := exactly_once t in
  let! s := get in
  match sessions s !! client_id rpcInfo with
  | None => ret tt
  | Some session =>
      let session := expireResponses session (first_outstanding_rpc rpcInfo) in
      set_session (client_id rpcInfo) session ;;;
      if rpc_number rpcInfo <? firstOutstandingRPC session then ret tt
      else match responses session !! rpc_number rpcInfo with
      | Some _ => ret tt
      | None =>
          set_session (client_id rpcInfo)
            (session <| responses := <[rpc_number rpcInfo := Command_Response_init]> (responses session) |>) ;;;
          let! r := on_tree (readWriteTreeRPC t) in
          set_session (client_id rpcInfo)
            (session <| responses :=
               <[rpc_number rpcInfo := Command_Response_init <| resp_tree := Some r |>]> (responses session) |>
               <| lastModified := clusterTime |>)
      end
  end.

Definition apply_advance_version (index runningVersion requested32 : Z) : M StateMachine unit :=
  let! requested := lift (downCast16 requested32) in
  (if requested <? runningVersion then
     modify (fun s => s <| numRejectedAdvanceVersionEntries :=
                             u64 (numRejectedAdvanceVersionEntries s + 1) |>)
   else if runningVersion <? requested then
     (if MAX_SUPPORTED_VERSION <? requested then fail Panicked
      else modify (fun s => s <| versionHistory := om_insert (versionHistory s) index requested |>)) ;;;
     modify (fun s => s <| numSuccessfulAdvanceVersionEntries :=
                             u64 (numSuccessfulAdvanceVersionEntries s + 1) |>)
   else
     modify (fun s => s <| numRedundantAdvanceVersionEntries :=
                             u64 (numRedundantAdvanceVersionEntries s + 1) |>)) ;;;
  modify (fun s => s <| numTotalAdvanceVersionEntries :=
                          u64 (numTotalAdvanceVersionEntries s + 1) |>).

Definition apply (now : Z) (entry : Entry) : M StateMachine unit :=
  match pb_parse (T := Command_Request) (command entry) with
  | None => fail Panicked
  | Some command =>
      let! runningVersion := getVersion (u64 (entry_index entry - 1)) in
      match cmd_tree command with
      | Some t => apply_tree (clusterTime entry) t
      | None =>
      match cmd_open_session command with
      | Some _ =>
          let! s := get in
          let session := default Session_init (sessions s !! entry_index entry) in
          set_session (entry_index entry) (session <| lastModified := clusterTime entry |>)
      | None =>
      match cmd_close_session command with
      | Some clientId =>
          if 2 <=? runningVersion then
            modify (fun s => s <| sessions := delete clientId (sessions s) |>)
          else warnUnknownRequest now
      | None =>
      match cmd_advance_version command with
      | Some requested => apply_advance_version (entry_index entry) runningVersion requested
      | None => warnUnknownRequest now
      end end end end
  end.
End Operations.

(** ** Snapshots of the state machine *)

Section Snapshots.
Context {W R : Type} `{OutputStream W} `{InputStream R}.
Context `{ProtoBuf Snapshot_Header} `{ProtoBuf Snapshot_Directory} `{ProtoBuf Snapshot_File}.

(** The order of an [unordered_map] is unspecified; [map_to_list] is one. *)
Definition serializeSession (p : Z * Session) : Snapshot_Session :=
  mkSnapshot_Session p.1 (lastModified p.2) (firstOutstandingRPC p.2) (map_to_list (responses p.2)).

Definition serializeSessions (s : StateMachine) : list Snapshot_Session :=
  map serializeSession (map_to_list (sessions s)).

Definition serializeVersionHistory (s : StateMachine) : list (Z * Z) := versionHistory s.

(** [insert] keeps the response that is already there. *)
Definition insert_response (m : gmap Z Command_Response) (p : Z * Command_Response) :
    gmap Z Command_Response :=
  match m !! p.1 with Some _ => m | None => <[p.1 := p.2]> m end.

Definition loadSession (m : gmap Z Session) (ss : Snapshot_Session) : gmap Z Session :=
  let session := default Session_init (m !! ss_client_id ss) in
  <[ss_client_id ss :=
      mkSession (ss_last_modified ss) (ss_first_outstanding_rpc ss)
        (fold_left insert_response (ss_rpc_response ss) (responses session))]> m.

Definition loadSessions (header : Snapshot_Header) : gmap Z Session :=
  fold_left loadSession (session header) ∅.

Fixpoint insert_versions (l : list (Z * Z)) (m : list (Z * Z)) : outcome (list (Z * Z)) :=
  match l with
  | [] => Ok m
  | (index, v) :: l' =>
      match downCast16 v with
      | Ok v16 => insert_versions l' (om_insert m index v16)
      | Fail f => Fail f
      end
  end.

Definition loadVersionHistory (header : Snapshot_Header) : outcome (list (Z * Z)) :=
  match insert_versions (version_update header) (om_insert [] 0 1) with
  | Fail f => Fail f
  | Ok m =>
      match om_last m with
      | None => Fail UndefinedBehavior
      | Some (_, running) =>
          if (running <? MIN_SUPPORTED_VERSION) || (MAX_SUPPORTED_VERSION <? running)
          then Fail Panicked else Ok m
      end
  end.

Definition loadSnapshot (s : StateMachine) : M R StateMachine :=
  let! formatVersion := readRaw 1 in
  match formatVersion with
  | [] => fail Panicked
  | v :: _ =>
      if negb (Ascii.eqb v "001") then fail Panicked else
      let! res := readMessage Snapshot_Header in
      match res with
      | inl _ => fail Panicked
      | inr header =>
          let! vh := lift (loadVersionHistory header) in
          let! t := Tree_loadSnapshot (tree s) in
          ret (s <| versionHistory := vh |> <| sessions := loadSessions header |> <| tree := t |>)
      end
  end.

(** The child of [takeSnapshot] works on its copy of the process. *)
Definition childSnapshot (s : StateMachine) : M W unit :=
  writeRaw ["001"%char] ;;;
  writeMessage (mkSnapshot_Header (serializeVersionHistory s) (serializeSessions s)) ;;;
  Tree_dumpSnapshot (tree s).
End Snapshots.

(** ** The state machine and the consensus module together *)

Section World.
Context (opts : Options).
Context {C : Type} `{Consensus C}.
Context `{ProtoBuf Command_Request} `{ProtoBuf Snapshot_Header}.
Context `{ProtoBuf Snapshot_Directory} `{ProtoBuf Snapshot_File}.

Record World : Type := mkWorld { sm : StateMachine; consensus : C }.
#[export] Instance World_eta : Eta World := fun w => mkWorld (sm w) (consensus w).

Definition on_sm {A} (m : M StateMachine A) : M World A :=
  zoom sm (fun s w => w <| sm := s |>) m.

Definition on_consensus {A} (m : M C A) : M World A :=
  zoom consensus (fun c w => w <| consensus := c |>) m.

(** [writer->method()]. The files are the ones of the consensus module's
    snapshot directory. *)
Definition on_writer {A} (m : M Writer A) : M World A := fun w =>
  match writer (sm w) with
  | None => Fail UndefinedBehavior
  | Some wr =>
      match m (mkWriter (snapshotDir (consensus w)) (stagingName wr) (is_open wr)
                 (bytesWritten wr) (sharedBytesWritten wr)) with
      | Ok (a, wr') =>
          Ok (a, mkWorld ((sm w) <| writer := Some wr' |>)
                   (set_snapshotDir (dir wr') (consensus w)))
      | Fail f => Fail f
      end
  end.

(** The constructor, the threads aside. *)
Definition StateMachine_construct (c : C) : outcome World :=
  match setSupportedStateMachineVersions MIN_SUPPORTED_VERSION MAX_SUPPORTED_VERSION c with
  | Ok (_, c) => Ok (mkWorld StateMachine_init c)
  | Fail f => Fail f
  end.

(** The percentages are computed only to be logged, but they divide. *)
Definition shouldTakeSnapshot (lastIncludedIndex : Z) : M World bool :=
  let! w := get in
  let stats := getSnapshotStats (consensus w) in
  let curr := if last_snapshot_index stats <? lastIncludedIndex
              then u64 (lastIncludedIndex - last_snapshot_index stats) else 0 in
  let logEntries := u64 (last_log_index stats - last_snapshot_index stats) in
  (if negb (curr =? logEntries) && (logEntries =? 0) then fail UndefinedBehavior else ret tt) ;;;
  ret (negb ((log_bytes stats <? snapshotMinLogSize opts) ||
             (log_bytes stats <? u64 (last_snapshot_bytes stats * snapshotRatio opts)) ||
             (lastIncludedIndex <? last_snapshot_index stats) ||
             (lastIncludedIndex <? u64 (last_log_index stats * 3) / 4))).

(** What [applyThreadMain] does with an entry. *)
Definition applyEntry (now : Z) (entry : Entry) : M StateMachine unit :=
  match entry_type entry with
  | Entry.SKIP => ret tt
  | Entry.DATA => apply opts now entry
  | Entry.SNAPSHOT =>
      match entry_reader entry with
      | None => fail UndefinedBehavior
      | Some r =>
          let! s := get in
          match loadSnapshot s r with
          | Ok (s', _) => put s'
          | Fail f => fail f
          end
      end
  end ;;;
  modify (expireSessions (clusterTime entry)) ;;;
  modify (fun s => s <| lastApplied := entry_index entry |>).

(** One turn of [applyThreadMain]'s loop; [false] when the thread ends.
    [apply] and [shouldTakeSnapshot] read the clock. *)
Definition applyThread_step (now : Z) : M World bool :=
  let! w := get in
  let! e := on_consensus (getNextEntry (lastApplied (sm w))) in
  match e with
  | None =>
      on_sm (modify (fun s => s <| exiting := true |>) ;;; killSnapshotProcess SIGTERM) ;;;
      ret false
  | Some entry =>
      on_sm (applyEntry now entry) ;;;
      let! _ := shouldTakeSnapshot (entry_index entry) in
      ret true
  end.

(** [env i] is what the other threads do before the [i]-th turn. *)
Fixpoint applyThreadMain (sched : list (M World unit * Z)) : M World unit :=
  match sched with
  | [] => fail Blocked
  | (env, now) :: sched' =>
      env ;;;
      let! continue := applyThread_step now in
      if continue : bool then applyThreadMain sched' else ret tt
  end.

(** How the child of [takeSnapshot] ends: by itself, by a signal after writing
    some bytes, or [waitpid] fails. *)
Inductive child_fate : Type :=
| Completes
| Killed (sig : signal) (partial : bytes)
| WaitFails.

Inductive wait_status : Type :=
| Exited (code : Z)
| Signaled (sig : signal).

(** A child that panics aborts. Of the memory it writes, the parent sees the
    staging file and [sharedBytesWritten], not its own [bytesWritten]. *)
Definition run_child (at_fork : StateMachine) (fate : child_fate) (wr : Writer) :
    outcome (wait_status * Writer) :=
  let shared (wr' : Writer) :=
    mkWriter (dir wr') (stagingName wr) (is_open wr) (bytesWritten wr) (sharedBytesWritten wr') in
  match fate with
  | WaitFails => Fail Panicked
  | Killed sig partial =>
      match Writer_writeRaw partial wr with
      | Ok (_, wr') => Ok (Signaled sig, shared wr')
      | Fail f => Fail f
      end
  | Completes =>
      match (childSnapshot at_fork ;;; Writer_flushToOS) wr with
      | Ok (_, wr') => Ok (Exited 0, shared wr')
      | Fail _ => Ok (Signaled SIGABRT, wr)
      end
  end.

(** [unlocked] is what the other threads do during [waitpid]. *)
Definition takeSnapshot (lastIncludedIndex : Z) (fork_pid : Z) (fate : child_fate)
    (unlocked : M World unit) : M World unit :=
  let! wr := on_consensus (beginSnapshot lastIncludedIndex) in
  on_sm (modify (fun s => s <| writer := Some wr |>)) ;;;
  on_writer Writer_flushToOS ;;;
  on_sm (modify (fun s => s <| numSnapshotsAttempted := u64 (numSnapshotsAttempted s + 1) |>)) ;;;
  if fork_pid =? -1 then fail Panicked else
  let! at_fork := on_sm get in
  assert_ (childPid at_fork =? 0) ;;;
  on_sm (modify (fun s => s <| childPid := fork_pid |>)) ;;;
  unlocked ;;;
  let! status := on_writer (fun wr => run_child at_fork fate wr) in
  on_sm (modify (fun s => s <| childPid := 0 |>)) ;;;
  let! s := on_sm get in
  match status with
  | Exited 0 =>
      on_writer Writer_seekToEnd ;;;
      let! s := on_sm get in
      match writer s with
      | None => fail UndefinedBehavior
      | Some wr =>
          on_sm (modify (fun s => s <| writer := None |>)) ;;;
          on_consensus (snapshotDone lastIncludedIndex wr)
      end
  | _ =>
      on_writer Writer_discard ;;;
      on_sm (modify (fun s => s <| writer := None |>)) ;;;
      if exiting s && (match status with Signaled SIGTERM => true | _ => false end) then ret tt
      else on_sm (modify (fun s => s <| numSnapshotsFailed := u64 (numSnapshotsFailed s + 1) |>))
  end.

(** One turn of [snapshotThreadMain]: the time to wait until, or [None] after
    taking a snapshot. *)
Definition snapshotThread_step (now : Z) (fork_pid : Z) (fate : child_fate)
    (unlocked : M World unit) : M World (option Z) :=
  let! s := on_sm get in
  let inhibited := now <? maySnapshotAt s in
  let waitUntil := if inhibited then maySnapshotAt s else TimePoint_max in
  let! due := (if isSnapshotRequested s then ret true
               else if inhibited then ret false else shouldTakeSnapshot (lastApplied s)) in
  if due : bool then
    on_sm (modify (fun s => s <| isSnapshotRequested := false |>)) ;;;
    takeSnapshot (lastApplied s) fork_pid fate unlocked ;;;
    ret None
  else ret (Some waitUntil).

(** The locals of [snapshotWatchdogThreadMain]. *)
Record Watchdog : Type := mkWatchdog { tracking : Z; startProgress : Z; startTime : Z }.

Definition Watchdog_init : Watchdog := mkWatchdog u64_max 0 TimePoint_min.

Definition watchdog_step (now : Z) (l : Watchdog) : M StateMachine (Watchdog * Z) :=
  let! s := get in
  let interval := snapshotWatchdogInterval opts in
  let wait_until l :=
    if negb (interval =? 0) then i64 (startTime l + interval) else TimePoint_max in
  if 0 <? childPid s then
    match writer s with
    | None => fail UndefinedBehavior
    | Some wr =>
        let currentProgress := sharedBytesWritten wr in
        if tracking l =? numSnapshotsAttempted s then
          if negb (interval =? 0) && (i64 (startTime l + interval) <=? now) then
            when (currentProgress =? startProgress l) (killSnapshotProcess SIGKILL) ;;;
            let l' := mkWatchdog (tracking l) currentProgress now in
            ret (l', wait_until l')
          else ret (l, wait_until l)
        else
          let l' := mkWatchdog (numSnapshotsAttempted s) currentProgress now in
          ret (l', wait_until l')
    end
  else ret (mkWatchdog u64_max (startProgress l) (startTime l), TimePoint_max).
End World.
