(* ===== verification/StateMachineSpec.v ===== *)
(** * What the state machine promises

    The invariant of [StateMachine], that a command takes effect at most once
    and that its response is stable, that replicas which apply the same entries
    agree, and that a snapshot restores the state it was taken of. *)

From Stdlib Require Import ZArith Lia Ascii String.
From stdpp Require Import countable base gmap strings list fin_maps sorting.
From S2P Require Import Prelude OrderedMap StringUtil Stream SnapshotFile Consensus Tree TreeSpec TreeSnapshot TreeRPC StateMachine.
Local Open Scope string_scope.
Local Open Scope Z_scope.
Local Open Scope list_scope.

(** ** The version history *)

(** Versions only go up, from version 1 at index 0, and only to supported ones. *)
Definition versions_ok (n : Z) (m : list (Z * Z)) : Prop :=
  om_lookup m 0 = Some 1 /\
  StronglySorted (fun p q => p.1 < q.1 /\ p.2 < q.2) m /\
  Forall (fun p => 0 <= p.1 <= n /\ 1 <= p.2 <= MAX_SUPPORTED_VERSION) m.

Lemma versions_ok_sorted n m : versions_ok n m -> om_sorted m.
Proof.
  intros (_ & Hs & _). unfold om_sorted. induction Hs as [|p m _ IH Hp]; constructor; [done|].
  eapply Forall_impl; [exact Hp|]. by intros q [? _].
Qed.

Lemma versions_ok_mono n n' m : versions_ok n m -> n <= n' -> versions_ok n' m.
Proof.
  intros (? & ? & Hm) Hn. split; [done|]. split; [done|].
  eapply Forall_impl; [exact Hm|]. simpl. intros p. lia.
Qed.

Lemma om_erase_above_all {V} (m : list (Z * V)) k :
  Forall (fun p => p.1 <= k) m -> om_erase_above m k = m.
Proof.
  induction 1 as [|[k1 v1] m Hk _ IH]; simpl in *; [done|].
  rewrite decide_False by (unfold key_lt; simpl; lia). by rewrite IH.
Qed.

(** Past the end, the version is the latest one. *)
Lemma versions_before n m k :
  versions_ok n m -> n <= k -> om_before m k = om_last m.
Proof.
  intros (_ & _ & Hm) Hk. unfold om_before. rewrite om_erase_above_all; [done|].
  eapply Forall_impl; [exact Hm|]. simpl. intros p. lia.
Qed.

Lemma om_last_elem {V} (m : list (Z * V)) p : om_last m = Some p -> p ∈ m.
Proof. intros (l & ->)%last_Some. apply elem_of_app. right. by left. Qed.

Lemma versions_last n m :
  versions_ok n m -> exists k v, om_last m = Some (k, v) /\ 0 <= k <= n /\ 1 <= v <= MAX_SUPPORTED_VERSION.
Proof.
  intros (Hz & _ & Hm). destruct (om_last m) as [[k v]|] eqn:Hl.
  - exists k, v. split; [done|]. apply om_last_elem in Hl. rewrite Forall_forall in Hm. by apply Hm in Hl.
  - apply last_None in Hl as ->. done.
Qed.

(** [getVersion] always finds an entry, the one of index 0 if no other. *)
Lemma om_before_some n m k : versions_ok n m -> 0 <= k -> is_Some (om_before m k).
Proof.
  intros Hm Hk. pose proof (versions_ok_sorted _ _ Hm) as Hs. destruct Hm as (Hz & _ & Hf).
  unfold om_before. destruct (last (om_erase_above m k)) eqn:Hl; [by eexists|].
  apply last_None in Hl. exfalso.
  assert (om_lookup (om_erase_above m k) 0 = Some 1) as H0.
  { rewrite om_lookup_erase_above by done. rewrite decide_False; [done|]. unfold key_lt. simpl. lia. }
  by rewrite Hl in H0.
Qed.

Lemma wp_getVersion E n s k Q :
  versions_ok n (versionHistory s) -> n <= k ->
  (forall i v, om_last (versionHistory s) = Some (i, v) -> 0 <= i <= n -> 1 <= v <= MAX_SUPPORTED_VERSION -> Q v s) ->
  wp E (getVersion k) Q s.
Proof.
  intros Hv Hk HQ. apply wp_bind, wp_get. rewrite (versions_before _ _ _ Hv Hk).
  destruct (versions_last _ _ Hv) as (i & v & Hl & Hi & Hv'). rewrite Hl. apply wp_ret. by eapply HQ.
Qed.

(** An upgrade is recorded after every older version. *)
Lemma versions_ok_insert n m i v index requested :
  versions_ok n m -> om_last m = Some (i, v) -> v < requested <= MAX_SUPPORTED_VERSION -> n < index ->
  versions_ok index (om_insert m index requested).
Proof.
  intros Hm Hl Hr Hn. destruct (Hm) as (Hz & Hs & Hf).
  assert (Forall (fun q => key_lt q.1 index) m) as Hbelow.
  { eapply Forall_impl; [exact Hf|]. unfold key_lt. simpl. intros p. lia. }
  rewrite om_insert_above by done.
  split; [|split].
  - rewrite <-om_insert_above by done. rewrite om_lookup_insert.
    case_decide as Hi; [|done]. subst index. rewrite Hz. done.
  - apply StronglySorted_app_2; [|done|by repeat constructor].
    intros p q Hp Hq. apply list_elem_of_singleton in Hq as ->. simpl. split.
    + rewrite Forall_forall in Hbelow. by apply Hbelow in Hp.
    + apply last_Some in Hl as [m' ->]. apply StronglySorted_app in Hs as (H12 & _ & _).
      apply elem_of_app in Hp as [Hp|Hp%list_elem_of_singleton]; [|subst; simpl; lia].
      destruct (H12 p (i, v) Hp ltac:(by left)) as [_ Hv]. simpl in Hv. lia.
  - apply Forall_app. split; [|repeat constructor; simpl; try lia].
    + eapply Forall_impl; [exact Hf|]. simpl. intros p. lia.
    + pose proof (versions_last _ _ Hm) as (i' & v' & Hl' & Hi' & _). lia.
    + pose proof (versions_last _ _ Hm) as (i' & v' & Hl' & _ & Hv'). rewrite Hl in Hl'.
      injection Hl' as <- <-. lia.
Qed.

(** ** The invariant *)

Definition session_ok (s : Session) : Prop :=
  forall rpc r, responses s !! rpc = Some r -> firstOutstandingRPC s <= rpc.

(** [n] is the index of the last entry applied. *)
Record sm_inv (n : Z) (s : StateMachine) : Prop := {
  inv_applied : 0 <= n;
  inv_versions : versions_ok n (versionHistory s);
  inv_tree : tree_wf (tree s);
  inv_sessions : forall c ses, sessions s !! c = Some ses -> c <= n /\ session_ok ses
}.

Lemma sm_inv_init : sm_inv 0 StateMachine_init.
Proof.
  constructor; [done|..|apply Tree_init_wf|done].
  split; [done|]. split; repeat constructor; done.
Qed.

Lemma sm_inv_ext n s s' :
  sm_inv n s -> versionHistory s' = versionHistory s -> superRoot (tree s') = superRoot (tree s) ->
  sessions s' = sessions s -> sm_inv n s'.
Proof.
  intros [H0 H1 H2 H3] Hv Ht Hs. constructor; [done| |unfold tree_wf|]; by rewrite ?Hv, ?Ht, ?Hs.
Qed.

Lemma sm_inv_mono n n' s : sm_inv n s -> n <= n' -> sm_inv n' s.
Proof.
  intros [H0 H1 H2 H3] Hn. constructor; [lia|by eapply versions_ok_mono|done|].
  intros c ses Hc. destruct (H3 c ses Hc). split; [lia|done].
Qed.

Lemma sm_inv_sessions n s m :
  sm_inv n s -> (forall c ses, m !! c = Some ses -> c <= n /\ session_ok ses) ->
  sm_inv n (s <| sessions := m |>).
Proof. intros [H0 H1 H2 H3] Hm. by constructor. Qed.

Lemma expireResponses_spec ses first rpc :
  responses (expireResponses ses first) !! rpc =
    (if decide (firstOutstandingRPC ses < first /\ rpc < first) then None else responses ses !! rpc) /\
  firstOutstandingRPC (expireResponses ses first) = Z.max (firstOutstandingRPC ses) first.
Proof.
  unfold expireResponses. destruct (Z.leb_spec first (firstOutstandingRPC ses)).
  - rewrite decide_False by lia. split; [done|lia].
  - simpl. split; [|lia]. destruct (responses ses !! rpc) as [r|] eqn:Hr.
    + case_decide.
      * apply map_lookup_filter_None. right. intros r' Hr'. simpl. lia.
      * apply map_lookup_filter_Some. split; [done|]. simpl. lia.
    + rewrite (proj2 (map_lookup_filter_None _ _ _)) by (by left). by case_decide.
Qed.

Lemma expireResponses_ok ses first : session_ok ses -> session_ok (expireResponses ses first).
Proof.
  intros Hok rpc r. destruct (expireResponses_spec ses first rpc) as [-> ->].
  case_decide; [done|]. intros Hr%Hok. lia.
Qed.

Lemma expireSessions_lookup ct s c ses :
  sessions (expireSessions ct s) !! c = Some ses <->
  sessions s !! c = Some ses /\ ct <= u64 (lastModified ses + sessionTimeoutNanos).
Proof. unfold expireSessions. simpl. rewrite map_lookup_filter_Some. simpl. by rewrite Z.nlt_ge. Qed.

Lemma sm_inv_expire n ct s : sm_inv n s -> sm_inv n (expireSessions ct s).
Proof.
  intros Hinv. apply sm_inv_sessions; [done|]. intros c ses Hc.
  apply (expireSessions_lookup ct s) in Hc as [Hc _]. by apply (inv_sessions _ _ Hinv).
Qed.

Lemma wp_warnUnknownRequest E opts n now s Q :
  sm_inv n s -> n <= u64_max ->
  (forall s', versionHistory s' = versionHistory s -> tree s' = tree s -> sessions s' = sessions s ->
     lastApplied s' = lastApplied s -> Q tt s') ->
  wp E (warnUnknownRequest opts now) Q s.
Proof.
  intros Hinv Hn HQ. unfold warnUnknownRequest. apply wp_bind, wp_modify, wp_bind, wp_get.
  destruct (_ <? now); [|by apply wp_modify, HQ].
  apply wp_bind, wp_modify, wp_bind. eapply wp_getVersion; [apply Hinv|done|].
  intros i v _ _ _. by apply wp_modify, HQ.
Qed.

(** ** Applying a command *)

(** The session as [apply_tree] finds it: responses the client no longer waits
    for are dropped first. *)
Definition current_session (s : StateMachine) (i : ExactlyOnceRPCInfo) : option Session :=
  ses ← sessions s !! client_id i; Some (expireResponses ses (first_outstanding_rpc i)).

(** Neither executed before nor given up by the client. *)
Definition is_new (ses : Session) (rpc : Z) : bool :=
  (firstOutstandingRPC ses <=? rpc) && bool_decide (responses ses !! rpc = None).

Definition put_session (c : Z) (ses : Session) (s : StateMachine) : StateMachine :=
  s <| sessions := <[c := ses]> (sessions s) |>.

Definition record_response (ct rpc : Z) (r : ReadWriteTree_Response) (ses : Session) : Session :=
  ses <| responses := <[rpc := Command_Response_init <| resp_tree := Some r |>]> (responses ses) |>
      <| lastModified := ct |>.

Lemma apply_tree_eq ct t s :
  apply_tree ct t s =
  match current_session s (exactly_once t) with
  | None => Ok (tt, s)
  | Some ses =>
      let i := exactly_once t in
      if is_new ses (rpc_number i) then
        match readWriteTreeRPC t (tree s) with
        | Fail f => Fail f
        | Ok (r, t') =>
            Ok (tt, put_session (client_id i) (record_response ct (rpc_number i) r ses)
                      (s <| tree := t' |>))
        end
      else Ok (tt, put_session (client_id i) ses s)
  end.
Proof.
  unfold apply_tree, current_session, bind, get, put_session, is_new. cbv zeta.
  destruct (sessions s !! client_id (exactly_once t)) as [ses0|]; simpl; [|done].
  set (ses := expireResponses _ _).
  destruct (Z.ltb_spec (rpc_number (exactly_once t)) (firstOutstandingRPC ses)) as [Hlt|Hge].
  { rewrite (proj2 (Z.leb_gt _ _)) by lia. done. }
  rewrite (proj2 (Z.leb_le _ _)) by lia. simpl.
  destruct (responses ses !! rpc_number (exactly_once t)) as [r|]; [done|]. simpl.
  unfold on_tree, zoom. simpl. destruct (readWriteTreeRPC t (tree s)) as [[r t']|f]; [|done].
  simpl. unfold set_session, modify. simpl. by rewrite !insert_insert_eq.
Qed.

Section Apply.
Context (opts : Options) `{ProtoBuf Command_Request}.

Definition parsed (e : Entry) : option Command_Request := pb_parse (command e).

(** Does applying [e] run the command it holds on the tree? *)
Definition executes (s : StateMachine) (e : Entry) : bool :=
  match entry_type e, parsed e with
  | Entry.DATA, Some c =>
      match cmd_tree c with
      | Some t =>
          match current_session s (exactly_once t) with
          | Some ses => is_new ses (rpc_number (exactly_once t))
          | None => false
          end
      | None => false
      end
  | _, _ => false
  end.

Definition has_operation (s : StateMachine) (t : ReadWriteTree_Request) : bool :=
  negb (bool_decide (spec_condition (abs (superRoot (tree s))) (rw_condition t) = OK)) ||
  match rw_op t with Some _ => true | None => false end.

Definition acceptable (s : StateMachine) (e : Entry) : bool :=
  match parsed e with
  | None => false
  | Some c =>
      match cmd_tree c, cmd_open_session c, cmd_close_session c, cmd_advance_version c with
      | Some t, _, _, _ => negb (executes s e) || has_operation s t
      | None, None, None, Some v => (u16 v =? v) && (v <=? MAX_SUPPORTED_VERSION)
      | _, _, _, _ => true
      end
  end.

Lemma put_session_inv n c ses s :
  sm_inv n s -> c <= n -> session_ok ses -> sm_inv n (put_session c ses s).
Proof.
  intros Hinv Hc Hok. apply sm_inv_sessions; [done|]. intros c' ses'.
  rewrite lookup_insert. case_decide; [|apply Hinv]. by intros [= <-]; subst.
Qed.

Lemma current_session_ok n s i ses :
  sm_inv n s -> current_session s i = Some ses -> session_ok ses /\ client_id i <= n.
Proof.
  intros Hinv. unfold current_session. destruct (sessions s !! client_id i) eqn:Hc; [|done].
  simpl. intros [= <-]. destruct (inv_sessions _ _ Hinv _ _ Hc). split; [|done].
  by apply expireResponses_ok.
Qed.

Lemma record_response_ok ct rpc r ses :
  session_ok ses -> firstOutstandingRPC ses <= rpc -> session_ok (record_response ct rpc r ses).
Proof.
  intros Hok Hle rpc' r'. simpl. rewrite lookup_insert. case_decide; [by subst|]. apply Hok.
Qed.

Lemma is_new_spec ses rpc :
  is_new ses rpc = true <-> firstOutstandingRPC ses <= rpc /\ responses ses !! rpc = None.
Proof. unfold is_new. by rewrite andb_true_iff, Z.leb_le, bool_decide_eq_true. Qed.

(** The state but for what [apply_tree] may change. *)
Lemma readWriteTreeRPC_run s t n :
  sm_inv n s ->
  if has_operation s t then exists r t', readWriteTreeRPC t (tree s) = Ok (r, t') /\ tree_wf t'
  else readWriteTreeRPC t (tree s) = Fail Panicked.
Proof.
  intros Hinv. pose proof (readWriteTreeRPC_total t (tree s) (inv_tree _ _ Hinv)) as Hrw.
  cbv zeta in Hrw. unfold has_operation. case_decide as Hst.
  - rewrite bool_decide_true by done. simpl. destruct (rw_op t); [|done].
    apply safe_run in Hrw as (r & t' & Hr & Hwf & _). by exists r, t'.
  - rewrite bool_decide_false by done. simpl.
    apply safe_run in Hrw as (r & t' & Hr & Hsame & _). exists r, t'. split; [done|].
    unfold tree_wf. rewrite Hsame. apply Hinv.
Qed.

Lemma apply_tree_outcome n s ct t :
  sm_inv n s ->
  match current_session s (exactly_once t) with
  | Some ses => is_new ses (rpc_number (exactly_once t)) = true -> has_operation s t = true
  | None => True
  end ->
  safe (apply_tree ct t) (fun _ s' => sm_inv n s') s.
Proof.
  intros Hinv Hop. unfold safe, wp. rewrite apply_tree_eq. cbv zeta.
  destruct (current_session s (exactly_once t)) as [ses|] eqn:Hses; [|done].
  destruct (current_session_ok _ _ _ _ Hinv Hses) as [Hok Hc].
  destruct (is_new ses _) eqn:Hnew; [|by apply put_session_inv].
  pose proof (readWriteTreeRPC_run s t n Hinv) as Hrun. rewrite Hop in Hrun by done.
  destruct Hrun as (r & t' & -> & Hwf). apply put_session_inv; [|done|].
  - destruct Hinv. by constructor.
  - apply record_response_ok; [done|]. by apply is_new_spec in Hnew as [? _].
Qed.

Lemma apply_advance_outcome n s index v req :
  sm_inv n s -> n < index -> (exists i, om_last (versionHistory s) = Some (i, v)) ->
  if (u16 req =? req) && (req <=? MAX_SUPPORTED_VERSION)
  then safe (apply_advance_version index v req) (fun _ s' => sm_inv index s') s
  else exists f, apply_advance_version index v req s = Fail f.
Proof.
  intros Hinv Hn [i Hl]. pose proof (sm_inv_mono _ index _ Hinv ltac:(lia)) as Hinv'.
  pose proof (versions_last _ _ (inv_versions _ _ Hinv)) as (i' & v' & Hl' & _ & Hv').
  rewrite Hl in Hl'. injection Hl' as <- <-.
  unfold apply_advance_version, downCast16. destruct (u16 req =? req) eqn:H16; simpl; [|by eexists].
  apply Z.eqb_eq in H16. rewrite H16.
  destruct (Z.leb_spec req MAX_SUPPORTED_VERSION) as [Hmax|Hmax].
  - unfold safe. apply wp_bind, wp_lift. apply wp_bind.
    destruct (Z.ltb_spec req v); [by apply wp_modify, wp_modify, (sm_inv_ext _ _ _ Hinv')|].
    destruct (Z.ltb_spec v req); [|by apply wp_modify, wp_modify, (sm_inv_ext _ _ _ Hinv')].
    rewrite (proj2 (Z.ltb_ge _ _)) by lia.
    apply wp_bind, wp_modify, wp_modify, wp_modify. destruct Hinv'. constructor; try done.
    simpl. by eapply versions_ok_insert; [apply Hinv|..].
  - exists Panicked. unfold bind, lift, fail. rewrite (proj2 (Z.ltb_ge _ _)) by lia.
    rewrite !(proj2 (Z.ltb_lt _ _)) by lia. done.
Qed.

(** [apply] looks the running version up first. *)
Lemma run_at_version n e s (k : Z -> M StateMachine unit) (b : bool) :
  sm_inv n s -> n < entry_index e <= u64_max ->
  (forall i v, om_last (versionHistory s) = Some (i, v) ->
     if b then safe (k v) (fun _ s' => sm_inv (entry_index e) s') s
     else exists f, k v s = Fail f) ->
  if b then safe (let! v := getVersion (u64 (entry_index e - 1)) in k v)
              (fun _ s' => sm_inv (entry_index e) s') s
  else exists f, (let! v := getVersion (u64 (entry_index e - 1)) in k v) s = Fail f.
Proof.
  intros Hinv Hn Hk.
  assert (u64 (entry_index e - 1) = entry_index e - 1) as ->.
  { destruct Hinv. apply u64_small. unfold is_u64, u64_max in *. lia. }
  assert (safe (getVersion (entry_index e - 1)) (fun v s' => s' = s /\
    exists i, om_last (versionHistory s) = Some (i, v)) s) as (v & s1 & Hv & -> & i & Hl)%safe_run.
  { eapply wp_getVersion; [apply Hinv|lia|]. intros i v Hl _ _. split; [done|by eexists]. }
  specialize (Hk i v Hl). unfold safe, wp, bind in *. by rewrite Hv.
Qed.

(** Applying an entry either ends with a fault, exactly when the entry is not
    acceptable, or keeps the invariant. *)
Lemma apply_ok n now e s :
  sm_inv n s -> n < entry_index e <= u64_max -> entry_type e = Entry.DATA ->
  if acceptable s e then safe (apply opts now e) (fun _ s' => sm_inv (entry_index e) s') s
  else exists f, apply opts now e s = Fail f.
Proof.
  intros Hinv Hn Hty. unfold acceptable, apply. fold (parsed e).
  destruct (parsed e) as [c|] eqn:Hp; [|by eexists].
  apply (run_at_version n); [done..|]. intros i v Hl. pose proof (sm_inv_mono _ (entry_index e) _ Hinv ltac:(lia)) as Hinv'.
  destruct (cmd_tree c) as [t|] eqn:Ht.
  - unfold executes. rewrite Hty, Hp, Ht.
    destruct (has_operation s t) eqn:Hop; [rewrite orb_true_r|rewrite orb_false_r].
    + apply apply_tree_outcome; [done|]. by destruct (current_session _ _).
    + destruct (current_session s (exactly_once t)) as [ses|] eqn:Hses.
      * destruct (is_new ses _) eqn:Hnew; simpl.
        -- exists Panicked. rewrite apply_tree_eq, Hses. cbv zeta. rewrite Hnew.
           pose proof (readWriteTreeRPC_run s t n Hinv) as Hrun. by rewrite Hop, Hrun in *.
        -- apply apply_tree_outcome; [done|]. by rewrite Hses, Hnew.
      * simpl. apply apply_tree_outcome; [done|]. by rewrite Hses.
  - destruct (cmd_open_session c).
    { apply wp_bind, wp_get, wp_modify. apply put_session_inv; [done|lia|].
      destruct (sessions s !! entry_index e) as [ses|] eqn:Hses; [|done].
      simpl. by apply (inv_sessions _ _ Hinv') in Hses as [_ ?]. }
    destruct (cmd_close_session c) as [clientId|].
    { destruct (2 <=? v).
      - apply wp_modify, sm_inv_sessions; [done|]. intros c' ses [_ Hc]%lookup_delete_Some.
        by apply (inv_sessions _ _ Hinv').
      - eapply wp_warnUnknownRequest; [done|lia|]. intros. by eapply sm_inv_ext; [exact Hinv'|..|]; try done; f_equal. }
    destruct (cmd_advance_version c) as [req|].
    + apply (apply_advance_outcome n); [done|lia|by eexists].
    + eapply wp_warnUnknownRequest; [done|lia|]. intros. by eapply sm_inv_ext; [exact Hinv'|..|]; try done; f_equal.
Qed.
End Apply.

(** Applying an entry of a client, or an empty one, keeps the invariant. *)
Lemma applyEntry_inv opts `{ProtoBuf Command_Request} `{ProtoBuf Snapshot_Header}
    `{ProtoBuf Snapshot_Directory} `{ProtoBuf Snapshot_File} n now e s s' :
  sm_inv n s -> n < entry_index e <= u64_max -> entry_type e <> Entry.SNAPSHOT ->
  applyEntry opts now e s = Ok (tt, s') -> sm_inv (entry_index e) s' /\ lastApplied s' = entry_index e.
Proof.
  intros Hinv Hn Hty. unfold applyEntry. destruct (entry_type e) eqn:He; [| |done].
  - intros [= <-]. split; [|done].
    eapply sm_inv_ext; [by apply (sm_inv_expire _ (clusterTime e)), (sm_inv_mono n); [|lia]|done..].
  - pose proof (apply_ok opts n now e s Hinv Hn He) as Hok. destruct (acceptable s e).
    + apply safe_run in Hok as ([] & s1 & Hrun & Hs1). unfold bind at 1. rewrite Hrun.
      intros [= <-]. split; [|done]. eapply sm_inv_ext; [by apply (sm_inv_expire _ (clusterTime e))|done..].
    + destruct Hok as [f Hf]. unfold bind at 1. by rewrite Hf.
Qed.

(** ** At most once *)

(** How sessions may change: none opened but that of [idx], the responses the
    client may still ask for are kept. *)
Definition evolves (idx : Z) (s s' : StateMachine) : Prop :=
  forall c ses', c <> idx -> sessions s' !! c = Some ses' ->
    exists ses, sessions s !! c = Some ses /\
      firstOutstandingRPC ses <= firstOutstandingRPC ses' /\
      forall rpc r, firstOutstandingRPC ses' <= rpc -> responses ses !! rpc = Some r ->
                    responses ses' !! rpc = Some r.

Lemma evolves_same idx s s' : sessions s' = sessions s -> evolves idx s s'.
Proof. intros Hs c ses Hc. rewrite Hs. intros Hses. by exists ses. Qed.

Lemma evolves_trans idx s1 s2 s3 : evolves idx s1 s2 -> evolves idx s2 s3 -> evolves idx s1 s3.
Proof.
  intros H12 H23 c ses3 Hc H3. destruct (H23 c ses3 Hc H3) as (ses2 & H2 & Hf2 & Hr2).
  destruct (H12 c ses2 Hc H2) as (ses1 & H1 & Hf1 & Hr1). exists ses1. split; [done|].
  split; [lia|]. intros rpc r Hle Hr. apply Hr2; [done|]. apply Hr1; [lia|done].
Qed.

Lemma evolves_put idx s c ses0 ses' :
  sessions s !! c = Some ses0 -> firstOutstandingRPC ses0 <= firstOutstandingRPC ses' ->
  (forall rpc r, firstOutstandingRPC ses' <= rpc -> responses ses0 !! rpc = Some r ->
                 responses ses' !! rpc = Some r) ->
  evolves idx s (put_session c ses' s).
Proof.
  intros Hc Hf Hr c' ses1 _. simpl. rewrite lookup_insert. case_decide.
  - subst. intros [= <-]. by exists ses0.
  - intros H1. by exists ses1.
Qed.

Lemma evolves_expire idx ct s : evolves idx s (expireSessions ct s).
Proof. intros c ses Hc [Hs _]%expireSessions_lookup. by exists ses. Qed.

Lemma evolves_apply_tree idx ct t s :
  post (apply_tree ct t) (fun _ s' => evolves idx s s') s.
Proof.
  unfold post, wp. rewrite apply_tree_eq. cbv zeta. unfold current_session.
  destruct (sessions s !! client_id (exactly_once t)) as [ses0|] eqn:Hc; simpl; [|by apply evolves_same].
  set (i := exactly_once t) in *. set (ses := expireResponses ses0 _).
  assert (firstOutstandingRPC ses0 <= firstOutstandingRPC ses) as Hf.
  { destruct (expireResponses_spec ses0 (first_outstanding_rpc i) 0) as [_ Hmax].
    fold ses in Hmax. lia. }
  assert (forall rpc r, firstOutstandingRPC ses <= rpc -> responses ses0 !! rpc = Some r ->
                        responses ses !! rpc = Some r) as Hr.
  { intros rpc r Hle Hr. destruct (expireResponses_spec ses0 (first_outstanding_rpc i) rpc) as [Hl Hfo].
    fold ses in Hl, Hfo. rewrite Hl, decide_False; [done|]. lia. }
  destruct (is_new ses _) eqn:Hnew; [|by eapply evolves_put].
  destruct (readWriteTreeRPC t (tree s)) as [[r t']|f]; [|done].
  eapply evolves_trans; [by apply (evolves_same idx _ (s <| tree := t' |>))|].
  eapply evolves_put; [done|done|]. intros rpc r' Hle Hr'. simpl.
  apply is_new_spec in Hnew as [_ Hnone]. rewrite lookup_insert. case_decide; [|by apply Hr].
  subst. rewrite (Hr _ r') in Hnone; [done|done|done].
Qed.

Lemma warnUnknownRequest_sessions opts now s :
  post (warnUnknownRequest opts now) (fun _ s' => sessions s' = sessions s /\ tree s' = tree s) s.
Proof.
  unfold warnUnknownRequest, getVersion. repeat (wp_step; try done).
Qed.

Lemma apply_advance_sessions index v req s :
  post (apply_advance_version index v req) (fun _ s' => sessions s' = sessions s /\ tree s' = tree s) s.
Proof.
  unfold apply_advance_version, downCast16. apply wp_bind, wp_lift.
  destruct (u16 req =? req); [|done].
  repeat (wp_step; try done).
Qed.

Lemma evolves_apply_advance idx index v req s :
  post (apply_advance_version index v req) (fun _ s' => evolves idx s s' /\ tree s' = tree s) s.
Proof.
  eapply wp_mono; [apply apply_advance_sessions|done|]. intros _ s' [Hs Ht].
  split; [by apply evolves_same|done].
Qed.

Section Once.
Context (opts : Options) `{ProtoBuf Command_Request} `{ProtoBuf Snapshot_Header}.
Context `{ProtoBuf Snapshot_Directory} `{ProtoBuf Snapshot_File}.

Lemma evolves_apply now e s : post (apply opts now e) (fun _ s' => evolves (entry_index e) s s') s.
Proof.
  unfold apply. destruct (pb_parse (command e)) as [c|]; [|done].
  apply wp_bind, wp_bind, wp_get.
  destruct (om_before _ _) as [[i v]|]; [apply wp_ret|done].
  destruct (cmd_tree c) as [t|]; [apply evolves_apply_tree|].
  destruct (cmd_open_session c).
  { apply wp_bind, wp_get, wp_modify. intros c' ses' Hc'. simpl.
    rewrite lookup_insert_ne by done. intros Hs. by exists ses'. }
  destruct (cmd_close_session c) as [clientId|].
  { destruct (2 <=? v).
    - apply wp_modify. intros c' ses' _. simpl. intros [_ Hs]%lookup_delete_Some. by exists ses'.
    - eapply wp_mono; [apply warnUnknownRequest_sessions|done|]. intros _ s' [Hs _].
      by apply evolves_same. }
  destruct (cmd_advance_version c) as [req|].
  - eapply wp_mono; [apply evolves_apply_advance|done|]. by intros _ s' [? _].
  - eapply wp_mono; [apply warnUnknownRequest_sessions|done|]. intros _ s' [Hs _].
    by apply evolves_same.
Qed.

Lemma evolves_applyEntry now e s :
  entry_type e <> Entry.SNAPSHOT ->
  post (applyEntry opts now e) (fun _ s' => evolves (entry_index e) s s') s.
Proof.
  intros Hty. unfold applyEntry. apply wp_bind.
  destruct (entry_type e); [apply wp_ret| |done].
  - apply wp_bind, wp_modify, wp_modify. apply evolves_expire.
  - eapply wp_mono; [apply evolves_apply|done|]. intros [] s1 Hev.
    apply wp_bind, wp_modify, wp_modify. eapply evolves_trans; [exact Hev|]. apply evolves_expire.
Qed.

(** Entries one after the other, each with the clock reading of its turn. *)
Definition applyEntries (l : list (Z * Entry)) : M StateMachine unit :=
  forM l (fun p => applyEntry opts p.1 p.2).

(** Log entries above [n], in order, no snapshot among them. *)
Fixpoint entries_from (n : Z) (l : list (Z * Entry)) : Prop :=
  match l with
  | [] => True
  | (_, e) :: l' => n < entry_index e <= u64_max /\ entry_type e <> Entry.SNAPSHOT /\
                    entries_from (entry_index e) l'
  end.

(** The response of an RPC that was executed: found as long as the client
    may ask for it. *)
Definition recorded (c rpc : Z) (r : Command_Response) (s : StateMachine) : Prop :=
  forall ses, sessions s !! c = Some ses -> firstOutstandingRPC ses <= rpc ->
              responses ses !! rpc = Some r.

Lemma recorded_evolves idx c rpc r s s' :
  c <> idx -> evolves idx s s' -> recorded c rpc r s -> recorded c rpc r s'.
Proof.
  intros Hc Hev Hr ses' Hs' Hle. destruct (Hev c ses' Hc Hs') as (ses & Hs & Hf & Hresp).
  apply Hresp; [done|]. apply Hr; [done|lia].
Qed.

Lemma recorded_applyEntries l n c rpc r s :
  entries_from n l -> c <= n -> recorded c rpc r s ->
  post (applyEntries l) (fun _ s' => recorded c rpc r s') s.
Proof.
  revert n s. induction l as [|[now e] l IH]; intros n s; [by intros; apply wp_ret|].
  intros (Hn & Hty & Hl) Hc Hr. apply wp_bind.
  eapply wp_mono; [by apply evolves_applyEntry|done|]. intros [] s' Hev.
  apply (IH (entry_index e)); [done|lia|]. eapply recorded_evolves; [|done..]. simpl. lia.
Qed.

(** An RPC whose response is recorded is not executed again. *)
Lemma recorded_not_executed s e c t r :
  parsed e = Some c -> cmd_tree c = Some t ->
  recorded (client_id (exactly_once t)) (rpc_number (exactly_once t)) r s -> executes s e = false.
Proof.
  intros Hp Ht Hr. unfold executes. rewrite Hp, Ht. destruct (entry_type e); [done| |done].
  unfold current_session. destruct (sessions s !! _) as [ses|] eqn:Hs; [|done]. simpl.
  apply not_true_iff_false. rewrite is_new_spec.
  destruct (expireResponses_spec ses (first_outstanding_rpc (exactly_once t)) (rpc_number (exactly_once t))) as [-> ->].
  intros [Hle Hnone]. rewrite decide_False in Hnone by lia.
  by rewrite (Hr ses Hs ltac:(lia)) in Hnone.
Qed.

(** Executing a command runs it on the tree and records its response. *)
Lemma executes_effect n now e s c t s' :
  sm_inv n s -> n < entry_index e -> parsed e = Some c -> cmd_tree c = Some t ->
  executes s e = true -> applyEntry opts now e s = Ok (tt, s') ->
  client_id (exactly_once t) <= n /\
  exists r, readWriteTreeRPC t (tree s) = Ok (r, tree s') /\
    recorded (client_id (exactly_once t)) (rpc_number (exactly_once t))
      (Command_Response_init <| resp_tree := Some r |>) s'.
Proof.
  intros Hinv Hn Hp Ht Hex. unfold executes in Hex. rewrite Hp, Ht in Hex.
  unfold applyEntry, apply. fold (parsed e). rewrite Hp, Ht.
  destruct (entry_type e); [done| |done].
  destruct (current_session s (exactly_once t)) as [ses|] eqn:Hses; [|done].
  destruct (current_session_ok _ _ _ _ Hinv Hses) as [Hok Hc].
  unfold bind, getVersion, get. unfold bind, get.
  destruct (om_before _ _) as [[i v]|]; [|done]. cbn [ret].
  rewrite apply_tree_eq, Hses. cbv zeta. rewrite Hex.
  destruct (readWriteTreeRPC t (tree s)) as [[r t']|f]; [|done].
  unfold modify. intros [= <-]. split; [done|]. exists r. split; [done|].
  intros ses' Hs' Hle. simpl in Hs'. apply map_lookup_filter_Some in Hs' as [Hs' _].
  rewrite lookup_insert_eq in Hs'. injection Hs' as <-. simpl. by rewrite lookup_insert_eq.
Qed.

Lemma not_executes_tree now e s :
  executes s e = false -> entry_type e <> Entry.SNAPSHOT ->
  post (applyEntry opts now e) (fun _ s' => tree s' = tree s) s.
Proof.
  intros Hex Hty. unfold applyEntry, apply. fold (parsed e). unfold executes in Hex.
  apply wp_bind. destruct (entry_type e); [by apply wp_ret| |done].
  destruct (parsed e) as [c|]; [|done].
  apply wp_bind, wp_bind, wp_get.
  destruct (om_before _ _) as [[i v]|]; [apply wp_ret|done].
  destruct (cmd_tree c) as [t|].
  { unfold wp at 1. rewrite apply_tree_eq. cbv zeta.
    destruct (current_session s (exactly_once t)) as [ses|]; [|done]. by rewrite Hex. }
  destruct (cmd_open_session c); [done|].
  destruct (cmd_close_session c) as [clientId|]; [destruct (2 <=? v); [done|]|
    destruct (cmd_advance_version c) as [req|]].
  - eapply wp_mono; [apply warnUnknownRequest_sessions|done|]. by intros [] s' [_ Htree].
  - eapply wp_mono; [apply (evolves_apply_advance 0)|done|]. by intros [] s' [_ Htree].
  - eapply wp_mono; [apply warnUnknownRequest_sessions|done|]. by intros [] s' [_ Htree].
Qed.

Lemma run_recorded n now e s c t l s' :
  sm_inv n s -> n < entry_index e -> parsed e = Some c -> cmd_tree c = Some t ->
  executes s e = true -> entries_from (entry_index e) l ->
  (applyEntry opts now e ;;; applyEntries l) s = Ok (tt, s') ->
  exists r t1, readWriteTreeRPC t (tree s) = Ok (r, t1) /\
    recorded (client_id (exactly_once t)) (rpc_number (exactly_once t))
      (Command_Response_init <| resp_tree := Some r |>) s'.
Proof.
  intros Hinv Hn Hp Ht Hex Hl. unfold bind.
  destruct (applyEntry opts now e s) as [[[] s1]|f] eqn:Hrun1; [|done]. intros Hrun2.
  destruct (executes_effect _ _ _ _ _ _ _ Hinv Hn Hp Ht Hex Hrun1) as (Hc & r & Hr & Hrec).
  exists r, (tree s1). split; [done|].
  assert (client_id (exactly_once t) <= entry_index e) as Hc' by lia.
  by apply (proj1 (post_run _ _ _) (recorded_applyEntries l _ _ _ _ s1 Hl Hc' Hrec) tt s').
Qed.

(** What is recorded afterwards was recorded before: responses may be dropped
    with their session or because the client declared them finished, but none
    is added, and none replaced. *)
Definition pruned (s s' : StateMachine) : Prop :=
  forall c ses', sessions s' !! c = Some ses' ->
    exists ses, sessions s !! c = Some ses /\ responses ses' ⊆ responses ses.

Lemma pruned_expire ct s s' : pruned s s' -> pruned s (expireSessions ct s').
Proof. intros Hp c ses' [Hs _]%expireSessions_lookup. by apply Hp. Qed.

Lemma pruned_put s c ses0 i : sessions s !! c = Some ses0 -> pruned s (put_session c (expireResponses ses0 i) s).
Proof.
  intros Hc c' ses'. simpl. rewrite lookup_insert. case_decide; [|by exists ses'].
  subst. intros [= <-]. exists ses0. split; [done|]. apply map_subseteq_spec. intros rpc r.
  destruct (expireResponses_spec ses0 i rpc) as [-> _]. by case_decide.
Qed.

(** A tree command that is not executed leaves the tree and the responses. *)
Lemma repeated_command now e c t s :
  parsed e = Some c -> cmd_tree c = Some t -> entry_type e = Entry.DATA -> executes s e = false ->
  post (applyEntry opts now e) (fun _ s' => tree s' = tree s /\ pruned s s' /\ forall idx, evolves idx s s') s.
Proof.
  intros Hp Ht Hty Hex. pose proof (fun idx => evolves_apply_tree idx (clusterTime e) t s) as Hev.
  unfold applyEntry, apply. fold (parsed e). unfold executes in Hex. rewrite Hty, Hp, Ht in *.
  apply wp_bind, wp_bind, wp_bind, wp_get. destruct (om_before _ _) as [[i v]|]; [apply wp_ret|done].
  unfold post, wp in *. rewrite apply_tree_eq in *. cbv zeta in *. unfold current_session in *.
  destruct (sessions s !! client_id (exactly_once t)) as [ses0|] eqn:Hc; simpl in Hex |- *.
  - rewrite Hex. cbv beta iota. simpl in Hev. rewrite Hex in Hev. split; [done|].
    split; [by apply (pruned_expire (clusterTime e)), pruned_put|].
    intros idx. eapply evolves_trans; [apply Hev|]. apply (evolves_expire idx (clusterTime e)).
  - split; [done|]. split; [|intros idx; apply (evolves_expire idx (clusterTime e))].
    apply (pruned_expire (clusterTime e)). intros c' ses'. by exists ses'.
Qed.

(** C3: a command takes effect at most once. Once the command of an entry has
    been executed, no later entry of the log with the same client and RPC
    number is, whatever was applied in between (expired and closed sessions
    included): applying it leaves the tree as it is, adds no response and
    replaces none, and the response on record for the RPC is, before and after,
    the one of its only execution. *)
Theorem exactly_once_effect n now e s c t l s' now2 e2 c2 t2 :
  sm_inv n s -> n < entry_index e -> parsed e = Some c -> cmd_tree c = Some t ->
  executes s e = true -> entries_from (entry_index e) l ->
  (applyEntry opts now e ;;; applyEntries l) s = Ok (tt, s') ->
  parsed e2 = Some c2 -> cmd_tree c2 = Some t2 -> entry_type e2 = Entry.DATA ->
  client_id (exactly_once t2) = client_id (exactly_once t) ->
  rpc_number (exactly_once t2) = rpc_number (exactly_once t) ->
  executes s' e2 = false /\
  exists r t1, readWriteTreeRPC t (tree s) = Ok (r, t1) /\
    let on_record := recorded (client_id (exactly_once t)) (rpc_number (exactly_once t))
                       (Command_Response_init <| resp_tree := Some r |>) in
    on_record s' /\
    post (applyEntry opts now2 e2) (fun _ s2 => tree s2 = tree s' /\ pruned s' s2 /\ on_record s2) s'.
Proof.
  intros Hinv Hn Hp Ht Hex Hl Hrun Hp2 Ht2 Hty Hcid Hrpc.
  destruct (run_recorded _ _ _ _ _ _ _ _ Hinv Hn Hp Ht Hex Hl Hrun) as (r & t1 & Hr & Hrec).
  assert (executes s' e2 = false) as Hno by (rewrite <-Hcid, <-Hrpc in Hrec; by eapply recorded_not_executed).
  split; [done|]. exists r, t1. split; [done|]. split; [done|].
  eapply wp_mono; [by eapply repeated_command|done|]. intros [] s2 (Htree & Hpr & Hev). split; [done|]. split; [done|].
  eapply recorded_evolves; [|apply (Hev (client_id (exactly_once t) + 1))|exact Hrec]. lia.
Qed.

(** C23: the response of an executed command is stable. Whenever the client
    asks again later, it gets the response computed when the command was
    executed, unless its session is gone or it has declared, with a higher
    [first_outstanding_rpc], that it will not ask; then it is told that its
    session expired. *)
Theorem response_stable n now e s c t l s' :
  sm_inv n s -> n < entry_index e -> parsed e = Some c -> cmd_tree c = Some t ->
  executes s e = true -> entries_from (entry_index e) l ->
  (applyEntry opts now e ;;; applyEntries l) s = Ok (tt, s') ->
  sm_inv (lastApplied s') s' -> entry_index e <= lastApplied s' ->
  exists r t1 a, readWriteTreeRPC t (tree s) = Ok (r, t1) /\
    waitForResponse (entry_index e) c [] s' = Ok (Some a, s') /\
    match sessions s' !! client_id (exactly_once t) with
    | Some ses =>
        if decide (firstOutstandingRPC ses <= rpc_number (exactly_once t))
        then resp_tree a = Some r
        else resp_tree a = Some (mkReadWriteTree_Response (Some PC_SESSION_EXPIRED) None)
    | None => resp_tree a = Some (mkReadWriteTree_Response (Some PC_SESSION_EXPIRED) None)
    end.
Proof.
  intros Hinv Hn Hp Ht Hex Hl Hrun Hinv' Hidx.
  destruct (run_recorded _ _ _ _ _ _ _ _ Hinv Hn Hp Ht Hex Hl Hrun) as (r & t1 & Hr & Hrec).
  exists r, t1. unfold waitForResponse, wait_while, bind, get, getVersion. unfold bind, get.
  rewrite (proj2 (Z.ltb_ge _ _)) by lia. cbn [ret].
  assert (0 <= entry_index e) as Hpos by (destruct Hinv; lia).
  destruct (om_before_some _ _ (entry_index e) (inv_versions _ _ Hinv') Hpos) as [[i v] ->].
  cbn [ret]. rewrite Ht.
  destruct (sessions s' !! client_id (exactly_once t)) as [ses|] eqn:Hs; [|by eexists].
  case_decide as Hle.
  - rewrite (Hrec ses Hs Hle). by eexists.
  - destruct (responses ses !! _) as [r0|] eqn:Hr0; [|by eexists].
    apply (inv_sessions _ _ Hinv') in Hs as [_ Hok]. by apply Hok in Hr0.
Qed.
End Once.

(** ** Replicas agree *)

(** The part of the state that is replicated: the sessions, the versions and
    the directories, but not the counters of the tree. *)
Definition same_root (t t' : Tree) : Prop := superRoot t = superRoot t'.

Definition agree (s s' : StateMachine) : Prop :=
  sessions s = sessions s' /\ versionHistory s = versionHistory s' /\ same_root (tree s) (tree s') /\
  exists v m, versionHistory s' = (0, v) :: m.

Lemma agree_intro n s s' :
  sm_inv n s' -> sessions s = sessions s' -> versionHistory s = versionHistory s' ->
  same_root (tree s) (tree s') -> agree s s'.
Proof.
  intros Hinv Hs Hv Ht. split; [done|]. split; [done|]. split; [done|].
  destruct (inv_versions _ _ Hinv) as (Hz & Hsorted & Hf).
  destruct (versionHistory s') as [|[k v] m]; [done|]. exists v, m. f_equal.
  simpl in Hz. case_decide as Hk; [by subst|]. exfalso.
  inversion Hsorted as [|? ? Hs' Hall]; subst. inversion Hf as [|? ? Hk0 _]; subst. simpl in Hk0.
  rewrite om_lookup_head in Hz; [done|]. eapply Forall_impl; [exact Hall|].
  unfold key_lt. simpl. intros p. lia.
Qed.

Lemma blind_bump c : respects same_root (bump c) (bump c).
Proof. by apply respects_modify. Qed.

Lemma blind_at_dir {A} ptr (m : M Directory A) : respects same_root (at_dir ptr m) (at_dir ptr m).
Proof.
  intros t t' Ht. unfold at_dir, zoom. rewrite Ht. by destruct (Directory_at ptr m (superRoot t')) as [[a d]|f].
Qed.

(** The statements of the tree's operations, by their syntax. *)
Ltac blind_step :=
  lazymatch goal with
  | |- respects _ (bind _ _) (bind _ _) => apply respects_bind; [|intros ?]
  | |- respects _ (ret _) (ret _) => apply respects_ret
  | |- respects _ (fail _) (fail _) => apply respects_fail
  | |- respects _ (bump _) (bump _) => apply blind_bump
  | |- respects _ (at_dir _ _) (at_dir _ _) => apply blind_at_dir
  | |- respects _ (let _ := _ in _) _ => cbv zeta
  | |- respects _ (if ?b then _ else _) _ => destruct b
  | |- respects _ (when ?b _) _ => unfold when; destruct b
  | |- respects _ (match ?x with _ => _ end) _ => destruct x
  end.

Lemma blind_normalLookup p : respects same_root (normalLookup p) (normalLookup p).
Proof.
  unfold normalLookup. generalize 0%nat, (@nil string). generalize (parents p).
  intros l. induction l as [|n l IH]; intros i cur; simpl; repeat blind_step; apply IH.
Qed.

Lemma blind_mkdirLookup p : respects same_root (mkdirLookup p) (mkdirLookup p).
Proof.
  unfold mkdirLookup. generalize 0%nat, (@nil string). generalize (parents p).
  intros l. induction l as [|n l IH]; intros i cur; simpl; repeat blind_step; apply IH.
Qed.

Lemma blind_readWriteTreeRPC t :
  respects same_root (readWriteTreeRPC t) (readWriteTreeRPC t).
Proof.
  unfold readWriteTreeRPC, check_request_condition, Tree_checkCondition, Tree_read,
    Tree_makeDirectory, Tree_removeDirectory, Tree_write, Tree_removeFile.
  repeat (blind_step || apply blind_normalLookup || apply blind_mkdirLookup).
Qed.

Lemma agree_apply_tree ct t : respects agree (apply_tree ct t) (apply_tree ct t).
Proof.
  intros s s' (Hs & Hv & Ht & Hz). rewrite !apply_tree_eq. cbv zeta. unfold current_session. rewrite Hs.
  destruct (sessions s' !! _) as [ses|]; simpl; [|done].
  destruct (is_new _ _).
  - pose proof (blind_readWriteTreeRPC t _ _ Ht) as Hrw.
    destruct (readWriteTreeRPC t (tree s)) as [[r u]|f], (readWriteTreeRPC t (tree s')) as [[r' u']|f'];
      try done.
    destruct Hrw as [-> Hu]. split; [done|]. unfold agree. simpl. by rewrite Hs.
  - split; [done|]. unfold agree. simpl. by rewrite Hs.
Qed.

Lemma agree_getVersion k : respects agree (getVersion k) (getVersion k).
Proof.
  apply respects_get. intros s s' (Hs & Hv & Ht & Hz). rewrite Hv. by destruct (om_before _ k) as [[i v]|].
Qed.

Lemma agree_modify f f' :
  (forall s, sessions (f s) = sessions s /\ versionHistory (f s) = versionHistory s /\ tree (f s) = tree s) ->
  (forall s, sessions (f' s) = sessions s /\ versionHistory (f' s) = versionHistory s /\ tree (f' s) = tree s) ->
  respects agree (modify f) (modify f').
Proof.
  intros Hf Hf'. apply respects_modify. intros s s' Hagree.
  destruct (Hf s) as (H1 & H2 & H3), (Hf' s') as (H1' & H2' & H3').
  unfold agree. by rewrite H1, H2, H3, H1', H2', H3'.
Qed.

Lemma getVersion_agree_total s s' k :
  agree s s' -> 0 <= k -> exists v, getVersion k s = Ok (v, s) /\ getVersion k s' = Ok (v, s').
Proof.
  intros (_ & Hv & _ & v0 & m & Hz) Hk. unfold getVersion, bind, get. rewrite Hv.
  destruct (om_before (versionHistory s') k) as [[i v]|] eqn:Hb; [by exists v|].
  unfold om_before in Hb. rewrite Hz in Hb. apply last_None in Hb. simpl in Hb.
  rewrite decide_False in Hb; [done|]. unfold key_lt. simpl. lia.
Qed.

(** The clock decides what is logged, no more. *)
Lemma agree_warn opts opts' now now' :
  respects agree (warnUnknownRequest opts now) (warnUnknownRequest opts' now').
Proof.
  assert (forall opts now s, (exists v m, versionHistory s = (0, v) :: m) ->
    exists s', warnUnknownRequest opts now s = Ok (tt, s') /\ sessions s' = sessions s /\
               versionHistory s' = versionHistory s /\ tree s' = tree s) as Hw.
  { clear. intros opts now s Hz. unfold warnUnknownRequest, bind, modify, get.
    destruct (_ <? now); [|by eexists].
    match goal with |- context [getVersion u64_max ?s1] =>
      destruct (getVersion_agree_total s1 s1 u64_max) as (v & -> & _) end; [by repeat split|done|].
    by eexists. }
  intros s s' (Hs & Hv & Ht & Hz).
  destruct (Hw opts now s) as (s1 & -> & H1 & H2 & H3); [by rewrite Hv|].
  destruct (Hw opts' now' s' Hz) as (s1' & -> & H1' & H2' & H3').
  split; [done|]. unfold agree. by rewrite H1, H2, H3, H1', H2', H3'.
Qed.

Lemma agree_put_session c ses s s' :
  agree s s' -> agree (put_session c ses s) (put_session c ses s').
Proof. intros (Hs & Hv & Ht & Hz). unfold agree, put_session. simpl. by rewrite Hs. Qed.

Lemma agree_apply_advance index v req :
  0 <= index -> respects agree (apply_advance_version index v req) (apply_advance_version index v req).
Proof.
  intros Hidx. unfold apply_advance_version. apply respects_bind; [apply respects_lift|intros r].
  apply respects_bind; [|intros _; by apply agree_modify].
  destruct (r <? v); [by apply agree_modify|].
  destruct (v <? r); [|by apply agree_modify].
  apply respects_bind; [|intros _; by apply agree_modify].
  destruct (MAX_SUPPORTED_VERSION <? r); [apply respects_fail|].
  apply respects_modify. intros s s' (Hs & Hv & Ht & v0 & m & Hz). unfold agree. simpl.
  rewrite Hv, Hz. repeat (split; [done|]). unfold om_insert. simpl.
  case_decide as Hi; [by do 2 eexists|]. destruct (om_lookup m index); [by do 2 eexists|].
  rewrite decide_False; [by do 2 eexists|]. unfold key_lt. simpl. lia.
Qed.

Section Agree.
Context (opts opts' : Options) `{ProtoBuf Command_Request} `{ProtoBuf Snapshot_Header}.
Context `{ProtoBuf Snapshot_Directory} `{ProtoBuf Snapshot_File}.

Lemma agree_apply now now' e :
  0 <= entry_index e -> respects agree (apply opts now e) (apply opts' now' e).
Proof.
  intros Hidx. unfold apply. destruct (pb_parse (command e)) as [c|]; [|apply respects_fail].
  apply respects_bind; [apply agree_getVersion|intros v].
  destruct (cmd_tree c) as [t|]; [apply agree_apply_tree|].
  destruct (cmd_open_session c).
  { apply respects_get. intros s s' Hagree. pose proof Hagree as (Hs & _). rewrite Hs. simpl.
    split; [done|]. by apply agree_put_session. }
  destruct (cmd_close_session c) as [clientId|].
  { destruct (2 <=? v); [|apply agree_warn].
    apply respects_modify. intros s s' (Hs & Hv & Ht & Hz). unfold agree. simpl. by rewrite Hs. }
  destruct (cmd_advance_version c) as [req|]; [by apply agree_apply_advance|apply agree_warn].
Qed.

(** C12: replicas agree. Two state machines with the same sessions, versions
    and directories that apply the same entries, at whatever times and with
    whatever options, either both fail in the same way or end up with the
    same sessions, versions and directories again. *)
Theorem replicas_agree n l (nows nows' : Entry -> Z) s s' :
  entries_from n (map (fun e => (0, e)) l) -> sm_inv n s' ->
  sessions s = sessions s' -> versionHistory s = versionHistory s' ->
  superRoot (tree s) = superRoot (tree s') ->
  match applyEntries opts (map (fun e => (nows e, e)) l) s,
        applyEntries opts' (map (fun e => (nows' e, e)) l) s' with
  | Ok (_, t), Ok (_, t') =>
      sessions t = sessions t' /\ versionHistory t = versionHistory t' /\
      superRoot (tree t) = superRoot (tree t')
  | Fail f, Fail f' => f = f'
  | _, _ => False
  end.
Proof.
  intros Hl Hinv Hs Hv Ht. pose proof (inv_applied _ _ Hinv) as Hn.
  assert (agree s s') as Hagree by (by eapply agree_intro).
  assert (respects agree (applyEntries opts (map (fun e => (nows e, e)) l))
            (applyEntries opts' (map (fun e => (nows' e, e)) l))) as Hr.
  { clear s s' Hinv Hs Hv Ht Hagree. revert n Hn Hl.
    induction l as [|e l IH]; intros n Hn; [intros _; apply respects_ret|].
    simpl. intros (He & Hty & Hl). apply respects_bind; [|intros _; apply (IH (entry_index e)); [lia|done]].
    unfold applyEntry. simpl. apply respects_bind.
    - destruct (entry_type e); [apply respects_ret|apply agree_apply; lia|done].
    - intros _. apply respects_bind; [|intros _; by apply agree_modify].
      apply respects_modify. intros s s' (Hs & Hv & Ht & Hz). unfold agree. simpl. by rewrite Hs. }
  specialize (Hr s s' Hagree).
  destruct (applyEntries opts _ s) as [[a t]|f], (applyEntries opts' _ s') as [[a' t']|f']; try done.
  by destruct Hr as (_ & ? & ? & ? & _).
Qed.
End Agree.

(** ** Snapshots *)

Lemma insert_versions_append l pre :
  om_sorted (pre ++ l) -> Forall (fun p => 0 <= p.2 <= u16_max) l ->
  insert_versions l pre = Ok (pre ++ l).
Proof.
  revert pre. induction l as [|[k v] l IH]; intros pre Hs Hv; simpl; [by rewrite app_nil_r|].
  inversion Hv as [|? ? Hk Hv']; subst. simpl in Hk. unfold downCast16, u16, u16_max in *.
  rewrite Z.mod_small by lia. rewrite Z.eqb_refl.
  rewrite om_insert_above by (by eapply om_sorted_app_inv).
  rewrite (IH (pre ++ [(k, v)])); [by rewrite <-app_assoc| |done]. by rewrite <-app_assoc.
Qed.

Lemma versions_head n m : versions_ok n m -> exists l, m = (0, 1) :: l.
Proof.
  intros (Hz & Hs & Hf). destruct m as [|[k v] l]; [done|]. exists l.
  simpl in Hz. case_decide as Hk; [congruence|]. exfalso.
  inversion Hs as [|? ? _ Hall]; subst. inversion Hf as [|? ? Hk0 _]; subst. simpl in Hk0.
  rewrite om_lookup_head in Hz; [done|]. eapply Forall_impl; [exact Hall|].
  unfold key_lt. simpl. intros p. lia.
Qed.

Lemma loadVersionHistory_saved n m ss :
  versions_ok n m -> loadVersionHistory (mkSnapshot_Header m ss) = Ok m.
Proof.
  intros Hm. destruct (versions_last _ _ Hm) as (i & v & Hl & _ & Hv).
  destruct (versions_head _ _ Hm) as [l ->]. pose proof (versions_ok_sorted _ _ Hm) as Hs.
  unfold loadVersionHistory. cbn [version_update].
  change (insert_versions ((0, 1) :: l) (om_insert [] 0 1)) with (insert_versions l [(0, 1)]).
  rewrite (insert_versions_append l [(0, 1)]); [|done|].
  - simpl. rewrite Hl. unfold MIN_SUPPORTED_VERSION. rewrite !(proj2 (Z.ltb_ge _ _)) by lia. done.
  - destruct Hm as (_ & _ & Hf). inversion Hf as [|? ? _ Hf']; subst.
    eapply Forall_impl; [exact Hf'|]. unfold MAX_SUPPORTED_VERSION, u16_max. intros p. lia.
Qed.

(** Inserting a list of fresh bindings, whatever else the step does to a bound one. *)
Lemma fold_inserts {A V} (f : gmap Z V -> A -> gmap Z V) (k : A -> Z) (v : A -> V) l m :
  (forall m a, m !! k a = None -> f m a = <[k a := v a]> m) ->
  NoDup (map k l) -> (forall a, a ∈ l -> m !! k a = None) ->
  forall i, fold_left f l m !! i =
    match list_find (fun a => k a = i) l with Some (_, a) => Some (v a) | None => m !! i end.
Proof.
  intros Hf. revert m. induction l as [|a l IH]; intros m Hnd Hm i; simpl; [done|].
  inversion Hnd as [|? ? Hka Hnd']; subst.
  rewrite Hf by (apply Hm; by left). rewrite IH; [|done|].
  - case_decide as Hi.
    + destruct (list_find _ l) as [[j b]|] eqn:Hb.
      * exfalso. apply list_find_Some in Hb as (Hb & Hkb & _). apply Hka.
        apply list_elem_of_fmap. exists b. split; [congruence|]. by eapply list_elem_of_lookup_2.
      * rewrite <-Hi. by rewrite lookup_insert_eq.
    + destruct (list_find _ l) as [[j b]|] eqn:Hb; simpl; [done|]. by rewrite lookup_insert_ne.
  - intros b Hb. rewrite lookup_insert_ne; [apply Hm; by right|]. intros Heq. apply Hka.
    rewrite Heq. apply list_elem_of_fmap. by exists b.
Qed.

Lemma find_map_to_list {V} (m : gmap Z V) i :
  match list_find (fun p => p.1 = i) (map_to_list m) with
  | Some (_, p) => Some p.2 | None => None end = m !! i.
Proof.
  destruct (list_find _ _) as [[j [k x]]|] eqn:Hp.
  - apply list_find_Some in Hp as (Hp & Hk & _). simpl in Hk. subst.
    symmetry. apply elem_of_map_to_list. by eapply list_elem_of_lookup_2.
  - destruct (m !! i) as [x|] eqn:Hi; [|done]. apply elem_of_map_to_list in Hi.
    apply list_find_None in Hp. rewrite Forall_forall in Hp. by apply Hp in Hi.
Qed.

(** Loading the bindings of a map gives the map. *)
Lemma fold_map_to_list {V} (f : gmap Z V -> Z * V -> gmap Z V) m :
  (forall m p, m !! p.1 = None -> f m p = <[p.1 := p.2]> m) ->
  fold_left f (map_to_list m) ∅ = m.
Proof.
  intros Hf. apply map_eq. intros i.
  rewrite (fold_inserts f fst snd); [|done| |done].
  - rewrite <-(find_map_to_list m). by destruct (list_find _ _) as [[j p]|].
  - apply NoDup_fst_map_to_list.
Qed.

Lemma loadSessions_saved s vh :
  loadSessions (mkSnapshot_Header vh (serializeSessions s)) = sessions s.
Proof.
  unfold loadSessions, serializeSessions. simpl.
  assert (forall l m, fold_left loadSession (map serializeSession l) m =
    fold_left (fun m p => loadSession m (serializeSession p)) l m) as ->.
  { intros l. induction l as [|p l IH]; intros m; simpl; [done|]. apply IH. }
  apply fold_map_to_list. intros m [c ses] Hc. unfold loadSession. simpl in *. rewrite Hc. simpl.
  rewrite fold_map_to_list; [by destruct ses|].
  intros m' p Hp. unfold insert_response. by rewrite Hp.
Qed.

Section SnapshotRoundTrip.
Context {W R : Type} `{StreamLaws W R}.
Context `{ProtoBufLaws Snapshot_Header}.
Context `{ProtoBufLaws Snapshot_Directory} `{ProtoBufLaws Snapshot_File}.

Definition header_of (s : StateMachine) : Snapshot_Header :=
  mkSnapshot_Header (serializeVersionHistory s) (serializeSessions s).

Definition snapshot_bytes (s : StateMachine) : bytes :=
  "001"%char :: frame (pb_serialize (header_of s)) ++ dump_bytes (superRoot (tree s)).

(** Every message of the snapshot has a length the stream can frame. *)
Definition savable (s : StateMachine) : Prop :=
  frameable (pb_serialize (header_of s)) /\ dumpable (superRoot (tree s)).

Lemma childSnapshot_writes s w :
  savable s -> writable w ->
  safe (childSnapshot s) (fun _ w' => writable w' /\ written w' = written w ++ snapshot_bytes s) w.
Proof.
  intros [Hh Hd] Hw. apply wp_bind.
  eapply wp_mono; [by apply (writeRaw_law (W:=W) (R:=R))|done|]. intros [] w1 [Hw1 Hb1].
  apply wp_bind. eapply wp_mono; [by apply (writeMessage_law (W:=W) (R:=R))|done|].
  intros [] w2 [Hw2 Hb2]. eapply wp_mono; [by apply dump_writes|done|].
  intros [] w3 [Hw3 Hb3]. split; [done|]. by rewrite Hb3, Hb2, Hb1, <-!app_assoc.
Qed.

Lemma loadSnapshot_reads n s s0 r rest :
  sm_inv n s -> savable s -> readable r -> unread r = snapshot_bytes s ++ rest ->
  safe (loadSnapshot s0)
    (fun s1 r' => s1 = s0 <| versionHistory := versionHistory s |> <| sessions := sessions s |>
                          <| tree := set_superRoot (superRoot (tree s)) (tree s0) |> /\
                  readable r' /\ unread r' = rest) r.
Proof.
  intros Hinv [Hh Hd] Hr Hun. apply wp_bind.
  eapply wp_mono; [by apply (readRaw_law (W:=W) (R:=R) 1)|done|].
  intros b r1 (Hr1 & Hb & Hlen & _). rewrite Hun in Hb, Hlen. simpl in Hlen.
  destruct b as [|c [|c' b]]; try done. simpl in Hb. injection Hb as <- Hun1.
  cbn [negb Ascii.eqb Bool.eqb]. rewrite <-app_assoc in Hun1. symmetry in Hun1.
  apply wp_bind. eapply wp_mono; [by eapply (readMessage_written (header_of s))|done|].
  intros res r2 (-> & Hr2 & Hun2 & _). apply wp_bind, wp_lift.
  unfold header_of, serializeVersionHistory.
  rewrite (loadVersionHistory_saved n) by apply Hinv. rewrite loadSessions_saved.
  apply wp_bind, wp_bind, wp_get, wp_bind.
  eapply wp_mono; [apply (load_dumped (superRoot (tree s)) _ r2); [done|apply Hinv|done|lia|done]|done|].
  intros d r3 (-> & Hr3 & Hun3 & _). apply wp_ret, wp_ret. done.
Qed.
End SnapshotRoundTrip.

(** C13: a snapshot restores the state it was taken of. What the child of
    [takeSnapshot] writes, [loadSnapshot] reads back into any state machine:
    afterwards it has the sessions (with every response), the versions and the
    directories of the one that was saved, and nothing else of it changed. *)
Theorem snapshot_restores `{StreamLaws W R} `{ProtoBufLaws Snapshot_Header}
    `{ProtoBufLaws Snapshot_Directory} `{ProtoBufLaws Snapshot_File} n (s s0 : StateMachine) (w : W) :
  sm_inv n s -> savable s -> writable w ->
  exists w' b, childSnapshot s w = Ok (tt, w') /\ written w' = written w ++ b /\
    forall (r : R) rest, readable r -> unread r = b ++ rest ->
      exists r', readable r' /\ unread r' = rest /\
        loadSnapshot s0 r =
          Ok (s0 <| versionHistory := versionHistory s |> <| sessions := sessions s |>
                 <| tree := set_superRoot (superRoot (tree s)) (tree s0) |>, r').
Proof.
  intros Hinv Hsav Hw.
  pose proof (childSnapshot_writes s w Hsav Hw) as ([] & w' & Hrun & Hw' & Hb)%safe_run.
  exists w', (snapshot_bytes s). split; [done|]. split; [done|]. intros r rest Hr Hun.
  pose proof (loadSnapshot_reads n s s0 r rest Hinv Hsav Hr Hun) as (s1 & r' & Hload & -> & Hr' & Hun')%safe_run.
  by exists r'.
Qed.

(** ** Entries, versions, time *)

(** C24: applying a log entry. From a state machine that applied the log up to
    [n], an entry either breaks the process, exactly when it is not
    [acceptable] (it does not parse, it asks for a version this code does not
    have, or it is a tree request without an operation), or it is applied and
    the invariant holds again: well-formed directories, versions that only grow,
    sessions of past entries whose responses are all outstanding. *)
Theorem apply_preserves opts `{ProtoBuf Command_Request} n now e s :
  sm_inv n s -> n < entry_index e <= u64_max -> entry_type e = Entry.DATA ->
  if acceptable s e then safe (apply opts now e) (fun _ s' => sm_inv (entry_index e) s') s
  else exists f, apply opts now e s = Fail f.
Proof. apply apply_ok. Qed.

(** The version of an index that was applied never changes again. *)
Lemma om_before_append (m : list (Z * Z)) k i v :
  Forall (fun q => key_lt q.1 i) m -> k < i -> om_before (m ++ [(i, v)]) k = om_before m k.
Proof.
  intros Hm Hk. unfold om_before. f_equal. induction Hm as [|[k1 v1] m Hk1 _ IH]; simpl.
  - rewrite decide_True; [done|]. unfold key_lt. simpl. lia.
  - case_decide; [done|]. by rewrite IH.
Qed.

(** An upgrade changes the version of no index below it: [getVersion] of an
    index already applied is stable, and versions never go down. *)
Theorem versions_stable n s index v req s' k :
  sm_inv n s -> n < index -> (exists i, om_last (versionHistory s) = Some (i, v)) ->
  apply_advance_version index v req s = Ok (tt, s') ->
  (0 <= k < index -> om_before (versionHistory s') k = om_before (versionHistory s) k) /\
  exists i' v', om_last (versionHistory s') = Some (i', v') /\ v <= v'.
Proof.
  intros Hinv Hn [i Hl]. unfold apply_advance_version, bind, lift, downCast16.
  destruct (u16 req =? req) eqn:H16; [|done]. apply Z.eqb_eq in H16. rewrite H16.
  assert (Forall (fun q => key_lt q.1 index) (versionHistory s)) as Hbelow.
  { destruct (inv_versions _ _ Hinv) as (_ & _ & Hf). eapply Forall_impl; [exact Hf|].
    unfold key_lt. simpl. intros p. lia. }
  destruct (Z.ltb_spec req v); [intros [= <-]; simpl; split; [done|exists i, v; split; [done|lia]]|].
  destruct (Z.ltb_spec v req); [|intros [= <-]; simpl; split; [done|exists i, v; split; [done|lia]]].
  destruct (MAX_SUPPORTED_VERSION <? req); [done|]. intros [= <-]. simpl.
  rewrite om_insert_above by done. split.
  - intros Hk. apply om_before_append; [done|lia].
  - exists index, req. split; [|lia]. unfold om_last. by rewrite last_snoc.
Qed.

(** [expireSessions] removes exactly the sessions idle for longer than the
    timeout (in cluster time), and changes nothing of the others. *)
Theorem expireSessions_exact ct s c :
  (forall ses, sessions s !! c = Some ses -> 0 <= lastModified ses <= u64_max - sessionTimeoutNanos) ->
  sessions (expireSessions ct s) !! c =
    (ses ← sessions s !! c;
     if decide (lastModified ses + sessionTimeoutNanos < ct) then None else Some ses).
Proof.
  intros Hsmall. apply option_eq. intros ses. rewrite expireSessions_lookup.
  destruct (sessions s !! c) as [ses0|]; simpl; [|by split; [intros [? _]|]].
  specialize (Hsmall ses0 eq_refl).
  assert (u64 (lastModified ses0 + sessionTimeoutNanos) = lastModified ses0 + sessionTimeoutNanos) as Hu.
  { apply u64_small. unfold is_u64, u64_max, sessionTimeoutNanos in *. lia. }
  case_decide; split.
  - intros [[= <-] Hle]. lia.
  - done.
  - by intros [[= <-] _].
  - intros [= <-]. split; [done|lia].
Qed.

(** [setInhibit] then [getInhibit]: snapshots are inhibited for the duration
    asked for, cut off at the end of time when the sum overflows. *)
Theorem setInhibit_saturates now duration s :
  0 <= now <= TimePoint_max -> 0 < duration <= TimePoint_max ->
  safe (setInhibit now duration)
    (fun _ s' => getInhibit now s' = Z.min duration (TimePoint_max - now)) s.
Proof.
  unfold TimePoint_max. intros Hnow Hd. unfold setInhibit.
  rewrite (proj2 (Z.leb_gt _ _)) by lia.
  apply wp_bind, wp_modify, wp_bind, wp_get. simpl.
  assert (i64 (now + duration) = if decide (now + duration <= 9223372036854775807) then now + duration
                                 else now + duration - 18446744073709551616) as Hi.
  { unfold i64. case_decide.
    - rewrite Z.mod_small; lia.
    - rewrite <-(Z.mod_add _ (-1)) by lia. rewrite Z.mod_small; lia. }
  rewrite Hi. unfold getInhibit.
  apply wp_when; [rewrite Z.ltb_lt | rewrite Z.ltb_ge]; case_decide; intros Hlt; try lia.
  - apply wp_modify. simpl. unfold TimePoint_max.
    destruct (Z.leb_spec 9223372036854775807 now); [lia|].
    unfold i64. rewrite Z.mod_small; lia.
  - simpl. destruct (Z.leb_spec (now + duration) now); [lia|].
    unfold i64. rewrite Z.mod_small; lia.
Qed.
