(* ===== verification/StateMachineDemo.v ===== *)
(** * Runs of the state machine

    Concrete commands, entries and states on which the theorems about the
    replicated state machine are instantiated, and two runs of interest: the
    request that breaks every replica, and the effect of expiring sessions.

    A command is the byte the codec below gives it: the codec stands for the
    protobuf library's and serves these runs only. *)

From Stdlib Require Import ZArith Lia Ascii String.
From stdpp Require Import countable base gmap strings list fin_maps sorting.
From S2P Require Import Prelude OrderedMap StringUtil Stream SnapshotFile Consensus Tree TreeSpec TreeSnapshot TreeRPC StateMachine StateMachineSpec.
Local Open Scope string_scope.
Local Open Scope Z_scope.
Local Open Scope list_scope.

(** ** A codec for snapshot headers *)

Module DemoHeader.
Definition PC_Status_nat (s : PC_Status) : nat :=
  match s with
  | PC_OK => 0 | PC_INVALID_ARGUMENT => 1 | PC_LOOKUP_ERROR => 2 | PC_TYPE_ERROR => 3
  | PC_CONDITION_NOT_MET => 4 | PC_TIMEOUT => 5 | PC_SESSION_EXPIRED => 6 | PC_UNKNOWN => 7
  end.
Definition PC_Status_of_nat (n : nat) : PC_Status :=
  nth n [PC_OK; PC_INVALID_ARGUMENT; PC_LOOKUP_ERROR; PC_TYPE_ERROR; PC_CONDITION_NOT_MET;
         PC_TIMEOUT; PC_SESSION_EXPIRED] PC_UNKNOWN.

#[export] Instance PC_Status_countable : Countable PC_Status.
Proof. by refine (inj_countable' PC_Status_nat PC_Status_of_nat _); intros []. Defined.
#[export] Instance ReadWriteTree_Response_countable : Countable ReadWriteTree_Response.
Proof.
  by refine (inj_countable' (fun r => (rwr_status r, rwr_error r))
    (fun p => mkReadWriteTree_Response p.1 p.2) _); intros [].
Defined.
#[export] Instance Command_Response_eq_dec : EqDecision Command_Response.
Proof. solve_decision. Defined.
#[export] Instance Command_Response_countable : Countable Command_Response.
Proof.
  by refine (inj_countable' (fun r => (resp_open_session r, resp_close_session r, resp_tree r, resp_advance_version r))
    (fun p => mkCommand_Response p.1.1.1 p.1.1.2 p.1.2 p.2) _); intros [].
Defined.
#[export] Instance Snapshot_Session_eq_dec : EqDecision Snapshot_Session.
Proof. solve_decision. Defined.
#[export] Instance Snapshot_Session_countable : Countable Snapshot_Session.
Proof.
  by refine (inj_countable' (fun r => (ss_client_id r, ss_last_modified r, ss_first_outstanding_rpc r, ss_rpc_response r))
    (fun p => mkSnapshot_Session p.1.1.1 p.1.1.2 p.1.2 p.2) _); intros [].
Defined.
#[export] Instance Snapshot_Header_eq_dec : EqDecision Snapshot_Header.
Proof. solve_decision. Defined.
#[export] Instance Snapshot_Header_countable : Countable Snapshot_Header.
Proof.
  by refine (inj_countable' (fun r => (version_update r, session r))
    (fun p => mkSnapshot_Header p.1 p.2) _); intros [].
Defined.

#[export] Instance header_codec : ProtoBuf Snapshot_Header := countable_protobuf Snapshot_Header.
#[export] Instance header_codec_laws : ProtoBufLaws Snapshot_Header := countable_protobuf_laws Snapshot_Header.
End DemoHeader.
Import TreeSnapshot.Demo DemoHeader.

(** ** Commands and entries *)

Module DemoCommands.
Definition info : ExactlyOnceRPCInfo := mkExactlyOnceRPCInfo 1 1 1.
Definition mkdir : ReadWriteTree_Request := mkReadWriteTree_Request info None (Some "/a") None None None.
Definition nothing : ReadWriteTree_Request := mkReadWriteTree_Request info None None None None None.
Definition open_command : Command_Request := mkCommand_Request (Some tt) None None None.
Definition mkdir_command : Command_Request := mkCommand_Request None None (Some mkdir) None.
Definition nothing_command : Command_Request := mkCommand_Request None None (Some nothing) None.

#[export] Instance codec : ProtoBuf Command_Request :=
  {| pb_serialize _ := [];
     pb_parse b :=
       match b with
       | [c] => if Ascii.eqb c "o" then Some open_command
                else if Ascii.eqb c "m" then Some mkdir_command
                else if Ascii.eqb c "n" then Some nothing_command else None
       | _ => None
       end |}.

Definition entry (i : Z) (c : ascii) : Entry := mkEntry Entry.DATA i [c] None 0.

(** After the entry that opens the session of client 1. *)
Definition opened : StateMachine :=
  StateMachine_init <| sessions := {[1 := Session_init]} |> <| lastApplied := 1 |>.

Lemma opened_run : applyEntry Options_default 0 (entry 1 "o") StateMachine_init = Ok (tt, opened).
Proof. vm_compute. reflexivity. Qed.

Lemma opened_inv : sm_inv 1 opened.
Proof.
  apply (sm_inv_ext 1 (StateMachine_init <| sessions := {[1 := Session_init]} |>)); [|done..].
  apply sm_inv_sessions; [by apply (sm_inv_mono 0); [apply sm_inv_init|]|].
  intros c ses [<- <-]%lookup_singleton_Some. by split.
Qed.

(** A log that goes on with a repetition of the same command. *)
Definition repetition : list (Z * Entry) := [(0, entry 3 "m")].

Definition commands : M StateMachine unit :=
  applyEntry Options_default 0 (entry 2 "m") ;;; applyEntries Options_default repetition.

(** The state a run ends in. *)
Definition final (m : M StateMachine unit) (s : StateMachine) : StateMachine :=
  match m s with Ok (_, s') => s' | Fail _ => s end.

Lemma final_run m s :
  match m s with Ok _ => true | Fail _ => false end = true -> m s = Ok (tt, final m s).
Proof. unfold final. destruct (m s) as [[[] s']|f]; done. Qed.

Lemma commands_run : commands opened = Ok (tt, final commands opened).
Proof. apply final_run. vm_compute. reflexivity. Qed.

Lemma commands_inv : sm_inv 3 (final commands opened) /\ lastApplied (final commands opened) = 3.
Proof.
  destruct (bind_Ok _ _ _ _ _ commands_run) as ([] & s1 & H1 & Hrest).
  change (bind (applyEntry Options_default 0 (entry 3 "m")) (fun _ => ret tt) s1 = Ok (tt, final commands opened)) in Hrest.
  apply bind_Ok in Hrest as ([] & s2 & H2 & Hret).
  injection Hret as <-.
  destruct (applyEntry_inv Options_default 1 0 (entry 2 "m") _ _ opened_inv ltac:(vm_compute; split; congruence) ltac:(done) H1) as [Hinv1 _].
  exact (applyEntry_inv Options_default 2 0 (entry 3 "m") _ _ Hinv1 ltac:(vm_compute; split; congruence) ltac:(done) H2).
Qed.
End DemoCommands.
Import DemoCommands.

Lemma exactly_once_effect_witness :
  executes (final commands opened) (entry 7 "m") = false /\
  exists r t1, readWriteTreeRPC mkdir (tree opened) = Ok (r, t1) /\
    let on_record := recorded 1 1 (Command_Response_init <| resp_tree := Some r |>) in
    on_record (final commands opened) /\
    post (applyEntry Options_default 5 (entry 7 "m"))
      (fun _ s2 => tree s2 = tree (final commands opened) /\ pruned (final commands opened) s2 /\ on_record s2)
      (final commands opened).
Proof.
  refine (exactly_once_effect Options_default 1 0 (entry 2 "m") opened mkdir_command mkdir repetition
    (final commands opened) 5 (entry 7 "m") mkdir_command mkdir opened_inv eq_refl eq_refl eq_refl _ _
    commands_run eq_refl eq_refl eq_refl eq_refl eq_refl).
  - vm_compute. reflexivity.
  - vm_compute. repeat split; congruence.
Defined.

Lemma response_stable_witness :
  exists r t1 a, readWriteTreeRPC mkdir (tree opened) = Ok (r, t1) /\
    waitForResponse 2 mkdir_command [] (final commands opened) = Ok (Some a, final commands opened) /\
    match sessions (final commands opened) !! 1 with
    | Some ses =>
        if decide (firstOutstandingRPC ses <= 1) then resp_tree a = Some r
        else resp_tree a = Some (mkReadWriteTree_Response (Some PC_SESSION_EXPIRED) None)
    | None => resp_tree a = Some (mkReadWriteTree_Response (Some PC_SESSION_EXPIRED) None)
    end.
Proof.
  refine (response_stable Options_default 1 0 (entry 2 "m") opened mkdir_command mkdir repetition
    (final commands opened) opened_inv eq_refl eq_refl eq_refl _ _ commands_run _ _).
  - vm_compute. reflexivity.
  - vm_compute. repeat split; congruence.
  - destruct commands_inv as [Hinv Hl]. rewrite Hl. exact Hinv.
  - rewrite (proj2 commands_inv). vm_compute. congruence.
Defined.

Lemma replicas_agree_witness :
  let l := [entry 2 "m"; entry 3 "m"] in
  match applyEntries Options_default (map (fun e => (5, e)) l) opened,
        applyEntries Options_default (map (fun e => (8, e)) l) opened with
  | Ok (_, t), Ok (_, t') =>
      sessions t = sessions t' /\ versionHistory t = versionHistory t' /\ superRoot (tree t) = superRoot (tree t')
  | Fail f, Fail f' => f = f'
  | _, _ => False
  end.
Proof.
  refine (replicas_agree Options_default Options_default 1 [entry 2 "m"; entry 3 "m"] (fun _ => 5) (fun _ => 8)
    opened opened _ opened_inv eq_refl eq_refl eq_refl).
  vm_compute. repeat split; congruence.
Defined.

Lemma apply_preserves_witness :
  acceptable opened (entry 2 "m") = true /\
  safe (apply Options_default 0 (entry 2 "m")) (fun _ s' => sm_inv 2 s') opened.
Proof.
  split; [vm_compute; reflexivity|].
  exact (apply_preserves Options_default 1 0 (entry 2 "m") opened opened_inv ltac:(vm_compute; split; congruence) eq_refl).
Defined.

Lemma versions_stable_witness :
  exists s', apply_advance_version 2 1 2 opened = Ok (tt, s') /\
    (0 <= 1 < 2 -> om_before (versionHistory s') 1 = om_before (versionHistory opened) 1) /\
    exists i' v', om_last (versionHistory s') = Some (i', v') /\ 1 <= v'.
Proof.
  exists (final (apply_advance_version 2 1 2) opened).
  assert (apply_advance_version 2 1 2 opened = Ok (tt, final (apply_advance_version 2 1 2) opened)) as Hrun.
  { apply final_run. vm_compute. reflexivity. }
  split; [exact Hrun|].
  refine (versions_stable 1 opened 2 1 2 _ 1 opened_inv _ _ Hrun).
  - vm_compute. reflexivity.
  - exists 0. reflexivity.
Defined.

Lemma expireSessions_exact_witness :
  sessions (expireSessions 3600000000001 opened) !! 1 =
    (ses ← sessions opened !! 1;
     if decide (lastModified ses + sessionTimeoutNanos < 3600000000001) then None else Some ses).
Proof.
  refine (expireSessions_exact 3600000000001 opened 1 _).
  intros ses Hs. vm_compute in Hs. injection Hs as <-. vm_compute. split; congruence.
Defined.

Lemma setInhibit_saturates_witness :
  safe (setInhibit 10 TimePoint_max)
    (fun _ s' => getInhibit 10 s' = Z.min TimePoint_max (TimePoint_max - 10)) StateMachine_init.
Proof. refine (setInhibit_saturates 10 TimePoint_max StateMachine_init _ _); vm_compute; split; congruence. Defined.

(** ** A request without an operation breaks every replica

    The server does not look into a command before it is in the log, and
    applying it panics: so does every server that applies the entry, and again
    after each restart. *)
Example empty_tree_request_panics now :
  apply Options_default now (entry 2 "n") opened = Fail Panicked.
Proof. vm_compute. reflexivity. Qed.

(** ** A snapshot and back *)

(** A session and some files. *)
Definition saved : StateMachine := opened <| tree := demo_tree |>.

Lemma saved_inv : sm_inv 1 saved.
Proof. destruct opened_inv as [I1 I2 I3 I4]. constructor; [done|done|split; [apply demo_wf|reflexivity]|done]. Qed.

Lemma saved_savable : savable (W:=Writer) (R:=Reader) saved.
Proof. split; [vm_compute; reflexivity|apply demo_dumpable]. Qed.

Lemma snapshot_restores_witness :
  exists w' b, childSnapshot saved Demo.demo_writer = Ok (tt, w') /\ staged w' = staged demo_writer ++ b /\
    forall (r : Reader) rest, reader_ok r -> reader_unread r = b ++ rest ->
      exists r', reader_ok r' /\ reader_unread r' = rest /\
        loadSnapshot StateMachine_init r =
          Ok (StateMachine_init <| versionHistory := versionHistory saved |> <| sessions := sessions saved |>
                <| tree := set_superRoot (superRoot (tree saved)) (tree StateMachine_init) |>, r').
Proof.
  exact (snapshot_restores (W:=Writer) (R:=Reader) 1 saved StateMachine_init demo_writer
           saved_inv saved_savable eq_refl).
Defined.
