(* ===== verification/Log.v ===== *)
(** * The Raft log

    The messages of [Protocol/Raft.proto] that are stored in the log, the
    interface [Storage/Log.h] that the consensus module uses, and its in-memory
    implementation [Storage/MemoryLog.cc].

    [LogOps] has a method for each virtual function of [Storage::Log].
    [LogLaws] is the contract: a log is its first index and its entries, and
    each operation has the effect on them that the header's comments promise.
    The consensus module is verified against the contract alone. *)

From Stdlib Require Import ZArith Lia Ascii String.
From stdpp Require Import base gmap strings list fin_maps.
From S2P Require Import Prelude.
Local Open Scope Z_scope.
Local Open Scope list_scope.

(** ** Messages *)

Record Raft_Server : Type := mkRaft_Server { server_id : Z; server_addresses : string }.

Definition Raft_SimpleConfiguration : Type := list Raft_Server.

Record Raft_Configuration : Type := mkRaft_Configuration {
  prev_configuration : Raft_SimpleConfiguration;
  next_configuration : option Raft_SimpleConfiguration
}.

Definition Raft_Configuration_init : Raft_Configuration := mkRaft_Configuration [] None.

(** [next_configuration().servers()]: an unset field reads as the empty message. *)
Definition next_servers (c : Raft_Configuration) : Raft_SimpleConfiguration :=
  default [] (next_configuration c).

Inductive EntryType : Type := CONFIGURATION | DATA | NOOP | UNKNOWN.

#[export] Instance Raft_Server_eq_dec : EqDecision Raft_Server.
Proof. solve_decision. Defined.
#[export] Instance Raft_Configuration_eq_dec : EqDecision Raft_Configuration.
Proof. solve_decision. Defined.
#[export] Instance EntryType_eq_dec : EqDecision EntryType.
Proof. solve_decision. Defined.

Record LogEntry : Type := mkLogEntry {
  term : Z;
  index : option Z;
  cluster_time : Z;
  type : EntryType;
  configuration_ : option Raft_Configuration;
  data : option (list ascii)
}.

#[export] Instance LogEntry_eq_dec : EqDecision LogEntry.
Proof. solve_decision. Defined.
#[export] Instance LogEntry_eta : Eta LogEntry := fun e =>
  mkLogEntry (term e) (index e) (cluster_time e) (type e) (configuration_ e) (data e).

(** [Protocol/RaftLogMetadata.proto]; absent fields are [None]. *)
Record Metadata : Type := mkMetadata { meta_current_term : option Z; meta_voted_for : option Z }.

Definition Metadata_init : Metadata := mkMetadata None None.

#[export] Instance Metadata_eq_dec : EqDecision Metadata.
Proof. solve_decision. Defined.

(** ** The interface *)

(** The members of the base class [Log::Sync]: a flush of everything up to
    [lastIndex]. An implementation may have more of them. *)
Record Sync : Type := mkSync { sync_lastIndex_ : Z; sync_completed : bool }.

(** [log_sync] is the implementation's class of [Sync] objects, [sync_wait] its
    [wait()]. *)
Class LogOps (L : Type) := {
  log_sync : Type;
  sync_lastIndex : log_sync -> Z;
  sync_wait : log_sync -> M L unit;
  append : list LogEntry -> M L (Z * Z);
  getEntry : Z -> L -> outcome LogEntry;
  getLogStartIndex : L -> Z;
  getLastLogIndex : L -> Z;
  getSizeBytes : L -> Z;
  takeSync : M L log_sync;
  syncComplete : log_sync -> M L unit;
  truncatePrefix : Z -> M L unit;
  truncateSuffix : Z -> M L unit;
  updateMetadata : M L unit;
  metadata : L -> Metadata;
  set_metadata : Metadata -> L -> L;
  (* the metadata a restart would read back *)
  saved_metadata : L -> Metadata
}.

(** An implementation may fill in the index of an entry when it appends it, so
    the entries of the abstract log are taken without: the index is the place. *)
Definition stored (e : LogEntry) : LogEntry := e <| index := None |>.

(** The abstract log, and what each operation that returns does to it. *)
Class LogLaws (L : Type) `{LogOps L} := {
  log_ok : L -> Prop;
  log_start : L -> Z;
  log_entries : L -> list LogEntry;
  log_bounds l : log_ok l ->
    1 <= log_start l /\ log_start l + Z.of_nat (length (log_entries l)) <= u64_max;
  getLogStartIndex_law l : log_ok l -> getLogStartIndex l = log_start l;
  getLastLogIndex_law l : log_ok l ->
    getLastLogIndex l = log_start l + Z.of_nat (length (log_entries l)) - 1;
  getEntry_law l i e : log_ok l ->
    log_start l <= i -> log_entries l !! Z.to_nat (i - log_start l) = Some e ->
    exists e', getEntry i l = Ok e' /\ stored e' = e;
  append_law l es : log_ok l -> es <> [] ->
    log_start l + Z.of_nat (length (log_entries l ++ es)) <= u64_max ->
    post (append es) (fun r l' =>
      log_ok l' /\ log_start l' = log_start l /\
      log_entries l' = log_entries l ++ map stored es /\
      r = (log_start l + Z.of_nat (length (log_entries l)),
           log_start l + Z.of_nat (length (log_entries l ++ es)) - 1)) l;
  truncatePrefix_law l i : log_ok l -> i < u64_max ->
    post (truncatePrefix i) (fun _ l' =>
      log_ok l' /\ log_start l' = Z.max i (log_start l) /\
      log_entries l' = drop (Z.to_nat (i - log_start l)) (log_entries l)) l;
  truncateSuffix_law l i : log_ok l -> log_start l - 1 <= i ->
    post (truncateSuffix i) (fun _ l' =>
      log_ok l' /\ log_start l' = log_start l /\
      log_entries l' = take (Z.to_nat (i - log_start l + 1)) (log_entries l)) l;
  updateMetadata_law l : log_ok l ->
    post updateMetadata (fun _ l' =>
      log_ok l' /\ log_start l' = log_start l /\ log_entries l' = log_entries l) l;
  set_metadata_law l m : log_ok l ->
    log_ok (set_metadata m l) /\ log_start (set_metadata m l) = log_start l /\
    log_entries (set_metadata m l) = log_entries l;
  takeSync_law l : log_ok l ->
    post takeSync (fun _ l' =>
      log_ok l' /\ log_start l' = log_start l /\ log_entries l' = log_entries l) l;
  sync_wait_law l s : log_ok l ->
    post (sync_wait s) (fun _ l' =>
      log_ok l' /\ log_start l' = log_start l /\ log_entries l' = log_entries l) l;
  syncComplete_law l s : log_ok l ->
    post (syncComplete s) (fun _ l' =>
      log_ok l' /\ log_start l' = log_start l /\ log_entries l' = log_entries l) l
}.

(** What an operation does to the metadata, whatever the state of the entries:
    nothing in memory; and it writes to disk the metadata in memory, if it
    writes any. [updateMetadata] does write it. *)
Definition same_metadata {L} `{LogOps L} (l l' : L) : Prop :=
  metadata l' = metadata l /\
  (saved_metadata l' = saved_metadata l \/ saved_metadata l' = metadata l).

#[export] Instance same_metadata_preorder {L} `{LogOps L} : PreOrder same_metadata.
Proof.
  split; [by split; [|left]|]. intros l1 l2 l3 [M1 S1] [M2 S2]. split; [congruence|].
  destruct S2 as [->| ->]; [|right; done]. exact S1.
Qed.

Class LogMetadataLaws (L : Type) `{LogOps L} := {
  append_meta l es : post (append es) (fun _ => same_metadata l) l;
  truncatePrefix_meta l i : post (truncatePrefix i) (fun _ => same_metadata l) l;
  truncateSuffix_meta l i : post (truncateSuffix i) (fun _ => same_metadata l) l;
  takeSync_meta l : post takeSync (fun _ => same_metadata l) l;
  sync_wait_meta l s : post (sync_wait s) (fun _ => same_metadata l) l;
  syncComplete_meta l s : post (syncComplete s) (fun _ => same_metadata l) l;
  updateMetadata_meta l : post updateMetadata (fun _ l' =>
    metadata l' = metadata l /\ saved_metadata l' = metadata l) l;
  set_metadata_meta l m : metadata (set_metadata m l) = m
}.

(** The operations that only move the log to the disk leave what can be read of
    it alone, whatever its state. *)
Definition same_view {L} `{LogOps L} (l l' : L) : Prop :=
  getLogStartIndex l' = getLogStartIndex l /\ getLastLogIndex l' = getLastLogIndex l /\
  forall i, getEntry i l' = getEntry i l.

#[export] Instance same_view_preorder {L} `{LogOps L} : PreOrder same_view.
Proof.
  split; [by intros l|]. intros l1 l2 l3 (S1 & L1 & E1) (S2 & L2 & E2).
  split_and!; [congruence..|]. intros i. by rewrite E2.
Qed.

Class LogViewLaws (L : Type) `{LogOps L} := {
  takeSync_view l : post takeSync (fun _ => same_view l) l;
  sync_wait_view y l : post (sync_wait y) (fun _ => same_view l) l;
  syncComplete_view y l : post (syncComplete y) (fun _ => same_view l) l;
  updateMetadata_view l : post updateMetadata (fun _ => same_view l) l;
  set_metadata_view m l : same_view l (set_metadata m l)
}.

(** Only [truncatePrefix] moves the start of the log, and only forwards, to the
    index given at most, whatever the log's state. *)
Class LogStartLaws (L : Type) `{LogOps L} := {
  append_start l es : post (append es) (fun _ l' => getLogStartIndex l' = getLogStartIndex l) l;
  truncatePrefix_start l i : post (truncatePrefix i) (fun _ l' =>
    getLogStartIndex l <= getLogStartIndex l' <= Z.max i (getLogStartIndex l)) l;
  truncateSuffix_start l i : post (truncateSuffix i) (fun _ l' => getLogStartIndex l' = getLogStartIndex l) l;
  takeSync_start l : post takeSync (fun _ l' => getLogStartIndex l' = getLogStartIndex l) l;
  sync_wait_start y l : post (sync_wait y) (fun _ l' => getLogStartIndex l' = getLogStartIndex l) l;
  syncComplete_start y l : post (syncComplete y) (fun _ l' => getLogStartIndex l' = getLogStartIndex l) l;
  updateMetadata_start l : post updateMetadata (fun _ l' => getLogStartIndex l' = getLogStartIndex l) l;
  set_metadata_start m l : getLogStartIndex (set_metadata m l) = getLogStartIndex l
}.

(** ** [MemoryLog] *)

Record MemoryLog : Type := mkMemoryLog {
  startIndex : Z;
  entries : list LogEntry;
  currentSync : Sync;
  mem_metadata : Metadata
}.

#[export] Instance MemoryLog_eta : Eta MemoryLog := fun l =>
  mkMemoryLog (startIndex l) (entries l) (currentSync l) (mem_metadata l).

Definition MemoryLog_init : MemoryLog := mkMemoryLog 1 [] (mkSync 0 false) Metadata_init.

Definition MemoryLog_append (newEntries : list LogEntry) : M MemoryLog (Z * Z) :=
  let! l := get in
  let firstIndex := u64 (startIndex l + Z.of_nat (length (entries l))) in
  let lastIndex := u64 (firstIndex + Z.of_nat (length newEntries) - 1) in
  put (l <| entries := entries l ++ newEntries |>
         <| currentSync := mkSync lastIndex (sync_completed (currentSync l)) |>) ;;;
  ret (firstIndex, lastIndex).

Definition MemoryLog_getEntry (i : Z) (l : MemoryLog) : outcome LogEntry :=
  match entries l !! Z.to_nat (u64 (i - startIndex l)) with
  | Some e => Ok e
  | None => Fail OutOfRange
  end.

Definition MemoryLog_getLastLogIndex (l : MemoryLog) : Z :=
  u64 (startIndex l + Z.of_nat (length (entries l)) - 1).

(** [ByteSize] is the protobuf library's. *)
Definition MemoryLog_getSizeBytes (ByteSize : LogEntry -> Z) (l : MemoryLog) : Z :=
  fold_left (fun size e => u64 (size + ByteSize e)) (entries l) 0.

Definition MemoryLog_takeSync : M MemoryLog Sync :=
  let! l := get in
  put (l <| currentSync := mkSync (MemoryLog_getLastLogIndex l) false |>) ;;;
  ret (currentSync l).

Definition MemoryLog_truncatePrefix (firstIndex : Z) : M MemoryLog unit :=
  modify (fun l =>
    if startIndex l <? firstIndex then
      l <| entries := drop (Z.to_nat (Z.min (u64 (firstIndex - startIndex l))
                                            (Z.of_nat (length (entries l))))) (entries l) |>
        <| startIndex := firstIndex |>
    else l).

Definition MemoryLog_truncateSuffix (lastIndex : Z) : M MemoryLog unit :=
  modify (fun l =>
    if lastIndex <? startIndex l then l <| entries := [] |>
    else if lastIndex <? u64 (startIndex l - 1 + Z.of_nat (length (entries l))) then
      l <| entries := take (Z.to_nat (u64 (lastIndex - startIndex l + 1))) (entries l) |>
    else l).

Definition MemoryLog_updateMetadata : M MemoryLog unit := ret tt.

(** A restart loses everything, so no metadata is stale. *)
Definition MemoryLog_ops (ByteSize : LogEntry -> Z) : LogOps MemoryLog :=
  {| log_sync := Sync;
     sync_lastIndex := sync_lastIndex_;
     sync_wait _ := ret tt;
     append := MemoryLog_append;
     getEntry := MemoryLog_getEntry;
     getLogStartIndex := startIndex;
     getLastLogIndex := MemoryLog_getLastLogIndex;
     getSizeBytes := MemoryLog_getSizeBytes ByteSize;
     takeSync := MemoryLog_takeSync;
     syncComplete _ := ret tt;
     truncatePrefix := MemoryLog_truncatePrefix;
     truncateSuffix := MemoryLog_truncateSuffix;
     updateMetadata := MemoryLog_updateMetadata;
     metadata := mem_metadata;
     set_metadata m l := l <| mem_metadata := m |>;
     saved_metadata := mem_metadata |}.

(** ** [MemoryLog] keeps the contract *)

Definition MemoryLog_ok (l : MemoryLog) : Prop :=
  1 <= startIndex l /\ startIndex l + Z.of_nat (length (entries l)) <= u64_max.

Definition MemoryLog_entries (l : MemoryLog) : list LogEntry := map stored (entries l).

Ltac u64_solve :=
  repeat match goal with |- context [u64 ?x] => rewrite (u64_small x) by (unfold is_u64, u64_max in *; lia) end.

Section MemoryLogLaws.
Context (ByteSize : LogEntry -> Z).

Lemma MemoryLog_getEntry_law l i e :
  MemoryLog_ok l -> startIndex l <= i -> MemoryLog_entries l !! Z.to_nat (i - startIndex l) = Some e ->
  exists e', MemoryLog_getEntry i l = Ok e' /\ stored e' = e.
Proof.
  intros (Hs & Hl) Hi He. unfold MemoryLog_getEntry.
  pose proof (lookup_lt_Some _ _ _ He) as Hlt. unfold MemoryLog_entries in *. rewrite length_map in Hlt.
  apply list_lookup_fmap_Some in He as (e' & -> & He'). u64_solve. rewrite He'. by exists e'.
Qed.

Lemma MemoryLog_append_law l es :
  MemoryLog_ok l -> es <> [] ->
  startIndex l + Z.of_nat (length (MemoryLog_entries l ++ es)) <= u64_max ->
  safe (MemoryLog_append es) (fun r l' =>
    MemoryLog_ok l' /\ startIndex l' = startIndex l /\
    MemoryLog_entries l' = MemoryLog_entries l ++ map stored es /\
    r = (startIndex l + Z.of_nat (length (MemoryLog_entries l)),
         startIndex l + Z.of_nat (length (MemoryLog_entries l ++ es)) - 1)) l.
Proof.
  unfold MemoryLog_entries, MemoryLog_ok. intros (Hs & Hl) Hes Hmax. rewrite length_app, length_map in *.
  assert (0 < Z.of_nat (length es)) by (destruct es; simpl; [done|lia]).
  apply wp_bind, wp_get, wp_bind, wp_put, wp_ret. simpl. rewrite length_app, map_app. u64_solve.
  repeat (split; [done || lia|]). f_equal; lia.
Qed.

Lemma MemoryLog_truncatePrefix_law l i :
  MemoryLog_ok l -> i < u64_max ->
  safe (MemoryLog_truncatePrefix i) (fun _ l' =>
    MemoryLog_ok l' /\ startIndex l' = Z.max i (startIndex l) /\
    MemoryLog_entries l' = drop (Z.to_nat (i - startIndex l)) (MemoryLog_entries l)) l.
Proof.
  unfold MemoryLog_ok, MemoryLog_entries. intros (Hs & Hl) Hi. apply wp_modify.
  destruct (Z.ltb_spec (startIndex l) i).
  - simpl. u64_solve. rewrite length_drop. split; [lia|]. split; [lia|].
    change (map stored) with (fmap (M:=list) stored). rewrite <-fmap_drop. f_equal.
    destruct (Z.min_spec (i - startIndex l) (Z.of_nat (length (entries l)))) as [[_ ->]|[? ->]]; [done|].
    rewrite !drop_ge by lia. done.
  - split; [done|]. split; [lia|]. by replace (Z.to_nat (i - startIndex l)) with 0%nat by lia.
Qed.

Lemma MemoryLog_truncateSuffix_law l i :
  MemoryLog_ok l -> startIndex l - 1 <= i ->
  safe (MemoryLog_truncateSuffix i) (fun _ l' =>
    MemoryLog_ok l' /\ startIndex l' = startIndex l /\
    MemoryLog_entries l' = take (Z.to_nat (i - startIndex l + 1)) (MemoryLog_entries l)) l.
Proof.
  unfold MemoryLog_ok, MemoryLog_entries. intros (Hs & Hl) Hi. apply wp_modify.
  change (map stored) with (fmap (M:=list) stored).
  destruct (Z.ltb_spec i (startIndex l)).
  { simpl. replace (Z.to_nat (i - startIndex l + 1)) with 0%nat by lia. split; [lia|done]. }
  u64_solve. destruct (Z.ltb_spec i (startIndex l - 1 + Z.of_nat (length (entries l)))).
  - simpl. u64_solve. rewrite length_take, fmap_take. replace (i - startIndex l + 1) with (i - startIndex l + 1) by lia.
    split; [lia|done].
  - split; [done|]. rewrite <-fmap_take, take_ge by lia. done.
Qed.

Lemma MemoryLog_last_law l :
  MemoryLog_ok l ->
  MemoryLog_getLastLogIndex l = startIndex l + Z.of_nat (length (MemoryLog_entries l)) - 1.
Proof.
  unfold MemoryLog_ok, MemoryLog_entries. intros (Hs & Hl). unfold MemoryLog_getLastLogIndex.
  rewrite length_map. by u64_solve.
Qed.

Definition MemoryLog_laws : @LogLaws MemoryLog (MemoryLog_ops ByteSize).
Proof.
  refine (@Build_LogLaws _ (MemoryLog_ops ByteSize) MemoryLog_ok startIndex MemoryLog_entries
    _ _ MemoryLog_last_law MemoryLog_getEntry_law
    (fun l es H1 H2 H3 => safe_post _ _ _ (MemoryLog_append_law l es H1 H2 H3))
    (fun l i H1 H2 => safe_post _ _ _ (MemoryLog_truncatePrefix_law l i H1 H2))
    (fun l i H1 H2 => safe_post _ _ _ (MemoryLog_truncateSuffix_law l i H1 H2)) _ _ _ _ _).
  - intros l. unfold MemoryLog_ok, MemoryLog_entries. rewrite length_map. lia.
  - done.
  - intros l Hl. by apply wp_ret.
  - done.
  - intros l Hl. by apply wp_bind, wp_get, wp_bind, wp_put, wp_ret.
  - intros l sync Hl. by apply wp_ret.
  - intros l sync Hl. by apply wp_ret.
Defined.
End MemoryLogLaws.

Lemma MemoryLog_view_laws ByteSize : @LogViewLaws MemoryLog (MemoryLog_ops ByteSize).
Proof. constructor; intros; unfold post, wp; simpl; by repeat split. Qed.

Lemma MemoryLog_start_laws ByteSize : @LogStartLaws MemoryLog (MemoryLog_ops ByteSize).
Proof.
  constructor; intros; unfold post, wp; simpl; try done.
  - destruct (Z.ltb_spec (startIndex l) i); simpl; lia.
  - by repeat case_match.
Qed.

Lemma MemoryLog_metadata_laws ByteSize : @LogMetadataLaws MemoryLog (MemoryLog_ops ByteSize).
Proof.
  assert (forall l l' : MemoryLog, mem_metadata l' = mem_metadata l ->
    @same_metadata _ (MemoryLog_ops ByteSize) l l') as Hsame by (intros l l' E; split; [|left]; exact E).
  constructor; try (intros; apply Hsame; reflexivity); try done.
  - intros l i. apply wp_modify, Hsame. by destruct (startIndex l <? i).
  - intros l i. apply wp_modify, Hsame. destruct (i <? startIndex l); [done|]. by destruct (i <? _).
Qed.
