(* ===== verification/ClientProto.v ===== *)
(** * Messages between clients and servers

    The messages of [Protocol/Client.proto] that are not about the tree or the
    state machine (those are in [TreeRPC] and [StateMachine]): service-specific
    errors, the recipient check and the cluster's configuration. A [required]
    field is a field, an [optional] one an [option]. *)

From Stdlib Require Import ZArith Ascii String.
From stdpp Require Import base strings list.
From S2P Require Import Prelude Log.
Local Open Scope Z_scope.

(** [Error.Code]; a number that is neither reads as [UNKNOWN]. *)
Module ErrorCode.
Inductive Code : Type := UNKNOWN | NOT_LEADER.
End ErrorCode.

Record PC_Error : Type := mkPC_Error {
  error_code : ErrorCode.Code;
  leader_hint : option string
}.

Record VerifyRecipient_Request : Type := mkVerifyRecipient_Request {
  vr_cluster_uuid : option string;
  vr_server_id : option Z
}.

Record VerifyRecipient_Response : Type := mkVerifyRecipient_Response {
  vrr_cluster_uuid : option string;
  vrr_server_id : option Z;
  vrr_ok : option bool;
  vrr_error : option string
}.

Definition VerifyRecipient_Response_init : VerifyRecipient_Response :=
  mkVerifyRecipient_Response None None None None.
#[export] Instance VerifyRecipient_Response_eta : Eta VerifyRecipient_Response := fun r =>
  mkVerifyRecipient_Response (vrr_cluster_uuid r) (vrr_server_id r) (vrr_ok r) (vrr_error r).

(** [Protocol::Client::Server] has the two fields of [Protocol::Raft::Server]. *)
Record GetConfiguration_Response : Type := mkGetConfiguration_Response {
  gc_id : Z;
  gc_servers : list Raft_Server
}.

Record SetConfiguration_Request : Type := mkSetConfiguration_Request {
  old_id : Z;
  new_servers : list Raft_Server
}.

(** The three fields are mutually exclusive. *)
Inductive SetConfiguration_Response : Type :=
| SC_unset
| SC_ok
| SC_configuration_changed (error : string)
| SC_configuration_bad (bad_servers : list Raft_Server).
