(* ===== verification/Disk.v ===== *)
(** * The file system

    [Storage/FilesystemUtil.cc] wraps the system calls on files; an error the
    wrappers do not expect ends the process ([PANIC]). Here they act on a model
    of one directory: names refer to inodes, inodes hold bytes, and an open file
    descriptor refers to an inode and has an offset. A name may be removed or
    renamed while a descriptor is open; the inode stays.

    A write reaches the file whole. Errors of the device (no space, I/O errors)
    are not modelled: they end the process. [fsync] has no effect on what the
    process reads. *)

From Stdlib Require Import ZArith Lia Ascii String.
From stdpp Require Import base gmap strings list fin_maps.
From S2P Require Import Prelude OrderedMap StringUtil Stream SnapshotFile.
Local Open Scope Z_scope.
Local Open Scope list_scope.

Record Disk : Type := mkDisk {
  names : gmap string Z;
  inodes : gmap Z bytes;
  fds : gmap Z (Z * Z);
  (* above every inode and descriptor handed out so far *)
  next_id : Z
}.

#[export] Instance Disk_eta : Eta Disk := fun d => mkDisk (names d) (inodes d) (fds d) (next_id d).

(** The descriptor of the directory itself. *)
Definition dir_fd : Z := 3.

Definition Disk_init : Disk := mkDisk ∅ ∅ ∅ 4.

Definition zeros (n : nat) : bytes := replicate n Ascii.zero.

(** The contents of a file under a name, the empty file if there is none. *)
Definition contents_of (d : Disk) (name : string) : option bytes :=
  i ← names d !! name; inodes d !! i.

(** [O_CREAT], [O_EXCL] and [O_TRUNC]; the access mode does not matter here. *)
Record open_flags : Type := mkopen_flags { O_CREAT : bool; O_EXCL : bool; O_TRUNC : bool }.
Definition O_RDWR : open_flags := mkopen_flags false false false.

(** [openat(2)]: [None] is a failure with [ENOENT] or [EEXIST]. *)
Definition openat (child : string) (flags : open_flags) : M Disk (option Z) :=
  let! d := get in
  match names d !! child with
  | Some i =>
      if O_CREAT flags && O_EXCL flags then ret None else
      put (mkDisk (names d) (if O_TRUNC flags then <[i := []]> (inodes d) else inodes d)
             (<[next_id d := (i, 0)]> (fds d)) (next_id d + 1)) ;;;
      ret (Some (next_id d))
  | None =>
      if negb (O_CREAT flags) then ret None else
      put (mkDisk (<[child := next_id d]> (names d)) (<[next_id d := []]> (inodes d))
             (<[next_id d + 1 := (next_id d, 0)]> (fds d)) (next_id d + 2)) ;;;
      ret (Some (next_id d + 1))
  end.

Definition tryOpenFile (child : string) (flags : open_flags) : M Disk (option Z) :=
  assert_ (negb (startsWith child "/")) ;;; openat child flags.

Definition openFile (child : string) (flags : open_flags) : M Disk Z :=
  assert_ (negb (startsWith child "/")) ;;;
  let! fd := openat child flags in
  match fd with Some fd => ret fd | None => fail Panicked end.

(** [File::close] of an open file. *)
Definition close (fd : Z) : M Disk unit :=
  if fd <? 0 then ret tt else
  let! d := get in
  match fds d !! fd with
  | Some _ => put (d <| fds := delete fd (fds d) |>)
  | None => fail Panicked
  end.

(** The inode of a descriptor, its contents and the offset. *)
Definition the_file (fd : Z) : M Disk (Z * bytes * Z) :=
  let! d := get in
  match fds d !! fd with
  | Some (i, pos) => ret (i, default ([] : bytes) (inodes d !! i), pos)
  | None => fail Panicked
  end.

(** Replaces the bytes of [c] from offset [pos] on; a hole reads as zeros. *)
Definition overwrite (c : bytes) (pos : nat) (data : bytes) : bytes :=
  take pos c ++ zeros (pos - length c) ++ data ++ drop (pos + length data) c.

(** [write], all of it, at the offset of the descriptor. *)
Definition write (fd : Z) (data : bytes) : M Disk unit :=
  let! (f, pos) := the_file fd in
  let '(i, c) := f in
  modify (fun d => d <| inodes := <[i := overwrite c (Z.to_nat pos) data]> (inodes d) |>
                     <| fds := <[fd := (i, pos + Z.of_nat (length data))]> (fds d) |>).

(** [downCast<off_t>] of a length: it must be positive as a signed number. *)
Definition downCast_off_t (x : Z) : outcome Z :=
  if x <=? TimePoint_max then Ok x else Fail AssertFailed.

(** [ftruncate]: cuts the file off or fills it up with zeros. *)
Definition truncate (fd : Z) (size : Z) : M Disk unit :=
  let! size := lift (downCast_off_t size) in
  let! (f, pos) := the_file fd in
  let '(i, c) := f in
  let n := Z.to_nat size in
  modify (fun d => d <| inodes := <[i := take n c ++ zeros (n - length c)]> (inodes d) |>).

(** [posix_fallocate(fd, 0, bytes)]: the file is at least that long. *)
Definition allocate (fd : Z) (size : Z) : M Disk unit :=
  let! size := lift (downCast_off_t size) in
  let! (f, pos) := the_file fd in
  let '(i, c) := f in
  modify (fun d => d <| inodes := <[i := c ++ zeros (Z.to_nat size - length c)]> (inodes d) |>).

(** A file that does not exist is removed already. *)
Definition removeFile (path : string) : M Disk unit :=
  assert_ (negb (startsWith path "/")) ;;;
  modify (fun d => d <| names := delete path (names d) |>).

Definition rename (oldChild newChild : string) : M Disk unit :=
  assert_ (negb (startsWith oldChild "/")) ;;;
  assert_ (negb (startsWith newChild "/")) ;;;
  let! d := get in
  match names d !! oldChild with
  | Some i => put (d <| names := <[newChild := i]> (delete oldChild (names d)) |>)
  | None => fail Panicked
  end.

(** [fsync], [fdatasync]: the descriptor must be open, or the directory's. *)
Definition fsync (fd : Z) : M Disk unit :=
  let! d := get in
  if (fd =? dir_fd) || bool_decide (is_Some (fds d !! fd)) then ret tt else fail Panicked.

(** [FileContents(file)]: the bytes of the file as a mapping sees them. *)
Definition map_file (fd : Z) : M Disk bytes :=
  let! (f, pos) := the_file fd in ret f.2.

(** [std::sort(ls(dir))] *)
Definition ls_sorted (d : Disk) : list string :=
  map fst (fold_right (fun n m => om_set m n tt) [] (map fst (map_to_list (names d)))).

(** A new process: no file is open. *)
Definition reboot (d : Disk) : Disk := d <| fds := ∅ |>.
