(* ===== verification/DiskSpec.v ===== *)
(** * Files, as a program sees them

    What the operations of [Disk.v] do to the contents of the files and to the
    descriptors that are open: a file that an operation does not name keeps its
    contents, and so does every other descriptor. *)

From Stdlib Require Import ZArith Lia Ascii String.
From stdpp Require Import base functions gmap strings list fin_maps.
From S2P Require Import Prelude OrderedMap StringUtil Stream SnapshotFile Disk.
Local Open Scope Z_scope.
Local Open Scope list_scope.

(** No two names share an inode, and numbers handed out are not used again. *)
Record disk_ok (d : Disk) : Prop := {
  names_inj a b i : names d !! a = Some i -> names d !! b = Some i -> a = b;
  names_used a i : names d !! a = Some i -> i < next_id d /\ is_Some (inodes d !! i);
  fds_used f i p : fds d !! f = Some (i, p) -> f < next_id d /\ i < next_id d /\ is_Some (inodes d !! i);
  fds_pos f i p : fds d !! f = Some (i, p) -> dir_fd < f /\ 0 <= p;
  ids_pos : dir_fd < next_id d
}.

(** [fd] is open on the file [name] at the offset [p]. *)
Definition handle (d : Disk) (fd : Z) (name : string) (p : Z) : Prop :=
  exists i, fds d !! fd = Some (i, p) /\ names d !! name = Some i.

(** No descriptor is open on [name]. *)
Definition unopened (d : Disk) (name : string) : Prop := forall f p, ~ handle d f name p.

Lemma handle_name d fd n n' p p' : disk_ok d -> handle d fd n p -> handle d fd n' p' -> n' = n /\ p' = p.
Proof.
  intros Hd (i & Hf & Hn) (j & Hf' & Hn'). rewrite Hf in Hf'. injection Hf' as <- <-. split; [|done].
  by eapply (names_inj _ Hd).
Qed.

Lemma Disk_init_ok : disk_ok Disk_init.
Proof. by split. Qed.

Lemma contents_name d name : disk_ok d -> is_Some (contents_of d name) <-> is_Some (names d !! name).
Proof.
  intros Hd. unfold contents_of. destruct (names d !! name) as [i|] eqn:Hn; simpl; [|done].
  destruct (names_used _ Hd _ _ Hn) as [_ Hi]. split; [done|]. intros _. exact Hi.
Qed.

Lemma handle_contents d fd name p : disk_ok d -> handle d fd name p -> is_Some (contents_of d name).
Proof. intros Hd (i & _ & Hn). apply contents_name; [done|]. by rewrite Hn. Qed.

Lemma handle_fresh d fd name p : disk_ok d -> handle d fd name p -> dir_fd < fd < next_id d.
Proof.
  intros Hd (i & Hf & _). destruct (fds_used _ Hd _ _ _ Hf) as [? _].
  by destruct (fds_pos _ Hd _ _ _ Hf).
Qed.

(** The descriptors other than [fd] are as before, for the files not in [N]. *)
Definition handles_kept (fd : Z) (N : list string) (d d' : Disk) : Prop :=
  next_id d <= next_id d' /\
  (forall f, f <> fd -> fds d' !! f = fds d !! f) /\
  forall f n p, f <> fd -> n ∉ N -> handle d' f n p <-> handle d f n p.

(** The contents of the file [i] replaced. *)
Lemma contents_of_update d name i c ns fs k :
  disk_ok d -> names d !! name = Some i -> ns = names d ->
  forall n, contents_of (mkDisk ns (<[i := c]> (inodes d)) fs k) n = <[name := Some c]> (contents_of d) n.
Proof.
  intros Hd Hname -> n. unfold contents_of. simpl. destruct (decide (n = name)) as [->|Hne].
  - rewrite fn_lookup_insert, Hname. simpl. by rewrite lookup_insert_eq.
  - rewrite fn_lookup_insert_ne by done. destruct (names d !! n) as [j|] eqn:Hn; simpl; [|done].
    rewrite lookup_insert_ne; [done|]. intros <-. destruct Hne. by eapply names_inj.
Qed.

(** Writing to an open file: its inode and its offset change. *)
Lemma disk_ok_update d fd i p p' c :
  disk_ok d -> fds d !! fd = Some (i, p) -> 0 <= p' ->
  disk_ok (mkDisk (names d) (<[i := c]> (inodes d)) (<[fd := (i, p')]> (fds d)) (next_id d)).
Proof.
  intros [H1 H2 H3 H4 H5] Hfd Hp. destruct (H3 _ _ _ Hfd) as (Hf & Hi & _). split; simpl; [done|..|done].
  - intros a j Ha. destruct (H2 _ _ Ha) as [? Hj]. split; [done|].
    destruct (decide (i = j)) as [->|]; [by rewrite lookup_insert_eq; eexists|by rewrite lookup_insert_ne].
  - intros f j q. destruct (decide (f = fd)) as [->|].
    + rewrite lookup_insert_eq. intros [= <- <-]. split_and!; [done..|]. by rewrite lookup_insert_eq; eexists.
    + rewrite lookup_insert_ne by done. intros Hq. destruct (H3 _ _ _ Hq) as (? & ? & ?). split_and!; [done..|].
      destruct (decide (i = j)) as [->|]; [by rewrite lookup_insert_eq; eexists|by rewrite lookup_insert_ne].
  - intros f j q. destruct (decide (f = fd)) as [->|].
    + rewrite lookup_insert_eq. intros [= <- <-]. by destruct (H4 _ _ _ Hfd).
    + rewrite lookup_insert_ne by done. apply H4.
Qed.

(** A file that nobody has open stays so when another file is opened. *)
Lemma unopened_kept fd n p N d d' name :
  disk_ok d' -> handle d' fd n p -> n <> name -> name ∉ N -> handles_kept fd N d d' -> unopened d name -> unopened d' name.
Proof.
  intros Hd Hh Hne HN (_ & _ & Hk) Hu f q Hf. destruct (decide (f = fd)) as [->|Hfd].
  - by destruct (handle_name _ _ _ _ _ _ Hd Hh Hf).
  - apply (Hk f name q Hfd HN) in Hf. by apply Hu in Hf.
Qed.

Lemma unopened_closed fd N d d' name :
  fds d' !! fd = None -> name ∉ N -> handles_kept fd N d d' -> unopened d name -> unopened d' name.
Proof.
  intros Hfd HN (_ & _ & Hk) Hu f q Hf. destruct (decide (f = fd)) as [->|Hne].
  - destruct Hf as (i & Hf & _). congruence.
  - apply (Hk f name q Hne HN) in Hf. by apply Hu in Hf.
Qed.

Section Ops.
Context (E : fault -> Prop).

Lemma wp_the_file fd name p c d (Q : Z * bytes * Z -> Disk -> Prop) :
  handle d fd name p -> contents_of d name = Some c ->
  (forall i, fds d !! fd = Some (i, p) -> names d !! name = Some i -> Q (i, c, p) d) ->
  wp E (the_file fd) Q d.
Proof.
  intros (i & Hf & Hn) Hc HQ. apply wp_bind, wp_get. rewrite Hf. apply wp_ret.
  unfold contents_of in Hc. rewrite Hn in Hc. simpl in Hc. rewrite Hc. by apply HQ.
Qed.

Lemma wp_write fd name p c data d Q :
  disk_ok d -> handle d fd name p -> contents_of d name = Some c ->
  (forall d', disk_ok d' ->
     (forall n, contents_of d' n = <[name := Some (overwrite c (Z.to_nat p) data)]> (contents_of d) n) ->
     handle d' fd name (p + Z.of_nat (length data)) -> handles_kept fd [] d d' -> Q tt d') ->
  wp E (write fd data) Q d.
Proof.
  intros Hd Hh Hc HQ. apply wp_bind. eapply wp_the_file; [done..|]. intros i Hf Hn. apply wp_modify.
  apply HQ; unfold set_field; simpl.
  - eapply disk_ok_update; [done..|]. destruct (fds_pos _ Hd _ _ _ Hf). lia.
  - by apply contents_of_update.
  - exists i. simpl. by rewrite lookup_insert_eq.
  - split; [done|]. split; [intros f Hne; simpl; by rewrite lookup_insert_ne|].
    intros f n q Hne _. unfold handle. simpl. by rewrite lookup_insert_ne.
Qed.

(** [ftruncate] and [posix_fallocate] leave the offset. *)
Lemma wp_change_contents fd name p c d size (F : bytes -> bytes) Q (m : M Disk unit) :
  m = (let! size := lift (downCast_off_t size) in
       let! (f, pos) := the_file fd in
       let '(i, c) := f in modify (fun d => d <| inodes := <[i := F c]> (inodes d) |>)) ->
  disk_ok d -> handle d fd name p -> contents_of d name = Some c -> size <= TimePoint_max ->
  (forall d', disk_ok d' ->
     (forall n, contents_of d' n = <[name := Some (F c)]> (contents_of d) n) ->
     handle d' fd name p -> handles_kept fd [] d d' -> Q tt d') ->
  wp E m Q d.
Proof.
  intros -> Hd Hh Hc Hsize HQ. apply wp_bind, wp_lift. unfold downCast_off_t.
  rewrite (proj2 (Z.leb_le _ _)) by done. apply wp_bind. eapply wp_the_file; [done..|]. intros i Hf Hn.
  apply wp_modify. unfold set_field. simpl.
  assert (disk_ok (mkDisk (names d) (<[i := F c]> (inodes d)) (fds d) (next_id d))) as Hd'.
  { rewrite <-(insert_id (fds d) fd (i, p)) by done. eapply disk_ok_update; [done..|].
    by destruct (fds_pos _ Hd _ _ _ Hf). }
  apply HQ; [done|by apply contents_of_update|by exists i|].
  split; [done|]. split; [done|]. by intros f n q _ _.
Qed.

Lemma wp_truncate fd name p c size d Q :
  disk_ok d -> handle d fd name p -> contents_of d name = Some c -> size <= TimePoint_max ->
  (forall d', disk_ok d' ->
     (forall n, contents_of d' n =
        <[name := Some (take (Z.to_nat size) c ++ zeros (Z.to_nat size - length c))]> (contents_of d) n) ->
     handle d' fd name p -> handles_kept fd [] d d' -> Q tt d') ->
  wp E (truncate fd size) Q d.
Proof.
  intros Hd Hh Hc Hsize.
  eapply (wp_change_contents fd name p c d size (fun c => take (Z.to_nat size) c ++ zeros (Z.to_nat size - length c)));
    [|done..].
  unfold truncate, downCast_off_t. by rewrite (proj2 (Z.leb_le _ _)) by done.
Qed.

Lemma wp_allocate fd name p c size d Q :
  disk_ok d -> handle d fd name p -> contents_of d name = Some c -> size <= TimePoint_max ->
  (forall d', disk_ok d' ->
     (forall n, contents_of d' n = <[name := Some (c ++ zeros (Z.to_nat size - length c))]> (contents_of d) n) ->
     handle d' fd name p -> handles_kept fd [] d d' -> Q tt d') ->
  wp E (allocate fd size) Q d.
Proof.
  intros Hd Hh Hc Hsize.
  eapply (wp_change_contents fd name p c d size (fun c => c ++ zeros (Z.to_nat size - length c))); [|done..].
  unfold allocate, downCast_off_t. by rewrite (proj2 (Z.leb_le _ _)) by done.
Qed.

Lemma wp_map_file fd name p c d Q :
  handle d fd name p -> contents_of d name = Some c -> Q c d -> wp E (map_file fd) Q d.
Proof. intros Hh Hc HQ. apply wp_bind. eapply wp_the_file; [done..|]. intros i _ _. by apply wp_ret. Qed.

Lemma wp_fsync fd name p d Q : handle d fd name p -> Q tt d -> wp E (fsync fd) Q d.
Proof.
  intros (i & Hf & _) HQ. apply wp_bind, wp_get. rewrite bool_decide_true by by eexists.
  rewrite orb_true_r. by apply wp_ret.
Qed.

Lemma wp_fsync_dir d Q : Q tt d -> wp E (fsync dir_fd) Q d.
Proof. intros HQ. apply wp_bind, wp_get. by apply wp_ret. Qed.

(** A new descriptor at offset 0; the file may be new. *)
Lemma disk_ok_open d i fs :
  disk_ok d -> is_Some (inodes d !! i) -> i < next_id d -> fs = <[next_id d := (i, 0)]> (fds d) ->
  disk_ok (mkDisk (names d) (inodes d) fs (next_id d + 1)).
Proof.
  intros [H1 H2 H3 H4 H5] Hi Hlt ->. split; simpl; [done|..|lia].
  - intros a j Ha. destruct (H2 _ _ Ha). split; [lia|done].
  - intros f j q. destruct (decide (f = next_id d)) as [->|].
    + rewrite lookup_insert_eq. intros [= <- <-]. split_and!; [lia|lia|done].
    + rewrite lookup_insert_ne by done. intros Hq. destruct (H3 _ _ _ Hq) as (? & ? & ?). split_and!; [lia|lia|done].
  - intros f j q. destruct (decide (f = next_id d)) as [->|].
    + rewrite lookup_insert_eq. intros [= <- <-]. lia.
    + rewrite lookup_insert_ne by done. apply H4.
Qed.

Lemma handles_open d ns ins (fd i : Z) (name : string) (k : Z) :
  disk_ok d -> next_id d <= k -> next_id d <= fd -> names d !! name = Some i -> ns = names d ->
  handle (mkDisk ns ins (<[fd := (i, 0)]> (fds d)) k) fd name 0 /\
  handles_kept fd [] d (mkDisk ns ins (<[fd := (i, 0)]> (fds d)) k).
Proof.
  intros Hd Hk Hfd Hn ->. split; [exists i; simpl; by rewrite lookup_insert_eq|].
  split; [done|]. split; [intros f Hne; simpl; by rewrite lookup_insert_ne|].
  intros f n q Hne _. unfold handle. simpl. by rewrite lookup_insert_ne.
Qed.

(** Opening a file that exists, for reading and writing. *)
Lemma wp_openat_existing name c d Q :
  disk_ok d -> contents_of d name = Some c ->
  (forall fd d', disk_ok d' -> next_id d <= fd -> (forall n, contents_of d' n = contents_of d n) ->
     handle d' fd name 0 -> handles_kept fd [] d d' -> Q (Some fd) d') ->
  wp E (openat name O_RDWR) Q d.
Proof.
  intros Hd Hc HQ. apply wp_bind, wp_get. unfold contents_of in Hc.
  destruct (names d !! name) as [i|] eqn:Hn; [|done]. simpl in Hc. cbn [O_CREAT O_EXCL O_TRUNC O_RDWR andb].
  apply wp_bind, wp_put, wp_ret. destruct (names_used _ Hd _ _ Hn) as [Hi _].
  destruct (handles_open d (names d) (inodes d) (next_id d) i name (next_id d + 1)) as [Hh Hk]; [done|lia|lia|done..|].
  apply HQ; [by eapply disk_ok_open|lia|done|exact Hh|exact Hk].
Qed.

Lemma wp_openFile_existing name c d Q :
  disk_ok d -> startsWith name "/" = false -> contents_of d name = Some c ->
  (forall fd d', disk_ok d' -> next_id d <= fd -> (forall n, contents_of d' n = contents_of d n) ->
     handle d' fd name 0 -> handles_kept fd [] d d' -> Q fd d') ->
  wp E (openFile name O_RDWR) Q d.
Proof.
  intros Hd Hrel Hc HQ. apply wp_bind, wp_assert; [by rewrite Hrel|intros _].
  apply wp_bind. eapply wp_openat_existing; [done..|]. intros fd d' Hd' Hfd Hc' Hh Hk. apply wp_ret. by apply HQ.
Qed.

(** The disk with a new file and a descriptor open on it. *)
Definition add_file (d : Disk) (name : string) (c : bytes) (p : Z) : Disk :=
  mkDisk (<[name := next_id d]> (names d)) (<[next_id d := c]> (inodes d))
    (<[next_id d + 1 := (next_id d, p)]> (fds d)) (next_id d + 2).

Lemma add_file_spec d name c p :
  disk_ok d -> names d !! name = None -> 0 <= p ->
  let d' := add_file d name c p in
  disk_ok d' /\ (forall n, contents_of d' n = <[name := Some c]> (contents_of d) n) /\
  handle d' (next_id d + 1) name p /\ handles_kept (next_id d + 1) [] d d'.
Proof.
  intros Hd Hn Hp d'. destruct Hd as [H1 H2 H3 H4 H5]. split_and!.
  - split; simpl.
    + intros a b i. destruct (decide (a = name)) as [->|], (decide (b = name)) as [->|]; try done;
        rewrite ?lookup_insert_eq, ?lookup_insert_ne by done; [..|by apply H1].
      * intros [= <-] Hb. destruct (H2 _ _ Hb). lia.
      * intros Ha [= <-]. destruct (H2 _ _ Ha). lia.
    + intros a i. destruct (decide (a = name)) as [->|].
      * rewrite lookup_insert_eq. intros [= <-]. split; [lia|]. by rewrite lookup_insert_eq; eexists.
      * rewrite lookup_insert_ne by done. intros Ha. destruct (H2 _ _ Ha) as [? Hi]. split; [lia|].
        by rewrite lookup_insert_ne by lia.
    + intros f i q. destruct (decide (f = next_id d + 1)) as [->|].
      * rewrite lookup_insert_eq. intros [= <- <-]. split_and!; [lia|lia|]. by rewrite lookup_insert_eq; eexists.
      * rewrite lookup_insert_ne by done. intros Hq. destruct (H3 _ _ _ Hq) as (? & ? & ?). split_and!; [lia|lia|].
        by rewrite lookup_insert_ne by lia.
    + intros f i q. destruct (decide (f = next_id d + 1)) as [->|].
      * rewrite lookup_insert_eq. intros [= <- <-]. lia.
      * rewrite lookup_insert_ne by done. apply H4.
    + lia.
  - intros n. unfold contents_of. simpl. destruct (decide (n = name)) as [->|].
    + rewrite fn_lookup_insert, lookup_insert_eq. simpl. by rewrite lookup_insert_eq.
    + rewrite fn_lookup_insert_ne, lookup_insert_ne by done. destruct (names d !! n) as [j|] eqn:Hj; simpl; [|done].
      destruct (H2 _ _ Hj). by rewrite lookup_insert_ne by lia.
  - exists (next_id d). simpl. by rewrite !lookup_insert_eq.
  - split; [simpl; lia|]. split; [intros f Hne; simpl; by rewrite lookup_insert_ne|].
    intros f n q Hne _. unfold handle. simpl. rewrite lookup_insert_ne by done.
    destruct (decide (n = name)) as [->|]; [|by rewrite lookup_insert_ne]. rewrite lookup_insert_eq. split.
    + intros (j & Hf & [= <-]). destruct (H3 _ _ _ Hf). lia.
    + intros (j & _ & Hj). congruence.
Qed.

(** [O_CREAT] where there is no such file. *)
Lemma openFile_new d name flags :
  startsWith name "/" = false -> names d !! name = None -> O_CREAT flags = true ->
  openFile name flags d = Ok (next_id d + 1, add_file d name [] 0).
Proof.
  intros Hrel Hn Hf. unfold openFile, openat, bind, assert_, get, put, ret. rewrite Hrel. cbn [negb].
  rewrite Hn, Hf. done.
Qed.

(** Opened and closed again: the descriptors are as before. *)
Lemma fds_restored fd d d' :
  fds d !! fd = None -> fds d' !! fd = None -> (forall f, f <> fd -> fds d' !! f = fds d !! f) -> fds d' = fds d.
Proof.
  intros H1 H2 Hk. apply map_eq. intros f. destruct (decide (f = fd)) as [->|Hne]; [congruence|by apply Hk].
Qed.

Lemma wp_close fd x d Q :
  disk_ok d -> fds d !! fd = Some x ->
  (forall d', disk_ok d' -> (forall n, contents_of d' n = contents_of d n) -> handles_kept fd [] d d' ->
     fds d' !! fd = None -> Q tt d') ->
  wp E (close fd) Q d.
Proof.
  intros Hd Hf HQ. destruct x as [i p]. destruct (fds_pos _ Hd _ _ _ Hf) as [Hfd _]. unfold dir_fd in Hfd.
  unfold close. rewrite (proj2 (Z.ltb_ge _ _)) by lia. apply wp_bind, wp_get. rewrite Hf.
  apply wp_put. apply HQ; unfold set_field; simpl.
  - destruct Hd as [H1 H2 H3 H4 H5]. split; simpl; try done; intros f j q [_ Hq]%lookup_delete_Some; eauto.
  - done.
  - split; [done|]. split; [intros f Hne; simpl; by rewrite lookup_delete_ne|].
    intros f n q Hne _. unfold handle. simpl. by rewrite lookup_delete_ne.
  - simpl. by rewrite lookup_delete_eq.
Qed.

Lemma disk_ok_names d ns :
  disk_ok d -> (forall a b i, ns !! a = Some i -> ns !! b = Some i -> a = b) ->
  (forall a i, ns !! a = Some i -> exists b, names d !! b = Some i) ->
  disk_ok (mkDisk ns (inodes d) (fds d) (next_id d)).
Proof.
  intros [H1 H2 H3 H4 H5] Hinj Hsub. split; simpl; try done. intros a i Ha.
  destruct (Hsub _ _ Ha) as [b Hb]. eauto.
Qed.

Lemma wp_removeFile name d Q :
  disk_ok d -> startsWith name "/" = false ->
  (forall d', disk_ok d' -> (forall n, contents_of d' n = <[name := None]> (contents_of d) n) ->
     handles_kept (-1) [name] d d' -> fds d' = fds d -> Q tt d') ->
  wp E (removeFile name) Q d.
Proof.
  intros Hd Hrel HQ. apply wp_bind, wp_assert; [by rewrite Hrel|intros _]. apply wp_modify.
  apply HQ; unfold set_field; simpl.
  - apply disk_ok_names; [done|..].
    + intros a b i [_ Ha]%lookup_delete_Some [_ Hb]%lookup_delete_Some. by eapply names_inj.
    + intros a i [_ Ha]%lookup_delete_Some. by exists a.
  - intros n. unfold contents_of. simpl. destruct (decide (n = name)) as [->|].
    + by rewrite fn_lookup_insert, lookup_delete_eq.
    + by rewrite fn_lookup_insert_ne, lookup_delete_ne.
  - split; [done|]. split; [done|]. intros f n q _ Hn. unfold handle. simpl. rewrite lookup_delete_ne; [done|]. set_solver.
  - done.
Qed.

Lemma wp_rename a b c d Q :
  disk_ok d -> startsWith a "/" = false -> startsWith b "/" = false -> a <> b -> contents_of d a = Some c ->
  (forall d', disk_ok d' -> (forall n, contents_of d' n = <[b := Some c]> (<[a := None]> (contents_of d)) n) ->
     handles_kept (-1) [a; b] d d' -> fds d' = fds d -> Q tt d') ->
  wp E (rename a b) Q d.
Proof.
  intros Hd Ha Hb Hne Hc HQ. do 2 (apply wp_bind, wp_assert; [by rewrite ?Ha, ?Hb|intros _]).
  apply wp_bind, wp_get. unfold contents_of in Hc. destruct (names d !! a) as [i|] eqn:Hi; [|done]. simpl in Hc.
  apply wp_put. apply HQ; unfold set_field; simpl.
  - apply disk_ok_names; [done|..].
    + intros x y j. rewrite !lookup_insert_Some, !lookup_delete_Some.
      intros [[<- <-]|(? & ? & Hx)] [[<- Hj]|(? & ? & Hy)]; try done.
      * destruct (names_inj _ Hd a y i); done.
      * subst. destruct (names_inj _ Hd a x j); done.
      * by eapply names_inj.
    + intros x j. rewrite lookup_insert_Some, lookup_delete_Some. intros [[<- <-]|(_ & _ & ?)]; by eexists.
  - intros n. unfold contents_of. simpl. destruct (decide (n = b)) as [->|].
    { by rewrite fn_lookup_insert, lookup_insert_eq. }
    rewrite fn_lookup_insert_ne, lookup_insert_ne by done. destruct (decide (n = a)) as [->|].
    + by rewrite fn_lookup_insert, lookup_delete_eq.
    + by rewrite fn_lookup_insert_ne, lookup_delete_ne.
  - split; [done|]. split; [done|]. intros f n q _ Hn. unfold handle. simpl.
    rewrite lookup_insert_ne, lookup_delete_ne; [done|set_solver..].
  - done.
Qed.
End Ops.

(** ** Replacing a file *)

Definition O_CREAT_TRUNC : open_flags := mkopen_flags true false true.

(** The disk after a file was created or emptied, written and closed again. *)
Definition set_file (d : Disk) (name : string) (c : bytes) : Disk :=
  match names d !! name with
  | Some i => mkDisk (names d) (<[i := c]> (inodes d)) (fds d) (next_id d + 1)
  | None => mkDisk (<[name := next_id d]> (names d)) (<[next_id d := c]> (inodes d)) (fds d) (next_id d + 2)
  end.

Lemma overwrite_empty data : overwrite [] 0 data = data.
Proof. unfold overwrite. rewrite drop_nil, app_nil_r. done. Qed.

Lemma fds_fresh d f : disk_ok d -> next_id d <= f -> fds d !! f = None.
Proof.
  intros Hd Hf. destruct (fds d !! f) as [[i p]|] eqn:Hi; [|done]. destruct (fds_used _ Hd _ _ _ Hi). lia.
Qed.

Lemma write_sync_close d fd i c :
  fd <> dir_fd -> 0 <= fd -> inodes d !! i = @Some bytes [] -> fds d !! fd = Some (i, 0) ->
  (write fd c ;;; fsync fd ;;; close fd) d =
    Ok (tt, mkDisk (names d) (<[i := c]> (inodes d)) (delete fd (fds d)) (next_id d)).
Proof.
  intros Hne Hfd Hi Hf. unfold write, the_file, bind, get, ret, modify. rewrite Hf. cbv beta iota. rewrite Hi. cbn [default].
  change (Z.to_nat 0) with 0%nat. rewrite overwrite_empty. unfold fsync, bind, get, ret, set_field. simpl.
  rewrite lookup_insert_eq. rewrite bool_decide_true by by eexists. rewrite orb_true_r.
  unfold close. replace (fd <? 0) with false by lia. unfold bind, get, put, set_field. simpl.
  by rewrite lookup_insert_eq, delete_insert_eq.
Qed.

Lemma write_whole_file d name (c : bytes) :
  disk_ok d -> startsWith name "/" = false ->
  exists fd d1, openFile name O_CREAT_TRUNC d = Ok (fd, d1) /\
    (write fd c ;;; fsync fd ;;; close fd) d1 = Ok (tt, set_file d name c).
Proof.
  intros Hd Hrel. pose proof (ids_pos _ Hd) as Hpos. unfold dir_fd in Hpos.
  pose proof (fds_fresh d (next_id d) Hd ltac:(lia)) as Hf1.
  pose proof (fds_fresh d (next_id d + 1) Hd ltac:(lia)) as Hf2.
  unfold set_file. destruct (names d !! name) as [i|] eqn:Hn.
  - eexists (next_id d), _. split.
    + unfold openFile, openat, bind, assert_, get, put, ret. rewrite Hrel. cbn [negb]. by rewrite Hn.
    + rewrite (write_sync_close _ _ i c); simpl; [|unfold dir_fd; lia|lia|by rewrite lookup_insert_eq..].
      by rewrite insert_insert_eq, delete_insert_id.
  - eexists (next_id d + 1), _. split; [by apply openFile_new|]. unfold add_file.
    rewrite (write_sync_close _ _ (next_id d) c); simpl; [|unfold dir_fd; lia|lia|by rewrite lookup_insert_eq..].
    by rewrite insert_insert_eq, delete_insert_id.
Qed.

Lemma set_file_spec d name c :
  disk_ok d -> let d' := set_file d name c in
  disk_ok d' /\ (forall n, contents_of d' n = <[name := Some c]> (contents_of d) n) /\
  (forall f n p, handle d' f n p <-> handle d f n p) /\ next_id d <= next_id d'.
Proof.
  intros Hd d'. unfold d', set_file. destruct Hd as [H1 H2 H3 H4 H5] eqn:HD. clear HD.
  destruct (names d !! name) as [i|] eqn:Hn.
  - split_and!; [split; simpl; [done|..|done|lia]| |done|simpl; lia].
    + intros a j Ha. destruct (H2 _ _ Ha) as [? Hj]. split; [lia|].
      destruct (decide (i = j)) as [->|]; [by rewrite lookup_insert_eq; eexists|by rewrite lookup_insert_ne].
    + intros f j q Hq. destruct (H3 _ _ _ Hq) as (? & ? & ?). split_and!; [lia|lia|].
      destruct (decide (i = j)) as [->|]; [by rewrite lookup_insert_eq; eexists|by rewrite lookup_insert_ne].
    + by apply contents_of_update.
  - destruct (add_file_spec d name c 0 Hd Hn ltac:(lia)) as ([G1 G2 G3 G4 G5] & Hc & _).
    split_and!; [split; simpl in *; [done|done| |done|lia]|exact Hc| |simpl; lia].
    + intros f j q Hq. destruct (H3 _ _ _ Hq) as (? & ? & ?). split_and!; [lia|lia|].
      rewrite lookup_insert_ne; [done|lia].
    + intros f n p. unfold handle. simpl. destruct (decide (n = name)) as [->|]; [|by rewrite lookup_insert_ne].
      rewrite lookup_insert_eq. split; [|intros (j & _ & Hj); congruence].
      intros (j & Hf & [= <-]). destruct (H3 _ _ _ Hf). lia.
Qed.
