(* ===== verification/Checksum.v ===== *)
(** * Checksums

    [Core/Checksum.cc]: a checksum is the name of an algorithm, a colon, the
    digest in hexadecimal and a NUL byte. The digests are the Crypto++
    library's: the registry of algorithms is a parameter. *)

From Stdlib Require Import ZArith Lia Ascii String.
From stdpp Require Import base gmap strings list fin_maps.
From S2P Require Import Prelude StringUtil Stream.
Local Open Scope Z_scope.
Local Open Scope list_scope.

Definition MAX_LENGTH : nat := 256.

(** [Core::StringUtil::display] *)
Definition display (c : ascii) : bool :=
  let n := N_of_ascii c in (32 <=? n)%N && (n <? 127)%N.

(** [isPrintable] of a C string. *)
Definition isPrintable (s : bytes) : bool := forallb display s.

(** The bytes of a C string: up to the first NUL. *)
Fixpoint c_string (b : bytes) : bytes :=
  match b with
  | [] => []
  | c :: b' => if Ascii.eqb c Ascii.zero then [] else c :: c_string b'
  end.

Definition hexArray : string := "0123456789abcdef".
Definition hex_digit (n : N) : ascii := default Ascii.zero (String.get (N.to_nat n) hexArray).

Definition hex (b : bytes) : bytes :=
  flat_map (fun c => let n := N_of_ascii c in [hex_digit (n / 16); hex_digit (n mod 16)]) b.

Inductive verify_error : Type :=
| NotPrintable
| MissingColon
| NoSuchAlgorithm
| Mismatch.

(** The name before the colon: [None] if there is no colon. *)
Fixpoint before_colon (s : bytes) : option bytes :=
  match s with
  | [] => None
  | c :: s' => if Ascii.eqb c ":" then Some [] else cons c <$> before_colon s'
  end.

Section Checksum.
(** [algorithms.find(name)]: the binary digest. *)
Context (algorithms : bytes -> option (bytes -> bytes)).

Definition writeChecksum (name : bytes) (hashFn : bytes -> bytes) (data : bytes) : outcome bytes :=
  let result := name ++ ":"%char :: hex (hashFn data) ++ [Ascii.zero] in
  if bool_decide (length result <= MAX_LENGTH)%nat then Ok result else Fail AssertFailed.

Definition calculate (algorithm : bytes) (data : bytes) : outcome bytes :=
  match algorithms algorithm with
  | Some hashFn => writeChecksum algorithm hashFn data
  | None => Fail Panicked
  end.

(** [length(checksum, maxChecksumLength)]: the loop stops at the end of the
    buffer or after [MAX_LENGTH] bytes without finding a NUL. *)
Fixpoint checksum_length_loop (len : nat) (checksum : bytes) : nat :=
  if bool_decide (len = MAX_LENGTH) then 0%nat else
  match checksum with
  | [] => 0%nat
  | c :: checksum' => if Ascii.eqb c Ascii.zero then S len else checksum_length_loop (S len) checksum'
  end.

Definition checksum_length (checksum : bytes) : nat := checksum_length_loop 0 checksum.

(** The empty string it returns is [None]. *)
Definition verify (checksum : bytes) (data : bytes) : outcome (option verify_error) :=
  let checksum := c_string checksum in
  if negb (isPrintable checksum) then Ok (Some NotPrintable) else
  match before_colon checksum with
  | None => Ok (Some MissingColon)
  | Some algorithmName =>
      match algorithms algorithmName with
      | None => Ok (Some NoSuchAlgorithm)
      | Some hashFn =>
          match writeChecksum algorithmName hashFn data with
          | Ok calculated =>
              Ok (if bool_decide (c_string calculated = checksum) then None else Some Mismatch)
          | Fail f => Fail f
          end
      end
  end.
End Checksum.

(** What the names and digests of the library are like. *)
Class AlgorithmLaws (algorithms : bytes -> option (bytes -> bytes)) := {
  name_printable name f : algorithms name = Some f ->
    Forall (fun c => display c = true /\ c <> ":"%char) name;
  checksum_fits name f data : algorithms name = Some f ->
    (length name + 1 + 2 * length (f data) + 1 <= MAX_LENGTH)%nat
}.

Lemma hex_digit_display n : (n < 16)%N -> display (hex_digit n) = true.
Proof.
  intros Hn. assert (exists k, (k < 16)%nat /\ n = N.of_nat k) as (k & Hk & ->).
  { exists (N.to_nat n). split; [lia|]. by rewrite N2Nat.id. }
  do 16 (destruct k as [|k]; [reflexivity|apply Nat.succ_lt_mono in Hk]). by apply Nat.nlt_0_r in Hk.
Qed.

Lemma hex_printable b : Forall (fun c => display c = true) (hex b).
Proof.
  induction b as [|c b IH]; [constructor|]. unfold hex. simpl. pose proof (N_ascii_bounded c).
  repeat constructor; try apply hex_digit_display; [|apply N.mod_lt; lia|exact IH].
  apply N.Div0.div_lt_upper_bound. lia.
Qed.

Lemma hex_length b : length (hex b) = (2 * length b)%nat.
Proof.
  induction b as [|c b IH]; [done|].
  change (length (hex (c :: b))) with (S (S (length (hex b)))). rewrite IH. simpl. lia.
Qed.

Lemma c_string_app s rest : Forall (fun c => display c = true) s -> c_string (s ++ Ascii.zero :: rest) = s.
Proof.
  induction 1 as [|c s Hc _ IH]; simpl; [done|]. destruct (Ascii.eqb_spec c Ascii.zero) as [->|]; [done|].
  by rewrite IH.
Qed.

Lemma checksum_length_loop_app n s rest :
  Forall (fun c => display c = true) s -> (n + length s < MAX_LENGTH)%nat ->
  checksum_length_loop n (s ++ Ascii.zero :: rest) = S (n + length s).
Proof.
  intros Hs. revert n. induction Hs as [|c s Hc _ IH]; intros n Hn; cbn [checksum_length_loop app length] in *.
  - rewrite bool_decide_false by lia. simpl. lia.
  - rewrite bool_decide_false by lia. destruct (Ascii.eqb_spec c Ascii.zero) as [->|]; [done|].
    rewrite IH by lia. lia.
Qed.

Lemma before_colon_app name rest :
  Forall (fun c => c <> ":"%char) name -> before_colon (name ++ ":"%char :: rest) = Some name.
Proof.
  induction 1 as [|c name Hc _ IH]; simpl; [done|].
  destruct (Ascii.eqb_spec c ":"); [done|]. by rewrite IH.
Qed.

Section Laws.
Context (algorithms : bytes -> option (bytes -> bytes)) `{AlgorithmLaws algorithms}.

(** The text of a checksum, without the NUL. *)
Definition checksum_text (name : bytes) (f : bytes -> bytes) (data : bytes) : bytes :=
  name ++ ":"%char :: hex (f data).

Lemma checksum_text_printable name f data :
  algorithms name = Some f -> Forall (fun c => display c = true) (checksum_text name f data).
Proof.
  intros Hf. unfold checksum_text. apply Forall_app. split.
  - eapply Forall_impl; [by apply (name_printable name f)|]. by intros c [].
  - constructor; [done|apply hex_printable].
Qed.

Lemma calculate_text name f data :
  algorithms name = Some f -> calculate algorithms name data = Ok (checksum_text name f data ++ [Ascii.zero]).
Proof.
  intros Hf. unfold calculate, writeChecksum, checksum_text. rewrite Hf. rewrite <-app_assoc. simpl.
  rewrite bool_decide_true; [done|]. pose proof (checksum_fits name f data Hf).
  rewrite !length_app. simpl. rewrite !length_app, hex_length. simpl. lia.
Qed.

(** A checksum that was calculated is found at the head of any buffer. *)
Lemma calculate_length name data c rest :
  calculate algorithms name data = Ok c -> checksum_length (c ++ rest) = length c /\ (2 <= length c <= MAX_LENGTH)%nat.
Proof.
  destruct (algorithms name) as [f|] eqn:Hf; [|unfold calculate; by rewrite Hf].
  rewrite (calculate_text _ _ data Hf). intros [= <-]. pose proof (checksum_fits name f data Hf) as Hfit.
  assert (length (checksum_text name f data) = (length name + 1 + 2 * length (f data))%nat) as Hlen.
  { unfold checksum_text. rewrite length_app. simpl. rewrite hex_length. lia. }
  rewrite <-app_assoc. cbn [app]. rewrite length_app. cbn [length]. unfold checksum_length.
  rewrite checksum_length_loop_app; [lia|by apply checksum_text_printable|lia].
Qed.

Lemma verify_calculated name data c :
  calculate algorithms name data = Ok c -> verify algorithms c data = Ok None.
Proof.
  destruct (algorithms name) as [f|] eqn:Hf; [|unfold calculate; by rewrite Hf].
  rewrite (calculate_text _ _ data Hf). intros [= <-]. unfold verify.
  pose proof (checksum_text_printable _ _ data Hf) as Hp. rewrite c_string_app by done.
  assert (isPrintable (checksum_text name f data) = true) as ->.
  { unfold isPrintable. apply forallb_forall. by rewrite <-List.Forall_forall. }
  simpl. unfold checksum_text at 1. rewrite before_colon_app.
  2: { eapply Forall_impl; [by apply (name_printable name f)|]. by intros ? []. }
  rewrite Hf. pose proof (calculate_text _ _ data Hf) as Hc. unfold calculate in Hc. rewrite Hf in Hc.
  rewrite Hc, c_string_app by done. by rewrite bool_decide_true.
Qed.
End Laws.
