(* ===== verification/Printf.v ===== *)
(** * Printing and scanning numbers

    The conversions of the C library that the storage modules name their files
    with: ["%lu"] and ["%020lu"] of [printf], which [Core::StringUtil::format]
    calls, and of [sscanf]. *)

From Stdlib Require Import ZArith Lia Ascii String.
From stdpp Require Import base gmap strings list.
From S2P Require Import Prelude StringUtil.
Local Open Scope string_scope.
Local Open Scope Z_scope.

Definition digit (d : Z) : ascii := ascii_of_N (Z.to_N (48 + d)).

(** The [n] last decimal digits. *)
Fixpoint digits (n : nat) (x : Z) : string :=
  match n with
  | O => ""
  | S n' => String (digit (x / 10 ^ Z.of_nat n' mod 10)) (digits n' x)
  end.

(** ["%020lu"]: no 64-bit number has more than 20 digits. *)
Definition print_020lu (x : Z) : string := digits 20 x.

Fixpoint strip_zeros (s : string) : string :=
  match s with
  | String "0" (String _ _ as s') => strip_zeros s'
  | _ => s
  end.

(** ["%lu"] *)
Definition print_lu (x : Z) : string := strip_zeros (digits 20 x).

Definition digit_value (c : ascii) : option Z :=
  let n := Z.of_N (N_of_ascii c) in
  if (48 <=? n) && (n <=? 57) then Some (n - 48) else None.

(** [isspace] in the C locale. *)
Definition isspace (c : ascii) : bool :=
  let n := N_of_ascii c in ((n =? 32) || ((9 <=? n) && (n <=? 13)))%N.

Fixpoint skip_space (s : string) : string :=
  match s with
  | String c s' => if isspace c then skip_space s' else s
  | EmptyString => s
  end.

(** At most [w] digits: their value after [acc], how many, and the rest. *)
Fixpoint scan_digits (w : nat) (s : string) (acc : Z) : Z * nat * string :=
  match w, s with
  | S w', String c s' =>
      match digit_value c with
      | Some d => let '(v, n, rest) := scan_digits w' s' (10 * acc + d) in (v, S n, rest)
      | None => (acc, O, s)
      end
  | _, _ => (acc, O, s)
  end.

(** [sscanf]'s ["%lu"] with a maximum width: white space is skipped, a sign
    counts, a number too large is the largest one. *)
Definition scan_lu (w : nat) (s : string) : option (Z * string) :=
  let s := skip_space s in
  let '(neg, w, s) :=
    match s with
    | String "-" s' => (true, (w - 1)%nat, s')
    | String "+" s' => (false, (w - 1)%nat, s')
    | _ => (false, w, s)
    end in
  match scan_digits w s 0 with
  | (_, O, _) => None
  | (v, _, rest) => Some (if u64_max <? v then u64_max else if neg : bool then u64 (- v) else v, rest)
  end.

(** ** Scanning what was printed *)

Lemma digit_value_digit d : 0 <= d < 10 -> digit_value (digit d) = Some d.
Proof.
  intros Hd. unfold digit_value, digit. rewrite N_ascii_embedding by lia. rewrite Z2N.id by lia.
  replace (48 <=? 48 + d) with true by (symmetry; apply Z.leb_le; lia).
  replace (48 + d <=? 57) with true by (symmetry; apply Z.leb_le; lia).
  simpl. f_equal. lia.
Qed.

Lemma mod_pow_succ x (n : nat) : 0 <= x ->
  x mod 10 ^ Z.of_nat (S n) = (x / 10 ^ Z.of_nat n) mod 10 * 10 ^ Z.of_nat n + x mod 10 ^ Z.of_nat n.
Proof.
  intros Hx. rewrite Nat2Z.inj_succ, Z.pow_succ_r by lia. rewrite (Z.mul_comm 10).
  rewrite Z.rem_mul_r by lia. lia.
Qed.

(** [m] more digits would be read, but there are none. *)
Lemma scan_digits_digits n m x acc rest :
  0 <= x -> m = O \/ rest = "" ->
  scan_digits (n + m) (digits n x +:+ rest) acc = (acc * 10 ^ Z.of_nat n + x mod 10 ^ Z.of_nat n, n, rest).
Proof.
  intros Hx Hrest. revert acc. induction n as [|n IH]; intros acc.
  - simpl. rewrite Z.mod_1_r, Z.mul_1_r, Z.add_0_r. destruct Hrest as [->| ->]; [by destruct rest|by destruct m].
  - rewrite mod_pow_succ by done. cbn [digits].
    change (String ?c ?s +:+ rest) with (String c (s +:+ rest)). cbn [Nat.add scan_digits].
    rewrite digit_value_digit by (apply Z.mod_pos_bound; lia). rewrite IH.
    rewrite Nat2Z.inj_succ, Z.pow_succ_r by lia. f_equal. f_equal. ring.
Qed.

(** A number is printed as its digits from the first that is not zero on. *)
Lemma strip_zeros_digits n x :
  0 <= x < 10 ^ Z.of_nat (S n) ->
  exists k, strip_zeros (digits (S n) x) = digits (S k) x /\ 0 <= x < 10 ^ Z.of_nat (S k).
Proof.
  induction n as [|n IH]; intros Hx.
  { exists O. split; [|done]. simpl. by destruct (digit _) as [[] [] [] [] [] [] [] []]. }
  destruct (Z.lt_ge_cases x (10 ^ Z.of_nat (S n))) as [Hlt|Hge].
  - destruct (IH (conj (proj1 Hx) Hlt)) as (k & Hk & Hxk). exists k. split; [|done]. rewrite <-Hk.
    remember (S n) as m. cbn [digits]. rewrite Z.div_small by lia. by subst m.
  - exists (S n). split; [|done]. remember (S n) as m. cbn [digits].
    assert (0 < x / 10 ^ Z.of_nat m) by (apply Z.div_str_pos; lia).
    assert (x / 10 ^ Z.of_nat m < 10).
    { apply Z.div_lt_upper_bound; [lia|]. rewrite Nat2Z.inj_succ, Z.pow_succ_r in Hx by lia. lia. }
    rewrite Z.mod_small by lia. subst m. cbn [digits]. set (d := x / _) in *. clearbody d.
    assert (digit d <> "0"%char) as Hne.
    { intros Hd. pose proof (digit_value_digit d) as Hv. rewrite Hd in Hv. vm_compute in Hv.
      assert (0 <= d < 10) as Hd' by lia. specialize (Hv Hd'). injection Hv as <-. lia. }
    by destruct (digit d) as [[] [] [] [] [] [] [] []].
Qed.

(** The first character printed is a digit. *)
Lemma digits_head k x rest :
  exists d s, digits (S k) x +:+ rest = String (digit d) s /\ 0 <= d < 10.
Proof.
  exists (x / 10 ^ Z.of_nat k mod 10), (digits k x +:+ rest). split; [done|]. apply Z.mod_pos_bound. lia.
Qed.

Lemma scan_lu_head w d s :
  0 <= d < 10 ->
  scan_lu w (String (digit d) s) =
    match scan_digits w (String (digit d) s) 0 with
    | (_, O, _) => None
    | (v, _, rest) => Some (if u64_max <? v then u64_max else v, rest)
    end.
Proof.
  intros Hd. assert (exists k, (k < 10)%nat /\ d = Z.of_nat k) as (k & Hk & ->).
  { exists (Z.to_nat d). lia. }
  do 10 (destruct k as [|k]; [reflexivity|apply Nat.succ_lt_mono in Hk]). by apply Nat.nlt_0_r in Hk.
Qed.

Lemma scan_lu_digits k m x rest :
  is_u64 x -> x < 10 ^ Z.of_nat (S k) -> m = O \/ rest = "" ->
  scan_lu (S k + m) (digits (S k) x +:+ rest) = Some (x, rest).
Proof.
  intros Hx Hk Hrest. unfold is_u64 in Hx. destruct (digits_head k x rest) as (d & s & Heq & Hd).
  rewrite Heq, scan_lu_head by done. rewrite <-Heq, scan_digits_digits by (lia || done).
  rewrite Z.mod_small by lia. rewrite Z.mul_0_l, Z.add_0_l.
  by rewrite (proj2 (Z.ltb_ge _ _)) by (unfold u64_max; lia).
Qed.

Lemma scan_print_020lu x rest : is_u64 x -> scan_lu 20 (print_020lu x +:+ rest) = Some (x, rest).
Proof.
  intros Hx. apply (scan_lu_digits 19 0); [done| |by left]. unfold is_u64 in Hx.
  change (10 ^ Z.of_nat 20) with 100000000000000000000. lia.
Qed.

Lemma digits_length n x : String.length (digits n x) = n.
Proof. induction n; simpl; congruence. Qed.

Lemma scan_print_lu w x :
  is_u64 x -> (String.length (print_lu x) <= w)%nat -> scan_lu w (print_lu x) = Some (x, "").
Proof.
  intros Hx Hw. unfold print_lu in *. unfold is_u64 in Hx.
  destruct (strip_zeros_digits 19 x) as (k & Hk & Hxk).
  { change (10 ^ Z.of_nat 20) with 100000000000000000000. lia. }
  rewrite Hk in *. rewrite digits_length in Hw.
  replace w with (S k + (w - S k))%nat by lia. rewrite <-(string_app_nil_r (digits (S k) x)).
  apply scan_lu_digits; [unfold is_u64; lia|lia|by right].
Qed.
