(* ===== verification/Durations.v ===== *)
(** * Durations and points in time

    [Core/Time.{h,cc}] and [Client/Util.cc]: durations as people write them, how
    they are printed, and conversions of points in time. The build has
    [-fno-strict-overflow], so signed overflow wraps. *)

From Stdlib Require Import ZArith Lia Ascii String.
From stdpp Require Import base gmap strings list.
From S2P Require Import Prelude StringUtil Printf.
Local Open Scope string_scope.
Local Open Scope Z_scope.

Definition i64_max : Z := 9223372036854775807.
Definition i64_min : Z := -9223372036854775808.

(** ** [strtol] in base 10, as the C library documents it

    White space, a sign, digits; a number out of range is the nearest one in
    range. [None] where no number could be read. *)
Definition strtol (s : string) : option (Z * string) :=
  let s := skip_space s in
  let (neg, s) :=
    match s with
    | String "-" s' => (true, s')
    | String "+" s' => (false, s')
    | _ => (false, s)
    end in
  match scan_digits (String.length s) s 0 with
  | (_, O, _) => None
  | (v, _, rest) => Some (Z.max i64_min (Z.min i64_max (if neg : bool then - v else v)), rest)
  end.

(** The two [erase] calls that trim white space; also [StringUtil::trim]. *)
Fixpoint trim_end (s : string) : string :=
  match s with
  | EmptyString => EmptyString
  | String c s' =>
      let t := trim_end s' in
      if string_empty t && isspace c then EmptyString else String c t
  end.

Definition trim (original : string) : string := skip_space (trim_end original).

Definition one_of (units : list string) (s : string) : bool := existsb (String.eqb s) units.

(** A unit's factor, and the largest number of it that is multiplied. *)
Definition unit_factor (units : string) : option (Z * Z) :=
  if one_of ["ns"; "nanosecond"; "nanoseconds"] units then Some (1, i64_max)
  else if one_of ["us"; "microsecond"; "microseconds"] units then Some (1000, 9223372036854775)
  else if one_of ["ms"; "millisecond"; "milliseconds"] units then Some (1000000, 9223372036854)
  else if one_of ["s"; "second"; "seconds"; ""] units then Some (1000000000, 9223372036)
  else if one_of ["min"; "minute"; "minutes"] units then Some (1000000000 * 60, 153722867)
  else if one_of ["h"; "hr"; "hour"; "hours"] units then Some (1000000000 * 60 * 60, 2562047)
  else if one_of ["d"; "day"; "days"] units then Some (1000000000 * 60 * 60 * 24, 106751)
  else if one_of ["w"; "wk"; "week"; "weeks"] units then Some (1000000000 * 60 * 60 * 24 * 7, 15250)
  else if one_of ["mo"; "month"; "months"] units then Some (1000000000 * 2629800, 3507)
  else if one_of ["y"; "yr"; "year"; "years"] units then Some (1000000000 * 31557600, 292)
  else None.

(** [std::abs] of a [long]. *)
Definition abs64 (r : Z) : Z := i64 (Z.abs r).

(** The exception's message, or the nanoseconds. *)
Definition parseSignedDuration (description : string) : string + Z :=
  match strtol (c_str description) with
  | None => inl ("Invalid time description: could not parse number from " +:+ description)
  | Some (r, rest) =>
      let overflow := if r <? 0 then i64_min else i64_max in
      match unit_factor (trim rest) with
      | None => inl ("Invalid time description: could not parse units from " +:+ description)
      | Some (factor, limit) =>
          inr (if factor =? 1 then r else if abs64 r <=? limit then i64 (r * factor) else overflow)
      end
  end.

Definition parseNonNegativeDuration (description : string) : string + Z :=
  match parseSignedDuration description with
  | inl error => inl error
  | inr r => if r <? 0 then inl ("Invalid time description: '" +:+ c_str description +:+ "' is negative") else inr r
  end.

(** ** Printing *)

(** [os << x] for an [int64_t]. *)
Definition print_ld (x : Z) : string :=
  if x <? 0 then "-" +:+ print_lu (- x) else print_lu x.

(** The loop that drops groups of three zeros, [n] of them at most. *)
Fixpoint drop_zero_groups (n : nat) (fraction : Z) (digits : nat) : Z * nat :=
  match n with
  | O => (fraction, digits)
  | S n =>
      if (Z.rem fraction 1000 =? 0) && (3 <=? digits)%nat
      then drop_zero_groups n (Z.quot fraction 1000) (digits - 3) else (fraction, digits)
  end.

Definition padFraction (fraction : Z) (ndigits : nat) : string :=
  if fraction =? 0 then "" else
  let fraction := if fraction <? 0 then fraction * -1 else fraction in
  let (fraction, ndigits) := drop_zero_groups ndigits fraction ndigits in
  "." +:+ digits ndigits fraction.

Definition print_nanoseconds (nanos : Z) : string :=
  if negb (Z.quot nanos 1000000000 =? 0) then
    print_ld (Z.quot nanos 1000000000) +:+ padFraction (Z.rem nanos 1000000000) 9 +:+ " s"
  else if negb (Z.quot nanos 1000000 =? 0) then
    print_ld (Z.quot nanos 1000000) +:+ padFraction (Z.rem nanos 1000000) 6 +:+ " ms"
  else if negb (Z.quot nanos 1000 =? 0) then
    print_ld (Z.quot nanos 1000) +:+ padFraction (Z.rem nanos 1000) 3 +:+ " us"
  else print_ld nanos +:+ " ns".

(** ** Points in time *)

Record timespec : Type := mkTimespec { tv_sec : Z; tv_nsec : Z }.

Definition makeTimeSpec (nanosSinceEpoch : Z) : timespec :=
  let ts := mkTimespec (Z.quot nanosSinceEpoch 1000000000) (Z.rem nanosSinceEpoch 1000000000) in
  if nanosSinceEpoch <? 0 then mkTimespec (tv_sec ts - 1) (tv_nsec ts + 1000000000) else ts.

(** When [sleep] for a duration wakes, [None] where it does not sleep. *)
Definition sleep_wake (now duration : Z) : option Z :=
  if duration <=? 0 then None else
  let wake := i64 (now + duration) in
  Some (if wake <? now then TimePoint_max else wake).

Record SteadyTimeConverter : Type := mkSteadyTimeConverter { steadyNow : Z; systemNow : Z }.

Definition convert (c : SteadyTimeConverter) (when : Z) : Z :=
  let diff := i64 (when - steadyNow c) in
  let then_ := i64 (systemNow c + diff) in
  if (steadyNow c <? when) && (then_ <? systemNow c) then TimePoint_max else then_.

Definition unixNanos (c : SteadyTimeConverter) (when : Z) : Z := convert c when.

Example parse_1 : parseSignedDuration " -17 minutes " = inr (-1020000000000). Proof. reflexivity. Qed.
Example parse_2 : parseSignedDuration "300y" = inr i64_max. Proof. reflexivity. Qed.
Example parse_3 : parseSignedDuration "-9223372036854775808 s" = inr 0. Proof. reflexivity. Qed.
Example print_1 : print_nanoseconds (-1500000000) = "-1.500 s". Proof. reflexivity. Qed.
Example print_2 : print_nanoseconds 1000000001 = "1.000000001 s". Proof. reflexivity. Qed.

(** ** Reading what people write *)

Definition spaces (s : string) : Prop := forall c, has_char c s = true -> isspace c = true.

Lemma spaces_nil : spaces "".
Proof. by intros c Hc. Qed.

Lemma spaces_cons c s : spaces (String c s) <-> isspace c = true /\ spaces s.
Proof.
  unfold spaces. simpl. split.
  - intros Hs. split; [apply Hs; by rewrite Ascii.eqb_refl|]. intros c' Hc'. apply Hs. by rewrite Hc', orb_true_r.
  - intros [Hc Hs] c' [<-%Ascii.eqb_eq|Hc']%orb_prop; auto.
Qed.

Lemma skip_spaces s t : spaces s -> skip_space (s +:+ t) = skip_space t.
Proof.
  induction s as [|c s IH]; intros Hs; [done|]. apply spaces_cons in Hs as [Hc Hs].
  rewrite string_app_cons. simpl. rewrite Hc. by apply IH.
Qed.

Lemma trim_end_spaces s : spaces s -> trim_end s = "".
Proof.
  induction s as [|c s IH]; intros Hs; [done|]. apply spaces_cons in Hs as [Hc Hs]. simpl. by rewrite IH, Hc.
Qed.

Lemma trim_end_app s t : trim_end t <> "" -> trim_end (s +:+ t) = s +:+ trim_end t.
Proof.
  intros Ht. induction s as [|c s IH]; [done|]. rewrite !string_app_cons. simpl. rewrite IH.
  destruct (s +:+ trim_end t) eqn:Hst; [|done]. by destruct s.
Qed.

Lemma trim_end_app_spaces s t : spaces t -> trim_end (s +:+ t) = trim_end s.
Proof.
  intros Ht. induction s as [|c s IH]; [by apply trim_end_spaces|]. rewrite string_app_cons. simpl. by rewrite IH.
Qed.

(** A word: not empty, white space neither first nor last. *)
Definition word (u : string) : Prop := skip_space u = u /\ trim_end u = u /\ u <> "".

Lemma trim_word s u t : spaces s -> word u \/ u = "" -> spaces t -> trim (s +:+ u +:+ t) = u.
Proof.
  intros Hs Hu Ht. unfold trim. rewrite <-string_app_assoc, trim_end_app_spaces by done.
  destruct Hu as [(Hl & Hr & Hne)| ->].
  - rewrite trim_end_app by congruence. by rewrite Hr, skip_spaces.
  - by rewrite string_app_nil_r, trim_end_spaces.
Qed.

(** The units are words of letters. *)
Definition letters (u : string) : Prop :=
  match u with String c _ => digit_value c = None | EmptyString => True end.

Lemma unit_words u f lim : unit_factor u = Some (f, lim) -> (word u \/ u = "") /\ letters u /\ c_str u = u.
Proof.
  unfold unit_factor, one_of, existsb.
  repeat match goal with
  | |- context [String.eqb u ?w] => destruct (String.eqb_spec u w) as [->|]; [intros _; vm_compute; auto 6; repeat split; auto; by left|]
  end; done.
Qed.

Definition no_digit (s : string) : Prop := match s with String c _ => digit_value c = None | EmptyString => True end.

Lemma scan_digits_stop n m x acc rest :
  0 <= x -> no_digit rest ->
  scan_digits (n + m) (digits n x +:+ rest) acc = (acc * 10 ^ Z.of_nat n + x mod 10 ^ Z.of_nat n, n, rest).
Proof.
  intros Hx Hrest. revert acc. induction n as [|n IH]; intros acc.
  - simpl. rewrite Z.mod_1_r, Z.mul_1_r, Z.add_0_r. destruct rest as [|c rest]; [by destruct m|].
    destruct m; [done|]. simpl in *. by rewrite Hrest.
  - rewrite mod_pow_succ by done. cbn [digits].
    change (String ?c ?s +:+ rest) with (String c (s +:+ rest)). cbn [Nat.add scan_digits].
    rewrite digit_value_digit by (apply Z.mod_pos_bound; lia). rewrite IH.
    rewrite Nat2Z.inj_succ, Z.pow_succ_r by lia. f_equal. f_equal. ring.
Qed.

Lemma length_string_app s t : String.length (s +:+ t) = (String.length s + String.length t)%nat.
Proof. induction s as [|c s IH]; [done|]. rewrite string_app_cons. simpl. by rewrite IH. Qed.

(** How a sign is written. *)
Inductive Sign : Type := NoSign | Plus | Minus.

Definition sign_text (g : Sign) : string := match g with NoSign => "" | Plus => "+" | Minus => "-" end.
Definition signed (g : Sign) (x : Z) : Z := match g with Minus => - x | _ => x end.

(** A decimal numeral, leading zeros allowed. *)
Definition numeral (g : Sign) (k : nat) (x : Z) : string := sign_text g +:+ digits (S k) x.

Definition clamp64 (x : Z) : Z := Z.max i64_min (Z.min i64_max x).

Lemma digit_plain d : 0 <= d < 10 ->
  isspace (digit d) = false /\ digit d <> "-"%char /\ digit d <> "+"%char /\ Ascii.eqb (digit d) Ascii.zero = false.
Proof.
  intros Hd. assert (exists k, (k < 10)%nat /\ d = Z.of_nat k) as (k & Hk & ->) by (exists (Z.to_nat d); lia).
  do 10 (destruct k as [|k]; [by vm_compute|apply Nat.succ_lt_mono in Hk]). by apply Nat.nlt_0_r in Hk.
Qed.

Lemma strtol_numeral sp g k x rest :
  spaces sp -> 0 <= x < 10 ^ Z.of_nat (S k) -> no_digit rest ->
  strtol (sp +:+ numeral g k x +:+ rest) = Some (clamp64 (signed g x), rest).
Proof.
  intros Hsp Hx Hrest. unfold strtol, numeral. rewrite skip_spaces by done.
  destruct (digits_head k x rest) as (d & s & Heq & Hd). destruct (digit_plain d Hd) as (Hspace & Hminus & Hplus & _).
  assert (match scan_digits (String.length (digits (S k) x +:+ rest)) (digits (S k) x +:+ rest) 0 with
    | (_, O, _) => None
    | (v, _, rest) => Some (v, rest)
    end = Some (x, rest)) as Hscan.
  { replace (String.length (digits (S k) x +:+ rest)) with (S k + String.length rest)%nat
      by (rewrite length_string_app, digits_length; done).
    rewrite scan_digits_stop by (done || lia). by rewrite Z.mod_small by lia. }
  rewrite Heq in Hscan. rewrite string_app_assoc, Heq. unfold clamp64.
  assert (forall neg : bool, match scan_digits (String.length (String (digit d) s)) (String (digit d) s) 0 with
    | (_, O, _) => None
    | (v, _, rest) => Some (Z.max i64_min (Z.min i64_max (if neg then - v else v)), rest)
    end = Some (Z.max i64_min (Z.min i64_max (if neg then - x else x)), rest)) as Hscan'.
  { intros neg. destruct (scan_digits _ _ _) as [[v [|n]] r]; [done|]. by injection Hscan as -> ->. }
  destruct g; [| exact (Hscan' false) | exact (Hscan' true)].
  change (sign_text NoSign +:+ String (digit d) s) with (String (digit d) s). simpl skip_space. rewrite Hspace.
  etransitivity; [|exact (Hscan' false)]. by destruct (digit d) as [[] [] [] [] [] [] [] []].
Qed.

(** The C string of a text without NUL bytes is the text. *)
Lemma c_str_app s t : c_str s = s -> c_str (s +:+ t) = s +:+ c_str t.
Proof.
  induction s as [|c s IH]; [done|]. rewrite !string_app_cons. simpl. destruct (Ascii.eqb c Ascii.zero); [done|].
  intros [= Hs]. by rewrite IH.
Qed.

Lemma c_str_clean s t : c_str s = s -> c_str t = t -> c_str (s +:+ t) = s +:+ t.
Proof. intros Hs Ht. by rewrite c_str_app, Ht. Qed.

Lemma c_str_spaces s : spaces s -> c_str s = s.
Proof.
  induction s as [|c s IH]; [done|]. intros [Hc Hs]%spaces_cons. simpl.
  destruct (Ascii.eqb_spec c Ascii.zero) as [->|]; [by vm_compute in Hc|]. by rewrite IH.
Qed.

Lemma c_str_digits n x : c_str (digits n x) = digits n x.
Proof.
  induction n as [|n IH]; [done|]. cbn [digits c_str]. set (d := x / _ mod 10).
  destruct (digit_plain d) as (_ & _ & _ & ->); [apply Z.mod_pos_bound; lia|]. by rewrite IH.
Qed.

Lemma c_str_numeral g k x : c_str (numeral g k x) = numeral g k x.
Proof. unfold numeral. rewrite c_str_app by (by destruct g). by rewrite c_str_digits. Qed.

Lemma space_no_digit c : isspace c = true -> digit_value c = None.
Proof.
  by destruct c as [[] [] [] [] [] [] [] []].
Qed.

Lemma spaces_no_digit sp t : spaces sp -> no_digit t -> no_digit (sp +:+ t).
Proof. destruct sp as [|c sp]; [done|]. intros [Hc _]%spaces_cons _. by apply space_no_digit. Qed.

(** The product where it fits, and one wrong answer: the smallest number, whose
    [abs] is itself. *)
Definition scaled (n factor : Z) : Z :=
  if (n <=? i64_min) && negb (factor =? 1) then 0 else clamp64 (n * factor).

Lemma i64_small x : i64_min <= x <= i64_max -> i64 x = x.
Proof. unfold i64, i64_min, i64_max. intros Hx. rewrite Z.mod_small; lia. Qed.

Lemma unit_limits u f lim : unit_factor u = Some (f, lim) ->
  0 < f /\ (f = 1 \/ (i64 (i64_min * f) = 0 /\ lim * f <= i64_max /\ i64_max < (lim + 1) * f)) /\ 0 <= lim.
Proof.
  unfold unit_factor. repeat (destruct (one_of _ u); [intros [= <- <-]; vm_compute; intuition congruence|]). done.
Qed.

Lemma parse_scaled n u f lim : unit_factor u = Some (f, lim) ->
  (if f =? 1 then clamp64 n else if abs64 (clamp64 n) <=? lim then i64 (clamp64 n * f)
   else if clamp64 n <? 0 then i64_min else i64_max) = scaled n f.
Proof.
  intros Hu. destruct (unit_limits u f lim Hu) as (Hf & Hlim & Hpos). unfold scaled.
  destruct (Z.eqb_spec f 1) as [->|Hne]; [simpl; by rewrite andb_false_r, Z.mul_1_r|]. rewrite andb_true_r.
  destruct Hlim as [|(Hmin & Hle & Hgt)]; [done|]. unfold abs64.
  destruct (Z.leb_spec n i64_min) as [Hn|Hn].
  { assert (clamp64 n = i64_min) as -> by (unfold clamp64, i64_min, i64_max in *; lia).
    change (i64 (Z.abs i64_min)) with i64_min. rewrite (proj2 (Z.leb_le _ _)) by (unfold i64_min; lia). done. }
  assert (i64_min < clamp64 n <= i64_max) as Hc by (unfold clamp64, i64_min, i64_max in *; lia).
  rewrite (i64_small (Z.abs _)) by (unfold i64_min, i64_max in *; lia).
  destruct (Z.leb_spec (Z.abs (clamp64 n)) lim) as [Habs|Habs].
  - assert (clamp64 n = n) as Heq by (unfold clamp64, i64_min, i64_max in *; nia). rewrite Heq in *.
    assert (Z.abs n * f <= lim * f) by nia. assert (i64_min <= n * f <= i64_max) by (unfold i64_min, i64_max in *; nia).
    rewrite i64_small by done. unfold clamp64. lia.
  - destruct (Z.ltb_spec (clamp64 n) 0) as [Hneg|Hnn]; unfold clamp64, i64_min, i64_max in *; nia.
Qed.

Lemma parse_saturates_text sp1 g k x sp2 u sp3 f lim :
  spaces sp1 -> spaces sp2 -> spaces sp3 -> 0 <= x < 10 ^ Z.of_nat (S k) -> unit_factor u = Some (f, lim) ->
  parseSignedDuration (sp1 +:+ numeral g k x +:+ sp2 +:+ u +:+ sp3) = inr (scaled (signed g x) f).
Proof.
  intros H1 H2 H3 Hx Hu. destruct (unit_words u f lim Hu) as (Hw & Hl & Hc). unfold parseSignedDuration.
  rewrite c_str_clean by auto using c_str_clean, c_str_spaces, c_str_numeral.
  assert (no_digit (sp2 +:+ u +:+ sp3)) as Hrest.
  { apply spaces_no_digit; [done|]. destruct u; [|done]. destruct sp3 as [|c sp3]; [done|].
    apply spaces_cons in H3 as [Hs _]. by apply space_no_digit. }
  rewrite strtol_numeral by done.
  rewrite trim_word, Hu by done. by rewrite (parse_scaled _ u).
Qed.

(** ** Reading what was printed *)

(** The unit that [print_nanoseconds] chooses. *)
Definition print_unit (nanos : Z) : Z * string :=
  if negb (Z.quot nanos 1000000000 =? 0) then (1000000000, "s")
  else if negb (Z.quot nanos 1000000 =? 0) then (1000000, "ms")
  else if negb (Z.quot nanos 1000 =? 0) then (1000, "us") else (1, "ns").

Definition unit_digits (f : Z) : nat :=
  if f =? 1000000000 then 9 else if f =? 1000000 then 6 else 3.

Lemma print_ld_numeral n : i64_min <= n <= i64_max ->
  exists g k x, print_ld n = numeral g k x /\ 0 <= x < 10 ^ Z.of_nat (S k) /\ signed g x = n.
Proof.
  unfold i64_min, i64_max, print_ld, print_lu. intros Hn.
  destruct (strip_zeros_digits 19 (Z.abs n)) as (k & Hk & Hx).
  { change (10 ^ Z.of_nat 20) with 100000000000000000000. lia. }
  destruct (Z.ltb_spec n 0).
  - rewrite Z.abs_neq in Hk, Hx by lia. exists Minus, k, (- n). unfold numeral, signed. rewrite Hk. split_and!; try done; lia.
  - rewrite Z.abs_eq in Hk, Hx by lia. exists NoSign, k, n. unfold numeral, signed. rewrite Hk. split_and!; try done; lia.
Qed.

Lemma print_whole n u f lim :
  i64_min <= n <= i64_max -> unit_factor u = Some (f, lim) ->
  parseSignedDuration (print_ld n +:+ " " +:+ u) = inr (scaled n f).
Proof.
  intros Hn Hu. destruct (print_ld_numeral n Hn) as (g & k & x & -> & Hx & <-).
  rewrite <-(string_app_nil_r u). apply (parse_saturates_text "" g k x " " u "" f lim); try done; try apply spaces_nil.
  apply spaces_cons. split; [done|apply spaces_nil].
Qed.

Lemma print_fraction n t :
  i64_min <= n <= i64_max -> c_str t = t ->
  parseSignedDuration (print_ld n +:+ String "." t) =
    inl ("Invalid time description: could not parse units from " +:+ (print_ld n +:+ String "." t)).
Proof.
  intros Hn Ht. destruct (print_ld_numeral n Hn) as (g & k & x & -> & Hx & Hs). unfold parseSignedDuration.
  rewrite c_str_clean; [|apply c_str_numeral|simpl; by rewrite Ht].
  change (numeral g k x +:+ String "." t) with ("" +:+ numeral g k x +:+ String "." t) at 1.
  rewrite strtol_numeral by (done || apply spaces_nil). unfold trim. simpl trim_end.
  rewrite andb_false_r. done.
Qed.

Lemma padFraction_zero n : padFraction 0 n = "".
Proof. done. Qed.

Lemma padFraction_point fraction n : fraction <> 0 -> exists t, padFraction fraction n = String "." t /\ c_str t = t.
Proof.
  intros Hf. unfold padFraction. destruct (Z.eqb_spec fraction 0); [done|].
  destruct (drop_zero_groups _ _ _) as [f m]. eexists. split; [reflexivity|]. apply c_str_digits.
Qed.

Lemma print_parts nanos :
  print_nanoseconds nanos =
    print_ld (Z.quot nanos (print_unit nanos).1) +:+
    padFraction (Z.rem nanos (print_unit nanos).1) (unit_digits (print_unit nanos).1) +:+
    " " +:+ (print_unit nanos).2.
Proof.
  unfold print_nanoseconds, print_unit. repeat destruct (negb _); simpl; [done..|]. by rewrite Z.quot_1_r, Z.rem_1_r.
Qed.

(** What is printed without a fraction is read back; with one it is refused:
    only whole numbers can be read. *)
Theorem print_parse nanos :
  i64_min <= nanos <= i64_max ->
  parseSignedDuration (print_nanoseconds nanos) =
    if Z.rem nanos (print_unit nanos).1 =? 0 then inr nanos
    else inl ("Invalid time description: could not parse units from " +:+ print_nanoseconds nanos).
Proof.
  intros Hn. rewrite print_parts. set (p := print_unit nanos).
  assert (exists lim, unit_factor p.2 = Some (p.1, lim) /\ 0 < p.1 /\ (p.1 = 1 -> nanos <> i64_min)) as (lim & Hu & Hpos & Hone).
  { subst p. unfold print_unit. destruct (Z.eqb_spec (Z.quot nanos 1000000000) 0) as [Hq|Hq]; [|by eexists].
    simpl. destruct (negb _); [by eexists|]. destruct (negb _); [by eexists|].
    eexists. split_and!; [done|done|]. intros _ ->. by vm_compute in Hq. }
  pose proof (Z.quot_rem' nanos p.1) as Hqr.
  assert (i64_min <= Z.quot nanos p.1 <= i64_max) as Hq.
  { unfold i64_min, i64_max in *. destruct (Z.le_gt_cases 0 nanos).
    - split; [pose proof (Z.quot_pos nanos p.1); lia|]. pose proof (Z.quot_le_upper_bound nanos p.1 9223372036854775807). nia.
    - pose proof (Z.quot_opp_l nanos p.1 ltac:(lia)) as Ho. pose proof (Z.quot_pos (- nanos) p.1).
      pose proof (Z.quot_le_upper_bound (- nanos) p.1 9223372036854775808). nia. }
  destruct (Z.eqb_spec (Z.rem nanos p.1) 0) as [Hr|Hr].
  - rewrite Hr, padFraction_zero. change ("" +:+ ?t) with t. rewrite (print_whole _ _ p.1 lim) by done. f_equal. unfold scaled.
    rewrite Hr in Hqr. assert (Z.quot nanos p.1 * p.1 = nanos) as -> by lia.
    assert (clamp64 nanos = nanos) as -> by (unfold clamp64, i64_min, i64_max in *; lia).
    destruct (Z.leb_spec (Z.quot nanos p.1) i64_min); [|done]. destruct (Z.eqb_spec p.1 1); [done|].
    unfold i64_min in *. simpl. nia.
  - destruct (padFraction_point (Z.rem nanos p.1) (unit_digits p.1) Hr) as (t & -> & Ht).
    change (String "." t +:+ ?r) with (String "." (t +:+ r)). apply print_fraction; [done|].
    apply c_str_clean; [done|]. subst p. unfold print_unit. by repeat destruct (negb _).
Qed.

(** ** Points in time *)

(** The seconds and nanoseconds are those of the time, but the nanoseconds of a
    whole negative second are 10^9, which is not in the range the code means. *)
Theorem makeTimeSpec_exact nanos :
  let ts := makeTimeSpec nanos in
  tv_sec ts * 1000000000 + tv_nsec ts = nanos /\ 0 <= tv_nsec ts <= 1000000000 /\
  (tv_nsec ts = 1000000000 <-> nanos < 0 /\ nanos mod 1000000000 = 0).
Proof.
  simpl. unfold makeTimeSpec. pose proof (Z.quot_rem' nanos 1000000000) as Hqr.
  destruct (Z.ltb_spec nanos 0) as [Hneg|Hpos]; simpl.
  - pose proof (Z.rem_bound_pos_neg nanos 1000000000 ltac:(lia) ltac:(lia)). split_and!; [lia|lia|lia|].
    split.
    + intros Hz. split; [done|]. assert (Z.rem nanos 1000000000 = 0) as Hr by lia.
      rewrite Hqr, Hr, Z.add_0_r, Z.mul_comm. by apply Z.mod_mul.
    + intros [_ Hm]. apply Z.mod_divide in Hm as [q ->]; [|done]. by rewrite Z.rem_mul.
  - pose proof (Z.rem_bound_pos nanos 1000000000 ltac:(lia) ltac:(lia)). split_and!; lia.
Qed.

(** A time on the steady clock becomes the same distance from now on the system
    clock, or the last time there is. *)
Theorem convert_saturates c when_ :
  0 <= steadyNow c <= i64_max -> 0 <= systemNow c <= i64_max -> i64_min + steadyNow c <= when_ <= i64_max ->
  convert c when_ = Z.min i64_max (systemNow c + (when_ - steadyNow c)).
Proof.
  unfold convert, i64_max, i64_min. intros Hs Hy Hw. rewrite (i64_small (_ - _)) by (unfold i64_min, i64_max; lia).
  destruct (Z.le_gt_cases (systemNow c + (when_ - steadyNow c)) 9223372036854775807) as [Hle|Hgt].
  - rewrite i64_small by (unfold i64_min, i64_max; lia).
    destruct (Z.ltb_spec (steadyNow c) when_); simpl; [|lia]. rewrite (proj2 (Z.ltb_ge _ _)) by lia. lia.
  - assert (i64 (systemNow c + (when_ - steadyNow c)) = systemNow c + (when_ - steadyNow c) - 18446744073709551616) as ->.
    { unfold i64. rewrite <-(Z.mod_add _ (-1)) by done. rewrite Z.mod_small; lia. }
    rewrite (proj2 (Z.ltb_lt _ _)) by lia. rewrite (proj2 (Z.ltb_lt _ _)) by lia. unfold TimePoint_max. simpl. lia.
Qed.

(** C31: A duration that people write (a decimal number, signed or not, and a unit,
    with white space around them) is read as the number times the unit,
    saturating at the ends of [int64_t], except that a number at or below the
    smallest [int64_t] gives 0 in every unit but nanoseconds; where durations
    must not be negative, exactly those whose value is are refused, with a
    message that quotes the text. *)
Theorem parse_saturates sp1 g k x sp2 u sp3 f lim :
  spaces sp1 -> spaces sp2 -> spaces sp3 -> 0 <= x < 10 ^ Z.of_nat (S k) -> unit_factor u = Some (f, lim) ->
  let description := sp1 +:+ numeral g k x +:+ sp2 +:+ u +:+ sp3 in
  let value := scaled (signed g x) f in
  parseSignedDuration description = inr value /\
  parseNonNegativeDuration description =
    (if decide (0 <= value) then inr value
     else inl ("Invalid time description: '" +:+ c_str description +:+ "' is negative")).
Proof.
  intros H1 H2 H3 Hx Hu description value.
  assert (parseSignedDuration description = inr value) as Hp by (by eapply parse_saturates_text).
  split; [exact Hp|]. unfold parseNonNegativeDuration. rewrite Hp.
  destruct (Z.ltb_spec value 0); case_decide; [lia|done|done|lia].
Qed.

Lemma parse_saturates_witness :
  (parseSignedDuration " -17 minutes " = inr (-1020000000000) /\
   parseNonNegativeDuration " -17 minutes " =
     inl "Invalid time description: ' -17 minutes ' is negative") /\
  (parseSignedDuration "-9223372036854775809s" = inr 0 /\
   parseNonNegativeDuration "-9223372036854775809s" = inr 0).
Proof.
  assert (spaces " ") as Hsp by (apply spaces_cons; split; [reflexivity|apply spaces_nil]).
  split.
  - exact (parse_saturates " " Minus 1 17 " " "minutes" " " 60000000000 153722867 Hsp Hsp Hsp
      ltac:(vm_compute; split; congruence) eq_refl).
  - exact (parse_saturates "" Minus 18 9223372036854775809 "" "s" "" 1000000000 9223372036 spaces_nil spaces_nil spaces_nil
      ltac:(vm_compute; split; congruence) eq_refl).
Defined.

(** A whole second before the epoch. *)
Example whole_second : makeTimeSpec (-1000000000) = mkTimespec (-2) 1000000000.
Proof. reflexivity. Qed.
