(* ===== verification/Address.v ===== *)
(** * Addresses of servers

    [RPC/Address.{h,cc}] and [StringUtil::split]: the list of hosts and ports that
    stands for a server, and its resolution to a socket address. Name
    resolution and random numbers are inputs. *)

From Stdlib Require Import ZArith Lia Ascii String.
From stdpp Require Import base gmap strings list.
From S2P Require Import Prelude StringUtil Printf.
Local Open Scope string_scope.
Local Open Scope Z_scope.

(** ** Splitting *)

(** [split]: [getline] up to each delimiter. There is no item after a delimiter
    that ends the text. *)
Fixpoint split (subject : string) (delimiter : ascii) : list string :=
  match subject with
  | EmptyString => []
  | String c rest =>
      if Ascii.eqb c delimiter then "" :: split rest delimiter
      else match split rest delimiter with
           | [] => [String c ""]
           | item :: items => String c item :: items
           end
  end.

(** [s.rfind(c)]: what is before and after the last [c]. *)
Fixpoint rfind (c : ascii) (s : string) : option (string * string) :=
  match s with
  | EmptyString => None
  | String a s' =>
      match rfind c s' with
      | Some (before, after) => Some (String a before, after)
      | None => if Ascii.eqb a c then Some ("", s') else None
      end
  end.

Fixpoint last_char (s : string) : option ascii :=
  match s with
  | EmptyString => None
  | String c EmptyString => Some c
  | String _ s' => last_char s'
  end.

(** ** State *)

(** A [sockaddr_storage], by family; ports are in host order. *)
Inductive sockaddr : Type :=
| Unspecified
| Inet (addr : string) (port : Z)
| Inet6 (addr : string) (port : Z)
| OtherFamily.

Record Address : Type := mkAddress {
  originalString : string;
  hosts : list (string * string);
  storage : sockaddr;
  addr_len : Z
}.

#[export] Instance Address_eta : Eta Address := fun a =>
  mkAddress (originalString a) (hosts a) (storage a) (addr_len a).

(** ** The constructors *)

(** [host.at(0)] of an empty host is out of range. *)
Definition strip_brackets (host : string) : outcome string :=
  match host with
  | EmptyString => Fail OutOfRange
  | String c _ =>
      if Ascii.eqb c "[" && bool_decide (last_char host = Some "]"%char)
      then Ok (substring 1 (String.length host - 2) host) else Ok host
  end.

Definition parse_host (defaultPort : Z) (host : string) : outcome (string * string) :=
  let (host, port) :=
    match rfind ":" host with
    | Some (before, after) => if has_char "]" after then (host, print_lu defaultPort) else (before, after)
    | None => (host, print_lu defaultPort)
    end in
  match strip_brackets host with
  | Ok host => Ok (host, port)
  | Fail f => Fail f
  end.

Fixpoint parse_hosts (defaultPort : Z) (hostsList : list string) : outcome (list (string * string)) :=
  match hostsList with
  | [] => Ok []
  | host :: rest =>
      if string_empty host then parse_hosts defaultPort rest
      else match parse_host defaultPort host with
           | Fail f => Fail f
           | Ok h => match parse_hosts defaultPort rest with
                     | Ok hs => Ok (h :: hs)
                     | Fail f => Fail f
                     end
           end
  end.

Definition Address_construct (str : string) (defaultPort : Z) : outcome Address :=
  match parse_hosts defaultPort (split str ",") with
  | Ok hosts => Ok (mkAddress str hosts Unspecified 0)
  | Fail f => Fail f
  end.

Definition Address_default : Address := mkAddress "" [] Unspecified 0.

Definition isValid (a : Address) : bool := 0 <? addr_len a.

(** [i >= hosts.size()] compares as unsigned numbers. *)
Definition host_at (i : Z) (a : Address) : option (string * string) :=
  if Z.of_nat (length (hosts a)) <=? u64 i then None else hosts a !! Z.to_nat i.

Definition getAddressAt (i : Z) (a : Address) : string :=
  match host_at i a with Some h => h.1 | None => "" end.

Definition getPortAt (i : Z) (a : Address) : string :=
  match host_at i a with Some h => h.2 | None => "" end.

(** [inet_ntop] is the C library's. *)
Section Resolved.
Context (inet_ntop inet_ntop6 : string -> string).

Definition getResolvedString (a : Address) : string :=
  match storage a with
  | Unspecified => "Unspecified"
  | Inet addr port => inet_ntop addr +:+ ":" +:+ print_lu port
  | Inet6 addr port => "[" +:+ inet_ntop6 addr +:+ "]:" +:+ print_lu port
  | OtherFamily => "Unknown protocol"
  end.

Definition Address_toString (a : Address) : string :=
  if string_empty (originalString a) then "No address given"
  else c_str (originalString a) +:+ " (resolved to " +:+ c_str (getResolvedString a) +:+ ")".
End Resolved.

(** What [getaddrinfo] answers: the addresses with their lengths, or an error. *)
Definition is_internet (r : sockaddr * Z) : bool :=
  match r.1 with Inet _ _ | Inet6 _ _ => true | _ => false end.

(** [random] is the two random numbers. *)
Definition refresh (getaddrinfo : string -> string -> option (list (sockaddr * Z))) (random : Z * Z) (a : Address) :
    outcome Address :=
  match hosts a with
  | [] => Ok a
  | _ =>
      match hosts a !! Z.to_nat (random.1 mod Z.of_nat (length (hosts a))) with
      | None => Fail OutOfRange
      | Some (host, port) =>
          match getaddrinfo (c_str host) (c_str port) with
          | None => Ok a
          | Some result =>
              let candidates := List.filter is_internet result in
              match candidates with
              | [] => Ok a
              | _ => match candidates !! Z.to_nat (random.2 mod Z.of_nat (length candidates)) with
                     | None => Fail OutOfRange
                     | Some (addr, len) => Ok (a <| storage := addr |> <| addr_len := len |>)
                     end
              end
          end
      end
  end.

Example parse_two : parse_hosts 5254 (split "[::1]:80,example.com,[fe80::1],,10.0.0.1:5" ",") =
  Ok [("::1", "80"); ("example.com", "5254"); ("fe80::1", "5254"); ("10.0.0.1", "5")].
Proof. reflexivity. Qed.

(** ** Writing and reading lists of addresses *)

Lemma split_item d item rest :
  has_char d item = false -> split (item +:+ String d rest) d = item :: split rest d.
Proof.
  induction item as [|c item IH]; intros Hc; [simpl; by rewrite Ascii.eqb_refl|].
  rewrite string_app_cons. simpl in *. apply orb_false_iff in Hc as [-> Hc]. by rewrite IH.
Qed.

Lemma split_last d item : has_char d item = false -> item <> "" -> split item d = [item].
Proof.
  induction item as [|c item IH]; [done|]. simpl. intros [-> Hc]%orb_false_iff _.
  destruct item; [done|]. by rewrite IH.
Qed.

Lemma split_join d items :
  Forall (fun i => has_char d i = false /\ i <> "") items -> split (join items (String d "")) d = items.
Proof.
  induction 1 as [|i items [Hd Hne] Hall IH]; [done|]. destruct items as [|i' items].
  - simpl. by apply split_last.
  - change (join (i :: i' :: items) (String d "")) with (i +:+ String d "" +:+ join (i' :: items) (String d "")).
    change (String d "" +:+ ?t) with (String d t). by rewrite split_item, IH.
Qed.

Lemma rfind_none c s : has_char c s = false -> rfind c s = None.
Proof. induction s as [|a s IH]; [done|]. simpl. intros [-> Hs]%orb_false_iff. by rewrite IH. Qed.

Lemma rfind_app c s t : has_char c t = false -> rfind c (s +:+ String c t) = Some (s, t).
Proof.
  intros Ht. induction s as [|a s IH]; [simpl; by rewrite rfind_none, Ascii.eqb_refl|].
  rewrite string_app_cons. simpl. by rewrite IH.
Qed.

Lemma last_char_app s c : last_char (s +:+ String c "") = Some c.
Proof.
  induction s as [|a s IH]; [done|]. rewrite string_app_cons. simpl. rewrite IH.
  by destruct s.
Qed.

Lemma last_char_has s c : last_char s = Some c -> has_char c s = true.
Proof.
  induction s as [|a s IH]; [done|]. simpl. destruct s as [|b s]; [intros [= ->]; by rewrite Ascii.eqb_refl|].
  intros Hl. by rewrite IH, orb_true_r.
Qed.

(** What follows the last [c] of a text that ends in another character ends in it too. *)
Lemma rfind_last c s b a x : rfind c s = Some (b, a) -> last_char s = Some x -> x <> c -> last_char a = Some x.
Proof.
  revert b. induction s as [|y s IH]; intros b; [done|]. simpl. destruct (rfind c s) as [[b' a']|] eqn:Hr.
  - intros [= <- <-] Hl Hx. destruct s; [done|]. by eapply IH.
  - destruct (Ascii.eqb_spec y c) as [->|]; [|done]. intros [= <- <-]. destruct s; [by intros [= ->]|done].
Qed.

Lemma substring_whole s t : substring 0 (String.length s) (s +:+ t) = s.
Proof.
  induction s as [|c s IH]; [by destruct t|]. rewrite string_app_cons. cbn [String.length substring]. by rewrite IH.
Qed.

Lemma strip_bracketed h : strip_brackets (String "[" (h +:+ "]")) = Ok h.
Proof.
  unfold strip_brackets. change (String "[" (h +:+ "]")) with (String "[" h +:+ "]").
  rewrite last_char_app, bool_decide_eq_true_2 by done. simpl andb. cbn iota.
  replace (String.length (String "[" h +:+ "]") - 2)%nat with (String.length h).
  - rewrite string_app_cons. cbn [substring]. by rewrite substring_whole.
  - assert (String.length (h +:+ "]") = S (String.length h)) as Hl by (clear; induction h as [|c h IH]; [done|]; rewrite string_app_cons; simpl; by rewrite IH).
    rewrite string_app_cons. simpl. lia.
Qed.

(** A name or an IPv4 address: it needs no brackets. *)
Definition plain (h : string) : Prop :=
  match h with EmptyString => False | String c _ => c <> "["%char end.

Lemma strip_plain h : plain h -> strip_brackets h = Ok h.
Proof. destruct h as [|c h]; [done|]. simpl. intros Hc. by rewrite (proj2 (Ascii.eqb_neq _ _)). Qed.

(** How people write a host, and what is meant. *)
Inductive host_text : Type :=
| PlainPort (h p : string)
| Plain (h : string)
| BracketedPort (h p : string)
| Bracketed (h : string).

Definition text (t : host_text) : string :=
  match t with
  | PlainPort h p => h +:+ ":" +:+ p
  | Plain h => h
  | BracketedPort h p => "[" +:+ h +:+ "]:" +:+ p
  | Bracketed h => "[" +:+ h +:+ "]"
  end.

Definition meaning (defaultPort : Z) (t : host_text) : string * string :=
  match t with
  | PlainPort h p | BracketedPort h p => (h, p)
  | Plain h | Bracketed h => (h, print_lu defaultPort)
  end.

Definition port_text (p : string) : Prop :=
  has_char "," p = false /\ has_char ":" p = false /\ has_char "]" p = false.

Definition well_written (t : host_text) : Prop :=
  match t with
  | PlainPort h p => plain h /\ has_char "," h = false /\ port_text p
  | Plain h => plain h /\ has_char "," h = false /\ has_char ":" h = false
  | BracketedPort h p => has_char "," h = false /\ port_text p
  | Bracketed h => has_char "," h = false
  end.

Lemma bracketed_port_text h p :
  text (BracketedPort h p) = String "[" (h +:+ "]") +:+ String ":" p.
Proof. rewrite string_app_cons, string_app_assoc. done. Qed.

Lemma parse_text d t : well_written t -> parse_host d (text t) = Ok (meaning d t).
Proof.
  unfold parse_host. destruct t as [h p|h|h p|h]; cbn [well_written meaning].
  - intros (Hh & _ & _ & Hc & Hb). change (text (PlainPort h p)) with (h +:+ String ":" p). by rewrite rfind_app, Hb, strip_plain.
  - intros (Hh & _ & Hc). cbn [text]. by rewrite rfind_none, strip_plain.
  - intros (_ & _ & Hc & Hb). by rewrite bracketed_port_text, rfind_app, Hb, strip_bracketed.
  - intros _. change (text (Bracketed h)) with (String "[" h +:+ "]").
    destruct (rfind ":" (String "[" h +:+ "]")) as [[b a]|] eqn:Hr; [|by rewrite string_app_cons, strip_bracketed].
    rewrite (last_char_has a "]"); [by rewrite string_app_cons, strip_bracketed|].
    eapply rfind_last; [exact Hr|apply last_char_app|done].
Qed.

Lemma text_item t : well_written t -> has_char "," (text t) = false /\ text t <> "".
Proof.
  destruct t as [h p|h|h p|h]; simpl.
  - intros (Hh & Hc & Hp & _). rewrite !has_char_app, Hc, Hp. split; [done|]. by destruct h.
  - intros (Hh & Hc & _). split; [done|]. by destruct h.
  - intros (Hc & Hp & _). rewrite !has_char_app, Hc, Hp. done.
  - intros Hc. rewrite !has_char_app, Hc. done.
Qed.

(** A list of hosts, with ports or without, IPv6 addresses in brackets, is
    read as it is meant: each host with its port or the default one, in order.
    An item that is only a port is an exception. *)
Theorem Address_reads_hosts d l :
  Forall well_written l ->
  Address_construct (join (map text l) ",") d =
    Ok (mkAddress (join (map text l) ",") (map (meaning d) l) Unspecified 0) /\
  (forall p, port_text p -> Address_construct (":" +:+ p) d = Fail OutOfRange).
Proof.
  intros Hl. unfold Address_construct. split.
  - change "," with (String "," ""). rewrite split_join.
    + assert (parse_hosts d (map text l) = Ok (map (meaning d) l)) as ->; [|done].
      induction Hl as [|t l Ht _ IH]; [done|]. simpl. destruct (text_item t Ht) as [_ Hne].
      destruct (string_empty (text t)) eqn:He; [by destruct (text t)|]. by rewrite parse_text, IH.
    + clear d. induction Hl as [|t l Ht _ IH]; constructor; [by apply text_item|done].
  - intros p (Hc & Hcol & Hb). rewrite split_last; [|by rewrite has_char_app, Hc|done].
    cbn [parse_hosts string_empty]. unfold parse_host.
    assert (rfind ":" (":" +:+ p) = Some ("", p)) as -> by (exact (rfind_app ":" "" p Hcol)). by rewrite Hb.
Qed.

Lemma Address_reads_hosts_witness :
  Address_construct "[::1]:80,example.com" 5254 =
    Ok (mkAddress "[::1]:80,example.com" [("::1", "80"); ("example.com", "5254")] Unspecified 0) /\
  Address_construct ":80" 5254 = Fail OutOfRange.
Proof.
  destruct (Address_reads_hosts 5254 [BracketedPort "::1" "80"; Plain "example.com"]) as [Hl Hp].
  - repeat constructor; by vm_compute.
  - split; [exact Hl|]. apply (Hp "80"). by vm_compute.
Defined.
