(* ===== verification/Config.v ===== *)
(** * Configuration files

    [Core/Config.{h,cc}]: keys and values, read from and written to text. Streams
    are their contents and two flags; the conversions of single values that the
    C++ library does ([>>] on a number) are inputs. *)

From Stdlib Require Import ZArith Lia Ascii String.
From stdpp Require Import base gmap strings list.
From S2P Require Import Prelude OrderedMap StringUtil Printf.
Local Open Scope string_scope.
Local Open Scope Z_scope.

(** ** Trimming *)

Definition whitespace : list ascii := [" "; "010"; "009"; "011"; "013"; "012"]%char.
Definition is_white (c : ascii) : bool := existsb (Ascii.eqb c) whitespace.

(** [s.erase(0, s.find_first_not_of(whitespace))]: all of it if there is none. *)
Fixpoint ltrim (s : string) : string :=
  match s with
  | String c s' => if is_white c then ltrim s' else s
  | EmptyString => s
  end.

(** [s.erase(s.find_last_not_of(whitespace) + 1)] *)
Fixpoint rtrim (s : string) : string :=
  match s with
  | EmptyString => EmptyString
  | String c s' =>
      let t := rtrim s' in
      if string_empty t && is_white c then EmptyString else String c t
  end.

Definition trim (s : string) : string := rtrim (ltrim s).

(** [s.find(needle)]: what is before and after its first occurrence. *)
Fixpoint find (needle s : string) : option (string * string) :=
  if startsWith s needle
  then Some ("", substring (String.length needle) (String.length s - String.length needle) s)
  else match s with
       | EmptyString => None
       | String c s' =>
           match find needle s' with
           | Some (before, after) => Some (String c before, after)
           | None => None
           end
       end.

(** ** State *)

Record Config : Type := mkConfig {
  delimiter : string;
  comment : string;
  contents : list (string * string)
}.

#[export] Instance Config_eta : Eta Config := fun c =>
  mkConfig (delimiter c) (comment c) (contents c).

Definition Config_init : Config := mkConfig "=" "#" [].
Definition Config_of_options (options : list (string * string)) : Config := mkConfig "=" "#" options.

(** An input stream: what is left of its contents, [eofbit] and [failbit]. *)
Record istream : Type := mkIstream { unread : string; eofbit : bool; failbit : bool }.

Definition istream_of (text : string) : istream := mkIstream text false false.

(** [operator bool] *)
Definition is_ok (str : istream) : bool := negb (failbit str).

(** [std::getline] *)
Definition getline (str : istream) : string * istream :=
  if eofbit str || failbit str then ("", mkIstream (unread str) (eofbit str) true)
  else if string_empty (unread str) then ("", mkIstream "" true true)
  else match find (String "010" "") (unread str) with
       | Some (line, rest) => (line, mkIstream rest false false)
       | None => (unread str, mkIstream "" true false)
       end.

(** ** Reading *)

Definition readLine (c : Config) (str : istream) : string * istream :=
  let (line, str) := getline str in
  let line := match find (comment c) line with Some (before, _) => before | None => line end in
  (trim line, str).

(** The lines that continue a value: the value and [nextLine]. One round reads
    one line; [fuel] bounds the lines left. *)
Fixpoint read_value (fuel : nat) (c : Config) (value : string) (str : istream) :
    option (string * string * istream) :=
  if negb (is_ok str) then Some (value, "", str) else
  match fuel with
  | O => None
  | S fuel =>
      let (line, str) := readLine c str in
      if string_empty line then Some (value, "", str)
      else match find (delimiter c) line with
           | Some _ => Some (value, line, str)
           | None => read_value fuel c (value +:+ String "010" line) str
           end
  end.

(** [operator>>]; the loop with the line that was read ahead. *)
Fixpoint read_entries (fuel : nat) (c : Config) (nextLine : string) (str : istream) : option (Config * istream) :=
  if negb (is_ok str) && string_empty nextLine then Some (c, str) else
  match fuel with
  | O => None
  | S fuel =>
      let (line, str) := if string_empty nextLine then readLine c str else (nextLine, str) in
      match find (delimiter c) line with
      | None => read_entries fuel c "" str
      | Some (before, after) =>
          match read_value (S fuel) c (ltrim after) str with
          | None => None
          | Some (value, nextLine, str) =>
              read_entries fuel (c <| contents := om_set (contents c) (rtrim before) value |>) nextLine str
          end
      end
  end.

(** Each round reads a line or uses the one read ahead, so twice the number of
    characters and a few rounds are enough ([Config_reads]). *)
Definition Config_read (c : Config) (text : string) : option Config :=
  match read_entries (2 * String.length text + 4) c "" (istream_of text) with
  | Some (c, _) => Some c
  | None => None
  end.

(** ** Writing *)

Fixpoint write_entries (delimiter : string) (entries : list (string * string)) : string :=
  match entries with
  | [] => ""
  | (k, v) :: entries => k +:+ " " +:+ delimiter +:+ " " +:+ v +:+ String "010" (write_entries delimiter entries)
  end.

Definition Config_write (c : Config) : string := write_entries (delimiter c) (contents c).

(** ** Access *)

Definition keyExists (key : string) (c : Config) : bool := bool_decide (is_Some (om_lookup (contents c) key)).

Definition Config_set (key value : string) (c : Config) : Config :=
  c <| contents := om_set (contents c) (trim key) (trim value) |>.

Definition Config_remove (key : string) (c : Config) : Config :=
  c <| contents := om_erase (contents c) key |>.

(** The exceptions, with their messages; [demangle] is the C++ runtime's. *)
Inductive ConfigException : Type :=
| FileNotFound (filename : string)
| KeyNotFound (key : string)
| ConversionError (key value typeName : string).

Definition what (demangle : string -> string) (e : ConfigException) : string :=
  match e with
  | FileNotFound filename => "The config file " +:+ c_str filename +:+ " could not be opened"
  | KeyNotFound key => "The configuration does not specify " +:+ c_str key
  | ConversionError key value typeName =>
      "The value " +:+ c_str key +:+ " for key " +:+ c_str value +:+ " could not be converted to a " +:+
      c_str (demangle typeName)
  end.

(** [file] is what the file holds, [None] where it cannot be opened. *)
Definition readFile (filename : string) (file : option string) (c : Config) : option (ConfigException + Config) :=
  match file with
  | None => Some (inl (FileNotFound filename))
  | Some text => match Config_read c text with Some c' => Some (inr c') | None => None end
  end.

(** [fromString<T>]: how a [T] is read from a string. *)
Class FromString (T : Type) := fromString : string -> string -> ConfigException + T.

#[export] Instance fromString_string : FromString string := fun key s => inr s.

Definition bool_values : list (string * bool) :=
  [("0", false); ("1", true); ("F", false); ("FALSE", false); ("N", false); ("NO", false); ("T", true);
   ("TRUE", true); ("Y", true); ("YES", true); ("f", false); ("false", false); ("n", false); ("no", false);
   ("t", true); ("true", true); ("y", true); ("yes", true)].

#[export] Instance fromString_bool : FromString bool := fun key s =>
  match om_lookup bool_values s with
  | Some b => inr b
  | None => inl (ConversionError key s "bool")
  end.

(** The general template: [ist >> t] must succeed and use up the string. *)
Definition fromString_stream {T} (extract : string -> option (T * string)) (typeName : string) : FromString T :=
  fun key s =>
    match extract s with
    | Some (t, "") => inr t
    | _ => inl (ConversionError key s typeName)
    end.

Definition Config_read_key {T} `{FromString T} (key : string) (c : Config) : ConfigException + T :=
  match om_lookup (contents c) key with
  | None => inl (KeyNotFound key)
  | Some v => fromString key v
  end.

Definition Config_read_default {T} `{FromString T} (key : string) (value : T) (c : Config) : ConfigException + T :=
  match om_lookup (contents c) key with
  | None => inr value
  | Some v => fromString key v
  end.

Definition nl : string := String "010" "".

Example Config_read_1 : Config_read Config_init ("# x" +:+ nl +:+ " a = b=c # d" +:+ nl +:+ "  more " +:+ nl +:+ nl +:+ "k=" +:+ nl +:+ "a =2") =
  Some (mkConfig "=" "#" [("a", "2"); ("k", "")]).
Proof. reflexivity. Qed.
Example Config_read_2 : Config_read Config_init ("a = b" +:+ nl +:+ " c ") = Some (mkConfig "=" "#" [("a", "b" +:+ nl +:+ "c")]).
Proof. reflexivity. Qed.

(** ** Every text can be read

    A line that is read uses up the stream: [lines_left] bounds how many more
    can be. *)

Definition lines_left (str : istream) : nat :=
  if failbit str then 0 else if eofbit str then 1 else S (S (String.length (unread str))).

Lemma startsWith_char_cons n c s : startsWith (String c s) (String n "") = Ascii.eqb c n.
Proof.
  apply eq_true_iff_eq. rewrite startsWith_char, Ascii.eqb_eq.
  split; [by intros [s' [= ->]] | intros ->; by exists s].
Qed.

Lemma startsWith_char_nil n : startsWith "" (String n "") = false.
Proof. done. Qed.

Lemma substring_all s : substring 0 (String.length s) s = s.
Proof. induction s as [|a s IH]; [done|]. simpl. by rewrite IH. Qed.

(** Delimiter, comment mark and line end are one character by default: [find]
    is then a search for it. *)
Lemma find_char n c s :
  find (String n "") (String c s) =
  if Ascii.eqb c n then Some ("", s)
  else match find (String n "") s with Some (b, a) => Some (String c b, a) | None => None end.
Proof.
  cbn [find]. rewrite startsWith_char_cons. destruct (Ascii.eqb c n); [|done].
  do 2 f_equal. cbn [substring String.length]. rewrite Nat.sub_succ, Nat.sub_0_r. apply substring_all.
Qed.

Lemma find_none n s : has_char n s = false -> find (String n "") s = None.
Proof.
  induction s as [|c s IH]; [done|]. rewrite find_char. cbn [has_char].
  intros [-> Hs]%orb_false_iff. by rewrite IH.
Qed.

Lemma find_first n s t : has_char n s = false -> find (String n "") (s +:+ String n t) = Some (s, t).
Proof.
  induction s as [|c s IH].
  - intros _. change ("" +:+ String n t) with (String n t). by rewrite find_char, Ascii.eqb_refl.
  - cbn [has_char]. intros [Hc Hs]%orb_false_iff. rewrite string_app_cons, find_char, Hc. by rewrite IH.
Qed.

Lemma find_char_spec n s :
  match find (String n "") s with
  | Some (b, a) => s = b +:+ String n a /\ has_char n b = false
  | None => has_char n s = false
  end.
Proof.
  induction s as [|c s IH]; [done|]. rewrite find_char. cbn [has_char].
  destruct (Ascii.eqb_spec c n) as [->|Hne]; [done|].
  destruct (find (String n "") s) as [[b a]|]; [|done]. destruct IH as [-> Hb]. split; [done|].
  simpl. rewrite Hb. destruct (Ascii.eqb_spec c n); done.
Qed.

Lemma length_app_char s n t : String.length (s +:+ String n t) = S (String.length s + String.length t).
Proof. induction s as [|c s IH]; [done|]. rewrite string_app_cons. simpl. lia. Qed.

Lemma getline_progress str line str' :
  getline str = (line, str') -> is_ok str = true -> (lines_left str' < lines_left str)%nat.
Proof.
  unfold getline, lines_left, is_ok. destruct str as [text [] []]; try done; [intros [= <- <-] _; simpl; lia|].
  simpl. destruct text as [|c s]; [intros [= <- <-] _; simpl; lia|]. cbn [string_empty].
  pose proof (find_char_spec "010" (String c s)) as Hf.
  destruct (find (String "010" "") (String c s)) as [[b a]|]; intros [= <- <-] _; cbn [failbit eofbit unread].
  - destruct Hf as [-> _]. rewrite length_app_char. lia.
  - lia.
Qed.

Lemma readLine_progress c str line str' :
  readLine c str = (line, str') -> is_ok str = true -> (lines_left str' < lines_left str)%nat.
Proof.
  unfold readLine. destruct (getline str) as [l str1] eqn:Hl. intros [= _ <-]. by eapply getline_progress.
Qed.

Lemma read_value_total fuel c value str :
  (lines_left str <= fuel)%nat ->
  exists value' next str', read_value fuel c value str = Some (value', next, str') /\
    (lines_left str' <= lines_left str)%nat /\
    (is_ok str = false -> next = "") /\ (is_ok str = true -> (lines_left str' < lines_left str)%nat).
Proof.
  revert value str. induction fuel as [|fuel IH]; intros value str Hfuel; cbn [read_value];
    destruct (is_ok str) eqn:Hok; cbn [negb].
  - unfold is_ok, lines_left in *. destruct str as [? [] []]; simpl in *; try done; lia.
  - by eexists _, _, _.
  - destruct (readLine c str) as [line str'] eqn:Hline. apply readLine_progress in Hline; [|done].
    destruct (string_empty line); [by eexists _, _, _; split_and!; [done|lia|done|lia]|].
    destruct (find (delimiter c) line); [by eexists _, _, _; split_and!; [done|lia|done|lia]|].
    destruct (IH (value +:+ String "010" line) str') as (v & next & str2 & Hv & Hle & _ & _); [lia|].
    exists v, next, str2. split_and!; [done|lia|done|lia].
  - by eexists _, _, _.
Qed.

Definition ahead (next : string) : nat := if string_empty next then 0 else 1.

Lemma read_entries_total fuel c next str :
  (2 * lines_left str + ahead next <= fuel)%nat -> is_Some (read_entries fuel c next str).
Proof.
  revert c next str. induction fuel as [|fuel IH]; intros c next str Hfuel; cbn [read_entries].
  { unfold is_ok, lines_left, ahead in *. destruct str as [? [] []], next; simpl in *; try lia; by eexists. }
  destruct (negb (is_ok str) && string_empty next) eqn:Hend; [by eexists|].
  set (read := if string_empty next then readLine c str else (next, str)).
  assert (Hread : (2 * lines_left read.2 <= fuel)%nat /\
    (2 * lines_left read.2 + (if string_empty next then 2 else 1) <= S fuel)%nat).
  { subst read. unfold ahead in Hfuel. destruct (string_empty next); [|simpl; lia].
    destruct (readLine c str) as [line str'] eqn:Hline. apply andb_false_iff in Hend as [Hok|]; [|done].
    apply negb_false_iff in Hok. pose proof (readLine_progress _ _ _ _ Hline Hok). simpl. lia. }
  destruct read as [line str']. simpl in Hread. destruct Hread as (H1 & H2).
  destruct (find (delimiter c) line) as [[before after]|]; [|apply IH; unfold ahead; simpl; lia].
  destruct (read_value_total (S fuel) c (ltrim after) str') as (v & next' & str2 & -> & Hle & Hend' & Hlt); [lia|].
  apply IH. unfold ahead. destruct (string_empty next') eqn:Hn; [lia|].
  destruct (is_ok str') eqn:Hok; [specialize (Hlt eq_refl); lia|].
  rewrite Hend' in Hn by done. done.
Qed.

Lemma Config_reads c text : is_Some (Config_read c text).
Proof.
  unfold Config_read. destruct (read_entries_total (2 * String.length text + 4) c "" (istream_of text)) as [[c' str] ->].
  - unfold ahead, lines_left. simpl. lia.
  - by eexists.
Qed.

(** ** Clean strings: no white space at either end *)

Definition clean (s : string) : Prop := ltrim s = s /\ rtrim s = s.

Lemma ltrim_length s : (String.length (ltrim s) <= String.length s)%nat.
Proof. induction s as [|c s IH]; [done|]. simpl. destruct (is_white c); simpl; lia. Qed.

Lemma ltrim_cons_white c s : is_white c = true -> ltrim (String c s) <> String c s.
Proof.
  intros Hc Heq. apply (f_equal String.length) in Heq. simpl in Heq. rewrite Hc in Heq.
  pose proof (ltrim_length s). lia.
Qed.

Lemma ltrim_fixed c s : ltrim (String c s) = String c s <-> is_white c = false.
Proof.
  split; [|intros Hc; simpl; by rewrite Hc].
  intros Heq. apply not_true_iff_false. intros Hc. by apply (ltrim_cons_white c s).
Qed.

Lemma rtrim_cons c s :
  rtrim (String c s) = String c s <-> rtrim s = s /\ (s = "" -> is_white c = false).
Proof.
  simpl. destruct (rtrim s) as [|a t] eqn:Ht; simpl.
  - destruct (is_white c) eqn:Hc; split; [done | intros [<- ?]; naive_solver | intros [= <-]; done | by intros [<- _]].
  - split; [intros [= <-]; done | by intros [<- _]].
Qed.

Lemma ltrim_idem s : ltrim (ltrim s) = ltrim s.
Proof. induction s as [|c s IH]; [done|]. simpl. destruct (is_white c) eqn:Hc; [done|]. simpl. by rewrite Hc. Qed.

Lemma rtrim_idem s : rtrim (rtrim s) = rtrim s.
Proof.
  induction s as [|c s IH]; [done|]. cbn [rtrim].
  destruct (string_empty (rtrim s) && is_white c) eqn:Hc; [done|]. apply rtrim_cons. split; [done|].
  intros Ht. rewrite Ht in Hc. done.
Qed.

Lemma rtrim_ltrimmed s : ltrim s = s -> ltrim (rtrim s) = rtrim s.
Proof.
  destruct s as [|c s]; [done|]. intros Hc%ltrim_fixed. cbn [rtrim]. rewrite Hc, andb_false_r. by apply ltrim_fixed.
Qed.

Lemma ltrim_rtrimmed s : rtrim s = s -> rtrim (ltrim s) = ltrim s.
Proof.
  induction s as [|c s IH]; [done|]. intros Hs. simpl. destruct (is_white c); [|done].
  apply IH. by apply rtrim_cons in Hs as [? _].
Qed.

Lemma clean_trim s : clean (trim s).
Proof. unfold trim. split; [apply rtrim_ltrimmed, ltrim_idem | apply rtrim_idem]. Qed.

Lemma trim_clean s : clean s -> trim s = s.
Proof. unfold trim. by intros [-> ->]. Qed.

Lemma rtrim_app s t : rtrim (s +:+ t) = if string_empty (rtrim t) then rtrim s else s +:+ rtrim t.
Proof.
  induction s as [|c s IH].
  - change ("" +:+ t) with t. destruct (rtrim t); done.
  - rewrite string_app_cons. cbn [rtrim]. rewrite IH. destruct (rtrim t) eqn:Ht; simpl.
    + done.
    + destruct s; done.
Qed.

Lemma app_inj s t t' : s +:+ t = s +:+ t' -> t = t'.
Proof. induction s as [|c s IH]; [done|]. rewrite !string_app_cons. by intros [= ?%IH]. Qed.

Lemma ltrim_has_char n s : has_char n s = false -> has_char n (ltrim s) = false.
Proof. induction s as [|c s IH]; [done|]. simpl. intros [Hc Hs]%orb_false_iff. destruct (is_white c); simpl; [auto|]. by rewrite Hc. Qed.

Lemma rtrim_has_char n s : has_char n s = false -> has_char n (rtrim s) = false.
Proof.
  induction s as [|c s IH]; [done|]. simpl. intros [Hc Hs]%orb_false_iff.
  destruct (string_empty (rtrim s) && is_white c); simpl; [done|]. rewrite Hc. auto.
Qed.

Lemma trim_has_char n s : has_char n s = false -> has_char n (trim s) = false.
Proof. intros. by apply rtrim_has_char, ltrim_has_char. Qed.

(** The two sides of the delimiter in a clean line. *)
Lemma clean_sides line before after d :
  clean line -> line = before +:+ String d after -> is_white d = false ->
  clean (rtrim before) /\ clean (ltrim after).
Proof.
  intros [Hl Hr] -> Hd. split.
  - split; [|apply rtrim_idem]. apply rtrim_ltrimmed. destruct before as [|c b]; [done|].
    rewrite string_app_cons in Hl. apply ltrim_fixed in Hl. by apply ltrim_fixed.
  - split; [apply ltrim_idem|]. apply ltrim_rtrimmed.
    assert (Hda : rtrim (String d after) = String d (rtrim after)) by (cbn [rtrim]; by rewrite Hd, andb_false_r).
    rewrite rtrim_app, Hda in Hr. cbn [string_empty] in Hr. apply app_inj in Hr. by injection Hr.
Qed.

(** ** What is read is well formed *)

(** A clean line without comment mark and line end. *)
Definition line_text (l : string) : Prop :=
  clean l /\ has_char "#" l = false /\ has_char "010" l = false.

Definition key_text (k : string) : Prop := line_text k /\ has_char "=" k = false.

(** A later line of a value: not empty, and no delimiter. *)
Definition more_text (l : string) : Prop := key_text l /\ l <> "".

Definition value_text (v : string) : Prop :=
  exists first more, v = join (first :: more) (String "010" "") /\ line_text first /\ Forall more_text more.

Definition plain_config (c : Config) : Prop := delimiter c = "=" /\ comment c = "#".

Record well_formed (c : Config) : Prop := {
  wf_plain : plain_config c;
  wf_sorted : om_sorted (contents c);
  wf_entries : Forall (fun e => key_text e.1 /\ value_text e.2) (contents c)
}.

Lemma join_snoc first more l g : join (first :: more ++ [l])%list g = join (first :: more) g +:+ g +:+ l.
Proof.
  revert first. induction more as [|m more IH]; intros first; [done|]. rewrite <-app_comm_cons.
  change (join (first :: m :: more ++ [l])%list g) with (first +:+ g +:+ join (m :: more ++ [l])%list g).
  change (join (first :: m :: more) g) with (first +:+ g +:+ join (m :: more) g).
  by rewrite IH, !string_app_assoc.
Qed.

Lemma getline_no_end str line str' : getline str = (line, str') -> has_char "010" line = false.
Proof.
  unfold getline. destruct (eofbit str || failbit str); [by intros [= <- _]|].
  destruct (string_empty (unread str)); [by intros [= <- _]|].
  pose proof (find_char_spec "010" (unread str)) as Hf.
  destruct (find (String "010" "") (unread str)) as [[b a]|]; intros [= <- _]; tauto.
Qed.

Lemma readLine_text c str line str' : plain_config c -> readLine c str = (line, str') -> line_text line.
Proof.
  intros [_ Hc]. unfold readLine. rewrite Hc. destruct (getline str) as [l str1] eqn:Hl. apply getline_no_end in Hl.
  intros [= <- _]. pose proof (find_char_spec "#" l) as Hf.
  assert (forall t, has_char "#" t = false -> has_char "010" t = false -> line_text (trim t)) as Ht
    by (intros t ? ?; split_and!; [apply clean_trim | by apply trim_has_char..]).
  destruct (find (String "#" "") l) as [[b a]|]; [|by apply Ht].
  destruct Hf as [-> Hb]. rewrite has_char_app in Hl. apply orb_false_iff in Hl as [? _]. by apply Ht.
Qed.

Lemma read_value_text c fuel value str value' next str' :
  plain_config c -> value_text value -> read_value fuel c value str = Some (value', next, str') ->
  value_text value' /\ line_text next.
Proof.
  intros Hc. assert (Hnil : line_text "") by (by split_and!). revert value str.
  induction fuel as [|fuel IH]; intros value str Hv; cbn [read_value]; destruct (negb (is_ok str)); try done; try (by intros [= <- <- _]).
  destruct (readLine c str) as [line str1] eqn:Hline. apply readLine_text in Hline; [|done].
  destruct (string_empty line) eqn:He; [by intros [= <- <- _]|].
  destruct (find (delimiter c) line) as [[b a]|] eqn:Hf; [by intros [= <- <- _]|].
  apply IH. destruct Hv as (first & more & -> & Hfirst & Hmore).
  exists first, (more ++ [line])%list. split_and!; [by rewrite join_snoc|done|].
  rewrite Forall_app. split; [done|]. rewrite Forall_singleton. split; [|by intros ->].
  split; [done|]. destruct Hc as [Hd _]. rewrite Hd in Hf. pose proof (find_char_spec "=" line) as Hs. by rewrite Hf in Hs.
Qed.

Lemma line_sides line before after :
  line_text line -> line = before +:+ String "=" after -> has_char "=" before = false ->
  key_text (rtrim before) /\ line_text (ltrim after).
Proof.
  intros (Hclean & Hhash & Hend) Heq Hb. destruct (clean_sides line before after "=" Hclean Heq eq_refl) as [Hk Hv].
  subst line. rewrite has_char_app in *. cbn [has_char] in *.
  apply orb_false_iff in Hhash as [Hhash1 Hhash2], Hend as [Hend1 Hend2]. simpl in Hhash2, Hend2.
  split; [split; [|by apply rtrim_has_char]|];
    (split_and!; [done | first [by apply rtrim_has_char | by apply ltrim_has_char] ..]).
Qed.

Lemma well_formed_set c k v :
  well_formed c -> key_text k -> value_text v -> well_formed (c <| contents := om_set (contents c) k v |>).
Proof.
  intros [Hp Hs He] Hk Hv. constructor; [done|by apply om_set_sorted|]. by apply om_set_Forall.
Qed.

Lemma read_entries_well_formed fuel c next str c' str' :
  well_formed c -> line_text next -> read_entries fuel c next str = Some (c', str') -> well_formed c'.
Proof.
  revert c next str. induction fuel as [|fuel IH]; intros c next str Hc Hnext; cbn [read_entries];
    destruct (negb (is_ok str) && string_empty next); try done; try (by intros [= <- _]).
  assert (Hread : line_text (if string_empty next then readLine c str else (next, str)).1).
  { destruct (string_empty next); [|done]. destruct (readLine c str) eqn:Hl. by eapply readLine_text, Hl; apply Hc. }
  destruct (if string_empty next then readLine c str else (next, str)) as [line str1]. simpl in Hread.
  destruct (find (delimiter c) line) as [[before after]|] eqn:Hf; [|by apply IH].
  pose proof (find_char_spec "=" line) as Hs. destruct (wf_plain c Hc) as [Hd _]. rewrite Hd in Hf. rewrite Hf in Hs.
  destruct Hs as [Heq Hb]. destruct (line_sides line before after Hread Heq Hb) as [Hk Hv].
  destruct (read_value (S fuel) c (ltrim after) str1) as [[[v next'] str2]|] eqn:Hrv; [|done].
  apply read_value_text in Hrv as [Hv' Hn']; [|apply Hc|by exists (ltrim after), []].
  apply IH; [by apply well_formed_set|done].
Qed.

(** ** What is written is read back *)

(** The line of a key and the first line of its value, as [operator<<] writes it. *)
Definition head_line (k first : string) : string := k +:+ " = " +:+ first.

(** Lines, each with its end. *)
Fixpoint lines (ls : list string) (text : string) : string :=
  match ls with
  | [] => text
  | l :: ls => l +:+ String "010" (lines ls text)
  end.

Lemma string_nil_app s : "" +:+ s = s.
Proof. done. Qed.

Lemma write_entry k first more entries :
  write_entries "=" ((k, join (first :: more) (String "010" "")) :: entries) =
  lines (head_line k first :: more) (write_entries "=" entries).
Proof.
  cbn [write_entries lines]. unfold head_line. rewrite !string_app_assoc. f_equal.
  rewrite !string_app_cons, !string_nil_app. do 3 f_equal.
  revert first. induction more as [|m more IH]; intros first; [done|].
  change (join (first :: m :: more) (String "010" "")) with (first +:+ String "010" "" +:+ join (m :: more) (String "010" "")).
  rewrite !string_app_assoc. cbn [lines]. rewrite !string_app_cons. do 2 f_equal. apply IH.
Qed.

Lemma not_empty_app s a t : string_empty (s +:+ String a t) = false.
Proof. destruct s; reflexivity. Qed.

Lemma readLine_line c l text :
  plain_config c -> has_char "#" l = false -> has_char "010" l = false ->
  readLine c (istream_of (l +:+ String "010" text)) = (trim l, istream_of text).
Proof.
  intros [_ Hc] Hh Hn. unfold readLine, getline, istream_of. cbn [eofbit failbit unread orb].
  rewrite not_empty_app, find_first by done. rewrite Hc, find_none by done. done.
Qed.

Lemma readLine_end c : plain_config c -> readLine c (istream_of "") = ("", mkIstream "" true true).
Proof. intros [_ Hc]. unfold readLine. simpl. by rewrite Hc. Qed.

Lemma lines_left_line l text :
  (lines_left (istream_of text) < lines_left (istream_of (l +:+ String "010" text)))%nat.
Proof. unfold lines_left, istream_of. simpl. rewrite length_app_char. lia. Qed.

Lemma lines_left_lines ls text : (lines_left (istream_of text) <= lines_left (istream_of (lines ls text)))%nat.
Proof. induction ls as [|l ls IH]; [done|]. cbn [lines]. pose proof (lines_left_line l (lines ls text)). lia. Qed.

Lemma read_value_lines c fuel first more text :
  plain_config c -> Forall more_text more -> (lines_left (istream_of (lines more text)) <= fuel)%nat ->
  exists fuel', (lines_left (istream_of text) <= fuel')%nat /\
    read_value fuel c first (istream_of (lines more text)) =
    read_value fuel' c (join (first :: more) (String "010" "")) (istream_of text).
Proof.
  intros Hc Hmore. revert fuel first. induction Hmore as [|m more Hm Hmore IH]; intros fuel first Hfuel; [by exists fuel|].
  cbn [lines] in *. pose proof (lines_left_line m (lines more text)) as Hlt.
  destruct fuel as [|fuel]; [lia|]. destruct Hm as [((Hclean & Hh & Hn) & Hd) Hne].
  destruct (IH fuel (first +:+ String "010" m)) as (fuel' & Hf' & Heq); [lia|]. exists fuel'. split; [done|].
  cbn [read_value is_ok istream_of failbit negb]. rewrite readLine_line, trim_clean by done.
  replace (string_empty m) with false by (by destruct m).
  destruct Hc as [Hdl Hcm]. rewrite Hdl, find_none by done. rewrite Heq. f_equal.
  destruct more; simpl; by rewrite ?string_app_assoc.
Qed.

(** The head line, trimmed and cut at its delimiter. *)
Lemma head_line_sides k first :
  key_text k -> line_text first ->
  exists before after, find (String "=" "") (trim (head_line k first)) = Some (before, after) /\
    rtrim before = k /\ ltrim after = first.
Proof.
  intros [[[Hkl Hkr] _] Hk] [[Hfl Hfr] _].
  set (before := if string_empty k then "" else k +:+ " "). set (after := if string_empty first then "" else " " +:+ first).
  assert (Htrim : trim (head_line k first) = before +:+ String "=" after).
  { unfold trim. transitivity (rtrim (before +:+ String "=" (" " +:+ first))).
    - f_equal. subst before. unfold head_line. destruct k as [|c k]; [done|]. cbn [string_empty].
      rewrite string_app_cons. apply ltrim_fixed in Hkl. rewrite (proj2 (ltrim_fixed _ _) Hkl).
      by rewrite string_app_assoc.
    - rewrite rtrim_app. change (String "=" (" " +:+ first)) with ("= " +:+ first). rewrite rtrim_app, Hfr.
      subst after. by destruct first. }
  exists before, after. split_and!.
  - rewrite Htrim. apply find_first. subst before. destruct k; [done|]. cbn [string_empty].
    by rewrite has_char_app, Hk.
  - subst before. destruct k; [done|]. cbn [string_empty]. by rewrite rtrim_app.
  - subst after. by destruct first.
Qed.

Lemma head_line_text k first :
  key_text k -> line_text first -> has_char "#" (head_line k first) = false /\ has_char "010" (head_line k first) = false.
Proof.
  intros [(_ & Hk1 & Hk2) _] (_ & Hf1 & Hf2). unfold head_line. by rewrite !has_char_app, Hk1, Hk2, Hf1, Hf2.
Qed.

Lemma head_line_not_empty k first : key_text k -> line_text first -> string_empty (trim (head_line k first)) = false.
Proof.
  intros Hk Hf. destruct (head_line_sides k first Hk Hf) as (b & a & Hfind & _). by destruct (trim (head_line k first)).
Qed.

Lemma read_entries_head c fuel k first more text :
  plain_config c -> key_text k -> line_text first -> Forall more_text more ->
  (lines_left (istream_of (lines more text)) <= S fuel)%nat ->
  exists fuel', (lines_left (istream_of text) <= fuel')%nat /\
    read_entries (S fuel) c (trim (head_line k first)) (istream_of (lines more text)) =
    match read_value fuel' c (join (first :: more) (String "010" "")) (istream_of text) with
    | None => None
    | Some (value, next, str) => read_entries fuel (c <| contents := om_set (contents c) k value |>) next str
    end.
Proof.
  intros Hc Hk Hf Hm Hfuel.
  destruct (read_value_lines c (S fuel) first more text Hc Hm Hfuel) as (fuel' & Hfuel' & Heq).
  exists fuel'. split; [done|]. cbn [read_entries]. rewrite (head_line_not_empty k first Hk Hf), andb_false_r.
  destruct (head_line_sides k first Hk Hf) as (b & a & Hfind & Hb & Ha).
  rewrite (proj1 Hc), Hfind, Hb, Ha. by rewrite Heq.
Qed.

(** The entries from the one whose head line has been read on. *)
Lemma read_entries_written k first more rest fuel c :
  plain_config c -> key_text k -> line_text first -> Forall more_text more ->
  Forall (fun e => key_text e.1 /\ value_text e.2) rest ->
  om_sorted (contents c ++ (k, join (first :: more) (String "010" "")) :: rest)%list ->
  (lines_left (istream_of (lines more (write_entries "=" rest))) < fuel)%nat ->
  exists str, read_entries fuel c (trim (head_line k first)) (istream_of (lines more (write_entries "=" rest))) =
    Some (c <| contents := (contents c ++ (k, join (first :: more) (String "010" "")) :: rest)%list |>, str).
Proof.
  intros Hc Hk Hf Hm Hrest. revert k first more fuel c Hc Hk Hf Hm.
  induction Hrest as [|[k2 v2] rest [Hk2 (first2 & more2 & Hv2 & Hf2 & Hm2)] Hrest IH];
    intros k first more fuel c Hc Hk Hf Hm Hs Hfuel; (destruct fuel as [|fuel]; [lia|]);
    pose proof (om_set_above (contents c) k (join (first :: more) (String "010" "")) (om_sorted_app_inv _ _ _ _ Hs)) as Hset.
  - destruct (read_entries_head c fuel k first more "" Hc Hk Hf Hm) as (fuel' & Hfuel' & Heq); [cbn [write_entries] in *; lia|].
    cbn [write_entries]. rewrite Heq. destruct fuel' as [|fuel']; [unfold lines_left in Hfuel'; simpl in Hfuel'; lia|].
    cbn [read_value is_ok istream_of failbit negb]. rewrite readLine_end by done. cbn [string_empty].
    rewrite Hset. by destruct fuel; eexists.
  - cbn [fst snd] in Hk2, Hv2. subst v2. rewrite write_entry in *.
    destruct (head_line_text k2 first2 Hk2 Hf2) as [Hh Hn]. cbn [lines].
    destruct (read_entries_head c fuel k first more (lines (head_line k2 first2 :: more2) (write_entries "=" rest)) Hc Hk Hf Hm)
      as (fuel' & Hfuel' & Heq); [cbn [lines] in *; lia|].
    cbn [lines] in *. rewrite Heq. destruct fuel' as [|fuel']; [unfold lines_left in Hfuel'; simpl in Hfuel'; lia|].
    cbn [read_value is_ok istream_of failbit negb]. rewrite readLine_line by done.
    rewrite (head_line_not_empty k2 first2 Hk2 Hf2).
    destruct (head_line_sides k2 first2 Hk2 Hf2) as (b & a & Hfind & _). rewrite (proj1 Hc), Hfind, Hset.
    destruct (IH k2 first2 more2 fuel (c <| contents := (contents c ++ [(k, join (first :: more) (String "010" ""))])%list |>))
      as [str Hstr]; try done.
    + simpl. by rewrite <-app_assoc.
    + pose proof (lines_left_lines more (head_line k2 first2 +:+ String "010" (lines more2 (write_entries "=" rest)))).
      pose proof (lines_left_line (head_line k2 first2) (lines more2 (write_entries "=" rest))). lia.
    + exists str. rewrite Hstr. simpl. by rewrite <-app_assoc.
Qed.

(** A line read in a round and a line read ahead are treated alike. *)
Lemma read_entries_ahead fuel c l text :
  plain_config c -> has_char "#" l = false -> has_char "010" l = false -> string_empty (trim l) = false ->
  read_entries (S fuel) c "" (istream_of (l +:+ String "010" text)) = read_entries (S fuel) c (trim l) (istream_of text).
Proof.
  intros Hc Hh Hn He. cbn [read_entries is_ok istream_of failbit negb andb]. rewrite readLine_line, He by done. done.
Qed.

Lemma Config_read_written c c0 :
  well_formed c -> plain_config c0 -> contents c0 = [] -> Config_read c0 (Config_write c) = Some c.
Proof.
  intros [[Hdl Hcm] Hs He] Hc0 Hnil. destruct c as [dl cm es]. simpl in *. subst dl cm.
  unfold Config_read, Config_write. cbn [delimiter contents].
  assert (Hgoal : forall fuel, (2 * lines_left (istream_of (write_entries "=" es)) <= fuel)%nat ->
    exists str, read_entries fuel c0 "" (istream_of (write_entries "=" es)) = Some (mkConfig "=" "#" es, str));
    [|by destruct (Hgoal (2 * String.length (write_entries "=" es) + 4)%nat) as [str ->]; [unfold lines_left; simpl; lia|]].
  assert (Heta : c0 <| contents := es |> = mkConfig "=" "#" es).
  { destruct c0, Hc0; simpl in *. by subst. }
  intros fuel Hfuel. destruct fuel as [|fuel]; [unfold lines_left in Hfuel; simpl in Hfuel; lia|].
  destruct He as [|[k v] es [Hk Hval] He]; [|destruct Hval as (first & more & Hv & Hf & Hm); simpl in Hk].
  - destruct fuel as [|fuel]; [unfold lines_left in Hfuel; simpl in Hfuel; lia|].
    cbn [read_entries write_entries is_ok istream_of failbit negb andb string_empty]. rewrite readLine_end by done.
    cbn [string_empty]. rewrite (proj1 Hc0), find_none by done. simpl. destruct c0, Hc0; simpl in *; subst. by eexists.
  - cbn [snd] in Hv. subst v. rewrite write_entry in *. cbn [lines] in *.
    destruct (head_line_text k first Hk Hf) as [Hh Hn].
    rewrite read_entries_ahead; [|done..|by apply head_line_not_empty].
    rewrite <-Heta.
    pose proof (lines_left_line (head_line k first) (lines more (write_entries "=" es))).
    destruct (read_entries_written k first more es (S fuel) c0) as [str Hstr]; try done; [by rewrite Hnil|lia|].
    exists str. by rewrite Hstr, Hnil.
Qed.

(** C32: a configuration can be read from every text, and once read it can be
    kept: writing it and reading what was written yields the same keys and
    values. The loops of [operator>>] come to an end on every text. What is
    read has clean keys without delimiter and values whose later lines are
    clean, not empty and without delimiter, which is what makes it readable
    again. *)
Theorem Config_round_trip text :
  exists c, Config_read Config_init text = Some c /\ well_formed c /\ Config_read Config_init (Config_write c) = Some c.
Proof.
  destruct (Config_reads Config_init text) as [c Hc]. exists c. split; [done|].
  assert (Hwf : well_formed c).
  { unfold Config_read in Hc. destruct (read_entries _ _ _ _) as [[c' str]|] eqn:Hr; [|done]. injection Hc as ->.
    eapply read_entries_well_formed, Hr; [by constructor; [|constructor|constructor] | by split_and!]. }
  split; [done|]. by apply Config_read_written.
Qed.

(** What [set] stores is read back by [read<string>], without the white space
    around it; [remove] takes it out. *)
Lemma Config_set_read key value c k :
  Config_read_key (T := string) k (Config_set key value c) =
  if decide (trim key = k) then inr (trim value) else Config_read_key k c.
Proof.
  unfold Config_read_key, Config_set. simpl. rewrite om_lookup_set. by destruct (decide (trim key = k)).
Qed.

(** [std::map::find] on the table of booleans: every name in it is found, and
    nothing else is accepted. *)
Lemma fromString_bool_exact key s :
  match fromString (T := bool) key s with
  | inr b => (s, b) ∈ bool_values
  | inl e => e = ConversionError key s "bool" /\ s ∉ map fst bool_values
  end.
Proof.
  assert (Hs : om_sorted bool_values) by (unfold om_sorted; repeat constructor).
  unfold fromString, fromString_bool. destruct (om_lookup bool_values s) as [b|] eqn:Hb.
  - by apply om_lookup_elem.
  - split; [done|]. rewrite om_elem_keys, Hb. by intros [].
Qed.
