(* ===== verification/SegmentedLog.v ===== *)
(** * The segmented log

    [Storage/SegmentedLog.cc]: the log on disk, in files of about
    [MAX_SEGMENT_SIZE] bytes. Closed segments are named after the indexes they
    hold, the open one ["open-N"]; two metadata files are written in turn. An
    appended entry is queued as a file operation of the current [Sync] object
    and reaches the file when that is waited for.

    A record is a checksum, the length of the data (64 bits, big-endian) and
    the data, a message in the binary or text encoding of the protobuf library.

    The locals of type [FS::File] close their descriptor at the end of their
    scope. The statistics of the write times are left out. *)

From Stdlib Require Import ZArith Lia Ascii String.
From stdpp Require Import base gmap strings list fin_maps.
From S2P Require Import Prelude OrderedMap StringUtil Stream Endian SnapshotFile Log Disk Checksum Printf.
Local Open Scope string_scope.
Local Open Scope Z_scope.
Local Open Scope list_scope.

(** ** Data *)

(** [Storage/SegmentedLog.proto] *)
Record SegMetadata : Type := mkSegMetadata {
  format_version : Z;
  version : Z;
  raft_metadata : option Metadata;
  entries_start : Z
}.

#[export] Instance SegMetadata_eta : Eta SegMetadata := fun m =>
  mkSegMetadata (format_version m) (version m) (raft_metadata m) (entries_start m).

(** A message not yet filled in: unset numbers read as 0. *)
Definition SegMetadata_init : SegMetadata := mkSegMetadata 0 0 None 0.

Inductive Encoding : Type := TEXT | BINARY.

(** [TextFormat]'s printer and parser; a parse error leaves the message as far
    as it was read. *)
Class ProtoBufText (T : Type) := {
  pb_dump : T -> bytes;
  pb_fromString : bytes -> T
}.

(** [Sync::Op] with the members its code uses. *)
Module Op.
Inductive t : Type :=
| WRITE (fd : Z) (writeData : bytes)
| TRUNCATE (fd size : Z)
| RENAME (fd : Z) (filename1 filename2 : string)
| FDATASYNC (fd : Z)
| FSYNC (fd : Z)
| CLOSE (fd : Z)
| UNLINKAT (fd : Z) (filename1 : string)
| NOOP (fd : Z).
End Op.

Record SegSync : Type := mkSegSync { seg_lastIndex : Z; seg_completed : bool; ops : list Op.t }.

#[export] Instance SegSync_eta : Eta SegSync := fun s =>
  mkSegSync (seg_lastIndex s) (seg_completed s) (ops s).

(** [Segment::Record] *)
Record SegRecord : Type := mkSegRecord { offset : Z; record_entry : LogEntry }.

Record Segment : Type := mkSegment {
  isOpen : bool;
  seg_startIndex : Z;
  seg_endIndex : Z;
  seg_bytes : Z;
  filename : string;
  seg_entries : list SegRecord
}.

#[export] Instance Segment_eta : Eta Segment := fun s =>
  mkSegment (isOpen s) (seg_startIndex s) (seg_endIndex s) (seg_bytes s) (filename s) (seg_entries s).

Definition Segment_init : Segment := mkSegment false u64_max (u64_max - 1) 0 "--invalid--" [].

(** [sizeof(SegmentHeader)] and the header: the version of the format. *)
Definition header_size : Z := 1.
Definition SegmentHeader : bytes := [ascii_of_N 1].

Definition closed_filename (startIndex endIndex : Z) : string :=
  print_020lu startIndex +:+ "-" +:+ print_020lu endIndex.

Definition open_filename (id : Z) : string := "open-" +:+ print_lu id.

Definition makeClosedFilename (s : Segment) : string := closed_filename (seg_startIndex s) (seg_endIndex s).

(** The two [sscanf]s of [readSegmentFilenames]: the whole name must match. *)
Definition scan_closed (name : string) : option (Z * Z) :=
  match scan_lu 20 name with
  | Some (startIndex, String "-" rest) =>
      match scan_lu 20 rest with
      | Some (endIndex, EmptyString) => Some (startIndex, endIndex)
      | _ => None
      end
  | _ => None
  end.

Definition scan_open (name : string) : option Z :=
  match name with
  | String "o" (String "p" (String "e" (String "n" (String "-" rest)))) =>
      match scan_lu (String.length rest) rest with
      | Some (counter, EmptyString) => Some counter
      | _ => None
      end
  | _ => None
  end.

(** ** [PreparedSegments] *)

(** The queue holds names and open descriptors. *)
Record PreparedSegments : Type := mkPreparedSegments {
  ps_exiting : bool;
  demanded : Z;
  filenameCounter : Z;
  openSegments : list (string * Z)
}.

#[export] Instance PreparedSegments_eta : Eta PreparedSegments := fun p =>
  mkPreparedSegments (ps_exiting p) (demanded p) (filenameCounter p) (openSegments p).

Definition PreparedSegments_init (queueSize : Z) : PreparedSegments :=
  mkPreparedSegments false queueSize 0 [].

Definition PreparedSegments_exit : M PreparedSegments unit := modify (fun p => p <| ps_exiting := true |>).

Definition foundFile (fileId : Z) : M PreparedSegments unit :=
  modify (fun p => if filenameCounter p <? fileId then p <| filenameCounter := fileId |> else p).

Definition releaseAll : M PreparedSegments (list (string * Z)) :=
  let! p := get in
  put (p <| openSegments := [] |>) ;;;
  ret (openSegments p).

Definition submitOpenSegment (segment : string * Z) : M PreparedSegments unit :=
  modify (fun p => p <| openSegments := openSegments p ++ [segment] |>).

(** [Blocked] where it would wait on [consumed]. *)
Definition waitForDemand : M PreparedSegments Z :=
  let! p := get in
  if ps_exiting p then fail Interrupted else
  if 0 <? demanded p then
    put (p <| demanded := demanded p - 1 |> <| filenameCounter := u64 (filenameCounter p + 1) |>) ;;;
    ret (u64 (filenameCounter p + 1))
  else fail Blocked.

(** [Blocked] where it would wait on [produced]. *)
Definition takeOpenSegment : M PreparedSegments (string * Z) :=
  let! p := get in
  if ps_exiting p then fail Interrupted else
  match openSegments p with
  | [] => fail Blocked
  | r :: rest =>
      put (p <| openSegments := rest |> <| demanded := u64 (demanded p + 1) |>) ;;;
      ret r
  end.

(** ** [Sync] *)

(** A flush is redundant if one more write to the same file and another flush
    follow. *)
Fixpoint optimize (l : list Op.t) : list Op.t :=
  match l with
  | prev :: ((it :: next :: _) as rest) =>
      match prev, it, next with
      | Op.FDATASYNC fd1, Op.WRITE fd2 _, Op.FDATASYNC fd3 =>
          (if (fd1 =? fd2) && (fd2 =? fd3) then Op.NOOP fd1 else prev) :: optimize rest
      | _, _, _ => prev :: optimize rest
      end
  | _ => l
  end.

Definition exec_op (op : Op.t) : M Disk unit :=
  match op with
  | Op.WRITE fd data => write fd data
  | Op.TRUNCATE fd size => truncate fd size
  | Op.RENAME _ filename1 filename2 => rename filename1 filename2
  | Op.FDATASYNC fd | Op.FSYNC fd => fsync fd
  | Op.CLOSE fd => close fd
  | Op.UNLINKAT _ filename1 => removeFile filename1
  | Op.NOOP _ => ret tt
  end.

Definition Sync_wait (s : SegSync) : M Disk unit := forM (optimize (ops s)) exec_op.

(** ** The log *)

Record SegOptions : Type := mkSegOptions {
  encoding : Encoding;
  checksumAlgorithm : bytes;
  MAX_SEGMENT_SIZE : Z;
  shouldCheckInvariants : bool;
  storageOpenSegments : Z
}.

Record SegmentedLog : Type := mkSegmentedLog {
  sl_metadata : SegMetadata;
  sl_disk : Disk;
  openSegmentFile : Z;
  logStartIndex : Z;
  segmentsByStartIndex : list (Z * Segment);
  totalClosedSegmentBytes : Z;
  preparedSegments : PreparedSegments;
  sl_currentSync : SegSync;
  log_metadata : Metadata
}.

#[export] Instance SegmentedLog_eta : Eta SegmentedLog := fun l =>
  mkSegmentedLog (sl_metadata l) (sl_disk l) (openSegmentFile l) (logStartIndex l)
    (segmentsByStartIndex l) (totalClosedSegmentBytes l) (preparedSegments l) (sl_currentSync l)
    (log_metadata l).

(** Why [readProtoFromFile] returned an error string. *)
Inductive record_error : Type :=
| MissingChecksum
| LengthTruncated
| ProtoBufTruncated
| BadChecksum (e : verify_error)
| ParseFailed.

Section SegmentedLog.
Context (opts : SegOptions) (algorithms : bytes -> option (bytes -> bytes)).
Context `{ProtoBuf LogEntry} `{ProtoBuf SegMetadata} `{ProtoBufText LogEntry} `{ProtoBufText SegMetadata}.

Abbreviation SL := SegmentedLog.

Definition on_disk {A} (m : M Disk A) : M SL A := zoom sl_disk (fun d l => l <| sl_disk := d |>) m.
Definition on_prepared {A} (m : M PreparedSegments A) : M SL A :=
  zoom preparedSegments (fun p l => l <| preparedSegments := p |>) m.

(** [currentSync->ops.emplace_back] *)
Definition push_op (op : Op.t) : M SL unit :=
  modify (fun l => l <| sl_currentSync := (sl_currentSync l) <| ops := ops (sl_currentSync l) ++ [op] |> |>).

(** [openSegmentFile.release()] *)
Definition release_open_file : M SL Z :=
  let! l := get in
  put (l <| openSegmentFile := -1 |>) ;;;
  ret (openSegmentFile l).

(** ** Records *)

Definition serializeProto {T} `{ProtoBuf T} `{ProtoBufText T} (m : T) : outcome bytes :=
  let data := match encoding opts with BINARY => pb_serialize m | TEXT => pb_dump m end in
  let netLen := be64 (Z.of_nat (length data)) in
  match calculate algorithms (checksumAlgorithm opts) (netLen ++ data) with
  | Ok checksum => Ok (checksum ++ netLen ++ data)
  | Fail f => Fail f
  end.

(** The switch on the encoding: [Core::ProtoBuf::parse] takes the length as an
    [int], [std::string] allocates it. *)
Definition decode_data {T} `{ProtoBuf T} `{ProtoBufText T} (dataLen : Z) (data : bytes) :
    outcome (record_error + T) :=
  match encoding opts with
  | BINARY =>
      if dataLen <? 2 ^ 31 then
        Ok (match pb_parse data with Some m => inr m | None => inl ParseFailed end)
      else Fail AssertFailed
  | TEXT => if dataLen <? 2 ^ 62 then Ok (inr (pb_fromString data)) else Fail OutOfRange
  end.

(** The message and the offset after it. *)
Definition readProtoFromFile {T} `{ProtoBuf T} `{ProtoBufText T} (reader : bytes) (offset : Z) :
    outcome (record_error + T * Z) :=
  let fileLen := Z.of_nat (length reader) in
  let checksum := copyPartial reader offset MAX_LENGTH in
  let checksumBytes := checksum_length checksum in
  if (checksumBytes =? 0)%nat then Ok (inl MissingChecksum) else
  let loffset := offset + Z.of_nat checksumBytes in
  let field := copyPartial reader loffset 8 in
  if bool_decide (length field < 8)%nat then Ok (inl LengthTruncated) else
  let dataLen := of_be32 field in
  if fileLen <? u64 (loffset + 8 + dataLen) then Ok (inl ProtoBufTruncated) else
  match FileContents_get reader loffset (u64 (8 + dataLen)) with
  | Fail f => Fail f
  | Ok coverage =>
      match verify algorithms checksum coverage with
      | Fail f => Fail f
      | Ok (Some e) => Ok (inl (BadChecksum e))
      | Ok None =>
          match FileContents_get reader (loffset + 8) dataLen with
          | Fail f => Fail f
          | Ok data =>
              match decode_data dataLen data with
              | Fail f => Fail f
              | Ok (inl e) => Ok (inl e)
              | Ok (inr m) => Ok (inr (m, loffset + 8 + dataLen))
              end
          end
      end
  end.

(** ** Helpers of the operations *)

(** [getOpenSegment()]: the last segment, with its key in the map. *)
Definition getOpenSegment : M SL (Z * Segment) :=
  let! l := get in
  match om_last (segmentsByStartIndex l) with
  | Some s => ret s
  | None => fail AssertFailed
  end.

(** Assigning through the reference that it returns. *)
Definition set_segment (k : Z) (s : Segment) : M SL unit :=
  modify (fun l => l <| segmentsByStartIndex := om_set (segmentsByStartIndex l) k s |>).

Definition SegmentedLog_getLastLogIndex (l : SL) : Z :=
  match om_last (segmentsByStartIndex l) with
  | None => u64 (logStartIndex l - 1)
  | Some (_, s) => seg_endIndex s
  end.

Definition prepareNewSegment (id : Z) : M SL (string * Z) :=
  let name := open_filename id in
  on_disk (
    let! fd := openFile name (mkopen_flags true true false) in
    allocate fd (MAX_SEGMENT_SIZE opts) ;;;
    write fd SegmentHeader ;;;
    fsync fd ;;;
    fsync dir_fd ;;;
    ret (name, fd)).

(** One turn of [segmentPreparerMain], until an interruption ends it. *)
Definition segmentPreparer_step : M SL unit :=
  let! fileId := on_prepared waitForDemand in
  let! segment := prepareNewSegment fileId in
  on_prepared (submitOpenSegment segment).

(** [waitForOpenSegment]: while it waits for a segment, the preparer thread takes
    its next turn. *)
Definition waitForOpenSegment : M SL (string * Z) :=
  let! l := get in
  when (negb (ps_exiting (preparedSegments l)) &&
        match openSegments (preparedSegments l) with [] => true | _ => false end)
    segmentPreparer_step ;;;
  on_prepared takeOpenSegment.

Definition openNewSegment : M SL unit :=
  let! l := get in
  assert_ (openSegmentFile l <? 0) ;;;
  assert_ (match om_last (segmentsByStartIndex l) with None => true | Some (_, s) => negb (isOpen s) end) ;;;
  let startIndex := u64 (SegmentedLog_getLastLogIndex l + 1) in
  let newSegment := mkSegment true startIndex (u64 (startIndex - 1)) header_size "" [] in
  let! s := waitForOpenSegment in
  modify (fun l => l <| openSegmentFile := s.2 |>
    <| segmentsByStartIndex :=
         om_insert (segmentsByStartIndex l) startIndex (newSegment <| filename := s.1 |>) |>).

Definition closeSegment : M SL unit :=
  let! l := get in
  if openSegmentFile l <? 0 then ret tt else
  let! (k, openSegment) := getOpenSegment in
  if seg_endIndex openSegment <? seg_startIndex openSegment then
    let! fd := release_open_file in
    on_disk (close fd ;;; removeFile (filename openSegment) ;;; fsync dir_fd) ;;;
    modify (fun l => l <| segmentsByStartIndex :=
                            om_erase (segmentsByStartIndex l) (seg_startIndex openSegment) |>)
  else
    on_disk (truncate (openSegmentFile l) (seg_bytes openSegment) ;;; fsync (openSegmentFile l)) ;;;
    let! fd := release_open_file in
    on_disk (close fd) ;;;
    let newFilename := makeClosedFilename openSegment in
    on_disk (rename (filename openSegment) newFilename ;;; fsync dir_fd) ;;;
    set_segment k (openSegment <| filename := newFilename |> <| isOpen := false |>) ;;;
    modify (fun l => l <| totalClosedSegmentBytes :=
                            u64 (totalClosedSegmentBytes l + seg_bytes openSegment) |>).

(** The assertions of [checkInvariants], in the order of the code. *)
Fixpoint records_invariant (startIndex : Z) (first : bool) (lastOffset : Z) (l : list SegRecord) : bool :=
  match l with
  | [] => true
  | r :: rest =>
      (default 0 (index (record_entry r)) =? startIndex) &&
      (if first then offset r =? header_size else lastOffset <? offset r) &&
      records_invariant (u64 (startIndex + 1)) false (offset r) rest
  end.

Fixpoint segments_invariant (m : list (Z * Segment)) : bool :=
  match m with
  | [] => true
  | (k, s) :: rest =>
      (k =? seg_startIndex s) && (0 <? seg_startIndex s) &&
      (Z.of_nat (length (seg_entries s)) =? u64 (seg_endIndex s + 1 - seg_startIndex s)) &&
      records_invariant (seg_startIndex s) true 0 (seg_entries s) &&
      match rest with
      | [] => isOpen s && (u64 (seg_startIndex s - 1) <=? seg_endIndex s) &&
              startsWith (filename s) "open-" && (header_size <=? seg_bytes s)
      | (_, next) :: _ =>
          negb (isOpen s) && (seg_startIndex s <=? seg_endIndex s) &&
          (seg_startIndex next =? u64 (seg_endIndex s + 1)) && (header_size <? seg_bytes s) &&
          String.eqb (filename s) (makeClosedFilename s)
      end && segments_invariant rest
  end.

(** The bytes of all segments but the last. *)
Fixpoint closed_bytes (m : list (Z * Segment)) : Z :=
  match m with
  | [] | [_] => 0
  | (_, s) :: rest => seg_bytes s + closed_bytes rest
  end.

Definition invariants (l : SL) : bool :=
  (0 <=? openSegmentFile l) &&
  match segmentsByStartIndex l with
  | [] => false
  | (_, s) :: _ =>
      (seg_startIndex s <=? logStartIndex l) && (logStartIndex l <=? u64 (seg_endIndex s + 1))
  end &&
  segments_invariant (segmentsByStartIndex l) &&
  (u64 (closed_bytes (segmentsByStartIndex l)) =? totalClosedSegmentBytes l).

Definition checkInvariants : M SL unit :=
  if shouldCheckInvariants opts then let! l := get in assert_ (invariants l) else ret tt.

(** ** Public functions *)

(** Rolling over to a new segment, part of [append]: the file operations are
    queued. *)
Definition roll_over : M SL unit :=
  let! (k, openSegment) := getOpenSegment in
  let! l := get in
  push_op (Op.TRUNCATE (openSegmentFile l) (seg_bytes openSegment)) ;;;
  push_op (Op.FSYNC (openSegmentFile l)) ;;;
  let! fd := release_open_file in
  push_op (Op.CLOSE fd) ;;;
  let newFilename := makeClosedFilename openSegment in
  push_op (Op.RENAME dir_fd (filename openSegment) newFilename) ;;;
  push_op (Op.FSYNC dir_fd) ;;;
  set_segment k (openSegment <| filename := newFilename |> <| isOpen := false |>) ;;;
  modify (fun l => l <| totalClosedSegmentBytes :=
                          u64 (totalClosedSegmentBytes l + seg_bytes openSegment) |>) ;;;
  openNewSegment.

(** The loop of [append]. *)
Fixpoint append_entries (index : Z) (entries : list LogEntry) : M SL unit :=
  match entries with
  | [] => ret tt
  | e :: rest =>
      match Log.index e with
      | Some i => assert_ (index =? i)
      | None => ret tt
      end ;;;
      let entry := e <| Log.index := Some index |> in
      let! buf := lift (serializeProto entry) in
      let len := Z.of_nat (length buf) in
      let! (_, openSegment) := getOpenSegment in
      when ((header_size <? seg_bytes openSegment) &&
            (MAX_SEGMENT_SIZE opts <? u64 (seg_bytes openSegment + len))) roll_over ;;;
      let! (k, openSegment) := getOpenSegment in
      set_segment k (openSegment
        <| seg_entries := seg_entries openSegment ++ [mkSegRecord (seg_bytes openSegment) entry] |>
        <| seg_bytes := u64 (seg_bytes openSegment + len) |>
        <| seg_endIndex := u64 (seg_endIndex openSegment + 1) |>) ;;;
      let! l := get in
      push_op (Op.WRITE (openSegmentFile l) buf) ;;;
      append_entries (u64 (index + 1)) rest
  end.

Definition SegmentedLog_append (entries : list LogEntry) : M SL (Z * Z) :=
  let! (_, openSegment) := getOpenSegment in
  let startIndex := u64 (seg_endIndex openSegment + 1) in
  append_entries startIndex entries ;;;
  let! l := get in
  push_op (Op.FDATASYNC (openSegmentFile l)) ;;;
  modify (fun l => l <| sl_currentSync :=
    (sl_currentSync l) <| seg_lastIndex := SegmentedLog_getLastLogIndex l |> |>) ;;;
  checkInvariants ;;;
  let! l := get in
  ret (startIndex, SegmentedLog_getLastLogIndex l).

(** [--segmentsByStartIndex.upper_bound(index)]: before [begin()] there is nothing. *)
Definition SegmentedLog_getEntry (i : Z) (l : SL) : outcome LogEntry :=
  if (i <? logStartIndex l) || (SegmentedLog_getLastLogIndex l <? i) then Fail Panicked else
  match om_before (segmentsByStartIndex l) i with
  | None => Fail UndefinedBehavior
  | Some (_, s) =>
      if (seg_startIndex s <=? i) && (i <=? seg_endIndex s) then
        match seg_entries s !! Z.to_nat (i - seg_startIndex s) with
        | Some r => Ok (record_entry r)
        | None => Fail OutOfRange
        end
      else Fail AssertFailed
  end.

Definition SegmentedLog_getSizeBytes (l : SL) : Z :=
  u64 (totalClosedSegmentBytes l +
       match om_last (segmentsByStartIndex l) with Some (_, s) => seg_bytes s | None => 0 end).

Definition SegmentedLog_takeSync : M SL SegSync :=
  let! l := get in
  put (l <| sl_currentSync := mkSegSync (SegmentedLog_getLastLogIndex l) false [] |>) ;;;
  ret (sl_currentSync l).

Definition metadata_is_empty (m : Metadata) : bool := bool_decide (m = Metadata_init).

(** The file of a version of the metadata. *)
Definition metadata_filename (v : Z) : string := if v mod 2 =? 1 then "metadata1" else "metadata2".

Definition SegmentedLog_updateMetadata : M SL unit :=
  modify (fun l => l <| sl_metadata := (sl_metadata l)
    <| raft_metadata := if metadata_is_empty (log_metadata l) then None else Some (log_metadata l) |>
    <| format_version := 1 |>
    <| entries_start := logStartIndex l |>
    <| version := u64 (version (sl_metadata l) + 1) |> |>) ;;;
  let! l := get in
  let! file := on_disk (openFile (metadata_filename (version (sl_metadata l))) (mkopen_flags true false true)) in
  let! record := lift (serializeProto (sl_metadata l)) in
  on_disk (write file record ;;; fsync file ;;; close file).

(** The loop of [truncatePrefix]; [segments] is what is left of the map. *)
Fixpoint truncatePrefix_loop (segments : list (Z * Segment)) : M SL unit :=
  match segments with
  | [] => ret tt
  | (k, s) :: rest =>
      let! l := get in
      if logStartIndex l <=? seg_endIndex s then ret tt else
      push_op (Op.UNLINKAT dir_fd (filename s)) ;;;
      (if isOpen s then
         let! fd := release_open_file in push_op (Op.CLOSE fd)
       else modify (fun l => l <| totalClosedSegmentBytes :=
                                    u64 (totalClosedSegmentBytes l - seg_bytes s) |>)) ;;;
      modify (fun l => l <| segmentsByStartIndex := om_erase (segmentsByStartIndex l) k |>) ;;;
      truncatePrefix_loop rest
  end.

Definition SegmentedLog_truncatePrefix (newStartIndex : Z) : M SL unit :=
  let! l := get in
  if newStartIndex <=? logStartIndex l then ret tt else
  modify (fun l => l <| logStartIndex := newStartIndex |>) ;;;
  SegmentedLog_updateMetadata ;;;
  truncatePrefix_loop (segmentsByStartIndex l) ;;;
  let! l := get in
  when (match segmentsByStartIndex l with [] => true | _ => false end) openNewSegment ;;;
  modify (fun l => l <| sl_currentSync :=
    (sl_currentSync l) <| seg_lastIndex := Z.max (seg_lastIndex (sl_currentSync l)) (u64 (logStartIndex l - 1)) |> |>) ;;;
  checkInvariants.

(** [segment.entries] and the rest, cut off after [newEndIndex]. *)
Definition cut_segment (newEndIndex : Z) (s : Segment) : outcome Segment :=
  let i := Z.to_nat (u64 (newEndIndex + 1 - seg_startIndex s)) in
  match seg_entries s !! i with
  | None => Fail OutOfRange
  | Some r => Ok (s <| seg_bytes := offset r |> <| seg_entries := take i (seg_entries s) |>
                    <| seg_endIndex := newEndIndex |>)
  end.

(** The loop over the closed segments, from the last one down. A segment that
    ends below [newEndIndex] would be looked at for ever. *)
Fixpoint truncateSuffix_loop (newEndIndex : Z) (segments : list (Z * Segment)) : M SL unit :=
  match segments with
  | [] => ret tt
  | (k, s) :: rest =>
      if seg_endIndex s =? newEndIndex then ret tt else
      if newEndIndex <? seg_startIndex s then
        on_disk (removeFile (filename s) ;;; fsync dir_fd) ;;;
        modify (fun l => l
          <| totalClosedSegmentBytes := u64 (totalClosedSegmentBytes l - seg_bytes s) |>
          <| segmentsByStartIndex := om_erase (segmentsByStartIndex l) (seg_startIndex s) |>) ;;;
        truncateSuffix_loop newEndIndex rest
      else if newEndIndex <? seg_endIndex s then
        let! s' := lift (cut_segment newEndIndex s) in
        modify (fun l => l <| totalClosedSegmentBytes :=
          u64 (totalClosedSegmentBytes l - (seg_bytes s - seg_bytes s')) |>) ;;;
        let newFilename := makeClosedFilename s' in
        on_disk (rename (filename s') newFilename ;;; fsync dir_fd) ;;;
        set_segment k (s' <| filename := newFilename |>) ;;;
        on_disk (let! f := openFile newFilename O_RDWR in
                 truncate f (seg_bytes s') ;;; fsync f ;;; close f)
      else fail UndefinedBehavior
  end.

Definition SegmentedLog_truncateSuffix (newEndIndex : Z) : M SL unit :=
  let! l := get in
  if SegmentedLog_getLastLogIndex l <=? newEndIndex then ret tt else
  let! (k, openSegment) := getOpenSegment in
  if seg_startIndex openSegment <=? newEndIndex then
    let! s' := lift (cut_segment newEndIndex openSegment) in
    set_segment k s' ;;;
    closeSegment ;;;
    openNewSegment ;;;
    checkInvariants
  else
    set_segment k (openSegment <| seg_endIndex := u64 (seg_startIndex openSegment - 1) |> <| seg_bytes := 0 |>) ;;;
    closeSegment ;;;
    let! l := get in
    truncateSuffix_loop newEndIndex (rev (segmentsByStartIndex l)) ;;;
    openNewSegment ;;;
    checkInvariants.

(** ** Initialization *)

Fixpoint found_segments (filenames : list string) : M SL (list Segment) :=
  match filenames with
  | [] => ret []
  | name :: rest =>
      if String.eqb name "metadata1" || String.eqb name "metadata2" then found_segments rest else
      match scan_closed name with
      | Some (startIndex, endIndex) =>
          let! segments := found_segments rest in
          ret (mkSegment false startIndex endIndex 0 name [] :: segments)
      | None =>
          match scan_open name with
          | Some counter =>
              on_prepared (foundFile counter) ;;;
              let! segments := found_segments rest in
              ret (mkSegment true u64_max (u64_max - 1) 0 name [] :: segments)
          | None => found_segments rest
          end
      end
  end.

Definition readSegmentFilenames : M SL (list Segment) :=
  let! l := get in
  found_segments (ls_sorted (sl_disk l)).

(** [None] where it returns [false]. *)
Definition readMetadata (name : string) : M SL (option SegMetadata) :=
  let! file := on_disk (tryOpenFile name O_RDWR) in
  match file with
  | None => ret None
  | Some fd =>
      let! reader := on_disk (map_file fd) in
      let! result := lift (readProtoFromFile reader 0) in
      on_disk (close fd) ;;;
      match result with
      | inl _ => ret None
      | inr (m, _) => if 1 <? format_version m then fail Panicked else ret (Some m)
      end
  end.

(** The header of a segment file that is not empty. *)
Definition check_version (reader : bytes) : outcome unit :=
  match reader with
  | c :: _ => if bool_decide (N_of_ascii c = 1%N) then Ok tt else Fail Panicked
  | [] => Ok tt
  end.

(** The loop of [loadClosedSegment] over the indexes of the file's name. A record
    takes at least a byte, so the length of the file bounds the loop. *)
Fixpoint load_closed (fuel : nat) (reader : bytes) (index endIndex offset : Z) :
    outcome (list SegRecord * Z) :=
  if endIndex <? index then Ok ([], offset) else
  if Z.of_nat (length reader) <=? offset then Fail Panicked else
  match fuel with
  | O => Fail Blocked
  | S fuel' =>
      match readProtoFromFile reader offset with
      | Fail f => Fail f
      | Ok (inl _) => Fail Panicked
      | Ok (inr (e, offset')) =>
          match load_closed fuel' reader (u64 (index + 1)) endIndex offset' with
          | Ok (records, last) => Ok (mkSegRecord offset e :: records, last)
          | Fail f => Fail f
          end
      end
  end.

(** [None] where it returns [false], else the segment filled in. *)
Definition loadClosedSegment (s : Segment) (logStart : Z) : M SL (option Segment) :=
  assert_ (negb (isOpen s)) ;;;
  let! file := on_disk (openFile (filename s) O_RDWR) in
  let! reader := on_disk (map_file file) in
  (if (length reader =? 0)%nat then fail Panicked else lift (check_version reader)) ;;;
  if seg_endIndex s <? logStart then
    on_disk (removeFile (filename s) ;;; fsync dir_fd ;;; close file) ;;;
    ret None
  else
    let! (records, offset) :=
      lift (load_closed (length reader) reader (seg_startIndex s) (seg_endIndex s) header_size) in
    when (offset <? Z.of_nat (length reader)) (on_disk (truncate file offset ;;; fsync file)) ;;;
    on_disk (close file) ;;;
    modify (fun l => l <| totalClosedSegmentBytes := u64 (totalClosedSegmentBytes l + offset) |>) ;;;
    ret (Some (s <| seg_entries := records |> <| seg_bytes := offset |>)).

(** The loop of [loadOpenSegment]: the records up to the first that cannot be
    read, and whether there was one. *)
Fixpoint load_open (fuel : nat) (reader : bytes) (offset : Z) : outcome (list SegRecord * Z * bool) :=
  if Z.of_nat (length reader) <=? offset then Ok ([], offset, false) else
  match fuel with
  | O => Fail Blocked
  | S fuel' =>
      match readProtoFromFile reader offset with
      | Fail f => Fail f
      | Ok (inl _) => Ok ([], offset, true)
      | Ok (inr (e, offset')) =>
          match load_open fuel' reader offset' with
          | Ok (records, last, bad) => Ok (mkSegRecord offset e :: records, last, bad)
          | Fail f => Fail f
          end
      end
  end.

(** [entry.index()] *)
Definition record_index (r : SegRecord) : Z := default 0 (index (record_entry r)).

Definition loadOpenSegment (s : Segment) (logStart : Z) : M SL (option Segment) :=
  assert_ (isOpen s) ;;;
  let! file := on_disk (openFile (filename s) O_RDWR) in
  let! reader := on_disk (map_file file) in
  lift (check_version reader) ;;;
  let offset := if (length reader =? 0)%nat then 0 else header_size in
  let! (found, bad) := lift (load_open (length reader) reader offset) in
  let '(records, offset) := found in
  when bad (on_disk (truncate file offset ;;; fsync file)) ;;;
  on_disk (close file) ;;;
  match records, last records with
  | first_record :: _, Some last_record =>
      if record_index last_record <? logStart then
        on_disk (removeFile (filename s) ;;; fsync dir_fd) ;;;
        ret None
      else
        modify (fun l => l <| totalClosedSegmentBytes := u64 (totalClosedSegmentBytes l + offset) |>) ;;;
        let s' := s <| seg_entries := records |> <| seg_bytes := offset |> <| isOpen := false |>
                    <| seg_startIndex := record_index first_record |>
                    <| seg_endIndex := record_index last_record |> in
        let newFilename := makeClosedFilename s' in
        on_disk (rename (filename s) newFilename ;;; fsync dir_fd) ;;;
        ret (Some (s' <| filename := newFilename |>))
  | _, _ =>
      on_disk (removeFile (filename s) ;;; fsync dir_fd) ;;;
      ret None
  end.

(** One segment of the constructor's first loop. *)
Definition load_segment (logStart : Z) (s : Segment) : M SL unit :=
  let! keep := (if isOpen s then loadOpenSegment s logStart else loadClosedSegment s logStart) in
  match keep with
  | None => ret tt
  | Some s' =>
      assert_ (negb (isOpen s')) ;;;
      let! l := get in
      match om_lookup (segmentsByStartIndex l) (seg_startIndex s') with
      | Some _ => fail Panicked
      | None => put (l <| segmentsByStartIndex :=
                            om_insert (segmentsByStartIndex l) (seg_startIndex s') s' |>)
      end
  end.

(** The second loop: no gap and no overlap. *)
Fixpoint check_contiguous (nextIndex : Z) (segments : list (Z * Segment)) : outcome unit :=
  match segments with
  | [] => Ok tt
  | (_, s) :: rest =>
      if (nextIndex <? seg_startIndex s) || (seg_startIndex s <? nextIndex) then Fail Panicked
      else check_contiguous (u64 (seg_endIndex s + 1)) rest
  end.

(** Which of the two metadata files counts. *)
Definition choose_metadata (metadata1 metadata2 : option SegMetadata) : option SegMetadata :=
  match metadata1, metadata2 with
  | Some m1, Some m2 => Some (if version m2 <? version m1 then m1 else m2)
  | Some m1, None => Some m1
  | None, m2 => m2
  end.

(** The body of the constructor. It prepares the first segment itself, as the
    preparer thread will do. *)
Definition recover : M SL unit :=
  let! segments := readSegmentFilenames in
  let! metadata1 := readMetadata "metadata1" in
  let! metadata2 := readMetadata "metadata2" in
  let! l := get in
  let! m :=
    match choose_metadata metadata1 metadata2 with
    | Some m => ret m
    | None =>
        match segments with
        | [] => ret ((sl_metadata l) <| entries_start := logStartIndex l |>)
        | _ => fail Panicked
        end
    end in
  modify (fun l => l <| sl_metadata := m |> <| logStartIndex := entries_start m |>
                     <| log_metadata := default Metadata_init (raft_metadata m) |>) ;;;
  SegmentedLog_updateMetadata ;;;
  SegmentedLog_updateMetadata ;;;
  on_disk (fsync dir_fd) ;;;
  forM segments (load_segment (entries_start m)) ;;;
  let! l := get in
  lift (match segmentsByStartIndex l with
        | [] => Ok tt
        | (k, _) :: _ => check_contiguous k (segmentsByStartIndex l)
        end) ;;;
  segmentPreparer_step ;;;
  openNewSegment ;;;
  checkInvariants.

(** The members before the body runs. *)
Definition SegmentedLog_init (d : Disk) : SL :=
  mkSegmentedLog SegMetadata_init d (-1) 1 [] 0
    (PreparedSegments_init (Z.max (storageOpenSegments opts) 1)) (mkSegSync 0 false []) Metadata_init.

Definition SegmentedLog_construct (d : Disk) : outcome SL :=
  match recover (SegmentedLog_init d) with
  | Ok (_, l) => Ok l
  | Fail f => Fail f
  end.

(** The destructor: [Log.h]'s asserts that the last [Sync] was completed. *)
Definition SegmentedLog_destroy : M SL unit :=
  closeSegment ;;;
  on_prepared PreparedSegments_exit ;;;
  let! prepared := on_prepared releaseAll in
  forM prepared (fun s => on_disk (removeFile s.1 ;;; close s.2)) ;;;
  on_disk (fsync dir_fd) ;;;
  let! l := get in
  assert_ (seg_completed (sl_currentSync l) || match ops (sl_currentSync l) with [] => true | _ => false end).

Definition SegmentedLog_ops : LogOps SL :=
  {| log_sync := SegSync;
     sync_lastIndex := seg_lastIndex;
     sync_wait s := on_disk (Sync_wait s);
     append := SegmentedLog_append;
     getEntry := SegmentedLog_getEntry;
     getLogStartIndex := logStartIndex;
     getLastLogIndex := SegmentedLog_getLastLogIndex;
     getSizeBytes := SegmentedLog_getSizeBytes;
     takeSync := SegmentedLog_takeSync;
     syncComplete _ := ret tt;
     truncatePrefix := SegmentedLog_truncatePrefix;
     truncateSuffix := SegmentedLog_truncateSuffix;
     updateMetadata := SegmentedLog_updateMetadata;
     metadata := log_metadata;
     set_metadata m l := l <| log_metadata := m |>;
     saved_metadata l := default Metadata_init (raft_metadata (sl_metadata l)) |}.
End SegmentedLog.
