(* ===== verification/SegmentedLogSpec.v ===== *)
(** * The segmented log keeps the contract of [Log.h]

    The state in memory: the segments follow each other without a gap, the last
    one is open, and the entries from the start index on are the log. Each
    operation that returns has the effect that [LogLaws] promises, so the
    consensus module, verified against [LogLaws], may store its log in segments. *)

From Stdlib Require Import ZArith Lia Ascii String.
From stdpp Require Import base gmap strings list fin_maps sorting.
From S2P Require Import Prelude OrderedMap StringUtil Stream SnapshotFile Log Disk Checksum Printf SegmentedLog.
Local Open Scope Z_scope.
Local Open Scope list_scope.

(** ** The invariant of the state in memory *)

(** The entries of a segment have the indexes from [a] on. *)
Definition indexed (a : Z) (records : list SegRecord) : Prop :=
  forall j r, records !! j = Some r -> Log.index (record_entry r) = Some (a + Z.of_nat j).

Record segment_ok (a : Z) (k : Z) (s : Segment) : Prop := {
  seg_key : k = a;
  seg_start : seg_startIndex s = a;
  seg_length : Z.of_nat (length (seg_entries s)) = seg_endIndex s + 1 - a;
  seg_indexed : indexed a (seg_entries s)
}.

(** Closed segments that hold the indexes from [a] to [b - 1]. *)
Fixpoint chain (a : Z) (m : list (Z * Segment)) (b : Z) : Prop :=
  match m with
  | [] => a = b
  | (k, s) :: m' => segment_ok a k s /\ isOpen s = false /\ a <= seg_endIndex s /\ chain (seg_endIndex s + 1) m' b
  end.

Definition records_of (m : list (Z * Segment)) : list SegRecord := concat (map (fun x => seg_entries x.2) m).

(** [closed] from [a] to [b - 1], then the open segment. *)
Record segments_ok (m : list (Z * Segment)) (a b : Z) (closed : list (Z * Segment)) (o : Segment) : Prop := {
  segs_split : m = closed ++ [(b, o)];
  segs_chain : chain a closed b;
  segs_open : segment_ok b b o;
  segs_isOpen : isOpen o = true;
  segs_bytes : seg_entries o = [] -> seg_bytes o <= header_size
}.

(** The part of the state that an operation on files leaves alone. *)
Definition same_log (l l' : SegmentedLog) : Prop :=
  segmentsByStartIndex l' = segmentsByStartIndex l /\ logStartIndex l' = logStartIndex l.

#[export] Instance same_log_preorder : PreOrder same_log.
Proof. split; [by repeat split|]. intros l1 l2 l3 [] []. split; congruence. Qed.

Definition SL_ok (l : SegmentedLog) : Prop :=
  exists a b closed o, segments_ok (segmentsByStartIndex l) a b closed o /\
    1 <= a <= logStartIndex l /\ logStartIndex l <= seg_endIndex o + 1 /\ seg_endIndex o < u64_max.

Definition first_start (l : SegmentedLog) : Z :=
  match segmentsByStartIndex l with [] => 0 | (_, s) :: _ => seg_startIndex s end.

(** The entries of the log: those of the segments, from the start index on. *)
Definition SL_entries (l : SegmentedLog) : list LogEntry :=
  map (fun r => stored (record_entry r))
    (drop (Z.to_nat (logStartIndex l - first_start l)) (records_of (segmentsByStartIndex l))).

(** ** Chains *)

Lemma chain_le a m b : chain a m b -> a <= b.
Proof.
  revert a. induction m as [|[k s] m IH]; intros a; simpl; [lia|]. intros (_ & _ & ? & Hc%IH). lia.
Qed.

Lemma chain_app a m1 m2 b : chain a (m1 ++ m2) b <-> exists c, chain a m1 c /\ chain c m2 b.
Proof.
  revert a. induction m1 as [|[k s] m1 IH]; intros a; simpl.
  - split; [by exists a|]. by intros (c & -> & ?).
  - rewrite IH. naive_solver.
Qed.

Lemma chain_keys a m b : chain a m b -> Forall (fun x => key_lt x.1 b) m.
Proof.
  revert a. induction m as [|[k s] m IH]; intros a; simpl; [by constructor|].
  intros (Hs & _ & ? & Hc). constructor; [|by apply IH in Hc]. apply chain_le in Hc.
  rewrite (seg_key _ _ _ Hs). change (a < b). lia.
Qed.

Lemma chain_sorted a m b : chain a m b -> om_sorted m.
Proof.
  revert a. induction m as [|[k s] m IH]; intros a; simpl; [by constructor|].
  intros (Hs & _ & Hle & Hc). pose proof (IH _ Hc). apply om_sorted_cons. split; [done|].
  rewrite (seg_key _ _ _ Hs). assert (a < seg_endIndex s + 1) as Hlt by lia. clear -Hc Hlt.
  revert Hlt Hc. generalize (seg_endIndex s + 1) as c.
  induction m as [|[k' s'] m IH]; intros c Hlt Hc; [by constructor|]. destruct Hc as (Hs' & _ & ? & Hc).
  pose proof (seg_key _ _ _ Hs'). constructor; [change (a < k'); lia|]. revert Hc. apply IH. lia.
Qed.

Lemma records_of_app m1 m2 : records_of (m1 ++ m2) = records_of m1 ++ records_of m2.
Proof. unfold records_of. by rewrite map_app, concat_app. Qed.

Lemma records_of_cons k s m : records_of ((k, s) :: m) = seg_entries s ++ records_of m.
Proof. done. Qed.

Lemma chain_records a m b : chain a m b ->
  Z.of_nat (length (records_of m)) = b - a /\ indexed a (records_of m).
Proof.
  revert a. induction m as [|[k s] m IH]; intros a; simpl.
  - intros ->. split; [simpl; lia|]. by intros j r.
  - intros (Hs & _ & Hle & [Hl Hi]%IH). pose proof (seg_length _ _ _ Hs). rewrite records_of_cons, length_app. split; [lia|]. intros j r Hj.
    apply lookup_app_Some in Hj as [Hj|[? Hj]]; [by apply (seg_indexed _ _ _ Hs)|].
    rewrite (Hi _ _ Hj). f_equal. lia.
Qed.

Lemma om_last_app {A B} (m : list (A * B)) x : om_last (m ++ [x]) = Some x.
Proof. unfold om_last. by rewrite last_snoc. Qed.

Lemma om_erase_last {K V} `{KeyOrder K} (m : list (K * V)) k v :
  Forall (fun x => key_lt x.1 k) m -> om_erase (m ++ [(k, v)]) k = m.
Proof.
  induction 1 as [|[k' v'] m Hk _ IH]; simpl in *; [by rewrite decide_True|].
  rewrite decide_False by (intros ->; by apply key_lt_irrefl in Hk). by rewrite IH.
Qed.

Lemma indexed_app a r1 r2 :
  indexed a (r1 ++ r2) <-> indexed a r1 /\ indexed (a + Z.of_nat (length r1)) r2.
Proof.
  unfold indexed. split.
  - intros Hi. split; intros j r Hj.
    + apply Hi. by apply lookup_app_l_Some.
    + rewrite (Hi (length r1 + j)%nat r); [f_equal; lia|]. rewrite lookup_app_r by lia.
      by replace (length r1 + j - length r1)%nat with j by lia.
  - intros [H1 H2] j r Hj. apply lookup_app_Some in Hj as [Hj|[? Hj]]; [by apply H1|].
    rewrite (H2 _ _ Hj). f_equal. lia.
Qed.

Lemma indexed_nil a : indexed a [].
Proof. by intros j r. Qed.

Lemma indexed_singleton a r : Log.index (record_entry r) = Some a -> indexed a [r].
Proof. intros Hr [|j] r' Hj; [|done]. injection Hj as <-. rewrite Hr. f_equal. lia. Qed.

Lemma indexed_take a n r : indexed a r -> indexed a (take n r).
Proof. intros Hi j x Hj. apply Hi. by apply lookup_take_Some in Hj as []. Qed.

(** ** The invariant, in terms of one segment list *)

(** [SL_ok] for a list of segments and a start index, and the entries it holds. *)
Definition holds (m : list (Z * Segment)) (start : Z) (es : list LogEntry) : Prop :=
  exists a b closed o, segments_ok m a b closed o /\
    1 <= a <= start /\ start <= seg_endIndex o + 1 /\ seg_endIndex o < u64_max /\
    es = map (fun r => stored (record_entry r)) (drop (Z.to_nat (start - a)) (records_of m)).

Lemma segments_first m a b closed o :
  segments_ok m a b closed o -> match m with [] => 0 | (_, s) :: _ => seg_startIndex s end = a.
Proof.
  intros [-> Hc Ho _ _]. destruct closed as [|[k s] closed]; simpl in *.
  - subst. apply (seg_start _ _ _ Ho).
  - destruct Hc as (Hs & _). apply (seg_start _ _ _ Hs).
Qed.

Lemma SL_ok_holds l : SL_ok l <-> holds (segmentsByStartIndex l) (logStartIndex l) (SL_entries l).
Proof.
  unfold SL_ok, holds, SL_entries, first_start. split.
  - intros (a & b & closed & o & Hm & H1 & H2 & H3). exists a, b, closed, o.
    rewrite (segments_first _ _ _ _ _ Hm). by repeat (split; [done|]).
  - intros (a & b & closed & o & Hm & H1 & H2 & H3 & _). by exists a, b, closed, o.
Qed.

Lemma holds_entries m start es l :
  holds m start es -> segmentsByStartIndex l = m -> logStartIndex l = start -> SL_ok l /\ SL_entries l = es.
Proof.
  intros (a & b & closed & o & Hm & H1 & H2 & H3 & ->) <- <-. split; [by exists a, b, closed, o|].
  unfold SL_entries, first_start. by rewrite (segments_first _ _ _ _ _ Hm).
Qed.

(** The records of all the segments: as many as there are indexes. *)
Lemma segments_records m a b closed o :
  segments_ok m a b closed o ->
  Z.of_nat (length (records_of m)) = seg_endIndex o + 1 - a /\ indexed a (records_of m) /\ a <= b.
Proof.
  intros [-> Hc Ho _ _]. destruct (chain_records _ _ _ Hc) as [Hl Hi]. pose proof (chain_le _ _ _ Hc).
  rewrite records_of_app, length_app. unfold records_of at 2 4. simpl. rewrite app_nil_r.
  pose proof (seg_length _ _ _ Ho). split; [lia|]. split; [|done].
  apply indexed_app. split; [done|]. replace (a + _) with b by lia. apply (seg_indexed _ _ _ Ho).
Qed.

Lemma holds_length m start es b o :
  holds m start es -> om_last m = Some (b, o) -> Z.of_nat (length es) = seg_endIndex o + 1 - start.
Proof.
  intros (a & b' & closed & o' & Hm & H1 & H2 & H3 & ->) Hlast.
  destruct (segments_records _ _ _ _ _ Hm) as [Hl _].
  rewrite (segs_split _ _ _ _ _ Hm), om_last_app in Hlast. injection Hlast as <- <-.
  rewrite length_map, length_drop. lia.
Qed.

Lemma SL_last l : SL_ok l ->
  SegmentedLog_getLastLogIndex l = logStartIndex l + Z.of_nat (length (SL_entries l)) - 1.
Proof.
  rewrite SL_ok_holds. intros Hh. pose proof Hh as (a & b & closed & o & Hm & _).
  unfold SegmentedLog_getLastLogIndex.
  assert (om_last (segmentsByStartIndex l) = Some (b, o)) as Hlast
    by (rewrite (segs_split _ _ _ _ _ Hm); apply om_last_app).
  rewrite Hlast, (holds_length _ _ _ _ _ Hh Hlast). lia.
Qed.

Lemma SL_bounds l : SL_ok l ->
  1 <= logStartIndex l /\ logStartIndex l + Z.of_nat (length (SL_entries l)) <= u64_max.
Proof.
  rewrite SL_ok_holds. intros Hh. pose proof Hh as (a & b & closed & o & Hm & H1 & H2 & H3 & _).
  rewrite (holds_length _ _ _ b o Hh); [lia|]. rewrite (segs_split _ _ _ _ _ Hm). apply om_last_app.
Qed.

(** The index of the last entry. *)
Definition last_of (m : list (Z * Segment)) (n : Z) : Prop :=
  exists b o, om_last m = Some (b, o) /\ seg_endIndex o = n.

(** ** [getEntry] *)

Lemma om_before_cons (k i : Z) (s : Segment) m :
  k <= i -> om_before ((k, s) :: m) i = match om_before m i with Some x => Some x | None => Some (k, s) end.
Proof.
  intros Hk. unfold om_before. simpl. rewrite decide_False by (change (~ i < k); lia). by rewrite last_cons.
Qed.

Lemma om_before_none a m b o (i : Z) : chain a m b -> i < a -> om_before (m ++ [(b, o)]) i = None.
Proof.
  intros Hc Hi. unfold om_before. destruct m as [|[k s] m]; simpl in *.
  - subst. by rewrite decide_True.
  - destruct Hc as (Hs & _). rewrite decide_True; [done|]. rewrite (seg_key _ _ _ Hs). exact Hi.
Qed.

(** The segment that [--upper_bound(i)] finds holds the entry with index [i]. *)
Lemma find_segment a m b o i :
  chain a m b -> segment_ok b b o -> a <= i <= seg_endIndex o ->
  exists k s r, om_before (m ++ [(b, o)]) i = Some (k, s) /\ seg_startIndex s <= i <= seg_endIndex s /\
    seg_entries s !! Z.to_nat (i - seg_startIndex s) = Some r /\
    records_of (m ++ [(b, o)]) !! Z.to_nat (i - a) = Some r.
Proof.
  intros Hc Ho. revert a Hc. induction m as [|[k s] m IH]; intros a Hc Hi.
  - simpl in Hc. subst a. exists b, o. pose proof (seg_start _ _ _ Ho). pose proof (seg_length _ _ _ Ho).
    destruct (lookup_lt_is_Some_2 (seg_entries o) (Z.to_nat (i - b))) as [r Hr]; [lia|]. exists r.
    rewrite app_nil_l, om_before_cons by lia. rewrite records_of_cons, app_nil_r.
    replace (seg_startIndex o) with b by done. repeat (split; [done || lia|]). done.
  - destruct Hc as (Hs & _ & Hle & Hc). pose proof (seg_start _ _ _ Hs) as Hstart. pose proof (seg_length _ _ _ Hs).
    pose proof (seg_key _ _ _ Hs). cbn [app]. rewrite records_of_cons, om_before_cons by lia.
    destruct (Z.le_gt_cases i (seg_endIndex s)) as [Hin|Hout].
    + exists k, s. destruct (lookup_lt_is_Some_2 (seg_entries s) (Z.to_nat (i - a))) as [r Hr]; [lia|]. exists r.
      rewrite (om_before_none (seg_endIndex s + 1)) by (done || lia). rewrite Hstart.
      repeat (split; [done || lia|]). by rewrite lookup_app_l by lia.
    + destruct (IH (seg_endIndex s + 1)) as (k' & s' & r & Hb & Hr & He & Hrec); [done|lia|].
      exists k', s', r. rewrite Hb. repeat (split; [done|]). rewrite lookup_app_r by lia.
      by replace (Z.to_nat (i - a) - length (seg_entries s))%nat with (Z.to_nat (i - (seg_endIndex s + 1))) by lia.
Qed.

Lemma getEntry_record l a b closed o i :
  segments_ok (segmentsByStartIndex l) a b closed o -> logStartIndex l <= i -> a <= i <= seg_endIndex o ->
  exists r, SegmentedLog_getEntry i l = Ok (record_entry r) /\
    records_of (segmentsByStartIndex l) !! Z.to_nat (i - a) = Some r.
Proof.
  intros Hm Hi Ha. unfold SegmentedLog_getEntry, SegmentedLog_getLastLogIndex. rewrite (segs_split _ _ _ _ _ Hm), om_last_app.
  replace (i <? _) with false by lia. replace (_ <? i) with false by lia. cbn [orb].
  destruct (find_segment a closed b o i) as (k & s & r & -> & Hr & Hs & Hrec); [apply Hm|apply Hm|lia|].
  exists r. replace ((seg_startIndex s <=? i) && (i <=? seg_endIndex s)) with true by lia. by rewrite Hs.
Qed.

Lemma SL_getEntry l i e :
  SL_ok l -> logStartIndex l <= i -> SL_entries l !! Z.to_nat (i - logStartIndex l) = Some e ->
  exists e', SegmentedLog_getEntry i l = Ok e' /\ stored e' = e.
Proof.
  intros Hl Hi He. pose proof (lookup_lt_Some _ _ _ He) as Hlt.
  apply SL_ok_holds in Hl as Hh. pose proof Hh as (a & b & closed & o & Hm & H1 & H2 & H3 & Hes).
  assert (om_last (segmentsByStartIndex l) = Some (b, o)) as Hlast by (rewrite (segs_split _ _ _ _ _ Hm); apply om_last_app).
  pose proof (holds_length _ _ _ _ _ Hh Hlast).
  destruct (getEntry_record l a b closed o i Hm Hi) as (r & Hget & Hrec); [lia|]. exists (record_entry r). split; [done|].
  rewrite Hes in He. apply list_lookup_fmap_Some in He as (r' & -> & He).
  rewrite lookup_drop in He. replace (_ + _)%nat with (Z.to_nat (i - a)) in He by lia. congruence.
Qed.

(** ** The operations *)

Section Operations.
Context (opts : SegOptions) (algorithms : bytes -> option (bytes -> bytes)).
Context `{ProtoBuf LogEntry} `{ProtoBuf SegMetadata} `{ProtoBufText LogEntry} `{ProtoBufText SegMetadata}.

Abbreviation open_new := (openNewSegment opts).

Lemma on_disk_same {A} (m : M Disk A) l : post (on_disk m) (fun _ l' => same_log l l') l.
Proof. apply wp_zoom. unfold wp. destruct (m _) as [[a d]|f]; done. Qed.

Lemma on_prepared_same {A} (m : M PreparedSegments A) l : post (on_prepared m) (fun _ l' => same_log l l') l.
Proof. apply wp_zoom. unfold wp. destruct (m _) as [[a d]|f]; done. Qed.

Lemma push_op_same op l : post (push_op op) (fun _ l' => same_log l l') l.
Proof. by apply wp_modify. Qed.

Lemma release_same l : post release_open_file (fun _ l' => same_log l l') l.
Proof. by apply wp_bind, wp_get, wp_bind, wp_put, wp_ret. Qed.

Lemma waitForOpenSegment_same l : post (waitForOpenSegment opts) (fun _ l' => same_log l l') l.
Proof.
  revert l. apply (keeps_bind same_log); [by intros l|]. intros l0.
  apply (keeps_bind same_log); [|intros _ l; apply on_prepared_same].
  apply (keeps_when same_log). apply (keeps_bind same_log); [intros l; apply on_prepared_same|]. intros id.
  apply (keeps_bind same_log); [intros l; apply on_disk_same|]. intros seg l. apply on_prepared_same.
Qed.

Lemma checkInvariants_same l : post (checkInvariants opts) (fun _ l' => l' = l) l.
Proof.
  unfold checkInvariants. destruct (shouldCheckInvariants opts); [|by apply wp_ret].
  apply wp_bind, wp_get. by apply wp_assert.
Qed.

(** Running an operation that leaves the log alone. *)
Lemma post_same {A} (m : M SegmentedLog A) (Q : A -> SegmentedLog -> Prop) l :
  post m (fun _ l' => same_log l l') l ->
  (forall a l', segmentsByStartIndex l' = segmentsByStartIndex l -> logStartIndex l' = logStartIndex l -> Q a l') ->
  wp (fun _ => True) m Q l.
Proof. intros Hm HQ. eapply wp_mono; [exact Hm|done|]. intros a l' []. by apply HQ. Qed.

(** A new, empty segment after the closed ones. *)
Definition closed_upto (m : list (Z * Segment)) (start a b : Z) : Prop :=
  chain a m b /\ 1 <= a <= start /\ start <= b <= u64_max.

Lemma openNewSegment_spec l m start a b :
  segmentsByStartIndex l = m -> logStartIndex l = start -> closed_upto m start a b -> (m = [] -> b = start) ->
  post open_new (fun _ l' =>
    holds (segmentsByStartIndex l') (logStartIndex l')
      (map (fun r => stored (record_entry r)) (drop (Z.to_nat (start - a)) (records_of m))) /\
    logStartIndex l' = start /\ last_of (segmentsByStartIndex l') (b - 1)) l.
Proof.
  intros Hm Hstart (Hc & Ha & Hb) Hnil. apply wp_bind, wp_get.
  do 2 (apply wp_bind, wp_assert; [done|intros _]).
  assert (u64 (SegmentedLog_getLastLogIndex l + 1) = b) as ->.
  { unfold SegmentedLog_getLastLogIndex. rewrite Hm, Hstart. destruct m as [|x m] using rev_ind.
    - rewrite Hnil by done. unfold u64_max in *. cbn. rewrite (u64_small (start - 1)) by (unfold is_u64; lia).
      rewrite u64_small; unfold is_u64; lia.
    - rewrite om_last_app. destruct x as [k s]. apply chain_app in Hc as (c & _ & (Hs & _ & _ & Hc)).
      simpl in Hc. rewrite u64_small; unfold is_u64, u64_max in *; lia. }
  apply wp_bind, post_same; [apply waitForOpenSegment_same|]. intros [name fd] l1 Hm1 Hs1.
  apply wp_modify. cbn. rewrite Hm1, Hm, Hs1, Hstart.
  rewrite om_insert_above by by eapply chain_keys. unfold u64_max in *. split; [|split; [done|]].
  2: { eexists _, _. split; [apply om_last_app|]. cbn. apply u64_small. unfold is_u64. lia. }
  exists a, b, m. eexists. split_and!.
  - split; [done..| |done|done]. split; try done; simpl.
    rewrite u64_small; unfold is_u64; lia.
  - lia.
  - lia.
  - simpl. rewrite u64_small; unfold is_u64; lia.
  - simpl. rewrite u64_small; unfold is_u64, u64_max; lia.
  - rewrite records_of_app, records_of_cons, !app_nil_r. done.
Qed.

Lemma closeSegment_spec l m start a b o :
  segmentsByStartIndex l = m ++ [(b, o)] -> logStartIndex l = start -> chain a m b ->
  segment_ok b b o \/ (seg_startIndex o = b /\ seg_endIndex o < b) ->
  post closeSegment (fun _ l' => (openSegmentFile l < 0 /\ l' = l) \/
    logStartIndex l' = start /\
    exists m' b', segmentsByStartIndex l' = m' /\ chain a m' b' /\
      (seg_endIndex o < b -> m' = m /\ b' = b) /\
      (b <= seg_endIndex o -> m' <> [] /\ b' = seg_endIndex o + 1 /\ records_of m' = records_of (m ++ [(b, o)]))) l.
Proof.
  intros Hm Hstart Hc Ho. apply wp_bind, wp_get.
  destruct (openSegmentFile l <? 0) eqn:Hfile. { apply wp_ret. left. split; [lia|done]. }
  apply wp_bind, wp_bind, wp_get. rewrite Hm, om_last_app. apply wp_ret.
  assert (seg_startIndex o = b) as Hb by (destruct Ho as [Ho|[? ?]]; [apply Ho|done]).
  assert (Forall (fun x => key_lt x.1 b) m) as Hkeys by by eapply chain_keys.
  destruct (seg_endIndex o <? seg_startIndex o) eqn:Hempty.
  - apply wp_bind, post_same; [apply release_same|]. intros fd l1 Hm1 Hs1.
    apply wp_bind, post_same; [apply on_disk_same|]. intros [] l2 Hm2 Hs2.
    apply wp_modify. right. cbn. split; [congruence|].
    exists m, b. rewrite Hm2, Hm1, Hm, Hb, om_erase_last by done.
    split; [done|]. split; [done|]. split; [done|lia].
  - destruct Ho as [Ho|[? ?]]; [|lia].
    apply wp_bind, post_same; [apply on_disk_same|]. intros [] l1 Hm1 Hs1.
    apply wp_bind, post_same; [apply release_same|]. intros fd l2 Hm2 Hs2.
    apply wp_bind, post_same; [apply on_disk_same|]. intros [] l3 Hm3 Hs3.
    apply wp_bind, post_same; [apply on_disk_same|]. intros [] l4 Hm4 Hs4.
    apply wp_bind, wp_modify, wp_modify. right. cbn. split; [congruence|].
    rewrite Hm4, Hm3, Hm2, Hm1, Hm, om_set_last by done.
    eexists _, (seg_endIndex o + 1). split; [done|].
    split; [|split; [lia|intros _; split; [by destruct m|split; [done|]]]].
    + apply chain_app. exists b. split; [done|]. split; [|repeat split; simpl; lia].
      destruct Ho. by split.
    + by rewrite !records_of_app, !records_of_cons.
Qed.

(** A segment that ends later, cut off after [n]. *)
Lemma cut_segment_spec c k s n :
  segment_ok c k s -> 1 <= c <= n -> n < seg_endIndex s < u64_max ->
  exists s', cut_segment n s = Ok s' /\ segment_ok c k s' /\ isOpen s' = isOpen s /\ seg_endIndex s' = n /\
    seg_entries s' = take (Z.to_nat (n + 1 - c)) (seg_entries s).
Proof.
  intros [Hk Hs Hl Hi] Hc Hn. unfold cut_segment. rewrite Hs, u64_small by (unfold is_u64, u64_max in *; lia).
  destruct (lookup_lt_is_Some_2 (seg_entries s) (Z.to_nat (n + 1 - c))) as [r ->]; [lia|].
  eexists. split; [done|]. repeat split; try done; simpl.
  - rewrite length_take. lia.
  - by apply indexed_take.
Qed.

(** The loop over the closed segments keeps the indexes up to [n]. *)
Lemma truncateSuffix_loop_spec n l m a b :
  segmentsByStartIndex l = m -> chain a m b -> 1 <= a -> a - 1 <= n < b -> b <= u64_max ->
  post (truncateSuffix_loop n (rev m)) (fun _ l' =>
    logStartIndex l' = logStartIndex l /\
    chain a (segmentsByStartIndex l') (n + 1) /\
    records_of (segmentsByStartIndex l') = take (Z.to_nat (n + 1 - a)) (records_of m)) l.
Proof.
  revert l b. induction m as [|[k s] m IH] using rev_ind; intros l b Hm Hc Ha Hn Hb.
  { simpl in Hc. subst b. apply wp_ret. rewrite Hm. simpl. replace (n + 1) with a by lia.
    unfold records_of. simpl. rewrite take_nil. by repeat split. }
  rewrite rev_app_distr. cbn [rev app truncateSuffix_loop].
  apply chain_app in Hc as (c & Hc & (Hs & Ho & Hle & Heq)). simpl in Heq.
  pose proof (chain_le _ _ _ Hc) as Hac. pose proof (seg_start _ _ _ Hs) as Hstart.
  pose proof (chain_records _ _ _ Hc) as [Hlen _]. pose proof (seg_length _ _ _ Hs) as Hslen.
  rewrite records_of_app, records_of_cons, app_nil_r.
  destruct (seg_endIndex s =? n) eqn:Heqn.
  - apply wp_ret. rewrite Hm. split; [done|]. replace (n + 1) with b by lia.
    rewrite take_ge by (rewrite length_app; lia). rewrite records_of_app, records_of_cons, app_nil_r.
    split; [|done]. apply chain_app. exists c. split; [done|]. by split.
  - rewrite Hstart. destruct (n <? c) eqn:Hbelow.
    + apply wp_bind, post_same; [apply on_disk_same|]. intros [] l1 Hm1 Hs1.
      apply wp_bind, wp_modify. rewrite take_app_le by lia.
      eapply wp_mono; [eapply (IH _ c); [|done|done|lia|lia]| |].
      * cbn. rewrite Hm1, Hm, (seg_key _ _ _ Hs). apply om_erase_last. by eapply chain_keys.
      * done.
      * cbn. intros [] l' (H1' & H3' & H4'). rewrite H1', Hs1. by split.
    + destruct (n <? seg_endIndex s) eqn:Hin; [|lia].
      destruct (cut_segment_spec c k s n Hs) as (s' & -> & Hs' & Hopen & Hend & Hrec); [lia|lia|].
      apply wp_bind, wp_lift, wp_bind, wp_modify.
      apply wp_bind, post_same; [apply on_disk_same|]. intros [] l1 Hm1 Hs1. cbn in *.
      apply wp_bind, wp_modify. apply post_same; [apply on_disk_same|]. intros [] l2 Hm2 Hs2.
      cbn in *. rewrite Hs2, Hs1. split; [done|].
      rewrite Hm2, Hm1, Hm, (seg_key _ _ _ Hs), om_set_last by by eapply chain_keys.
      rewrite records_of_app, records_of_cons, app_nil_r. simpl. rewrite Hrec, take_app_ge by lia. split.
      * apply chain_app. exists c. split; [done|]. simpl. rewrite Hend, Hopen. split; [|split_and!; [done|lia|done]].
        by destruct Hs'; split; simpl in *; [|rewrite Hend in *| |].
      * f_equal. f_equal. lia.
Qed.

(** What an operation must establish: the entries [es] from [start] on. *)
Definition becomes (start : Z) (es : list LogEntry) (l' : SegmentedLog) : Prop :=
  SL_ok l' /\ logStartIndex l' = start /\ SL_entries l' = es.

Lemma holds_becomes l' start es :
  holds (segmentsByStartIndex l') (logStartIndex l') es -> logStartIndex l' = start -> becomes start es l'.
Proof. intros Hh Hs. by destruct (holds_entries _ _ _ l' Hh) as [Hok He]. Qed.

(** The last steps of [truncateSuffix]: the closed segments end at [n]. *)
Lemma reopen_spec l a n start es :
  chain a (segmentsByStartIndex l) (n + 1) -> logStartIndex l = start ->
  1 <= a <= start -> start - 1 <= n -> n + 1 <= u64_max ->
  es = map (fun r => stored (record_entry r)) (drop (Z.to_nat (start - a)) (records_of (segmentsByStartIndex l))) ->
  post (open_new ;;; checkInvariants opts) (fun _ l' => becomes start es l') l.
Proof.
  intros Hc Hs Ha Hn Hmax Hes. apply wp_bind.
  eapply wp_mono; [eapply (openNewSegment_spec l _ start a (n + 1) eq_refl Hs)|done|].
  - split; [done|lia].
  - intros Hm. rewrite Hm in Hc. simpl in Hc. lia.
  - intros [] l1 (Hh & Hs1 & _). eapply wp_mono; [apply checkInvariants_same|done|].
    intros [] l2 ->. apply holds_becomes; [by rewrite Hes|done].
Qed.

(** With an open segment at the end there is no new one. *)
Lemma openNewSegment_open l m k s Q :
  segmentsByStartIndex l = m ++ [(k, s)] -> isOpen s = true -> post open_new Q l.
Proof.
  intros Hm Ho. apply wp_bind, wp_get, wp_bind, wp_assert; [done|intros _].
  rewrite Hm, om_last_app, Ho. by apply wp_bind, wp_assert.
Qed.

Lemma take_drop_entries (n start a : Z) (r : list SegRecord) :
  a <= start -> start - 1 <= n ->
  map (fun r => stored (record_entry r)) (drop (Z.to_nat (start - a)) (take (Z.to_nat (n + 1 - a)) r)) =
  take (Z.to_nat (n - start + 1)) (map (fun r => stored (record_entry r)) (drop (Z.to_nat (start - a)) r)).
Proof.
  intros Ha Hn. change (map ?f) with (fmap (M:=list) f). rewrite <-fmap_take, take_drop_commute.
  do 3 f_equal. lia.
Qed.

(** The rest of [truncateSuffix] when the open segment is gone. *)
Lemma truncate_closed_spec l m a b start i es :
  segmentsByStartIndex l = m -> logStartIndex l = start -> chain a m b ->
  1 <= a <= start -> start - 1 <= i < b -> b <= u64_max ->
  es = map (fun r => stored (record_entry r)) (drop (Z.to_nat (start - a)) (take (Z.to_nat (i + 1 - a)) (records_of m))) ->
  post (truncateSuffix_loop i (rev m) ;;; open_new ;;; checkInvariants opts) (fun _ l' => becomes start es l') l.
Proof.
  intros Hm Hs Hc Ha Hi Hb Hes. apply wp_bind.
  eapply wp_mono; [eapply (truncateSuffix_loop_spec i l m a b)|done|]; [done|done|lia|lia|done|].
  intros [] l1 (Hs1 & Hc1 & Hrec1).
  apply (reopen_spec l1 a i start); try done; try lia; by rewrite Hrec1.
Qed.

Lemma SL_truncateSuffix l i :
  SL_ok l -> logStartIndex l - 1 <= i ->
  post (SegmentedLog_truncateSuffix opts i) (fun _ l' =>
    becomes (logStartIndex l) (take (Z.to_nat (i - logStartIndex l + 1)) (SL_entries l)) l') l.
Proof.
  intros Hok Hi. pose proof (SL_last l Hok) as Hlast. apply wp_bind, wp_get.
  destruct (SegmentedLog_getLastLogIndex l <=? i) eqn:Hle.
  { apply wp_ret. rewrite take_ge by lia. by repeat split. }
  apply SL_ok_holds in Hok as (a & b & closed & o & Hm & H1' & H2' & H3' & Hes).
  destruct Hm as [Hm Hc Ho Hopen _]. set (start := logStartIndex l) in *.
  assert (SegmentedLog_getLastLogIndex l = seg_endIndex o) as Hend
    by (unfold SegmentedLog_getLastLogIndex; by rewrite Hm, om_last_app).
  rewrite Hend in Hle. clear Hlast Hend. pose proof (chain_le _ _ _ Hc) as Hab.
  pose proof (chain_records _ _ _ Hc) as [Hlen _]. pose proof (seg_length _ _ _ Ho) as Holen.
  assert (Forall (fun x => key_lt x.1 b) closed) as Hkeys by by eapply chain_keys.
  rewrite Hm in Hes. apply wp_bind, wp_bind, wp_get. rewrite Hm, om_last_app. apply wp_ret.
  rewrite (seg_start _ _ _ Ho). rewrite Hes, <-take_drop_entries by lia.
  rewrite records_of_app, records_of_cons, app_nil_r.
  destruct (b <=? i) eqn:Hbi.
  - destruct (cut_segment_spec b b o i Ho) as (o' & -> & Ho' & Hopen' & Hend & Hrec); [lia|lia|].
    apply wp_bind, wp_lift, wp_bind, wp_modify, wp_bind.
    eapply wp_mono; [eapply (closeSegment_spec _ closed start a b o')|done|].
    + cbn. rewrite Hm. by apply om_set_last.
    + done.
    + done.
    + by left.
    + intros [] l1 [[_ ->]|(Hs1 & m' & b' & Hm1 & Hc1 & _ & Hfull)].
      { apply wp_bind. eapply openNewSegment_open; [cbn; by rewrite Hm, om_set_last|]. by rewrite Hopen'. }
      destruct Hfull as (_ & Hb' & Hrec1); [lia|]. rewrite <-Hm1 in *.
      apply (reopen_spec l1 a i start); try done; try lia.
      * by rewrite Hb', Hend in Hc1.
      * rewrite Hrec1, records_of_app, records_of_cons, app_nil_r, Hrec, take_app_ge by lia.
        do 5 f_equal. lia.
  - apply wp_bind, wp_modify, wp_bind.
    rewrite u64_small by (unfold is_u64, u64_max in *; lia). set (o' := (o <| seg_endIndex := b - 1 |>) <| seg_bytes := 0 |>).
    eapply wp_mono; [eapply (closeSegment_spec _ closed start a b o')|done|].
    + cbn. rewrite Hm. by apply om_set_last.
    + done.
    + done.
    + right. cbn. rewrite (seg_start _ _ _ Ho). split; [done|lia].
    + intros [] l1 Hl1. apply wp_bind, wp_get. rewrite take_app_le by lia.
      destruct Hl1 as [[_ ->]|(Hs1 & m' & b' & Hseg & _ & Hfull & _)].
      * cbn. rewrite Hm, om_set_last by done. rewrite rev_app_distr. cbn [rev app truncateSuffix_loop].
        cbn. rewrite (seg_start _ _ _ Ho). destruct (b - 1 =? i).
        { apply wp_bind, wp_ret, wp_bind. eapply openNewSegment_open; [cbn; reflexivity|done]. }
        replace (i <? b) with true by lia. apply wp_bind, wp_bind.
        apply post_same; [apply on_disk_same|]. intros [] l1 Hm1 Hs1. apply wp_bind, wp_modify.
        eapply wp_bind_inv, (truncate_closed_spec _ closed a b start); try done; try lia.
        -- cbn. rewrite Hm1. by apply om_erase_last.
      * destruct Hfull as [-> ->]; [cbn; lia|]. rewrite Hseg.
        eapply (truncate_closed_spec _ closed a b start); try done; lia.
Qed.

(** [updateMetadata] touches neither the entries nor the start. *)
Lemma updateMetadata_run l :
  post (SegmentedLog_updateMetadata opts algorithms) (fun _ l' =>
    segmentsByStartIndex l' = segmentsByStartIndex l /\ logStartIndex l' = logStartIndex l /\
    log_metadata l' = log_metadata l /\ sl_currentSync l' = sl_currentSync l /\
    default Metadata_init (raft_metadata (sl_metadata l')) = log_metadata l) l.
Proof.
  apply wp_bind, wp_modify, wp_bind, wp_get, wp_bind, wp_zoom.
  unfold wp at 1. destruct (openFile _ _ _) as [[fd d]|]; [|done].
  apply wp_bind, wp_lift. destruct (serializeProto _ _ _); [|done]. apply wp_zoom.
  unfold wp at 1. destruct (bind _ _ _) as [[[] d']|]; [|done]. repeat (split; [done|]). cbn.
  unfold metadata_is_empty. by case_bool_decide.
Qed.

(** Dropping the first segment moves the start of the list to its end. *)
Lemma truncatePrefix_loop_spec n l m a b o :
  segmentsByStartIndex l = m ++ [(b, o)] -> logStartIndex l = n ->
  chain a m b -> segment_ok b b o -> isOpen o = true -> 1 <= a <= n ->
  post (truncatePrefix_loop (m ++ [(b, o)])) (fun _ l' =>
    logStartIndex l' = n /\
    ((segmentsByStartIndex l' = [] /\ seg_endIndex o < n) \/
     exists m1 m2 a', m = m1 ++ m2 /\ segmentsByStartIndex l' = m2 ++ [(b, o)] /\ chain a m1 a' /\ chain a' m2 b /\
       a' <= n /\ match m2 with [] => n <= seg_endIndex o | (_, s) :: _ => n <= seg_endIndex s end)) l.
Proof.
  intros Hm Hs Hc Ho Hopen. revert l a Hm Hs Hc. induction m as [|[k s] m IH]; intros l a Hm Hs Hc Ha.
  - simpl in *. subst a. apply wp_bind, wp_get. rewrite Hs. destruct (n <=? seg_endIndex o) eqn:Hle.
    + apply wp_ret. split; [done|]. right. exists [], [], b. repeat (split; [done || lia|]). lia.
    + apply wp_bind, post_same; [apply push_op_same|]. intros [] l1 Hm1 Hs1. rewrite Hopen.
      apply wp_bind, wp_bind, post_same; [apply release_same|]. intros fd l2 Hm2 Hs2.
      apply post_same; [apply push_op_same|]. intros [] l3 Hm3 Hs3.
      apply wp_bind, wp_modify, wp_ret. cbn. split; [congruence|]. left.
      rewrite Hm3, Hm2, Hm1, Hm. simpl. rewrite decide_True by done. split; [done|lia].
  - destruct Hc as (Hks & Hclosed & Hle & Hc). cbn [app truncatePrefix_loop]. apply wp_bind, wp_get. rewrite Hs.
    destruct (n <=? seg_endIndex s) eqn:Hn.
    + apply wp_ret. split; [done|]. right. exists [], ((k, s) :: m), a.
      repeat (split; [done || lia|]). lia.
    + apply wp_bind, post_same; [apply push_op_same|]. intros [] l1 Hm1 Hs1. rewrite Hclosed.
      apply wp_bind, wp_modify, wp_bind, wp_modify.
      eapply wp_mono; [eapply (IH _ (seg_endIndex s + 1))|done|].
      * cbn. rewrite Hm1, Hm. simpl. by rewrite decide_True.
      * cbn. congruence.
      * done.
      * lia.
      * cbn. intros [] l2 (Hs2 & Hcase). split; [done|].
        destruct Hcase as [Hcase|(m1 & m2 & a' & -> & Hm2 & Hc1 & Hc2 & Ha' & Hend)].
        { by left. }
        right. exists ((k, s) :: m1), m2, a'. repeat (split; [done|]). done.
Qed.

(** The last steps of [truncatePrefix]. *)
Lemma truncatePrefix_end l start es :
  becomes start es l ->
  post (let! l := get in
        modify (fun l => l <| sl_currentSync := (sl_currentSync l)
          <| seg_lastIndex := Z.max (seg_lastIndex (sl_currentSync l)) (u64 (logStartIndex l - 1)) |> |>) ;;;
        checkInvariants opts)
    (fun _ l' => becomes start es l') l.
Proof.
  intros Hl. apply wp_bind, wp_get, wp_bind, wp_modify.
  eapply wp_mono; [apply checkInvariants_same|done|]. by intros [] l1 ->.
Qed.

Lemma SL_truncatePrefix l i :
  SL_ok l -> i < u64_max ->
  post (SegmentedLog_truncatePrefix opts algorithms i) (fun _ l' =>
    becomes (Z.max i (logStartIndex l)) (drop (Z.to_nat (i - logStartIndex l)) (SL_entries l)) l') l.
Proof.
  intros Hok Hi. apply wp_bind, wp_get. destruct (i <=? logStartIndex l) eqn:Hle.
  { apply wp_ret. replace (Z.to_nat (i - logStartIndex l)) with 0%nat by lia. repeat split; [done|lia]. }
  rewrite Z.max_l by lia.
  apply SL_ok_holds in Hok as (a & b & closed & o & [Hm Hc Ho Hopen Hbytes] & H1' & H2' & H3' & Hes).
  apply wp_bind, wp_modify, wp_bind. eapply wp_mono; [apply updateMetadata_run|done|].
  cbn. intros [] l1 (Hm1 & Hs1 & _). apply wp_bind. rewrite Hm in Hm1 |- *.
  pose proof (chain_le _ _ _ Hc) as Hab. pose proof (chain_records _ _ _ Hc) as [Hlen Hidx].
  pose proof (seg_length _ _ _ Ho) as Holen.
  eapply wp_mono; [apply (truncatePrefix_loop_spec i l1 closed a b o); try done; lia|done|].
  intros [] l2 (Hs2 & Hcase). apply wp_bind, wp_get, wp_bind.
  rewrite Hes, Hm. change (map ?f) with (fmap (M:=list) f). rewrite <-fmap_drop, drop_drop.
  replace (Z.to_nat (logStartIndex l - a) + Z.to_nat (i - logStartIndex l))%nat with (Z.to_nat (i - a)) by lia.
  destruct Hcase as [[Hm2 Hend]|(m1 & m2 & a' & -> & Hm2 & Hc1 & Hc2 & Ha' & Hend)].
  - rewrite Hm2. eapply wp_mono; [apply (openNewSegment_spec l2 [] i i i); try done|done|].
    { split; [done|]. unfold u64_max in *. lia. }
    intros [] l3 (Hh & Hs3 & _). apply truncatePrefix_end, holds_becomes; [|done].
    rewrite drop_ge by (rewrite records_of_app, records_of_cons, app_nil_r, length_app; lia).
    change (records_of []) with (@nil SegRecord) in Hh. by rewrite drop_nil in Hh.
  - rewrite Hm2. replace (match _ with [] => true | _ => false end) with false by (by destruct m2).
    apply wp_ret, truncatePrefix_end, holds_becomes; [|done]. rewrite Hs2, Hm2.
    destruct (chain_records _ _ _ Hc1) as [Hlen1 _].
    exists a', b, m2, o. split; [done|]. split; [pose proof (chain_le _ _ _ Hc1); lia|].
    split; [|split; [done|]].
    + destruct m2 as [|[k s] m2]; [lia|]. destruct Hc2 as (_ & _ & _ & Hc2). apply chain_le in Hc2. lia.
    + rewrite <-app_assoc, records_of_app, drop_app_ge by lia. do 2 f_equal. lia.
Qed.

(** ** [append] *)

(** The state between two entries: [es] so far, the last of them at [n]. *)
Definition appended (start n : Z) (es : list LogEntry) (l : SegmentedLog) : Prop :=
  holds (segmentsByStartIndex l) start es /\ logStartIndex l = start /\ last_of (segmentsByStartIndex l) n.

Lemma roll_over_spec l start n es :
  appended start n es l -> (forall b o, om_last (segmentsByStartIndex l) = Some (b, o) -> header_size < seg_bytes o) ->
  post (roll_over opts) (fun _ l' => appended start n es l') l.
Proof.
  intros (Hh & Hs & b' & o' & Hlast & Hn) Hbig.
  destruct Hh as (a & b & closed & o & [Hm Hc Ho Hopen Hbytes] & H1' & H2' & H3' & Hes).
  rewrite Hm, om_last_app in Hlast. injection Hlast as <- <-.
  assert (seg_endIndex o >= b) as Hend.
  { pose proof (seg_length _ _ _ Ho). specialize (Hbig b o). rewrite Hm, om_last_app in Hbig.
    specialize (Hbig eq_refl). destruct (seg_entries o); simpl in *; [specialize (Hbytes eq_refl)|]; lia. }
  pose proof (chain_le _ _ _ Hc) as Hab.
  apply wp_bind, wp_bind, wp_get. rewrite Hm, om_last_app. apply wp_ret, wp_bind, wp_get.
  apply wp_bind, post_same; [apply push_op_same|]. intros [] l1 Hm1 Hs1.
  apply wp_bind, post_same; [apply push_op_same|]. intros [] l2 Hm2 Hs2.
  apply wp_bind, post_same; [apply release_same|]. intros fd l3 Hm3 Hs3.
  apply wp_bind, post_same; [apply push_op_same|]. intros [] l4 Hm4 Hs4.
  apply wp_bind, post_same; [apply push_op_same|]. intros [] l5 Hm5 Hs5.
  apply wp_bind, post_same; [apply push_op_same|]. intros [] l6 Hm6 Hs6.
  apply wp_bind, wp_modify, wp_bind, wp_modify. cbn.
  assert (Forall (fun x => key_lt x.1 b) closed) as Hkeys by by eapply chain_keys.
  set (o1 := set_field false _). eapply wp_mono.
  - eapply (openNewSegment_spec _ (closed ++ [(b, o1)]) start a (seg_endIndex o + 1)).
    + cbn. rewrite Hm6, Hm5, Hm4, Hm3, Hm2, Hm1, Hm. by apply om_set_last.
    + cbn. congruence.
    + split; [|lia]. apply chain_app. exists b. split; [done|]. split; [|cbn; split_and!; [done|lia|done]].
      by destruct Ho.
    + by destruct closed.
  - done.
  - intros [] l7 (Hh & Hs7 & Hlast). rewrite Hs7 in Hh. split; [|split; [done|]].
    + rewrite Hes, Hm. rewrite records_of_app, records_of_cons in Hh |- *. exact Hh.
    + by replace n with (seg_endIndex o + 1 - 1) by lia.
Qed.

(** Where an entry is put: at the end of the open segment. *)
Lemma append_one start n es l b o e off bytes :
  appended start n es l -> om_last (segmentsByStartIndex l) = Some (b, o) ->
  Log.index e = Some (n + 1) -> n + 1 < u64_max ->
  appended start (n + 1) (es ++ [stored e]) (l <| segmentsByStartIndex :=
    om_set (segmentsByStartIndex l) b (((o <| seg_entries := seg_entries o ++ [mkSegRecord off e] |>)
      <| seg_bytes := bytes |>) <| seg_endIndex := u64 (seg_endIndex o + 1) |>) |>).
Proof.
  intros (Hh & Hs & b1 & o1 & Hlast & Hn) Ho He Hmax. rewrite Ho in Hlast. injection Hlast as <- <-.
  destruct Hh as (a & b' & closed & o' & [Hm Hc Hok Hopen Hbytes] & H1' & H2' & H3' & Hes).
  rewrite Hm, om_last_app in Ho. injection Ho as -> ->.
  pose proof (chain_le _ _ _ Hc) as Hab. pose proof (chain_records _ _ _ Hc) as [Hlen _].
  destruct Hok as [Hk Hst Hl Hi].
  unfold appended. cbn. rewrite Hm, om_set_last by by eapply chain_keys.
  rewrite u64_small by (unfold is_u64, u64_max in *; lia). split; [|split; [done|]].
  2: { eexists _, _. split; [apply om_last_app|]. cbn. lia. }
  exists a, b. eexists closed, _. split; [split; [done|done|split|done|]|].
  - done.
  - done.
  - cbn. rewrite length_app. simpl. lia.
  - cbn. apply indexed_app. split; [done|]. apply indexed_singleton. cbn. rewrite He. f_equal. lia.
  - cbn. by destruct (seg_entries o).
  - split; [done|]. cbn. split; [lia|]. split; [lia|]. rewrite Hes, Hm.
    rewrite !records_of_app, !records_of_cons. cbn. rewrite !app_nil_r, (app_assoc (records_of closed)).
    rewrite (drop_app_le (records_of closed ++ seg_entries o)) by (rewrite length_app; lia). by rewrite map_app.
Qed.

Lemma append_entries_spec start entries l n es :
  appended start n es l -> 0 <= n -> n + Z.of_nat (length entries) < u64_max ->
  post (append_entries opts algorithms (n + 1) entries) (fun _ l' =>
    appended start (n + Z.of_nat (length entries)) (es ++ map stored entries) l') l.
Proof.
  revert l n es. induction entries as [|e entries IH]; intros l n es Hl Hn Hmax.
  { apply wp_ret. rewrite app_nil_r. simpl. by rewrite Z.add_0_r. }
  cbn [append_entries length map] in *. apply wp_bind.
  assert (forall Q, Q tt l -> post (match Log.index e with Some i => assert_ (n + 1 =? i) | None => ret tt end) Q l) as Hidx.
  { intros Q HQ. destruct (Log.index e); [by apply wp_assert|by apply wp_ret]. }
  apply Hidx. apply wp_bind, wp_lift. destruct (serializeProto _ _ _) as [buf|]; [|done].
  pose proof Hl as (_ & _ & b & o & Ho & Hon).
  apply wp_bind, wp_bind, wp_get. rewrite Ho. apply wp_ret, wp_bind.
  assert (forall l1, appended start n es l1 ->
    post (let! (k, openSegment) := getOpenSegment in
      set_segment k (openSegment
        <| seg_entries := seg_entries openSegment ++ [mkSegRecord (seg_bytes openSegment) (e <| Log.index := Some (n + 1) |>)] |>
        <| seg_bytes := u64 (seg_bytes openSegment + Z.of_nat (length buf)) |>
        <| seg_endIndex := u64 (seg_endIndex openSegment + 1) |>) ;;;
      let! l := get in
      push_op (Op.WRITE (openSegmentFile l) buf) ;;;
      append_entries opts algorithms (u64 (n + 1 + 1)) entries)
    (fun _ l' => appended start (n + Z.of_nat (S (length entries))) (es ++ stored e :: map stored entries) l') l1) as Hput.
  { intros l1 Hl1. pose proof Hl1 as (_ & _ & b1 & o1 & Ho1 & Hon1).
    apply wp_bind, wp_bind, wp_get. rewrite Ho1. apply wp_ret, wp_bind, wp_modify, wp_bind, wp_get.
    apply wp_bind, post_same; [apply push_op_same|]. intros [] l2 Hm2 Hs2.
    rewrite u64_small by (unfold is_u64, u64_max in *; lia).
    replace (n + Z.of_nat (S (length entries))) with (n + 1 + Z.of_nat (length entries)) by lia.
    replace (es ++ stored e :: map stored entries) with ((es ++ [stored e]) ++ map stored entries)
      by by rewrite <-app_assoc.
    apply IH; [|lia|lia]. unfold appended. rewrite Hm2, Hs2.
    change (stored e) with (stored (e <| Log.index := Some (n + 1) |>)).
    apply (append_one start n es l1 b1 o1 (e <| Log.index := Some (n + 1) |>)); [done|done|done|lia]. }
  apply wp_when; intros Hbig; [|by apply Hput].
  eapply wp_mono; [apply (roll_over_spec l start n es Hl)|done|].
  - intros b1 o1 Ho1. rewrite Ho in Ho1. injection Ho1 as <- <-. lia.
  - intros [] l1 Hl1. by apply Hput.
Qed.

Lemma SL_append l es :
  SL_ok l -> es <> [] ->
  logStartIndex l + Z.of_nat (length (SL_entries l ++ es)) <= u64_max ->
  post (SegmentedLog_append opts algorithms es) (fun r l' =>
    becomes (logStartIndex l) (SL_entries l ++ map stored es) l' /\
    r = (logStartIndex l + Z.of_nat (length (SL_entries l)),
         logStartIndex l + Z.of_nat (length (SL_entries l ++ es)) - 1)) l.
Proof.
  intros Hok Hes Hmax. pose proof (SL_last l Hok) as Hlast. pose proof (SL_bounds l Hok) as Hbounds.
  rewrite length_app in *. set (start := logStartIndex l) in *.
  remember (start + Z.of_nat (length (SL_entries l)) - 1) as n eqn:Hn.
  assert (0 < Z.of_nat (length es)) by (destruct es; simpl; [done|lia]).
  pose proof (proj1 (SL_ok_holds l) Hok) as Hh.
  assert (exists b o, om_last (segmentsByStartIndex l) = Some (b, o) /\ seg_endIndex o = n) as (b & o & Ho & Hon).
  { destruct Hok as (a & b & closed & o & Hm & _). exists b, o.
    unfold SegmentedLog_getLastLogIndex in Hlast. rewrite (segs_split _ _ _ _ _ Hm), om_last_app in *. done. }
  apply wp_bind, wp_bind, wp_get. rewrite Ho. apply wp_ret. rewrite Hon.
  rewrite u64_small by (unfold is_u64, u64_max in *; lia). apply wp_bind.
  eapply wp_mono; [apply (append_entries_spec start es l n (SL_entries l))|done|];
    [split; [done|]; split; [done|by exists b, o]|lia|lia|].
  intros [] l1 (Hh1 & Hs1 & b1 & o1 & Ho1 & Hon1). apply wp_bind, wp_get.
  apply wp_bind, post_same; [apply push_op_same|]. intros [] l2 Hm2 Hs2.
  apply wp_bind, wp_modify, wp_bind. eapply wp_mono; [apply checkInvariants_same|done|].
  intros [] l3 ->. apply wp_bind, wp_get, wp_ret.
  unfold SegmentedLog_getLastLogIndex, om_last in *. cbn. rewrite Hm2, Ho1. split; [|rewrite ?length_app; f_equal; lia].
  apply holds_becomes; [|cbn; congruence]. cbn. by rewrite Hm2, Hs2, Hs1.
Qed.

(** ** The contract *)

Abbreviation seg_ops := (SegmentedLog_ops opts algorithms).

Lemma becomes_kept l l' :
  SL_ok l -> segmentsByStartIndex l' = segmentsByStartIndex l -> logStartIndex l' = logStartIndex l ->
  becomes (logStartIndex l) (SL_entries l) l'.
Proof. intros Hok%SL_ok_holds Hm Hs. apply holds_becomes; [|done]. by rewrite Hm, Hs. Qed.

(** The segmented log is a log. *)
Definition SegmentedLog_laws : @LogLaws SegmentedLog seg_ops.
Proof.
  refine (@Build_LogLaws _ seg_ops SL_ok logStartIndex SL_entries
    SL_bounds _ SL_last SL_getEntry _ _ _ _ _ _ _ _).
  - done.
  - intros l es Hl Hes Hmax. eapply wp_mono; [by apply SL_append|done|]. by intros r l' [(? & ? & ?) ->].
  - apply SL_truncatePrefix.
  - apply SL_truncateSuffix.
  - intros l Hl. eapply wp_mono; [apply updateMetadata_run|done|].
    intros [] l' (Hm & Hs & _). by apply becomes_kept.
  - intros l m Hl. by apply becomes_kept.
  - intros l Hl. apply wp_bind, wp_get, wp_bind, wp_put, wp_ret. by apply becomes_kept.
  - intros l s Hl. apply post_same; [apply on_disk_same|]. intros [] l' Hm Hs. by apply becomes_kept.
  - intros l s Hl. apply wp_ret. by apply becomes_kept.
Defined.
End Operations.

(** ** Metadata *)

Section MetadataLaws.
Context (opts : SegOptions) (algorithms : bytes -> option (bytes -> bytes)).
Context `{ProtoBuf LogEntry} `{ProtoBuf SegMetadata} `{ProtoBufText LogEntry} `{ProtoBufText SegMetadata}.

(** Only [updateMetadata] writes metadata to disk. *)
Definition metadata_kept (l l' : SegmentedLog) : Prop :=
  sl_metadata l' = sl_metadata l /\ log_metadata l' = log_metadata l.

#[local] Instance metadata_kept_preorder : PreOrder metadata_kept.
Proof. split; [by split|]. intros l1 l2 l3 [] []. split; congruence. Qed.

Ltac kept_step :=
  lazymatch goal with
  | |- keeps _ (bind _ _) => apply (keeps_bind metadata_kept); [|intros ?]
  | |- keeps _ (ret _) => apply (keeps_ret metadata_kept)
  | |- keeps _ (when _ _) => apply (keeps_when metadata_kept)
  | |- keeps _ (fail _) => intros ?; exact I
  | |- keeps _ get => intros ?; split; reflexivity
  | |- keeps _ (put _) => fail
  | |- keeps _ (modify _) => intros ?; split; reflexivity
  | |- keeps _ (assert_ _) => intros ?; apply wp_assert; [done|split; reflexivity]
  | |- keeps _ (lift ?o) => let a := fresh in intros ?; apply wp_lift; destruct o; [split; reflexivity|exact I]
  | |- keeps _ (on_disk _) => intros ?; apply wp_zoom; unfold wp; case_match; [|done]; case_match; split; reflexivity
  | |- keeps _ (on_prepared _) => intros ?; apply wp_zoom; unfold wp; case_match; [|done]; case_match; split; reflexivity
  | |- keeps _ (if ?b then _ else _) => destruct b
  | |- keeps _ (match ?x with _ => _ end) => destruct x
  | |- keeps _ (push_op _) => intros ?; split; reflexivity
  | |- keeps _ (set_segment _ _) => intros ?; split; reflexivity
  | |- keeps _ release_open_file => intros ?; split; reflexivity
  end.
Ltac kept := repeat kept_step; auto.

Lemma getOpenSegment_kept : keeps metadata_kept getOpenSegment.
Proof. unfold getOpenSegment. kept. Qed.

Lemma checkInvariants_kept : keeps metadata_kept (checkInvariants opts).
Proof. unfold checkInvariants. kept. Qed.

Lemma waitForOpenSegment_kept : keeps metadata_kept (waitForOpenSegment opts).
Proof. unfold waitForOpenSegment, segmentPreparer_step, prepareNewSegment. kept. Qed.
#[local] Hint Resolve getOpenSegment_kept checkInvariants_kept waitForOpenSegment_kept : core.

Lemma openNewSegment_kept : keeps metadata_kept (openNewSegment opts).
Proof. unfold openNewSegment. kept. Qed.

Lemma closeSegment_kept : keeps metadata_kept closeSegment.
Proof. unfold closeSegment. kept. Qed.

Lemma roll_over_kept : keeps metadata_kept (roll_over opts).
Proof. unfold roll_over. kept. apply openNewSegment_kept. Qed.
#[local] Hint Resolve openNewSegment_kept closeSegment_kept roll_over_kept : core.

Lemma append_entries_kept entries i : keeps metadata_kept (append_entries opts algorithms i entries).
Proof. revert i. induction entries; intros i; simpl; kept. Qed.

Lemma truncatePrefix_loop_kept m : keeps metadata_kept (truncatePrefix_loop m).
Proof. induction m as [|[k s] m IH]; simpl; kept. Qed.

Lemma truncateSuffix_loop_kept n m : keeps metadata_kept (truncateSuffix_loop n m).
Proof. induction m as [|[k s] m IH]; simpl; kept. Qed.
#[local] Hint Resolve append_entries_kept truncatePrefix_loop_kept truncateSuffix_loop_kept : core.

Abbreviation seg_ops := (SegmentedLog_ops opts algorithms).

Lemma kept_same {A} (m : M SegmentedLog A) l :
  keeps metadata_kept m -> post m (fun _ => @same_metadata _ seg_ops l) l.
Proof.
  intros Hm. eapply wp_mono; [apply Hm|done|]. intros a l' [Hs Hl]. split; [exact Hl|left]. cbn. by rewrite Hs.
Qed.

Lemma SegmentedLog_metadata_laws : @LogMetadataLaws SegmentedLog seg_ops.
Proof.
  constructor.
  - intros l es. apply kept_same. cbn. unfold SegmentedLog_append. kept.
  - intros l i. apply wp_bind, wp_get. destruct (i <=? logStartIndex l); [by apply wp_ret|].
    apply wp_bind, wp_modify, wp_bind. eapply wp_mono; [apply updateMetadata_run|done|].
    cbn. intros [] l1 (_ & _ & Hl1 & _ & Hs1).
    assert (@same_metadata _ seg_ops l l1) as Hsame by (split; [exact Hl1|right; exact Hs1]).
    eapply wp_mono; [apply kept_same|done|intros [] l2 H12; etransitivity; [exact Hsame|exact H12]].
    kept.
  - intros l i. apply kept_same. cbn. unfold SegmentedLog_truncateSuffix. kept.
  - intros l. apply wp_bind, wp_get, wp_bind, wp_put, wp_ret. split; [done|by left].
  - intros l s. apply kept_same. cbn. kept.
  - intros l s. apply kept_same. cbn. kept.
  - intros l. eapply wp_mono; [apply updateMetadata_run|done|]. intros [] l' (_ & _ & Hl & _ & Hs). by split.
  - done.
Qed.

Lemma same_log_view l l' : same_log l l' -> @same_view _ seg_ops l l'.
Proof.
  intros [Hs Hi]. unfold same_view. cbn. unfold SegmentedLog_getEntry, SegmentedLog_getLastLogIndex.
  rewrite Hs, Hi. done.
Qed.

Lemma SegmentedLog_view_laws : @LogViewLaws SegmentedLog seg_ops.
Proof.
  constructor.
  - intros l. apply wp_bind, wp_get, wp_bind, wp_put, wp_ret. by apply same_log_view.
  - intros y l. eapply wp_mono; [apply on_disk_same|done|]. intros ? l' Hl. by apply same_log_view.
  - intros y l. apply wp_ret. reflexivity.
  - intros l. eapply wp_mono; [apply updateMetadata_run|done|]. intros ? l' (Hm & Hs & _). by apply same_log_view.
  - intros m l. by apply same_log_view.
Qed.
End MetadataLaws.
