(* ===== verification/SegmentedLogFormat.v ===== *)
(** * What the segmented log writes is what it reads

    Round trips of the three things [Storage/SegmentedLog.cc] encodes: the
    records of a file, the files of a segment and the names of the files. A
    file that was allocated but not written to its end reads as the records
    written. *)

From Stdlib Require Import ZArith Lia Ascii String.
From stdpp Require Import base gmap strings list fin_maps.
From S2P Require Import Prelude OrderedMap StringUtil Stream Endian SnapshotFile Log Disk Checksum Printf SegmentedLog.
Local Open Scope Z_scope.
Local Open Scope list_scope.

(** ** Records *)

Lemma Ok_inj {A} (x y : A) : Ok x = Ok y -> x = y.
Proof. by intros [=]. Qed.


(** The documented behaviour of [TextFormat]. *)
Class ProtoBufTextLaws (T : Type) `{ProtoBufText T} :=
  pb_fromString_dump : forall m : T, pb_fromString (pb_dump m) = m.

Section Records.
Context (opts : SegOptions) (algorithms : bytes -> option (bytes -> bytes)) `{AlgorithmLaws algorithms}.

(** The data of a record. *)
Definition encode_data {T} `{ProtoBuf T} `{ProtoBufText T} (m : T) : bytes :=
  match encoding opts with BINARY => pb_serialize m | TEXT => pb_dump m end.

(** [Core::ProtoBuf::parse] cannot take longer messages. *)
Definition encodable {T} `{ProtoBuf T} `{ProtoBufText T} (m : T) : Prop :=
  Z.of_nat (length (encode_data m)) < 2147483648.

(** What follows the NUL in the buffer does not matter. *)
Lemma verify_prefix name data c rest :
  calculate algorithms name data = Ok c -> verify algorithms (c ++ rest) data = Ok None.
Proof.
  intros Hc. rewrite <-(verify_calculated algorithms name data c Hc). unfold verify.
  destruct (algorithms name) as [f|] eqn:Hf; [|unfold calculate in Hc; by rewrite Hf in Hc].
  rewrite (calculate_text algorithms _ f) in Hc by done. injection Hc as <-. rewrite <-app_assoc. cbn [app].
  by rewrite !c_string_app by by apply (checksum_text_printable algorithms).
Qed.

Section OneMessage.
Context {T : Type} `{ProtoBuf T} `{ProtoBufText T} `{!ProtoBufLaws T} `{!ProtoBufTextLaws T}.

Lemma decode_encoded (m : T) : encodable m ->
  decode_data opts (Z.of_nat (length (encode_data m))) (encode_data m) = Ok (inr m).
Proof.
  unfold encodable, decode_data, encode_data. intros Hm. destruct (encoding opts).
  - rewrite (proj2 (Z.ltb_lt _ _)) by lia. by rewrite pb_fromString_dump.
  - rewrite (proj2 (Z.ltb_lt _ _)) by lia. by rewrite pb_parse_serialize.
Qed.

Lemma serializeProto_ok (m : T) :
  is_Some (algorithms (checksumAlgorithm opts)) -> exists r, serializeProto opts algorithms m = Ok r.
Proof.
  intros [f Hf]. unfold serializeProto. rewrite (calculate_text algorithms _ f) by done. by eexists.
Qed.

(** The checksum, the length field and the data. *)
Lemma serializeProto_inv (m : T) r :
  serializeProto opts algorithms m = Ok r ->
  exists c, let covered := be64 (Z.of_nat (length (encode_data m))) ++ encode_data m in
    calculate algorithms (checksumAlgorithm opts) covered = Ok c /\ r = c ++ covered.
Proof.
  unfold serializeProto. fold (encode_data m). destruct (calculate _ _ _) as [c|] eqn:Hc; [|done].
  intros <-%Ok_inj. by exists c.
Qed.

Lemma serializeProto_length (m : T) r :
  serializeProto opts algorithms m = Ok r -> encodable m -> Z.of_nat (length r) < 2147484000.
Proof.
  intros (c & Hc & ->)%serializeProto_inv Hm. destruct (calculate_length _ _ _ _ [] Hc) as [_ Hl].
  unfold encodable, MAX_LENGTH in *. rewrite !length_app. simpl. lia.
Qed.

Lemma copyPartial_app pre b n :
  copyPartial (pre ++ b) (Z.of_nat (length pre)) n = take n b.
Proof.
  unfold copyPartial. rewrite Nat2Z.id, drop_app_length. case_bool_decide as Hlen; [|done].
  rewrite length_app in Hlen. destruct b; [by destruct n|simpl in *; lia].
Qed.

Lemma FileContents_get_app pre b rest :
  Z.of_nat (length (pre ++ b ++ rest)) < 18446744073709551616 ->
  FileContents_get (pre ++ b ++ rest) (Z.of_nat (length pre)) (Z.of_nat (length b)) = Ok b.
Proof.
  intros Hlen. unfold FileContents_get. rewrite !length_app in *.
  rewrite u64_small by (unfold is_u64; lia). rewrite (proj2 (Z.ltb_ge _ _)) by lia. rewrite andb_false_r.
  by rewrite !Nat2Z.id, drop_app_length, take_app_length.
Qed.

(** A record is read back wherever it is in a file. *)
Lemma readProto_record (m : T) pre r rest :
  serializeProto opts algorithms m = Ok r -> encodable m ->
  Z.of_nat (length (pre ++ r ++ rest)) < 9223372036854775808 ->
  readProtoFromFile opts algorithms (pre ++ r ++ rest) (Z.of_nat (length pre)) =
    Ok (inr (m, Z.of_nat (length pre) + Z.of_nat (length r))).
Proof.
  intros (c & Hc & ->)%serializeProto_inv Hm Hlen. set (data := encode_data m) in *.
  set (n := Z.of_nat (length data)) in *. set (covered := be64 n ++ data) in *.
  destruct (calculate_length _ _ _ _ (covered ++ rest) Hc) as [Hcl Hcb].
  assert (length covered = (8 + length data)%nat) as Hcov by done.
  assert (Z.of_nat (length pre) + Z.of_nat (length c) + 8 + n + Z.of_nat (length rest) =
          Z.of_nat (length (pre ++ (c ++ covered) ++ rest))) as Hfile.
  { rewrite !length_app, Hcov. lia. }
  assert (0 <= n < 2147483648) as Hn by (unfold encodable in Hm; fold data n in Hm; lia).
  unfold readProtoFromFile. rewrite copyPartial_app.
  assert (checksum_length (take MAX_LENGTH ((c ++ covered) ++ rest)) = length c) as ->.
  { rewrite <-app_assoc, take_app_ge by lia. by eapply calculate_length. }
  rewrite (proj2 (Nat.eqb_neq _ _)) by lia.
  assert (forall n, copyPartial (pre ++ (c ++ covered) ++ rest) (Z.of_nat (length pre) + Z.of_nat (length c)) n =
                    take n (covered ++ rest)) as Hcopy.
  { intros k. rewrite <-Nat2Z.inj_add, <-length_app, <-(app_assoc c), (app_assoc pre). apply copyPartial_app. }
  rewrite Hcopy. assert (take 8 (covered ++ rest) = be64 n) as -> by done.
  change (length (be64 n)) with 8%nat. rewrite bool_decide_false by lia.
  rewrite of_be32_be64 by (unfold is_u64; lia). rewrite u64_small by (unfold is_u64; lia).
  rewrite (proj2 (Z.ltb_ge _ _)) by lia. rewrite u64_small by (unfold is_u64; lia).
  replace (Z.of_nat (length pre) + Z.of_nat (length c)) with (Z.of_nat (length (pre ++ c)))
    by (rewrite length_app; lia).
  assert (forall p b q k, pre ++ (c ++ covered) ++ rest = p ++ b ++ q -> k = Z.of_nat (length b) ->
    FileContents_get (pre ++ (c ++ covered) ++ rest) (Z.of_nat (length p)) k = Ok b) as Hget.
  { intros p b q k Heq ->. rewrite Heq. apply FileContents_get_app. rewrite <-Heq. lia. }
  rewrite (Hget (pre ++ c) covered rest) by first [unfold n; lia | by rewrite <-!app_assoc].
  set (reader := pre ++ _ ++ rest) in *. rewrite <-app_assoc, take_app_ge by lia. rewrite (verify_prefix _ _ _ _ Hc).
  replace (Z.of_nat (length (pre ++ c)) + 8) with (Z.of_nat (length (pre ++ c ++ be64 n)))
    by (rewrite !length_app; simpl; lia).
  rewrite (Hget (pre ++ c ++ be64 n) data rest) by first [done | unfold reader, covered; by rewrite <-!app_assoc].
  pose proof (decode_encoded m Hm) as Hdec. fold data n in Hdec. rewrite Hdec. do 3 f_equal. rewrite !length_app, Hcov. simpl. lia.
Qed.

(** C36: every message of less than 2 GB can be written as a record with a known
    checksum algorithm, and wherever the record is in a file, whatever is before
    and after it, it is read back and the reader stops at its end. *)
Theorem record_roundtrip (m : T) :
  is_Some (algorithms (checksumAlgorithm opts)) -> encodable m ->
  exists r, serializeProto opts algorithms m = Ok r /\ forall pre rest,
    Z.of_nat (length (pre ++ r ++ rest)) < 9223372036854775808 ->
    readProtoFromFile opts algorithms (pre ++ r ++ rest) (Z.of_nat (length pre)) =
      Ok (inr (m, Z.of_nat (length (pre ++ r)))).
Proof.
  intros Hknown Hm. destruct (serializeProto_ok m Hknown) as [r Hr]. exists r. split; [done|]. intros pre rest Hlen.
  rewrite (readProto_record m pre r rest Hr Hm Hlen), length_app. do 3 f_equal. lia.
Qed.
End OneMessage.
(** ** Segment files *)

Section Files.
Context `{ProtoBuf LogEntry} `{ProtoBufText LogEntry} `{!ProtoBufLaws LogEntry} `{!ProtoBufTextLaws LogEntry}.
Hypothesis algorithm_known : is_Some (algorithms (checksumAlgorithm opts)).

Definition record_bytes (e : LogEntry) : bytes :=
  match serializeProto opts algorithms e with Ok r => r | Fail _ => [] end.

Definition image (es : list LogEntry) : bytes := concat (map record_bytes es).

(** The records of [es] in a file, the first at offset [off]. *)
Fixpoint placed (off : Z) (es : list LogEntry) : list SegRecord :=
  match es with
  | [] => []
  | e :: es' => mkSegRecord off e :: placed (off + Z.of_nat (length (record_bytes e))) es'
  end.

Lemma record_bytes_ok e : serializeProto opts algorithms e = Ok (record_bytes e).
Proof. unfold record_bytes. by destruct (serializeProto_ok e algorithm_known) as [r ->]. Qed.

Lemma record_bytes_long e : (10 <= length (record_bytes e))%nat.
Proof.
  destruct (serializeProto_inv e _ (record_bytes_ok e)) as (c & Hc & ->).
  destruct (calculate_length _ _ _ _ [] Hc) as [_ Hl]. rewrite !length_app. simpl. lia.
Qed.

Lemma image_app es es' : image (es ++ es') = image es ++ image es'.
Proof. unfold image. by rewrite map_app, concat_app. Qed.

Lemma image_long es : (length es <= length (image es))%nat.
Proof.
  induction es as [|e es IH]; [done|]. change (image (e :: es)) with (record_bytes e ++ image es).
  rewrite length_app. pose proof (record_bytes_long e). simpl. lia.
Qed.

Lemma placed_entries off es : map record_entry (placed off es) = es.
Proof. revert off. induction es as [|e es IH]; intros off; simpl; [done|]. by rewrite IH. Qed.

Lemma placed_length off es : length (placed off es) = length es.
Proof. by rewrite <-(placed_entries off es) at 2; rewrite length_map. Qed.

Lemma placed_app off es es' :
  placed off (es ++ es') = placed off es ++ placed (off + Z.of_nat (length (image es))) es'.
Proof.
  revert off. induction es as [|e es IH]; intros off; simpl; [f_equal; lia|]. rewrite IH.
  change (image (e :: es)) with (record_bytes e ++ image es). rewrite length_app. do 3 f_equal. lia.
Qed.

Definition max_file : Z := 9223372036854775808.

(** Where the file goes on with zeros, or ends, there is no record. *)
Lemma readProto_zeros {T} `{ProtoBuf T} `{ProtoBufText T} pre n :
  (0 < n)%nat -> Z.of_nat (length (pre ++ zeros n)) < max_file ->
  exists e, readProtoFromFile (T:=T) opts algorithms (pre ++ zeros n) (Z.of_nat (length pre)) = Ok (inl e).
Proof.
  intros Hn Hlen. unfold max_file in Hlen. rewrite length_app in Hlen. unfold zeros in *.
  rewrite length_replicate in Hlen. unfold readProtoFromFile.
  rewrite copyPartial_app. rewrite take_replicate.
  assert (exists k, Nat.min MAX_LENGTH n = S k) as [k Hk] by (exists (Nat.min MAX_LENGTH n - 1)%nat; unfold MAX_LENGTH; lia).
  rewrite Hk. change (checksum_length (replicate (S k) Ascii.zero)) with 1%nat. cbn [Nat.eqb].
  assert (forall k, copyPartial (pre ++ replicate n Ascii.zero) (Z.of_nat (length pre) + Z.of_nat 1) k =
                    take k (replicate (n - 1) Ascii.zero)) as Hcopy.
  { intros j. replace n with (1 + (n - 1))%nat at 1 by lia. rewrite replicate_add, app_assoc.
    rewrite <-Nat2Z.inj_add. replace (length pre + 1)%nat with (length (pre ++ replicate 1 Ascii.zero))
      by (rewrite length_app; done). apply copyPartial_app. }
  rewrite Hcopy, take_replicate, length_replicate. case_bool_decide as H8; [by eexists|].
  assert (Nat.min 8 (n - 1) = 8%nat) as -> by lia.
  change (of_be32 (replicate 8 Ascii.zero)) with 0. rewrite u64_small by (unfold is_u64; lia).
  rewrite length_app, length_replicate. rewrite (proj2 (Z.ltb_ge _ _)) by lia.
  rewrite u64_small by (unfold is_u64; lia). unfold FileContents_get.
  rewrite length_app, length_replicate. rewrite u64_small by (unfold is_u64; lia).
  rewrite (proj2 (Z.ltb_ge _ _)) by lia. cbn [andb negb Z.eqb].
  change (replicate (S k) Ascii.zero) with (Ascii.zero :: replicate k Ascii.zero).
  unfold verify. cbn. by eexists.
Qed.

(** One record of an image, and what follows. *)
Lemma readProto_image pre e es rest :
  encodable e -> Z.of_nat (length (pre ++ image (e :: es) ++ rest)) < max_file ->
  readProtoFromFile opts algorithms (pre ++ image (e :: es) ++ rest) (Z.of_nat (length pre)) =
    Ok (inr (e, Z.of_nat (length (pre ++ record_bytes e)))).
Proof.
  change (image (e :: es)) with (record_bytes e ++ image es). rewrite <-app_assoc. intros He Hlen.
  rewrite length_app, Nat2Z.inj_add. by apply readProto_record; [apply record_bytes_ok|..].
Qed.

(** [loadOpenSegment] finds every record, and the end of them. *)
Lemma load_open_image fuel pre es n :
  Forall encodable es -> Z.of_nat (length (pre ++ image es ++ zeros n)) < max_file ->
  (length es + (if n is O then 0 else 1) <= fuel)%nat ->
  load_open opts algorithms fuel (pre ++ image es ++ zeros n) (Z.of_nat (length pre)) =
    Ok (placed (Z.of_nat (length pre)) es, Z.of_nat (length (pre ++ image es)), negb (n =? 0)%nat).
Proof.
  intros Hes. revert fuel pre. induction Hes as [|e es He _ IH]; intros fuel pre Hlen Hfuel.
  - change (image []) with (@nil ascii) in *. rewrite app_nil_l, app_nil_r in *. destruct n as [|n].
    + change (zeros 0) with (@nil ascii) in *. rewrite app_nil_r in *. destruct fuel; simpl;
        by rewrite (proj2 (Z.leb_le _ _)) by lia.
    + destruct fuel as [|fuel]; [simpl in Hfuel; lia|]. cbn [load_open].
      rewrite (proj2 (Z.leb_gt _ _)) by (rewrite length_app; unfold zeros; rewrite length_replicate; lia).
      destruct (readProto_zeros (T:=LogEntry) pre (S n) ltac:(lia) Hlen) as [err ->]. done.
  - destruct fuel as [|fuel]; [simpl in Hfuel; lia|]. cbn [load_open].
    pose proof (record_bytes_long e) as Hlong. change (image (e :: es)) with (record_bytes e ++ image es) in *.
    rewrite (proj2 (Z.leb_gt _ _)) by (rewrite !length_app; lia).
    change (record_bytes e ++ image es) with (image (e :: es)) in *. rewrite readProto_image by done.
    change (image (e :: es)) with (record_bytes e ++ image es) in *.
    rewrite <-app_assoc, (app_assoc pre). rewrite <-app_assoc, (app_assoc pre) in Hlen.
    rewrite IH; [|done|simpl in Hfuel; lia]. rewrite <-app_assoc. cbn [placed]. rewrite length_app, Nat2Z.inj_add. done.
Qed.

(** [loadClosedSegment] reads as many records as the name says. *)
Lemma load_closed_image fuel pre es rest (a : Z) :
  Forall encodable es -> Z.of_nat (length (pre ++ image es ++ rest)) < max_file ->
  0 <= a -> a + Z.of_nat (length es) < u64_max -> (length es <= fuel)%nat ->
  load_closed opts algorithms fuel (pre ++ image es ++ rest) a (a + Z.of_nat (length es) - 1) (Z.of_nat (length pre)) =
    Ok (placed (Z.of_nat (length pre)) es, Z.of_nat (length (pre ++ image es))).
Proof.
  intros Hes. revert fuel pre a. induction Hes as [|e es He _ IH]; intros fuel pre a Hlen Ha Hmax Hfuel.
  - destruct fuel; simpl; rewrite (proj2 (Z.ltb_lt _ _)) by lia; by rewrite app_nil_r.
  - destruct fuel as [|fuel]; [simpl in Hfuel; lia|]. cbn [load_closed length] in *.
    rewrite (proj2 (Z.ltb_ge _ _)) by lia.
    pose proof (record_bytes_long e) as Hlong. change (image (e :: es)) with (record_bytes e ++ image es) in *.
    rewrite (proj2 (Z.leb_gt _ _)) by (rewrite !length_app; lia).
    change (record_bytes e ++ image es) with (image (e :: es)) in *. rewrite readProto_image by done.
    change (image (e :: es)) with (record_bytes e ++ image es) in *.
    rewrite u64_small by (unfold is_u64, u64_max in *; lia).
    rewrite <-app_assoc, (app_assoc pre). rewrite <-app_assoc, (app_assoc pre) in Hlen.
    replace (a + Z.of_nat (S (length es)) - 1) with (a + 1 + Z.of_nat (length es) - 1) by lia.
    rewrite IH; [|done|lia|lia|lia]. rewrite <-app_assoc. cbn [placed]. rewrite length_app, Nat2Z.inj_add. done.
Qed.
End Files.
End Records.

(** ** File names *)

Lemma scan_closed_filename a b : is_u64 a -> is_u64 b -> scan_closed (closed_filename a b) = Some (a, b).
Proof.
  intros Ha Hb. unfold scan_closed, closed_filename. rewrite scan_print_020lu by done.
  rewrite <-(string_app_nil_r (print_020lu b)). change ("-" +:+ ?s) with (String "-" s).
  cbn beta iota. rewrite scan_print_020lu by done. done.
Qed.

Lemma scan_open_filename id : is_u64 id -> scan_open (open_filename id) = Some id.
Proof.
  intros Hid. unfold scan_open, open_filename. change ("open-" +:+ ?s) with
    (String "o" (String "p" (String "e" (String "n" (String "-" s))))).
  cbv beta iota. by rewrite scan_print_lu.
Qed.

Lemma scan_closed_open id : scan_closed (open_filename id) = None.
Proof. done. Qed.

Lemma closed_filename_inj a b a' b' :
  is_u64 a -> is_u64 b -> is_u64 a' -> is_u64 b' ->
  closed_filename a b = closed_filename a' b' -> a = a' /\ b = b'.
Proof.
  intros Ha Hb Ha' Hb' Heq. pose proof (scan_closed_filename a b Ha Hb) as Hs.
  rewrite Heq, scan_closed_filename in Hs by done. by injection Hs as <- <-.
Qed.

Lemma open_filename_inj i j : is_u64 i -> is_u64 j -> open_filename i = open_filename j -> i = j.
Proof.
  intros Hi Hj Heq. pose proof (scan_open_filename i Hi) as Hs. rewrite Heq, scan_open_filename in Hs by done.
  by injection Hs as <-.
Qed.

(** A closed segment's name starts with a digit. *)
Lemma closed_filename_head a b : exists d s, closed_filename a b = String (digit d) s /\ 0 <= d < 10.
Proof.
  unfold closed_filename, print_020lu. apply digits_head.
Qed.

Lemma digit_not (d : Z) (c : ascii) : digit_value c = None -> 0 <= d < 10 -> digit d <> c.
Proof. intros Hc Hd Heq. rewrite <-Heq, digit_value_digit in Hc by done. done. Qed.

Lemma closed_not_open a b id : closed_filename a b <> open_filename id.
Proof.
  destruct (closed_filename_head a b) as (d & s & -> & Hd). intros [=Heq _]. revert Heq. by apply digit_not.
Qed.

Lemma closed_not_metadata a b : closed_filename a b <> "metadata1"%string /\ closed_filename a b <> "metadata2"%string.
Proof.
  destruct (closed_filename_head a b) as (d & s & -> & Hd).
  split; intros [=Heq _]; revert Heq; by apply digit_not.
Qed.

Lemma closed_relative a b : startsWith (closed_filename a b) "/" = false.
Proof.
  destruct (closed_filename_head a b) as (d & s & -> & Hd). apply not_true_iff_false.
  intros (s' & [=Heq _])%startsWith_char. revert Heq. by apply digit_not.
Qed.

Lemma open_relative id : startsWith (open_filename id) "/" = false.
Proof. by unfold open_filename, startsWith; simpl. Qed.
