(* ===== verification/SegmentedLogSync.v ===== *)
(** * The queue of file operations

    [SegmentedLog::Sync] of [Storage/SegmentedLog.cc]: the operations that
    appended entries and removed segments still have to do on disk. Leaving out
    the redundant flushes changes nothing; and a file that is created or
    replaced meanwhile, which the queue does not touch, may as well have been
    there before. *)

From Stdlib Require Import ZArith Lia Ascii String.
From stdpp Require Import base functions gmap strings list fin_maps.
From S2P Require Import Prelude OrderedMap StringUtil Stream SnapshotFile Log Disk DiskSpec Checksum Printf SegmentedLog.
Local Open Scope Z_scope.
Local Open Scope list_scope.

Definition exec (ops : list Op.t) : M Disk unit := forM ops exec_op.

Lemma exec_cons op ops d : exec (op :: ops) d = bind (exec_op op) (fun _ => exec ops) d.
Proof. done. Qed.

Lemma exec_app ops ops' d : exec (ops ++ ops') d = bind (exec ops) (fun _ => exec ops') d.
Proof.
  revert d. induction ops as [|op ops IH]; intros d; [done|]. cbn [app]. rewrite exec_cons.
  unfold bind in *. rewrite exec_cons. unfold bind. destruct (exec_op op d) as [[[] d1]|]; [|done]. apply IH.
Qed.

Lemma exec_snoc ops op d d' d'' :
  exec ops d = Ok (tt, d') -> exec_op op d' = Ok (tt, d'') -> exec (ops ++ [op]) d = Ok (tt, d'').
Proof. intros H1 H2. rewrite exec_app. unfold bind. rewrite H1, exec_cons. unfold bind. by rewrite H2. Qed.

(** ** [optimize] *)

(** A flush before a write of the same file does nothing that the write does
    not need as well. *)
Lemma fdatasync_write fd data ops d :
  exec (Op.FDATASYNC fd :: Op.WRITE fd data :: ops) d = exec (Op.NOOP fd :: Op.WRITE fd data :: ops) d.
Proof.
  rewrite !exec_cons. cbn [exec_op]. unfold fsync, bind, get, ret.
  destruct ((fd =? dir_fd) || bool_decide (is_Some (fds d !! fd))) eqn:Hopen; [done|].
  apply orb_false_iff in Hopen as [_ Hopen%bool_decide_eq_false]. unfold fail.
  rewrite exec_cons. unfold bind. cbn [exec_op]. unfold write, the_file, bind, get.
  destruct (fds d !! fd) eqn:Hfd; [by destruct Hopen|done].
Qed.

(** Waiting runs the operations with the redundant flushes left out. *)
Lemma exec_optimize ops d : exec (optimize ops) d = exec ops d.
Proof.
  revert d. induction ops as [|prev ops IH]; intros d; [done|].
  assert (forall d, exec (prev :: optimize ops) d = exec (prev :: ops) d) as Hprev.
  { intros d1. rewrite !exec_cons. unfold bind. destruct (exec_op prev d1) as [[[] d2]|]; [apply IH|done]. }
  destruct ops as [|it [|next rest]]; [done|apply Hprev|].
  change (optimize (prev :: it :: next :: rest)) with
    (match prev, it, next with
     | Op.FDATASYNC fd1, Op.WRITE fd2 _, Op.FDATASYNC fd3 =>
         (if (fd1 =? fd2) && (fd2 =? fd3) then Op.NOOP fd1 else prev) :: optimize (it :: next :: rest)
     | _, _, _ => prev :: optimize (it :: next :: rest)
     end).
  destruct prev; try apply Hprev. destruct it; try apply Hprev. destruct next; try apply Hprev.
  destruct (_ && _) eqn:Heq; [|apply Hprev]. apply andb_true_iff in Heq as [->%Z.eqb_eq ->%Z.eqb_eq].
  rewrite fdatasync_write, !exec_cons. unfold bind. cbn [exec_op]. unfold ret. apply IH.
Qed.

(** ** What reaches the disk *)

Definition flush_of (fd : Z) (op : Op.t) : bool :=
  match op with Op.FDATASYNC fd' | Op.FSYNC fd' => fd' =? fd | _ => false end.

(** The writes that a flush of the same file follows, in order. *)
Fixpoint durable_writes (l : list Op.t) : list (Z * bytes) :=
  match l with
  | [] => []
  | Op.WRITE fd data :: rest =>
      if existsb (flush_of fd) rest then (fd, data) :: durable_writes rest else durable_writes rest
  | _ :: rest => durable_writes rest
  end.

(** One step of [optimize]: the first operation is kept, or is a flush that a
    later one makes redundant. *)
Lemma optimize_cons op l :
  optimize (op :: l) = op :: optimize l \/
  exists fd data rest, op = Op.FDATASYNC fd /\ l = Op.WRITE fd data :: Op.FDATASYNC fd :: rest /\
    optimize (op :: l) = Op.NOOP fd :: optimize l.
Proof.
  destruct l as [|it [|next rest]]; [by left|by left|].
  destruct op; try by left. destruct it; try by left. destruct next; try by left.
  cbn [optimize]. destruct (_ && _) eqn:Heq; [|by left].
  apply andb_true_iff in Heq as [->%Z.eqb_eq ->%Z.eqb_eq]. right. by eexists _, _, rest.
Qed.

Lemma optimize_flushes fd l : existsb (flush_of fd) (optimize l) = existsb (flush_of fd) l.
Proof.
  induction l as [|op l IH]; [done|]. destruct (optimize_cons op l) as [->|(fd' & data & rest & -> & Hl & ->)].
  - cbn [existsb]. by rewrite IH.
  - cbn [existsb]. rewrite IH, Hl. cbn [existsb flush_of orb]. by destruct (fd' =? fd).
Qed.

(** C35: [Sync::wait] runs the queue with the redundant flushes left out, and that
    makes no difference: it has the effect of every operation run in order, and
    the same writes are flushed before it returns. *)
Theorem Sync_wait_runs_all s d :
  Sync_wait s d = forM (ops s) exec_op d /\ durable_writes (optimize (ops s)) = durable_writes (ops s).
Proof.
  split; [apply exec_optimize|]. induction (ops s) as [|op l IH]; [done|].
  destruct (optimize_cons op l) as [->|(fd & data & rest & -> & Hl & ->)]; [|done].
  destruct op; cbn [durable_writes]; rewrite ?IH, ?optimize_flushes; done.
Qed.

(** ** Other files meanwhile *)

(** The disk with the names, inodes and descriptors of others added. *)
Record others : Type := mkOthers {
  o_names : gmap string Z;
  o_inodes : gmap Z bytes;
  o_fds : gmap Z (Z * Z);
  o_next : Z
}.

Definition overlay (o : others) (d : Disk) : Disk :=
  mkDisk (o_names o ∪ names d) (o_inodes o ∪ inodes d) (o_fds o ∪ fds d) (next_id d + o_next o).

Definition op_names (op : Op.t) : list string :=
  match op with
  | Op.RENAME _ a b => [a; b]
  | Op.UNLINKAT _ a => [a]
  | _ => []
  end.

Definition avoids (o : others) (ops : list Op.t) : Prop :=
  Forall (fun op => Forall (fun n => o_names o !! n = None) (op_names op)) ops.

(** No open descriptor is one of [o], or open on an inode of [o]. *)
Definition apart (o : others) (d : Disk) : Prop :=
  forall f i p, fds d !! f = Some (i, p) -> o_fds o !! f = None /\ o_inodes o !! i = None.

Lemma the_file_overlay o fd d x :
  apart o d -> the_file fd d = Ok (x, d) -> the_file fd (overlay o d) = Ok (x, overlay o d).
Proof.
  intros Ha. unfold the_file, bind, get, ret. destruct (fds d !! fd) as [[i p]|] eqn:Hf; [|done].
  destruct (Ha _ _ _ Hf) as [Hof Hoi]. intros [= <-]. cbn [fds inodes overlay].
  rewrite lookup_union_r by done. rewrite Hf. cbv beta iota. by rewrite lookup_union_r by done.
Qed.

Lemma the_file_state fd d x d' : the_file fd d = Ok (x, d') ->
  d' = d /\ exists i c p, x = (i, c, p) /\ fds d !! fd = Some (i, p).
Proof.
  unfold the_file, bind, get, ret. destruct (fds d !! fd) as [[i p]|]; [|done]. intros [= <- <-].
  split; [done|]. eexists i, _, p. done.
Qed.

Lemma fsync_overlay o fd d d' :
  apart o d -> fsync fd d = Ok (tt, d') -> fsync fd (overlay o d) = Ok (tt, overlay o d') /\ apart o d'.
Proof.
  intros Ha Hop. unfold fsync, bind, get, ret, fail in *. cbn.
  destruct ((fd =? dir_fd) || _) eqn:Hopen; [|done]. injection Hop as <-.
  split; [|exact Ha]. replace (_ || _) with true; [done|]. symmetry. apply orb_true_iff in Hopen as [->|Hopen]; [done|].
  apply bool_decide_eq_true in Hopen as [[i p] Hfd]. destruct (Ha _ _ _ Hfd) as [Hof _].
  rewrite bool_decide_true; [apply orb_true_r|]. rewrite lookup_union_r by done. by eexists.
Qed.

(** An operation whose names and descriptors are not of [o] runs as without. *)
Lemma exec_op_overlay o op d d' :
  Forall (fun n => o_names o !! n = None) (op_names op) -> apart o d ->
  exec_op op d = Ok (tt, d') -> exec_op op (overlay o d) = Ok (tt, overlay o d') /\ apart o d'.
Proof.
  intros Hn Ha Hop. destruct op; cbn [exec_op op_names] in *.
  - apply bind_Ok in Hop as ([[i c] p] & d1 & Hf & Hop). destruct (the_file_state _ _ _ _ Hf) as (-> & i' & c' & p' & [= <- <- <-] & Hfd).
    destruct (Ha _ _ _ Hfd) as [Hof Hoi]. injection Hop as <-. unfold write, bind. rewrite (the_file_overlay _ _ _ _ Ha Hf).
    unfold modify, set_field. cbn. split.
    + do 2 f_equal. unfold overlay. cbn. by rewrite !insert_union_r by done.
    + intros f j q. cbn. destruct (decide (f = fd)) as [->|]; [rewrite lookup_insert_eq; intros [= <- <-]; done|].
      rewrite lookup_insert_ne by done. apply Ha.
  - apply bind_Ok in Hop as (sz & d0 & Hsz & Hop). unfold lift in Hsz. destruct (downCast_off_t size) as [sz'|] eqn:Hcast; [|done].
    injection Hsz as <- <-.
    apply bind_Ok in Hop as ([[i c] p] & d1 & Hf & Hop). destruct (the_file_state _ _ _ _ Hf) as (-> & i' & c' & p' & [= <- <- <-] & Hfd).
    destruct (Ha _ _ _ Hfd) as [Hof Hoi]. injection Hop as <-. unfold truncate, bind, lift. rewrite Hcast, (the_file_overlay _ _ _ _ Ha Hf).
    unfold modify, set_field. cbn. split; [|exact Ha]. do 2 f_equal. unfold overlay. cbn. by rewrite !insert_union_r by done.
  - inversion Hn as [|? ? Hn1 Hn']. inversion Hn' as [|? ? Hn2 _]. subst.
    unfold rename, bind, assert_, get, put, fail in *.
    destruct (negb (startsWith filename1 "/")); [|done]. destruct (negb (startsWith filename2 "/")); [|done].
    cbn in *. rewrite lookup_union_r by done. destruct (names d !! filename1) as [i|]; [|done]. injection Hop as <-.
    split; [|exact Ha]. unfold overlay, set_field. cbn. do 2 f_equal.
    rewrite delete_union, (delete_id (o_names o)) by done. by rewrite insert_union_r.
  - by apply fsync_overlay.
  - by apply fsync_overlay.
  - unfold close in *. destruct (fd <? 0); [by injection Hop as <-|]. unfold bind, get, put, fail in *. cbn.
    destruct (fds d !! fd) as [[i p]|] eqn:Hfd; [|done]. injection Hop as <-. destruct (Ha _ _ _ Hfd) as [Hof _].
    rewrite lookup_union_r, Hfd by done. split.
    + unfold overlay, set_field. cbn. by rewrite delete_union, (delete_id (o_fds o)) by done.
    + intros f j q. cbn. intros [_ Hq]%lookup_delete_Some. by eapply Ha.
  - inversion Hn as [|? ? Hn1 _]. subst. unfold removeFile, bind, assert_, modify, fail in *.
    destruct (negb (startsWith filename1 "/")); [|done]. cbn in *. injection Hop as <-. split; [|exact Ha].
    unfold overlay, set_field. cbn. by rewrite delete_union, (delete_id (o_names o)) by done.
  - by injection Hop as <-.
Qed.

Lemma exec_overlay o ops d d' :
  avoids o ops -> apart o d -> exec ops d = Ok (tt, d') ->
  exec ops (overlay o d) = Ok (tt, overlay o d') /\ apart o d'.
Proof.
  intros Hops. revert d. induction Hops as [|op ops Hop _ IH]; intros d Ha Hexec.
  - by injection Hexec as <-.
  - rewrite exec_cons in Hexec. apply bind_Ok in Hexec as ([] & d1 & H1 & H2).
    destruct (exec_op_overlay o op d d1 Hop Ha H1) as [H1' Ha1]. rewrite exec_cons. unfold bind. rewrite H1'.
    by apply IH.
Qed.

(** Names and numbers handed out so far are not changed by the operations. *)
Lemma exec_op_next op d d' : exec_op op d = Ok (tt, d') -> next_id d' = next_id d.
Proof.
  destruct op; cbn [exec_op]; intros Hop.
  - apply bind_Ok in Hop as ([[i c] p] & d1 & Hf & Hop). destruct (the_file_state _ _ _ _ Hf) as [-> _]. by injection Hop as <-.
  - apply bind_Ok in Hop as (sz & d0 & Hsz & Hop). unfold lift in Hsz. destruct (downCast_off_t size); [|done]. injection Hsz as <- <-.
    apply bind_Ok in Hop as ([[i c] p] & d1 & Hf & Hop). destruct (the_file_state _ _ _ _ Hf) as [-> _]. by injection Hop as <-.
  - unfold rename, bind, assert_, get, put, fail, ret in Hop.
    destruct (negb _); [|done]. destruct (negb _); [|done]. destruct (names d !! filename1); [|done]. by injection Hop as <-.
  - unfold fsync, bind, get, ret, fail in Hop. destruct (_ || _); [by injection Hop as <-|done].
  - unfold fsync, bind, get, ret, fail in Hop. destruct (_ || _); [by injection Hop as <-|done].
  - unfold close, bind, get, put, ret, fail in Hop. destruct (fd <? 0); [by injection Hop as <-|].
    destruct (fds d !! fd); [by injection Hop as <-|done].
  - unfold removeFile, bind, assert_, modify, ret, fail in Hop. destruct (negb _); [by injection Hop as <-|done].
  - by injection Hop as <-.
Qed.

Lemma exec_next ops d d' : exec ops d = Ok (tt, d') -> next_id d' = next_id d.
Proof.
  revert d. induction ops as [|op ops IH]; intros d Hexec; [by injection Hexec as <-|].
  rewrite exec_cons in Hexec. apply bind_Ok in Hexec as ([] & d1 & H1 & H2).
  rewrite (IH _ H2). by eapply exec_op_next.
Qed.

(** ** Creating and replacing a file while operations wait *)

Definition untouched (name : string) (ops : list Op.t) : Prop := Forall (fun op => name ∉ op_names op) ops.

Lemma untouched_app name ops ops' : untouched name (ops ++ ops') <-> untouched name ops /\ untouched name ops'.
Proof. apply Forall_app. Qed.

Lemma exec_op_names op d d' name :
  name ∉ op_names op -> exec_op op d = Ok (tt, d') -> names d' !! name = names d !! name.
Proof.
  intros Hn. destruct op; cbn [exec_op op_names] in *; intros Hop.
  - apply bind_Ok in Hop as ([[i c] p] & d1 & Hf & Hop). destruct (the_file_state _ _ _ _ Hf) as [-> _]. by injection Hop as <-.
  - apply bind_Ok in Hop as (sz & d0 & Hsz & Hop). unfold lift in Hsz. destruct (downCast_off_t size); [|done]. injection Hsz as <- <-.
    apply bind_Ok in Hop as ([[i c] p] & d1 & Hf & Hop). destruct (the_file_state _ _ _ _ Hf) as [-> _]. by injection Hop as <-.
  - unfold rename, bind, assert_, get, put, fail, ret in Hop.
    destruct (negb _); [|done]. destruct (negb _); [|done]. destruct (names d !! filename1); [|done]. injection Hop as <-.
    cbn. rewrite lookup_insert_ne, lookup_delete_ne; [done|set_solver..].
  - unfold fsync, bind, get, ret, fail in Hop. destruct (_ || _); [by injection Hop as <-|done].
  - unfold fsync, bind, get, ret, fail in Hop. destruct (_ || _); [by injection Hop as <-|done].
  - unfold close, bind, get, put, ret, fail in Hop. destruct (fd <? 0); [by injection Hop as <-|].
    destruct (fds d !! fd); [by injection Hop as <-|done].
  - unfold removeFile, bind, assert_, modify, ret, fail in Hop. destruct (negb _); [|done]. injection Hop as <-.
    cbn. rewrite lookup_delete_ne; [done|set_solver].
  - by injection Hop as <-.
Qed.

Lemma exec_names ops d d' name :
  untouched name ops -> exec ops d = Ok (tt, d') -> names d' !! name = names d !! name.
Proof.
  intros Hops. revert d. induction Hops as [|op ops Hop _ IH]; intros d Hexec; [by injection Hexec as <-|].
  rewrite exec_cons in Hexec. apply bind_Ok in Hexec as ([] & d1 & H1 & H2).
  rewrite (IH _ H2). by eapply exec_op_names.
Qed.

Lemma untouched_avoids name ops i I F nx :
  untouched name ops -> avoids (mkOthers {[name := i]} I F nx) ops.
Proof.
  intros Hops. eapply Forall_impl; [exact Hops|]. intros op Hn. cbn.
  apply Forall_forall. intros n Hin. rewrite lookup_singleton_ne; [done|]. by intros ->.
Qed.

Lemma add_file_overlay d name c p :
  add_file d name c p =
    overlay (mkOthers {[name := next_id d]} {[next_id d := c]} {[next_id d + 1 := (next_id d, p)]} 2) d.
Proof. unfold add_file, overlay. cbn. by rewrite !insert_union_singleton_l. Qed.

Lemma exec_add_file ops d d' name c p :
  disk_ok d -> untouched name ops -> exec ops d = Ok (tt, d') ->
  exec ops (add_file d name c p) = Ok (tt, add_file d' name c p).
Proof.
  intros Hd Hn Hexec. rewrite !add_file_overlay, (exec_next _ _ _ Hexec).
  apply exec_overlay; [by apply untouched_avoids| |done]. intros f i q Hf.
  destruct (fds_used _ Hd _ _ _ Hf) as (? & ? & _). cbn. rewrite !lookup_singleton_ne; [done|lia..].
Qed.

Lemma exec_set_file ops d d' name c :
  disk_ok d -> untouched name ops -> unopened d name -> exec ops d = Ok (tt, d') ->
  exec ops (set_file d name c) = Ok (tt, set_file d' name c).
Proof.
  intros Hd Hn Hu Hexec. unfold set_file. rewrite (exec_names _ _ _ _ Hn Hexec), (exec_next _ _ _ Hexec).
  destruct (names d !! name) as [i|] eqn:Hi.
  - assert (forall e, mkDisk (names e) (<[i := c]> (inodes e)) (fds e) (next_id e + 1) =
      overlay (mkOthers ∅ {[i := c]} ∅ 1) e) as Heq.
    { intros e. unfold overlay. cbn. by rewrite !(left_id_L ∅ (∪)), insert_union_singleton_l. }
    pose proof (exec_next _ _ _ Hexec) as Hnext. rewrite <-Hnext at 2. rewrite !Heq.
    apply exec_overlay; [| |done].
    + apply Forall_forall. intros op _. by apply Forall_forall.
    + intros f j q Hf. cbn. split; [done|]. rewrite lookup_singleton_ne; [done|]. intros ->. apply (Hu f q). by exists j.
  - assert (forall e, next_id e = next_id d ->
      mkDisk (<[name := next_id d]> (names e)) (<[next_id d := c]> (inodes e)) (fds e) (next_id d + 2) =
      overlay (mkOthers {[name := next_id d]} {[next_id d := c]} ∅ 2) e) as Heq.
    { intros e He. unfold overlay. cbn. by rewrite !(left_id_L ∅ (∪)), !insert_union_singleton_l, He. }
    pose proof (exec_next _ _ _ Hexec) as Hnext. rewrite !Heq by done.
    apply exec_overlay; [by apply untouched_avoids| |done].
    intros f j q Hf. destruct (fds_used _ Hd _ _ _ Hf) as (? & ? & _). cbn. split; [done|].
    rewrite lookup_singleton_ne; [done|lia].
Qed.

(** ** What the operations leave as it is *)

(** Descriptors are moved or closed, but never opened on another file. *)
Lemma exec_op_ok op d d' :
  disk_ok d -> exec_op op d = Ok (tt, d') ->
  disk_ok d' /\ forall f i p', fds d' !! f = Some (i, p') -> exists p, fds d !! f = Some (i, p).
Proof.
  intros Hd. assert (forall f i p, fds d !! f = Some (i, p) -> exists q, fds d !! f = Some (i, q)) as Hsame by (intros; by eexists).
  assert (forall ns, (forall a b i, ns !! a = Some i -> ns !! b = Some i -> a = b) ->
    (forall a i, ns !! a = Some i -> exists b, names d !! b = Some i) -> disk_ok (d <| names := ns |>)) as Hnames
    by (intros ns; by apply disk_ok_names).
  destruct op; cbn [exec_op]; intros Hop.
  - apply bind_Ok in Hop as ([[i c] p] & d1 & Hf & Hop). destruct (the_file_state _ _ _ _ Hf) as (-> & i' & c' & p' & [= <- <- <-] & Hfd).
    injection Hop as <-. destruct (fds_pos _ Hd _ _ _ Hfd) as [_ Hp]. split; [refine (disk_ok_update d fd i p (p + Z.of_nat (length writeData)) _ Hd Hfd _); lia|].
    intros f j q. cbn. destruct (decide (f = fd)) as [->|]; [rewrite lookup_insert_eq; intros [= <- <-]; by eexists|].
    rewrite lookup_insert_ne by done. apply Hsame.
  - apply bind_Ok in Hop as (sz & d0 & Hsz & Hop). unfold lift in Hsz. destruct (downCast_off_t size) as [z|]; [|done]. injection Hsz as <- <-.
    apply bind_Ok in Hop as ([[i c] p] & d1 & Hf & Hop). destruct (the_file_state _ _ _ _ Hf) as (-> & i' & c' & p' & [= <- <- <-] & Hfd).
    injection Hop as <-. split; [|exact Hsame]. destruct (fds_pos _ Hd _ _ _ Hfd) as [_ Hp].
    pose proof (disk_ok_update d fd i p p (take (Z.to_nat z) c ++ zeros (Z.to_nat z - length c)) Hd Hfd Hp) as Hnew.
    rewrite (insert_id (fds d)) in Hnew by done. exact Hnew.
  - unfold rename, bind, assert_, get, put, fail, ret in Hop.
    destruct (negb _); [|done]. destruct (negb _); [|done]. destruct (names d !! filename1) as [i|] eqn:Hi; [|done]. injection Hop as <-.
    split; [|exact Hsame]. apply Hnames.
    + intros a b j. rewrite !lookup_insert_Some, !lookup_delete_Some.
      intros [[<- <-]|(? & ? & Ha)] [[<- Hj]|(? & ? & Hb)]; try done; subst.
      * by destruct (names_inj _ Hd _ _ _ Hi Hb).
      * by destruct (names_inj _ Hd _ _ _ Hi Ha).
      * by eapply names_inj.
    + intros a j. rewrite lookup_insert_Some, lookup_delete_Some. intros [[_ <-]|(_ & _ & Ha)]; by eexists.
  - unfold fsync, bind, get, ret, fail in Hop. destruct (_ || _); [by injection Hop as <-|done].
  - unfold fsync, bind, get, ret, fail in Hop. destruct (_ || _); [by injection Hop as <-|done].
  - unfold close, bind, get, put, ret, fail in Hop. destruct (fd <? 0); [by injection Hop as <-|].
    destruct (fds d !! fd); [|done]. injection Hop as <-. split.
    + destruct Hd as [H1 H2 H3 H4 H5]. split; simpl; try done; intros f j q [_ Hq]%lookup_delete_Some; eauto.
    + intros f i p'. cbn. intros [_ Hq]%lookup_delete_Some. by eexists.
  - unfold removeFile, bind, assert_, modify, ret, fail in Hop. destruct (negb _); [|done]. injection Hop as <-.
    split; [|exact Hsame]. apply Hnames.
    + intros a b i [_ Ha]%lookup_delete_Some [_ Hb]%lookup_delete_Some. by eapply names_inj.
    + intros a i [_ Ha]%lookup_delete_Some. by eexists.
  - by injection Hop as <-.
Qed.

Lemma exec_ok ops d d' :
  disk_ok d -> exec ops d = Ok (tt, d') ->
  disk_ok d' /\ forall name, untouched name ops -> unopened d name -> unopened d' name.
Proof.
  revert d. induction ops as [|op ops IH]; intros d Hd Hexec; [by injection Hexec as <-|].
  rewrite exec_cons in Hexec. apply bind_Ok in Hexec as ([] & d1 & H1 & H2).
  destruct (exec_op_ok _ _ _ Hd H1) as [Hd1 Hfds]. destruct (IH _ Hd1 H2) as [Hd' Hun]. split; [done|].
  intros name Hn Hu. inversion Hn as [|? ? Hop Hops]; subst. apply Hun; [done|].
  intros f p (i & Hf & Hi). rewrite (exec_op_names _ _ _ _ Hop H1) in Hi. destruct (Hfds _ _ _ Hf) as [q Hq].
  apply (Hu f q). by exists i.
Qed.

(** A file that no operation names and no descriptor is open on stays as it is. *)
Lemma exec_op_contents op d d' name :
  name ∉ op_names op -> unopened d name -> exec_op op d = Ok (tt, d') -> contents_of d' name = contents_of d name.
Proof.
  intros Hn Hu Hop. pose proof (exec_op_names _ _ _ _ Hn Hop) as Hnames. unfold contents_of. rewrite Hnames.
  destruct (names d !! name) as [j|] eqn:Hj; [|done]. cbn.
  assert (forall fd i c p d1, the_file fd d = Ok (i, c, p, d1) -> d1 = d /\ i <> j) as Hfile.
  { intros fd i c p d1 Hf. destruct (the_file_state _ _ _ _ Hf) as (-> & i' & c' & p' & [= <- <- <-] & Hfd). split; [done|].
    intros ->. apply (Hu fd p). by exists j. }
  destruct op; cbn [exec_op] in Hop.
  - apply bind_Ok in Hop as ([[i c] p] & d1 & Hf & Hop). destruct (Hfile _ _ _ _ _ Hf) as [-> Hne].
    injection Hop as <-. cbn. by rewrite lookup_insert_ne.
  - apply bind_Ok in Hop as (sz & d0 & Hsz & Hop). unfold lift in Hsz. destruct (downCast_off_t size); [|done]. injection Hsz as <- <-.
    apply bind_Ok in Hop as ([[i c] p] & d1 & Hf & Hop). destruct (Hfile _ _ _ _ _ Hf) as [-> Hne].
    injection Hop as <-. cbn. by rewrite lookup_insert_ne.
  - unfold rename, bind, assert_, get, put, fail, ret in Hop.
    destruct (negb _); [|done]. destruct (negb _); [|done]. destruct (names d !! filename1); [|done]. by injection Hop as <-.
  - unfold fsync, bind, get, ret, fail in Hop. destruct (_ || _); [by injection Hop as <-|done].
  - unfold fsync, bind, get, ret, fail in Hop. destruct (_ || _); [by injection Hop as <-|done].
  - unfold close, bind, get, put, ret, fail in Hop. destruct (fd <? 0); [by injection Hop as <-|].
    destruct (fds d !! fd); [by injection Hop as <-|done].
  - unfold removeFile, bind, assert_, modify, ret, fail in Hop. destruct (negb _); [|done]. by injection Hop as <-.
  - by injection Hop as <-.
Qed.

Lemma exec_contents ops d d' name :
  disk_ok d -> untouched name ops -> unopened d name -> exec ops d = Ok (tt, d') -> contents_of d' name = contents_of d name.
Proof.
  intros Hd Hops. revert d Hd. induction Hops as [|op ops Hop Hrest IH]; intros d Hd Hu Hexec; [by injection Hexec as <-|].
  rewrite exec_cons in Hexec. apply bind_Ok in Hexec as ([] & d1 & H1 & H2).
  assert (exec [op] d = Ok (tt, d1)) as Hone by (rewrite exec_cons; unfold bind; by rewrite H1).
  destruct (exec_ok [op] d d1 Hd Hone) as [Hd1 Hu1]. rewrite (IH d1 Hd1 (Hu1 name ltac:(by constructor) Hu) H2).
  by eapply exec_op_contents.
Qed.
