(* ===== verification/SegmentedLogLoad.v ===== *)
(** * Recovery of the segmented log

    The constructor of [Storage/SegmentedLog.cc] run on a directory that holds
    the files of a log: whole segments, segments that are still open and of
    which only a part is written, prepared segments without entries, segments
    that are no longer needed. It returns, and the log it returns has the
    entries of the files, the start index and the metadata. *)

From Stdlib Require Import ZArith Lia Ascii String.
From stdpp Require Import base functions gmap strings list fin_maps sorting.
From S2P Require Import Prelude OrderedMap StringUtil Stream SnapshotFile Log Disk DiskSpec Checksum Printf SegmentedLog SegmentedLogFormat SegmentedLogSpec.
Local Open Scope Z_scope.
Local Open Scope list_scope.

(** ** The files of a log *)

(** A segment file: its name, whether it is an open one, the entries written to
    it with the index of the first, and how many zeros follow them. *)
Record seg_file : Type := mk_seg_file {
  sf_name : string;
  sf_open : bool;
  sf_start : Z;
  sf_entries : list LogEntry;
  sf_zeros : nat
}.

Definition sf_end (f : seg_file) : Z := sf_start f + Z.of_nat (length (sf_entries f)) - 1.
Definition sf_closed_name (f : seg_file) : string := closed_filename (sf_start f) (sf_end f).

(** The files that hold something from index [start] on. *)
Definition sf_kept (start : Z) (f : seg_file) : bool :=
  match sf_entries f with [] => false | _ => start <=? sf_end f end.

(** What [readSegmentFilenames] makes of the name. *)
Definition sf_found (f : seg_file) : Segment :=
  if sf_open f then mkSegment true u64_max (u64_max - 1) 0 (sf_name f) []
  else mkSegment false (sf_start f) (sf_end f) 0 (sf_name f) [].

(** ** Listing the directory *)

Lemma keys_insert (l : list string) (m : list (string * unit)) :
  om_sorted m -> om_sorted (fold_right (fun n m => om_set m n tt) m l) /\
  forall n, n ∈ map fst (fold_right (fun n m => om_set m n tt) m l) <-> n ∈ l \/ n ∈ map fst m.
Proof.
  intros Hm. induction l as [|x l [IHs IH]]; simpl.
  - split; [done|]. intros n. rewrite elem_of_nil. tauto.
  - split; [by apply om_set_sorted|]. intros n. rewrite elem_of_cons.
    specialize (IH n). rewrite om_elem_keys in IH. rewrite om_elem_keys, om_lookup_set by done.
    case_decide; subst; [|naive_solver]. split; [auto|]. intros _. by eexists.
Qed.

Lemma ls_sorted_spec d :
  NoDup (ls_sorted d) /\ forall n, n ∈ ls_sorted d <-> is_Some (names d !! n).
Proof.
  unfold ls_sorted. destruct (keys_insert (map fst (map_to_list (names d))) [] ltac:(constructor)) as [Hs Hk].
  split.
  - apply om_sorted_keys in Hs. revert Hs. generalize (map fst (fold_right (fun n m => om_set m n tt) [] (map fst (map_to_list (names d))))).
    intros l. induction 1 as [|x l _ IH Hx]; constructor; [|done]. intros Hin.
    rewrite Forall_forall in Hx. by apply (key_lt_irrefl x), Hx.
  - intros n. rewrite Hk. rewrite elem_of_nil. rewrite list_elem_of_fmap. split.
    + intros [([n' i] & -> & Hi)|[]]. apply elem_of_map_to_list in Hi. by eexists.
    + intros [i Hi]. left. exists (n, i). split; [done|]. by apply elem_of_map_to_list.
Qed.

Section Recovery.
Context (opts : SegOptions) (algorithms : bytes -> option (bytes -> bytes)) `{!AlgorithmLaws algorithms}.
Context `{ProtoBuf LogEntry} `{ProtoBufText LogEntry} `{!ProtoBufLaws LogEntry} `{!ProtoBufTextLaws LogEntry}.
Context `{ProtoBuf SegMetadata} `{ProtoBufText SegMetadata} `{!ProtoBufLaws SegMetadata} `{!ProtoBufTextLaws SegMetadata}.
Hypothesis algorithm_known : is_Some (algorithms (checksumAlgorithm opts)).

Abbreviation img := (image opts algorithms).
Abbreviation plc := (placed opts algorithms).

Definition sf_bytes (f : seg_file) : Z := header_size + Z.of_nat (length (img (sf_entries f))).
Definition sf_image (f : seg_file) : bytes := SegmentHeader ++ img (sf_entries f).
Definition sf_content (f : seg_file) : bytes := sf_image f ++ zeros (sf_zeros f).

(** The closed segment it is loaded as. *)
Definition sf_segment (f : seg_file) : Segment :=
  mkSegment false (sf_start f) (sf_end f) (sf_bytes f) (sf_closed_name f) (plc header_size (sf_entries f)).

Record sf_ok (f : seg_file) : Prop := {
  sf_start_pos : 1 <= sf_start f;
  sf_end_max : sf_end f < u64_max - 1;
  sf_indexed j e : sf_entries f !! j = Some e -> Log.index e = Some (sf_start f + Z.of_nat j);
  sf_encodable : Forall (encodable opts) (sf_entries f);
  sf_size : Z.of_nat (length (sf_content f)) < max_file;
  sf_named : if sf_open f then exists id, is_u64 id /\ sf_name f = open_filename id
             else sf_name f = sf_closed_name f /\ sf_entries f <> []
}.

Lemma sf_relative f : sf_ok f -> startsWith (sf_name f) "/" = false.
Proof.
  intros Hf. pose proof (sf_named _ Hf) as Hn. destruct (sf_open f).
  - destruct Hn as (id & _ & ->). apply open_relative.
  - destruct Hn as [-> _]. apply closed_relative.
Qed.

(** The entries of a file are where their indexes say. *)
Lemma sf_segment_ok f : sf_ok f -> segment_ok (sf_start f) (sf_start f) (sf_segment f).
Proof.
  intros Hf. split; simpl; [done|done|rewrite placed_length; unfold sf_end; lia|].
  intros j r Hr. assert (map record_entry (plc header_size (sf_entries f)) !! j = Some (record_entry r)) as Hj
    by (by rewrite list_lookup_fmap, Hr). rewrite placed_entries in Hj. by apply (sf_indexed _ Hf).
Qed.

(** What a file becomes when it is loaded: its name and contents. *)
Definition loaded (start : Z) (f : seg_file) (g : string -> option bytes) : string -> option bytes :=
  if sf_kept start f then <[sf_closed_name f := Some (sf_image f)]> (<[sf_name f := None]> g)
  else <[sf_name f := None]> g.

Lemma check_version_ok f : check_version (sf_content f) = Ok tt.
Proof. done. Qed.

Definition sf_length f : length (sf_content f) = (length (sf_image f) + sf_zeros f)%nat.
Proof. unfold sf_content, zeros. by rewrite length_app, length_replicate. Qed.

Lemma sf_image_length f : Z.of_nat (length (sf_image f)) = sf_bytes f.
Proof. unfold sf_image, sf_bytes, header_size. simpl. lia. Qed.

Lemma take_sf_content f : take (length (sf_image f)) (sf_content f) = sf_image f.
Proof. unfold sf_content. by rewrite take_app_length. Qed.

Lemma load_closed_sf f :
  sf_ok f ->
  load_closed opts algorithms (length (sf_content f)) (sf_content f) (sf_start f) (sf_end f) header_size =
    Ok (plc header_size (sf_entries f), sf_bytes f).
Proof.
  intros Hf. pose proof (sf_size _ Hf) as Hsize. unfold sf_content, sf_image in Hsize |- *. rewrite <-app_assoc in *.
  pose proof (image_long opts algorithms algorithm_known (sf_entries f)). unfold sf_end.
  rewrite (load_closed_image opts algorithms algorithm_known _ SegmentHeader).
  - f_equal. f_equal. rewrite length_app. unfold sf_bytes, header_size. simpl. lia.
  - apply (sf_encodable _ Hf).
  - done.
  - pose proof (sf_start_pos _ Hf). lia.
  - pose proof (sf_end_max _ Hf) as Hmax. unfold sf_end, u64_max in *. lia.
  - rewrite !length_app. lia.
Qed.

Lemma load_open_sf f :
  sf_ok f ->
  load_open opts algorithms (length (sf_content f)) (sf_content f) header_size =
    Ok (plc header_size (sf_entries f), sf_bytes f, negb (sf_zeros f =? 0)%nat).
Proof.
  intros Hf. pose proof (sf_size _ Hf) as Hsize. unfold sf_content, sf_image in Hsize |- *. rewrite <-app_assoc in *.
  pose proof (image_long opts algorithms algorithm_known (sf_entries f)).
  rewrite (load_open_image opts algorithms algorithm_known _ SegmentHeader).
  - do 3 f_equal. rewrite length_app. unfold sf_bytes, header_size. simpl. lia.
  - apply (sf_encodable _ Hf).
  - done.
  - rewrite !length_app. unfold zeros. rewrite length_replicate. destruct (sf_zeros f); simpl; lia.
Qed.

(** The first and the last record of a file that has some. *)
Lemma placed_ends f :
  sf_ok f -> sf_entries f <> [] ->
  exists r rest r', plc header_size (sf_entries f) = r :: rest /\ last (plc header_size (sf_entries f)) = Some r' /\
    record_index r = sf_start f /\ record_index r' = sf_end f.
Proof.
  intros Hf Hne. set (rs := plc header_size (sf_entries f)).
  assert (map record_entry rs = sf_entries f) as Hmap by apply placed_entries.
  assert (length rs = length (sf_entries f)) as Hlen by apply placed_length.
  assert (forall j r, rs !! j = Some r -> record_index r = sf_start f + Z.of_nat j) as Hidx.
  { intros j r Hr. unfold record_index. rewrite (sf_indexed _ Hf j (record_entry r)); [done|].
    by rewrite <-Hmap, list_lookup_fmap, Hr. }
  destruct rs as [|r rest] eqn:Hrs; [by destruct (sf_entries f)|]. exists r, rest.
  rewrite last_lookup in *. destruct ((r :: rest) !! Nat.pred (length (r :: rest))) as [r'|] eqn:Hr'.
  - exists r'. split_and!; [done|done|rewrite (Hidx 0%nat r) by done; lia|].
    rewrite (Hidx _ _ Hr'). unfold sf_end. rewrite <-Hlen. simpl. lia.
  - apply lookup_ge_None in Hr'. simpl in Hr'. lia.
Qed.

Lemma sf_not_empty f : (length (sf_content f) =? 0)%nat = false.
Proof. done. Qed.

(** A cut that keeps the whole image. *)
Lemma truncate_image f :
  sf_ok f ->
  take (Z.to_nat (sf_bytes f)) (sf_content f) ++ zeros (Z.to_nat (sf_bytes f) - length (sf_content f)) = sf_image f.
Proof.
  intros Hf. rewrite <-(sf_image_length f), Nat2Z.id, take_sf_content. rewrite (sf_length f).
  replace (_ - _)%nat with 0%nat by lia. by rewrite app_nil_r.
Qed.

Lemma sf_bytes_max f : sf_ok f -> sf_bytes f <= TimePoint_max.
Proof.
  intros Hf. pose proof (sf_size _ Hf) as Hsize. rewrite (sf_length f) in Hsize.
  rewrite <-(sf_image_length f). unfold max_file, TimePoint_max in *. lia.
Qed.

(** Cutting the zeros off, if there are any. *)
Lemma wp_cut_zeros f fd l (Q : unit -> SegmentedLog -> Prop) :
  sf_ok f -> disk_ok (sl_disk l) -> handle (sl_disk l) fd (sf_name f) 0 ->
  contents_of (sl_disk l) (sf_name f) = Some (sf_content f) ->
  (forall d', disk_ok d' ->
     (forall n, contents_of d' n = <[sf_name f := Some (sf_image f)]> (contents_of (sl_disk l)) n) ->
     handle d' fd (sf_name f) 0 -> (forall f, f <> fd -> fds d' !! f = fds (sl_disk l) !! f) ->
     Q tt (l <| sl_disk := d' |>)) ->
  safe (when (negb (sf_zeros f =? 0)%nat) (on_disk (truncate fd (sf_bytes f) ;;; fsync fd))) Q l.
Proof.
  intros Hf Hd Hh Hc HQ. apply wp_when; intros Hz.
  - apply wp_zoom, wp_bind. eapply wp_truncate; [done..|by apply sf_bytes_max|]. intros d' Hd' Hc' Hh' (_ & Hk & _).
    eapply wp_fsync; [done|]. apply HQ; [done| |done|exact Hk]. intros n. by rewrite Hc', truncate_image.
  - specialize (HQ (sl_disk l) Hd). destruct l. apply HQ; [|done|done]. intros n.
    apply negb_false_iff, Nat.eqb_eq in Hz. destruct (decide (n = sf_name f)) as [->|]; [|by rewrite fn_lookup_insert_ne].
    rewrite fn_lookup_insert, Hc. unfold sf_content. rewrite Hz. by rewrite app_nil_r.
Qed.

(** ** Loading one file *)

(** The state after a file was loaded: the disk, and the bytes counted. *)
Definition after_load (start : Z) (f : seg_file) (l : SegmentedLog) (d : Disk) : SegmentedLog :=
  if sf_kept start f then (l <| sl_disk := d |>) <| totalClosedSegmentBytes := u64 (totalClosedSegmentBytes l + sf_bytes f) |>
  else l <| sl_disk := d |>.

Definition load_result (start : Z) (f : seg_file) : option Segment :=
  if sf_kept start f then Some (sf_segment f) else None.

(** What a run of [load…Segment] must end in. *)
Definition load_post (start : Z) (f : seg_file) (l : SegmentedLog) (Q : option Segment -> SegmentedLog -> Prop) : Prop :=
  forall d', disk_ok d' -> (forall n, contents_of d' n = loaded start f (contents_of (sl_disk l)) n) ->
    fds d' = fds (sl_disk l) -> Q (load_result start f) (after_load start f l d').

Lemma loadClosedSegment_spec start l f Q :
  sf_ok f -> sf_open f = false -> disk_ok (sl_disk l) ->
  contents_of (sl_disk l) (sf_name f) = Some (sf_content f) -> load_post start f l Q ->
  safe (loadClosedSegment opts algorithms (sf_found f) start) Q l.
Proof.
  intros Hf Hopen Hd Hc HQ. pose proof (sf_relative _ Hf) as Hrel. pose proof (sf_named _ Hf) as Hname.
  rewrite Hopen in Hname. destruct Hname as [Hname Hne].
  assert (sf_kept start f = (start <=? sf_end f)) as Hkept by (unfold sf_kept; by destruct (sf_entries f)).
  unfold load_post, load_result, after_load, loaded in HQ. rewrite Hkept in HQ.
  unfold sf_found. rewrite Hopen. apply wp_bind, wp_assert; [done|intros _]. cbn [filename seg_endIndex seg_startIndex].
  apply wp_bind, wp_zoom. eapply wp_openFile_existing; [done..|]. intros fd d1 Hd1 Hfd Hc1 Hh1 Hk1.
  apply wp_bind, wp_zoom. eapply wp_map_file; [exact Hh1|by rewrite Hc1|].
  rewrite sf_not_empty. apply wp_bind, wp_lift. rewrite check_version_ok.
  destruct (sf_end f <? start) eqn:Hend.
  - replace (start <=? sf_end f) with false in HQ by lia.
    apply wp_bind, wp_zoom, wp_bind. cbn [sl_disk set_field].
    eapply wp_removeFile; [done..|]. intros d2 Hd2 Hc2 _ Hfds2.
    apply wp_bind, wp_fsync_dir. destruct Hh1 as (i & Hfd1 & _).
    eapply wp_close; [done|rewrite Hfds2; exact Hfd1|].
    intros d3 Hd3 Hc3 (_ & Hk3 & _) Hnone. apply wp_ret. apply (HQ d3 Hd3).
    2: { eapply fds_restored; [by apply fds_fresh|done|]. intros g Hg. rewrite Hk3, Hfds2 by done. by apply Hk1. }
    intros n. rewrite Hc3, Hc2.
    destruct (decide (n = sf_name f)) as [->|]; [by rewrite !fn_lookup_insert|by rewrite !fn_lookup_insert_ne, Hc1].
  - replace (start <=? sf_end f) with true in HQ by lia.
    apply wp_bind, wp_lift. rewrite load_closed_sf by done.
    replace (sf_bytes f <? Z.of_nat (length (sf_content f))) with (negb (sf_zeros f =? 0)%nat).
    2: { pose proof (sf_length f). pose proof (sf_image_length f). symmetry. destruct (sf_zeros f) eqn:Hz; cbn [negb Nat.eqb].
         - apply Z.ltb_ge. lia.
         - apply Z.ltb_lt. lia. }
    cbn [fst snd]. apply wp_bind.
    apply wp_cut_zeros; [done..|by rewrite Hc1|]. cbn [sl_disk set_field]. intros d2 Hd2 Hc2 (i & Hfd2 & _) Hk2.
    apply wp_bind, wp_zoom. eapply wp_close; [done..|]. intros d3 Hd3 Hc3 (_ & Hk3 & _) Hnone.
    apply wp_bind, wp_modify, wp_ret. unfold sf_segment in HQ. rewrite <-Hname in HQ. apply (HQ d3 Hd3).
    2: { eapply fds_restored; [by apply fds_fresh|done|]. intros g Hg. rewrite Hk3, Hk2 by done. by apply Hk1. }
    intros n. rewrite Hc3, Hc2. cbn [sl_disk set_field].
    destruct (decide (n = sf_name f)) as [->|]; [by rewrite !fn_lookup_insert|by rewrite !fn_lookup_insert_ne].
Qed.

Lemma loadOpenSegment_spec start l f Q :
  sf_ok f -> sf_open f = true -> disk_ok (sl_disk l) ->
  contents_of (sl_disk l) (sf_name f) = Some (sf_content f) -> load_post start f l Q ->
  safe (loadOpenSegment opts algorithms (sf_found f) start) Q l.
Proof.
  intros Hf Hopen Hd Hc HQ. pose proof (sf_relative _ Hf) as Hrel. pose proof (sf_named _ Hf) as Hname.
  rewrite Hopen in Hname. destruct Hname as (id & Hid & Hname).
  unfold load_post, load_result, after_load, loaded in HQ.
  unfold sf_found. rewrite Hopen. apply wp_bind, wp_assert; [done|intros _]. cbn [filename].
  apply wp_bind, wp_zoom. eapply wp_openFile_existing; [done..|]. intros fd d1 Hd1 Hfd Hc1 Hh1 Hk1.
  apply wp_bind, wp_zoom. eapply wp_map_file; [exact Hh1|by rewrite Hc1|].
  apply wp_bind, wp_lift. rewrite check_version_ok, sf_not_empty.
  apply wp_bind, wp_lift. rewrite load_open_sf by done.
  apply wp_bind. apply wp_cut_zeros; [done..|by rewrite Hc1|]. cbn [sl_disk set_field].
  intros d2 Hd2 Hc2 (i & Hfd2 & _) Hk2.
  apply wp_bind, wp_zoom. eapply wp_close; [done..|]. intros d3 Hd3 Hc3 (_ & Hk3 & _) Hnone.
  assert (fds d3 = fds (sl_disk l)) as Hfds3.
  { eapply fds_restored; [by apply fds_fresh|done|]. intros g Hg. rewrite Hk3, Hk2 by done. by apply Hk1. }
  assert (forall n, n <> sf_name f -> contents_of d3 n = contents_of (sl_disk l) n) as Hother.
  { intros n Hn. rewrite Hc3, Hc2, fn_lookup_insert_ne by done. apply Hc1. }
  assert (contents_of d3 (sf_name f) = Some (sf_image f)) as Hthis by by rewrite Hc3, Hc2, fn_lookup_insert.
  assert (sf_kept start f = false ->
    safe (on_disk (removeFile (sf_name f) ;;; fsync dir_fd) ;;; ret None) Q (l <| sl_disk := d3 |>)) as Hremove.
  { intros Hkept. rewrite Hkept in HQ. apply wp_bind, wp_zoom, wp_bind.
    eapply wp_removeFile; [done..|]. intros d4 Hd4 Hc4 _ Hfds4. apply wp_fsync_dir, wp_ret. apply (HQ d4 Hd4); [|by rewrite Hfds4].
    intros n. rewrite Hc4. cbn [sl_disk set_field]. destruct (decide (n = sf_name f)) as [->|];
      [by rewrite !fn_lookup_insert|]. rewrite !fn_lookup_insert_ne by done. by apply Hother. }
  destruct (sf_entries f) as [|e es] eqn:Hes; [by apply Hremove; unfold sf_kept; rewrite Hes|].
  destruct (placed_ends f Hf) as (r & rest & r' & Hrs & Hlast & Hr & Hr'); [by rewrite Hes|].
  rewrite <-Hes, Hrs. rewrite Hrs in Hlast. rewrite Hlast, Hr'.
  assert (sf_kept start f = (start <=? sf_end f)) as Hkept by (unfold sf_kept; by rewrite Hes).
  destruct (sf_end f <? start) eqn:Hend; [apply Hremove; rewrite Hkept; lia|].
  replace (sf_kept start f) with true in HQ by (rewrite Hkept; lia).
  apply wp_bind, wp_modify, wp_bind, wp_zoom, wp_bind. cbn [sl_disk set_field].
  unfold makeClosedFilename. cbn [seg_startIndex seg_endIndex set_field]. rewrite Hr. fold (sf_closed_name f).
  eapply wp_rename; [done|done|apply closed_relative|by rewrite Hname; apply not_eq_sym, closed_not_open|done|].
  intros d4 Hd4 Hc4 _ Hfds4. apply wp_fsync_dir, wp_ret. unfold sf_segment in HQ. rewrite Hrs in HQ.
  apply (HQ d4 Hd4); [|by rewrite Hfds4]. intros n. rewrite Hc4.
  destruct (decide (n = sf_closed_name f)) as [->|]; [by rewrite !fn_lookup_insert|].
  rewrite !(fn_lookup_insert_ne _ (sf_closed_name f)) by done.
  destruct (decide (n = sf_name f)) as [->|]; [by rewrite !fn_lookup_insert|].
  rewrite !fn_lookup_insert_ne by done. by apply Hother.
Qed.

(** One file in the constructor's loop. *)
Lemma load_segment_spec start l f Q :
  sf_ok f -> disk_ok (sl_disk l) -> contents_of (sl_disk l) (sf_name f) = Some (sf_content f) ->
  (sf_kept start f = true -> om_lookup (segmentsByStartIndex l) (sf_start f) = None) ->
  (forall d', disk_ok d' -> (forall n, contents_of d' n = loaded start f (contents_of (sl_disk l)) n) ->
     fds d' = fds (sl_disk l) ->
     Q tt (if sf_kept start f
           then (after_load start f l d') <| segmentsByStartIndex :=
                  om_insert (segmentsByStartIndex l) (sf_start f) (sf_segment f) |>
           else after_load start f l d')) ->
  safe (load_segment opts algorithms start (sf_found f)) Q l.
Proof.
  intros Hf Hd Hc Hfree HQ.
  assert (load_post start f l (fun keep l' =>
    safe (match keep with
          | None => ret tt
          | Some s' =>
              assert_ (negb (isOpen s')) ;;;
              let! l := get in
              match om_lookup (segmentsByStartIndex l) (seg_startIndex s') with
              | Some _ => fail Panicked
              | None => put (l <| segmentsByStartIndex :=
                                    om_insert (segmentsByStartIndex l) (seg_startIndex s') s' |>)
              end
          end) Q l')) as Hpost.
  { intros d' Hd' Hc' Hfds'. specialize (HQ d' Hd' Hc' Hfds'). unfold load_result. destruct (sf_kept start f) eqn:Hk.
    - apply wp_bind, wp_assert; [done|intros _]. apply wp_bind, wp_get. cbn [seg_startIndex sf_segment].
      unfold after_load in *. rewrite Hk in *. cbn [segmentsByStartIndex set_field].
      rewrite Hfree by done. apply wp_put. exact HQ.
    - by apply wp_ret. }
  unfold load_segment. destruct (sf_open f) eqn:Hopen.
  - replace (isOpen (sf_found f)) with true by (unfold sf_found; by rewrite Hopen).
    apply wp_bind. by apply loadOpenSegment_spec.
  - replace (isOpen (sf_found f)) with false by (unfold sf_found; by rewrite Hopen).
    apply wp_bind. by apply loadClosedSegment_spec.
Qed.

(** ** Loading all the files *)

Definition loaded_all (start : Z) (fs : list seg_file) (g : string -> option bytes) : string -> option bytes :=
  fold_left (fun g f => loaded start f g) fs g.

Definition kept_files (start : Z) (fs : list seg_file) : list seg_file := List.filter (sf_kept start) fs.

(** A file with its key in the map. *)
Definition sf_pair (f : seg_file) : Z * Segment := (sf_start f, sf_segment f).

(** The files of a directory: no two have a name in common, nor a name with the
    closed segment that another becomes. *)
Record distinct (start : Z) (fs : list seg_file) : Prop := {
  fs_ok : Forall sf_ok fs;
  fs_names : NoDup (map sf_name fs);
  fs_starts : NoDup (map sf_start (kept_files start fs));
  fs_targets f g : f ∈ fs -> g ∈ fs -> sf_kept start f = true -> f <> g -> sf_closed_name f <> sf_name g
}.

Lemma kept_elem start fs f : f ∈ kept_files start fs <-> f ∈ fs /\ sf_kept start f = true.
Proof. unfold kept_files. by rewrite !list_elem_of_In, filter_In. Qed.

Lemma kept_snoc start fs f :
  kept_files start (fs ++ [f]) = kept_files start fs ++ (if sf_kept start f then [f] else []).
Proof. unfold kept_files. by rewrite List.filter_app. Qed.

Lemma loaded_all_snoc start fs f g : loaded_all start (fs ++ [f]) g = loaded start f (loaded_all start fs g).
Proof. unfold loaded_all. by rewrite fold_left_app. Qed.

Lemma loaded_other start f g n :
  n <> sf_name f -> (sf_kept start f = true -> n <> sf_closed_name f) -> loaded start f g n = g n.
Proof.
  intros Hn Hc. unfold loaded. destruct (sf_kept start f); [|by rewrite fn_lookup_insert_ne].
  rewrite !fn_lookup_insert_ne; [done|done|]. apply not_eq_sym. by apply Hc.
Qed.

(** A name of none of the files keeps its contents. *)
Lemma loaded_all_other start fs g n :
  n ∉ map sf_name fs -> (forall f, f ∈ kept_files start fs -> n <> sf_closed_name f) ->
  loaded_all start fs g n = g n.
Proof.
  induction fs as [|f fs IH] using rev_ind; intros Hn Hc; [done|]. rewrite loaded_all_snoc.
  rewrite map_app, not_elem_of_app in Hn. destruct Hn as [Hn Hf]. rewrite loaded_other.
  - apply IH; [done|]. intros f' Hf'. apply Hc. rewrite kept_snoc. set_solver.
  - set_solver.
  - intros Hk. apply Hc. rewrite kept_snoc, Hk. set_solver.
Qed.

(** The open files are gone, under whatever name they had. *)
Lemma loaded_all_open start fs g n :
  n ∈ map sf_name fs -> (forall f, f ∈ kept_files start fs -> n <> sf_closed_name f) ->
  loaded_all start fs g n = None.
Proof.
  induction fs as [|f fs IH] using rev_ind; intros Hn Hc; [by apply elem_of_nil in Hn|]. rewrite loaded_all_snoc.
  assert (sf_kept start f = true -> n <> sf_closed_name f) as Hcf.
  { intros Hk. apply Hc. rewrite kept_snoc, Hk. set_solver. }
  destruct (decide (n = sf_name f)) as [->|Hne].
  - unfold loaded. destruct (sf_kept start f); [|by rewrite fn_lookup_insert].
    rewrite fn_lookup_insert_ne by (apply not_eq_sym; by apply Hcf). by rewrite fn_lookup_insert.
  - rewrite loaded_other by done. apply IH.
    + rewrite map_app, elem_of_app in Hn. destruct Hn as [Hn|Hn]; [done|set_solver].
    + intros f' Hf'. apply Hc. rewrite kept_snoc. set_solver.
Qed.

Lemma distinct_snoc start fs f : distinct start (fs ++ [f]) ->
  distinct start fs /\ sf_ok f /\ (sf_name f ∉ map sf_name fs) /\
  (forall g, g ∈ kept_files start fs -> sf_name f <> sf_closed_name g) /\
  (sf_kept start f = true -> (sf_start f ∉ map sf_start (kept_files start fs)) /\
     (forall g, g ∈ fs -> sf_closed_name f <> sf_name g)).
Proof.
  intros [H1' H2' H3' H4']. rewrite Forall_app in H1'. destruct H1' as [Hok Hokf].
  rewrite map_app, NoDup_app in H2'. destruct H2' as (Hnd & Hdis & _).
  rewrite kept_snoc, map_app, NoDup_app in H3'. destruct H3' as (Hst & Hstd & _).
  assert (f ∉ fs) as Hfs. { intros Hf. apply (Hdis (sf_name f)); [|set_solver]. by apply list_elem_of_fmap_2. }
  split_and!.
  - split; try done. intros g h Hg Hh. apply H4'; set_solver.
  - by inversion Hokf.
  - intros Hin. apply (Hdis _ Hin). set_solver.
  - intros g [Hg Hk]%kept_elem Heq. apply (H4' g f); [set_solver|set_solver|done| |done]. by intros ->.
  - intros Hk. split.
    + rewrite Hk in Hstd. intros Hin. apply (Hstd _ Hin). set_solver.
    + intros g Hg. apply H4'; [set_solver|set_solver|done|]. by intros ->.
Qed.

(** A kept file ends up, whole and closed, under its closed name. *)
Lemma loaded_all_kept start fs g f :
  distinct start fs -> (forall f, f ∈ fs -> is_u64 (sf_start f) /\ is_u64 (sf_end f)) ->
  f ∈ kept_files start fs -> loaded_all start fs g (sf_closed_name f) = Some (sf_image f).
Proof.
  induction fs as [|f' fs IH] using rev_ind; intros Hd Hr Hf; [by apply elem_of_nil in Hf|].
  rewrite loaded_all_snoc. apply distinct_snoc in Hd as (Hd & Hok & Hname & Htarget & Hk').
  rewrite kept_snoc, elem_of_app in Hf. destruct Hf as [Hf|Hf].
  - rewrite loaded_other; [by apply IH; [done|intros; apply Hr; set_solver|]|by apply not_eq_sym, Htarget|].
    intros Hk Heq. destruct (Hk' Hk) as [Hst _]. apply Hst.
    assert (f ∈ fs ++ [f'] /\ f' ∈ fs ++ [f']) as [[Uf Vf]%Hr [Uf' Vf']%Hr] by (apply kept_elem in Hf; set_solver).
    destruct (closed_filename_inj _ _ _ _ Uf Vf Uf' Vf' Heq) as [Hs _].
    rewrite <-Hs. by apply list_elem_of_fmap_2.
  - unfold loaded. destruct (sf_kept start f') eqn:Hk; [|by apply elem_of_nil in Hf].
    apply list_elem_of_singleton in Hf as ->. by rewrite fn_lookup_insert.
Qed.

(** The rest of the state, which loading does not change. *)
Definition same_rest (l l' : SegmentedLog) : Prop :=
  sl_metadata l' = sl_metadata l /\ openSegmentFile l' = openSegmentFile l /\ logStartIndex l' = logStartIndex l /\
  preparedSegments l' = preparedSegments l /\ sl_currentSync l' = sl_currentSync l /\ log_metadata l' = log_metadata l.

Definition bytes_of (fs : list seg_file) : Z := fold_right (fun f z => sf_bytes f + z) 0 fs.

(** [done] is loaded. *)
Record loading (start : Z) (l0 : SegmentedLog) (done : list seg_file) (l : SegmentedLog) : Prop := {
  ld_rest : same_rest l0 l;
  ld_disk : disk_ok (sl_disk l);
  ld_fds : fds (sl_disk l) = fds (sl_disk l0);
  ld_contents n : contents_of (sl_disk l) n = loaded_all start done (contents_of (sl_disk l0)) n;
  ld_segments : segmentsByStartIndex l ≡ₚ map sf_pair (kept_files start done);
  ld_sorted : om_sorted (segmentsByStartIndex l);
  ld_total : totalClosedSegmentBytes l = u64 (totalClosedSegmentBytes l0 + bytes_of (kept_files start done))
}.

Lemma om_lookup_perm (m m' : list (Z * Segment)) k :
  om_sorted m -> m ≡ₚ m' -> k ∉ map fst m' -> om_lookup m k = None.
Proof.
  intros Hs Hp Hk. destruct (om_lookup m k) as [v|] eqn:Hm; [|done]. destruct Hk.
  apply om_lookup_elem in Hm; [|done]. rewrite Hp in Hm. apply list_elem_of_fmap. by exists (k, v).
Qed.

Lemma om_insert_perm (m : list (Z * Segment)) k v : om_lookup m k = None -> om_insert m k v ≡ₚ m ++ [(k, v)].
Proof.
  unfold om_insert. intros Hk. rewrite Hk. rewrite <-Permutation_cons_append.
  induction m as [|[k' v'] m IH]; simpl in *; [done|].
  case_decide; [done|]. case_decide; [done|]. rewrite IH by done. apply perm_swap.
Qed.

Lemma pair_keys fs : map fst (map sf_pair fs) = map sf_start fs.
Proof. by rewrite map_map. Qed.

Lemma bytes_of_snoc fs f : bytes_of (fs ++ [f]) = bytes_of fs + sf_bytes f.
Proof. unfold bytes_of. induction fs as [|f' fs IH]; simpl; [lia|]. rewrite IH. lia. Qed.

Lemma u64_add_l x y : u64 (u64 x + y) = u64 (x + y).
Proof. unfold u64. by rewrite Zplus_mod_idemp_l. Qed.

Lemma loading_step start l0 done f l :
  distinct start (done ++ [f]) -> contents_of (sl_disk l0) (sf_name f) = Some (sf_content f) ->
  loading start l0 done l ->
  safe (load_segment opts algorithms start (sf_found f)) (fun _ l' => loading start l0 (done ++ [f]) l') l.
Proof.
  intros Hd Hc [Hrest Hdisk Hfds Hcont Hsegs Hsorted Htotal]. apply distinct_snoc in Hd as (Hd & Hok & Hname & Htarget & Hk').
  assert (sf_kept start f = true -> om_lookup (segmentsByStartIndex l) (sf_start f) = None) as Hfree.
  { intros Hk. destruct (Hk' Hk) as [Hst _]. eapply om_lookup_perm; [done..|]. by rewrite pair_keys. }
  apply load_segment_spec; [done|done| |done|].
  { rewrite Hcont, loaded_all_other; [done|done|]. intros g Hg. by apply Htarget. }
  intros d' Hd' Hc' Hfds'. rewrite Hfds in Hfds'.
  assert (forall n, contents_of d' n = loaded_all start (done ++ [f]) (contents_of (sl_disk l0)) n) as Hcd.
  { intros n. rewrite Hc', loaded_all_snoc. unfold loaded. destruct (sf_kept start f);
      repeat (destruct (decide (n = sf_closed_name f)) as [->|];
              [rewrite !fn_lookup_insert; done|rewrite !(fn_lookup_insert_ne _ (sf_closed_name f)) by done]);
      (destruct (decide (n = sf_name f)) as [->|]; [by rewrite !fn_lookup_insert|rewrite !fn_lookup_insert_ne by done]);
      apply Hcont. }
  assert (kept_files start (done ++ [f]) = kept_files start done ++ (if sf_kept start f then [f] else [])) as Hkept
    by apply kept_snoc.
  unfold after_load. destruct (sf_kept start f).
  - split; cbn [sl_disk segmentsByStartIndex totalClosedSegmentBytes set_field]; [exact Hrest|done|done|done|..].
    + rewrite om_insert_perm by by apply Hfree. rewrite Hkept, map_app, Hsegs. done.
    + by apply om_insert_sorted.
    + rewrite Hkept, bytes_of_snoc, Htotal, u64_add_l. f_equal. lia.
  - rewrite app_nil_r in Hkept. split; cbn [sl_disk segmentsByStartIndex totalClosedSegmentBytes set_field];
      [exact Hrest|done|done|done|by rewrite Hkept|done|by rewrite Hkept].
Qed.

(** The constructor's first loop. *)
Lemma loading_all start l0 fs :
  distinct start fs -> (forall f, f ∈ fs -> contents_of (sl_disk l0) (sf_name f) = Some (sf_content f)) ->
  disk_ok (sl_disk l0) -> segmentsByStartIndex l0 = [] -> totalClosedSegmentBytes l0 = 0 ->
  safe (forM (map sf_found fs) (load_segment opts algorithms start)) (fun _ l' => loading start l0 fs l') l0.
Proof.
  intros Hd Hc Hdisk Hsegs Htotal.
  assert (loading start l0 [] l0) as Hinit.
  { split; [done|done|done|done|by rewrite Hsegs|rewrite Hsegs; constructor|by rewrite Htotal]. }
  assert (forall done todo l, fs = done ++ todo -> loading start l0 done l ->
    safe (forM (map sf_found todo) (load_segment opts algorithms start)) (fun _ l' => loading start l0 fs l') l) as Hloop.
  { intros done todo. revert done. induction todo as [|f todo IH]; intros done l Hfs Hl.
    - apply wp_ret. by rewrite Hfs, app_nil_r.
    - rewrite Hfs in Hd, Hc. change (f :: todo) with ([f] ++ todo) in Hd, Hc, Hfs. rewrite app_assoc in Hd, Hfs.
      apply wp_bind. eapply wp_mono; [eapply (loading_step start l0 done f l)|done|].
      + clear -Hd. destruct Hd as [H1' H2' H3' H4']. split.
        * apply Forall_app in H1' as [? _]. done.
        * rewrite map_app, NoDup_app in H2'. by destruct H2'.
        * unfold kept_files in H3'. rewrite List.filter_app, map_app, NoDup_app in H3'. by destruct H3'.
        * intros g h Hg Hh. apply H4'; rewrite elem_of_app; by left.
      + apply Hc. set_solver.
      + done.
      + intros [] l1 Hl1. apply (IH (done ++ [f])); done. }
  by apply (Hloop [] fs l0).
Qed.

(** ** Finding the files *)

(** What the directory holds: [files], and others that are no segments. *)
Record directory (d : Disk) (files : gmap string seg_file) : Prop := {
  dir_file n f : files !! n = Some f -> sf_ok f /\ sf_name f = n /\ contents_of d n = Some (sf_content f);
  dir_other n : files !! n = None -> is_Some (contents_of d n) -> scan_closed n = None /\ scan_open n = None
}.

Definition listed (files : gmap string seg_file) (names : list string) : list seg_file :=
  omap (fun n => files !! n) names.

(** The number in the name of an open segment. *)
Definition sf_id (f : seg_file) : option Z := if sf_open f then scan_open (sf_name f) else None.

Definition ids_upto (fs : list seg_file) (c : Z) : Prop := forall f id, f ∈ fs -> sf_id f = Some id -> id <= c.

Lemma sf_found_scan f n :
  sf_ok f -> sf_name f = n ->
  n <> "metadata1"%string /\ n <> "metadata2"%string /\
  if sf_open f then scan_closed n = None /\ exists id, scan_open n = Some id
  else scan_closed n = Some (sf_start f, sf_end f).
Proof.
  intros Hf <-. pose proof (sf_named _ Hf) as Hn. pose proof (sf_start_pos _ Hf). pose proof (sf_end_max _ Hf).
  destruct (sf_open f).
  - destruct Hn as (id & Hid & ->). split; [done|]. split; [done|]. split; [done|]. exists id.
    by apply scan_open_filename.
  - destruct Hn as [-> Hne]. unfold sf_closed_name.
    destruct (closed_not_metadata (sf_start f) (sf_end f)). split; [done|]. split; [done|].
    apply scan_closed_filename; unfold is_u64, sf_end, u64_max in *; lia.
Qed.

Lemma found_segments_spec files names l :
  (forall n f, files !! n = Some f -> sf_ok f /\ sf_name f = n) ->
  (forall n, n ∈ names -> files !! n = None -> scan_closed n = None /\ scan_open n = None) ->
  safe (found_segments names) (fun segs l' =>
    segs = map sf_found (listed files names) /\
    exists c, l' = l <| preparedSegments := (preparedSegments l) <| filenameCounter := c |> |> /\
      filenameCounter (preparedSegments l) <= c /\ ids_upto (listed files names) c /\
      forall B, filenameCounter (preparedSegments l) <= B -> ids_upto (listed files names) B -> c <= B) l.
Proof.
  intros Hfiles. revert l. induction names as [|n names IH]; intros l Hother.
  { apply wp_ret. split; [done|]. exists (filenameCounter (preparedSegments l)).
    destruct l as [? ? ? ? ? ? p ? ?], p. split_and!; [done|simpl; lia|by intros f id Hf%elem_of_nil|by intros B]. }
  assert (forall n', n' ∈ names -> files !! n' = None -> scan_closed n' = None /\ scan_open n' = None) as Hother'
    by (intros n' Hn'; apply Hother; set_solver).
  cbn [found_segments listed omap list_omap]. fold (listed files names) in *.
  destruct (files !! n) as [f|] eqn:Hn.
  - destruct (Hfiles _ _ Hn) as [Hf Hname]. destruct (sf_found_scan f n Hf Hname) as (Hm1 & Hm2 & Hscan).
    rewrite (proj2 (String.eqb_neq _ _) Hm1), (proj2 (String.eqb_neq _ _) Hm2). cbn [orb].
    destruct (sf_open f) eqn:Hopen.
    + destruct Hscan as [Hsc [id Hid]]. rewrite Hsc, Hid.
      assert (sf_id f = Some id) as Hsf by (unfold sf_id; by rewrite Hopen, Hname).
      apply wp_bind, wp_zoom, wp_modify. set (l1 := set_field _ _). apply wp_bind.
      eapply wp_mono; [apply (IH l1 Hother')|done|]. intros segs l2 (-> & c & -> & Hc & Hids & Hmin).
      apply wp_ret. split; [cbn [map]; f_equal; unfold sf_found; by rewrite Hopen, Hname|].
      exists c. subst l1. cbn [preparedSegments set_field] in *.
      assert (filenameCounter (preparedSegments l) <= c /\ id <= c /\
              forall B, filenameCounter (preparedSegments l) <= B -> id <= B -> ids_upto (listed files names) B -> c <= B)
        as (H1' & H2' & H3').
      { destruct (_ <? id) eqn:Hlt; cbn [filenameCounter set_field] in *; (split; [lia|]; split; [lia|]);
          intros B HB Hb HidsB; apply Hmin; [lia|done|lia|done]. }
      split_and!; [by destruct (_ <? id)|done| |].
      * intros g j [->|Hg]%elem_of_cons Hj; [congruence|by eapply Hids].
      * intros B HB HidsB. apply H3'; [done|apply (HidsB f); [set_solver|done]|].
        intros g j Hg. apply HidsB. set_solver.
    + rewrite Hscan. apply wp_bind. eapply wp_mono; [apply (IH l Hother')|done|].
      intros segs l2 (-> & c & -> & Hc & Hids & Hmin). apply wp_ret.
      assert (sf_id f = None) as Hsf by (unfold sf_id; by rewrite Hopen).
      split; [cbn [map]; f_equal; unfold sf_found; by rewrite Hopen, Hname|]. exists c. split_and!; [done|done| |].
      * intros g j [->|Hg]%elem_of_cons Hj; [congruence|by eapply Hids].
      * intros B HB HidsB. apply Hmin; [done|]. intros g j Hg. apply HidsB. set_solver.
  - destruct (Hother n ltac:(set_solver) Hn) as [-> ->]. destruct (_ || _); by apply IH.
Qed.

(** ** Metadata files *)

Definition meta_bytes (m : SegMetadata) : bytes :=
  match serializeProto opts algorithms m with Ok r => r | Fail _ => [] end.

(** The metadata that [updateMetadata] writes next. *)
Definition next_metadata (l : SegmentedLog) : SegMetadata :=
  mkSegMetadata 1 (u64 (version (sl_metadata l) + 1))
    (if metadata_is_empty (log_metadata l) then None else Some (log_metadata l)) (logStartIndex l).

Definition metadata_written (l : SegmentedLog) : SegmentedLog :=
  let m := next_metadata l in
  (l <| sl_metadata := m |>) <| sl_disk := set_file (sl_disk l) (metadata_filename (version m)) (meta_bytes m) |>.

Lemma metadata_relative v : startsWith (metadata_filename v) "/" = false.
Proof. unfold metadata_filename. by destruct (v mod 2 =? 1). Qed.

Lemma updateMetadata_exact l :
  disk_ok (sl_disk l) -> SegmentedLog_updateMetadata opts algorithms l = Ok (tt, metadata_written l).
Proof.
  intros Hd. destruct (write_whole_file (sl_disk l) (metadata_filename (version (next_metadata l)))
    (meta_bytes (next_metadata l)) Hd (metadata_relative _)) as (fd & d1 & Hopen & Hwrite).
  assert (serializeProto opts algorithms (next_metadata l) = Ok (meta_bytes (next_metadata l))) as Hser.
  { unfold meta_bytes. by destruct (serializeProto_ok opts algorithms (next_metadata l) algorithm_known) as [r ->]. }
  set (l1 := l <| sl_metadata := next_metadata l |>).
  change (SegmentedLog_updateMetadata opts algorithms l) with
    ((let! file := on_disk (openFile (metadata_filename (version (next_metadata l))) O_CREAT_TRUNC) in
      let! record := lift (serializeProto opts algorithms (next_metadata l)) in
      on_disk (write file record ;;; fsync file ;;; close file)) l1).
  unfold bind at 1, on_disk, zoom. change (sl_disk l1) with (sl_disk l). rewrite Hopen.
  unfold bind at 1, lift. rewrite Hser. cbn [sl_disk set_field]. by rewrite Hwrite.
Qed.

(** Reading a metadata file, whatever is in it. *)
Definition meta_read (c : option bytes) (r : option SegMetadata) : Prop :=
  match c with
  | None => r = None
  | Some c =>
      exists res, readProtoFromFile opts algorithms c 0 = Ok res /\
        match res with
        | inl _ => r = None
        | inr (m, _) => r = Some m /\ format_version m <= 1
        end
  end.

Lemma readMetadata_spec name r l Q :
  disk_ok (sl_disk l) -> startsWith name "/" = false -> meta_read (contents_of (sl_disk l) name) r ->
  (forall d', disk_ok d' -> (forall n, contents_of d' n = contents_of (sl_disk l) n) -> fds d' = fds (sl_disk l) ->
     Q r (l <| sl_disk := d' |>)) ->
  safe (readMetadata opts algorithms name) Q l.
Proof.
  intros Hd Hrel Hr HQ. apply wp_bind, wp_zoom, wp_bind, wp_assert; [by rewrite Hrel|intros _].
  unfold meta_read in Hr. destruct (contents_of (sl_disk l) name) as [c|] eqn:Hc.
  - eapply wp_openat_existing; [done..|]. intros fd d1 Hd1 Hfd Hc1 Hh1 Hk1.
    apply wp_bind, wp_zoom. eapply wp_map_file; [exact Hh1|by rewrite Hc1|].
    destruct Hr as (res & Hres & Hm). apply wp_bind, wp_lift. rewrite Hres.
    destruct Hh1 as (i & Hfd1 & _). apply wp_bind, wp_zoom. eapply wp_close; [done..|]. intros d2 Hd2 Hc2 (_ & Hk2 & _) Hnone.
    assert (fds d2 = fds (sl_disk l)) as Hfds2.
    { eapply fds_restored; [by apply fds_fresh|done|]. intros g Hg. rewrite Hk2 by done. by apply Hk1. }
    assert (forall n, contents_of d2 n = contents_of (sl_disk l) n) as Hc3 by (intros n; by rewrite Hc2, Hc1).
    specialize (HQ d2 Hd2 Hc3 Hfds2). destruct res as [e|[m off]].
    + subst r. apply wp_ret. exact HQ.
    + destruct Hm as [-> Hv]. rewrite (proj2 (Z.ltb_ge _ _)) by done. apply wp_ret. exact HQ.
  - subst r. specialize (HQ (sl_disk l) Hd (fun n => eq_refl) eq_refl).
    assert (names (sl_disk l) !! name = None) as Hn.
    { destruct (names (sl_disk l) !! name) eqn:Hn; [|done].
      destruct (proj2 (contents_name (sl_disk l) name Hd)); [by rewrite Hn|congruence]. }
    apply wp_bind, wp_get. rewrite Hn. cbn [O_CREAT O_RDWR negb]. apply wp_ret, wp_ret.
    destruct l. exact HQ.
Qed.

Lemma meta_read_back m :
  encodable opts m -> format_version m <= 1 -> meta_read (Some (meta_bytes m)) (Some m).
Proof.
  intros Hm Hv. destruct (serializeProto_ok opts algorithms m algorithm_known) as [r Hr].
  exists (inr (m, Z.of_nat (length r))). unfold meta_bytes. rewrite Hr. split; [|done].
  pose proof (readProto_record opts algorithms m [] r [] Hr Hm) as Hread. rewrite app_nil_r in Hread.
  rewrite app_nil_l in Hread. apply Hread.
  pose proof (serializeProto_length opts algorithms m r Hr Hm). lia.
Qed.
End Recovery.
