(* ===== verification/SegmentedLogCrash.v ===== *)
(** * What a killed process leaves behind

    The operations of the queue run one after another; when the process is killed
    only some of them have run. This file says what the directory is like then:
    the files of a log whose last entries, those that were not yet written, are
    missing. Each operation that is queued keeps that so. *)

From Stdlib Require Import ZArith Lia Ascii String.
From stdpp Require Import base functions gmap strings list fin_maps sorting.
From S2P Require Import Prelude OrderedMap StringUtil Stream SnapshotFile Log Disk DiskSpec Checksum Printf SegmentedLog SegmentedLogFormat SegmentedLogSpec SegmentedLogSync SegmentedLogLoad.
Local Open Scope Z_scope.
Local Open Scope list_scope.

Section Crash.
Context (opts : SegOptions) (algorithms : bytes -> option (bytes -> bytes)) `{!AlgorithmLaws algorithms}.
Context `{ProtoBuf LogEntry} `{ProtoBufText LogEntry} `{!ProtoBufLaws LogEntry} `{!ProtoBufTextLaws LogEntry}.
Context `{ProtoBuf SegMetadata} `{ProtoBufText SegMetadata} `{!ProtoBufLaws SegMetadata} `{!ProtoBufTextLaws SegMetadata}.

Abbreviation sfc := (sf_content opts algorithms).
Abbreviation fok := (sf_ok opts algorithms).
Abbreviation pair_of := (sf_pair opts algorithms).

(** ** The segment files of the directory *)

Record files_on (d : Disk) (fs : list seg_file) (c : Z) : Prop := {
  fo_contents f : f ∈ fs -> contents_of d (sf_name f) = Some (sfc f);
  fo_names : NoDup (map sf_name fs);
  fo_only n : n ∉ map sf_name fs -> is_Some (contents_of d n) -> scan_closed n = None /\ scan_open n = None;
  fo_ids : ids_upto fs c
}.

Lemma files_on_perm d fs fs' c : fs ≡ₚ fs' -> files_on d fs c -> files_on d fs' c.
Proof.
  intros Hp [H1' H2' H3' H4']. split.
  - intros f. rewrite <-Hp. apply H1'.
  - by rewrite <-Hp.
  - intros n. rewrite <-Hp. apply H3'.
  - intros f id. rewrite <-Hp. apply H4'.
Qed.

(** A file is written to. *)
Lemma files_on_write d d' f f' fs c :
  (forall n, contents_of d' n = <[sf_name f := Some (sfc f')]> (contents_of d) n) ->
  sf_name f' = sf_name f -> sf_open f' = sf_open f -> files_on d (f :: fs) c -> files_on d' (f' :: fs) c.
Proof.
  intros Hc Hname Hopen [H1' H2' H3' H4']. cbn [map] in *. apply NoDup_cons in H2' as [Hnew Hnd]. split.
  - intros g [->|Hg]%elem_of_cons; [by rewrite Hc, Hname, fn_lookup_insert|].
    rewrite Hc, fn_lookup_insert_ne; [apply H1'; set_solver|]. intros Heq. apply Hnew. rewrite Heq. by apply list_elem_of_fmap_2.
  - cbn [map]. rewrite Hname. by apply NoDup_cons.
  - cbn [map]. rewrite Hname. intros n Hn Hs. apply H3'; [done|]. rewrite Hc, fn_lookup_insert_ne in Hs; [done|]. set_solver.
  - intros g id [->|Hg]%elem_of_cons Hid; [|by apply (H4' g); [set_solver|]]. apply (H4' f); [set_solver|].
    unfold sf_id in *. by rewrite <-Hname, <-Hopen.
Qed.

(** A file becomes a closed one. *)
Lemma files_on_rename d d' f f' fs c :
  (forall n, contents_of d' n = <[sf_name f' := Some (sfc f')]> (<[sf_name f := None]> (contents_of d)) n) ->
  sf_id f' = None -> sf_name f' ∉ map sf_name fs -> files_on d (f :: fs) c -> files_on d' (f' :: fs) c.
Proof.
  intros Hc Hid Hfree [H1' H2' H3' H4']. cbn [map] in *. apply NoDup_cons in H2' as [Hnew Hnd]. split.
  - intros g [->|Hg]%elem_of_cons; [by rewrite Hc, fn_lookup_insert|].
    rewrite Hc, !fn_lookup_insert_ne; [apply H1'; set_solver|..]; intros Heq; [apply Hnew|apply Hfree];
      rewrite Heq; by apply list_elem_of_fmap_2.
  - cbn [map]. by apply NoDup_cons.
  - cbn [map]. intros n Hn Hs. rewrite Hc, fn_lookup_insert_ne in Hs by set_solver.
    destruct (decide (n = sf_name f)) as [->|]; [rewrite fn_lookup_insert in Hs; by destruct Hs|].
    rewrite fn_lookup_insert_ne in Hs by done. apply H3'; [set_solver|done].
  - intros g id [->|Hg]%elem_of_cons Hg'; [congruence|]. by apply (H4' g); [set_solver|].
Qed.

(** A file is removed. *)
Lemma files_on_remove d d' f fs c :
  (forall n, contents_of d' n = <[sf_name f := None]> (contents_of d) n) ->
  files_on d (f :: fs) c -> files_on d' fs c.
Proof.
  intros Hc [H1' H2' H3' H4']. cbn [map] in *. apply NoDup_cons in H2' as [Hnew Hnd]. split.
  - intros g Hg. rewrite Hc, fn_lookup_insert_ne; [apply H1'; set_solver|]. intros Heq. apply Hnew.
    rewrite Heq. by apply list_elem_of_fmap_2.
  - done.
  - intros n Hn Hs. rewrite Hc in Hs. destruct (decide (n = sf_name f)) as [->|]; [rewrite fn_lookup_insert in Hs; by destruct Hs|].
    rewrite fn_lookup_insert_ne in Hs by done. apply H3'; [set_solver|done].
  - intros g id Hg. apply H4'. set_solver.
Qed.

(** A file is added. *)
Lemma files_on_add d d' f fs c :
  (forall n, contents_of d' n = <[sf_name f := Some (sfc f)]> (contents_of d) n) ->
  sf_name f ∉ map sf_name fs -> (forall id, sf_id f = Some id -> id <= c) -> files_on d fs c -> files_on d' (f :: fs) c.
Proof.
  intros Hc Hnew Hid [H1' H2' H3' H4']. split.
  - intros g [->|Hg]%elem_of_cons; [by rewrite Hc, fn_lookup_insert|].
    rewrite Hc, fn_lookup_insert_ne; [by apply H1'|]. intros Heq. apply Hnew. rewrite Heq. by apply list_elem_of_fmap_2.
  - cbn [map]. by apply NoDup_cons.
  - cbn [map]. intros n Hn Hs. apply H3'; [set_solver|]. rewrite Hc, fn_lookup_insert_ne in Hs; [done|]. set_solver.
  - intros g id [->|Hg]%elem_of_cons; [apply Hid|by apply H4'].
Qed.

(** Another file, that is no segment, is written. *)
Lemma files_on_other d d' name x fs c :
  (forall n, contents_of d' n = <[name := x]> (contents_of d) n) ->
  name ∉ map sf_name fs -> scan_closed name = None /\ scan_open name = None -> files_on d fs c -> files_on d' fs c.
Proof.
  intros Hc Hnew Hscan [H1' H2' H3' H4']. split; [|done| |done].
  - intros g Hg. rewrite Hc, fn_lookup_insert_ne; [by apply H1'|]. intros ->. apply Hnew. by apply list_elem_of_fmap_2.
  - intros n Hn Hs. destruct (decide (n = name)) as [->|]; [done|]. apply H3'; [done|]. by rewrite Hc, fn_lookup_insert_ne in Hs.
Qed.

Lemma files_on_same d d' fs c : (forall n, contents_of d' n = contents_of d n) -> files_on d fs c -> files_on d' fs c.
Proof. intros Hc [H1' H2' H3' H4']. split; [|done| |done]; [intros f; rewrite Hc; apply H1'|intros n; rewrite Hc; apply H3']. Qed.

Lemma files_on_more d fs c c' : c <= c' -> files_on d fs c -> files_on d fs c'.
Proof. intros Hle [H1' H2' H3' H4']. split; [done..|]. intros f id Hf Hid. pose proof (H4' f id Hf Hid). lia. Qed.

(** ** The log of a directory *)

(** The files [live] hold [es], from the index [a] on; the files [extra] nothing. *)
Record log_files (d : Disk) (c a : Z) (live extra : list seg_file) : Prop := {
  lf_disk : disk_ok d;
  lf_files : files_on d (live ++ extra) c;
  lf_ok : Forall fok (live ++ extra);
  lf_chain : exists b, chain a (map pair_of live) b;
  lf_filled : Forall (fun f => sf_entries f <> []) live;
  lf_empty : Forall (fun f => sf_entries f = []) extra;
  lf_start : 1 <= a
}.

Definition holds_log (d : Disk) (c a : Z) (es : list LogEntry) : Prop :=
  exists live extra, log_files d c a live extra /\ es = concat (map sf_entries live).

Lemma holds_log_same d d' c a es :
  disk_ok d' -> (forall n, contents_of d' n = contents_of d n) -> holds_log d c a es -> holds_log d' c a es.
Proof.
  intros Hd Hc (live & extra & [? Hf ? ? ? ? ?] & Hes). exists live, extra. split; [|done]. split; try done.
  by eapply files_on_same.
Qed.

(** The zeros that follow the entries of a file. *)
Lemma log_files_zeros d d' c a live f f' extra :
  disk_ok d' -> (forall n, contents_of d' n = <[sf_name f := Some (sfc f')]> (contents_of d) n) ->
  sf_name f' = sf_name f -> sf_open f' = sf_open f -> sf_start f' = sf_start f -> sf_entries f' = sf_entries f -> fok f' ->
  log_files d c a (live ++ [f]) extra -> log_files d' c a (live ++ [f']) extra.
Proof.
  intros Hd Hc Hn Ho Hs He Hok' [_ Hfs Hok (b & Hch) Hl Hx Ha]. apply Forall_app in Hl as [Hl Hf].
  assert (forall g, (live ++ [g]) ++ extra ≡ₚ g :: live ++ extra) as Hperm by (intros g; by rewrite <-app_assoc, Permutation_middle).
  split; try done.
  - eapply files_on_perm; [symmetry; apply Hperm|]. eapply (files_on_write d d' f); try done. eapply files_on_perm, Hfs. apply Hperm.
  - rewrite Hperm in *. apply Forall_cons in Hok as [_ Hok]. by constructor.
  - exists b. rewrite !map_app in *. replace (map pair_of [f']) with (map pair_of [f]); [done|].
    cbn. unfold sf_pair, sf_segment, sf_closed_name, sf_bytes, sf_end. by rewrite Hs, He.
  - apply Forall_app. split; [done|]. constructor; [|done]. rewrite He. by inversion Hf.
Qed.

(** A new file without entries. *)
Lemma holds_log_add d d' f c c' a es :
  disk_ok d' -> (forall n, contents_of d' n = <[sf_name f := Some (sfc f)]> (contents_of d) n) ->
  fok f -> sf_entries f = [] -> names d !! sf_name f = None -> c <= c' -> (forall id, sf_id f = Some id -> id <= c') ->
  holds_log d c a es -> holds_log d' c' a es.
Proof.
  intros Hd Hc Hf He Hnone Hle Hid (live & extra & [Hd0 Hfs Hok Hch Hl Hx Ha] & Hes). exists live, (f :: extra). split; [|done].
  assert (live ++ f :: extra ≡ₚ f :: live ++ extra) as Hperm by by rewrite Permutation_middle.
  split; try done.
  - eapply files_on_perm; [symmetry; exact Hperm|]. eapply files_on_add; [exact Hc| |done|by eapply files_on_more].
    intros (g & Heq & Hg)%list_elem_of_fmap. pose proof (fo_contents _ _ _ Hfs g Hg) as Hcg. rewrite <-Heq in Hcg.
    unfold contents_of in Hcg. by rewrite Hnone in Hcg.
  - rewrite Hperm. by constructor.
  - by constructor.
Qed.

Lemma holds_log_other d d' name x c a es :
  disk_ok d' -> (forall n, contents_of d' n = <[name := x]> (contents_of d) n) ->
  (forall f, fok f -> name <> sf_name f) -> scan_closed name = None /\ scan_open name = None ->
  holds_log d c a es -> holds_log d' c a es.
Proof.
  intros Hd Hc Hne Hscan (live & extra & [Hd0 Hfs Hok Hch Hl Hx Ha] & Hes). exists live, extra. split; [|done]. split; try done.
  eapply files_on_other; [exact Hc| |done|done]. intros (g & Heq & Hg)%list_elem_of_fmap.
  rewrite Forall_forall in Hok. by apply (Hne g); [apply Hok|].
Qed.

(** ** The entries that survive *)

Definition live_entries (start a : Z) (es : list LogEntry) : list LogEntry := drop (Z.to_nat (start - a)) es.

Definition is_write (op : Op.t) : bool := match op with Op.WRITE _ _ => true | _ => false end.

(** How many entries the operations of a queue write. *)
Definition writes (l : list Op.t) : nat := length (List.filter is_write l).

Lemma writes_app l l' : writes (l ++ l') = (writes l + writes l')%nat.
Proof. unfold writes. by rewrite List.filter_app, length_app. Qed.

(** Of those since the last [takeSync]. *)
Definition unwritten (l : SegmentedLog) : nat := writes (ops (sl_currentSync l)).

(** All but the last [n]. *)
Definition all_but (n : nat) (es : list LogEntry) : list LogEntry := take (length es - n) es.

Lemma all_but_0 es : all_but 0 es = es.
Proof. unfold all_but. rewrite Nat.sub_0_r. apply firstn_all. Qed.

Lemma all_but_snoc n es e : all_but (S n) (es ++ [e]) = all_but n es.
Proof. unfold all_but. rewrite length_app. cbn. rewrite take_app_le by lia. f_equal. lia. Qed.

Lemma live_snoc start a es e n :
  all_but (S n) (live_entries start a (es ++ [e])) = all_but n (live_entries start a es).
Proof.
  unfold live_entries. destruct (Nat.le_gt_cases (Z.to_nat (start - a)) (length es)) as [Hle|Hgt].
  - rewrite drop_app_le by lia. apply all_but_snoc.
  - rewrite !drop_ge by (rewrite ?length_app; cbn; lia). unfold all_but. by rewrite !take_nil.
Qed.

(** Whatever part [p] of the operations has run, the directory holds the log from
    its start index on, but for the entries that the rest [r] writes. *)
Definition survives (l : SegmentedLog) (out : list Op.t) (a : Z) (es : list LogEntry) : Prop :=
  forall p r d', out ++ ops (sl_currentSync l) = p ++ r -> exec p (sl_disk l) = Ok (tt, d') ->
    exists a' es', holds_log d' (filenameCounter (preparedSegments l)) a' es' /\ a' <= logStartIndex l /\
      forall start, logStartIndex l <= start ->
        live_entries start a' es' = all_but (writes r) (live_entries start a es).

(** Without operations to wait for there is only the disk itself. *)
Lemma survives_now l a es :
  ops (sl_currentSync l) = [] -> holds_log (sl_disk l) (filenameCounter (preparedSegments l)) a es -> a <= logStartIndex l ->
  survives l [] a es.
Proof.
  intros Hops Hd Ha p r d' Hpr Hexec. rewrite Hops in Hpr. destruct p, r; try done. injection Hexec as <-.
  exists a, es. split; [done|]. split; [done|]. intros start _. by rewrite all_but_0.
Qed.

(** The steps that change neither the disk nor the operations. *)
Lemma survives_ext l l' out out' a es :
  out ++ ops (sl_currentSync l) = out' ++ ops (sl_currentSync l') -> sl_disk l' = sl_disk l ->
  filenameCounter (preparedSegments l') = filenameCounter (preparedSegments l) -> logStartIndex l <= logStartIndex l' ->
  survives l out a es -> survives l' out' a es.
Proof.
  intros Hops Hd Hc Hs Hsur p r d'. rewrite <-Hops, Hd, Hc. intros Hpr Hexec.
  destruct (Hsur p r d' Hpr Hexec) as (a' & es' & Hh & Ha & Hl). exists a', es'. split; [done|]. split; [lia|]. intros start Hst. apply Hl. lia.
Qed.

(** More operations in the queue: [d] is the disk before them. *)
Lemma survives_more l l' out ops' d a a' es es' :
  survives l out a es -> exec (out ++ ops (sl_currentSync l)) (sl_disk l) = Ok (tt, d) ->
  ops (sl_currentSync l') = ops (sl_currentSync l) ++ ops' -> sl_disk l' = sl_disk l ->
  filenameCounter (preparedSegments l') = filenameCounter (preparedSegments l) -> logStartIndex l' = logStartIndex l ->
  a' <= logStartIndex l ->
  (forall start n, logStartIndex l <= start ->
    all_but (writes ops' + n) (live_entries start a' es') = all_but n (live_entries start a es)) ->
  (forall op p r d', ops' = op :: p ++ r -> exec (op :: p) d = Ok (tt, d') ->
    writes r = O /\ holds_log d' (filenameCounter (preparedSegments l)) a' es') ->
  survives l' out a' es'.
Proof.
  intros Hsur Hall Hops Hd Hc Hs Ha Hl Hnew p r d2 Hpr Hexec. rewrite Hops, app_assoc in Hpr. rewrite Hc, Hs. rewrite Hd in Hexec.
  apply app_eq_inv in Hpr as [(k & Hp & ->)|(k & -> & Hops')].
  - destruct (Hsur p k d2 Hp Hexec) as (a1 & es1 & Hh1 & Ha1 & Hl1). exists a1, es1. split; [done|]. split; [done|].
    intros start Hst. rewrite Hl1 by done. rewrite writes_app, Nat.add_comm. symmetry. by apply Hl.
  - destruct k as [|op k].
    { rewrite app_nil_r in Hexec. destruct (Hsur _ [] d2 (eq_sym (app_nil_r _)) Hexec) as (a1 & es1 & Hh1 & Ha1 & Hl1).
      exists a1, es1. split; [done|]. split; [done|]. intros start Hst. rewrite Hl1 by done. change (ops' = r) in Hops'. subst r. 
      rewrite <-(Nat.add_0_r (writes ops')). symmetry. by apply Hl. }
    rewrite exec_app in Hexec. unfold bind in Hexec. rewrite Hall in Hexec.
    destruct (Hnew op k r d2 Hops' Hexec) as [Hw Hh]. exists a', es'. split; [done|]. split; [done|].
    intros start _. by rewrite Hw, all_but_0.
Qed.

(** One more. *)
Lemma survives_push l l' out op d d' a a' es es' :
  survives l out a es -> exec (out ++ ops (sl_currentSync l)) (sl_disk l) = Ok (tt, d) -> exec_op op d = Ok (tt, d') ->
  ops (sl_currentSync l') = ops (sl_currentSync l) ++ [op] -> sl_disk l' = sl_disk l ->
  filenameCounter (preparedSegments l') = filenameCounter (preparedSegments l) -> logStartIndex l' = logStartIndex l ->
  holds_log d' (filenameCounter (preparedSegments l)) a' es' -> a' <= logStartIndex l ->
  (forall start n, logStartIndex l <= start ->
    all_but (writes [op] + n) (live_entries start a' es') = all_but n (live_entries start a es)) ->
  survives l' out a' es'.
Proof.
  intros Hsur Hall Hop Hops Hd Hc Hs Hh Ha Hl. apply (survives_more l _ _ [op] d a _ es); try done.
  intros op' p r d2 Hpr Hexec. injection Hpr as <- Hnil. symmetry in Hnil. apply app_eq_nil in Hnil as [-> ->]. split; [done|].
  rewrite exec_cons in Hexec. unfold bind in Hexec. rewrite Hop in Hexec. by injection Hexec as <-.
Qed.

(** The first operations have run. *)
Lemma survives_wait l q out d1 a es :
  survives l (q ++ out) a es -> exec q (sl_disk l) = Ok (tt, d1) -> survives (l <| sl_disk := d1 |>) out a es.
Proof.
  intros Hsur Hq p r d' Hpr Hexec. apply (Hsur (q ++ p) r d').
  - cbn in Hpr. by rewrite <-!app_assoc, Hpr.
  - rewrite exec_app. unfold bind. by rewrite Hq.
Qed.

(** The disk changes under the operations that wait, in a way they do not see. *)
Lemma survives_under l l' out a es (f : Disk -> Disk) d :
  survives l out a es -> exec (out ++ ops (sl_currentSync l)) (sl_disk l) = Ok (tt, d) -> 
  sl_currentSync l' = sl_currentSync l -> sl_disk l' = f (sl_disk l) -> logStartIndex l' = logStartIndex l ->
  (forall p r d', out ++ ops (sl_currentSync l) = p ++ r -> exec p (sl_disk l) = Ok (tt, d') ->
    exec p (f (sl_disk l)) = Ok (tt, f d') /\ forall a' es',
      holds_log d' (filenameCounter (preparedSegments l)) a' es' -> holds_log (f d') (filenameCounter (preparedSegments l')) a' es') ->
  survives l' out a es.
Proof.
  intros Hsur Hall Hops Hd Hs Hf p r d2 Hpr Hexec. rewrite Hops in Hpr. rewrite Hd in Hexec. rewrite Hs.
  pose proof Hall as Hall'. rewrite Hpr, exec_app in Hall'. apply bind_Ok in Hall' as ([] & d1 & Hp & _).
  destruct (Hf p r d1 Hpr Hp) as [Hexec' Hh]. rewrite Hexec' in Hexec. injection Hexec as <-.
  destruct (Hsur p r d1 Hpr Hp) as (a1 & es1 & Hh1 & Hrest). exists a1, es1. split; [by apply Hh|done].
Qed.
End Crash.
