(* ===== verification/SegmentedLogRep.v ===== *)
(** * The segmented log on disk

    The invariant that relates the state in memory of the segmented log to the
    files on disk, as they are once the queued operations have run: the closed
    segments, the open one with the zeros it was allocated with, the segments
    prepared in advance, and the two metadata files. The steps that several
    operations share keep it: preparing a segment, opening a new one, writing the
    metadata. With it the assertions of [checkInvariants] hold. *)

From Stdlib Require Import ZArith Lia Ascii String.
From stdpp Require Import base functions gmap strings list fin_maps sorting.
From S2P Require Import Prelude OrderedMap StringUtil Stream SnapshotFile Log Disk DiskSpec Checksum Printf SegmentedLog SegmentedLogFormat SegmentedLogSpec SegmentedLogSync SegmentedLogLoad SegmentedLogCrash.
Local Open Scope Z_scope.
Local Open Scope list_scope.

Section Rep.
Context (opts : SegOptions) (algorithms : bytes -> option (bytes -> bytes)) `{!AlgorithmLaws algorithms}.
Context `{ProtoBuf LogEntry} `{ProtoBufText LogEntry} `{!ProtoBufLaws LogEntry} `{!ProtoBufTextLaws LogEntry}.
Context `{ProtoBuf SegMetadata} `{ProtoBufText SegMetadata} `{!ProtoBufLaws SegMetadata} `{!ProtoBufTextLaws SegMetadata}.

(** The options a server runs with: the algorithm is one of the library's, and
    a segment is neither empty nor larger than the file system allows. *)
Record options_ok : Prop := {
  algorithm_known : is_Some (algorithms (checksumAlgorithm opts));
  segment_size : header_size <= MAX_SEGMENT_SIZE opts <= 4611686018427387904;
  open_segments : storageOpenSegments opts <= 4611686018427387904
}.
Hypothesis Hopts : options_ok.

Abbreviation img := (image opts algorithms).
Abbreviation plc := (placed opts algorithms).
Abbreviation sfb := (sf_bytes opts algorithms).
Abbreviation sfc := (sf_content opts algorithms).
Abbreviation fok := (sf_ok opts algorithms).
Abbreviation pair_of := (sf_pair opts algorithms).

(** The open segment as it is in memory. *)
Definition open_segment (f : seg_file) : Segment :=
  mkSegment true (sf_start f) (sf_end f) (sfb f) (sf_name f) (plc header_size (sf_entries f)).

Definition open_pair (f : seg_file) : Z * Segment := (sf_start f, open_segment f).

Definition closed_file (f : seg_file) : Prop := fok f /\ sf_open f = false /\ sf_zeros f = O.

(** A file made in advance, and its descriptor. *)
Definition prepared_file (d : Disk) (f : seg_file) (x : string * Z) : Prop :=
  fok f /\ sf_open f = true /\ sf_entries f = [] /\ x.1 = sf_name f /\ handle d x.2 (sf_name f) header_size.

Definition open_file (l : SegmentedLog) (d : Disk) (f : seg_file) : Prop :=
  fok f /\ sf_open f = true /\ handle d (openSegmentFile l) (sf_name f) (sfb f).

(** The number of segments that are prepared or asked for. *)
Definition demand : Z := Z.max (storageOpenSegments opts) 1.

(** The files [closed] hold the indexes from [a] to [b - 1]; [opens] is the open
    file, if there is one, [prepared] the others. [d] is the disk when the
    operations that wait have run. *)
Record rep (l : SegmentedLog) (d : Disk) (a b : Z) (closed opens prepared : list seg_file) : Prop := {
  rep_disk : disk_ok d;
  rep_segments : segmentsByStartIndex l = map pair_of closed ++ map open_pair opens;
  rep_chain : chain a (map pair_of closed) b;
  rep_start : 1 <= a <= logStartIndex l /\ b < u64_max - 1 /\
    match closed ++ opens with [] => b = logStartIndex l | f :: _ => logStartIndex l <= sf_end f + 1 end;
  rep_closed : Forall closed_file closed;
  rep_opens : match opens with [] => openSegmentFile l < 0 | [o] => open_file l d o /\ sf_start o = b | _ => False end;
  rep_prepared : Forall2 (prepared_file d) prepared (openSegments (preparedSegments l));
  rep_contents f : f ∈ closed ++ opens ++ prepared -> contents_of d (sf_name f) = Some (sfc f);
  rep_names : NoDup (map sf_name (closed ++ opens ++ prepared));
  rep_only n : n ∉ map sf_name (closed ++ opens ++ prepared) -> is_Some (contents_of d n) ->
    scan_closed n = None /\ scan_open n = None;
  rep_ids : ids_upto (closed ++ opens ++ prepared) (filenameCounter (preparedSegments l));
  rep_total : totalClosedSegmentBytes l = u64 (bytes_of opts algorithms closed);
  rep_running : ps_exiting (preparedSegments l) = false /\ 0 <= filenameCounter (preparedSegments l) /\
    0 <= demanded (preparedSegments l) /\ demanded (preparedSegments l) + Z.of_nat (length prepared) = demand
}.

(** The entries in the files. *)
Definition rep_entries (closed opens : list seg_file) : list LogEntry := concat (map sf_entries (closed ++ opens)).

(** The metadata on disk: what is in memory, and in the other file something
    older, or nothing that can be read. *)
Record meta_rep (l : SegmentedLog) (d : Disk) : Prop := {
  meta_fields : format_version (sl_metadata l) = 1 /\ entries_start (sl_metadata l) = logStartIndex l /\
    0 <= version (sl_metadata l);
  meta_encodable : encodable opts (sl_metadata l);
  meta_current : contents_of d (metadata_filename (version (sl_metadata l))) = Some (meta_bytes opts algorithms (sl_metadata l));
  meta_other : exists r, meta_read opts algorithms (contents_of d (metadata_filename (version (sl_metadata l) + 1))) r /\
    forall m, r = Some m -> version m < version (sl_metadata l)
}.

(** The names that queued operations use. *)
Definition op_known (c : Z) (op : Op.t) : Prop :=
  Forall (fun n => (exists a b, n = closed_filename a b) \/
                   (exists id, is_u64 id /\ id <= c /\ n = open_filename id)) (op_names op).

(** The operations of earlier [Sync] objects, [out], and of the current one still
    have to run on the disk; afterwards it is [d]. *)
Record pending (l : SegmentedLog) (out : list Op.t) (d : Disk) : Prop := {
  pend_disk : disk_ok (sl_disk l);
  pend_exec : exec (out ++ ops (sl_currentSync l)) (sl_disk l) = Ok (tt, d);
  pend_known : Forall (op_known (filenameCounter (preparedSegments l))) (out ++ ops (sl_currentSync l));
  pend_unopened v : unopened (sl_disk l) (metadata_filename v)
}.

Record inv (l : SegmentedLog) (out : list Op.t) (d : Disk) (a b : Z) (closed opens prepared : list seg_file) : Prop := {
  inv_pending : pending l out d;
  inv_rep : rep l d a b closed opens prepared;
  inv_meta : meta_rep l d;
  inv_survives : survives opts algorithms l out a (rep_entries closed opens)
}.

(** ** Names *)

Lemma file_named f : fok f -> (exists a b, sf_name f = closed_filename a b /\ sf_open f = false) \/
  (exists id, is_u64 id /\ sf_name f = open_filename id /\ sf_id f = Some id).
Proof.
  intros Hf. pose proof (sf_named _ _ _ Hf) as Hn. unfold sf_id. destruct (sf_open f) eqn:Hopen.
  - destruct Hn as (id & Hid & Hn). right. exists id. by rewrite Hn, scan_open_filename.
  - destruct Hn as [Hn _]. left. by eexists _, _.
Qed.

Lemma metadata_not_closed v a b : metadata_filename v <> closed_filename a b.
Proof.
  destruct (closed_not_metadata a b). unfold metadata_filename. by destruct (v mod 2 =? 1); apply not_eq_sym.
Qed.

Lemma metadata_not_open v id : metadata_filename v <> open_filename id.
Proof. unfold metadata_filename. by destruct (v mod 2 =? 1). Qed.

Lemma metadata_not_file v f : fok f -> metadata_filename v <> sf_name f.
Proof.
  intros [(a & b & -> & _)|(id & _ & -> & _)]%file_named; [apply metadata_not_closed|apply metadata_not_open].
Qed.

Lemma metadata_no_scan v : scan_closed (metadata_filename v) = None /\ scan_open (metadata_filename v) = None.
Proof. unfold metadata_filename. by destruct (v mod 2 =? 1). Qed.

Lemma metadata_filename_succ v : metadata_filename v <> metadata_filename (v + 1).
Proof.
  unfold metadata_filename. rewrite <-Zplus_mod_idemp_l.
  destruct (Z.mod_pos_bound v 2 ltac:(lia)) as [H1' H2'].
  assert (v mod 2 = 0 \/ v mod 2 = 1) as [->| ->] by lia; done.
Qed.

Lemma metadata_filename_2 v : metadata_filename (v + 1 + 1) = metadata_filename v.
Proof. unfold metadata_filename. replace (v + 1 + 1) with (v + 1 * 2) by lia. by rewrite Z_mod_plus_full. Qed.

Lemma known_untouched_metadata c ops v : Forall (op_known c) ops -> untouched (metadata_filename v) ops.
Proof.
  intros Hk. eapply Forall_impl; [exact Hk|]. intros op Hop Hin. unfold op_known in Hop.
  rewrite Forall_forall in Hop. destruct (Hop _ Hin) as [(a & b & Heq)|(id & _ & _ & Heq)].
  - by apply metadata_not_closed in Heq.
  - by apply metadata_not_open in Heq.
Qed.

Lemma known_untouched_new c ops id :
  Forall (op_known c) ops -> is_u64 id -> c < id -> untouched (open_filename id) ops.
Proof.
  intros Hk Hid Hc. eapply Forall_impl; [exact Hk|]. intros op Hop Hin. unfold op_known in Hop.
  rewrite Forall_forall in Hop. destruct (Hop _ Hin) as [(a & b & Heq)|(id' & Hid' & Hle & Heq)].
  - symmetry in Heq. by apply closed_not_open in Heq.
  - apply open_filename_inj in Heq; [lia|done|done].
Qed.

Lemma op_known_mono c c' op : c <= c' -> op_known c op -> op_known c' op.
Proof.
  intros Hc Hop. eapply Forall_impl; [exact Hop|]. intros n [Hn|(id & Hid & Hle & Hn)]; [by left|].
  right. exists id. split; [done|]. split; [lia|done].
Qed.

(** ** Making a segment *)

(** A file made in advance. *)
Definition fresh_file (id : Z) : seg_file :=
  mk_seg_file (open_filename id) true 1 [] (Z.to_nat (MAX_SEGMENT_SIZE opts - 1)).

Lemma fresh_content id : sfc (fresh_file id) = SegmentHeader ++ zeros (Z.to_nat (MAX_SEGMENT_SIZE opts - 1)).
Proof. done. Qed.

Lemma fresh_ok id : is_u64 id -> fok (fresh_file id).
Proof.
  intros Hid. pose proof (segment_size Hopts). unfold header_size in *. split; [done|done|done|constructor| |by exists id].
  - rewrite fresh_content, length_app. unfold zeros, max_file. rewrite length_replicate. cbn [length SegmentHeader]. lia.
Qed.

Lemma overwrite_zeros n (c : bytes) : (length c <= n)%nat -> overwrite (zeros n) 0 c = c ++ zeros (n - length c).
Proof.
  intros Hn. unfold overwrite, zeros. rewrite length_replicate, drop_replicate. simpl. done.
Qed.

Definition prepared_on (d : Disk) (id : Z) : Disk := add_file d (open_filename id) (sfc (fresh_file id)) header_size.

Lemma prepareNewSegment_exact id l :
  disk_ok (sl_disk l) -> names (sl_disk l) !! open_filename id = None ->
  prepareNewSegment opts id l =
    Ok ((open_filename id, next_id (sl_disk l) + 1), l <| sl_disk := prepared_on (sl_disk l) id |>).
Proof.
  intros Hd Hn. pose proof (segment_size Hopts) as Hsize. set (d := sl_disk l) in *.
  pose proof (ids_pos _ Hd) as Hpos. unfold dir_fd, header_size in *.
  unfold prepareNewSegment, on_disk, zoom. fold d. unfold bind at 1.
  rewrite openFile_new by (done || apply open_relative). unfold allocate, downCast_off_t.
  rewrite (proj2 (Z.leb_le _ _)) by (unfold TimePoint_max; lia).
  unfold the_file, write, fsync, bind, lift, get, ret, modify, add_file, set_field. cbn.
  rewrite !lookup_insert_eq. cbn. rewrite !lookup_insert_eq. cbn.
  rewrite bool_decide_true by (rewrite lookup_insert_eq; by eexists). rewrite !orb_true_r. cbn.
  change (Z.to_nat 0) with 0%nat. rewrite Nat.sub_0_r, overwrite_zeros by (simpl; lia).
  do 2 f_equal. unfold prepared_on, add_file. rewrite !insert_insert_eq, fresh_content. cbn [length SegmentHeader].
  replace (Z.to_nat (MAX_SEGMENT_SIZE opts) - 1)%nat with (Z.to_nat (MAX_SEGMENT_SIZE opts - 1)) by lia. done.
Qed.

(** ** Files of the invariant *)

Lemma rep_file_ok l d a b closed opens prepared f :
  rep l d a b closed opens prepared -> f ∈ closed ++ opens ++ prepared -> fok f.
Proof.
  intros Hr. rewrite !elem_of_app. intros [Hf|[Hf|Hf]].
  - pose proof (rep_closed _ _ _ _ _ _ _ Hr) as Hc. rewrite Forall_forall in Hc. by destruct (Hc _ Hf).
  - pose proof (rep_opens _ _ _ _ _ _ _ Hr) as Ho. destruct opens as [|o [|]]; [by apply elem_of_nil in Hf| |done].
    apply list_elem_of_singleton in Hf as ->. by destruct Ho as [[] _].
  - pose proof (rep_prepared _ _ _ _ _ _ _ Hr) as Hp. apply list_elem_of_lookup in Hf as [j Hj].
    destruct (Forall2_lookup_l _ _ _ _ _ Hp Hj) as (x & _ & Hx). by destruct Hx.
Qed.

Lemma rep_name_free l d a b closed opens prepared id :
  rep l d a b closed opens prepared -> is_u64 id -> filenameCounter (preparedSegments l) < id ->
  (open_filename id ∉ map sf_name (closed ++ opens ++ prepared)) /\ names d !! open_filename id = None.
Proof.
  intros Hr Hid Hlt.
  assert (open_filename id ∉ map sf_name (closed ++ opens ++ prepared)) as Hnot.
  { intros Hin. apply list_elem_of_fmap in Hin as (f & Heq & Hf). pose proof (rep_file_ok _ _ _ _ _ _ _ _ Hr Hf) as Hok.
    destruct (file_named f Hok) as [(x & y & Hn & _)|(j & Hj & Hn & Hs)].
    - rewrite Hn in Heq. by destruct (closed_not_open x y id).
    - pose proof (rep_ids _ _ _ _ _ _ _ Hr f j Hf Hs). rewrite Hn in Heq.
      apply open_filename_inj in Heq; [lia|done|done]. }
  split; [done|]. destruct (names d !! open_filename id) as [i|] eqn:Hn; [|done].
  destruct (rep_only _ _ _ _ _ _ _ Hr _ Hnot) as [_ Hscan].
  - apply contents_name; [by destruct Hr|]. rewrite Hn. by eexists.
  - by rewrite scan_open_filename in Hscan.
Qed.

(** The disk of the invariant holds the log: [full] are the open files with
    entries, [empty] those without. *)
Lemma rep_log_files l d a b closed full empty prepared :
  rep l d a b closed (full ++ empty) prepared ->
  Forall (fun f => sf_entries f <> []) full -> Forall (fun f => sf_entries f = []) empty ->
  log_files opts algorithms d (filenameCounter (preparedSegments l)) a (closed ++ full) (empty ++ prepared).
Proof.
  intros Hr Hfull Hempty. pose proof (fun f => rep_file_ok _ _ _ _ _ _ _ f Hr) as Hfok.
  assert ((closed ++ full) ++ empty ++ prepared = closed ++ (full ++ empty) ++ prepared) as Heq by by rewrite <-!app_assoc.
  assert (files_on opts algorithms d (closed ++ (full ++ empty) ++ prepared) (filenameCounter (preparedSegments l))) as Hfiles by by destruct Hr.
  destruct Hr as [Hd Hsegs Hchain (Ha & Hb & Hfirst) Hclosed Hopens Hprep _ _ _ _ _ _].
  split; rewrite ?Heq; try done; [apply Forall_forall; intros f; apply Hfok| | | |lia].
  - destruct full as [|o full]; [rewrite app_nil_r; by exists b|]. destruct full; [|done]. destruct empty; [|done].
    destruct Hopens as [(Ho & _) Hob]. inversion Hfull as [|? ? Hne]; subst.
    exists (sf_end o + 1). rewrite map_app. apply chain_app. exists (sf_start o). split; [done|]. cbn.
    split_and!; [by apply sf_segment_ok|done| |done]. unfold sf_end. destruct (sf_entries o); [done|]. cbn. lia.
  - apply Forall_app. split; [|done]. apply (Forall_impl _ _ _ Hclosed). intros f (Hf & Hc & _).
    pose proof (sf_named _ _ _ Hf) as Hn. rewrite Hc in Hn. by destruct Hn.
  - apply Forall_app. split; [done|]. apply Forall_forall. intros f [j Hj]%list_elem_of_lookup.
    by destruct (Forall2_lookup_l _ _ _ _ _ Hprep Hj) as (x & _ & _ & _ & Hx & _).
Qed.

Lemma rep_holds l d a b closed opens prepared :
  rep l d a b closed opens prepared -> holds_log opts algorithms d (filenameCounter (preparedSegments l)) a (rep_entries closed opens).
Proof.
  intros Hr. pose proof (rep_opens _ _ _ _ _ _ _ Hr) as Hopens. unfold rep_entries. destruct opens as [|o [|]]; [| |done].
  - exists (closed ++ []), ([] ++ prepared). split; [|by rewrite !app_nil_r]. by apply (rep_log_files l d a b closed [] [] prepared).
  - destruct (sf_entries o) as [|e es] eqn:Hes.
    + exists (closed ++ []), ([o] ++ prepared). split; [apply (rep_log_files l d a b closed [] [o] prepared); [exact Hr|done|by constructor]|].
      rewrite !map_app, !concat_app. cbn. by rewrite Hes, !app_nil_r.
    + exists (closed ++ [o]), ([] ++ prepared). split; [|done]. apply (rep_log_files l d a b closed [o] [] prepared); [done| |done].
      constructor; [by rewrite Hes|done].
Qed.

(** A descriptor of the queue's end is one of the disk, unless it is closed. *)
Lemma pending_next l out d : pending l out d -> next_id d = next_id (sl_disk l).
Proof. intros Hp. by eapply exec_next, pend_exec. Qed.

Lemma prepared_on_spec d id :
  disk_ok d -> names d !! open_filename id = None ->
  disk_ok (prepared_on d id) /\
  (forall n, contents_of (prepared_on d id) n = <[open_filename id := Some (sfc (fresh_file id))]> (contents_of d) n) /\
  handle (prepared_on d id) (next_id d + 1) (open_filename id) header_size /\
  handles_kept (next_id d + 1) [] d (prepared_on d id).
Proof. intros Hd Hn. by apply add_file_spec. Qed.

Lemma prepared_kept d id name fd p :
  disk_ok d -> names d !! open_filename id = None -> handle d fd name p -> handle (prepared_on d id) fd name p.
Proof.
  intros Hd Hn Hh. destruct (prepared_on_spec d id Hd Hn) as (_ & _ & _ & (_ & _ & Hk)). apply Hk; [|by apply not_elem_of_nil|done].
  pose proof (handle_fresh _ _ _ _ Hd Hh). lia.
Qed.

(** The state after a segment was prepared. *)
Definition with_prepared (l : SegmentedLog) : SegmentedLog :=
  let p := preparedSegments l in
  let id := filenameCounter p + 1 in
  (l <| sl_disk := prepared_on (sl_disk l) id |>) <| preparedSegments :=
    mkPreparedSegments (ps_exiting p) (demanded p - 1) id
      (openSegments p ++ [(open_filename id, next_id (sl_disk l) + 1)]) |>.

Lemma with_prepared_rep l d a b closed opens prepared :
  next_id d = next_id (sl_disk l) -> 0 < demanded (preparedSegments l) ->
  filenameCounter (preparedSegments l) < u64_max - 1 ->
  rep l d a b closed opens prepared ->
  let id := filenameCounter (preparedSegments l) + 1 in
  rep (with_prepared l) (prepared_on d id) a b closed opens (prepared ++ [fresh_file id]).
Proof.
  intros Hnext Hdem Hmax Hr id. pose proof (rep_running _ _ _ _ _ _ _ Hr) as (Hexit & Hc0 & Hdem0 & Hcount).
  assert (is_u64 id) as Hid by (unfold is_u64, u64_max in *; lia).
  destruct (rep_name_free _ _ _ _ _ _ _ id Hr Hid ltac:(lia)) as [Hnew Hnone].
  pose proof (rep_disk _ _ _ _ _ _ _ Hr) as Hd.
  destruct (prepared_on_spec d id Hd Hnone) as (Hd' & Hcont & Hh & _).
  assert (forall n, n <> open_filename id -> contents_of (prepared_on d id) n = contents_of d n) as Hsame.
  { intros n Hn. by rewrite Hcont, fn_lookup_insert_ne by done. }
  destruct Hr as [_ Hsegs Hchain Hstart Hclosed Hopens Hprep Hconts Hnames Honly Hids Htotal _].
  assert (closed ++ opens ++ prepared ++ [fresh_file id] = (closed ++ opens ++ prepared) ++ [fresh_file id]) as Hall
    by by rewrite !app_assoc.
  split; try done; rewrite ?Hall.
  - destruct opens as [|o [|]]; [done| |done]. destruct Hopens as [(? & ? & Ho) Hb]. split; [|done].
    split; [done|]. split; [done|]. by apply prepared_kept.
  - cbn. rewrite <-Hnext. apply Forall2_app; [|constructor; [|constructor]].
    + eapply Forall2_impl; [exact Hprep|]. intros f x (H1' & H2' & H3' & H4' & H5').
      repeat (split; [done|]). by apply prepared_kept.
    + split; [by apply fresh_ok|]. split; [done|]. split; [done|]. split; [done|]. exact Hh.
  - intros f [Hf|Hf]%elem_of_app.
    + rewrite Hsame; [by apply Hconts|]. intros Heq. apply Hnew. rewrite <-Heq. by apply list_elem_of_fmap_2.
    + apply list_elem_of_singleton in Hf as ->. cbn. by rewrite Hcont, fn_lookup_insert.
  - rewrite map_app. apply NoDup_app. split; [done|]. split; [|apply NoDup_singleton].
    intros n Hn Hin. apply list_elem_of_singleton in Hin as ->. by apply Hnew.
  - intros n Hn Hs. rewrite map_app, not_elem_of_app in Hn. destruct Hn as [Hn Hne].
    apply Honly; [done|]. rewrite <-Hsame; [done|]. intros ->. by apply Hne, list_elem_of_singleton.
  - intros f j [Hf|Hf]%elem_of_app Hj; cbn.
    + pose proof (Hids f j Hf Hj). lia.
    + apply list_elem_of_singleton in Hf as ->. unfold sf_id in Hj. cbn in Hj.
      rewrite scan_open_filename in Hj by done. injection Hj as <-. unfold id. lia.
  - cbn. rewrite length_app. simpl. split; [done|]. lia.
Qed.

Lemma meta_rep_same l l' d d' :
  sl_metadata l' = sl_metadata l -> logStartIndex l' = logStartIndex l ->
  (forall v, contents_of d' (metadata_filename v) = contents_of d (metadata_filename v)) ->
  meta_rep l d -> meta_rep l' d'.
Proof. intros Hm Hs Hc [? ? ? ?]. by split; rewrite ?Hm, ?Hs, ?Hc. Qed.

Lemma with_prepared_inv l out d a b closed opens prepared :
  0 < demanded (preparedSegments l) -> filenameCounter (preparedSegments l) < u64_max - 1 ->
  inv l out d a b closed opens prepared ->
  let id := filenameCounter (preparedSegments l) + 1 in
  inv (with_prepared l) out (prepared_on d id) a b closed opens (prepared ++ [fresh_file id]).
Proof.
  intros Hdem Hmax [Hp Hr Hm Hsur] id. pose proof (rep_running _ _ _ _ _ _ _ Hr) as (_ & Hc0 & _).
  assert (is_u64 id) as Hid by (unfold is_u64, u64_max in *; lia).
  destruct (rep_name_free _ _ _ _ _ _ _ id Hr Hid ltac:(lia)) as [Hnew Hnone].
  pose proof (pending_next _ _ _ Hp) as Hnext. destruct Hp as [Hd0 Hexec Hknown Hun].
  assert (untouched (open_filename id) (out ++ ops (sl_currentSync l))) as Huntouched
    by (eapply known_untouched_new; [done|done|lia]).
  assert (names (sl_disk l) !! open_filename id = None) as Hnone0 by by rewrite <-(exec_names _ _ _ _ Huntouched Hexec).
  destruct (prepared_on_spec _ id Hd0 Hnone0) as (Hd0' & _ & Hh0 & Hk0). split.
  - split; cbn.
    + done.
    + by apply exec_add_file.
    + eapply Forall_impl; [exact Hknown|]. intros op. apply op_known_mono. lia.
    + intros v. eapply unopened_kept; [done|exact Hh0|apply not_eq_sym, metadata_not_open|apply not_elem_of_nil|done|apply Hun].
  - by apply with_prepared_rep.
  - apply (meta_rep_same l _ d); [done|done| |done]. intros v. pose proof (rep_disk _ _ _ _ _ _ _ Hr) as Hd.
    destruct (prepared_on_spec d id Hd Hnone) as (_ & Hcont & _ & _). rewrite Hcont, fn_lookup_insert_ne; [done|].
    apply not_eq_sym, metadata_not_open.
  - apply (survives_under opts algorithms l _ _ _ _ (fun d => prepared_on d id) d); try done. intros p r dp Hpr Hp.
    rewrite Hpr in Huntouched. apply untouched_app in Huntouched as [Hup _]. split; [by apply exec_add_file|].
    intros a' es'. assert (names dp !! open_filename id = None) as Hnonep by by rewrite (exec_names _ _ _ _ Hup Hp).
    destruct (exec_ok _ _ _ Hd0 Hp) as [Hdp _]. destruct (prepared_on_spec dp id Hdp Hnonep) as (Hdp' & Hcp & _).
    apply (holds_log_add opts algorithms dp _ (fresh_file id)); try done; [by apply fresh_ok|cbn; lia|].
    intros j Hj. unfold sf_id in Hj. cbn in Hj. rewrite scan_open_filename in Hj by done. injection Hj as <-. cbn. lia.
Qed.

(** The preparer thread's turn. *)
Lemma segmentPreparer_exact l out d a b closed opens prepared :
  0 < demanded (preparedSegments l) -> filenameCounter (preparedSegments l) < u64_max - 1 ->
  inv l out d a b closed opens prepared ->
  segmentPreparer_step opts l = Ok (tt, with_prepared l).
Proof.
  intros Hdem Hmax [Hp Hr Hm _]. pose proof (rep_running _ _ _ _ _ _ _ Hr) as (Hexit & Hc0 & _).
  set (id := filenameCounter (preparedSegments l) + 1).
  assert (is_u64 id) as Hid by (unfold id, is_u64, u64_max in *; lia).
  destruct (rep_name_free _ _ _ _ _ _ _ id Hr Hid ltac:(lia)) as [Hnew Hnone]. destruct Hp as [Hd0 Hexec Hknown Hun].
  assert (untouched (open_filename id) (out ++ ops (sl_currentSync l))) as Huntouched
    by (eapply known_untouched_new; [done|done|lia]).
  assert (names (sl_disk l) !! open_filename id = None) as Hnone0 by by rewrite <-(exec_names _ _ _ _ Huntouched Hexec).
  unfold segmentPreparer_step. unfold bind at 1, on_prepared, zoom, waitForDemand, bind at 1, get.
  rewrite Hexit. rewrite (proj2 (Z.ltb_lt _ _)) by done. unfold bind at 1, put, ret.
  rewrite u64_small by done. unfold bind at 1. fold id.
  rewrite prepareNewSegment_exact by done. reflexivity.
Qed.

(** ** Opening a segment *)

(** The prepared file [f] becomes the open segment at index [b]. *)
Definition opened_at (b : Z) (f : seg_file) : seg_file := mk_seg_file (sf_name f) true b [] (sf_zeros f).

Lemma opened_at_ok b f : 1 <= b < u64_max - 1 -> fok f -> sf_open f = true -> sf_entries f = [] -> fok (opened_at b f).
Proof.
  intros Hb [H1' H2' H3' H4' H5' H6'] Hopen Hes. rewrite Hopen in H6'.
  unfold sf_content, sf_image in H5'. rewrite Hes in H5'.
  split; unfold sf_end; cbn; [lia|lia|done|constructor|exact H5'|done].
Qed.

(** The state after the first prepared file was taken for the open segment. *)
Definition with_opened (l : SegmentedLog) (name : string) (fd : Z) (rest : list (string * Z)) (b : Z) : SegmentedLog :=
  ((l <| preparedSegments := ((preparedSegments l) <| openSegments := rest |>)
        <| demanded := u64 (demanded (preparedSegments l) + 1) |> |>)
     <| openSegmentFile := fd |>)
     <| segmentsByStartIndex := segmentsByStartIndex l ++
          [(b, mkSegment true b (b - 1) header_size name [])] |>.

Lemma with_opened_inv l out d a b closed f prepared name fd rest :
  openSegments (preparedSegments l) = (name, fd) :: rest ->
  inv l out d a b closed [] (f :: prepared) ->
  inv (with_opened l name fd rest b) out d a b closed [opened_at b f] prepared.
Proof.
  intros Hopen [[Hd0 Hexec Hknown Hun] Hr Hm Hsur]. split; [by split| | |].
  2: { by destruct Hm. }
  2: { unfold rep_entries in *. rewrite map_app, concat_app. cbn. apply (survives_ext opts algorithms l _ out); try done.
       by rewrite app_nil_r in *. }
  destruct Hr as [Hd Hsegs Hchain Hstart Hclosed Hopens Hprep Hconts Hnames Honly Hids Htotal Hrun].
  rewrite Hopen in Hprep. inversion Hprep as [|f' x' fs xs Hf Hrest]; subst.
  destruct Hf as (Hok & Hfo & Hes & Hname & Hh). cbn in Hname, Hh. subst name.
  destruct Hstart as (Ha & Hb & Hfirst). pose proof (chain_le _ _ _ Hchain) as Hab.
  assert (fok (opened_at b f)) as Hok' by (apply opened_at_ok; [lia|done..]).
  assert (sfc (opened_at b f) = sfc f) as Hsame by (unfold sf_content, sf_image; cbn; by rewrite Hes).
  assert (map sf_name (closed ++ [opened_at b f] ++ prepared) = map sf_name (closed ++ [] ++ f :: prepared)) as Hnm
    by by rewrite !map_app.
  split; rewrite ?Hnm; try done.
  - cbn. rewrite Hsegs. cbn. rewrite app_nil_r. unfold with_opened, open_pair, open_segment, sf_end. cbn. by rewrite Z.add_0_r.
  - split; [done|]. split; [done|]. destruct closed as [|g closed]; [|exact Hfirst].
    cbn in Hfirst |- *. unfold sf_end. cbn. lia.
  - intros g. rewrite !elem_of_app, list_elem_of_singleton. intros [Hg|[->|Hg]].
    + apply Hconts. set_solver.
    + rewrite Hsame. cbn. apply Hconts. set_solver.
    + apply Hconts. set_solver.
  - intros g j. rewrite !elem_of_app, list_elem_of_singleton. intros Hg Hj. cbn.
    destruct Hg as [Hg|[->|Hg]]; [apply (Hids g); [set_solver|done]| |apply (Hids g); [set_solver|done]].
    apply (Hids f); [set_solver|]. unfold sf_id in *. by rewrite Hfo.
  - cbn. cbn [length] in Hrun. pose proof (open_segments Hopts). unfold demand in *.
    destruct Hrun as (? & ? & ? & ?). rewrite u64_small by (unfold is_u64; lia). split; [done|]. lia.
Qed.

Definition counter (l : SegmentedLog) : Z := filenameCounter (preparedSegments l).

(** What opening a segment leaves alone. *)
Record kept_fields (l l' : SegmentedLog) : Prop := {
  kept_start : logStartIndex l' = logStartIndex l;
  kept_metadata : sl_metadata l' = sl_metadata l;
  kept_log_metadata : log_metadata l' = log_metadata l;
  kept_counter : counter l' <= counter l + 1
}.

Lemma closed_last l d a b closed prepared :
  rep l d a b closed [] prepared ->
  u64 (SegmentedLog_getLastLogIndex l + 1) = b /\
  match om_last (segmentsByStartIndex l) with None => true | Some (_, s) => negb (isOpen s) end = true.
Proof.
  intros [_ Hsegs Hchain (Ha & Hb & Hfirst) Hclosed _ _ _ _ _ _ _ _]. cbn in Hsegs. rewrite app_nil_r in *.
  unfold SegmentedLog_getLastLogIndex. rewrite Hsegs. pose proof (chain_le _ _ _ Hchain) as Hab.
  destruct closed as [|f closed _] using rev_ind.
  - cbn in *. rewrite (u64_small (_ - 1)) by (unfold is_u64, u64_max in *; lia).
    rewrite u64_small by (unfold is_u64, u64_max in *; lia). split; [lia|done].
  - rewrite map_app. cbn [map]. rewrite om_last_app. cbn. rewrite map_app in Hchain.
    apply chain_app in Hchain as (c & _ & (_ & _ & _ & Hend)). cbn in Hend.
    rewrite u64_small by (unfold is_u64, u64_max in *; lia). done.
Qed.

(** Taking the first prepared segment. *)
Lemma take_prepared l out d a b closed f prepared name fd rest :
  openSegments (preparedSegments l) = (name, fd) :: rest ->
  inv l out d a b closed [] (f :: prepared) ->
  on_prepared takeOpenSegment l = Ok ((name, fd),
    l <| preparedSegments := ((preparedSegments l) <| openSegments := rest |>)
      <| demanded := u64 (demanded (preparedSegments l) + 1) |> |>).
Proof.
  intros Hopen [_ Hr _ _]. pose proof (rep_running _ _ _ _ _ _ _ Hr) as (Hexit & _).
  unfold on_prepared, zoom, takeOpenSegment, bind, get. rewrite Hexit, Hopen. done.
Qed.

Lemma openNewSegment_inv l out d a b closed prepared :
  inv l out d a b closed [] prepared -> counter l < u64_max - 1 ->
  exists l' d' o prepared', openNewSegment opts l = Ok (tt, l') /\
    inv l' out d' a b closed [o] prepared' /\ sf_entries o = [] /\ kept_fields l l' /\
    sl_currentSync l' = sl_currentSync l.
Proof.
  intros Hinv Hmax. pose proof (inv_rep _ _ _ _ _ _ _ _ Hinv) as Hr.
  destruct (closed_last _ _ _ _ _ _ Hr) as [Hb Hclosed]. pose proof (rep_running _ _ _ _ _ _ _ Hr) as (Hexit & Hc0 & Hdem0 & Hdem).
  pose proof (rep_opens _ _ _ _ _ _ _ Hr) as Hneg. cbn in Hneg.
  pose proof (rep_start _ _ _ _ _ _ _ Hr) as (Ha & Hb' & _). pose proof (chain_le _ _ _ (rep_chain _ _ _ _ _ _ _ Hr)) as Hab.
  assert (forall l1 d1 f prepared1 name fd rest,
    inv l1 out d1 a b closed [] (f :: prepared1) -> openSegments (preparedSegments l1) = (name, fd) :: rest ->
    segmentsByStartIndex l1 = segmentsByStartIndex l -> waitForOpenSegment opts l = on_prepared takeOpenSegment l1 ->
    openNewSegment opts l = Ok (tt, with_opened l1 name fd rest b) /\
    inv (with_opened l1 name fd rest b) out d1 a b closed [opened_at b f] prepared1) as Htake.
  { intros l1 d1 f prepared1 name fd rest Hinv1 Hopen1 Hsegs1 Hwait. split; [|by apply with_opened_inv].
    unfold openNewSegment, bind at 1, get. unfold bind at 1, assert_. rewrite (proj2 (Z.ltb_lt _ _)) by done.
    unfold ret at 1. unfold bind at 1. rewrite Hclosed. unfold ret at 1. rewrite Hb.
    unfold bind at 1. rewrite Hwait, (take_prepared _ _ _ _ _ _ _ _ _ _ _ Hopen1 Hinv1).
    unfold modify, with_opened. rewrite (u64_small (b - 1)) by (unfold is_u64, u64_max in *; lia).
    do 2 f_equal. cbn. rewrite om_insert_above; [done|]. rewrite Hsegs1.
    rewrite (rep_segments _ _ _ _ _ _ _ Hr). cbn. rewrite app_nil_r. eapply chain_keys, (rep_chain _ _ _ _ _ _ _ Hr). }
  pose proof (rep_prepared _ _ _ _ _ _ _ Hr) as Hprep.
  destruct prepared as [|f prepared].
  - apply Forall2_nil_inv_l in Hprep as Hnil. assert (0 < demanded (preparedSegments l)) as Hpos.
    { cbn [length] in Hdem. unfold demand in Hdem. lia. }
    pose proof (with_prepared_inv _ _ _ _ _ _ _ _ Hpos Hmax Hinv) as Hinv1. cbn [app] in Hinv1.
    edestruct (Htake (with_prepared l)) as [Hrun Hinv2]; [exact Hinv1|cbn; by rewrite Hnil|done| |].
    { unfold waitForOpenSegment, bind at 1, get. rewrite Hexit, Hnil. cbn [negb andb when].
      unfold bind. by rewrite (segmentPreparer_exact _ _ _ _ _ _ _ _ Hpos Hmax Hinv). }
    eexists _, _, _, _. split; [exact Hrun|]. split; [exact Hinv2|]. split; [done|]. split; [|done].
    split; [done|done|done|]. unfold counter. cbn. lia.
  - apply Forall2_cons_inv_l in Hprep as ([name fd] & rest & _ & _ & Hxs).
    edestruct (Htake l) as [Hrun Hinv2]; [exact Hinv|exact Hxs|done| |].
    { unfold waitForOpenSegment, bind at 1, get. rewrite Hexit, Hxs. cbn [negb andb when]. done. }
    eexists _, _, _, _. split; [exact Hrun|]. split; [exact Hinv2|]. split; [done|]. split; [|done].
    split; [done|done|done|]. unfold counter. cbn. lia.
Qed.

(** ** Writing the metadata *)

Lemma rep_ext l l' d a b closed opens prepared :
  segmentsByStartIndex l' = segmentsByStartIndex l -> logStartIndex l' = logStartIndex l ->
  openSegmentFile l' = openSegmentFile l -> preparedSegments l' = preparedSegments l ->
  totalClosedSegmentBytes l' = totalClosedSegmentBytes l ->
  rep l d a b closed opens prepared -> rep l' d a b closed opens prepared.
Proof.
  intros E1 E2 E3 E4 E5 []. unfold open_file in *. split; rewrite ?E1, ?E2, ?E3, ?E4, ?E5; try done.
  unfold open_file. by rewrite E3.
Qed.

(** A file of the invariant is not one of the metadata. *)
Lemma rep_set_metadata l d a b closed opens prepared v c :
  rep l d a b closed opens prepared -> rep l (set_file d (metadata_filename v) c) a b closed opens prepared.
Proof.
  intros Hr. pose proof (rep_disk _ _ _ _ _ _ _ Hr) as Hd.
  destruct (set_file_spec d (metadata_filename v) c Hd) as (Hd' & Hc & Hh & _).
  assert (forall f, f ∈ closed ++ opens ++ prepared ->
    contents_of (set_file d (metadata_filename v) c) (sf_name f) = contents_of d (sf_name f)) as Hsame.
  { intros f Hf. rewrite Hc, fn_lookup_insert_ne; [done|]. eapply metadata_not_file, rep_file_ok; done. }
  destruct Hr as [_ H2' H3' H4' H5' H6' H7' H8' H9' H10' H11' H12' H13']. split; try done.
  - destruct opens as [|o [|]]; [done| |done]. destruct H6' as [(? & ? & ?) ?].
    split; [|done]. split; [done|]. split; [done|]. by apply Hh.
  - eapply Forall2_impl; [exact H7'|]. intros f x (? & ? & ? & ? & ?). repeat (split; [done|]). by apply Hh.
  - intros f Hf. rewrite Hsame by done. by apply H8'.
  - intros n Hn Hs. destruct (decide (n = metadata_filename v)) as [->|Hne]; [apply metadata_no_scan|].
    apply H10'; [done|]. by rewrite Hc, fn_lookup_insert_ne in Hs.
Qed.

Lemma unopened_set_file d name name' c : disk_ok d -> unopened d name -> unopened (set_file d name' c) name.
Proof. intros Hd Hu f p Hh. destruct (set_file_spec d name' c Hd) as (_ & _ & Hk & _). apply (Hu f p). by apply Hk. Qed.

Lemma pending_set_metadata l out d v c m :
  pending l out d ->
  pending ((l <| sl_metadata := m |>) <| sl_disk := set_file (sl_disk l) (metadata_filename v) c |>) out
    (set_file d (metadata_filename v) c).
Proof.
  intros [Hd Hexec Hknown Hun]. destruct (set_file_spec (sl_disk l) (metadata_filename v) c Hd) as (Hd' & _).
  split; cbn; [done| |done|intros w; by apply unopened_set_file].
  apply exec_set_file; [done|by eapply known_untouched_metadata|apply Hun|done].
Qed.

(** The metadata files before a write: nothing as new as what is written. *)
Definition meta_older (l : SegmentedLog) (d : Disk) : Prop :=
  exists r, meta_read opts algorithms (contents_of d (metadata_filename (version (sl_metadata l)))) r /\
    forall m, r = Some m -> version m < version (sl_metadata l) + 1.

Lemma meta_rep_older l d : meta_rep l d -> meta_older l d.
Proof.
  intros [(Hv & _) Henc Hcur _]. exists (Some (sl_metadata l)). rewrite Hcur. split.
  - apply (meta_read_back opts algorithms (algorithm_known Hopts)); [done|lia].
  - intros m [= <-]. lia.
Qed.

(** [updateMetadata] makes the metadata on disk those in memory. *)
Lemma meta_written l d :
  disk_ok d -> meta_older l d -> 0 <= version (sl_metadata l) -> version (sl_metadata l) + 1 < u64_max ->
  encodable opts (next_metadata l) ->
  meta_rep (metadata_written opts algorithms l)
    (set_file d (metadata_filename (version (next_metadata l))) (meta_bytes opts algorithms (next_metadata l))).
Proof.
  intros Hd (r & Hr & Hold) Hv Hmax Henc.
  destruct (set_file_spec d (metadata_filename (version (next_metadata l))) (meta_bytes opts algorithms (next_metadata l)) Hd)
    as (_ & Hc & _).
  assert (version (next_metadata l) = version (sl_metadata l) + 1) as Hver.
  { cbn. rewrite u64_small; [done|]. unfold is_u64, u64_max in *. lia. }
  split; cbn [sl_metadata metadata_written set_field logStartIndex].
  - split; [done|]. split; [done|]. lia.
  - exact Henc.
  - by rewrite Hc, fn_lookup_insert.
  - exists r. rewrite Hc, fn_lookup_insert_ne by apply metadata_filename_succ.
    rewrite Hver, metadata_filename_2. split; [done|]. exact Hold.
Qed.

Lemma survives_set_metadata l out d v c m a es :
  pending l out d -> survives opts algorithms l out a es ->
  survives opts algorithms ((l <| sl_metadata := m |>) <| sl_disk := set_file (sl_disk l) (metadata_filename v) c |>) out a es.
Proof.
  intros [Hd Hexec Hknown Hun] Hsur.
  apply (survives_under opts algorithms l _ _ _ _ (fun d => set_file d (metadata_filename v) c) d); try done. intros p r dp Hpr Hp.
  rewrite Hpr in Hknown. apply Forall_app in Hknown as [Hkp _]. split.
  - apply exec_set_file; [done|by eapply known_untouched_metadata|apply Hun|done].
  - intros a' es'. destruct (exec_ok _ _ _ Hd Hp) as [Hdp _].
    destruct (set_file_spec dp (metadata_filename v) c Hdp) as (Hdp' & Hcp & _).
    apply (holds_log_other opts algorithms dp _ (metadata_filename v) (Some c)); try done; [|apply metadata_no_scan].
    intros f. apply metadata_not_file.
Qed.

Lemma updateMetadata_inv l out d a b closed opens prepared :
  pending l out d -> rep l d a b closed opens prepared -> meta_older l d ->
  survives opts algorithms l out a (rep_entries closed opens) ->
  0 <= version (sl_metadata l) -> version (sl_metadata l) + 1 < u64_max -> encodable opts (next_metadata l) ->
  exists d', SegmentedLog_updateMetadata opts algorithms l = Ok (tt, metadata_written opts algorithms l) /\
    inv (metadata_written opts algorithms l) out d' a b closed opens prepared.
Proof.
  intros Hp Hr Hold Hsur Hv Hmax Henc. eexists. split; [apply (updateMetadata_exact opts algorithms (algorithm_known Hopts)), Hp|]. split.
  - by apply pending_set_metadata.
  - eapply rep_ext; [..|apply rep_set_metadata, Hr]; done.
  - apply meta_written; try done. by destruct Hr.
  - by eapply survives_set_metadata.
Qed.

(** Nothing waits: the invariant is about the disk as it is. *)
Lemma inv_now l d a b closed opens prepared :
  pending l [] d -> rep l d a b closed opens prepared -> meta_rep l d -> ops (sl_currentSync l) = [] ->
  inv l [] d a b closed opens prepared.
Proof.
  intros Hp Hr Hm Hops. split; try done. pose proof (pend_exec _ _ _ Hp) as Hexec. rewrite Hops in Hexec. injection Hexec as Hd.
  apply survives_now; [done|rewrite Hd; by apply (rep_holds _ _ _ _ _ _ _ Hr)|]. by destruct (rep_start _ _ _ _ _ _ _ Hr) as ((_ & ?) & _).
Qed.

(** ** [checkInvariants] *)

Lemma records_invariant_placed es a off (first : bool) last :
  (forall j e, es !! j = Some e -> Log.index e = Some (a + Z.of_nat j)) ->
  0 <= a -> a + Z.of_nat (length es) < u64_max ->
  (if first then off = header_size else last < off) ->
  records_invariant a first last (plc off es) = true.
Proof.
  revert a off first last. induction es as [|e es IH]; intros a off first last Hidx Ha Hmax Hoff; [done|].
  cbn [placed records_invariant]. cbn [length] in Hmax. pose proof (Hidx 0%nat e eq_refl) as He.
  cbn [record_entry offset]. rewrite He. cbn [default]. apply andb_true_iff. split; [apply andb_true_iff; split|].
  - apply Z.eqb_eq. simpl. lia.
  - destruct first; [by apply Z.eqb_eq|by apply Z.ltb_lt].
  - rewrite u64_small by (unfold is_u64, u64_max in *; lia).
    pose proof (record_bytes_long opts algorithms (algorithm_known Hopts) e). apply IH; [|lia|lia|lia].
    intros j e' Hj. rewrite (Hidx (S j) e') by done. f_equal. lia.
Qed.

Lemma file_bounds f : fok f -> 1 <= sf_start f /\ sf_start f - 1 <= sf_end f < u64_max - 1 /\
  Z.of_nat (length (plc header_size (sf_entries f))) = u64 (sf_end f + 1 - sf_start f) /\
  records_invariant (sf_start f) true 0 (plc header_size (sf_entries f)) = true /\
  (header_size <= sfb f) /\ (sf_entries f <> [] -> header_size < sfb f).
Proof.
  intros Hf. pose proof (sf_start_pos _ _ _ Hf). pose proof (sf_end_max _ _ _ Hf) as Hmax.
  rewrite placed_length. unfold sf_end, u64_max in *. split; [done|]. split; [lia|].
  split; [rewrite u64_small; unfold is_u64; lia|].
  split; [apply records_invariant_placed; [apply (sf_indexed _ _ _ Hf)|lia|unfold u64_max; lia|done]|].
  unfold sf_bytes. split; [lia|]. intros Hne. pose proof (image_long opts algorithms (algorithm_known Hopts) (sf_entries f)).
  destruct (sf_entries f); [done|]. cbn [length] in *. lia.
Qed.

Lemma open_startsWith id : startsWith (open_filename id) "open-" = true.
Proof. unfold startsWith, open_filename. simpl. by destruct (print_lu id). Qed.

Lemma segments_invariant_rep a closed o :
  Forall closed_file closed -> fok o -> sf_open o = true -> chain a (map pair_of closed) (sf_start o) ->
  segments_invariant (map pair_of closed ++ [open_pair o]) = true.
Proof.
  intros Hclosed Ho Hopen. revert a. induction Hclosed as [|f closed (Hf & Hfc & _) _ IH]; intros a Hc.
  - destruct (file_bounds o Ho) as (H1' & H2' & H3' & H4' & H5' & _).
    pose proof (sf_named _ _ _ Ho) as Hn. rewrite Hopen in Hn. destruct Hn as (id & _ & Hn).
    cbn [map app segments_invariant open_pair open_segment seg_startIndex seg_endIndex seg_entries isOpen seg_bytes filename].
    rewrite H4', Hn, open_startsWith. rewrite (u64_small (sf_start o - 1)) by (unfold is_u64, u64_max in *; lia).
    rewrite H3', Z.eqb_refl, (proj2 (Z.ltb_lt 0 _)), (proj2 (Z.leb_le (sf_start o - 1) _)), (proj2 (Z.leb_le header_size _)) by lia.
    by rewrite Z.eqb_refl.
  - destruct (file_bounds f Hf) as (H1' & H2' & H3' & H4' & _ & H5').
    pose proof (sf_named _ _ _ Hf) as Hn. rewrite Hfc in Hn. destruct Hn as [Hn Hne]. specialize (H5' Hne).
    destruct Hc as (Hs & _ & Hle & Hc). pose proof (seg_start _ _ _ Hs) as Hsa. cbn in Hle, Hsa. cbn [map app] in *.
    assert (forall k s rest, map pair_of closed ++ [open_pair o] = (k, s) :: rest -> seg_startIndex s = sf_end f + 1) as Hnext.
    { intros k s rest Heq. destruct closed as [|g closed]; cbn in *.
      - injection Heq as <- <- <-. cbn. lia.
      - injection Heq as <- <- _. destruct Hc as (Hsg & _). apply (seg_start _ _ _ Hsg). }
    specialize (IH _ Hc). destruct (map pair_of closed ++ [open_pair o]) as [|[k s] rest] eqn:Hrest.
    { by destruct closed. }
    cbn [segments_invariant sf_pair sf_segment seg_startIndex seg_endIndex seg_entries isOpen seg_bytes filename].
    cbn [segments_invariant] in IH. rewrite IH.
    rewrite H4', H3', !Z.eqb_refl, (Hnext _ _ _ eq_refl), (u64_small (sf_end f + 1)) by (unfold is_u64, u64_max in *; lia).
    rewrite Z.eqb_refl, (proj2 (Z.ltb_lt 0 _)), (proj2 (Z.leb_le (sf_start f) _)), (proj2 (Z.ltb_lt header_size _)) by lia.
    unfold makeClosedFilename. cbn. by rewrite String.eqb_refl.
Qed.

Lemma closed_bytes_rep closed o :
  closed_bytes (map pair_of closed ++ [open_pair o]) = bytes_of opts algorithms closed.
Proof.
  induction closed as [|f closed IH]; [done|]. change (bytes_of opts algorithms (f :: closed))
    with (sfb f + bytes_of opts algorithms closed). rewrite <-IH. cbn [map app closed_bytes].
  destruct (map pair_of closed ++ [open_pair o]) as [|x rest] eqn:Hx; [by destruct closed|]. done.
Qed.

(** The assertions hold in every state of the invariant with an open segment. *)
Lemma invariants_hold l out d a b closed o prepared :
  inv l out d a b closed [o] prepared -> invariants l = true.
Proof.
  intros [Hp Hr _ _]. destruct Hr as [Hd Hsegs Hchain (Ha & Hb & Hfirst) Hclosed [(Ho & Hoo & Hh) Hob] _ _ _ _ _ Htotal _].
  cbn [map] in Hsegs. unfold invariants. rewrite Hsegs, closed_bytes_rep, Htotal, Z.eqb_refl.
  pose proof (handle_fresh _ _ _ _ Hd Hh) as Hfd. unfold dir_fd in Hfd.
  rewrite (proj2 (Z.leb_le 0 _)) by lia. rewrite (segments_invariant_rep a) by (done || by rewrite Hob).
  rewrite !andb_true_r. destruct closed as [|f closed]; cbn in *.
  - destruct (file_bounds o Ho) as (? & ? & _). rewrite u64_small by (unfold is_u64, u64_max in *; lia).
    apply andb_true_iff. split; apply Z.leb_le; lia.
  - inversion Hclosed as [|? ? (Hf & _) _]; subst. destruct (file_bounds f Hf) as (? & ? & _).
    destruct Hchain as (Hs & _). pose proof (seg_start _ _ _ Hs) as Hsa. cbn in Hsa.
    rewrite u64_small by (unfold is_u64, u64_max in *; lia). apply andb_true_iff. split; apply Z.leb_le; lia.
Qed.

Lemma checkInvariants_inv l out d a b closed o prepared :
  inv l out d a b closed [o] prepared -> checkInvariants opts l = Ok (tt, l).
Proof.
  intros Hinv. unfold checkInvariants. destruct (shouldCheckInvariants opts); [|done].
  unfold bind, get, assert_. by rewrite (invariants_hold _ _ _ _ _ _ _ _ Hinv).
Qed.
End Rep.
