(* ===== verification/SegmentedLogRecovery.v ===== *)
(** * Recovery of the segmented log

    The constructor of [Storage/SegmentedLog.cc] run on a directory that holds
    the files of a log: it returns, and the log it returns has the entries of the
    files, the start index and the metadata, and satisfies the invariant of
    [SegmentedLogRep.v]. *)

From Stdlib Require Import ZArith Lia Ascii String.
From stdpp Require Import base functions gmap strings list fin_maps sorting.
From S2P Require Import Prelude OrderedMap StringUtil Stream SnapshotFile Log Disk DiskSpec Checksum Printf SegmentedLog SegmentedLogFormat SegmentedLogSpec SegmentedLogSync SegmentedLogLoad SegmentedLogCrash SegmentedLogRep.
Local Open Scope Z_scope.
Local Open Scope list_scope.

(** A segment file as loading leaves it. *)
Definition closed_of (f : seg_file) : seg_file := mk_seg_file (sf_closed_name f) false (sf_start f) (sf_entries f) 0.

Section Recovery.
Context (opts : SegOptions) (algorithms : bytes -> option (bytes -> bytes)) `{!AlgorithmLaws algorithms}.
Context `{ProtoBuf LogEntry} `{ProtoBufText LogEntry} `{!ProtoBufLaws LogEntry} `{!ProtoBufTextLaws LogEntry}.
Context `{ProtoBuf SegMetadata} `{ProtoBufText SegMetadata} `{!ProtoBufLaws SegMetadata} `{!ProtoBufTextLaws SegMetadata}.
Hypothesis Hopts : options_ok opts algorithms.
Let Hknown : is_Some (algorithms (checksumAlgorithm opts)) := algorithm_known _ _ Hopts.

Abbreviation img := (image opts algorithms).
Abbreviation sfc := (sf_content opts algorithms).
Abbreviation fok := (sf_ok opts algorithms).
Abbreviation pair_of := (sf_pair opts algorithms).

(** A directory with the files of a log that starts at [start]: [ks] are the files
    that hold something of it, in order, the indexes from [a] to [b - 1]. *)
Record recoverable (d : Disk) (files : gmap string seg_file) (start : Z) (ks : list seg_file) (a b : Z) : Prop := {
  rc_disk : disk_ok d;
  rc_fds : fds d = ∅;
  rc_directory : directory opts algorithms d files;
  rc_kept f : f ∈ ks <-> (exists n, files !! n = Some f) /\ sf_kept start f = true;
  rc_chain : chain a (map pair_of ks) b;
  rc_start : 1 <= a <= start /\ start <= b < u64_max - 1 /\ (ks = [] -> a = b);
  rc_ids n f id : files !! n = Some f -> sf_id f = Some id -> id < u64_max - 3
}.

(** The metadata that the constructor finds; where there is nothing, it starts a
    new log. *)
Definition found_metadata (d : Disk) (files : gmap string seg_file) (md : SegMetadata) : Prop :=
  exists r1 r2, meta_read opts algorithms (contents_of d "metadata1") r1 /\
    meta_read opts algorithms (contents_of d "metadata2") r2 /\
    match choose_metadata r1 r2 with
    | Some m => md = m
    | None => files = ∅ /\ md = mkSegMetadata 0 0 None 1
    end.

(** ** The files as a list *)

Lemma listed_elem d files f :
  directory opts algorithms d files -> disk_ok d ->
  f ∈ listed files (ls_sorted d) <-> exists n, files !! n = Some f.
Proof.
  intros Hdir Hd. unfold listed. rewrite list_elem_of_omap. split; [by intros (n & _ & Hn); exists n|].
  intros [n Hn]. exists n. split; [|done]. apply ls_sorted_spec, (contents_name d n Hd).
  destruct (dir_file _ _ _ _ Hdir n f Hn) as (_ & _ & ->). by eexists.
Qed.

Lemma listed_names d files :
  directory opts algorithms d files -> NoDup (map sf_name (listed files (ls_sorted d))).
Proof.
  intros Hdir. destruct (ls_sorted_spec d) as [Hnd _]. revert Hnd. generalize (ls_sorted d). intros l Hnd.
  induction Hnd as [|n l Hn Hnd IH]; [constructor|]. cbn [listed omap list_omap]. fold (listed files l).
  destruct (files !! n) as [f|] eqn:Hf; [|done]. cbn [map]. constructor; [|done].
  destruct (dir_file _ _ _ _ Hdir n f Hf) as (_ & -> & _). intros Hin. apply Hn.
  apply list_elem_of_fmap in Hin as (g & Hg & Hin). apply list_elem_of_omap in Hin as (n' & Hn' & Hg').
  destruct (dir_file _ _ _ _ Hdir n' g Hg') as (_ & Hname & _). congruence.
Qed.

Lemma chain_starts a ks b : chain a (map pair_of ks) b -> NoDup (map sf_start ks).
Proof.
  intros Hc. apply chain_sorted, om_sorted_keys in Hc. rewrite pair_keys in Hc.
  induction Hc as [|x l _ IH Hx]; constructor; [|done]. intros Hin. rewrite Forall_forall in Hx.
  by apply (key_lt_irrefl x), Hx.
Qed.

Lemma file_u64 f : fok f -> is_u64 (sf_start f) /\ is_u64 (sf_end f).
Proof.
  intros Hf. pose proof (sf_start_pos _ _ _ Hf). pose proof (sf_end_max _ _ _ Hf).
  unfold is_u64, sf_end, u64_max in *. lia.
Qed.

Lemma recoverable_distinct d files start ks a b :
  recoverable d files start ks a b ->
  let fs := listed files (ls_sorted d) in distinct opts algorithms start fs /\ kept_files start fs ≡ₚ ks.
Proof.
  intros [Hd _ Hdir Hkept Hchain _ _] fs. pose proof (chain_starts _ _ _ Hchain) as Hnd.
  assert (forall f, f ∈ fs -> fok f) as Hok.
  { intros f Hf. apply listed_elem in Hf as [n Hn]; [|done..]. by destruct (dir_file _ _ _ _ Hdir n f Hn). }
  assert (NoDup fs) as Hfs by (apply (NoDup_fmap_1 sf_name), listed_names; done).
  assert (kept_files start fs ≡ₚ ks) as Hperm.
  { apply NoDup_Permutation; [by apply NoDup_ListNoDup, List.NoDup_filter, NoDup_ListNoDup|by apply (NoDup_fmap_1 sf_start)|].
    intros f. rewrite kept_elem, Hkept. unfold fs. by rewrite (listed_elem d files f). }
  split; [|done]. split.
  - by apply Forall_forall.
  - by apply listed_names.
  - by rewrite Hperm.
  - intros f g Hf Hg Hkf Hne Heq. destruct (file_u64 f (Hok f Hf)) as [Uf Vf]. destruct (file_u64 g (Hok g Hg)) as [Ug Vg].
    pose proof (sf_named _ _ _ (Hok g Hg)) as Hgn. destruct (sf_open g).
    + destruct Hgn as (id & _ & Hgn). rewrite Hgn in Heq. by apply closed_not_open in Heq.
    + destruct Hgn as [Hgn Hes]. rewrite Hgn in Heq.
      destruct (closed_filename_inj _ _ _ _ Uf Vf Ug Vg Heq) as [Hs He].
      assert (sf_kept start g = true) as Hkg.
      { unfold sf_kept in *. destruct (sf_entries f); [done|]. destruct (sf_entries g); [done|]. by rewrite <-He. }
      apply Hne. assert (f ∈ ks /\ g ∈ ks) as [Hf' Hg'].
      { rewrite <-Hperm, !kept_elem. done. }
      apply list_elem_of_lookup in Hf' as [i Hi]. apply list_elem_of_lookup in Hg' as [j Hj].
      assert (i = j) as ->; [|congruence]. eapply (NoDup_lookup (map sf_start ks)); [done| |].
      * by rewrite list_lookup_fmap, Hi.
      * by rewrite list_lookup_fmap, Hj, Hs.
Qed.

(** ** The state after the files are loaded *)

Lemma om_sorted_perm (m m' : list (Z * Segment)) : om_sorted m -> om_sorted m' -> m ≡ₚ m' -> m = m'.
Proof.
  apply StronglySorted_unique_strong. intros x y _ _ Hxy Hyx. change (x.1 < y.1) in Hxy. change (y.1 < x.1) in Hyx. lia.
Qed.

(** The second loop of the constructor finds no gap. *)
Lemma check_contiguous_chain a m b : chain a m b -> 0 <= a -> b <= u64_max -> check_contiguous a m = Ok tt.
Proof.
  revert a. induction m as [|[k s] m IH]; intros a Hc Ha Hb; [done|]. destruct Hc as (Hs & _ & Hle & Hc).
  pose proof (chain_le _ _ _ Hc). cbn [check_contiguous]. rewrite (seg_start _ _ _ Hs), Z.ltb_irrefl. cbn [orb].
  rewrite u64_small by (unfold is_u64, u64_max in *; lia). apply IH; [done|lia|done].
Qed.

Lemma check_first a m b : chain a m b -> 0 <= a -> b <= u64_max ->
  match m with [] => Ok tt | (k, _) :: _ => check_contiguous k m end = Ok tt.
Proof.
  intros Hc. destruct m as [|[k s] m]; [done|]. assert (k = a) as -> by apply Hc. by apply check_contiguous_chain.
Qed.

Lemma kept_nonempty start f : sf_kept start f = true -> sf_entries f <> [] /\ start <= sf_end f.
Proof. unfold sf_kept. destruct (sf_entries f); [done|]. intros ?%Z.leb_le. done. Qed.

Lemma closed_of_ok start f : fok f -> sf_kept start f = true -> closed_file opts algorithms (closed_of f).
Proof.
  intros Hf [Hne _]%kept_nonempty. split; [|done]. destruct Hf as [H1' H2' H3' H4' H5' H6'].
  split; [exact H1'|exact H2'|exact H3'|exact H4'| |by split].
  rewrite sf_length in H5'. rewrite sf_length. cbn [sf_zeros closed_of]. change (sf_image opts algorithms (closed_of f)) with (sf_image opts algorithms f). lia.
Qed.

Lemma closed_of_content f : sfc (closed_of f) = sf_image opts algorithms f.
Proof. unfold sf_content. cbn [sf_zeros closed_of zeros replicate]. apply app_nil_r. Qed.

Lemma closed_of_pairs ks : map pair_of (map closed_of ks) = map pair_of ks.
Proof. by rewrite map_map. Qed.

Lemma bytes_of_perm fs fs' : fs ≡ₚ fs' -> bytes_of opts algorithms fs = bytes_of opts algorithms fs'.
Proof. unfold bytes_of. induction 1; simpl; lia. Qed.

Lemma bytes_of_closed ks : bytes_of opts algorithms (map closed_of ks) = bytes_of opts algorithms ks.
Proof. induction ks as [|f ks IH]; [done|]. unfold bytes_of in *. cbn [map fold_right]. by rewrite IH. Qed.

Lemma closed_names_NoDup d files start ks a b :
  recoverable d files start ks a b -> NoDup (map sf_closed_name ks).
Proof.
  intros Hrec. pose proof (chain_starts _ _ _ (rc_chain _ _ _ _ _ _ Hrec)) as Hnd.
  assert (forall f, f ∈ ks -> fok f) as Hok.
  { intros f Hf. apply (rc_kept _ _ _ _ _ _ Hrec) in Hf as [[n Hn] _]. by destruct (dir_file _ _ _ _ (rc_directory _ _ _ _ _ _ Hrec) n f Hn). }
  revert Hnd. clear Hrec. induction ks as [|f ks IH]; [constructor|]. cbn [map]. rewrite !NoDup_cons. intros [Hf Hnd].
  split; [|apply IH; [set_solver|done]]. intros Hin. apply Hf. apply list_elem_of_fmap in Hin as (g & Heq & Hg).
  destruct (file_u64 f (Hok f ltac:(set_solver))), (file_u64 g (Hok g ltac:(set_solver))).
  unfold sf_closed_name in Heq. apply closed_filename_inj in Heq as [-> _]; [|done..]. by apply list_elem_of_fmap_2.
Qed.

(** The files on the disk [l] was read from and the state [l'] after loading. *)
Lemma loaded_rep d files start ks a b l l' :
  recoverable d files start ks a b ->
  (forall n, (exists v, n = metadata_filename v) \/ contents_of (sl_disk l) n = contents_of d n) ->
  loading opts algorithms start l (listed files (ls_sorted d)) l' ->
  logStartIndex l = start -> openSegmentFile l = -1 -> totalClosedSegmentBytes l = 0 ->
  preparedSegments l = mkPreparedSegments false (demand opts) (counter l) [] -> 0 <= counter l ->
  rep opts algorithms l' (sl_disk l') a b (map closed_of ks) [] [].
Proof.
  intros Hrec Hsame Hload Hstart Hopen Htot Hprep Hc0. destruct (recoverable_distinct _ _ _ _ _ _ Hrec) as [Hdist Hperm].
  pose proof (closed_names_NoDup _ _ _ _ _ _ Hrec) as Hnames.
  destruct Hrec as [Hd Hfds Hdir Hkept Hchain (Ha & Hb & Hnil) Hids].
  destruct Hload as [(Hm & Ho & Hs & Hp & Hsync & Hlm) Hd' Hfds' Hcont Hsegs Hsorted Htotal].
  assert (forall f, f ∈ listed files (ls_sorted d) -> fok f) as Hok.
  { intros f Hf. apply listed_elem in Hf as [n Hn]; [|done..]. by destruct (dir_file _ _ _ _ Hdir n f Hn). }
  assert (forall n, n ∉ map sf_closed_name ks <-> forall f, f ∈ kept_files start (listed files (ls_sorted d)) -> n <> sf_closed_name f) as Hnot.
  { intros n. rewrite list_elem_of_fmap. setoid_rewrite Hperm. naive_solver. }
  assert (map sf_name (map closed_of ks ++ [] ++ []) = map sf_closed_name ks) as Hmap by by rewrite app_nil_r, map_map.
  split; rewrite ?closed_of_pairs, ?Hmap; try done.
  - rewrite app_nil_r. apply om_sorted_perm; [done|by eapply chain_sorted|]. rewrite Hsegs. by rewrite Hperm.
  - rewrite Hs, Hstart. split; [lia|]. split; [lia|]. destruct ks as [|f ks]; [specialize (Hnil eq_refl); cbn; lia|].
    cbn. destruct (proj1 (Hkept f) ltac:(set_solver)) as [_ [_ Hle]%kept_nonempty].
    change (sf_end (closed_of f)) with (sf_end f). lia.
  - apply Forall_map, Forall_forall. intros f Hf. apply (closed_of_ok start); [|by apply Hkept].
    apply Hok. rewrite <-Hperm in Hf. by apply kept_elem in Hf as [].
  - rewrite Ho, Hopen. lia.
  - rewrite Hp, Hprep. constructor.
  - intros f Hf. rewrite app_nil_r in Hf. apply list_elem_of_fmap in Hf as (g & -> & Hg). rewrite closed_of_content, Hcont.
    change (sf_name (closed_of g)) with (sf_closed_name g). apply (loaded_all_kept opts algorithms Hknown); [done| |by rewrite Hperm].
    intros h Hh. by apply file_u64, Hok.
  - intros n Hn Hsome. rewrite Hnot in Hn. rewrite Hcont in Hsome.
    destruct (decide (n ∈ map sf_name (listed files (ls_sorted d)))) as [Hin|Hout].
    { rewrite (loaded_all_open opts algorithms Hknown) in Hsome by done. by destruct Hsome. }
    rewrite (loaded_all_other opts algorithms Hknown) in Hsome by done. destruct (Hsame n) as [[v ->]|Heq]; [apply metadata_no_scan|].
    rewrite Heq in Hsome. apply (dir_other _ _ _ _ Hdir); [|done].
    destruct (files !! n) as [f|] eqn:Hf; [|done]. exfalso. apply Hout.
    destruct (dir_file _ _ _ _ Hdir n f Hf) as (_ & <- & _). apply list_elem_of_fmap_2, listed_elem; [done..|]. by exists (sf_name f).
  - intros f id Hf Hid. rewrite app_nil_r in Hf. apply list_elem_of_fmap in Hf as (g & -> & _). done.
  - rewrite Htotal, Htot, Z.add_0_l, (bytes_of_perm _ _ Hperm). by rewrite bytes_of_closed.
  - rewrite Hp, Hprep. cbn. unfold demand. split; [done|]. lia.
Qed.

(** ** Writing the metadata back *)

Lemma found_older d d' files md l :
  found_metadata d files md -> (forall n, contents_of d' n = contents_of d n) -> sl_metadata l = md ->
  meta_older opts algorithms l d'.
Proof.
  intros (r1 & r2 & Hr1 & Hr2 & Hmd) Hc Hl. unfold meta_older. rewrite Hl.
  exists (if version md mod 2 =? 1 then r1 else r2). rewrite Hc. split.
  - unfold metadata_filename. by destruct (version md mod 2 =? 1).
  - assert (forall m, r1 = Some m \/ r2 = Some m -> version m <= version md) as Hle.
    { intros m Hm. destruct r1 as [m1|], r2 as [m2|]; simpl in Hmd; subst; [|naive_solver lia..].
      destruct (version m2 <? version m1) eqn:Hlt; destruct Hm as [[= ->]|[= ->]]; lia. }
    intros m Hm. enough (version m <= version md) by lia. apply Hle. destruct (_ =? 1); auto.
Qed.

(** The metadata that a recovered log writes. *)
Definition rewritten (md : SegMetadata) (v : Z) : SegMetadata :=
  let m := default Metadata_init (raft_metadata md) in
  mkSegMetadata 1 v (if metadata_is_empty m then None else Some m) (entries_start md).

Lemma set_file_fds d name c : fds (set_file d name c) = fds d.
Proof. unfold set_file. by destruct (names d !! name). Qed.

(** Twice [updateMetadata]: both files are rewritten. *)
Lemma rewrite_metadata l md :
  disk_ok (sl_disk l) -> meta_older opts algorithms l (sl_disk l) -> sl_metadata l = md ->
  logStartIndex l = entries_start md -> log_metadata l = default Metadata_init (raft_metadata md) ->
  0 <= version md -> version md + 2 < u64_max ->
  encodable opts (rewritten md (version md + 1)) -> encodable opts (rewritten md (version md + 2)) ->
  exists d', (SegmentedLog_updateMetadata opts algorithms ;;; SegmentedLog_updateMetadata opts algorithms) l =
    Ok (tt, (l <| sl_metadata := rewritten md (version md + 2) |>) <| sl_disk := d' |>) /\
    disk_ok d' /\ fds d' = fds (sl_disk l) /\
    (forall n, (exists v, n = metadata_filename v) \/ contents_of d' n = contents_of (sl_disk l) n) /\
    meta_rep opts algorithms ((l <| sl_metadata := rewritten md (version md + 2) |>) <| sl_disk := d' |>) d'.
Proof.
  intros Hd Hold Hl Hs Hm Hv Hmax He1 He2.
  assert (next_metadata l = rewritten md (version md + 1)) as Hn1.
  { unfold next_metadata, rewritten. rewrite Hl, Hs, Hm, u64_small; [reflexivity|]. unfold is_u64, u64_max in *. lia. }
  set (l1 := metadata_written opts algorithms l).
  assert (next_metadata l1 = rewritten md (version md + 2)) as Hn2.
  { unfold next_metadata, l1, metadata_written. rewrite Hn1. cbn [sl_metadata log_metadata logStartIndex set_field rewritten version].
    unfold rewritten. rewrite Hs, Hm, u64_small; [|unfold is_u64, u64_max in *; lia]. f_equal. lia. }
  pose proof (set_file_spec (sl_disk l) (metadata_filename (version (next_metadata l))) (meta_bytes opts algorithms (next_metadata l)) Hd)
    as (Hd1 & Hc1 & _).
  assert (meta_rep opts algorithms l1 (sl_disk l1)) as Hrep1.
  { apply (meta_written opts algorithms); [done|done|by rewrite Hl|rewrite Hl; lia|by rewrite Hn1]. }
  pose proof (set_file_spec (sl_disk l1) (metadata_filename (version (next_metadata l1))) (meta_bytes opts algorithms (next_metadata l1)) Hd1)
    as (Hd2 & Hc2 & _).
  assert (version (sl_metadata l1) = version md + 1) as Hv1 by (cbn; rewrite Hl, u64_small; [done|unfold is_u64, u64_max in *; lia]).
  assert (meta_rep opts algorithms (metadata_written opts algorithms l1) (sl_disk (metadata_written opts algorithms l1))) as Hrep2.
  { apply (meta_written opts algorithms); [exact Hd1|by apply (meta_rep_older opts algorithms Hopts)|rewrite Hv1; lia|rewrite Hv1; lia|by rewrite Hn2]. }
  exists (sl_disk (metadata_written opts algorithms l1)).
  assert (metadata_written opts algorithms l1 =
    (l <| sl_metadata := rewritten md (version md + 2) |>) <| sl_disk := sl_disk (metadata_written opts algorithms l1) |>) as Heq.
  { rewrite <-Hn2. reflexivity. }
  split_and!.
  - unfold bind. rewrite (updateMetadata_exact opts algorithms Hknown) by done.
    fold l1. rewrite (updateMetadata_exact opts algorithms Hknown) by exact Hd1. do 2 f_equal. exact Heq.
  - exact Hd2.
  - transitivity (fds (sl_disk l1)); apply set_file_fds.
  - intros n. destruct (decide (n = metadata_filename (version (next_metadata l1)))) as [->|Hne2]; [left; by eexists|].
    destruct (decide (n = metadata_filename (version (next_metadata l)))) as [->|Hne1]; [left; by eexists|]. right.
    cbn [sl_disk metadata_written set_field]. rewrite Hc2, fn_lookup_insert_ne by done.
    change (sl_disk l1) with (set_file (sl_disk l) (metadata_filename (version (next_metadata l))) (meta_bytes opts algorithms (next_metadata l))).
    by rewrite Hc1, fn_lookup_insert_ne.
  - by rewrite <-Heq.
Qed.

(** ** The constructor *)

(** The end of the constructor: the first segment is prepared and opened. *)
Lemma open_first l out d a b closed :
  inv opts algorithms l out d a b closed [] [] -> counter l < u64_max - 2 ->
  safe (segmentPreparer_step opts ;;; openNewSegment opts ;;; checkInvariants opts) (fun _ l' =>
    exists d' o prepared, inv opts algorithms l' out d' a b closed [o] prepared /\ sf_entries o = [] /\
      logStartIndex l' = logStartIndex l /\ log_metadata l' = log_metadata l /\
      sl_metadata l' = sl_metadata l /\ sl_currentSync l' = sl_currentSync l /\ counter l' <= counter l + 2) l.
Proof.
  intros Hinv Hmax. pose proof (rep_running _ _ _ _ _ _ _ _ _ (inv_rep _ _ _ _ _ _ _ _ _ _ Hinv)) as (_ & Hc0 & _ & Hdem).
  assert (0 < demanded (preparedSegments l)) as Hpos by (cbn [length] in Hdem; unfold demand in Hdem; lia).
  assert (filenameCounter (preparedSegments l) < u64_max - 1) as Hmax1 by (unfold counter in Hmax; lia).
  pose proof (with_prepared_inv opts algorithms Hopts _ _ _ _ _ _ _ _ Hpos Hmax1 Hinv) as Hinv1. cbv zeta in Hinv1.
  destruct (openNewSegment_inv opts algorithms Hopts _ _ _ _ _ _ _ Hinv1) as (l2 & d2 & o & prepared & Hrun & Hinv2 & Hes & Hkept & Hsync).
  { unfold counter in *. cbn. lia. }
  apply safe_run. exists tt, l2. split.
  - unfold bind. rewrite (segmentPreparer_exact opts algorithms Hopts _ _ _ _ _ _ _ _ Hpos Hmax1 Hinv), Hrun.
    by apply (checkInvariants_inv opts algorithms Hopts) in Hinv2.
  - exists d2, o, prepared. destruct Hkept as [Hk1 Hk2 Hk3 Hk4]. split_and!; [done|done|by rewrite Hk1|by rewrite Hk3|by rewrite Hk2|by rewrite Hsync|].
    unfold counter in *. cbn in Hk4. lia.
Qed.

(** Loading the files, once the metadata is written. *)
Lemma load_phase d files start ks a b l l' :
  recoverable d files start ks a b -> disk_ok (sl_disk l) -> fds (sl_disk l) = ∅ ->
  (forall n, (exists v, n = metadata_filename v) \/ contents_of (sl_disk l) n = contents_of d n) ->
  meta_rep opts algorithms l (sl_disk l) ->
  logStartIndex l = start -> openSegmentFile l = -1 -> totalClosedSegmentBytes l = 0 ->
  preparedSegments l = mkPreparedSegments false (demand opts) (counter l) [] -> 0 <= counter l ->
  ops (sl_currentSync l) = [] -> loading opts algorithms start l (listed files (ls_sorted d)) l' ->
  segmentsByStartIndex l' = map pair_of ks /\
  inv opts algorithms l' [] (sl_disk l') a b (map closed_of ks) [] [].
Proof.
  intros Hrec Hd Hf Hsame Hmeta Hs Ho Ht Hp Hc Hops Hload.
  pose proof (loaded_rep _ _ _ _ _ _ _ _ Hrec Hsame Hload Hs Ho Ht Hp Hc) as Hrep.
  destruct (recoverable_distinct _ _ _ _ _ _ Hrec) as [Hdist _].
  split. { rewrite (rep_segments _ _ _ _ _ _ _ _ _ Hrep), closed_of_pairs. apply app_nil_r. }
  destruct Hload as [(Hm & Ho' & Hs' & Hp' & Hsync & Hlm) Hd' Hfds' Hcont _ _ _]. split; [split|done| |].
  - done.
  - by rewrite Hsync, Hops.
  - by rewrite Hsync, Hops.
  - intros v f p (i & Hi & _). by rewrite Hfds', Hf in Hi.
  - apply (meta_rep_same opts algorithms l _ (sl_disk l)); [done|done| |done]. intros v. rewrite Hcont.
    pose proof (fs_ok _ _ _ _ Hdist) as Hok. rewrite Forall_forall in Hok. apply (loaded_all_other opts algorithms Hknown).
    + intros (f & Heq & Hin)%list_elem_of_fmap. eapply metadata_not_file; [by apply Hok|done].
    + intros f _. apply metadata_not_closed.
  - apply survives_now; [by rewrite Hsync, Hops|exact (rep_holds opts algorithms _ _ _ _ _ _ _ Hrep)|].
    by destruct (rep_start _ _ _ _ _ _ _ _ _ Hrep) as ((_ & Ha) & _).
Qed.

(** A directory that holds the files of a log: the constructor returns, and the
    log is the one of the files. *)
Lemma recover_safe d files start ks a b md :
  recoverable d files start ks a b -> found_metadata d files md -> entries_start md = start ->
  0 <= version md -> version md + 2 < u64_max ->
  encodable opts (rewritten md (version md + 1)) -> encodable opts (rewritten md (version md + 2)) ->
  safe (recover opts algorithms) (fun _ l' =>
    exists d' o prepared, inv opts algorithms l' [] d' a b (map closed_of ks) [o] prepared /\ sf_entries o = [] /\
      logStartIndex l' = start /\ log_metadata l' = default Metadata_init (raft_metadata md) /\
      sl_metadata l' = rewritten md (version md + 2) /\ ops (sl_currentSync l') = [] /\
      (forall B, 0 <= B -> ids_upto (listed files (ls_sorted d)) B -> counter l' <= B + 2))
    (SegmentedLog_init opts d).
Proof.
  intros Hrec Hfound Hstart Hv Hmax He1 He2. destruct (recoverable_distinct _ _ _ _ _ _ Hrec) as [Hdist Hperm].
  pose proof (rc_directory _ _ _ _ _ _ Hrec) as Hdir. pose proof (rc_disk _ _ _ _ _ _ Hrec) as Hd.
  set (fs := listed files (ls_sorted d)) in *.
  apply wp_bind, wp_bind, wp_get. eapply wp_mono; [apply (found_segments_spec opts algorithms Hknown files)|done|].
  { intros n f Hn. by destruct (dir_file _ _ _ _ Hdir n f Hn) as (? & ? & _). }
  { intros n Hn Hnone. apply (dir_other _ _ _ _ Hdir); [done|]. by apply contents_name, ls_sorted_spec. }
  intros segs l1 (-> & c & -> & Hc0 & Hids & Hmin). fold fs in Hids, Hmin |- *. cbn [preparedSegments SegmentedLog_init] in *.
  assert (forall B, 0 <= B -> ids_upto fs B -> c <= B) as Hmin' by (intros B HB; by apply Hmin).
  assert (c < u64_max - 3) as Hc.
  { assert (c <= u64_max - 4); [|lia]. apply Hmin'; [done|]. intros f id [n Hn]%listed_elem Hid; [|done..].
    pose proof (rc_ids _ _ _ _ _ _ Hrec n f id Hn Hid). lia. }
  pose proof Hfound as (r1 & r2 & Hr1 & Hr2 & Hmd).
  apply wp_bind. eapply (readMetadata_spec opts algorithms); [exact Hd|done|exact Hr1|]. intros d1 Hd1 Hc1 Hf1.
  apply wp_bind. eapply (readMetadata_spec opts algorithms); [exact Hd1|done|cbn [sl_disk set_field]; rewrite Hc1; exact Hr2|].
  cbn [sl_disk set_field]. intros d2 Hd2 Hc2 Hf2. apply wp_bind, wp_get, wp_bind.
  set (l2 := set_field (proj := sl_disk) d2 _). assert (wp (fun _ => False) (match choose_metadata r1 r2 with
    | Some m => ret m
    | None => match map sf_found fs with
              | [] => ret ((sl_metadata l2) <| entries_start := logStartIndex l2 |>)
              | _ => fail Panicked
              end end) (fun m l => m = md /\ l = l2) l2) as Hchoose.
  { destruct (choose_metadata r1 r2) as [m|]; [by subst|]. destruct Hmd as [-> ->].
    assert (fs = []) as ->; [|done]. apply elem_of_nil_inv. intros f [n Hn]%listed_elem; [by rewrite lookup_empty in Hn|done..]. }
  eapply wp_mono; [exact Hchoose|done|]. intros m l3 [-> ->]. apply wp_bind, wp_modify. rewrite Hstart.
  set (l4 := set_field (proj := log_metadata) _ _).
  assert (forall n, contents_of d2 n = contents_of d n) as Hc2' by (intros n; rewrite Hc2; apply Hc1).
  assert (meta_older opts algorithms l4 (sl_disk l4)) as Hold by (by eapply found_older).
  destruct (rewrite_metadata l4 md Hd2 Hold eq_refl (eq_sym Hstart) eq_refl Hv Hmax He1 He2)
    as (d5 & Hrun & Hd5 & Hf5 & Hc5 & Hmeta5).
  set (l5 := set_field (proj := sl_disk) _ _) in Hrun, Hmeta5.
apply bind_Ok in Hrun as ([] & l4' & Hrun1 & Hrun2).
  apply wp_bind. unfold wp at 1. rewrite Hrun1. apply wp_bind. unfold wp at 1. rewrite Hrun2.
  apply wp_bind, wp_zoom, wp_fsync_dir. change (set_field (proj := sl_disk) (sl_disk l5) l5) with l5.
  assert (forall n, (exists v, n = metadata_filename v) \/ contents_of (sl_disk l5) n = contents_of d n) as Hsame5.
  { intros n. destruct (Hc5 n) as [Hn|Hn]; [by left|right]. cbn [sl_disk l5 set_field]. rewrite Hn. apply Hc2'. }
  assert (fds (sl_disk l5) = ∅) as Hfds5.
  { cbn [sl_disk l5 set_field]. rewrite Hf5. cbn [sl_disk l4 l2 set_field]. rewrite Hf2, Hf1. apply Hrec. }
  apply wp_bind. eapply wp_mono; [eapply (loading_all opts algorithms Hknown start l5 fs)|done|].
  { done. }
  { intros f Hf. pose proof Hf as [n Hn]%listed_elem; [|done..]. destruct (dir_file _ _ _ _ Hdir n f Hn) as (Hok & <- & Hcont).
    destruct (Hsame5 (sf_name f)) as [[v Heq]|Heq]; [|by rewrite Heq]. symmetry in Heq. by apply (metadata_not_file opts algorithms) in Heq. }
  { exact Hd5. }
  { done. }
  { done. }
  intros [] l6 Hload. destruct (load_phase d files start ks a b l5 l6) as [Hsegs Hinv6]; try done.
  apply wp_bind, wp_get, wp_bind, wp_lift.
  assert (match segmentsByStartIndex l6 with [] => Ok tt | (k, _) :: _ => check_contiguous k (segmentsByStartIndex l6) end = Ok tt) as ->.
  { rewrite Hsegs. destruct (rc_start _ _ _ _ _ _ Hrec) as (? & ? & _).
    eapply check_first; [apply (rc_chain _ _ _ _ _ _ Hrec)|lia|lia]. }
  destruct (ld_rest _ _ _ _ _ _ Hload) as (Em & _ & Es & Ep & Ey & El).
  eapply wp_mono; [apply (open_first _ _ _ _ _ _ Hinv6)|done|].
  { unfold counter. rewrite Ep. cbn. unfold u64_max in *. lia. }
  intros [] l7 (d7 & o & prepared & Hinv7 & Hes & Hst & Hlm & Hsm & Hsy & Hcnt). exists d7, o, prepared.
  split_and!; [done|done|by rewrite Hst, Es|by rewrite Hlm, El|by rewrite Hsm, Em|by rewrite Hsy, Ey|].
  intros B HB HidsB. specialize (Hmin' B HB HidsB). unfold counter in *. rewrite Ep in Hcnt. cbn in Hcnt. lia.
Qed.
End Recovery.
