(* ===== verification/SegmentedLogOps.v ===== *)
(** * The operations of the segmented log on disk

    Each operation of [Storage/SegmentedLog.cc] keeps the invariant of
    [SegmentedLogRep.v], and returns: none of its assertions fails, and no file
    operation that it queues or runs can end in a [PANIC]. *)

From Stdlib Require Import ZArith Lia Ascii String.
From stdpp Require Import base functions gmap strings list fin_maps sorting.
From S2P Require Import Prelude OrderedMap StringUtil Stream SnapshotFile Log Disk DiskSpec Checksum Printf SegmentedLog SegmentedLogFormat SegmentedLogSpec SegmentedLogSync SegmentedLogLoad SegmentedLogCrash SegmentedLogRep SegmentedLogRecovery.
Local Open Scope Z_scope.
Local Open Scope list_scope.

(** ** Descriptors over several operations *)

Lemma handles_kept_trans fd N d1 d2 d3 :
  handles_kept fd N d1 d2 -> handles_kept fd N d2 d3 -> handles_kept fd N d1 d3.
Proof.
  intros (H1 & H2 & H3) (G1 & G2 & G3). split; [lia|]. split.
  - intros f Hf. by rewrite G2, H2.
  - intros f n p Hf Hn. by rewrite G3, H3.
Qed.

Lemma handles_kept_more fd N N' d d' : N ⊆ N' -> handles_kept fd N d d' -> handles_kept fd N' d d'.
Proof. intros HN (H1 & H2 & H3). split; [done|]. split; [done|]. intros f n p Hf Hn. apply H3; [done|]. set_solver. Qed.

Lemma handles_kept_nil fd N d d' : handles_kept fd [] d d' -> handles_kept fd N d d'.
Proof. apply handles_kept_more. set_solver. Qed.

(** An operation on names only. *)
Lemma handles_kept_names fd N d d' : disk_ok d -> fds d' = fds d -> handles_kept (-1) N d d' -> handles_kept fd N d d'.
Proof.
  intros Hd Hfds (H1 & H2 & H3). split; [done|]. split; [by intros; rewrite Hfds|].
  intros f n p Hf Hn. destruct (decide (f = -1)) as [->|]; [|by apply H3].
  assert (fds d !! (-1) = None) as Hnone.
  { destruct (fds d !! (-1)) as [[i q]|] eqn:Hi; [|done]. destruct (fds_pos _ Hd _ _ _ Hi). unfold dir_fd in *. lia. }
  unfold handle. rewrite Hfds, Hnone. split; by intros (i & ? & _).
Qed.

Section Ops.
Context (opts : SegOptions) (algorithms : bytes -> option (bytes -> bytes)) `{!AlgorithmLaws algorithms}.
Context `{ProtoBuf LogEntry} `{ProtoBufText LogEntry} `{!ProtoBufLaws LogEntry} `{!ProtoBufTextLaws LogEntry}.
Context `{ProtoBuf SegMetadata} `{ProtoBufText SegMetadata} `{!ProtoBufLaws SegMetadata} `{!ProtoBufTextLaws SegMetadata}.
Hypothesis Hopts : options_ok opts algorithms.
Let Hknown : is_Some (algorithms (checksumAlgorithm opts)) := algorithm_known _ _ Hopts.

Abbreviation img := (image opts algorithms).
Abbreviation plc := (placed opts algorithms).
Abbreviation sfb := (sf_bytes opts algorithms).
Abbreviation sfi := (sf_image opts algorithms).
Abbreviation sfc := (sf_content opts algorithms).
Abbreviation fok := (sf_ok opts algorithms).
Abbreviation pair_of := (sf_pair opts algorithms).
Abbreviation open_pair := (open_pair opts algorithms).
Abbreviation rep := (rep opts algorithms).
Abbreviation files_on := (files_on opts algorithms).
Abbreviation holds_log := (holds_log opts algorithms).
Abbreviation survives := (survives opts algorithms).
Abbreviation inv := (inv opts algorithms).
Abbreviation meta_rep := (meta_rep opts algorithms).
Abbreviation prepared_file := (prepared_file opts algorithms).
Abbreviation closed_file := (closed_file opts algorithms).

(** ** The segment files of the directory *)

Lemma rep_files l d a b closed opens prepared :
  rep l d a b closed opens prepared -> files_on d (closed ++ opens ++ prepared) (counter l).
Proof. by intros []. Qed.

(** ** Putting the invariant together again *)

(** What an operation touches: a descriptor that is not of a prepared file, and
    names that are not of one. *)
Definition touches (d : Disk) (prepared : list seg_file) (fd : Z) (N : list string) : Prop :=
  (fd < 0 \/ fds d !! fd = None \/ exists name p, handle d fd name p /\ name ∉ map sf_name prepared) /\
  (forall f, f ∈ prepared -> sf_name f ∉ N).

Lemma prepared_step d d' fd N prepared xs :
  disk_ok d -> handles_kept fd N d d' -> touches d prepared fd N ->
  Forall2 (prepared_file d) prepared xs -> Forall2 (prepared_file d') prepared xs.
Proof.
  intros Hd (_ & _ & Hk) [Hfd HN] Hp. induction Hp as [|f x prepared xs (H1' & H2' & H3' & H4' & H5') _ IH]; [constructor|].
  constructor.
  - repeat (split; [done|]). apply Hk; [|apply HN; set_solver|done]. intros <-. destruct Hfd as [Hfd|[Hfd|(name & p & Hh & Hn)]].
    + pose proof (handle_fresh _ _ _ _ Hd H5'). unfold dir_fd in *. lia.
    + destruct H5' as (i & Hi & _). congruence.
    + destruct (handle_name _ _ _ _ _ _ Hd Hh H5') as [Heq _]. apply Hn. rewrite <-Heq. by left.
  - apply IH; [|set_solver]. destruct Hfd as [Hfd|[Hfd|(name & p & Hh & Hn)]]; [by left|by right; left|right; right]. exists name, p. set_solver.
Qed.

Lemma rep_again l l' d d' a b a' b' closed opens closed' opens' prepared fd N :
  rep l d a b closed opens prepared -> disk_ok d' -> handles_kept fd N d d' -> touches d prepared fd N ->
  preparedSegments l' = preparedSegments l ->
  segmentsByStartIndex l' = map pair_of closed' ++ map open_pair opens' ->
  chain a' (map pair_of closed') b' ->
  1 <= a' <= logStartIndex l' /\ b' < u64_max - 1 /\
    match closed' ++ opens' with [] => b' = logStartIndex l' | f :: _ => logStartIndex l' <= sf_end f + 1 end ->
  Forall closed_file closed' ->
  match opens' with [] => openSegmentFile l' < 0 | [o] => open_file opts algorithms l' d' o /\ sf_start o = b' | _ => False end ->
  files_on d' (closed' ++ opens' ++ prepared) (counter l) ->
  totalClosedSegmentBytes l' = u64 (bytes_of opts algorithms closed') ->
  rep l' d' a' b' closed' opens' prepared.
Proof.
  intros Hr Hd' Hk Ht Hp Hsegs Hc Hs Hcl Ho [Hf1 Hf2 Hf3 Hf4] Htot. pose proof (rep_disk _ _ _ _ _ _ _ _ _ Hr) as Hd.
  split; rewrite ?Hp; try done; [|apply (rep_running _ _ _ _ _ _ _ _ _ Hr)].
  eapply prepared_step; [exact Hd|done|done|]. apply (rep_prepared _ _ _ _ _ _ _ _ _ Hr).
Qed.

(** More operations are queued. *)
Lemma pending_more l l' out d d' ops' :
  pending l out d -> exec ops' d = Ok (tt, d') -> sl_disk l' = sl_disk l ->
  ops (sl_currentSync l') = ops (sl_currentSync l) ++ ops' -> counter l' = counter l ->
  Forall (op_known (counter l)) ops' -> pending l' out d'.
Proof.
  intros [H1' H2' H3' H4'] Hexec Hdisk Hops Hcnt Hk. split; rewrite ?Hdisk, ?Hops, ?app_assoc; try done.
  - rewrite exec_app. unfold bind. by rewrite H2'.
  - fold (counter l'). rewrite Hcnt. by apply Forall_app.
Qed.

Lemma meta_rep_kept l l' d d' :
  sl_metadata l' = sl_metadata l -> logStartIndex l' = logStartIndex l ->
  (forall n, (exists a b, n = closed_filename a b) \/ (exists id, n = open_filename id) \/ contents_of d' n = contents_of d n) ->
  meta_rep l d -> meta_rep l' d'.
Proof.
  intros Hm Hs Hc. apply (meta_rep_same opts algorithms); [done|done|]. intros v.
  destruct (Hc (metadata_filename v)) as [(a & b & Heq)|[(id & Heq)|Heq]]; [|..|done].
  - by apply metadata_not_closed in Heq.
  - by apply metadata_not_open in Heq.
Qed.

(** ** Closing a segment file *)

(** What is done to the file of the open segment when it is closed. *)
Definition close_ops (fd : Z) (o : seg_file) : list Op.t :=
  [Op.TRUNCATE fd (sfb o); Op.FSYNC fd; Op.CLOSE fd; Op.RENAME dir_fd (sf_name o) (sf_closed_name o); Op.FSYNC dir_fd].

Lemma open_name_relative f : fok f -> startsWith (sf_name f) "/" = false /\ startsWith (sf_closed_name f) "/" = false.
Proof. intros Hf. split; [by eapply sf_relative|apply closed_relative]. Qed.

Lemma open_not_closed f : fok f -> sf_open f = true -> sf_name f <> sf_closed_name f.
Proof.
  intros Hf Ho. pose proof (sf_named _ _ _ Hf) as Hn. rewrite Ho in Hn. destruct Hn as (id & _ & ->).
  apply not_eq_sym, closed_not_open.
Qed.

Lemma close_ops_run fd o p rest d :
  fok o -> sf_open o = true -> disk_ok d -> handle d fd (sf_name o) p -> contents_of d (sf_name o) = Some (sfi o ++ rest) ->
  exists d', exec (close_ops fd o) d = Ok (tt, d') /\ disk_ok d' /\
    (forall n, contents_of d' n = <[sf_closed_name o := Some (sfi o)]> (<[sf_name o := None]> (contents_of d)) n) /\
    handles_kept fd [sf_name o; sf_closed_name o] d d'.
Proof.
  intros Ho Hopen Hd Hh Hc. destruct (open_name_relative o Ho) as [Hr1 Hr2].
  assert (safe (exec (close_ops fd o)) (fun _ d' => disk_ok d' /\
    (forall n, contents_of d' n = <[sf_closed_name o := Some (sfi o)]> (<[sf_name o := None]> (contents_of d)) n) /\
    handles_kept fd [sf_name o; sf_closed_name o] d d') d) as ([] & d' & Hrun & Hpost)%safe_run.
  2: { by exists d'. }
  apply wp_bind. eapply wp_truncate; [done..|by apply (sf_bytes_max opts algorithms)|]. intros d1 Hd1 Hc1 Hh1 Hk1.
  apply wp_bind. eapply wp_fsync; [done|]. destruct Hh1 as (i & Hfd1 & _).
  apply wp_bind. eapply wp_close; [done..|]. intros d2 Hd2 Hc2 Hk2 _.
  assert (contents_of d2 (sf_name o) = Some (sfi o)) as Hc2o.
  { rewrite Hc2, Hc1, fn_lookup_insert. do 2 f_equal. rewrite <-(sf_image_length opts algorithms o), Nat2Z.id.
    rewrite take_app_length, length_app. replace (_ - _)%nat with 0%nat by lia. apply app_nil_r. }
  apply wp_bind. eapply wp_rename; [done|done|done|by apply open_not_closed|done|]. intros d3 Hd3 Hc3 Hk3 Hf3.
  apply wp_bind, wp_fsync_dir, wp_ret. split; [done|]. split.
  - intros n. rewrite Hc3. destruct (decide (n = sf_closed_name o)) as [->|]; [by rewrite !fn_lookup_insert|].
    rewrite !(fn_lookup_insert_ne _ (sf_closed_name o)) by done.
    destruct (decide (n = sf_name o)) as [->|]; [by rewrite !fn_lookup_insert|].
    by rewrite !fn_lookup_insert_ne, Hc2, Hc1, fn_lookup_insert_ne.
  - eapply handles_kept_trans; [by apply handles_kept_nil, Hk1|].
    eapply handles_kept_trans; [by apply handles_kept_nil, Hk2|]. by apply handles_kept_names.
Qed.

(** Every part of [close_ops]: the zeros are cut off, then the file has its name. *)
Lemma close_ops_part fd o p rest d op q r d' :
  fok o -> sf_open o = true -> disk_ok d -> handle d fd (sf_name o) p -> contents_of d (sf_name o) = Some (sfi o ++ rest) ->
  close_ops fd o = op :: q ++ r -> exec (op :: q) d = Ok (tt, d') ->
  disk_ok d' /\ ((forall n, contents_of d' n = <[sf_name o := Some (sfi o)]> (contents_of d) n) \/
    (forall n, contents_of d' n = <[sf_closed_name o := Some (sfi o)]> (<[sf_name o := None]> (contents_of d)) n)).
Proof.
  intros Ho Hopen Hd Hh Hc Hops Hexec. destruct (close_ops_run fd o p rest d Ho Hopen Hd Hh Hc) as (d5 & Hall & Hd5 & Hc5 & _).
  assert (safe (exec [Op.TRUNCATE fd (sfb o)]) (fun _ d1 => disk_ok d1 /\
    (forall n, contents_of d1 n = <[sf_name o := Some (sfi o)]> (contents_of d) n)) d) as ([] & d1 & Hrun1 & Hd1 & Hc1)%safe_run.
  { apply wp_bind. eapply wp_truncate; [done..|by apply (sf_bytes_max opts algorithms)|]. intros d1 Hd1 Hc1 _ _. apply wp_ret.
    split; [done|]. intros n. rewrite Hc1, <-(sf_image_length opts algorithms o), Nat2Z.id, take_app_length, length_app.
    replace (_ - _)%nat with 0%nat by lia. by rewrite app_nil_r. }
  assert (forall op d1 d2, (exists f, op = Op.FSYNC f \/ op = Op.CLOSE f) -> exec_op op d1 = Ok (tt, d2) ->
    disk_ok d1 -> disk_ok d2 /\ forall n, contents_of d2 n = contents_of d1 n) as Hsame.
  { intros x e1 e2 Hx Hx1 He1. destruct (exec_op_ok _ _ _ He1 Hx1) as [He2 _]. split; [done|].
    destruct Hx as (f & [-> | ->]); cbn [exec_op] in Hx1.
    - unfold fsync, bind, get, ret, fail in Hx1. destruct (_ || _); [by injection Hx1 as <-|done].
    - unfold close, bind, get, put, ret, fail in Hx1. destruct (f <? 0); [by injection Hx1 as <-|].
      destruct (fds e1 !! f); [by injection Hx1 as <-|done]. }
  unfold close_ops in Hops, Hall. injection Hops as <- Hops. rewrite exec_cons in Hexec, Hall.
  rewrite exec_cons in Hrun1. apply bind_Ok in Hrun1 as ([] & x1 & Hx1 & Hrun1). injection Hrun1 as ->.
  unfold bind at 1 in Hexec. unfold bind at 1 in Hall. rewrite Hx1 in Hexec, Hall.
  assert (forall e, disk_ok e -> (forall n, contents_of e n = contents_of d1 n) ->
    disk_ok e /\ ((forall n, contents_of e n = <[sf_name o := Some (sfi o)]> (contents_of d) n) \/
    (forall n, contents_of e n = <[sf_closed_name o := Some (sfi o)]> (<[sf_name o := None]> (contents_of d)) n))) as Hleft.
  { intros e He Hce. split; [done|]. left. intros n. by rewrite Hce, Hc1. }
  destruct q as [|y q]; [injection Hexec as <-; by apply Hleft|]. injection Hops as <- Hops.
  rewrite exec_cons in Hexec, Hall. apply bind_Ok in Hall as ([] & d2 & Hx2 & Hall). unfold bind at 1 in Hexec. rewrite Hx2 in Hexec.
  destruct (Hsame _ _ _ ltac:(by eexists; left) Hx2 Hd1) as [Hd2 Hc2].
  destruct q as [|y q]; [injection Hexec as <-; by apply Hleft|]. injection Hops as <- Hops.
  rewrite exec_cons in Hexec, Hall. apply bind_Ok in Hall as ([] & d3 & Hx3 & Hall). unfold bind at 1 in Hexec. rewrite Hx3 in Hexec.
  destruct (Hsame _ _ _ ltac:(by eexists; right) Hx3 Hd2) as [Hd3 Hc3].
  destruct q as [|y q]; [injection Hexec as <-; apply Hleft; [done|]; intros n; by rewrite Hc3, Hc2|]. injection Hops as <- Hops.
  rewrite exec_cons in Hexec, Hall. apply bind_Ok in Hall as ([] & d4 & Hx4 & Hall). unfold bind at 1 in Hexec. rewrite Hx4 in Hexec.
  destruct (exec_op_ok _ _ _ Hd3 Hx4) as [Hd4 _].
  rewrite exec_cons in Hall. apply bind_Ok in Hall as ([] & x5 & Hx5 & Hall). injection Hall as ->.
  destruct (Hsame _ _ _ ltac:(by eexists; left) Hx5 Hd4) as [_ Hc4].
  assert (d' = d4 \/ d' = d5) as [-> | ->].
  { destruct q as [|y q]; [injection Hexec as <-; by left|]. injection Hops as <- Hops. symmetry in Hops. apply app_eq_nil in Hops as [-> ->].
    rewrite exec_cons in Hexec. unfold bind in Hexec. rewrite Hx5 in Hexec. injection Hexec as <-. by right. }
  - split; [done|]. right. intros n. by rewrite <-Hc4, Hc5.
  - split; [done|]. right. apply Hc5.
Qed.

(** The files after the open one was closed. *)
Lemma closed_name_fresh l d a b closed opens prepared o :
  rep l d a b closed opens prepared -> fok o -> sf_start o = b -> sf_closed_name o ∉ map sf_name (closed ++ prepared).
Proof.
  intros Hr Ho Hb (f & Heq & Hf)%list_elem_of_fmap. destruct (file_u64 _ _ o Ho) as [U V].
  apply elem_of_app in Hf as [Hf|Hf].
  - pose proof (rep_closed _ _ _ _ _ _ _ _ _ Hr) as Hc. rewrite Forall_forall in Hc. destruct (Hc _ Hf) as (Hok & Hfo & _).
    pose proof (sf_named _ _ _ Hok) as Hn. rewrite Hfo in Hn. destruct Hn as [Hn _]. rewrite Hn in Heq.
    destruct (file_u64 _ _ f Hok) as [U' V']. apply closed_filename_inj in Heq as [Heq _]; [|done..].
    pose proof (chain_keys _ _ _ (rep_chain _ _ _ _ _ _ _ _ _ Hr)) as Hkeys. rewrite Forall_forall in Hkeys.
    assert (key_lt (sf_start f) b) as Hlt by (apply (Hkeys (pair_of f)); by apply list_elem_of_fmap_2). change (sf_start f < b) in Hlt. lia.
  - pose proof (rep_prepared _ _ _ _ _ _ _ _ _ Hr) as Hp. apply list_elem_of_lookup in Hf as [j Hj].
    destruct (Forall2_lookup_l _ _ _ _ _ Hp Hj) as (x & _ & (Hok & Hfo & _)).
    pose proof (sf_named _ _ _ Hok) as Hn. rewrite Hfo in Hn. destruct Hn as (id & _ & Hn).
    rewrite Hn in Heq. by apply closed_not_open in Heq.
Qed.

(** The open segment [o], perhaps cut off to [o'], is closed. *)
Lemma rep_close_open l l' d d' a b closed o o' prepared :
  rep l d a b closed [o] prepared -> fok o' -> sf_open o' = true -> sf_entries o' <> [] ->
  sf_name o' = sf_name o -> sf_start o' = sf_start o -> sf_end o' + 1 < u64_max - 1 -> logStartIndex l <= sf_end o' + 1 ->
  disk_ok d' -> (forall n, contents_of d' n = <[sf_closed_name o' := Some (sfi o')]> (<[sf_name o := None]> (contents_of d)) n) ->
  handles_kept (openSegmentFile l) [sf_name o; sf_closed_name o'] d d' ->
  preparedSegments l' = preparedSegments l -> logStartIndex l' = logStartIndex l -> openSegmentFile l' < 0 ->
  segmentsByStartIndex l' = map pair_of (closed ++ [closed_of o']) ->
  totalClosedSegmentBytes l' = u64 (totalClosedSegmentBytes l + sfb o') ->
  rep l' d' a (sf_end o' + 1) (closed ++ [closed_of o']) [] prepared.
Proof.
  intros Hr Ho' Hopen' Hne Hname Hstart Hmax Hlog Hd' Hc Hk Hp Hs Hopen Hsegs Htot.
  pose proof (rep_opens _ _ _ _ _ _ _ _ _ Hr) as [(Ho & Hoo & Hh) Hb].
  pose proof (rep_files _ _ _ _ _ _ _ Hr) as Hfiles. pose proof (fo_names _ _ _ _ _ Hfiles) as Hnd.
  assert (sf_closed_name o' ∉ map sf_name (closed ++ prepared)) as Hfree by (eapply closed_name_fresh; [done|done|congruence]).
  assert (closed_file (closed_of o')) as Hcl.
  { apply (closed_of_ok opts algorithms (sf_end o')); [done|]. unfold sf_kept. destruct (sf_entries o'); [done|]. by apply Z.leb_refl. }
  assert (sf_name o ∉ map sf_name prepared) as Hop.
  { rewrite !map_app, !NoDup_app in Hnd. destruct Hnd as (_ & _ & _ & Hdis & _). apply Hdis. cbn. by left. }
  pose proof (rep_chain _ _ _ _ _ _ _ _ _ Hr) as Hchain. pose proof (rep_start _ _ _ _ _ _ _ _ _ Hr) as (Ha & _ & Hfirst).
  eapply rep_again; [exact Hr|done|exact Hk| |done|..].
  - split; [right; right; by exists (sf_name o), (sfb o)|]. intros f Hf. rewrite !not_elem_of_cons. split; [|split; [|apply not_elem_of_nil]].
    + intros Heq. apply Hop. rewrite <-Heq. by apply list_elem_of_fmap_2.
    + intros Heq. apply Hfree. rewrite <-Heq. apply list_elem_of_fmap_2. set_solver.
  - rewrite Hsegs. symmetry. apply app_nil_r.
  - rewrite map_app. apply chain_app. exists b. split; [done|]. cbn. rewrite <-Hb, <-Hstart.
    split; [exact (sf_segment_ok opts algorithms o' Ho')|]. split; [done|].
    change (sf_end (closed_of o')) with (sf_end o'). unfold sf_end. destruct (sf_entries o'); [done|]. cbn [length]. lia.
  - rewrite Hs. split; [done|]. split; [done|]. rewrite app_nil_r. destruct closed as [|f closed]; [exact Hlog|exact Hfirst].
  - apply Forall_app. split; [apply (rep_closed _ _ _ _ _ _ _ _ _ Hr)|]. by constructor.
  - done.
  - eapply (files_on_perm opts algorithms _ (closed_of o' :: closed ++ prepared)); [by rewrite app_nil_l, <-app_assoc, Permutation_middle|].
    eapply (files_on_rename opts algorithms d d' o); [| | |eapply files_on_perm, Hfiles; by rewrite Permutation_middle].
    + intros n. rewrite (closed_of_content opts algorithms). apply Hc.
    + done.
    + exact Hfree.
  - rewrite Htot, (rep_total _ _ _ _ _ _ _ _ _ Hr), u64_add_l. f_equal. rewrite (bytes_of_snoc opts algorithms). done.
Qed.

(** ** [append] *)

Lemma rep_entries_close closed o : rep_entries (closed ++ [closed_of o]) [] = rep_entries closed [o].
Proof. unfold rep_entries. by rewrite app_nil_r, !map_app. Qed.

Lemma rep_entries_open closed o : rep_entries closed [o] = rep_entries closed [] ++ sf_entries o.
Proof. unfold rep_entries. rewrite app_nil_r, map_app, concat_app. cbn. by rewrite app_nil_r. Qed.

(** The zeros after the open segment are cut off. *)
Lemma rep_trimmed l d a b closed o prepared d1 :
  rep l d a b closed [o] prepared -> sf_entries o <> [] -> disk_ok d1 ->
  (forall n, contents_of d1 n = <[sf_name o := Some (sfi o)]> (contents_of d) n) ->
  holds_log d1 (counter l) a (rep_entries closed [o]).
Proof.
  intros Hr Hne Hd1 Hc1. destruct (rep_opens _ _ _ _ _ _ _ _ _ Hr) as [(Ho & _) _].
  pose proof (rep_log_files opts algorithms l d a b closed [o] [] prepared Hr ltac:(by constructor) ltac:(by constructor)) as Hlf.
  set (o0 := mk_seg_file (sf_name o) (sf_open o) (sf_start o) (sf_entries o) 0).
  assert (sfc o0 = sfi o) as Hc0 by (unfold sf_content; cbn; by rewrite app_nil_r).
  exists (closed ++ [o0]), ([] ++ prepared). split; [|unfold rep_entries; by rewrite !map_app].
  eapply (log_files_zeros opts algorithms d d1 _ _ closed o o0); try done; [intros n; by rewrite Hc1, Hc0|].
  destruct Ho as [H1' H2' H3' H4' H5' H6']. split; [exact H1'|exact H2'|exact H3'|exact H4'| |exact H6'].
  rewrite Hc0. unfold sf_content in H5'. rewrite length_app in H5'. lia.
Qed.

(** The last segment is the open one. *)
Lemma rep_last l d a b closed o prepared :
  rep l d a b closed [o] prepared ->
  segmentsByStartIndex l = map pair_of closed ++ [(b, open_segment opts algorithms o)] /\
  om_last (segmentsByStartIndex l) = Some (b, open_segment opts algorithms o) /\
  Forall (fun x => key_lt x.1 b) (map pair_of closed).
Proof.
  intros Hr. destruct (rep_opens _ _ _ _ _ _ _ _ _ Hr) as [_ Hb]. pose proof (rep_segments _ _ _ _ _ _ _ _ _ Hr) as Hs.
  cbn in Hs. unfold SegmentedLogRep.open_pair in Hs. rewrite Hb in Hs. rewrite Hs, om_last_app. split; [done|]. split; [done|].
  eapply chain_keys, (rep_chain _ _ _ _ _ _ _ _ _ Hr).
Qed.

(** The state before the new segment is opened. *)
Definition rolled_over (l : SegmentedLog) (closed : list seg_file) (o : seg_file) : SegmentedLog :=
  (((l <| openSegmentFile := -1 |>)
      <| sl_currentSync := (sl_currentSync l) <| ops := ops (sl_currentSync l) ++ close_ops (openSegmentFile l) o |> |>)
     <| segmentsByStartIndex := map pair_of (closed ++ [closed_of o]) |>)
    <| totalClosedSegmentBytes := u64 (totalClosedSegmentBytes l + sfb o) |>.

Lemma roll_over_run l d a b closed o prepared :
  rep l d a b closed [o] prepared -> roll_over opts l = openNewSegment opts (rolled_over l closed o).
Proof.
  intros Hr. destruct (rep_last _ _ _ _ _ _ _ Hr) as (Hsegs & Hlast & Hkeys). destruct (rep_opens _ _ _ _ _ _ _ _ _ Hr) as [_ Hb].
  unfold roll_over, getOpenSegment. unfold bind at 1, bind at 1, get at 1. rewrite Hlast. unfold ret at 1. cbv beta iota.
  transitivity (openNewSegment opts (((((((l
    <| sl_currentSync := (sl_currentSync l) <| ops := (((ops (sl_currentSync l) ++ [Op.TRUNCATE (openSegmentFile l) (sfb o)])
         ++ [Op.FSYNC (openSegmentFile l)]) ++ [Op.CLOSE (openSegmentFile l)])
         ++ [Op.RENAME dir_fd (sf_name o) (sf_closed_name o)] |> <| ops := ((((ops (sl_currentSync l) ++ [Op.TRUNCATE (openSegmentFile l) (sfb o)])
         ++ [Op.FSYNC (openSegmentFile l)]) ++ [Op.CLOSE (openSegmentFile l)])
         ++ [Op.RENAME dir_fd (sf_name o) (sf_closed_name o)]) ++ [Op.FSYNC dir_fd] |> |>)
    <| openSegmentFile := -1 |>)
    <| segmentsByStartIndex := om_set (segmentsByStartIndex l) b (sf_segment opts algorithms o) |>)
    <| totalClosedSegmentBytes := u64 (totalClosedSegmentBytes l + sfb o) |>))))); [reflexivity|].
  rewrite Hsegs, om_set_last by done. unfold rolled_over. rewrite <-!app_assoc, map_app. cbn [app map]. unfold sf_pair at 3. 
  change (sf_start (closed_of o)) with (sf_start o). rewrite Hb. reflexivity.
Qed.

Lemma close_ops_known l d a b closed o o' prepared :
  rep l d a b closed [o] prepared -> sf_name o' = sf_name o ->
  Forall (op_known (counter l)) (close_ops (openSegmentFile l) o').
Proof.
  intros Hr Hname. destruct (rep_opens _ _ _ _ _ _ _ _ _ Hr) as [(Ho & Hoo & _) _].
  pose proof (sf_named _ _ _ Ho) as Hn. rewrite Hoo in Hn. destruct Hn as (id & Hid & Hn).
  assert (op_known (counter l) (Op.RENAME dir_fd (sf_name o') (sf_closed_name o'))) as Hrename.
  2: { unfold close_ops. do 3 (apply Forall_cons; split; [apply Forall_nil_2|]). apply Forall_cons. split; [exact Hrename|].
    apply Forall_cons. split; apply Forall_nil_2. }
  apply Forall_cons. split; [|apply Forall_cons; split; [left; by eexists _, _|by apply Forall_nil]].
  right. exists id. split; [done|]. split; [|by rewrite Hname]. apply (rep_ids _ _ _ _ _ _ _ _ _ Hr o); [set_solver|]. unfold sf_id. by rewrite Hoo, Hn, scan_open_filename.
Qed.

Lemma closed_or_open f : fok f -> (exists a b, sf_name f = closed_filename a b) \/ (exists id, sf_name f = open_filename id).
Proof. intros [(a & b & Hn & _)|(id & _ & Hn & _)]%file_named; [left; by eexists _, _|right; by eexists]. Qed.

Lemma roll_over_inv l out d a b closed o prepared :
  inv l out d a b closed [o] prepared -> sf_entries o <> [] -> sf_end o + 1 < u64_max - 1 -> logStartIndex l <= sf_end o + 1 ->
  counter l < u64_max - 1 ->
  exists l' d' o' prepared', roll_over opts l = Ok (tt, l') /\
    inv l' out d' a (sf_end o + 1) (closed ++ [closed_of o]) [o'] prepared' /\ sf_entries o' = [] /\ kept_fields l l' /\ unwritten l' = unwritten l.
Proof.
  intros [Hp Hr Hm Hsur] Hne Hmax Hlog Hcnt. destruct (rep_opens _ _ _ _ _ _ _ _ _ Hr) as [(Ho & Hoo & Hh) Hb].
  pose proof (rep_contents _ _ _ _ _ _ _ _ _ Hr o ltac:(set_solver)) as Hco. unfold sf_content in Hco.
  pose proof (rep_disk _ _ _ _ _ _ _ _ _ Hr) as Hd.
  destruct (close_ops_run _ _ _ _ _ Ho Hoo Hd Hh Hco) as (d' & Hrun & Hd' & Hc' & Hk).
  assert (rep (rolled_over l closed o) d' a (sf_end o + 1) (closed ++ [closed_of o]) [] prepared) as Hr' by by eapply (rep_close_open l).
  assert (inv (rolled_over l closed o) out d' a (sf_end o + 1) (closed ++ [closed_of o]) [] prepared) as Hinv.
  { split; [|done| |].
    - eapply pending_more; [exact Hp|exact Hrun|done..|]. by eapply close_ops_known.
    - eapply (meta_rep_kept l); [done|done| |done]. intros n. rewrite Hc'.
      destruct (decide (n = sf_closed_name o)) as [->|]; [left; by eexists _, _|]. rewrite fn_lookup_insert_ne by done.
      destruct (decide (n = sf_name o)) as [->|]; [|right; right; by rewrite fn_lookup_insert_ne].
      destruct (closed_or_open o Ho) as [Hn|Hn]; auto.
    - rewrite rep_entries_close. eapply (survives_more opts algorithms l _ out _ d); [exact Hsur|apply Hp|done..| |done|].
      { by destruct (rep_start _ _ _ _ _ _ _ _ _ Hr) as ((_ & ?) & _). }
      intros op p r d2 Hops Hexec. split.
      { apply (f_equal writes) in Hops. change (op :: p ++ r) with ((op :: p) ++ r) in Hops. rewrite writes_app in Hops. cbn in Hops. lia. }
      destruct (close_ops_part _ _ _ _ _ _ _ _ _ Ho Hoo Hd Hh Hco Hops Hexec) as [Hd2 [Hc2|Hc2]]; [by eapply rep_trimmed|].
      rewrite <-rep_entries_close. apply (holds_log_same opts algorithms d'); [done|intros n; by rewrite Hc2, Hc'|].
      apply (rep_holds opts algorithms _ _ _ _ _ _ _ Hr'). }
  destruct (openNewSegment_inv opts algorithms Hopts _ _ _ _ _ _ _ Hinv Hcnt) as (l2 & d2 & o2 & prepared2 & Hrun2 & Hinv2 & Hes & [K1 K2 K3 K4] & Hsync).
  exists l2, d2, o2, prepared2. rewrite (roll_over_run _ _ _ _ _ _ _ Hr). split; [done|]. split; [done|]. split; [done|].
  split; [by split|]. unfold unwritten. rewrite Hsync. cbn [sl_currentSync rolled_over set_field ops]. rewrite writes_app. apply Nat.add_0_r.
Qed.

(** Writing one record at the end of the open segment. *)
Definition appended_file (o : seg_file) (e : LogEntry) : seg_file :=
  mk_seg_file (sf_name o) (sf_open o) (sf_start o) (sf_entries o ++ [e])
    (sf_zeros o - length (record_bytes opts algorithms e)).

Lemma overwrite_end (c data : bytes) n :
  overwrite (c ++ zeros n) (length c) data = c ++ data ++ zeros (n - length data).
Proof.
  unfold overwrite, zeros. rewrite take_app_length, length_app, length_replicate.
  replace (_ - _)%nat with 0%nat by lia. cbn [replicate app]. do 2 f_equal.
  rewrite drop_app_ge by lia. replace (_ - _)%nat with (length data) by lia. apply drop_replicate.
Qed.

Lemma image_snoc es e : img (es ++ [e]) = img es ++ record_bytes opts algorithms e.
Proof. unfold image. rewrite map_app, concat_app. cbn. by rewrite app_nil_r. Qed.

Lemma appended_image o e : sfi (appended_file o e) = sfi o ++ record_bytes opts algorithms e.
Proof. unfold sf_image. cbn [sf_entries appended_file]. by rewrite image_snoc, app_assoc. Qed.

Lemma appended_bytes o e : sfb (appended_file o e) = sfb o + Z.of_nat (length (record_bytes opts algorithms e)).
Proof. unfold sf_bytes. cbn [sf_entries appended_file]. rewrite image_snoc, length_app. lia. Qed.

Lemma appended_end o e : sf_end (appended_file o e) = sf_end o + 1.
Proof. unfold sf_end. cbn [sf_start sf_entries appended_file]. rewrite length_app. cbn [length]. lia. Qed.

Lemma appended_ok o e :
  fok o -> encodable opts e -> Log.index e = Some (sf_end o + 1) -> sf_end o + 1 < u64_max - 1 ->
  sf_open o = true -> sfb (appended_file o e) < max_file -> fok (appended_file o e).
Proof.
  intros [H1' H2' H3' H4' H5' H6'] He Hi Hmax Hopen Hb. rewrite Hopen in H6'.
  split; [exact H1'|by rewrite appended_end| |by apply Forall_app; split; [|constructor]| |cbn; by rewrite Hopen].
  - intros j x [Hj|[Hlen Hj]]%lookup_app_Some; [by apply H3'|]. apply list_lookup_singleton_Some in Hj as [Hj <-].
    rewrite Hi. unfold sf_end. cbn [sf_start appended_file]. f_equal. lia.
  - rewrite sf_length in *. rewrite appended_image, length_app. cbn [sf_zeros appended_file].
    pose proof (sf_image_length opts algorithms (appended_file o e)) as Hl. rewrite appended_image, length_app in Hl. lia.
Qed.

Definition written (l : SegmentedLog) (closed : list seg_file) (o : seg_file) (e : LogEntry) : SegmentedLog :=
  (l <| segmentsByStartIndex := map pair_of closed ++ [open_pair (appended_file o e)] |>)
    <| sl_currentSync := (sl_currentSync l) <| ops :=
         ops (sl_currentSync l) ++ [Op.WRITE (openSegmentFile l) (record_bytes opts algorithms e)] |> |>.

Lemma rep_entries_appended closed o e : rep_entries closed [appended_file o e] = rep_entries closed [o] ++ [e].
Proof. by rewrite !rep_entries_open, <-app_assoc. Qed.

Lemma written_inv l out d a b closed o prepared e :
  inv l out d a b closed [o] prepared -> encodable opts e -> Log.index e = Some (sf_end o + 1) ->
  sf_end o + 1 < u64_max - 1 -> sfb (appended_file o e) < max_file ->
  exists d', inv (written l closed o e) out d' a b closed [appended_file o e] prepared.
Proof.
  intros [Hp Hr Hm Hsur] He Hi Hmax Hsize. destruct (rep_opens _ _ _ _ _ _ _ _ _ Hr) as [(Ho & Hoo & Hh) Hb].
  pose proof (rep_contents _ _ _ _ _ _ _ _ _ Hr o ltac:(set_solver)) as Hco. pose proof (rep_disk _ _ _ _ _ _ _ _ _ Hr) as Hd.
  pose proof (rep_files _ _ _ _ _ _ _ Hr) as Hfiles. pose proof (fo_names _ _ _ _ _ Hfiles) as Hnd.
  assert (fok (appended_file o e)) as Ho' by (by apply appended_ok).
  assert (wp (fun _ => False) (write (openSegmentFile l) (record_bytes opts algorithms e)) (fun _ d' => disk_ok d' /\
    (forall n, contents_of d' n = <[sf_name o := Some (sfc (appended_file o e))]> (contents_of d) n) /\
    handle d' (openSegmentFile l) (sf_name o) (sfb (appended_file o e)) /\ handles_kept (openSegmentFile l) [] d d') d)
    as ([] & d' & Hrun & Hd' & Hc' & Hh' & Hk)%safe_run.
  { eapply wp_write; [done|exact Hh|exact Hco|]. intros d' Hd' Hc' Hh' Hk. rewrite appended_bytes.
    split; [done|]. split; [|done]. intros n. rewrite Hc'. unfold sf_content. rewrite appended_image, <-(sf_image_length opts algorithms o), Nat2Z.id.
    by rewrite overwrite_end, <-app_assoc. }
  assert (rep (written l closed o e) d' a b closed [appended_file o e] prepared) as Hr'.
  { pose proof (rep_start _ _ _ _ _ _ _ _ _ Hr) as (Ha & Hb' & Hfirst).
    eapply rep_again; [exact Hr|done|exact Hk| |done|done|apply (rep_chain _ _ _ _ _ _ _ _ _ Hr)| |apply (rep_closed _ _ _ _ _ _ _ _ _ Hr)| | |].
    + split; [right; right; exists (sf_name o), (sfb o)|]. 2: { intros f _. apply not_elem_of_nil. }
      split; [done|]. rewrite !map_app, !NoDup_app in Hnd. destruct Hnd as (_ & _ & _ & Hdis & _). apply Hdis. cbn. by left.
    + split; [done|]. split; [done|]. destruct closed; [|done]. cbn [app] in *. change (logStartIndex (written l [] o e)) with (logStartIndex l).
      rewrite appended_end. lia.
    + split; [|done]. split; [done|]. split; [done|exact Hh'].
    + eapply (files_on_perm opts algorithms _ (appended_file o e :: closed ++ prepared)); [by rewrite Permutation_middle|].
      eapply (files_on_write opts algorithms d d' o); [done|done|done|]. eapply files_on_perm, Hfiles. by rewrite Permutation_middle.
    + apply (rep_total _ _ _ _ _ _ _ _ _ Hr). }
  exists d'. split; [|done| |].
  - eapply (pending_more l _ out d d' [Op.WRITE (openSegmentFile l) (record_bytes opts algorithms e)]); try done.
    + unfold exec, forM. cbn [exec_op]. unfold bind, ret. by rewrite Hrun.
    + apply Forall_cons. split; apply Forall_nil_2.
  - eapply (meta_rep_kept l); [done|done| |done]. intros n. rewrite Hc'.
    destruct (decide (n = sf_name o)) as [->|]; [|right; right; by rewrite fn_lookup_insert_ne].
    destruct (closed_or_open o Ho) as [Hn|Hn]; auto.
  - eapply (survives_push opts algorithms l _ out _ d d'); [exact Hsur|apply Hp| |done..| | |].
    + cbn [exec_op]. exact Hrun.
    + apply (rep_holds opts algorithms _ _ _ _ _ _ _ Hr').
    + by destruct (rep_start _ _ _ _ _ _ _ _ _ Hr) as ((_ & ?) & _).
    + intros start n _. rewrite rep_entries_appended. apply live_snoc.
Qed.


(** The code that writes [e] to the open segment, and what follows. *)
Lemma write_run {A} l d a b closed o prepared e (k : M SegmentedLog A) :
  rep l d a b closed [o] prepared -> sf_end o + 1 < u64_max - 1 -> sfb (appended_file o e) < max_file -> 
  (let! (k0, openSegment) := getOpenSegment in
   set_segment k0 (openSegment
     <| seg_entries := seg_entries openSegment ++ [mkSegRecord (seg_bytes openSegment) e] |>
     <| seg_bytes := u64 (seg_bytes openSegment + Z.of_nat (length (record_bytes opts algorithms e))) |>
     <| seg_endIndex := u64 (seg_endIndex openSegment + 1) |>) ;;;
   let! l := get in
   push_op (Op.WRITE (openSegmentFile l) (record_bytes opts algorithms e)) ;;; k) l = k (written l closed o e).
Proof.
  intros Hr Hmax Hsize. destruct (rep_last _ _ _ _ _ _ _ Hr) as (Hsegs & Hlast & Hkeys).
  destruct (rep_opens _ _ _ _ _ _ _ _ _ Hr) as [(Ho & _) Hb].
  rewrite appended_bytes in Hsize. pose proof (sf_start_pos _ _ _ Ho) as Hpos. unfold max_file in Hsize.
  assert (om_set (segmentsByStartIndex l) b ((open_segment opts algorithms o)
    <| seg_entries := plc header_size (sf_entries o) ++ [mkSegRecord (sfb o) e] |>
    <| seg_bytes := u64 (sfb o + Z.of_nat (length (record_bytes opts algorithms e))) |>
    <| seg_endIndex := u64 (sf_end o + 1) |>) = map pair_of closed ++ [open_pair (appended_file o e)]) as Hset.
  { rewrite Hsegs, om_set_last by done. unfold SegmentedLogRep.open_pair, SegmentedLogRep.open_segment.
    rewrite appended_end, appended_bytes. cbn [sf_start sf_entries sf_name appended_file]. rewrite Hb, (placed_app opts algorithms).
    unfold sf_end, sf_bytes, header_size in *. rewrite !u64_small by (unfold is_u64, u64_max in *; lia). done. }
  unfold getOpenSegment. unfold bind at 1, bind at 1, get at 1. rewrite Hlast. unfold ret at 1. cbv beta iota.
  unfold set_segment. unfold bind at 1, modify at 1. unfold bind at 1, get at 1. unfold bind at 1, push_op, modify at 1.
  cbn [open_segment seg_entries seg_bytes seg_endIndex]. unfold written. rewrite <-Hset. reflexivity.
Qed.

Lemma rep_log_end l d a b closed o prepared :
  rep l d a b closed [o] prepared -> logStartIndex l <= sf_end o + 1 /\ 1 <= sf_end o + 1.
Proof.
  intros Hr. destruct (rep_opens _ _ _ _ _ _ _ _ _ Hr) as [(Ho & _) Hb]. pose proof (rep_start _ _ _ _ _ _ _ _ _ Hr) as (Ha & _ & Hfirst).
  pose proof (rep_chain _ _ _ _ _ _ _ _ _ Hr) as Hchain. pose proof (chain_le _ _ _ Hchain) as Hab.
  assert (sf_start o <= sf_end o + 1) by (unfold sf_end; lia). split; [|lia].
  destruct closed as [|f closed]; cbn in Hfirst; [lia|]. destruct Hchain as (_ & _ & _ & Hc). apply chain_le in Hc. cbn in Hc. lia.
Qed.

Lemma record_bound e : encodable opts e -> Z.of_nat (length (record_bytes opts algorithms e)) < 2147484000.
Proof. apply (serializeProto_length opts algorithms), (record_bytes_ok opts algorithms Hknown). Qed.

(** What [append] does with one entry: perhaps a new segment, then the write. *)
Definition append_code (e : LogEntry) : M SegmentedLog unit :=
  let len := Z.of_nat (length (record_bytes opts algorithms e)) in
  let! (_, openSegment) := getOpenSegment in
  when ((header_size <? seg_bytes openSegment) && (MAX_SEGMENT_SIZE opts <? u64 (seg_bytes openSegment + len)))
    (roll_over opts).

Lemma append_code_inv l out d a b closed o prepared e :
  inv l out d a b closed [o] prepared -> encodable opts e -> sf_end o + 1 < u64_max - 1 -> counter l < u64_max - 1 ->
  exists l1 d1 b1 closed1 o1 prepared1, append_code e l = Ok (tt, l1) /\
    inv l1 out d1 a b1 closed1 [o1] prepared1 /\ rep_entries closed1 [o1] = rep_entries closed [o] /\
    sf_end o1 = sf_end o /\ kept_fields l l1 /\ sfb (appended_file o1 e) < max_file /\ unwritten l1 = unwritten l.
Proof.
  intros Hinv He Hmax Hcnt. pose proof (inv_rep _ _ _ _ _ _ _ _ _ _ Hinv) as Hr.
  destruct (rep_last _ _ _ _ _ _ _ Hr) as (Hsegs & Hlast & Hkeys). pose proof (rep_opens _ _ _ _ _ _ _ _ _ Hr) as [(Ho & Hoo & _) Hb].
  destruct (rep_log_end _ _ _ _ _ _ _ Hr) as [Hlog _]. pose proof (record_bound e He) as Hlen. pose proof (segment_size _ _ Hopts) as Hseg.
  pose proof (sf_bytes_max opts algorithms o Ho) as Hbytes. unfold TimePoint_max in Hbytes.
  assert (header_size <= sfb o) as Hlow by (unfold sf_bytes; lia).
  unfold append_code, getOpenSegment. unfold bind at 1, bind at 1, get. rewrite Hlast. unfold ret at 1. cbv beta iota.
  cbn [open_segment seg_bytes]. rewrite u64_small by (unfold is_u64, header_size in *; lia).
  destruct ((header_size <? sfb o) && _) eqn:Hroll.
  - apply andb_true_iff in Hroll as [Hroll%Z.ltb_lt _].
    assert (sf_entries o <> []) as Hne. { intros Hes. unfold sf_bytes in Hroll. rewrite Hes in Hroll. cbn in Hroll. lia. }
    destruct (roll_over_inv _ _ _ _ _ _ _ _ Hinv Hne Hmax Hlog Hcnt) as (l1 & d1 & o1 & prepared1 & Hrun & Hinv1 & Hes1 & Hk & Hun).
    exists l1, d1, (sf_end o + 1), (closed ++ [closed_of o]), o1, prepared1. split; [exact Hrun|]. split; [exact Hinv1|].
    destruct (rep_opens _ _ _ _ _ _ _ _ _ (inv_rep _ _ _ _ _ _ _ _ _ _ Hinv1)) as [_ Hb1].
    split; [rewrite rep_entries_open, Hes1, app_nil_r; apply rep_entries_close|]. split; [unfold sf_end at 1; rewrite Hes1; cbn; lia|].
    split; [done|]. split; [|done]. rewrite appended_bytes. unfold sf_bytes. rewrite Hes1. cbn. unfold max_file, header_size. lia.
  - exists l, d, b, closed, o, prepared. split; [done|]. split; [done|]. split; [done|]. split; [done|].
    split; [split; [done|done|done|lia]|]. split; [|done]. rewrite appended_bytes. unfold max_file.
    apply andb_false_iff in Hroll as [Hroll%Z.ltb_ge|Hroll%Z.ltb_ge]; unfold header_size in *; lia.
Qed.

(** The entries with their indexes. *)
Fixpoint numbered (i : Z) (es : list LogEntry) : list LogEntry :=
  match es with
  | [] => []
  | e :: es' => (e <| Log.index := Some i |>) :: numbered (i + 1) es'
  end.

(** What [append] may be called with. *)
Definition appendable (i : Z) (es : list LogEntry) : Prop :=
  Forall (encodable opts) (numbered i es) /\
  forall j e k, es !! j = Some e -> Log.index e = Some k -> k = i + Z.of_nat j.

Lemma appendable_cons i e es : appendable i (e :: es) ->
  encodable opts (e <| Log.index := Some i |>) /\ (Log.index e = None \/ Log.index e = Some i) /\ appendable (i + 1) es.
Proof.
  intros [Henc Hidx]. cbn in Henc. inversion Henc as [|? ? He Hes]. split; [done|]. split; [|split; [done|]].
  - destruct (Log.index e) as [k|] eqn:Hk; [right|by left]. rewrite (Hidx 0%nat e k) by done. f_equal. lia.
  - intros j y k Hj Hk. rewrite (Hidx (S j) y k) by done. lia.
Qed.

Lemma append_entries_inv es : forall l out d a b closed o prepared,
  inv l out d a b closed [o] prepared -> appendable (sf_end o + 1) es ->
  sf_end o + Z.of_nat (length es) < u64_max - 1 -> counter l + Z.of_nat (length es) < u64_max ->
  exists l1 d1 b1 closed1 o1 prepared1, append_entries opts algorithms (sf_end o + 1) es l = Ok (tt, l1) /\
    inv l1 out d1 a b1 closed1 [o1] prepared1 /\
    rep_entries closed1 [o1] = rep_entries closed [o] ++ numbered (sf_end o + 1) es /\
    sf_end o1 = sf_end o + Z.of_nat (length es) /\ logStartIndex l1 = logStartIndex l /\
    sl_metadata l1 = sl_metadata l /\ log_metadata l1 = log_metadata l /\ counter l1 <= counter l + Z.of_nat (length es) /\
    unwritten l1 = (unwritten l + length es)%nat.
Proof.
  induction es as [|e es IH]; intros l out d a b closed o prepared Hinv Hes Hmax Hcnt.
  { exists l, d, b, closed, o, prepared. cbn. rewrite app_nil_r. split_and!; try done; lia. }
  cbn [length] in Hmax, Hcnt. apply appendable_cons in Hes as (He & Hidx & Hes). set (e' := set_field _ _) in He.
  destruct (append_code_inv _ _ _ _ _ _ _ _ _ Hinv He) as (l1 & d1 & b1 & closed1 & o1 & prepared1 & Hrun & Hinv1 & Hent & Hend & [K1 K2 K3 K4] & Hsize & Hun1);
    [lia|lia|].
  destruct (written_inv _ _ _ _ _ _ _ _ e' Hinv1 He) as (d2 & Hinv2); [by rewrite Hend|lia|done|].
  destruct (IH _ _ _ _ _ _ _ _ Hinv2) as (l3 & d3 & b3 & closed3 & o3 & prepared3 & Hrun3 & Hinv3 & Hent3 & Hend3 & E1 & E2 & E3 & E4 & E5).
  { by rewrite appended_end, Hend. }
  { rewrite appended_end. lia. }
  { unfold counter in *. cbn. lia. }
  rewrite appended_end, Hend in Hrun3, Hent3, Hend3. exists l3, d3, b3, closed3, o3, prepared3.
  pose proof (rep_log_end _ _ _ _ _ _ _ (inv_rep _ _ _ _ _ _ _ _ _ _ Hinv)) as [_ Hpos].
  split; [|split_and!].
  - cbn [append_entries]. fold e'.
    assert (match Log.index e with Some i => assert_ (sf_end o + 1 =? i) | None => ret tt end = @ret SegmentedLog unit tt) as ->.
    { destruct Hidx as [->| ->]; [done|]. by rewrite Z.eqb_refl. }
    unfold bind at 1, ret at 1. unfold bind at 1, lift. rewrite (record_bytes_ok opts algorithms Hknown e').
    rewrite u64_small by (unfold is_u64, u64_max in *; lia).
    transitivity ((append_code e' ;;;
      let! (k0, openSegment) := getOpenSegment in
      set_segment k0 (openSegment
        <| seg_entries := seg_entries openSegment ++ [mkSegRecord (seg_bytes openSegment) e'] |>
        <| seg_bytes := u64 (seg_bytes openSegment + Z.of_nat (length (record_bytes opts algorithms e'))) |>
        <| seg_endIndex := u64 (seg_endIndex openSegment + 1) |>) ;;;
      let! l := get in
      push_op (Op.WRITE (openSegmentFile l) (record_bytes opts algorithms e')) ;;;
      append_entries opts algorithms (sf_end o + 1 + 1) es) l).
    { unfold append_code, bind. destruct (getOpenSegment l) as [[[] ?]|]; [|done]. done. }
    unfold bind at 1. rewrite Hrun.
    rewrite (write_run _ _ _ _ _ _ _ e' _ (inv_rep _ _ _ _ _ _ _ _ _ _ Hinv1)) by (done || lia). exact Hrun3.
  - done.
  - rewrite Hent3, rep_entries_appended, Hent, <-app_assoc. done.
  - rewrite Hend3. cbn [length]. lia.
  - rewrite E1. exact K1.
  - rewrite E2. exact K2.
  - rewrite E3. exact K3.
  - unfold counter in *. cbn in E4. cbn [length]. lia.
  - rewrite E5. unfold unwritten in *. cbn [sl_currentSync written set_field ops]. rewrite writes_app, Hun1. cbn. lia.
Qed.

Lemma rep_getLastLogIndex l d a b closed o prepared :
  rep l d a b closed [o] prepared -> SegmentedLog_getLastLogIndex l = sf_end o.
Proof. intros Hr. destruct (rep_last _ _ _ _ _ _ _ Hr) as (_ & Hlast & _). unfold SegmentedLog_getLastLogIndex. by rewrite Hlast. Qed.

(** Nothing on disk changes, only the current [Sync] object. *)
Lemma inv_sync l out d a b closed opens prepared s :
  inv l out d a b closed opens prepared -> ops s = ops (sl_currentSync l) ->
  inv (l <| sl_currentSync := s |>) out d a b closed opens prepared.
Proof.
  intros [[H1' H2' H3' H4'] Hr [M1 M2 M3 M4] Hsur] Hs. split; [split; cbn; by rewrite ?Hs| |by split|].
  - by apply (rep_ext opts algorithms l).
  - apply (survives_ext opts algorithms l _ out); try done. cbn. by rewrite Hs.
Qed.

(** The flush that ends an [append]. *)
Lemma flush_inv l out d a b closed o prepared i :
  inv l out d a b closed [o] prepared ->
  inv (l <| sl_currentSync := mkSegSync i (seg_completed (sl_currentSync l))
              (ops (sl_currentSync l) ++ [Op.FDATASYNC (openSegmentFile l)]) |>) out d a b closed [o] prepared.
Proof.
  intros [Hp Hr [M1 M2 M3 M4] Hsur]. destruct (rep_opens _ _ _ _ _ _ _ _ _ Hr) as [(_ & _ & (i' & Hfd & _)) _]. split.
  - eapply (pending_more l _ out d d [Op.FDATASYNC (openSegmentFile l)]); try done.
    + unfold exec, forM. cbn [exec_op]. unfold fsync, bind, get, ret. rewrite bool_decide_true by by eexists. by rewrite orb_true_r.
    + apply Forall_cons. split; apply Forall_nil_2.
  - by apply (rep_ext opts algorithms l).
  - by split.
  - eapply (survives_push opts algorithms l _ out _ d d); [exact Hsur|apply Hp| |done..| | |].
    + cbn [exec_op]. unfold fsync, bind, get, ret. rewrite bool_decide_true by by eexists. by rewrite orb_true_r.
    + apply (rep_holds opts algorithms _ _ _ _ _ _ _ Hr).
    + by destruct (rep_start _ _ _ _ _ _ _ _ _ Hr) as ((_ & ?) & _).
    + done.
Qed.

Lemma append_inv l out d a b closed o prepared es :
  inv l out d a b closed [o] prepared -> appendable (sf_end o + 1) es ->
  sf_end o + Z.of_nat (length es) < u64_max - 1 -> counter l + Z.of_nat (length es) < u64_max ->
  exists l1 d1 b1 closed1 o1 prepared1,
    SegmentedLog_append opts algorithms es l = Ok ((sf_end o + 1, sf_end o + Z.of_nat (length es)), l1) /\
    inv l1 out d1 a b1 closed1 [o1] prepared1 /\
    rep_entries closed1 [o1] = rep_entries closed [o] ++ numbered (sf_end o + 1) es /\
    logStartIndex l1 = logStartIndex l /\ sl_metadata l1 = sl_metadata l /\
    log_metadata l1 = log_metadata l /\ counter l1 <= counter l + Z.of_nat (length es) /\
    unwritten l1 = (unwritten l + length es)%nat.
Proof.
  intros Hinv Hes Hmax Hcnt. pose proof (inv_rep _ _ _ _ _ _ _ _ _ _ Hinv) as Hr.
  destruct (append_entries_inv es _ _ _ _ _ _ _ _ Hinv Hes Hmax Hcnt) as
    (l1 & d1 & b1 & closed1 & o1 & prepared1 & Hrun & Hinv1 & Hent & Hend & E1 & E2 & E3 & E4 & E5).
  pose proof (flush_inv _ _ _ _ _ _ _ _ (sf_end o1) Hinv1) as Hinv2. eexists _, d1, b1, closed1, o1, prepared1.
  split; [|split; [exact Hinv2|split_and!; [done..|]]].
  2: { rewrite <-E5. unfold unwritten. cbn [sl_currentSync set_field ops]. rewrite writes_app. apply Nat.add_0_r. }
  destruct (rep_last _ _ _ _ _ _ _ Hr) as (_ & Hlast & _). destruct (rep_log_end _ _ _ _ _ _ _ Hr) as [_ Hpos].
  unfold SegmentedLog_append, getOpenSegment. unfold bind at 1, bind at 1, get at 1. rewrite Hlast. unfold ret at 1. cbv beta iota.
  cbn [open_segment seg_endIndex]. rewrite u64_small by (unfold is_u64, u64_max in *; lia).
  unfold bind at 1. rewrite Hrun. unfold bind at 1, get at 1. unfold bind at 1, push_op at 1, modify at 1. unfold bind at 1, modify at 1.
  set (l2 := set_field (proj := sl_currentSync) _ _) in Hinv2. set (l3 := set_field (proj := sl_currentSync) _ _).
  assert (l3 = l2) as ->.
  { unfold l3, l2. pose proof (rep_getLastLogIndex _ _ _ _ _ _ _ (inv_rep _ _ _ _ _ _ _ _ _ _ Hinv1)) as <-. reflexivity. }
  unfold bind at 1. rewrite (checkInvariants_inv opts algorithms Hopts _ _ _ _ _ _ _ _ Hinv2). unfold bind, get, ret.
  rewrite (rep_getLastLogIndex _ _ _ _ _ _ _ (inv_rep _ _ _ _ _ _ _ _ _ _ Hinv2)), <-Hend. reflexivity.
Qed.

(** ** Waiting for the disk *)

Lemma takeSync_inv l out d a b closed opens prepared :
  inv l out d a b closed opens prepared ->
  exists l', SegmentedLog_takeSync l = Ok (sl_currentSync l, l') /\
    inv l' (out ++ ops (sl_currentSync l)) d a b closed opens prepared /\
    ops (sl_currentSync l') = [] /\ logStartIndex l' = logStartIndex l /\ sl_metadata l' = sl_metadata l /\
    log_metadata l' = log_metadata l /\ counter l' = counter l.
Proof.
  intros [[H1' H2' H3' H4'] Hr [M1 M2 M3 M4] Hsur]. eexists. split; [reflexivity|]. split; [|done]. split; [split; cbn| |by split|].
  - done.
  - by rewrite app_nil_r.
  - by rewrite app_nil_r.
  - done.
  - by apply (rep_ext opts algorithms l).
  - apply (survives_ext opts algorithms l _ out); try done. cbn. by rewrite app_nil_r.
Qed.

(** The operations that are waited for run without a fault. *)
Lemma Sync_wait_inv l s out d a b closed opens prepared :
  inv l (ops s ++ out) d a b closed opens prepared ->
  exists d1, on_disk (Sync_wait s) l = Ok (tt, l <| sl_disk := d1 |>) /\
    exec (ops s) (sl_disk l) = Ok (tt, d1) /\ inv (l <| sl_disk := d1 |>) out d a b closed opens prepared.
Proof.
  intros [[H1' H2' H3' H4'] Hr [M1 M2 M3 M4] Hsur]. rewrite <-app_assoc, exec_app in H2'.
  apply bind_Ok in H2' as ([] & d1 & Hrun & Hrest). exists d1. rewrite <-app_assoc in H3'. apply Forall_app in H3' as [Hk1 Hk2].
  destruct (exec_ok _ _ _ H1' Hrun) as [Hd1 Hun]. split; [|split; [done|split; [split|by apply (rep_ext opts algorithms l)|by split|by eapply survives_wait]]].
  - unfold on_disk, zoom, Sync_wait. change (forM (optimize (ops s)) exec_op) with (exec (optimize (ops s))).
    by rewrite exec_optimize, Hrun.
  - done.
  - done.
  - done.
  - intros v. apply Hun; [by eapply known_untouched_metadata|apply H4'].
Qed.

(** With nothing left to wait for, the disk is the one of the invariant. *)
Lemma inv_synced l d a b closed opens prepared :
  inv l [] d a b closed opens prepared -> ops (sl_currentSync l) = [] -> sl_disk l = d.
Proof. intros [[_ Hexec _ _] _ _ _] Hops. rewrite Hops in Hexec. by injection Hexec. Qed.

(** ** [updateMetadata] *)

(** The metadata record with version [v] and start index [i] is not too long to
    be read again. *)
Definition metadata_fits (m : Metadata) (v i : Z) : Prop :=
  encodable opts (mkSegMetadata 1 v (if metadata_is_empty m then None else Some m) i).

Lemma set_metadata_inv l out d a b closed opens prepared m :
  inv l out d a b closed opens prepared -> inv (l <| log_metadata := m |>) out d a b closed opens prepared.
Proof.
  intros [[H1' H2' H3' H4'] Hr [M1 M2 M3 M4] Hsur]. split; [by split| |by split|]; [by apply (rep_ext opts algorithms l)|].
  by apply (survives_ext opts algorithms l _ out).
Qed.

Lemma next_metadata_fits l :
  0 <= version (sl_metadata l) -> version (sl_metadata l) + 1 < u64_max ->
  metadata_fits (log_metadata l) (version (sl_metadata l) + 1) (logStartIndex l) -> encodable opts (next_metadata l).
Proof. intros Hv Hmax Hm. unfold next_metadata. rewrite u64_small; [done|]. unfold is_u64, u64_max in *. lia. Qed.

Lemma rep_start_u64 l d a b closed opens prepared : rep l d a b closed opens prepared -> 1 <= logStartIndex l < u64_max.
Proof.
  intros Hr. pose proof (rep_start _ _ _ _ _ _ _ _ _ Hr) as (Ha & Hb & Hfirst). split; [lia|].
  destruct (closed ++ opens) as [|f fs] eqn:Hall; [lia|].
  assert (fok f) as Hf.
  { eapply rep_file_ok; [exact Hr|]. rewrite app_assoc, Hall. set_solver. }
  pose proof (sf_end_max _ _ _ Hf). lia.
Qed.

Lemma SegmentedLog_updateMetadata_inv l out d a b closed opens prepared :
  inv l out d a b closed opens prepared -> version (sl_metadata l) + 1 < u64_max ->
  metadata_fits (log_metadata l) (version (sl_metadata l) + 1) (logStartIndex l) ->
  exists l' d', SegmentedLog_updateMetadata opts algorithms l = Ok (tt, l') /\ inv l' out d' a b closed opens prepared /\
    logStartIndex l' = logStartIndex l /\ sl_metadata l' = next_metadata l /\ log_metadata l' = log_metadata l /\
    counter l' = counter l /\ ops (sl_currentSync l') = ops (sl_currentSync l).
Proof.
  intros [Hp Hr Hm Hsur] Hmax Hfits. pose proof (rep_start_u64 _ _ _ _ _ _ _ Hr) as Hs.
  destruct (updateMetadata_inv opts algorithms Hopts _ _ _ _ _ _ _ _ Hp Hr) as (d' & Hrun & Hinv).
  - by apply (meta_rep_older opts algorithms Hopts).
  - done.
  - by destruct Hm as [(_ & _ & ?) _ _ _].
  - done.
  - apply next_metadata_fits; [|done|done]. by destruct Hm as [(_ & _ & ?) _ _ _].
  - eexists _, d'. split; [exact Hrun|]. by split.
Qed.

(** ** [truncatePrefix] *)

Lemma closed_named f : closed_file f -> sf_name f = sf_closed_name f.
Proof. intros (Hf & Hfo & _). pose proof (sf_named _ _ _ Hf) as Hn. rewrite Hfo in Hn. by destruct Hn. Qed.

Lemma om_erase_head (k : Z) (s : Segment) m : om_erase ((k, s) :: m) k = m.
Proof. cbn. by rewrite decide_True. Qed.

Abbreviation at_start s l := (l <| logStartIndex := s |>).

Lemma u64_sub_l x y : u64 (u64 x - y) = u64 (x - y).
Proof. unfold u64. by rewrite Zminus_mod_idemp_l. Qed.

Lemma file_relative l d a b closed opens prepared f :
  rep l d a b closed opens prepared -> f ∈ closed ++ opens ++ prepared -> startsWith (sf_name f) "/" = false.
Proof. intros Hr Hf. eapply sf_relative, rep_file_ok; done. Qed.

Lemma first_name_apart l d a b f closed opens prepared :
  rep l d a b (f :: closed) opens prepared -> forall g, g ∈ prepared -> sf_name g ∉ [sf_name f].
Proof.
  intros Hr g Hg Heq%list_elem_of_singleton. pose proof (rep_names _ _ _ _ _ _ _ _ _ Hr) as Hnd. cbn in Hnd.
  apply NoDup_cons in Hnd as [Hn _]. apply Hn. rewrite <-Heq. apply list_elem_of_fmap_2. set_solver.
Qed.

Lemma open_name_apart l d a b f closed o prepared :
  rep l d a b (f :: closed) [o] prepared -> sf_name o ∉ [sf_name f].
Proof.
  intros Hr Heq%list_elem_of_singleton. pose proof (rep_names _ _ _ _ _ _ _ _ _ Hr) as Hnd. cbn in Hnd.
  apply NoDup_cons in Hnd as [Hn _]. apply Hn. rewrite <-Heq. apply list_elem_of_fmap_2. set_solver.
Qed.

(** The state after the first segment, a closed one, was dropped. *)
Definition unlinked (l : SegmentedLog) (f : seg_file) (rest : list (Z * Segment)) : SegmentedLog :=
  ((l <| sl_currentSync := (sl_currentSync l) <| ops := ops (sl_currentSync l) ++ [Op.UNLINKAT dir_fd (sf_name f)] |> |>)
     <| totalClosedSegmentBytes := u64 (totalClosedSegmentBytes l - sfb f) |>)
    <| segmentsByStartIndex := rest |>.

Lemma removeFile_run d name :
  disk_ok d -> startsWith name "/" = false ->
  exists d', removeFile name d = Ok (tt, d') /\ disk_ok d' /\
    (forall n, contents_of d' n = <[name := None]> (contents_of d) n) /\ handles_kept (-1) [name] d d' /\ fds d' = fds d.
Proof.
  intros Hd Hrel. assert (wp (fun _ => False) (removeFile name) (fun _ d' => disk_ok d' /\
    (forall n, contents_of d' n = <[name := None]> (contents_of d) n) /\ handles_kept (-1) [name] d d' /\ fds d' = fds d) d)
    as ([] & d' & Hrun & Hpost)%safe_run; [by eapply wp_removeFile|]. by exists d'.
Qed.

Lemma file_known l d a b closed opens prepared f fd :
  rep l d a b closed opens prepared -> f ∈ closed ++ opens ++ prepared -> op_known (counter l) (Op.UNLINKAT fd (sf_name f)).
Proof.
  intros Hr Hf. pose proof (rep_file_ok _ _ _ _ _ _ _ _ _ _ Hr Hf) as Hok. apply Forall_cons. split; [|apply Forall_nil_2].
  destruct (file_named _ _ f Hok) as [(x & y & Hn & _)|(id & Hid & Hn & Hs)]; [left; by eexists _, _|right].
  exists id. split; [done|]. split; [|done]. by apply (rep_ids _ _ _ _ _ _ _ _ _ Hr f).
Qed.

Lemma meta_rep_removed l l' d d' name :
  sl_metadata l' = sl_metadata l -> logStartIndex l' = logStartIndex l ->
  (exists a b, name = closed_filename a b) \/ (exists id, name = open_filename id) ->
  (forall n, contents_of d' n = <[name := None]> (contents_of d) n) -> meta_rep l d -> meta_rep l' d'.
Proof.
  intros Hm Hs Hname Hc. apply meta_rep_kept; [done|done|]. intros n. rewrite Hc.
  destruct (decide (n = name)) as [->|]; [tauto|]. right. right. by rewrite fn_lookup_insert_ne.
Qed.

Lemma drop_file_entries f (es : list LogEntry) a n :
  a = sf_start f -> sf_end f < n -> sf_start f <= sf_end f + 1 ->
  drop (Z.to_nat (n - a)) (sf_entries f ++ es) = drop (Z.to_nat (n - (sf_end f + 1))) es.
Proof.
  intros -> Hn _. unfold sf_end in *. rewrite drop_app_ge by lia. f_equal. lia.
Qed.

(** What is below the start index does not count. *)
Lemma live_dropped f es start :
  fok f -> sf_end f < start -> live_entries start (sf_start f) (sf_entries f ++ es) = live_entries start (sf_end f + 1) es.
Proof. intros Hf Hs. apply drop_file_entries; [done|done|]. unfold sf_end. lia. Qed.

Lemma unlink_closed l s out d a b f closed opens prepared :
  pending l out d -> rep (at_start s l) d a b (f :: closed) opens prepared -> meta_rep l d ->
  survives l out a (rep_entries (f :: closed) opens) -> sf_end f < logStartIndex l ->
  exists d', pending (unlinked l f (map pair_of closed ++ map open_pair opens)) out d' /\
    rep (at_start (sf_end f + 1) (unlinked l f (map pair_of closed ++ map open_pair opens))) d' (sf_end f + 1) b closed opens prepared /\
    meta_rep (unlinked l f (map pair_of closed ++ map open_pair opens)) d' /\
    survives (unlinked l f (map pair_of closed ++ map open_pair opens)) out (sf_end f + 1) (rep_entries closed opens).
Proof.
  intros Hp Hr Hm Hsur Hbelow. pose proof (rep_disk _ _ _ _ _ _ _ _ _ Hr) as Hd. pose proof (rep_files _ _ _ _ _ _ _ Hr) as Hfiles.
  assert (f ∈ (f :: closed) ++ opens ++ prepared) as Hf by set_solver.
  destruct (removeFile_run d (sf_name f) Hd (file_relative _ _ _ _ _ _ _ _ Hr Hf)) as (d' & Hrun & Hd' & Hc' & Hk & Hfds).
  exists d'. pose proof (rep_chain _ _ _ _ _ _ _ _ _ Hr) as Hchain. destruct Hchain as (Hs & _ & Hle & Hchain). cbn in Hle, Hchain.
  pose proof (rep_start _ _ _ _ _ _ _ _ _ Hr) as (Ha & Hb & _). pose proof (chain_le _ _ _ Hchain) as Hab.
  set (l' := unlinked l f (map pair_of closed ++ map open_pair opens)).
  assert (rep (at_start (sf_end f + 1) l') d' (sf_end f + 1) b closed opens prepared) as Hr'.
  { eapply rep_again; [exact Hr|done|exact Hk| |done|done|exact Hchain| | | | |].
    + split; [by left|]. by eapply first_name_apart.
    + cbn. split; [lia|]. split; [done|]. destruct closed as [|g closed]; [cbn in Hchain; cbn|].
      * destruct opens as [|o [|]]; [done| |by pose proof (rep_opens _ _ _ _ _ _ _ _ _ Hr)].
        destruct (rep_opens _ _ _ _ _ _ _ _ _ Hr) as [(Ho & _) Hbo]. unfold sf_end at 2. lia.
      * destruct Hchain as (Hsg & _ & Hleg & _). cbn in Hleg |- *. lia.
    + pose proof (rep_closed _ _ _ _ _ _ _ _ _ Hr) as Hcl. by inversion Hcl.
    + destruct opens as [|o [|]]; [by pose proof (rep_opens _ _ _ _ _ _ _ _ _ Hr)| |by pose proof (rep_opens _ _ _ _ _ _ _ _ _ Hr)].
      destruct (rep_opens _ _ _ _ _ _ _ _ _ Hr) as [(Ho & Hoo & Hh) Hbo]. split; [|done]. split; [done|]. split; [done|].
      apply Hk; [|by eapply open_name_apart|exact Hh]. pose proof (handle_fresh _ _ _ _ Hd Hh). unfold dir_fd in *. cbn in *. lia.
    + by eapply files_on_remove.
    + cbn. pose proof (rep_total _ _ _ _ _ _ _ _ _ Hr) as Ht. change (totalClosedSegmentBytes l = u64 (sfb f + bytes_of opts algorithms closed)) in Ht. rewrite Ht, u64_sub_l. f_equal. lia. }
  split; [|split; [exact Hr'|split]].
  - eapply (pending_more l _ out d d' [Op.UNLINKAT dir_fd (sf_name f)]); try done.
    + unfold exec, forM. cbn [exec_op]. unfold bind, ret. by rewrite Hrun.
    + apply Forall_cons. split; [by eapply file_known in Hr|apply Forall_nil_2].
  - eapply meta_rep_removed; [| | |exact Hc'|exact Hm]; [done|done|]. apply closed_or_open. apply (rep_file_ok _ _ _ _ _ _ _ _ _ _ Hr Hf).
  - pose proof (seg_key _ _ _ Hs) as Hfa. cbn in Hfa. subst a.
    eapply (survives_push opts algorithms l _ out _ d d'); [exact Hsur|apply Hp| |done..| |lia|].
    + cbn [exec_op]. exact Hrun.
    + apply (rep_holds opts algorithms _ _ _ _ _ _ _ Hr').
    + intros start n Hst. change (rep_entries (f :: closed) opens) with (sf_entries f ++ rep_entries closed opens).
      rewrite live_dropped; [done|apply (rep_file_ok _ _ _ _ _ _ _ _ _ _ Hr Hf)|lia].
Qed.

(** The state after the open segment, the only one, was dropped. *)
Definition unlinked_open (l : SegmentedLog) (o : seg_file) : SegmentedLog :=
  ((l <| openSegmentFile := -1 |>)
     <| sl_currentSync := (sl_currentSync l) <| ops :=
          (ops (sl_currentSync l) ++ [Op.UNLINKAT dir_fd (sf_name o)]) ++ [Op.CLOSE (openSegmentFile l)] |> |>)
    <| segmentsByStartIndex := [] |>.

Lemma unlink_open l s out d a b o prepared :
  pending l out d -> rep (at_start s l) d a b [] [o] prepared -> meta_rep l d ->
  1 <= logStartIndex l < u64_max - 1 -> survives l out a (rep_entries [] [o]) -> sf_end o < logStartIndex l ->
  exists d', inv (unlinked_open l o) out d' (logStartIndex l) (logStartIndex l) [] [] prepared.
Proof.
  intros Hp Hr Hm Hs Hsur Hbelow. pose proof (rep_disk _ _ _ _ _ _ _ _ _ Hr) as Hd. pose proof (rep_files _ _ _ _ _ _ _ Hr) as Hfiles.
  destruct (rep_opens _ _ _ _ _ _ _ _ _ Hr) as [(Ho & Hoo & Hh) Hbo]. change (handle d (openSegmentFile l) (sf_name o) (sfb o)) in Hh.
  assert (o ∈ [] ++ [o] ++ prepared) as Hin by set_solver.
  assert (sf_name o ∉ map sf_name prepared) as Hop.
  { pose proof (fo_names _ _ _ _ _ Hfiles) as Hnd. cbn in Hnd. by apply NoDup_cons in Hnd as [? _]. }
  destruct (removeFile_run d (sf_name o) Hd (file_relative _ _ _ _ _ _ _ _ Hr Hin)) as (d1 & Hrun & Hd1 & Hc1 & Hk1 & Hfds).
  destruct Hh as (i & Hfd & Hi). assert (wp (fun _ => False) (close (openSegmentFile l)) (fun _ d2 => disk_ok d2 /\
    (forall n, contents_of d2 n = contents_of d1 n) /\ handles_kept (openSegmentFile l) [] d1 d2) d1)
    as ([] & d2 & Hrun2 & Hd2 & Hc2 & Hk2)%safe_run.
  { eapply wp_close; [done|by rewrite Hfds|]. intros d2 Hd2 Hc2 Hk2 _. done. }
  assert (forall n, contents_of d2 n = <[sf_name o := None]> (contents_of d) n) as Hc by (intros n; by rewrite Hc2, Hc1).
  exists d2. assert (rep (unlinked_open l o) d2 (logStartIndex l) (logStartIndex l) [] [] prepared) as Hr'.
  { eapply (rep_again (at_start s l) _ d d2 a b _ _ [] [o] [] [] prepared (openSegmentFile l) [sf_name o]); try done.
    + eapply handles_kept_trans; [by apply handles_kept_names|by apply handles_kept_nil].
    + split; [right; right; exists (sf_name o), (sfb o); split; [by exists i|done]|].
      intros g Hg Heq%list_elem_of_singleton. apply Hop. rewrite <-Heq. by apply list_elem_of_fmap_2.
    + cbn. lia.
    + by eapply files_on_remove.
    + pose proof (rep_total _ _ _ _ _ _ _ _ _ Hr) as Ht. exact Ht. }
  split; [|done| |].
  - eapply (pending_more l _ out d d2 [Op.UNLINKAT dir_fd (sf_name o); Op.CLOSE (openSegmentFile l)]); try done.
    + unfold exec, forM. cbn [exec_op]. unfold bind, ret. by rewrite Hrun, Hrun2.
    + cbn. by rewrite <-app_assoc.
    + apply Forall_cons. split; [by eapply file_known in Hr|]. apply Forall_cons. split; apply Forall_nil_2.
  - eapply (meta_rep_removed l); [done|done| |exact Hc|exact Hm]. by apply closed_or_open.
  - eapply (survives_more opts algorithms l _ out [Op.UNLINKAT dir_fd (sf_name o); Op.CLOSE (openSegmentFile l)] d);
      [exact Hsur|apply Hp|cbn; by rewrite <-app_assoc|done..| |].
    + intros start n Hst. pose proof (rep_chain _ _ _ _ _ _ _ _ _ Hr) as Hab. cbn in Hab. subst a b. unfold rep_entries. cbn [app map concat].
      rewrite (live_dropped o []) by (done || lia). unfold live_entries. by rewrite !drop_nil.
    + intros op p r e Hops Hexec.
      assert (holds_log d1 (counter l) (logStartIndex l) []) as Hh1.
      { apply (holds_log_same opts algorithms d2); [done|by intros n; rewrite Hc2|]. apply (rep_holds opts algorithms _ _ _ _ _ _ _ Hr'). }
      destruct p as [|y p].
      * injection Hops as <- Hops. rewrite exec_cons in Hexec. unfold bind in Hexec. cbn [exec_op] in Hexec. rewrite Hrun in Hexec. injection Hexec as <-. by subst r.
      * injection Hops as <- <- Hops. symmetry in Hops. apply app_eq_nil in Hops as [-> ->]. split; [done|].
        rewrite exec_cons in Hexec. unfold bind in Hexec. cbn [exec_op] in Hexec. rewrite Hrun, exec_cons in Hexec.
        unfold bind in Hexec. cbn [exec_op] in Hexec. rewrite Hrun2 in Hexec. injection Hexec as <-.
        apply (rep_holds opts algorithms _ _ _ _ _ _ _ Hr').
Qed.

(** The start index moves within the first segment. *)
Lemma rep_new_start l s d a b closed opens prepared :
  rep (at_start s l) d a b closed opens prepared -> a <= logStartIndex l ->
  match closed ++ opens with [] => b = logStartIndex l | f :: _ => logStartIndex l <= sf_end f + 1 end ->
  rep l d a b closed opens prepared.
Proof. intros Hr Ha Hfirst. pose proof (rep_start _ _ _ _ _ _ _ _ _ Hr) as (? & ? & _). destruct Hr. split; try assumption. by split; [lia|]. Qed.

Lemma truncatePrefix_loop_inv closed : forall l s out d a b o prepared,
  pending l out d -> rep (at_start s l) d a b closed [o] prepared -> meta_rep l d ->
  survives l out a (rep_entries closed [o]) ->
  a <= logStartIndex l -> 1 <= logStartIndex l < u64_max - 1 ->
  exists l' d' a' b' closed' opens', truncatePrefix_loop (segmentsByStartIndex l) l = Ok (tt, l') /\
    inv l' out d' a' b' closed' opens' prepared /\ ((closed' = [] /\ opens' = []) \/ exists o', opens' = [o']) /\
    drop (Z.to_nat (logStartIndex l - a')) (rep_entries closed' opens') =
      drop (Z.to_nat (logStartIndex l - a)) (rep_entries closed [o]) /\
    logStartIndex l' = logStartIndex l /\ sl_metadata l' = sl_metadata l /\ log_metadata l' = log_metadata l /\
    counter l' = counter l /\ unwritten l' = unwritten l.
Proof.
  induction closed as [|f closed IH]; intros l s out d a b o prepared Hp Hr Hm Hsur Ha Hs.
  - destruct (rep_last _ _ _ _ _ _ _ Hr) as (Hsegs & _). destruct (rep_opens _ _ _ _ _ _ _ _ _ Hr) as [(Ho & Hoo & Hh) Hbo].
    change (segmentsByStartIndex l = [(b, open_segment opts algorithms o)]) in Hsegs. rewrite Hsegs.
    cbn [truncatePrefix_loop]. unfold bind at 1, get. cbn [open_segment seg_endIndex isOpen filename].
    destruct (logStartIndex l <=? sf_end o) eqn:Hin.
    + exists l, d, a, b, [], [o]. split; [done|]. split; [|by split_and!; [right; exists o|..]].
      split; [done| |done|done]. apply (rep_new_start _ s); [done|done|]. cbn. lia.
    + destruct (unlink_open _ _ _ _ _ _ _ _ Hp Hr Hm Hs Hsur ltac:(lia)) as (d' & Hinv).
      exists (unlinked_open l o), d', (logStartIndex l), (logStartIndex l), [], []. split; [|split; [exact Hinv|split; [by left|]]].
      * unfold bind at 1, push_op at 1, modify at 1. unfold bind at 1, bind at 1, release_open_file, bind at 1, get, bind at 1, put, ret, push_op, modify.
        unfold bind at 1. cbn [truncatePrefix_loop ret]. unfold ret. do 2 f_equal. unfold unlinked_open, set_field. cbn.
        by rewrite Hsegs, om_erase_head.
      * split; [|split_and!; [done..|]].
        2: { unfold unwritten. cbn [sl_currentSync unlinked_open set_field ops]. rewrite !writes_app. cbn. lia. }
        rewrite drop_ge by (cbn; lia). symmetry. apply drop_ge. unfold rep_entries. cbn. rewrite app_nil_r.
        pose proof (rep_chain _ _ _ _ _ _ _ _ _ Hr) as Hab. cbn in Hab. unfold sf_end in Hin. lia.
  - pose proof (rep_segments _ _ _ _ _ _ _ _ _ Hr) as Hsegs. cbn in Hsegs. rewrite Hsegs. 
    cbn [truncatePrefix_loop]. unfold bind at 1, get. cbn [sf_segment seg_endIndex isOpen filename sf_pair].
    pose proof (rep_chain _ _ _ _ _ _ _ _ _ Hr) as (Hsf & _ & Hle & Hchain). cbn in Hle. pose proof (seg_start _ _ _ Hsf) as Hfa. cbn in Hfa.
    destruct (logStartIndex l <=? sf_end f) eqn:Hin.
    + exists l, d, a, b, (f :: closed), [o]. split; [done|]. split; [|by split_and!; [right; exists o|..]].
      split; [done| |done|done]. apply (rep_new_start _ s); [done|done|]. cbn. lia.
    + destruct (unlink_closed _ _ _ _ _ _ _ _ _ _ Hp Hr Hm Hsur ltac:(lia)) as (d' & Hp' & Hr' & Hm' & Hsur').
      set (l1 := unlinked l f (map pair_of closed ++ map open_pair [o])) in *.
      destruct (IH l1 (sf_end f + 1) out d' _ b o prepared Hp' Hr' Hm' Hsur') as
        (l2 & d2 & a2 & b2 & closed2 & opens2 & Hrun & Hinv & Hcase & Hent & E1 & E2 & E3 & E4 & E5); [|done|].
      { change (logStartIndex l1) with (logStartIndex l). lia. }
      exists l2, d2, a2, b2, closed2, opens2. split; [|split; [done|split; [done|split; [|split_and!; [done..|]]]]].
      * pose proof (rep_closed _ _ _ _ _ _ _ _ _ Hr) as Hcl. assert (sf_name f = sf_closed_name f) as Hname by (apply closed_named; by inversion Hcl).
        rewrite <-Hrun. unfold bind at 1, push_op, modify. unfold bind at 1, bind at 1. f_equal.
        unfold l1, unlinked, set_field. cbn. rewrite Hsegs. unfold sf_pair at 1. by rewrite om_erase_head, Hname.
      * change (logStartIndex l1) with (logStartIndex l) in Hent. rewrite Hent. change (rep_entries (f :: closed) [o]) with (sf_entries f ++ rep_entries closed [o]).
        symmetry. apply drop_file_entries; [done|lia|lia].
      * rewrite E5. unfold unwritten. cbn [l1 unlinked sl_currentSync set_field ops]. rewrite writes_app. apply Nat.add_0_r.
Qed.

(** The metadata is written before anything is removed: the invariant of the
    files still holds for the start index [s]. *)
Lemma write_metadata_split l s out d a b closed opens prepared :
  pending l out d -> rep (at_start s l) d a b closed opens prepared -> meta_older opts algorithms l d ->
  survives l out a (rep_entries closed opens) ->
  0 <= version (sl_metadata l) -> version (sl_metadata l) + 1 < u64_max -> encodable opts (next_metadata l) ->
  exists d', SegmentedLog_updateMetadata opts algorithms l = Ok (tt, metadata_written opts algorithms l) /\
    pending (metadata_written opts algorithms l) out d' /\
    rep (at_start s (metadata_written opts algorithms l)) d' a b closed opens prepared /\
    meta_rep (metadata_written opts algorithms l) d' /\
    survives (metadata_written opts algorithms l) out a (rep_entries closed opens).
Proof.
  intros Hp Hr Hold Hsur Hv Hmax Henc. eexists. split; [apply (updateMetadata_exact opts algorithms Hknown), Hp|]. split; [|split; [|split]].
  - by apply pending_set_metadata.
  - eapply (rep_ext opts algorithms (at_start s l)); [..|apply rep_set_metadata, Hr]; done.
  - apply meta_written; try done. by destruct Hr.
  - by eapply (survives_set_metadata opts algorithms).
Qed.

Lemma truncatePrefix_inv l out d a b closed o prepared n :
  inv l out d a b closed [o] prepared -> n < u64_max - 1 -> counter l < u64_max - 1 ->
  version (sl_metadata l) + 1 < u64_max ->
  (logStartIndex l < n -> metadata_fits (log_metadata l) (version (sl_metadata l) + 1) n) ->
  exists l' d' a' b' closed' o' prepared', SegmentedLog_truncatePrefix opts algorithms n l = Ok (tt, l') /\
    inv l' out d' a' b' closed' [o'] prepared' /\ logStartIndex l' = Z.max n (logStartIndex l) /\
    drop (Z.to_nat (logStartIndex l' - a')) (rep_entries closed' [o']) =
      drop (Z.to_nat (logStartIndex l' - a)) (rep_entries closed [o]) /\
    log_metadata l' = log_metadata l /\ counter l' <= counter l + 1 /\ unwritten l' = unwritten l /\
    (if n <=? logStartIndex l then sl_metadata l' = sl_metadata l
     else version (sl_metadata l') = version (sl_metadata l) + 1 /\ raft_metadata (sl_metadata l') = raft_metadata (next_metadata l)).
Proof.
  intros Hinv Hn Hcnt Hmax Hfits. unfold SegmentedLog_truncatePrefix. unfold bind at 1, get at 1.
  destruct (n <=? logStartIndex l) eqn:Hle.
  { exists l, d, a, b, closed, o, prepared. replace (n `max` logStartIndex l) with (logStartIndex l) by lia. split_and!; try done; lia. }
  destruct Hinv as [Hp Hr Hm Hsur]. pose proof (rep_start _ _ _ _ _ _ _ _ _ Hr) as (Ha & _).
  unfold bind at 1, modify at 1. set (l0 := at_start n l).
  assert (rep (at_start (logStartIndex l) l0) d a b closed [o] prepared) as Hr0 by (by apply (rep_ext opts algorithms l)).
  assert (survives l0 out a (rep_entries closed [o])) as Hsur0.
  { apply (survives_ext opts algorithms l _ out); try done. change (logStartIndex l <= n). lia. }
  destruct (write_metadata_split l0 _ out d _ _ _ _ _ ltac:(by destruct Hp) Hr0 (meta_rep_older opts algorithms Hopts _ _ Hm) Hsur0) as
    (d1 & Hrun1 & Hp1 & Hr1 & Hm1 & Hsur1); [by destruct Hm as [(_ & _ & ?) _ _ _]|done| |].
  { apply next_metadata_fits; [|done|]; [by destruct Hm as [(_ & _ & ?) _ _ _]|apply Hfits; lia]. }
  set (l1 := metadata_written opts algorithms l0) in *.
  destruct (truncatePrefix_loop_inv _ _ _ _ _ _ _ _ _ Hp1 Hr1 Hm1 Hsur1) as
    (l2 & d2 & a2 & b2 & closed2 & opens2 & Hrun2 & Hinv2 & Hcase & Hent2 & E1 & E2 & E3 & E4 & E5);
    [change (logStartIndex l1) with n; lia|change (logStartIndex l1) with n; lia|].
  change (logStartIndex l1) with n in E1, Hent2.
  assert (version (sl_metadata l1) = version (sl_metadata l) + 1) as Hver.
  { change (u64 (version (sl_metadata l) + 1) = version (sl_metadata l) + 1). destruct Hm as [(_ & _ & ?) _ _ _].
    rewrite u64_small; [lia|]. unfold is_u64, u64_max in *. lia. }
  assert (exists l3 d3 b3 o3 prepared3, when (match segmentsByStartIndex l2 with [] => true | _ => false end) (openNewSegment opts) l2 = Ok (tt, l3) /\
    inv l3 out d3 a2 b3 closed2 [o3] prepared3 /\ rep_entries closed2 [o3] = rep_entries closed2 opens2 /\
    logStartIndex l3 = n /\ log_metadata l3 = log_metadata l /\ counter l3 <= counter l + 1 /\ sl_metadata l3 = sl_metadata l1 /\ unwritten l3 = unwritten l)
    as (l3 & d3 & b3 & o3 & prepared3 & Hrun3 & Hinv3 & Hent3 & F1 & F2 & F3 & F4 & F5).
  { pose proof (rep_segments _ _ _ _ _ _ _ _ _ (inv_rep _ _ _ _ _ _ _ _ _ _ Hinv2)) as Hsegs. destruct Hcase as [[-> ->]|[o' ->]].
    - destruct (openNewSegment_inv opts algorithms Hopts _ _ _ _ _ _ _ Hinv2) as (l3 & d3 & o3 & prepared3 & Hrun3 & Hinv3 & Hes3 & [K1 K2 K3 K4] & K5).
      { unfold counter in *. rewrite E4. exact Hcnt. }
      exists l3, d3, b2, o3, prepared3. rewrite Hsegs. split; [exact Hrun3|]. split; [exact Hinv3|].
      split; [rewrite rep_entries_open, Hes3; apply app_nil_r|]. rewrite K1, K2, K3, E1, E2, E3. split_and!; try done.
      + unfold counter in *. rewrite E4 in K4. exact K4.
      + unfold unwritten in *. rewrite K5. exact E5.
    - exists l2, d2, b2, o', prepared. rewrite Hsegs. replace (map pair_of closed2 ++ map open_pair [o']) with (map pair_of closed2 ++ [open_pair o']) by done.
      replace (match map pair_of closed2 ++ [open_pair o'] with [] => true | _ => false end) with false by by destruct closed2.
      split_and!; try done. unfold counter in *. rewrite E4. change (filenameCounter (preparedSegments l1)) with (filenameCounter (preparedSegments l)). lia. }
  pose proof (fun i => inv_sync _ _ _ _ _ _ _ _ (mkSegSync i (seg_completed (sl_currentSync l3)) (ops (sl_currentSync l3))) Hinv3 eq_refl) as Hinv4.
  eexists _, d3, a2, b3, closed2, o3, prepared3. split; [|split; [apply Hinv4|]].
  - unfold bind at 1. rewrite Hrun1. unfold bind at 1. change (segmentsByStartIndex l) with (segmentsByStartIndex l1). rewrite Hrun2.
    unfold bind at 1, get at 1. unfold bind at 1. rewrite Hrun3. unfold bind at 1, modify at 1.
    apply (checkInvariants_inv opts algorithms Hopts _ _ _ _ _ _ _ _ (Hinv4 (Z.max (seg_lastIndex (sl_currentSync l3)) (u64 (logStartIndex l3 - 1))))).
  - cbn [set_field logStartIndex log_metadata sl_metadata]. unfold set_field. cbn. rewrite F1, F2, F4, Hent3, Hent2. split; [lia|]. split; [done|]. split; [done|].
    split; [exact F3|]. split; [exact F5|]. by split; [exact Hver|].
Qed.
End Ops.
