(* ===== verification/SegmentedLogSuffix.v ===== *)
(** * Cutting off the end of the segmented log on disk

    [truncateSuffix] of [Storage/SegmentedLog.cc] keeps the invariant of
    [SegmentedLogRep.v]: it works on the files at once, so nothing may be queued
    when it is called. The open segment is cut off or removed, closed segments
    are removed from the last one down, and one may be cut off and renamed. *)

From Stdlib Require Import ZArith Lia Ascii String.
From stdpp Require Import base functions gmap strings list fin_maps sorting.
From S2P Require Import Prelude OrderedMap StringUtil Stream SnapshotFile Log Disk DiskSpec Checksum Printf SegmentedLog SegmentedLogFormat SegmentedLogSpec SegmentedLogSync SegmentedLogLoad SegmentedLogCrash SegmentedLogRep SegmentedLogRecovery SegmentedLogOps.
Local Open Scope Z_scope.
Local Open Scope list_scope.

Section Suffix.
Context (opts : SegOptions) (algorithms : bytes -> option (bytes -> bytes)) `{!AlgorithmLaws algorithms}.
Context `{ProtoBuf LogEntry} `{ProtoBufText LogEntry} `{!ProtoBufLaws LogEntry} `{!ProtoBufTextLaws LogEntry}.
Context `{ProtoBuf SegMetadata} `{ProtoBufText SegMetadata} `{!ProtoBufLaws SegMetadata} `{!ProtoBufTextLaws SegMetadata}.
Hypothesis Hopts : options_ok opts algorithms.
Let Hknown : is_Some (algorithms (checksumAlgorithm opts)) := algorithm_known _ _ Hopts.

Abbreviation img := (image opts algorithms).
Abbreviation plc := (placed opts algorithms).
Abbreviation sfb := (sf_bytes opts algorithms).
Abbreviation sfi := (sf_image opts algorithms).
Abbreviation sfc := (sf_content opts algorithms).
Abbreviation fok := (sf_ok opts algorithms).
Abbreviation pair_of := (sf_pair opts algorithms).
Abbreviation open_pair := (open_pair opts algorithms).
Abbreviation rep := (rep opts algorithms).
Abbreviation inv := (inv opts algorithms).
Abbreviation meta_rep := (meta_rep opts algorithms).
Abbreviation prepared_file := (prepared_file opts algorithms).
Abbreviation closed_file := (closed_file opts algorithms).

Abbreviation files_on := (files_on opts algorithms).
Abbreviation close_ops := (close_ops opts algorithms).

(** ** [truncateSuffix] *)

(** A file cut off after the entry with index [n]. *)
Definition cut_file (n : Z) (f : seg_file) : seg_file :=
  mk_seg_file (sf_name f) (sf_open f) (sf_start f) (take (Z.to_nat (n + 1 - sf_start f)) (sf_entries f)) 0.

Lemma placed_take off es k : take k (plc off es) = plc off (take k es).
Proof. revert off k. induction es as [|e es IH]; intros off [|k]; [done|done|done|]. cbn. by rewrite IH. Qed.

Lemma placed_lookup off es k e :
  es !! k = Some e -> plc off es !! k = Some (mkSegRecord (off + Z.of_nat (length (img (take k es)))) e).
Proof.
  revert off k. induction es as [|e' es IH]; intros off [|k]; cbn [lookup list_lookup]; try done.
  - intros [= ->]. cbn. do 2 f_equal. lia.
  - intros Hk. cbn [placed lookup list_lookup take]. rewrite (IH _ k) by done.
    change (img (e' :: take k es)) with (record_bytes opts algorithms e' ++ img (take k es)). rewrite length_app. do 2 f_equal. lia.
Qed.

Lemma cut_file_end n f : sf_start f - 1 <= n <= sf_end f -> sf_end (cut_file n f) = n.
Proof. intros Hn. unfold sf_end in *. cbn [sf_start sf_entries cut_file]. rewrite length_take. lia. Qed.

Lemma cut_file_nonempty n f : sf_start f <= n <= sf_end f -> sf_entries (cut_file n f) <> [].
Proof.
  intros Hn Hnil. assert (length (sf_entries (cut_file n f)) = 0%nat) as Hl by by rewrite Hnil.
  cbn [sf_entries cut_file] in Hl. rewrite length_take in Hl. unfold sf_end in Hn. lia.
Qed.

Lemma cut_file_content n f : exists rest, sfc f = sfi (cut_file n f) ++ rest.
Proof.
  pose proof (image_app opts algorithms (take (Z.to_nat (n + 1 - sf_start f)) (sf_entries f))
    (drop (Z.to_nat (n + 1 - sf_start f)) (sf_entries f))) as Himg.
  rewrite take_drop in Himg. unfold sf_content, sf_image. rewrite Himg. eexists. rewrite <-!app_assoc. reflexivity.
Qed.

Lemma cut_file_ok n f :
  fok f -> sf_start f <= n <= sf_end f -> (sf_open f = false -> sf_name f = sf_closed_name f) ->
  fok (mk_seg_file (if sf_open f then sf_name f else sf_closed_name (cut_file n f)) (sf_open f) (sf_start f) (sf_entries (cut_file n f)) 0).
Proof.
  intros [H1' H2' H3' H4' H5' H6'] Hn _. destruct (cut_file_content n f) as [rest Hc].
  pose proof (cut_file_end n f ltac:(lia)) as Hend. pose proof (cut_file_nonempty n f Hn) as Hne.
  split; [exact H1'| | | | |].
  - change (sf_end (cut_file n f) < u64_max - 1). lia.
  - intros j e Hj. apply H3'. by apply lookup_take_Some in Hj as [].
  - by apply Forall_take.
  - rewrite Hc, length_app in H5'. rewrite sf_length. cbn [sf_zeros]. change (sf_image opts algorithms _) with (sfi (cut_file n f)). lia.
  - cbn [sf_open]. destruct (sf_open f); [done|]. by split.
Qed.

(** [cut_segment] on the segment of a file. *)
Lemma cut_segment_file n f s :
  fok f -> seg_startIndex s = sf_start f -> seg_entries s = plc header_size (sf_entries f) -> sf_start f <= n < sf_end f ->
  cut_segment n s = Ok (s <| seg_bytes := sfb (cut_file n f) |>
    <| seg_entries := plc header_size (sf_entries (cut_file n f)) |> <| seg_endIndex := n |>).
Proof.
  intros Hf Hs He Hn. pose proof (sf_start_pos _ _ _ Hf). pose proof (sf_end_max _ _ _ Hf) as Hmax.
  unfold cut_segment. rewrite Hs, He, u64_small by (unfold is_u64, u64_max in *; lia).
  destruct (lookup_lt_is_Some_2 (sf_entries f) (Z.to_nat (n + 1 - sf_start f))) as [e Hk]; [unfold sf_end in *; lia|].
  rewrite (placed_lookup _ _ _ _ Hk), placed_take. done.
Qed.

Lemma pending_synced l d :
  sl_disk l = d -> ops (sl_currentSync l) = [] -> disk_ok d -> (forall v, unopened d (metadata_filename v)) -> pending l [] d.
Proof. intros Hl Hops Hd Hu. split; rewrite ?Hl, ?Hops; done. Qed.

(** The state after the open segment, cut off to [o'], was closed. *)
Definition closed_open (l : SegmentedLog) (d : Disk) (closed : list seg_file) (o' : seg_file) : SegmentedLog :=
  (((l <| openSegmentFile := -1 |>) <| sl_disk := d |>)
     <| segmentsByStartIndex := map pair_of (closed ++ [closed_of o']) |>)
    <| totalClosedSegmentBytes := u64 (totalClosedSegmentBytes l + sfb o') |>.

Lemma closeSegment_run l a b closed o' d' :
  segmentsByStartIndex l = map pair_of closed ++ [(b, open_segment opts algorithms o')] ->
  chain a (map pair_of closed) b -> sf_start o' = b -> sf_start o' <= sf_end o' -> 0 <= openSegmentFile l ->
  exec (close_ops (openSegmentFile l) o') (sl_disk l) = Ok (tt, d') ->
  closeSegment l = Ok (tt, closed_open l d' closed o').
Proof.
  intros Hsegs Hchain Hb Hle Hfd Hexec. pose proof (chain_keys _ _ _ Hchain) as Hkeys.
  apply bind_Ok in Hexec as ([] & d1 & E1 & Hexec). apply bind_Ok in Hexec as ([] & d2 & E2 & Hexec).
  apply bind_Ok in Hexec as ([] & d3 & E3 & Hexec). apply bind_Ok in Hexec as ([] & d4 & E4 & Hexec).
  apply bind_Ok in Hexec as ([] & d5 & E5 & Hexec). injection Hexec as ->. cbn [exec_op] in *.
  unfold closeSegment, getOpenSegment. unfold bind at 1, get at 1. rewrite (proj2 (Z.ltb_ge _ _)) by done.
  unfold bind at 1, bind at 1, get at 1. rewrite Hsegs, om_last_app. unfold ret at 1. cbv beta iota.
  cbn [open_segment seg_endIndex seg_startIndex seg_bytes filename]. rewrite (proj2 (Z.ltb_ge _ _)) by done.
  unfold bind at 1, on_disk at 1, zoom at 1, bind at 1. rewrite E1, E2.
  unfold bind at 1, release_open_file, bind at 1, get at 1, bind at 1, put, ret at 1.
  unfold bind at 1, on_disk at 1, zoom at 1. cbn [sl_disk set_field openSegmentFile]. rewrite E3.
  unfold bind at 1, on_disk at 1, zoom at 1, bind at 1. cbn [sl_disk set_field].
  change (makeClosedFilename (open_segment opts algorithms o')) with (sf_closed_name o'). rewrite E4, E5.
  unfold bind at 1, set_segment, modify. cbn. unfold closed_open, set_field. cbn. rewrite Hsegs, om_set_last by done.
  rewrite map_app, <-Hb. reflexivity.
Qed.

(** Opening a segment again ends [truncateSuffix]. *)
Lemma reopen_inv l out d a b closed prepared :
  inv l out d a b closed [] prepared -> counter l < u64_max - 1 ->
  exists l' d' o prepared', (openNewSegment opts ;;; checkInvariants opts) l = Ok (tt, l') /\
    inv l' out d' a b closed [o] prepared' /\ rep_entries closed [o] = rep_entries closed [] /\ kept_fields l l' /\
    sl_currentSync l' = sl_currentSync l.
Proof.
  intros Hinv Hcnt. destruct (openNewSegment_inv opts algorithms Hopts _ _ _ _ _ _ _ Hinv Hcnt)
    as (l' & d' & o & prepared' & Hrun & Hinv' & Hes & Hk & Hsync).
  exists l', d', o, prepared'. split; [|split_and!; [done| |done|done]].
  - unfold bind. rewrite Hrun. by apply (checkInvariants_inv opts algorithms Hopts) in Hinv'.
  - rewrite rep_entries_open, Hes. apply app_nil_r.
Qed.

Lemma rep_entries_cut a b closed n f :
  chain a (map pair_of closed) b -> sf_start f = b -> sf_start f - 1 <= n <= sf_end f ->
  concat (map sf_entries closed) ++ sf_entries (cut_file n f) =
    take (Z.to_nat (n + 1 - a)) (concat (map sf_entries closed) ++ sf_entries f).
Proof.
  intros Hchain Hb Hn. pose proof (chain_le _ _ _ Hchain).
  assert (Z.of_nat (length (concat (map sf_entries closed))) = b - a) as Hlen.
  { destruct (chain_records _ _ _ Hchain) as [<- _]. f_equal. clear. induction closed as [|g closed IH]; [done|].
    cbn [map concat]. unfold sf_pair at 1. rewrite records_of_cons, !length_app, IH. cbn [seg_entries sf_segment].
    by rewrite (placed_length opts algorithms). }
  rewrite take_app. rewrite (take_ge (concat _)) by lia. f_equal. cbn [sf_entries cut_file]. f_equal. lia.
Qed.

Lemma truncate_open_inv l d a b closed o prepared n :
  inv l [] d a b closed [o] prepared -> ops (sl_currentSync l) = [] -> sf_start o <= n < sf_end o ->
  logStartIndex l <= n + 1 -> counter l < u64_max - 1 ->
  exists l' d' closed' o' prepared', SegmentedLog_truncateSuffix opts n l = Ok (tt, l') /\
    inv l' [] d' a (n + 1) closed' [o'] prepared' /\ ops (sl_currentSync l') = [] /\
    rep_entries closed' [o'] = take (Z.to_nat (n + 1 - a)) (rep_entries closed [o]) /\ kept_fields l l'.
Proof.
  intros Hinv Hops Hn Hlog Hcnt. pose proof ((inv_synced opts algorithms) _ _ _ _ _ _ _ Hinv Hops) as Hdisk.
  destruct Hinv as [Hp Hr Hm]. destruct (rep_opens _ _ _ _ _ _ _ _ _ Hr) as [(Ho & Hoo & Hh) Hb].
  pose proof (rep_disk _ _ _ _ _ _ _ _ _ Hr) as Hd. set (o' := cut_file n o).
  assert (sf_end o' = n) as Hend by (apply cut_file_end; lia).
  assert (fok o') as Ho'. { pose proof (cut_file_ok n o Ho ltac:(lia) ltac:(by rewrite Hoo)) as Hok. rewrite Hoo in Hok.
    unfold o', cut_file. rewrite Hoo. exact Hok. }
  destruct (cut_file_content n o) as [rest Hrest]. pose proof (rep_contents _ _ _ _ _ _ _ _ _ Hr o ltac:(set_solver)) as Hco. rewrite Hrest in Hco.
  destruct ((close_ops_run opts algorithms) (openSegmentFile l) o' _ rest d Ho' Hoo Hd Hh Hco) as (d' & Hrun & Hd' & Hc' & Hk).
  destruct ((rep_last opts algorithms) _ _ _ _ _ _ _ Hr) as (Hsegs & Hlast & Hkeys). pose proof (rep_chain _ _ _ _ _ _ _ _ _ Hr) as Hchain.
  set (l0 := l <| segmentsByStartIndex := map pair_of closed ++ [(b, open_segment opts algorithms o')] |>).
  assert (inv (closed_open l0 d' closed o') [] d' a (n + 1) (closed ++ [closed_of o']) [] prepared) as Hinv'.
  { apply (inv_now opts algorithms); [| | |exact Hops].
    - apply pending_synced; [done|done|done|]. intros v. destruct (exec_ok _ _ _ Hd Hrun) as [_ Hun]. apply Hun.
      + eapply known_untouched_metadata, ((close_ops_known opts algorithms Hopts) l d a b closed o o' prepared Hr eq_refl).
      + destruct Hp as [_ _ _ Hu]. rewrite <-Hdisk. apply Hu.
    - rewrite <-Hend. eapply ((rep_close_open opts algorithms Hopts) l _ d d' a b closed o o'); try done; [by apply cut_file_nonempty; lia|..]; rewrite Hend; [|done].
      pose proof (sf_end_max _ _ _ Ho). lia.
    - eapply ((meta_rep_kept opts algorithms) l); [done|done| |done]. intros m. rewrite Hc'.
      destruct (decide (m = sf_closed_name o')) as [->|]; [left; by eexists _, _|]. rewrite fn_lookup_insert_ne by done.
      destruct (decide (m = sf_name o')) as [->|]; [|right; right; by rewrite fn_lookup_insert_ne].
      destruct ((closed_or_open opts algorithms) o' Ho') as [Hname|Hname]; auto. }
  destruct (reopen_inv _ _ _ _ _ _ _ Hinv' Hcnt) as (l2 & d2 & o2 & prepared2 & Hrun2 & Hinv2 & Hent2 & [K1 K2 K3 K4] & Hsync).
  exists l2, d2, (closed ++ [closed_of o']), o2, prepared2. split; [|split_and!; [done|by rewrite Hsync| |by split]].
  - unfold SegmentedLog_truncateSuffix. unfold bind at 1, get at 1. rewrite ((rep_getLastLogIndex opts algorithms) _ _ _ _ _ _ _ Hr), (proj2 (Z.leb_gt _ _)) by lia.
    unfold getOpenSegment. unfold bind at 1, bind at 1, get at 1. rewrite Hlast. unfold ret at 1. cbv beta iota.
    cbn [open_segment seg_startIndex]. rewrite (proj2 (Z.leb_le _ _)) by lia.
    unfold bind at 1, lift. change (mkSegment true (sf_start o) (sf_end o) (sfb o) (sf_name o) (plc header_size (sf_entries o))) with (open_segment opts algorithms o).
    rewrite (cut_segment_file n o) by done. unfold bind at 1, set_segment, modify.
    assert (l <| segmentsByStartIndex := om_set (segmentsByStartIndex l) b ((open_segment opts algorithms o) <| seg_bytes := sfb (cut_file n o) |>
      <| seg_entries := plc header_size (sf_entries (cut_file n o)) |> <| seg_endIndex := n |>) |> = l0) as ->.
    { rewrite Hsegs, om_set_last by done. unfold l0, SegmentedLogRep.open_segment. rewrite Hend. reflexivity. }
    unfold bind at 1. erewrite (closeSegment_run l0); [exact Hrun2|done|exact Hchain|done|rewrite Hend; exact (proj1 Hn)| |by rewrite <-Hdisk in Hrun].
    pose proof (handle_fresh _ _ _ _ Hd Hh) as Hfr. unfold dir_fd in Hfr. change (0 <= openSegmentFile l). lia.
  - rewrite Hent2, rep_entries_close, !rep_entries_open. unfold rep_entries. rewrite app_nil_r. eapply rep_entries_cut; [done|done|lia].
Qed.

(** The open segment is removed: the first step where more than that segment goes. *)
Definition removed_open (l : SegmentedLog) (d : Disk) (closed : list seg_file) : SegmentedLog :=
  ((l <| openSegmentFile := -1 |>) <| sl_disk := d |>) <| segmentsByStartIndex := map pair_of closed |>.

Lemma close_remove_run d fd name :
  disk_ok d -> startsWith name "/" = false -> (exists p, handle d fd name p) ->
  exists d', (close fd ;;; removeFile name ;;; fsync dir_fd) d = Ok (tt, d') /\ disk_ok d' /\
    (forall n, contents_of d' n = <[name := None]> (contents_of d) n) /\ handles_kept fd [name] d d' /\ fds d' !! fd = None.
Proof.
  intros Hd Hrel (p & i & Hfd & Hi). assert (wp (fun _ => False) (close fd ;;; removeFile name ;;; fsync dir_fd) (fun _ d' => disk_ok d' /\
    (forall n, contents_of d' n = <[name := None]> (contents_of d) n) /\ handles_kept fd [name] d d' /\ fds d' !! fd = None) d)
    as ([] & d' & Hrun & Hpost)%safe_run; [|by exists d'].
  apply wp_bind. eapply wp_close; [done..|]. intros d1 Hd1 Hc1 Hk1 Hnone.
  apply wp_bind. eapply wp_removeFile; [done..|]. intros d2 Hd2 Hc2 Hk2 Hf2. apply wp_fsync_dir.
  split; [done|]. split; [|split; [|by rewrite Hf2]].
  - intros n. rewrite Hc2. destruct (decide (n = name)) as [->|]; [by rewrite !fn_lookup_insert|by rewrite !fn_lookup_insert_ne, Hc1].
  - eapply handles_kept_trans; [by apply handles_kept_nil|by apply handles_kept_names].
Qed.

Lemma remove_open_inv l d a b closed o prepared :
  inv l [] d a b closed [o] prepared -> ops (sl_currentSync l) = [] -> (closed = [] -> b = logStartIndex l) ->
  exists d', closeSegment (l <| segmentsByStartIndex := om_set (segmentsByStartIndex l) b ((open_segment opts algorithms o)
      <| seg_endIndex := u64 (sf_start o - 1) |> <| seg_bytes := 0 |>) |>) = Ok (tt, removed_open l d' closed) /\
    inv (removed_open l d' closed) [] d' a b closed [] prepared.
Proof.
  intros Hinv Hops Hnil. pose proof ((inv_synced opts algorithms) _ _ _ _ _ _ _ Hinv Hops) as Hdisk. destruct Hinv as [Hp Hr Hm].
  destruct (rep_opens _ _ _ _ _ _ _ _ _ Hr) as [(Ho & Hoo & Hh) Hb]. pose proof (rep_disk _ _ _ _ _ _ _ _ _ Hr) as Hd.
  assert (o ∈ closed ++ [o] ++ prepared) as Hin by set_solver.
  destruct (close_remove_run d _ _ Hd ((file_relative opts algorithms) _ _ _ _ _ _ _ _ Hr Hin) (ex_intro _ _ Hh)) as (d' & Hrun & Hd' & Hc' & Hk & Hnone).
  destruct ((rep_last opts algorithms) _ _ _ _ _ _ _ Hr) as (Hsegs & Hlast & Hkeys). pose proof (handle_fresh _ _ _ _ Hd Hh) as Hfr. unfold dir_fd in Hfr.
  pose proof ((rep_files opts algorithms) _ _ _ _ _ _ _ Hr) as Hfiles. pose proof (fo_names _ _ _ _ _ Hfiles) as Hnd. pose proof (sf_start_pos _ _ _ Ho) as Hpos.
  pose proof (rep_start _ _ _ _ _ _ _ _ _ Hr) as (Ha & Hbm & Hfirst). exists d'. split; [|apply (inv_now opts algorithms); [| | |exact Hops]].
  - rewrite Hsegs, om_set_last by done. unfold closeSegment, getOpenSegment. unfold bind at 1, get at 1.
    cbn [openSegmentFile set_field]. rewrite (proj2 (Z.ltb_ge _ _)) by (change (0 <= openSegmentFile l); lia).
    unfold bind at 1, bind at 1, get at 1. cbn [segmentsByStartIndex set_field]. rewrite om_last_app. unfold ret at 1. cbv beta iota.
    cbn [open_segment seg_endIndex seg_startIndex filename set_field].
    rewrite (proj2 (Z.ltb_lt _ _)) by (change (u64 (sf_start o - 1) < sf_start o); rewrite u64_small; unfold is_u64, u64_max in *; lia).
    unfold bind at 1, release_open_file, bind at 1, get at 1, bind at 1, put, ret at 1.
    unfold bind at 1, on_disk at 1, zoom at 1. cbn [sl_disk set_field].
    change (openSegmentFile (set_field (proj := segmentsByStartIndex) _ l)) with (openSegmentFile l).
    rewrite Hdisk, Hrun. unfold modify, removed_open, set_field. cbn.
    rewrite Hb, om_erase_last by done. done.
  - apply pending_synced; [done|done|done|]. intros v. eapply unopened_closed; [exact Hnone| |exact Hk|].
    + intros Heq%list_elem_of_singleton. by eapply metadata_not_file in Heq.
    + destruct Hp as [_ _ _ Hu]. rewrite <-Hdisk. apply Hu.
  - eapply (rep_again opts algorithms Hopts); [exact Hr|done|exact Hk| |done| |apply (rep_chain _ _ _ _ _ _ _ _ _ Hr)| |apply (rep_closed _ _ _ _ _ _ _ _ _ Hr)|done| |].
    + assert (sf_name o ∉ map sf_name prepared) as Hop.
      { rewrite !map_app, !NoDup_app in Hnd. destruct Hnd as (_ & _ & _ & Hdis & _). apply Hdis. cbn. by left. }
      split; [right; right; by exists (sf_name o), (sfb o)|]. intros f Hf Heq%list_elem_of_singleton. apply Hop.
      rewrite <-Heq. by apply list_elem_of_fmap_2.
    + symmetry. apply app_nil_r.
    + split; [done|]. split; [done|]. rewrite app_nil_r. destruct closed; [by apply Hnil|exact Hfirst].
    + eapply (files_on_remove opts algorithms); [exact Hc'|]. eapply (files_on_perm opts algorithms), Hfiles. by rewrite app_nil_l, Permutation_middle.
    + apply (rep_total _ _ _ _ _ _ _ _ _ Hr).
  - eapply ((meta_rep_removed opts algorithms) l); [done|done| |exact Hc'|exact Hm]. by apply (closed_or_open opts algorithms).
Qed.

(** ** The loop over the closed segments *)

Lemma remove_fsync_run d name :
  disk_ok d -> startsWith name "/" = false ->
  exists d', (removeFile name ;;; fsync dir_fd) d = Ok (tt, d') /\ disk_ok d' /\
    (forall n, contents_of d' n = <[name := None]> (contents_of d) n) /\ handles_kept (-1) [name] d d' /\ fds d' = fds d.
Proof.
  intros Hd Hrel. destruct (removeFile_run d name Hd Hrel) as (d' & Hrun & Hpost). exists d'. split; [|done].
  unfold bind. by rewrite Hrun.
Qed.

Lemma no_negative_fd d : disk_ok d -> fds d !! (-1) = None.
Proof.
  intros Hd. destruct (fds d !! (-1)) as [[i p]|] eqn:Hf; [|done]. destruct (fds_pos _ Hd _ _ _ Hf). unfold dir_fd in *. lia.
Qed.

(** The last closed segment, as the list and the chain have it. *)
Lemma rep_last_closed l d a b closed f prepared :
  rep l d a b (closed ++ [f]) [] prepared ->
  segmentsByStartIndex l = map pair_of closed ++ [pair_of f] /\ chain a (map pair_of closed) (sf_start f) /\
  fok f /\ closed_file f /\ sf_start f <= sf_end f /\ b = sf_end f + 1 /\
  Forall (fun x => key_lt x.1 (sf_start f)) (map pair_of closed).
Proof.
  intros Hr. pose proof (rep_segments _ _ _ _ _ _ _ _ _ Hr) as Hsegs. rewrite map_app, app_nil_r in Hsegs.
  pose proof (rep_chain _ _ _ _ _ _ _ _ _ Hr) as Hchain. rewrite map_app in Hchain.
  apply chain_app in Hchain as (c & Hc & (Hs & _ & Hle & Heq)). cbn in Hle, Heq. pose proof (seg_key _ _ _ Hs) as Hk. cbn in Hk.
  pose proof (rep_closed _ _ _ _ _ _ _ _ _ Hr) as Hcl. apply Forall_app in Hcl as [_ Hcl]. inversion Hcl as [|? ? Hf _]; subst.
  split_and!; try done; [by destruct Hf|]. by eapply chain_keys.
Qed.

Lemma last_name_apart l d a b closed f prepared :
  rep l d a b (closed ++ [f]) [] prepared -> sf_name f ∉ map sf_name (closed ++ prepared).
Proof.
  intros Hr. pose proof (rep_names _ _ _ _ _ _ _ _ _ Hr) as Hnd. 
  assert ((closed ++ [f]) ++ [] ++ prepared ≡ₚ f :: closed ++ prepared) as Hp by by rewrite <-app_assoc, Permutation_middle.
  rewrite Hp in Hnd. cbn in Hnd. by apply NoDup_cons in Hnd as [Hn _].
Qed.

Definition dropped_last (l : SegmentedLog) (d : Disk) (closed : list seg_file) (f : seg_file) : SegmentedLog :=
  ((l <| sl_disk := d |>) <| totalClosedSegmentBytes := u64 (totalClosedSegmentBytes l - sfb f) |>)
    <| segmentsByStartIndex := map pair_of closed |>.

Lemma remove_closed_inv l d a b closed f prepared :
  inv l [] d a b (closed ++ [f]) [] prepared -> ops (sl_currentSync l) = [] -> (closed = [] -> sf_start f = logStartIndex l) ->
  exists d', (removeFile (sf_name f) ;;; fsync dir_fd) (sl_disk l) = Ok (tt, d') /\
    inv (dropped_last l d' closed f) [] d' a (sf_start f) closed [] prepared.
Proof.
  intros Hinv Hops Hnil. pose proof ((inv_synced opts algorithms) _ _ _ _ _ _ _ Hinv Hops) as Hdisk. destruct Hinv as [Hp Hr Hm].
  destruct (rep_last_closed _ _ _ _ _ _ _ Hr) as (Hsegs & Hchain & Hf & Hcl & Hle & Hb & Hkeys). pose proof (rep_disk _ _ _ _ _ _ _ _ _ Hr) as Hd.
  pose proof ((rep_files opts algorithms) _ _ _ _ _ _ _ Hr) as Hfiles. pose proof (last_name_apart _ _ _ _ _ _ _ Hr) as Hapart.
  destruct (remove_fsync_run d (sf_name f) Hd ltac:(by eapply sf_relative)) as (d' & Hrun & Hd' & Hc' & Hk & Hfds).
  pose proof (rep_start _ _ _ _ _ _ _ _ _ Hr) as (Ha & Hbm & Hfirst). pose proof (sf_end_max _ _ _ Hf).
  exists d'. split; [by rewrite Hdisk|]. apply (inv_now opts algorithms); [| | |exact Hops].
  - apply pending_synced; [done|done|done|]. intros v. eapply unopened_closed; [by apply no_negative_fd| |exact Hk|].
    + intros Heq%list_elem_of_singleton. by eapply metadata_not_file in Heq.
    + destruct Hp as [_ _ _ Hu]. rewrite <-Hdisk. apply Hu.
  - eapply (rep_again opts algorithms Hopts); [exact Hr|done|exact Hk| |done| |exact Hchain| | | | |].
    + split; [by left|]. intros g Hg Heq%list_elem_of_singleton. apply Hapart. rewrite <-Heq. apply list_elem_of_fmap_2. set_solver.
    + symmetry. apply app_nil_r.
    + split; [done|]. split; [lia|]. rewrite app_nil_r in *. destruct closed as [|g closed]; [by apply Hnil|exact Hfirst].
    + pose proof (rep_closed _ _ _ _ _ _ _ _ _ Hr) as Hall. by apply Forall_app in Hall as [? _].
    + apply (rep_opens _ _ _ _ _ _ _ _ _ Hr).
    + eapply (files_on_remove opts algorithms); [exact Hc'|]. eapply (files_on_perm opts algorithms), Hfiles. by rewrite !app_nil_l, <-app_assoc, Permutation_middle.
    + cbn. rewrite (rep_total _ _ _ _ _ _ _ _ _ Hr), u64_sub_l, (bytes_of_snoc opts algorithms). f_equal. lia.
  - eapply ((meta_rep_removed opts algorithms) l); [done|done| |exact Hc'|exact Hm]. by apply (closed_or_open opts algorithms).
Qed.

(** A closed segment cut off in its file. *)
Definition cut_closed (n : Z) (f : seg_file) : seg_file :=
  mk_seg_file (sf_closed_name (cut_file n f)) false (sf_start f) (sf_entries (cut_file n f)) 0.

Definition truncate_closed (l : SegmentedLog) (d : Disk) (closed : list seg_file) (n : Z) (f : seg_file) : SegmentedLog :=
  ((l <| sl_disk := d |>) <| totalClosedSegmentBytes := u64 (totalClosedSegmentBytes l - (sfb f - sfb (cut_file n f))) |>)
    <| segmentsByStartIndex := map pair_of (closed ++ [cut_closed n f]) |>.

Lemma rename_truncate_run d a b c rest size :
  disk_ok d -> startsWith a "/" = false -> startsWith b "/" = false -> a <> b ->
  contents_of d a = Some (c ++ rest) -> Z.of_nat (length c) = size -> size <= TimePoint_max ->
  exists d1 d2, (rename a b ;;; fsync dir_fd) d = Ok (tt, d1) /\
    (let! f := openFile b O_RDWR in truncate f size ;;; fsync f ;;; close f) d1 = Ok (tt, d2) /\
    disk_ok d2 /\ (forall n, contents_of d2 n = <[b := Some c]> (<[a := None]> (contents_of d)) n) /\
    exists fd, fds d !! fd = None /\ fds d2 !! fd = None /\ handles_kept fd [a; b] d d2.
Proof.
  intros Hd Ha Hb Hne Hc Hlen Hsize.
  assert (wp (fun _ => False) (rename a b) (fun _ d1 => disk_ok d1 /\
    (forall n, contents_of d1 n = <[b := Some (c ++ rest)]> (<[a := None]> (contents_of d)) n) /\
    handles_kept (-1) [a; b] d d1 /\ fds d1 = fds d) d) as ([] & d1 & Hrun1 & Hd1 & Hc1 & Hk1 & Hf1)%safe_run.
  { by eapply wp_rename. }
  assert (contents_of d1 b = Some (c ++ rest)) as Hcb by by rewrite Hc1, fn_lookup_insert.
  assert (wp (fun _ => False) (let! f := openFile b O_RDWR in truncate f size ;;; fsync f ;;; close f) (fun _ d2 => disk_ok d2 /\
    (forall n, contents_of d2 n = <[b := Some c]> (contents_of d1) n) /\
    exists fd, fds d1 !! fd = None /\ fds d2 !! fd = None /\ handles_kept fd [] d1 d2) d1) as ([] & d2 & Hrun2 & Hd2 & Hc2 & fd & Hn1 & Hn2 & Hk2)%safe_run.
  { apply wp_bind. eapply wp_openFile_existing; [done|done|exact Hcb|]. intros fd e1 He1 Hfd Hce1 Hh1 Hke1.
    apply wp_bind. eapply wp_truncate; [done|exact Hh1|rewrite Hce1; exact Hcb|done|]. intros e2 He2 Hce2 Hh2 Hke2.
    apply wp_bind. eapply wp_fsync; [exact Hh2|]. destruct Hh2 as (i & Hi & _). eapply wp_close; [done|exact Hi|].
    intros e3 He3 Hce3 Hke3 Hnone. split; [done|]. split.
    - intros n. rewrite Hce3, Hce2. replace (Z.to_nat size) with (length c) by lia.
      rewrite take_app_length, length_app. replace (_ - _)%nat with 0%nat by lia. rewrite app_nil_r.
      destruct (decide (n = b)) as [->|]; [by rewrite !fn_lookup_insert|by rewrite !fn_lookup_insert_ne].
    - exists fd. split; [by apply fds_fresh|]. split; [done|]. eapply handles_kept_trans; [exact Hke1|]. by eapply handles_kept_trans. }
  exists d1, d2. split; [unfold bind; by rewrite Hrun1|]. split; [exact Hrun2|]. split; [done|]. split.
  - intros n. rewrite Hc2. destruct (decide (n = b)) as [->|]; [by rewrite !fn_lookup_insert|rewrite !(fn_lookup_insert_ne _ b) by done; by rewrite Hc1, (fn_lookup_insert_ne _ b)].
  - exists fd. rewrite <-Hf1. split; [done|]. split; [done|]. eapply handles_kept_trans; [by apply handles_kept_names|by apply handles_kept_nil].
Qed.

Lemma cut_closed_ok n f : closed_file f -> sf_start f <= n <= sf_end f -> closed_file (cut_closed n f).
Proof.
  intros (Hf & Hfo & _) Hn. split; [|done]. pose proof (cut_file_ok n f Hf Hn) as Hok. rewrite Hfo in Hok.
  apply Hok. intros _. pose proof (sf_named _ _ _ Hf) as Hname. rewrite Hfo in Hname. by destruct Hname.
Qed.

(** The new name is not one of the directory. *)
Lemma cut_name_fresh l d a b closed f prepared n :
  rep l d a b (closed ++ [f]) [] prepared -> sf_start f <= n < sf_end f ->
  sf_name f <> sf_closed_name (cut_file n f) /\ sf_closed_name (cut_file n f) ∉ map sf_name (closed ++ prepared).
Proof.
  intros Hr Hn. destruct (rep_last_closed _ _ _ _ _ _ _ Hr) as (Hsegs & Hchain & Hf & Hcl & Hle & Hb & Hkeys).
  pose proof (cut_closed_ok n f Hcl ltac:(lia)) as (Hc & _). destruct (file_u64 _ _ _ Hc) as [U V]. destruct (file_u64 _ _ f Hf) as [U' V'].
  assert (sf_end (cut_closed n f) = n) as Hend by (apply (cut_file_end n f); lia). split.
  - rewrite ((closed_named opts algorithms) f Hcl). intros Heq. apply closed_filename_inj in Heq as [_ Heq]; [|done..].
    change (sf_end f = sf_end (cut_closed n f)) in Heq. lia.
  - intros (g & Heq & Hg)%list_elem_of_fmap. apply elem_of_app in Hg as [Hg|Hg].
    + pose proof (rep_closed _ _ _ _ _ _ _ _ _ Hr) as Hall. apply Forall_app in Hall as [Hall _]. rewrite Forall_forall in Hall.
      pose proof (Hall _ Hg) as Hgc. rewrite ((closed_named opts algorithms) g Hgc) in Heq. destruct Hgc as (Hgok & _). destruct (file_u64 _ _ g Hgok).
      apply closed_filename_inj in Heq as [Heq _]; [|done..]. rewrite Forall_forall in Hkeys.
      assert (key_lt (sf_start g) (sf_start f)) as Hlt by (apply (Hkeys (pair_of g)); by apply list_elem_of_fmap_2).
      change (sf_start g < sf_start f) in Hlt. change (sf_start f = sf_start g) in Heq. lia.
    + pose proof (rep_prepared _ _ _ _ _ _ _ _ _ Hr) as Hp. apply list_elem_of_lookup in Hg as [j Hj].
      destruct (Forall2_lookup_l _ _ _ _ _ Hp Hj) as (x & _ & (Hok & Hfo & _)).
      pose proof (sf_named _ _ _ Hok) as Hname. rewrite Hfo in Hname. destruct Hname as (id & _ & Hname).
      rewrite Hname in Heq. by apply closed_not_open in Heq.
Qed.

Lemma cut_closed_inv l d a b closed f prepared n :
  inv l [] d a b (closed ++ [f]) [] prepared -> ops (sl_currentSync l) = [] -> sf_start f <= n < sf_end f ->
  logStartIndex l <= n + 1 ->
  exists d1 d2, (rename (sf_name f) (sf_closed_name (cut_file n f)) ;;; fsync dir_fd) (sl_disk l) = Ok (tt, d1) /\
    (let! g := openFile (sf_closed_name (cut_file n f)) O_RDWR in truncate g (sfb (cut_file n f)) ;;; fsync g ;;; close g) d1 = Ok (tt, d2) /\
    inv (truncate_closed l d2 closed n f) [] d2 a (n + 1) (closed ++ [cut_closed n f]) [] prepared.
Proof.
  intros Hinv Hops Hn Hlog. pose proof ((inv_synced opts algorithms) _ _ _ _ _ _ _ Hinv Hops) as Hdisk. destruct Hinv as [Hp Hr Hm].
  destruct (rep_last_closed _ _ _ _ _ _ _ Hr) as (Hsegs & Hchain & Hf & Hcl & Hle & Hb & Hkeys). pose proof (rep_disk _ _ _ _ _ _ _ _ _ Hr) as Hd.
  pose proof ((rep_files opts algorithms) _ _ _ _ _ _ _ Hr) as Hfiles. pose proof (last_name_apart _ _ _ _ _ _ _ Hr) as Hapart.
  destruct (cut_name_fresh _ _ _ _ _ _ _ _ Hr Hn) as [Hne Hfresh]. pose proof (cut_closed_ok n f Hcl ltac:(lia)) as Hccl.
  assert (sf_end (cut_closed n f) = n) as Hend by (apply (cut_file_end n f); lia).
  destruct (cut_file_content n f) as [rest Hrest]. pose proof (rep_contents _ _ _ _ _ _ _ _ _ Hr f ltac:(set_solver)) as Hcf. rewrite Hrest in Hcf.
  destruct (rename_truncate_run d (sf_name f) (sf_closed_name (cut_file n f)) (sfi (cut_file n f)) rest (sfb (cut_file n f)))
    as (d1 & d2 & Hrun1 & Hrun2 & Hd2 & Hc2 & fd & Hn1 & Hn2 & Hk); [done|by eapply sf_relative|apply closed_relative|done|exact Hcf|apply sf_image_length| |].
  { apply (sf_bytes_max opts algorithms (cut_closed n f)). by destruct Hccl. }
  pose proof (rep_start _ _ _ _ _ _ _ _ _ Hr) as (Ha & Hbm & Hfirst). pose proof (sf_end_max _ _ _ Hf).
  exists d1, d2. split; [by rewrite Hdisk|]. split; [exact Hrun2|]. apply (inv_now opts algorithms); [| | |exact Hops].
  - apply pending_synced; [done|done|done|]. intros v. eapply unopened_closed; [exact Hn2| |exact Hk|].
    + rewrite !not_elem_of_cons. split; [by eapply metadata_not_file|]. split; [apply metadata_not_closed|apply not_elem_of_nil].
    + destruct Hp as [_ _ _ Hu]. rewrite <-Hdisk. apply Hu.
  - eapply (rep_again opts algorithms Hopts); [exact Hr|done|exact Hk| |done| | | | | | |].
    + split; [right; by left|]. intros g Hg. rewrite !not_elem_of_cons. split; [|split; [|apply not_elem_of_nil]]; intros Heq.
      * apply Hapart. rewrite <-Heq. apply list_elem_of_fmap_2. set_solver.
      * apply Hfresh. rewrite <-Heq. apply list_elem_of_fmap_2. set_solver.
    + symmetry. apply app_nil_r.
    + rewrite map_app. apply chain_app. exists (sf_start f). split; [exact Hchain|]. cbn.
      split; [apply (sf_segment_ok opts algorithms (cut_closed n f)); by destruct Hccl|]. split; [done|]. rewrite Hend. lia.
    + split; [exact Ha|]. split; [lia|]. rewrite app_nil_r in *. destruct closed as [|g closed]; [|exact Hfirst]. cbn [app].
      rewrite Hend. exact Hlog.
    + pose proof (rep_closed _ _ _ _ _ _ _ _ _ Hr) as Hall. apply Forall_app in Hall as [Hall _]. apply Forall_app. split; [done|]. by constructor.
    + apply (rep_opens _ _ _ _ _ _ _ _ _ Hr).
    + eapply ((files_on_perm opts algorithms) _ (cut_closed n f :: closed ++ prepared)); [by rewrite app_nil_l, <-app_assoc, Permutation_middle|].
      eapply ((files_on_rename opts algorithms) d d2 f); [|done|exact Hfresh|eapply (files_on_perm opts algorithms), Hfiles; by rewrite app_nil_l, <-app_assoc, Permutation_middle].
      intros m. rewrite Hc2. unfold sf_content. cbn [sf_zeros cut_closed]. change (zeros 0) with (@nil ascii). by rewrite app_nil_r.
    + cbn. rewrite (rep_total _ _ _ _ _ _ _ _ _ Hr), u64_sub_l, !(bytes_of_snoc opts algorithms). f_equal.
      change (sfb (cut_closed n f)) with (sfb (cut_file n f)). lia.
  - eapply ((meta_rep_kept opts algorithms) l); [done|done| |done]. intros m. rewrite Hc2.
    destruct (decide (m = sf_closed_name (cut_file n f))) as [->|]; [left; by eexists _, _|]. rewrite fn_lookup_insert_ne by done.
    destruct (decide (m = sf_name f)) as [->|]; [|right; right; by rewrite fn_lookup_insert_ne].
    destruct ((closed_or_open opts algorithms) f Hf) as [Hname|Hname]; auto.
Qed.

(** What the operations on the suffix leave alone. *)
Definition suffix_kept (l l' : SegmentedLog) : Prop :=
  logStartIndex l' = logStartIndex l /\ sl_metadata l' = sl_metadata l /\ log_metadata l' = log_metadata l /\
  counter l' = counter l /\ sl_currentSync l' = sl_currentSync l.

Lemma rep_entries_snoc closed f : rep_entries (closed ++ [f]) [] = concat (map sf_entries closed) ++ sf_entries f.
Proof. unfold rep_entries. rewrite app_nil_r, map_app, concat_app. cbn. by rewrite app_nil_r. Qed.

Lemma rep_entries_closed closed : rep_entries closed [] = concat (map sf_entries closed).
Proof. unfold rep_entries. by rewrite app_nil_r. Qed.

Lemma closed_entries_length a b closed : chain a (map pair_of closed) b -> Z.of_nat (length (concat (map sf_entries closed))) = b - a.
Proof.
  intros Hchain. destruct (chain_records _ _ _ Hchain) as [<- _]. f_equal. clear. induction closed as [|g closed IH]; [done|].
  cbn [map concat]. unfold sf_pair at 1. rewrite records_of_cons, !length_app, IH. cbn [seg_entries sf_segment].
  by rewrite (placed_length opts algorithms).
Qed.

Lemma cut_closed_pair n f : sf_start f - 1 <= n <= sf_end f ->
  pair_of (cut_closed n f) = (sf_start f, mkSegment false (sf_start f) n (sfb (cut_file n f))
    (sf_closed_name (cut_file n f)) (plc header_size (sf_entries (cut_file n f)))).
Proof.
  intros Hn. pose proof (cut_file_end n f Hn) as Hend. unfold sf_pair, sf_segment.
  change (sf_end (cut_closed n f)) with (sf_end (cut_file n f)). rewrite Hend. reflexivity.
Qed.

Lemma truncateSuffix_loop_inv n closed : forall l d a b prepared,
  inv l [] d a b closed [] prepared -> ops (sl_currentSync l) = [] -> logStartIndex l <= n + 1 -> n < b ->
  exists l' d' closed', truncateSuffix_loop n (rev (segmentsByStartIndex l)) l = Ok (tt, l') /\
    inv l' [] d' a (n + 1) closed' [] prepared /\
    rep_entries closed' [] = take (Z.to_nat (n + 1 - a)) (rep_entries closed []) /\ suffix_kept l l'.
Proof.
  induction closed as [|f closed IH] using rev_ind; intros l d a b prepared Hinv Hops Hlog Hn.
  - pose proof (inv_rep _ _ _ _ _ _ _ _ _ _ Hinv) as Hr. pose proof (rep_start _ _ _ _ _ _ _ _ _ Hr) as (Ha & _ & Hb). cbn in Hb.
    pose proof (rep_chain _ _ _ _ _ _ _ _ _ Hr) as Hab. cbn in Hab. pose proof (rep_segments _ _ _ _ _ _ _ _ _ Hr) as Hsegs. cbn in Hsegs.
    exists l, d, []. rewrite Hsegs. replace (n + 1) with b by lia. split_and!; try done. unfold rep_entries. cbn. by rewrite take_nil.
  - pose proof (inv_rep _ _ _ _ _ _ _ _ _ _ Hinv) as Hr. pose proof (rep_start _ _ _ _ _ _ _ _ _ Hr) as (Ha & _ & Hfirst).
    destruct (rep_last_closed _ _ _ _ _ _ _ Hr) as (Hsegs & Hchain & Hf & Hcl & Hle & Hb & Hkeys).
    pose proof (closed_entries_length _ _ _ Hchain) as Hlen. pose proof (chain_le _ _ _ Hchain) as Hac.
    rewrite Hsegs, rev_app_distr. cbn [rev app truncateSuffix_loop sf_pair sf_segment seg_endIndex seg_startIndex filename seg_bytes].
    rewrite rep_entries_snoc. destruct (sf_end f =? n) eqn:Heq.
    + exists l, d, (closed ++ [f]). split; [done|]. replace (n + 1) with b by lia. split; [done|]. split; [|done].
      rewrite rep_entries_snoc. symmetry. apply take_ge. rewrite length_app. unfold sf_end in *. lia.
    + destruct (n <? sf_start f) eqn:Hbelow.
      * destruct (remove_closed_inv _ _ _ _ _ _ _ Hinv Hops) as (d1 & Hrun & Hinv1).
        { intros ->. cbn in Hchain. lia. }
        destruct (IH _ _ _ _ _ Hinv1 Hops) as (l2 & d2 & closed2 & Hrun2 & Hinv2 & Hent2 & Hk2); [done|lia|].
        exists l2, d2, closed2. split; [|split; [done|split; [|exact Hk2]]].
        -- rewrite <-Hrun2. change (sf_closed_name f) with (sf_closed_name f). rewrite <-(closed_named opts algorithms f Hcl).
           unfold bind at 1, on_disk, zoom. rewrite Hrun. unfold bind at 1, modify.
           change (segmentsByStartIndex (dropped_last l d1 closed f)) with (map pair_of closed). f_equal.
           unfold dropped_last, set_field. cbn. rewrite Hsegs. unfold sf_pair at 2. by rewrite om_erase_last.
        -- rewrite Hent2, rep_entries_closed. rewrite take_app_le by lia. done.
      * rewrite (proj2 (Z.ltb_lt n (sf_end f))) by lia.
        destruct (cut_closed_inv _ _ _ _ _ _ _ n Hinv Hops) as (d1 & d2 & Hrun1 & Hrun2 & Hinv2); [lia|done|].
        exists (truncate_closed l d2 closed n f), d2, (closed ++ [cut_closed n f]). split; [|split; [done|split; [|done]]].
        -- unfold bind at 1, lift. rewrite (cut_segment_file n f) by (done || lia).
           unfold bind at 1, modify at 1. set (s' := set_field (proj := seg_endIndex) _ _).
           assert (makeClosedFilename s' = sf_closed_name (cut_file n f)) as ->.
           { unfold makeClosedFilename, sf_closed_name. by rewrite cut_file_end by lia. }
           change (filename s') with (sf_closed_name f). rewrite <-(closed_named opts algorithms f Hcl).
           unfold bind at 1, on_disk at 1, zoom at 1. cbn [sl_disk set_field].
           change (sl_disk (set_field (proj := totalClosedSegmentBytes) _ l)) with (sl_disk l). rewrite Hrun1.
           unfold bind at 1, set_segment, modify, on_disk, zoom.
           set (l1 := set_field (proj := sl_disk) d1 _). change (sl_disk (set_field (proj := segmentsByStartIndex) _ l1)) with d1. change (seg_bytes s') with (sfb (cut_file n f)). rewrite Hrun2.
           unfold truncate_closed, set_field. cbn. rewrite Hsegs. unfold sf_pair at 2. rewrite om_set_last by done.
           do 2 f_equal. rewrite map_app. cbn [map]. by rewrite (cut_closed_pair n f) by lia.
        -- rewrite rep_entries_snoc. apply (rep_entries_cut a (sf_start f)); [done|done|lia].
Qed.

Lemma rep_entries_length l d a b closed o prepared :
  rep l d a b closed [o] prepared -> Z.of_nat (length (rep_entries closed [o])) = sf_end o + 1 - a.
Proof.
  intros Hr. destruct (rep_opens _ _ _ _ _ _ _ _ _ Hr) as [_ Hb]. pose proof (rep_chain _ _ _ _ _ _ _ _ _ Hr) as Hchain.
  pose proof (closed_entries_length _ _ _ Hchain). rewrite rep_entries_open, rep_entries_closed, length_app. unfold sf_end. lia.
Qed.

Lemma truncateSuffix_inv l d a b closed o prepared n :
  inv l [] d a b closed [o] prepared -> ops (sl_currentSync l) = [] -> logStartIndex l <= n + 1 -> counter l < u64_max - 1 ->
  exists l' d' b' closed' o' prepared', SegmentedLog_truncateSuffix opts n l = Ok (tt, l') /\
    inv l' [] d' a b' closed' [o'] prepared' /\ ops (sl_currentSync l') = [] /\
    rep_entries closed' [o'] = take (Z.to_nat (n + 1 - a)) (rep_entries closed [o]) /\ kept_fields l l'.
Proof.
  intros Hinv Hops Hlog Hcnt. pose proof (inv_rep _ _ _ _ _ _ _ _ _ _ Hinv) as Hr.
  pose proof (rep_entries_length _ _ _ _ _ _ _ Hr) as Hlen. destruct (rep_opens _ _ _ _ _ _ _ _ _ Hr) as [_ Hb].
  destruct (Z.le_gt_cases (sf_end o) n) as [Hall|Hsome].
  { exists l, d, b, closed, o, prepared. unfold SegmentedLog_truncateSuffix, bind at 1, get.
    rewrite (rep_getLastLogIndex opts algorithms _ _ _ _ _ _ _ Hr), (proj2 (Z.leb_le _ _)) by done. split; [done|].
    split; [done|]. split; [done|]. split; [symmetry; apply take_ge; lia|]. split; try done. lia. }
  destruct (Z.le_gt_cases (sf_start o) n) as [Hin|Hbelow].
  { destruct (truncate_open_inv _ _ _ _ _ _ _ n Hinv Hops ltac:(lia) Hlog Hcnt) as (l' & d' & closed' & o' & prepared' & Hpost).
    by exists l', d', (n + 1), closed', o', prepared'. }
  destruct (remove_open_inv _ _ _ _ _ _ _ Hinv Hops) as (d1 & Hrun1 & Hinv1).
  { intros ->. pose proof (rep_chain _ _ _ _ _ _ _ _ _ Hr) as Hab. cbn in Hab. pose proof (rep_start _ _ _ _ _ _ _ _ _ Hr). lia. }
  destruct (truncateSuffix_loop_inv n closed _ _ _ _ _ Hinv1 Hops) as (l2 & d2 & closed2 & Hrun2 & Hinv2 & Hent2 & E1 & E2 & E3 & E4 & E5);
    [done|lia|].
  destruct (reopen_inv _ _ _ _ _ _ _ Hinv2) as (l3 & d3 & o3 & prepared3 & Hrun3 & Hinv3 & Hent3 & [K1 K2 K3 K4] & Hsync).
  { rewrite E4. exact Hcnt. }
  exists l3, d3, (n + 1), closed2, o3, prepared3. split; [|split_and!; [done|by rewrite Hsync, E5| |]].
  - destruct (rep_last opts algorithms _ _ _ _ _ _ _ Hr) as (_ & Hlast & _).
    unfold SegmentedLog_truncateSuffix. unfold bind at 1, get at 1. rewrite (rep_getLastLogIndex opts algorithms _ _ _ _ _ _ _ Hr), (proj2 (Z.leb_gt _ _)) by lia.
    unfold getOpenSegment. unfold bind at 1, bind at 1, get at 1. rewrite Hlast. unfold ret at 1. cbv beta iota.
    cbn [open_segment seg_startIndex]. rewrite (proj2 (Z.leb_gt _ _)) by lia.
    unfold bind at 1, set_segment, modify. change (mkSegment true (sf_start o) (sf_end o) (sfb o) (sf_name o) (plc header_size (sf_entries o))) with (open_segment opts algorithms o).
    unfold bind at 1. rewrite Hrun1. unfold bind at 1, get. unfold bind at 1. rewrite Hrun2. exact Hrun3.
  - rewrite Hent3, Hent2, rep_entries_open. pose proof (closed_entries_length _ _ _ (rep_chain _ _ _ _ _ _ _ _ _ Hr)).
    rewrite rep_entries_closed, take_app_le; [done|]. lia.
  - rewrite E1 in K1. rewrite E2 in K2. rewrite E3 in K3. rewrite E4 in K4. by split.
Qed.
End Suffix.
