(* ===== verification/SegmentedLogDurable.v ===== *)
(** * The segmented log survives restarts

    What the files hold is what the log holds: a state of the invariant whose
    queued operations have run is one that the constructor recovers, with the
    same start index, entries and metadata. *)

From Stdlib Require Import ZArith Lia Ascii String.
From stdpp Require Import base functions gmap strings list fin_maps sorting.
From S2P Require Import Prelude OrderedMap StringUtil Stream SnapshotFile Log Disk DiskSpec Checksum Printf SegmentedLog SegmentedLogFormat SegmentedLogSpec SegmentedLogSync SegmentedLogLoad SegmentedLogCrash SegmentedLogRep SegmentedLogRecovery SegmentedLogOps SegmentedLogSuffix.
Local Open Scope Z_scope.
Local Open Scope list_scope.

Section Durable.
Context (opts : SegOptions) (algorithms : bytes -> option (bytes -> bytes)) `{!AlgorithmLaws algorithms}.
Context `{ProtoBuf LogEntry} `{ProtoBufText LogEntry} `{!ProtoBufLaws LogEntry} `{!ProtoBufTextLaws LogEntry}.
Context `{ProtoBuf SegMetadata} `{ProtoBufText SegMetadata} `{!ProtoBufLaws SegMetadata} `{!ProtoBufTextLaws SegMetadata}.
Hypothesis Hopts : options_ok opts algorithms.
Let Hknown : is_Some (algorithms (checksumAlgorithm opts)) := algorithm_known _ _ Hopts.

Abbreviation img := (image opts algorithms).
Abbreviation plc := (placed opts algorithms).
Abbreviation sfb := (sf_bytes opts algorithms).
Abbreviation sfi := (sf_image opts algorithms).
Abbreviation sfc := (sf_content opts algorithms).
Abbreviation fok := (sf_ok opts algorithms).
Abbreviation pair_of := (sf_pair opts algorithms).
Abbreviation open_pair := (open_pair opts algorithms).
Abbreviation rep := (rep opts algorithms).
Abbreviation inv := (inv opts algorithms).
Abbreviation meta_rep := (meta_rep opts algorithms).
Abbreviation prepared_file := (prepared_file opts algorithms).
Abbreviation closed_file := (closed_file opts algorithms).

Abbreviation files_on := (files_on opts algorithms).
Abbreviation close_ops := (close_ops opts algorithms).



(** ** The entries in memory *)

Lemma rep_records closed o :
  map record_entry (records_of (map pair_of closed ++ [open_pair o])) = rep_entries closed [o].
Proof.
  unfold rep_entries. rewrite map_app, concat_app, records_of_app, map_app. f_equal.
  - induction closed as [|f closed IH]; [done|]. cbn [map concat]. unfold sf_pair at 1. rewrite records_of_cons, map_app, IH.
    cbn [seg_entries sf_segment]. by rewrite (placed_entries opts algorithms).
  - unfold records_of. cbn. rewrite !app_nil_r. apply (placed_entries opts algorithms).
Qed.

(** The state in memory is one of [SegmentedLogSpec.v]. *)
Lemma rep_segments_ok l d a b closed o prepared :
  rep l d a b closed [o] prepared ->
  segments_ok (segmentsByStartIndex l) a b (map pair_of closed) (open_segment opts algorithms o).
Proof.
  intros Hr. destruct (rep_last opts algorithms _ _ _ _ _ _ _ Hr) as (Hsegs & _).
  destruct (rep_opens _ _ _ _ _ _ _ _ _ Hr) as [(Ho & Hoo & _) Hb]. split; [exact Hsegs|apply Hr| |done|].
  - destruct (sf_segment_ok opts algorithms o Ho) as [H1' H2' H3' H4']. rewrite <-Hb. by split.
  - intros Hnil. cbn in Hnil |- *. assert (sf_entries o = []) as Hes.
    { apply (f_equal length) in Hnil. rewrite (placed_length opts algorithms) in Hnil. by destruct (sf_entries o). }
    unfold sf_bytes. rewrite Hes. cbn. lia.
Qed.

Lemma rep_all_records l d a b closed o prepared :
  rep l d a b closed [o] prepared -> map record_entry (records_of (segmentsByStartIndex l)) = rep_entries closed [o].
Proof.
  intros Hr. rewrite (rep_segments _ _ _ _ _ _ _ _ _ Hr). apply rep_records.
Qed.

Lemma rep_log_ok l d a b closed o prepared : rep l d a b closed [o] prepared -> SL_ok l.
Proof.
  intros Hr. apply SL_ok_holds. pose proof (rep_segments_ok _ _ _ _ _ _ _ Hr) as Hm.
  destruct (rep_log_end opts algorithms _ _ _ _ _ _ _ Hr) as [Hend _]. pose proof (rep_start _ _ _ _ _ _ _ _ _ Hr) as (Ha & _).
  destruct (rep_opens _ _ _ _ _ _ _ _ _ Hr) as [(Ho & _) _]. pose proof (sf_end_max _ _ _ Ho) as Hmax.
  exists a, b, (map pair_of closed), (open_segment opts algorithms o). split_and!; [done|lia|lia|cbn; lia|cbn; lia|].
  unfold SL_entries, first_start. by rewrite (segments_first _ _ _ _ _ Hm).
Qed.

(** [getEntry] finds the entry that was appended, with its index. *)
Lemma rep_getEntry l d a b closed o prepared i e :
  rep l d a b closed [o] prepared -> logStartIndex l <= i ->
  live_entries (logStartIndex l) a (rep_entries closed [o]) !! Z.to_nat (i - logStartIndex l) = Some e ->
  SegmentedLog_getEntry i l = Ok e.
Proof.
  intros Hr Hi He. pose proof (rep_start _ _ _ _ _ _ _ _ _ Hr) as (Ha & _). unfold live_entries in He. rewrite lookup_drop in He.
  replace (_ + _)%nat with (Z.to_nat (i - a)) in He by lia. rewrite <-(rep_all_records _ _ _ _ _ _ _ Hr) in He.
  apply list_lookup_fmap_Some in He as (r & -> & He). pose proof (rep_segments_ok _ _ _ _ _ _ _ Hr) as Hm.
  destruct (segments_records _ _ _ _ _ Hm) as [Hlen _]. apply lookup_lt_Some in He as Hlt.
  destruct (getEntry_record l _ _ _ _ i Hm Hi) as (r' & Hget & Hr'); [lia|]. congruence.
Qed.

(** ** Recovering the files of the invariant *)

Definition file_map (fs : list seg_file) : gmap string seg_file := list_to_map (map (fun f => (sf_name f, f)) fs).

Lemma file_map_lookup fs n f : NoDup (map sf_name fs) -> file_map fs !! n = Some f <-> f ∈ fs /\ sf_name f = n.
Proof.
  intros Hnd. unfold file_map. rewrite <-elem_of_list_to_map.
  - rewrite list_elem_of_fmap. split; [by intros (g & [= -> ->] & Hg)|]. intros [Hf <-]. by exists f.
  - by rewrite map_map.
Qed.

Lemma kept_files_cons start f fs :
  kept_files start (f :: fs) = if sf_kept start f then f :: kept_files start fs else kept_files start fs.
Proof. done. Qed.

Lemma kept_nonempty_file start f : sf_entries f <> [] -> sf_kept start f = (start <=? sf_end f).
Proof. unfold sf_kept. by destruct (sf_entries f). Qed.

(** The segments that recovery keeps, and where they start: only the first may
    have gone below the start index. *)
Lemma kept_all start c fs b :
  start <= c -> chain c (map pair_of fs) b -> Forall (fun f => sf_entries f <> []) fs -> kept_files start fs = fs.
Proof.
  revert c. induction fs as [|f fs IH]; intros c Hc Hchain Hne; [done|].
  inversion Hne as [|? ? Hf Hfs]; subst. destruct Hchain as (Hs & _ & Hle & Hchain). cbn in Hle, Hchain.
  rewrite kept_files_cons, (kept_nonempty_file start f Hf), (proj2 (Z.leb_le _ _)) by lia. f_equal. apply (IH (sf_end f + 1)); [lia|done|done].
Qed.

Lemma kept_chain start fs b : forall a,
  chain a (map pair_of fs) b -> Forall (fun f => sf_entries f <> []) fs -> 1 <= a <= start ->
  exists a', chain a' (map pair_of (kept_files start fs)) (Z.max b start) /\ 1 <= a' <= start /\
    (kept_files start fs = [] -> a' = Z.max b start) /\
    live_entries start a' (concat (map sf_entries (kept_files start fs))) = live_entries start a (concat (map sf_entries fs)).
Proof.
  induction fs as [|f fs IH]; intros a Hchain Hne Ha.
  { cbn in Hchain. subst b. exists start. rewrite Z.max_r by lia. split_and!; [done|lia|lia|done|].
    unfold live_entries. cbn. by rewrite !drop_nil. }
  inversion Hne as [|? ? Hnef Hnefs]; subst. pose proof (chain_le _ _ _ Hchain) as Hab. pose proof Hchain as (Hs & _ & Hle & Hrest). cbn in Hle, Hrest.
  pose proof (seg_start _ _ _ Hs) as Hfa. cbn in Hfa. pose proof (chain_le _ _ _ Hrest).
  rewrite kept_files_cons, (kept_nonempty_file start f Hnef). destruct (start <=? sf_end f) eqn:Hkeep.
  - exists a. rewrite Z.max_l by lia. rewrite (kept_all start (sf_end f + 1) fs b) by (done || lia). split_and!; try done; lia.
  - destruct (IH (sf_end f + 1) Hrest Hnefs ltac:(lia)) as (a' & Hchain' & Ha' & Hnil & Hlive). exists a'. split_and!; try done; try lia.
    rewrite Hlive. unfold live_entries. cbn [map concat]. symmetry. apply drop_file_entries; [by symmetry|lia|lia].
Qed.

Lemma contents_reboot d n : contents_of (reboot d) n = contents_of d n.
Proof. done. Qed.

Lemma reboot_ok d : disk_ok d -> disk_ok (reboot d).
Proof. intros [H1' H2' _ _ H5']. by split. Qed.

(** A directory that holds a log can be recovered from any start index on. *)
Lemma holds_recoverable d c a es start :
  holds_log opts algorithms d c a es -> a <= start -> c < u64_max - 3 ->
  start + Z.of_nat (length (live_entries start a es)) < u64_max - 1 ->
  exists files ks a' b', recoverable opts algorithms (reboot d) files start ks a' b' /\
    live_entries start a' (concat (map sf_entries ks)) = live_entries start a es /\
    ids_upto (listed files (ls_sorted (reboot d))) c.
Proof.
  intros (live & extra & [Hd Hfiles Hok (b & Hchain) Hne Hempty Ha] & ->) Hstart Hc Hmax.
  destruct (kept_chain start live b a Hchain Hne ltac:(lia)) as (a' & Hchain' & Ha' & Hnil & Hlive).
  assert (NoDup (map sf_name (live ++ extra))) as Hnd by apply Hfiles. rewrite Forall_forall in Hok.
  assert (Z.max b start < u64_max - 1) as Hb.
  { destruct (chain_records _ _ _ Hchain) as [Hl _]. assert (length (records_of (map pair_of live)) = length (concat (map sf_entries live))) as Heq.
    { clear. induction live as [|f live IH]; [done|]. cbn [map concat]. unfold sf_pair at 1. rewrite records_of_cons, !length_app, IH. f_equal.
      apply (placed_length opts algorithms). }
    rewrite Heq in Hl. unfold live_entries in Hmax. rewrite length_drop in Hmax. lia. }
  assert (directory opts algorithms (reboot d) (file_map (live ++ extra))) as Hdir.
  { split.
    - intros n f [Hf <-]%file_map_lookup; [|done]. split_and!; [by apply Hok|done|]. by apply Hfiles.
    - intros n Hn. apply (fo_only _ _ _ _ _ Hfiles). intros (f & -> & Hf)%list_elem_of_fmap.
      assert (file_map (live ++ extra) !! sf_name f = Some f) by (by apply file_map_lookup). congruence. }
  exists (file_map (live ++ extra)), (kept_files start live), a', (Z.max b start). split; [split|split].
  - by apply reboot_ok.
  - done.
  - done.
  - intros f. rewrite kept_elem. split.
    + intros [Hf Hk]. split; [|done]. exists (sf_name f). apply file_map_lookup; [done|]. split; [|done]. apply elem_of_app. by left.
    + intros [[n [Hf _]%file_map_lookup] Hk]; [|done]. split; [|done]. apply elem_of_app in Hf as [Hf|Hf]; [done|].
      rewrite Forall_forall in Hempty. unfold sf_kept in Hk. by rewrite (Hempty f Hf) in Hk.
  - done.
  - split_and!; [lia..|]. intros Hk. by apply Hnil.
  - intros n f id [Hf _]%file_map_lookup Hid; [|done]. pose proof (fo_ids _ _ _ _ _ Hfiles f id Hf Hid). lia.
  - done.
  - intros f id Hin Hid. apply (listed_elem opts algorithms) in Hin as [n Hn]; [|done|by apply reboot_ok].
    apply file_map_lookup in Hn as [Hin _]; [|done]. by apply (fo_ids _ _ _ _ _ Hfiles f id).
Qed.

Lemma meta_rep_found l d files :
  meta_rep l d -> found_metadata opts algorithms (reboot d) files (sl_metadata l).
Proof.
  intros Hm. destruct (meta_other _ _ _ _ Hm) as (r & Hr & Hold). destruct (meta_fields _ _ _ _ Hm) as (Hv & _).
  assert (meta_read opts algorithms (contents_of d (metadata_filename (version (sl_metadata l)))) (Some (sl_metadata l))) as Hcur.
  { rewrite (meta_current _ _ _ _ Hm). apply (meta_read_back opts algorithms Hknown); [apply Hm|lia]. }
  unfold found_metadata. change (contents_of (reboot d)) with (contents_of d).
  assert (metadata_filename (version (sl_metadata l)) = "metadata1"%string /\ metadata_filename (version (sl_metadata l) + 1) = "metadata2"%string \/
    metadata_filename (version (sl_metadata l)) = "metadata2"%string /\ metadata_filename (version (sl_metadata l) + 1) = "metadata1"%string) as [[E1 E2]|[E1 E2]].
  { pose proof (metadata_filename_succ (version (sl_metadata l))) as Hne. unfold metadata_filename in *.
    destruct (version (sl_metadata l) mod 2 =? 1), ((version (sl_metadata l) + 1) mod 2 =? 1); try done; auto. }
  - rewrite E1 in Hcur. rewrite E2 in Hr. exists (Some (sl_metadata l)), r. split_and!; [done..|].
    destruct r as [m|]; [|done]. cbn. by rewrite (proj2 (Z.ltb_lt _ _)) by (by apply Hold).
  - rewrite E1 in Hcur. rewrite E2 in Hr. exists r, (Some (sl_metadata l)). split_and!; [done..|].
    destruct r as [m|]; [|done]. cbn. rewrite (proj2 (Z.ltb_ge _ _)); [done|]. specialize (Hold m eq_refl). lia.
Qed.
End Durable.
