(* ===== verification/SegmentedLogSystem.v ===== *)
(** * Runs of the segmented log

    A server appends, truncates and writes metadata, hands the queued operations
    of the disk over to be waited for, possibly later and out of step with what it
    appends meanwhile, and is killed and started again over the same directory. A
    kill falls before, between or after the queued file operations; the
    operations on files that run at once, in the middle of a call (the metadata,
    closing and truncating segments, and preparing a new one), are not
    interrupted. Segments are prepared when one is needed, in one step. Every such run is one of the abstract log of this file: a start
    index, the entries and the metadata, of which a kill may take the last entries
    that were not waited for. *)

From Stdlib Require Import ZArith Lia Ascii String.
From stdpp Require Import base functions gmap strings list fin_maps sorting.
From S2P Require Import Prelude OrderedMap StringUtil Stream SnapshotFile Log Disk DiskSpec Checksum Printf SegmentedLog SegmentedLogFormat SegmentedLogSpec SegmentedLogSync SegmentedLogLoad SegmentedLogCrash SegmentedLogRep SegmentedLogRecovery SegmentedLogOps SegmentedLogSuffix SegmentedLogDurable.
Local Open Scope Z_scope.
Local Open Scope list_scope.

(** What the server does to its log. *)
Inductive call : Type :=
  | Append (es : list LogEntry)
  | TruncatePrefix (n : Z)
  | TruncateSuffix (n : Z)
  | SaveMetadata (m : Metadata)
  | TakeSync
  | WaitSync
  | Kill (k : nat).

(** ** The abstract log *)

(** [lg_version] counts the writes of the metadata, [lg_files] bounds the numbers
    of the files. What is not yet known to be on disk: [lg_queued] says if there
    are operations since the last [TakeSync], [lg_unwritten] counts the entries
    among them, and [lg_syncs] those of the [Sync] objects not waited for. *)
Record logical : Type := mkLogical {
  lg_start : Z;
  lg_entries : list LogEntry;
  lg_metadata : Metadata;
  lg_version : Z;
  lg_files : Z;
  lg_queued : bool;
  lg_unwritten : nat;
  lg_syncs : list nat
}.

#[export] Instance logical_eta : Eta logical := fun s =>
  mkLogical (lg_start s) (lg_entries s) (lg_metadata s) (lg_version s) (lg_files s) (lg_queued s) (lg_unwritten s) (lg_syncs s).

Definition lg_last (s : logical) : Z := lg_start s + Z.of_nat (length (lg_entries s)) - 1.

Definition logical_init : logical := mkLogical 1 [] Metadata_init 2 2 false 0 [].

(** The entries that a kill may take. *)
Definition lg_pending (s : logical) : nat := (list_sum (lg_syncs s) + lg_unwritten s)%nat.

(** [lost] is how many of the last entries a kill takes. *)
Definition logical_step (c : call) (lost : nat) (s : logical) : logical :=
  match c with
  | Append es =>
      s <| lg_entries := lg_entries s ++ numbered (lg_last s + 1) es |> <| lg_queued := true |>
        <| lg_unwritten := (lg_unwritten s + length es)%nat |> <| lg_files := lg_files s + Z.of_nat (length es) |>
  | TruncatePrefix n =>
      if n <=? lg_start s then s else
      s <| lg_start := n |> <| lg_entries := drop (Z.to_nat (n - lg_start s)) (lg_entries s) |>
        <| lg_version := lg_version s + 1 |> <| lg_files := lg_files s + 1 |> <| lg_queued := true |>
  | TruncateSuffix n =>
      s <| lg_entries := take (Z.to_nat (n + 1 - lg_start s)) (lg_entries s) |> <| lg_files := lg_files s + 1 |>
  | SaveMetadata m => s <| lg_metadata := m |> <| lg_version := lg_version s + 1 |>
  | TakeSync => s <| lg_queued := false |> <| lg_unwritten := O |> <| lg_syncs := lg_syncs s ++ [lg_unwritten s] |>
  | WaitSync => s <| lg_syncs := tail (lg_syncs s) |>
  | Kill _ =>
      s <| lg_entries := all_but lost (lg_entries s) |> <| lg_queued := false |> <| lg_unwritten := O |> <| lg_syncs := [] |>
        <| lg_version := lg_version s + 2 |> <| lg_files := lg_files s + 2 |>
  end.

Definition answer (c : call) (s : logical) : option (Z * Z) :=
  match c with
  | Append es => Some (lg_last s + 1, lg_last s + Z.of_nat (length es))
  | _ => None
  end.

Definition may_lose (c : call) (s : logical) : nat := match c with Kill _ => lg_pending s | _ => O end.

(** The runs of the abstract log, with their answers. *)
Inductive logical_run : list call -> logical -> list (option (Z * Z)) -> logical -> Prop :=
  | run_nil s : logical_run [] s [] s
  | run_cons c cs lost s rs s' :
      (lost <= may_lose c s)%nat -> logical_run cs (logical_step c lost s) rs s' ->
      logical_run (c :: cs) s (answer c s :: rs) s'.

Section System.
Context (opts : SegOptions) (algorithms : bytes -> option (bytes -> bytes)).
Context `{ProtoBuf LogEntry} `{ProtoBufText LogEntry} `{ProtoBuf SegMetadata} `{ProtoBufText SegMetadata}.

(** ** The run *)

(** The log and the [Sync] objects that were taken and not waited for. *)
Definition system : Type := SegmentedLog * list SegSync.

(** The operations that wait, in the order they will run. *)
Definition waiting_ops (syncs : list SegSync) : list Op.t := concat (map ops syncs).

Definition queue (x : system) : list Op.t := waiting_ops x.2 ++ ops (sl_currentSync x.1).

(** [Append] returns the range of indexes. A process that is killed has run some
    of the operations that wait; it leaves the directory, all else is lost. *)
Definition system_step (c : call) (x : system) : outcome (option (Z * Z) * system) :=
  let quiet (m : M SegmentedLog unit) :=
    match m x.1 with Ok (_, l) => Ok (None, (l, x.2)) | Fail f => Fail f end in
  match c with
  | Append es =>
      match SegmentedLog_append opts algorithms es x.1 with
      | Ok (r, l) => Ok (Some r, (l, x.2))
      | Fail f => Fail f
      end
  | TruncatePrefix n => quiet (SegmentedLog_truncatePrefix opts algorithms n)
  | TruncateSuffix n => quiet (SegmentedLog_truncateSuffix opts n)
  | SaveMetadata m =>
      quiet (modify (fun l => l <| log_metadata := m |>) ;;; SegmentedLog_updateMetadata opts algorithms)
  | TakeSync =>
      match SegmentedLog_takeSync x.1 with
      | Ok (s, l) => Ok (None, (l, x.2 ++ [s]))
      | Fail f => Fail f
      end
  | WaitSync =>
      match x.2 with
      | s :: rest =>
          match on_disk (Sync_wait s) x.1 with
          | Ok (_, l) => Ok (None, (l, rest))
          | Fail f => Fail f
          end
      | [] => Fail AssertFailed
      end
  | Kill k =>
      match exec (take k (queue x)) (sl_disk x.1) with
      | Ok (_, d) =>
          match SegmentedLog_construct opts algorithms (reboot d) with
          | Ok l => Ok (None, (l, []))
          | Fail f => Fail f
          end
      | Fail f => Fail f
      end
  end.

(** The answers of a run, and the state it ends in. *)
Fixpoint system_run (cs : list call) (x : system) : outcome (list (option (Z * Z)) * system) :=
  match cs with
  | [] => Ok ([], x)
  | c :: cs' =>
      match system_step c x with
      | Ok (r, x') =>
          match system_run cs' x' with
          | Ok (rs, y) => Ok (r :: rs, y)
          | Fail f => Fail f
          end
      | Fail f => Fail f
      end
  end.

(** ** The runs that are considered *)

(** What the callers of the log see to, and that no counter comes near its end.
    The suffix is cut only with nothing left to wait for. *)
Definition allowed (c : call) (s : logical) : Prop :=
  lg_files s < u64_max - 8 /\ lg_version s + 4 < u64_max /\
  match c with
  | Append es =>
      appendable opts (lg_last s + 1) es /\ lg_last s + Z.of_nat (length es) < u64_max - 8 /\
      lg_files s + Z.of_nat (length es) < u64_max - 8
  | TruncatePrefix n =>
      n < u64_max - 8 /\ metadata_fits opts (lg_metadata s) (lg_version s + 1) n
  | TruncateSuffix n => lg_start s <= n + 1 /\ lg_queued s = false /\ lg_syncs s = []
  | SaveMetadata m => metadata_fits opts m (lg_version s + 1) (lg_start s)
  | TakeSync => True
  | WaitSync => lg_syncs s <> []
  | Kill _ =>
      metadata_fits opts (lg_metadata s) (lg_version s + 1) (lg_start s) /\
      metadata_fits opts (lg_metadata s) (lg_version s + 2) (lg_start s)
  end.

Fixpoint all_allowed (cs : list call) (s : logical) : Prop :=
  match cs with
  | [] => True
  | c :: cs' => allowed c s /\ forall lost, (lost <= may_lose c s)%nat -> all_allowed cs' (logical_step c lost s)
  end.

(** [allowed], evaluated. *)
Definition encodableb {T} `{ProtoBuf T} `{ProtoBufText T} (m : T) : bool :=
  Z.of_nat (length (encode_data opts m)) <? 2147483648.

Fixpoint appendableb (i : Z) (es : list LogEntry) : bool :=
  match es with
  | [] => true
  | e :: es' =>
      encodableb (e <| Log.index := Some i |>) &&
      match Log.index e with Some k => k =? i | None => true end && appendableb (i + 1) es'
  end.

Definition fitsb (m : Metadata) (v i : Z) : bool :=
  encodableb (mkSegMetadata 1 v (if metadata_is_empty m then None else Some m) i).

Definition allowedb (c : call) (s : logical) : bool :=
  (lg_files s <? u64_max - 8) && (lg_version s + 4 <? u64_max) &&
  match c with
  | Append es =>
      appendableb (lg_last s + 1) es && (lg_last s + Z.of_nat (length es) <? u64_max - 8) &&
      (lg_files s + Z.of_nat (length es) <? u64_max - 8)
  | TruncatePrefix n => (n <? u64_max - 8) && fitsb (lg_metadata s) (lg_version s + 1) n
  | TruncateSuffix n => (lg_start s <=? n + 1) && negb (lg_queued s) && match lg_syncs s with [] => true | _ => false end
  | SaveMetadata m => fitsb m (lg_version s + 1) (lg_start s)
  | TakeSync => true
  | WaitSync => match lg_syncs s with [] => false | _ => true end
  | Kill _ => fitsb (lg_metadata s) (lg_version s + 1) (lg_start s) && fitsb (lg_metadata s) (lg_version s + 2) (lg_start s)
  end.

Fixpoint all_allowedb (cs : list call) (s : logical) : bool :=
  match cs with
  | [] => true
  | c :: cs' => allowedb c s && forallb (fun lost => all_allowedb cs' (logical_step c lost s)) (seq 0 (S (may_lose c s)))
  end.

Lemma encodableb_ok {T} `{ProtoBuf T} `{ProtoBufText T} (m : T) : encodableb m = true -> encodable opts m.
Proof. intros Hm. unfold encodableb in Hm. unfold encodable. lia. Qed.

Lemma appendableb_ok i es : appendableb i es = true -> appendable opts i es.
Proof.
  revert i. induction es as [|e es IH]; intros i Hes; [by split|]. cbn [appendableb] in Hes.
  apply andb_true_iff in Hes as [[He Hi]%andb_true_iff [IH1 IH2]%IH]. split.
  - constructor; [by apply encodableb_ok|done].
  - intros [|j] y k Hj Hk; [injection Hj as <-; rewrite Hk in Hi; lia|]. rewrite (IH2 j y k) by done. lia.
Qed.

Lemma allowedb_ok c s : allowedb c s = true -> allowed c s.
Proof.
  intros Hc. unfold allowedb in Hc. apply andb_true_iff in Hc as [Hc1 Hc].
  split; [lia|]. split; [lia|]. destruct c; rewrite ?andb_true_iff, ?negb_true_iff in Hc.
  - destruct Hc as [[Hes Hl] Hf]. split; [by apply appendableb_ok|lia].
  - destruct Hc as [Hn Hm]. split; [lia|by apply encodableb_ok].
  - destruct Hc as [[Hn Hw] Hs]. split; [lia|]. split; [done|]. by destruct (lg_syncs s).
  - by apply encodableb_ok.
  - done.
  - by destruct (lg_syncs s).
  - destruct Hc as [H1' H2']. split; by apply encodableb_ok.
Qed.

Lemma all_allowedb_ok cs s : all_allowedb cs s = true -> all_allowed cs s.
Proof.
  revert s. induction cs as [|c cs IH]; intros s Hcs; [done|]. cbn [all_allowedb] in Hcs. apply andb_true_iff in Hcs as [Hc Hcs].
  split; [by apply allowedb_ok|]. intros lost Hlost. apply IH. rewrite forallb_forall in Hcs. apply Hcs, in_seq. lia.
Qed.

(** ** The relation *)

Record agrees (x : system) (s : logical) : Prop := {
  ag_inv : exists d a b closed o prepared, inv opts algorithms x.1 (waiting_ops x.2) d a b closed [o] prepared /\
    lg_entries s = live_entries (lg_start s) a (rep_entries closed [o]);
  ag_bound : lg_last s < u64_max - 8;
  ag_start : logStartIndex x.1 = lg_start s;
  ag_metadata : log_metadata x.1 = lg_metadata s;
  ag_saved : default Metadata_init (raft_metadata (sl_metadata x.1)) = lg_metadata s;
  ag_version : version (sl_metadata x.1) = lg_version s;
  ag_files : counter x.1 <= lg_files s;
  ag_queued : lg_queued s = false -> ops (sl_currentSync x.1) = [];
  ag_unwritten : unwritten x.1 = lg_unwritten s;
  ag_syncs : map (fun y => writes (ops y)) x.2 = lg_syncs s
}.
Context `{!AlgorithmLaws algorithms} `{!ProtoBufLaws LogEntry} `{!ProtoBufTextLaws LogEntry}.
Context `{!ProtoBufLaws SegMetadata} `{!ProtoBufTextLaws SegMetadata}.
Hypothesis Hopts : options_ok opts algorithms.

Abbreviation inv := (inv opts algorithms).
Abbreviation rep := (rep opts algorithms).

(** ** One call *)

Lemma live_length l d a b closed o prepared :
  rep l d a b closed [o] prepared ->
  Z.of_nat (length (live_entries (logStartIndex l) a (rep_entries closed [o]))) = sf_end o + 1 - logStartIndex l.
Proof.
  intros Hr. pose proof (rep_entries_length opts algorithms _ _ _ _ _ _ _ Hr). pose proof (rep_start _ _ _ _ _ _ _ _ _ Hr) as (Ha & _).
  destruct (rep_log_end opts algorithms _ _ _ _ _ _ _ Hr) as [Hend _]. unfold live_entries. rewrite length_drop. lia.
Qed.

(** The parts of [agrees], by the names used below. *)
Lemma agrees_inv l syncs s : agrees (l, syncs) s ->
  exists d a b closed o prepared, inv l (waiting_ops syncs) d a b closed [o] prepared /\
    lg_entries s = live_entries (lg_start s) a (rep_entries closed [o]) /\ lg_last s = sf_end o /\
    1 <= a <= lg_start s /\ a <= sf_end o + 1 /\ lg_start s <= sf_end o + 1 /\
    Z.of_nat (length (rep_entries closed [o])) = sf_end o + 1 - a.
Proof.
  intros Hag. destruct (ag_inv _ _ Hag) as (d & a & b & closed & o & prepared & Hinv & Hes). cbn in Hinv.
  pose proof (inv_rep _ _ _ _ _ _ _ _ _ _ Hinv) as Hr. pose proof (live_length _ _ _ _ _ _ _ Hr) as Hlen.
  pose proof (ag_start _ _ Hag) as Hs. cbn in Hs. rewrite Hs in Hlen. pose proof (rep_start _ _ _ _ _ _ _ _ _ Hr) as (Ha & _).
  destruct (rep_log_end opts algorithms _ _ _ _ _ _ _ Hr) as [Hend _]. rewrite Hs in *.
  exists d, a, b, closed, o, prepared. split_and!; try done; try lia.
  - unfold lg_last. rewrite Hes. lia.
  - by apply (rep_entries_length opts algorithms _ _ _ _ _ _ _ Hr).
Qed.

Lemma live_app start a es es' : start - a <= Z.of_nat (length es) ->
  live_entries start a (es ++ es') = live_entries start a es ++ es'.
Proof. intros Hl. unfold live_entries. rewrite drop_app_le by lia. done. Qed.

Lemma live_take start a n es : a <= start -> start <= n + 1 ->
  live_entries start a (take (Z.to_nat (n + 1 - a)) es) = take (Z.to_nat (n + 1 - start)) (live_entries start a es).
Proof. intros Ha Hn. unfold live_entries. rewrite take_drop_commute. do 2 f_equal. lia. Qed.

Lemma live_drop start n a es : a <= start -> start <= n ->
  live_entries n a es = drop (Z.to_nat (n - start)) (live_entries start a es).
Proof. intros Ha Hn. unfold live_entries. rewrite drop_drop. f_equal. lia. Qed.

Lemma numbered_length i es : length (numbered i es) = length es.
Proof. revert i. induction es as [|e es IH]; intros i; [done|]. cbn. by rewrite IH. Qed.

(** What is claimed of one call. *)
Definition step_ok (c : call) (x : system) (s : logical) : Prop :=
  exists x' lost, (lost <= may_lose c s)%nat /\ system_step c x = Ok (answer c s, x') /\ agrees x' (logical_step c lost s).

Lemma append_step l syncs s es :
  agrees (l, syncs) s -> allowed (Append es) s -> step_ok (Append es) (l, syncs) s.
Proof.
  intros Hag (Hf & Hv & Hes & Hmax & Hfs). destruct (agrees_inv _ _ _ Hag) as (d & a & b & closed & o & prepared & Hinv & Hent & Hlast & Ha & Hb & Hc & Hlen).
  destruct Hag as [_ Hbd Hs Hm Hsv Hve Hfi Hw Hun Hsy]. cbn in Hs, Hm, Hsv, Hve, Hfi, Hw, Hun, Hsy. rewrite Hlast in *.
  destruct (append_inv opts algorithms Hopts _ _ _ _ _ _ _ _ _ Hinv Hes) as
    (l1 & d1 & b1 & closed1 & o1 & prepared1 & Hrun & Hinv1 & Hent1 & E1 & E2 & E3 & E4 & E5); [lia..|].
  exists (l1, syncs), O. split; [done|]. split; [cbn [system_step fst snd answer]; rewrite Hrun, Hlast; done|].
  split; cbn; [|unfold lg_last in *; cbn; rewrite length_app, numbered_length; lia|by rewrite E1|by rewrite E3|by rewrite E2|by rewrite E2|lia|done|by rewrite E5, Hun|done].
  exists d1, a, b1, closed1, o1, prepared1. split; [exact Hinv1|].
  rewrite Hent1, Hlast, live_app, Hent by lia. done.
Qed.

Lemma truncatePrefix_step l syncs s n :
  agrees (l, syncs) s -> allowed (TruncatePrefix n) s -> step_ok (TruncatePrefix n) (l, syncs) s.
Proof.
  intros Hag (Hf & Hv & Hn & Hfit). destruct (agrees_inv _ _ _ Hag) as (d & a & b & closed & o & prepared & Hinv & Hent & Hlast & Ha & Hb & Hc & Hlen).
  destruct Hag as [_ Hbd Hs Hm Hsv Hve Hfi Hw Hun Hsy]. cbn in Hs, Hm, Hsv, Hve, Hfi, Hw, Hun, Hsy.
  destruct (truncatePrefix_inv opts algorithms Hopts _ _ _ _ _ _ _ _ n Hinv) as
    (l1 & d1 & a1 & b1 & closed1 & o1 & prepared1 & Hrun & Hinv1 & E1 & Hent1 & E2 & E3 & E6 & E4); [lia..| |].
  { intros _. by rewrite Hm, Hve. }
  exists (l1, syncs), O. split; [done|]. split; [cbn [system_step fst snd answer]; rewrite Hrun; done|]. rewrite Hs in *. cbn [logical_step]. destruct (n <=? lg_start s) eqn:Hle.
  - replace (n `max` lg_start s) with (lg_start s) in E1 by lia. split; cbn; rewrite ?E1, ?E2, ?E4, ?E6; try done.
    + exists d1, a1, b1, closed1, o1, prepared1. split; [exact Hinv1|]. rewrite E1 in Hent1. unfold live_entries in *. by rewrite Hent1.
    + cbn in Hrun. unfold SegmentedLog_truncatePrefix, bind at 1, get in Hrun. rewrite Hs, Hle in Hrun. injection Hrun as <-. lia.
    + cbn in Hrun. unfold SegmentedLog_truncatePrefix, bind at 1, get in Hrun. rewrite Hs, Hle in Hrun. by injection Hrun as <-.
  - replace (n `max` lg_start s) with n in E1 by lia. destruct E4 as [E4 E5]. split; cbn; rewrite ?E1, ?E2, ?E4, ?E6; try done; try lia.
    + exists d1, a1, b1, closed1, o1, prepared1. split; [exact Hinv1|]. rewrite E1 in Hent1. unfold live_entries at 1. rewrite Hent1.
      rewrite Hent. symmetry. apply live_drop; lia.
    + unfold lg_last in *. cbn. rewrite length_drop. lia.
    + rewrite E5. cbn. rewrite Hm. unfold metadata_is_empty. by destruct (bool_decide_reflect (lg_metadata s = Metadata_init)).
Qed.

Lemma truncateSuffix_step l syncs s n :
  agrees (l, syncs) s -> allowed (TruncateSuffix n) s -> step_ok (TruncateSuffix n) (l, syncs) s.
Proof.
  intros Hag (Hf & Hv & Hn & Hwait & Hno). destruct (agrees_inv _ _ _ Hag) as (d & a & b & closed & o & prepared & Hinv & Hent & Hlast & Ha & Hb & Hc & Hlen).
  destruct Hag as [_ Hbd Hs Hm Hsv Hve Hfi Hw Hun Hsy]. cbn in Hs, Hm, Hsv, Hve, Hfi, Hw, Hun, Hsy.
  rewrite Hno in Hsy. apply map_eq_nil in Hsy as ->. change (waiting_ops []) with (@nil Op.t) in Hinv.
  destruct (truncateSuffix_inv opts algorithms Hopts _ _ _ _ _ _ _ n Hinv) as
    (l1 & d1 & b1 & closed1 & o1 & prepared1 & Hrun & Hinv1 & Hops1 & Hent1 & [K1 K2 K3 K4]); [by apply Hw|lia..|].
  exists (l1, []), O. split; [done|]. split; [cbn [system_step fst snd answer]; rewrite Hrun; done|].
  split; cbn; rewrite ?K1, ?K2, ?K3; try done; try lia.
  - exists d1, a, b1, closed1, o1, prepared1. split; [exact Hinv1|]. rewrite Hent1, Hent. symmetry. apply live_take; lia.
  - unfold lg_last in *. cbn. rewrite length_take. lia.
  - rewrite <-Hun. unfold unwritten. by rewrite Hops1, (Hw Hwait).
Qed.

Lemma save_metadata_step l syncs s m :
  agrees (l, syncs) s -> allowed (SaveMetadata m) s -> step_ok (SaveMetadata m) (l, syncs) s.
Proof.
  intros Hag (Hf & Hv & Hfit). destruct (agrees_inv _ _ _ Hag) as (d & a & b & closed & o & prepared & Hinv & Hent & _).
  destruct Hag as [_ Hbd Hs Hm Hsv Hve Hfi Hw Hun Hsy]. cbn in Hs, Hm, Hsv, Hve, Hfi, Hw, Hun, Hsy.
  destruct (SegmentedLog_updateMetadata_inv opts algorithms Hopts (l <| log_metadata := m |>) _ _ _ _ _ _ _
    (set_metadata_inv opts algorithms _ _ _ _ _ _ _ _ m Hinv)) as (l1 & d1 & Hrun & Hinv1 & E1 & E2 & E3 & E4 & E5); [cbn; lia| |].
  { cbn. by rewrite Hve, Hs. }
  exists (l1, syncs), O. split; [done|]. split.
  { cbn [system_step fst snd answer]. unfold bind at 1, modify at 1. rewrite Hrun. done. }
  split; cbn; rewrite ?E1, ?E2, ?E3; try done.
  - exists d1, a, b, closed, o, prepared. done.
  - cbn. unfold metadata_is_empty. by destruct (bool_decide_reflect (m = Metadata_init)).
  - cbn. rewrite u64_small by (unfold is_u64, u64_max in *; pose proof (meta_fields _ _ _ _ (inv_meta _ _ _ _ _ _ _ _ _ _ Hinv)); lia). lia.
  - rewrite E4. exact Hfi.
  - rewrite E5. exact Hw.
  - unfold unwritten. by rewrite E5.
Qed.

Lemma take_sync_step l syncs s : agrees (l, syncs) s -> step_ok TakeSync (l, syncs) s.
Proof.
  intros Hag. destruct (agrees_inv _ _ _ Hag) as (d & a & b & closed & o & prepared & Hinv & Hent & _).
  destruct Hag as [_ Hbd Hs Hm Hsv Hve Hfi Hw Hun Hsy]. cbn in Hs, Hm, Hsv, Hve, Hfi, Hw, Hun, Hsy.
  destruct (takeSync_inv opts algorithms _ _ _ _ _ _ _ _ Hinv) as (l1 & Hrun & Hinv1 & E1 & E2 & E3 & E4 & E5).
  exists (l1, syncs ++ [sl_currentSync l]), O. split; [done|]. split; [cbn [system_step fst snd answer]; by rewrite Hrun|].
  split; cbn; rewrite ?E2, ?E3, ?E4, ?E5; try done.
  - exists d, a, b, closed, o, prepared. split; [|done]. unfold waiting_ops in *. rewrite map_app, concat_app. cbn. by rewrite app_nil_r.
  - unfold unwritten. by rewrite E1.
  - rewrite map_app, Hsy. cbn. by rewrite <-Hun.
Qed.

Lemma wait_sync_step l syncs s : agrees (l, syncs) s -> lg_syncs s <> [] -> step_ok WaitSync (l, syncs) s.
Proof.
  intros Hag Hne. destruct (agrees_inv _ _ _ Hag) as (d & a & b & closed & o & prepared & Hinv & Hent & _).
  destruct Hag as [_ Hbd Hs Hm Hsv Hve Hfi Hw Hun Hsy]. cbn in Hs, Hm, Hsv, Hve, Hfi, Hw, Hun, Hsy.
  destruct syncs as [|y syncs]; [cbn in Hsy; congruence|].
  destruct (Sync_wait_inv opts algorithms _ _ _ _ _ _ _ _ _ Hinv) as (d1 & Hrun & _ & Hinv1).
  exists (l <| sl_disk := d1 |>, syncs), O. split; [done|]. split; [cbn [system_step fst snd answer]; by rewrite Hrun|].
  split; cbn; try done; [|by rewrite <-Hsy]. by exists d, a, b, closed, o, prepared.
Qed.

Lemma closed_of_entries ks o : sf_entries o = [] -> rep_entries (map closed_of ks) [o] = concat (map sf_entries ks).
Proof.
  intros Ho. unfold rep_entries. rewrite map_app, concat_app, map_map. cbn. rewrite Ho, !app_nil_r. done.
Qed.

(** The constructor, on a directory that can be recovered. *)
Lemma construct_agrees d files start ks a b md s :
  recoverable opts algorithms d files start ks a b -> found_metadata opts algorithms d files md -> entries_start md = start ->
  lg_start s = start -> lg_entries s = live_entries start a (concat (map sf_entries ks)) ->
  lg_last s < u64_max - 8 -> lg_metadata s = default Metadata_init (raft_metadata md) ->
  0 <= version md -> version md + 4 < u64_max -> lg_version s = version md + 2 ->
  (forall v, v = version md + 1 \/ v = version md + 2 -> metadata_fits opts (lg_metadata s) v start) ->
  2 <= lg_files s -> ids_upto (listed files (ls_sorted d)) (lg_files s - 2) -> lg_syncs s = [] -> lg_unwritten s = O ->
  exists l, SegmentedLog_construct opts algorithms d = Ok l /\ agrees (l, []) s.
Proof.
  intros Hrec Hfound Hst Hs Hent Hbd Hm Hv Hmax Hver Hfit Hf2 Hids Hsync Hunw.
  assert (forall v, v = version md + 1 \/ v = version md + 2 -> encodable opts (rewritten md v)) as Henc.
  { intros v Hvv. unfold rewritten. rewrite Hst, <-Hm. by apply Hfit. }
  pose proof (recover_safe opts algorithms Hopts d files start ks a b md Hrec Hfound Hst Hv ltac:(lia)
    (Henc _ (or_introl eq_refl)) (Henc _ (or_intror eq_refl))) as Hsafe.
  unfold SegmentedLog_construct. unfold safe, wp in Hsafe. destruct (recover opts algorithms (SegmentedLog_init opts d)) as [[[] l]|]; [|done].
  destruct Hsafe as (d' & o & prepared & Hinv & Ho & E1 & E2 & E3 & E4 & E5). exists l. split; [done|].
  split; cbn; rewrite ?E1, ?E2, ?E3; try done.
  - exists d', a, b, (map closed_of ks), o, prepared. split; [exact Hinv|]. by rewrite Hs, closed_of_entries.
  - cbn. rewrite <-Hm. unfold metadata_is_empty. by destruct (bool_decide_reflect (lg_metadata s = Metadata_init)).
  - specialize (E5 (lg_files s - 2) ltac:(lia) Hids). lia.
  - unfold unwritten. by rewrite E4, Hunw.
Qed.

Lemma queue_writes l syncs s : agrees (l, syncs) s -> writes (queue (l, syncs)) = lg_pending s.
Proof.
  intros Hag. destruct Hag as [_ _ _ _ _ _ _ _ Hun Hsy]. cbn in Hun, Hsy. unfold queue, lg_pending. rewrite writes_app. cbn [fst snd].
  rewrite <-Hun, <-Hsy. unfold unwritten. f_equal. unfold waiting_ops. clear. induction syncs as [|y syncs IH]; [done|].
  cbn [map concat]. rewrite writes_app, IH. done.
Qed.

Lemma kill_step l syncs s k :
  agrees (l, syncs) s -> allowed (Kill k) s -> step_ok (Kill k) (l, syncs) s.
Proof.
  intros Hag (Hf & Hv & Hfit1 & Hfit2). pose proof (queue_writes _ _ _ Hag) as Hq.
  destruct (agrees_inv _ _ _ Hag) as (d & a & b & closed & o & prepared & Hinv & Hent & Hlast & Ha & Hb & Hc & Hlen).
  destruct Hag as [_ Hbd Hs Hm Hsv Hve Hfi Hw Hun Hsy]. cbn in Hs, Hm, Hsv, Hve, Hfi, Hw, Hun, Hsy.
  set (q := queue (l, syncs)) in *. destruct Hinv as [[Hd0 Hexec Hknown Hunop] Hr Hmeta Hsur].
  change (waiting_ops syncs ++ ops (sl_currentSync l)) with q in Hexec, Hknown.
  assert (q = take k q ++ drop k q) as Hsplit by by rewrite take_drop. pose proof Hexec as Hpart. rewrite Hsplit, exec_app in Hpart.
  apply bind_Ok in Hpart as ([] & d1 & Hrun1 & _).
  destruct (Hsur _ _ d1 Hsplit Hrun1) as (a1 & es1 & Hholds & Ha1 & Hlive). rewrite Hs in *. specialize (Hlive (lg_start s) ltac:(lia)).
  rewrite <-Hent in Hlive. set (lost := writes (drop k q)) in *.
  assert (lost <= may_lose (Kill k) s)%nat as Hlost.
  { cbn [may_lose]. rewrite <-Hq. rewrite Hsplit at 1. rewrite writes_app. unfold lost. lia. }
  assert (lg_start s + Z.of_nat (length (live_entries (lg_start s) a1 es1)) < u64_max - 8 + 1) as Hshort.
  { rewrite Hlive. unfold all_but. rewrite length_take. unfold lg_last in Hbd. lia. }
  destruct (holds_recoverable opts algorithms _ _ _ _ (lg_start s) Hholds Ha1) as (files & ks & a2 & b2 & Hrec & Hlive2 & Hids);
    [unfold counter in Hfi; lia|lia|].
  assert (meta_rep opts algorithms l d1) as Hmeta1.
  { apply (meta_rep_same opts algorithms l l d); [done|done| |done]. intros v.
    assert (untouched (metadata_filename v) q) as Hu by (by eapply known_untouched_metadata).
    rewrite (exec_contents q _ _ _ Hd0 Hu (Hunop v) Hexec). apply (exec_contents (take k q)); [done| |apply Hunop|done].
    rewrite Hsplit in Hu. by apply untouched_app in Hu as [? _]. }
  pose proof (meta_rep_found opts algorithms Hopts _ _ files Hmeta1) as Hfound.
  destruct (meta_fields _ _ _ _ Hmeta) as (_ & Hstart & Hv0). pose proof (rep_running _ _ _ _ _ _ _ _ _ Hr) as (_ & Hc0 & _).
  destruct (construct_agrees _ _ _ _ _ _ _ (logical_step (Kill k) lost s) Hrec Hfound) as (l' & Hrun & Hag); cbn; try done; try lia.
  - by rewrite Hlive2, Hlive.
  - unfold lg_last in *. cbn. unfold all_but. rewrite length_take. lia.
  - rewrite Hve. by intros v [->| ->].
  - unfold counter in Hfi. lia.
  - intros f id Hin Hid. specialize (Hids f id Hin Hid). unfold counter in Hfi. lia.
  - exists (l', []), lost. split; [done|]. split; [|exact Hag]. cbn [system_step fst snd answer]. fold q. by rewrite Hrun1, Hrun.
Qed.

Lemma system_step_ok c x s : agrees x s -> allowed c s -> step_ok c x s.
Proof.
  destruct x as [l syncs]. intros Hag Hok. destruct c as [es|n|n|m| | |].
  - by apply append_step.
  - by apply truncatePrefix_step.
  - by apply truncateSuffix_step.
  - by apply save_metadata_step.
  - by apply take_sync_step.
  - destruct Hok as (_ & _ & Hok). by apply wait_sync_step.
  - by apply kill_step.
Qed.

Lemma system_run_ok cs : forall x s, agrees x s -> all_allowed cs s ->
  exists rs x' s', system_run cs x = Ok (rs, x') /\ logical_run cs s rs s' /\ agrees x' s'.
Proof.
  induction cs as [|c cs IH]; intros x s Hag Hok; [exists [], x, s; by split_and!; [|constructor|]|]. destruct Hok as [Hok Hrest].
  destruct (system_step_ok c x s Hag Hok) as (x1 & lost & Hlost & Hrun1 & Hag1).
  destruct (IH x1 _ Hag1 (Hrest lost Hlost)) as (rs & x2 & s2 & Hrun2 & Hlog & Hag2).
  exists (answer c s :: rs), x2, s2. cbn [system_run]. rewrite Hrun1, Hrun2. split; [done|]. split; [by econstructor|done].
Qed.

(** A new log: the constructor on an empty directory. *)
Lemma construct_empty :
  metadata_fits opts Metadata_init 1 1 -> metadata_fits opts Metadata_init 2 1 ->
  exists l, SegmentedLog_construct opts algorithms Disk_init = Ok l /\ agrees (l, []) logical_init.
Proof.
  intros H1' H2'. apply (construct_agrees Disk_init ∅ 1 [] 1 1 (mkSegMetadata 0 0 None 1)); try done.
  - split; try done.
    + split; [intros n f; by rewrite lookup_empty|]. intros n _ [c Hc]. unfold contents_of in Hc. cbn in Hc. by rewrite lookup_empty in Hc.
    + intros f. split; [by intros ?%elem_of_nil|]. intros [[n Hn] _]. by rewrite lookup_empty in Hn.
  - exists None, None. by split_and!.
  - by intros v [->| ->].
  - intros f id Hin. cbn in Hin. by apply elem_of_nil in Hin.
Qed.

(** What the functions of [Log.h] say of a log. *)
Record observed (l : SegmentedLog) (s : logical) : Prop := {
  ob_start : logStartIndex l = lg_start s;
  ob_last : SegmentedLog_getLastLogIndex l = lg_last s;
  ob_entry i e : lg_start s <= i -> lg_entries s !! Z.to_nat (i - lg_start s) = Some e -> SegmentedLog_getEntry i l = Ok e;
  ob_no_entry i : i < lg_start s \/ lg_last s < i -> SegmentedLog_getEntry i l = Fail Panicked;
  ob_metadata : log_metadata l = lg_metadata s;
  ob_saved : default Metadata_init (raft_metadata (sl_metadata l)) = lg_metadata s;
  ob_ok : SL_ok l
}.

Lemma agrees_observed x s : agrees x s -> observed x.1 s.
Proof.
  destruct x as [l syncs]. intros Hag. destruct (agrees_inv _ _ _ Hag) as (d & a & b & closed & o & prepared & Hinv & Hent & Hlast & _).
  destruct Hag as [_ _ Hs Hm Hsv _ _ _ _ _]. cbn in Hs, Hm, Hsv. pose proof (inv_rep _ _ _ _ _ _ _ _ _ _ Hinv) as Hr.
  pose proof (rep_getLastLogIndex opts algorithms _ _ _ _ _ _ _ Hr) as Hl. split; cbn [fst]; try done.
  - by rewrite Hl.
  - intros i e Hi He. rewrite <-Hs in Hi, He, Hent. rewrite Hent in He. by apply (rep_getEntry opts algorithms _ _ _ _ _ _ _ _ _ Hr).
  - intros i Hi. unfold SegmentedLog_getEntry. rewrite Hl, Hs, <-Hlast.
    replace ((i <? lg_start s) || (lg_last s <? i)) with true; [done|]. destruct Hi; lia.
  - by apply (rep_log_ok opts algorithms _ _ _ _ _ _ _ Hr).
Qed.

(** C5: every sequence of calls on a new log in an empty directory runs without a
    failed assertion or a fault: appends, truncations, metadata, [Sync] objects
    taken and waited for out of step, and kills of the process between calls, with any
    of the first queued file operations done and the rest lost, followed by the
    constructor on the files that are left. It answers with the ranges of indexes
    of the abstract log and ends with its start index, last index, entries and
    metadata, where a kill takes at most the last entries of those appended and
    not yet waited for. *)
Theorem system_refines cs :
  metadata_fits opts Metadata_init 1 1 -> metadata_fits opts Metadata_init 2 1 -> all_allowed cs logical_init ->
  exists l0 rs x s, SegmentedLog_construct opts algorithms Disk_init = Ok l0 /\
    system_run cs (l0, []) = Ok (rs, x) /\ logical_run cs logical_init rs s /\ observed x.1 s.
Proof.
  intros H1' H2' Hok. destruct (construct_empty H1' H2') as (l0 & Hrun & Hag).
  destruct (system_run_ok cs (l0, []) logical_init Hag Hok) as (rs & x & s & Hx & Hlog & Hag'). exists l0, rs, x, s.
  split; [done|]. split; [done|]. split; [done|]. by apply agrees_observed.
Qed.

(** C34: the assertions of [checkInvariants] hold after every sequence of calls
    and of kills that fall among the queued file operations: the files are contiguous and named after their contents, their sizes and the
    offsets of the records add up, and the last segment is the open one. *)
Theorem system_invariants cs :
  metadata_fits opts Metadata_init 1 1 -> metadata_fits opts Metadata_init 2 1 -> all_allowed cs logical_init ->
  exists l0 rs x, SegmentedLog_construct opts algorithms Disk_init = Ok l0 /\ system_run cs (l0, []) = Ok (rs, x) /\
    invariants x.1 = true /\ checkInvariants opts x.1 = Ok (tt, x.1).
Proof.
  intros H1' H2' Hok. destruct (construct_empty H1' H2') as (l0 & Hrun & Hag).
  destruct (system_run_ok cs (l0, []) logical_init Hag Hok) as (rs & [l syncs] & s & Hx & _ & Hag'). exists l0, rs, (l, syncs).
  destruct (agrees_inv _ _ _ Hag') as (d & a & b & closed & o & prepared & Hinv & _).
  split_and!; [done|done|by apply (invariants_hold opts algorithms Hopts) in Hinv|by apply (checkInvariants_inv opts algorithms Hopts) in Hinv].
Qed.
End System.
