(* ===== verification/SegmentedLogDemo.v ===== *)
(** * A segmented log, evaluated

    A concrete codec, checksum and options, on which the definitions of the
    segmented log run and its theorems are applied. *)

From Stdlib Require Import ZArith Lia Ascii String.
From stdpp Require Import base functions gmap strings list fin_maps countable.
From S2P Require Import Prelude OrderedMap StringUtil Stream SnapshotFile Log Disk DiskSpec Checksum Printf SegmentedLog SegmentedLogFormat SegmentedLogSpec SegmentedLogSync SegmentedLogLoad SegmentedLogCrash SegmentedLogRep SegmentedLogRecovery SegmentedLogOps SegmentedLogSuffix SegmentedLogDurable SegmentedLogSystem.
Local Open Scope Z_scope.
Local Open Scope list_scope.

(** ** A codec *)

#[export] Instance Raft_Server_countable : Countable Raft_Server.
Proof.
  apply (inj_countable' (fun s => (server_id s, server_addresses s)) (fun x => mkRaft_Server x.1 x.2)). by intros [].
Defined.

#[export] Instance Raft_Configuration_countable : Countable Raft_Configuration.
Proof.
  apply (inj_countable' (fun c => (prev_configuration c, next_configuration c)) (fun x => mkRaft_Configuration x.1 x.2)).
  by intros [].
Defined.

#[export] Instance EntryType_countable : Countable EntryType.
Proof.
  apply (inj_countable' (fun t => match t with CONFIGURATION => (false, false) | DATA => (false, true) | NOOP => (true, false) | UNKNOWN => (true, true) end)
    (fun x => match x with (false, false) => CONFIGURATION | (false, true) => DATA | (true, false) => NOOP | (true, true) => UNKNOWN end)).
  by intros [].
Defined.

#[export] Instance LogEntry_countable : Countable LogEntry.
Proof.
  apply (inj_countable' (fun e => (term e, (index e, (cluster_time e, (type e, (configuration_ e, data e))))))
    (fun x => match x with (t, (i, (c, (y, (f, d))))) => mkLogEntry t i c y f d end)). by intros [].
Defined.

#[export] Instance Metadata_countable : Countable Metadata.
Proof.
  apply (inj_countable' (fun m => (meta_current_term m, meta_voted_for m)) (fun x => mkMetadata x.1 x.2)). by intros [].
Defined.

#[export] Instance SegMetadata_eq_dec : EqDecision SegMetadata.
Proof. solve_decision. Defined.
#[export] Instance SegMetadata_countable : Countable SegMetadata.
Proof.
  apply (inj_countable' (fun m => (format_version m, (version m, (raft_metadata m, entries_start m))))
    (fun x => match x with (f, (v, (m, s))) => mkSegMetadata f v m s end)). by intros [].
Defined.

#[export] Instance entry_codec : ProtoBuf LogEntry := countable_protobuf LogEntry.
#[export] Instance entry_codec_laws : ProtoBufLaws LogEntry := countable_protobuf_laws LogEntry.
#[export] Instance metadata_codec : ProtoBuf SegMetadata := countable_protobuf SegMetadata.
#[export] Instance metadata_codec_laws : ProtoBufLaws SegMetadata := countable_protobuf_laws SegMetadata.

(** As text, the same, for want of a text. *)
Definition text_codec {T} (unread : T) `{ProtoBuf T} : ProtoBufText T :=
  {| pb_dump := pb_serialize; pb_fromString b := default unread (pb_parse b) |}.

#[export] Instance entry_text : ProtoBufText LogEntry := text_codec (mkLogEntry 0 None 0 UNKNOWN None None).
#[export] Instance entry_text_laws : ProtoBufTextLaws LogEntry.
Proof. intros m. cbn [pb_fromString pb_dump entry_text text_codec]. by rewrite pb_parse_serialize. Qed.
#[export] Instance metadata_text : ProtoBufText SegMetadata := text_codec SegMetadata_init.
#[export] Instance metadata_text_laws : ProtoBufTextLaws SegMetadata.
Proof. intros m. cbn [pb_fromString pb_dump metadata_text text_codec]. by rewrite pb_parse_serialize. Qed.

(** ** A checksum: the sum of the bytes *)

Definition sum_name : bytes := ["s"; "u"; "m"]%char.
Definition byte_sum (b : bytes) : bytes :=
  [ascii_of_N (fold_left (fun n c => (n + N_of_ascii c)%N) b 0%N mod 256)].
Definition demo_algorithms (name : bytes) : option (bytes -> bytes) :=
  if bool_decide (name = sum_name) then Some byte_sum else None.

#[export] Instance demo_algorithms_laws : AlgorithmLaws demo_algorithms.
Proof.
  split; intros name f; unfold demo_algorithms; case_bool_decide as Hn; intros *; try done; subst name.
  - intros _. by repeat constructor.
  - intros [= <-]. cbn. unfold MAX_LENGTH. lia.
Qed.

(** Segments of 1500 bytes hold two entries. *)
Definition demo_opts : SegOptions := mkSegOptions BINARY sum_name 1500 true 3.

Lemma demo_opts_ok : options_ok demo_opts demo_algorithms.
Proof. split; [by eexists|vm_compute; by split|vm_compute; done]. Qed.

(** ** A run *)

Definition demo_entry (t : Z) (s : string) : LogEntry := mkLogEntry t None 0 DATA None (Some (list_ascii_of_string s)).
Definition demo_metadata : Metadata := mkMetadata (Some 2) (Some 1).

(** Killed with one entry not yet waited for, with nothing, and between the
    operations of an append that starts a new segment. *)
Definition demo_calls : list call :=
  [Append [demo_entry 1 "a"; demo_entry 1 "bc"]; TakeSync; Append [demo_entry 1 "d"]; WaitSync; Kill 1; SaveMetadata demo_metadata;
   Append [demo_entry 1 "f"]; TruncatePrefix 2; TakeSync; WaitSync; Kill 0; TruncateSuffix 2; Append [demo_entry 2 "e"; demo_entry 2 "g"; demo_entry 2 "h"]; Kill 5].

Lemma demo_allowed : all_allowed demo_opts demo_calls logical_init.
Proof. apply all_allowedb_ok. by vm_compute. Qed.

Lemma system_refines_witness :
  all_allowed demo_opts demo_calls logical_init /\
  exists l0 rs x s, SegmentedLog_construct demo_opts demo_algorithms Disk_init = Ok l0 /\
    system_run demo_opts demo_algorithms demo_calls (l0, []) = Ok (rs, x) /\
    logical_run demo_calls logical_init rs s /\ observed x.1 s.
Proof.
  split; [apply demo_allowed|].
  apply (system_refines demo_opts demo_algorithms demo_opts_ok demo_calls); [by vm_compute|by vm_compute|apply demo_allowed].
Defined.

(** Beyond these runs: if the process is killed in [prepareNewSegment], after the
    file was allocated and before its header is written, the file holds zeros
    only, and the server does not start any more. *)
Definition half_prepared : outcome Disk :=
  match (let! fd := openFile (open_filename 1) (mkopen_flags true true false) in
         allocate fd (MAX_SEGMENT_SIZE demo_opts)) Disk_init with
  | Ok (_, d) => Ok (reboot d)
  | Fail f => Fail f
  end.

Example half_prepared_panics :
  match half_prepared with
  | Ok d => SegmentedLog_construct demo_opts demo_algorithms d
  | Fail f => Fail f
  end = Fail Panicked.
Proof. vm_compute. reflexivity. Qed.

Lemma system_invariants_witness :
  all_allowed demo_opts demo_calls logical_init /\
  exists l0 rs x, SegmentedLog_construct demo_opts demo_algorithms Disk_init = Ok l0 /\
    system_run demo_opts demo_algorithms demo_calls (l0, []) = Ok (rs, x) /\
    invariants x.1 = true /\ checkInvariants demo_opts x.1 = Ok (tt, x.1).
Proof.
  split; [apply demo_allowed|].
  apply (system_invariants demo_opts demo_algorithms demo_opts_ok demo_calls); [by vm_compute|by vm_compute|apply demo_allowed].
Defined.

Lemma record_roundtrip_witness :
  encodable demo_opts (demo_entry 1 "a") /\
  exists r, serializeProto demo_opts demo_algorithms (demo_entry 1 "a") = Ok r /\ forall pre rest,
    Z.of_nat (length (pre ++ r ++ rest)) < 9223372036854775808 ->
    readProtoFromFile demo_opts demo_algorithms (pre ++ r ++ rest) (Z.of_nat (length pre)) =
      Ok (inr (demo_entry 1 "a", Z.of_nat (length (pre ++ r)))).
Proof.
  split; [by vm_compute|].
  apply (record_roundtrip demo_opts demo_algorithms (demo_entry 1 "a")); [by eexists|by vm_compute].
Defined.
