(* ===== verification/SimpleFileLog.v ===== *)
(** * The simple file log

    [Storage/SimpleFileLog.cc]: a log that keeps every entry in memory, in a
    [MemoryLog], and in a file of its own, named after its index in hexadecimal.
    Two metadata files are written in turn. An appended entry is written at once
    and flushed when the [Sync] object is waited for.

    A file is a checksum and a message in the text encoding of the protobuf
    library ([BINARY_FORMAT] is not defined in the build).

    [Storage/LogFactory.cc] chooses among the logs. *)

From Stdlib Require Import ZArith Lia Ascii String.
From stdpp Require Import base gmap strings list fin_maps.
From S2P Require Import Prelude StringUtil Stream SnapshotFile Log Disk DiskSpec Checksum Printf Durations SegmentedLog.
Local Open Scope string_scope.
Local Open Scope Z_scope.
Local Open Scope list_scope.

(** ** File names: ["%016lx"] *)

Definition hex_char (d : Z) : ascii := ascii_of_N (Z.to_N (if d <? 10 then 48 + d else 87 + d)).

(** The [n] last hexadecimal digits. *)
Fixpoint hex_digits (n : nat) (x : Z) : string :=
  match n with
  | O => ""
  | S n' => String (hex_char (x / 16 ^ Z.of_nat n' mod 16)) (hex_digits n' x)
  end.

(** No 64-bit number has more than 16 of them. *)
Definition print_016lx (x : Z) : string := hex_digits 16 x.

Definition hex_value (c : ascii) : option Z :=
  let n := Z.of_N (N_of_ascii c) in
  if (48 <=? n) && (n <=? 57) then Some (n - 48)
  else if (97 <=? n) && (n <=? 102) then Some (n - 87)
  else if (65 <=? n) && (n <=? 70) then Some (n - 55)
  else None.

(** At most [w] digits: their value after [acc], how many, and the rest. *)
Fixpoint scan_hex (w : nat) (s : string) (acc : Z) : Z * nat * string :=
  match w, s with
  | S w', String c s' =>
      match hex_value c with
      | Some d => let '(v, n, rest) := scan_hex w' s' (16 * acc + d) in (v, S n, rest)
      | None => (acc, O, s)
      end
  | _, _ => (acc, O, s)
  end.

(** [sscanf]'s ["%016lx"]: white space is skipped, a sign and a prefix [0x]
    count among the 16 characters. *)
Definition scan_lx (s : string) : option (Z * string) :=
  let s := skip_space s in
  let '(neg, w, s) :=
    match s with
    | String c s' => if Ascii.eqb c "-" then (true, 15%nat, s')
                     else if Ascii.eqb c "+" then (false, 15%nat, s') else (false, 16%nat, s)
    | EmptyString => (false, 16%nat, s)
    end in
  let '(w, s) :=
    match s with
    | String c (String x s') =>
        if Ascii.eqb c "0" && (Ascii.eqb x "x" || Ascii.eqb x "X") then ((w - 2)%nat, s') else (w, s)
    | _ => (w, s)
    end in
  match scan_hex w s 0 with
  | (_, O, _) => None
  | (v, _, rest) => Some (if neg : bool then u64 (- v) else v, rest)
  end.

(** ["%0nlu"] for a number that may have more digits than [n]. *)
Definition zero_padded (n : nat) (s : string) : string :=
  fold_right String s (replicate (n - String.length s) "0"%char).

(** ["%010lu.%06lu"] of seconds and microseconds: the prefix of the names of
    lost files. *)
Definition lost_time (now : Z) : string :=
  let ts := makeTimeSpec now in
  zero_padded 10 (print_lu (u64 (tv_sec ts))) +:+ "." +:+ zero_padded 6 (print_lu (u64 (Z.quot (tv_nsec ts) 1000))).

(** ** Data *)

(** [Storage/SimpleFileLog.proto]; unset numbers read as 0. *)
Record SFMetadata : Type := mkSFMetadata {
  sf_version : Z;
  sf_raft_metadata : option Metadata;
  sf_entries_start : Z;
  sf_entries_end : Z
}.

#[export] Instance SFMetadata_eta : Eta SFMetadata := fun m =>
  mkSFMetadata (sf_version m) (sf_raft_metadata m) (sf_entries_start m) (sf_entries_end m).

Definition SFMetadata_init : SFMetadata := mkSFMetadata 0 None 0 0.

(** [SimpleFileLog::Sync]: the descriptors to flush, with whether to close them. *)
Record SFSync : Type := mkSFSync { sf_lastIndex : Z; sf_completed : bool; sf_fds : list (Z * bool) }.

#[export] Instance SFSync_eta : Eta SFSync := fun s => mkSFSync (sf_lastIndex s) (sf_completed s) (sf_fds s).

(** The directories [SimpleFile] and, inside of it, [SimpleFile-unknown], which
    shares the inodes. [sf_log_metadata] is [Log::metadata]. *)
Record SimpleFileLog : Type := mkSimpleFileLog {
  memoryLog : MemoryLog;
  sf_metadata : SFMetadata;
  sf_dir : Disk;
  lostAndFound : gmap string Z;
  sf_currentSync : SFSync;
  sf_log_metadata : Metadata
}.

#[export] Instance SimpleFileLog_eta : Eta SimpleFileLog := fun l =>
  mkSimpleFileLog (memoryLog l) (sf_metadata l) (sf_dir l) (lostAndFound l) (sf_currentSync l) (sf_log_metadata l).

(** Why a file cannot be read. *)
Inductive file_error : Type :=
| FileNotOpened
| FileMissingChecksum
| FileBadChecksum (e : verify_error).

(** The indexes from [first] to [last]. No log reaches the index 2^64 - 1, at
    which the loops of the source would start over. *)
Definition index_range (first last : Z) : list Z :=
  map (fun k => first + Z.of_nat k) (seq 0 (Z.to_nat (last - first + 1))).

Definition checksum_name : bytes := list_ascii_of_string "SHA-1".

Section SimpleFileLog.
Context (algorithms : bytes -> option (bytes -> bytes)).
Context `{ProtoBufText LogEntry} `{ProtoBufText SFMetadata}.

Abbreviation SFL := SimpleFileLog.

Definition on_dir {A} (m : M Disk A) : M SFL A := zoom sf_dir (fun d l => l <| sf_dir := d |>) m.
Definition on_memory {A} (m : M MemoryLog A) : M SFL A := zoom memoryLog (fun x l => l <| memoryLog := x |>) m.

(** ** Messages in files *)

Definition decode_file {T} `{ProtoBufText T} (reader : bytes) : outcome (file_error + T) :=
  let checksum := copyPartial reader 0 MAX_LENGTH in
  let checksumBytes := checksum_length checksum in
  if (checksumBytes =? 0)%nat then Ok (inl FileMissingChecksum) else
  let dataLen := Z.of_nat (length reader) - Z.of_nat checksumBytes in
  match FileContents_get reader (Z.of_nat checksumBytes) dataLen with
  | Fail f => Fail f
  | Ok data =>
      match verify algorithms checksum data with
      | Fail f => Fail f
      | Ok (Some e) => Ok (inl (FileBadChecksum e))
      | Ok None => Ok (inr (pb_fromString data))
      end
  end.

Definition fileToProto {T} `{ProtoBufText T} (path : string) : M Disk (file_error + T) :=
  let! file := tryOpenFile path O_RDWR in
  match file with
  | None => ret (inl FileNotOpened)
  | Some fd =>
      let! reader := map_file fd in
      let! result := lift (decode_file reader) in
      close fd ;;;
      ret result
  end.

Definition protoToFile {T} `{ProtoBufText T} (m : T) (path : string) : M Disk Z :=
  let! fd := openFile path O_CREAT_TRUNC in
  let contents := "010"%char :: pb_dump m in
  let! checksum := lift (calculate algorithms checksum_name contents) in
  write fd (checksum ++ contents) ;;;
  ret fd.

(** ** [Sync] *)

Definition SFSync_wait (s : SFSync) : M SFL unit :=
  forM (sf_fds s) (fun x => on_dir (fsync x.1 ;;; if x.2 then close x.1 else ret tt)).

Definition push_fd (x : Z * bool) : M SFL unit :=
  modify (fun l => l <| sf_currentSync := (sf_currentSync l) <| sf_fds := sf_fds (sf_currentSync l) ++ [x] |> |>).

(** ** Operations *)

Definition updateMetadataCallerSync : M SFL Z :=
  modify (fun l => l <| sf_metadata :=
    mkSFMetadata (u64 (sf_version (sf_metadata l) + 1)) (Some (sf_log_metadata l))
      (startIndex (memoryLog l)) (MemoryLog_getLastLogIndex (memoryLog l)) |>) ;;;
  let! l := get in
  on_dir (protoToFile (sf_metadata l) (if sf_version (sf_metadata l) mod 2 =? 1 then "metadata1" else "metadata2")).

Definition SimpleFileLog_updateMetadata : M SFL unit :=
  let! file := updateMetadataCallerSync in
  on_dir (fsync file ;;; close file ;;; fsync dir_fd).

Definition SimpleFileLog_append (entries : list LogEntry) : M SFL (Z * Z) :=
  let! range := on_memory (MemoryLog_append entries) in
  forM (index_range range.1 range.2) (fun index =>
    let! l := get in
    let! e := lift (MemoryLog_getEntry index (memoryLog l)) in
    let! file := on_dir (protoToFile e (print_016lx index)) in
    push_fd (file, true)) ;;;
  let! mdfile := updateMetadataCallerSync in
  push_fd (dir_fd, false) ;;;
  push_fd (mdfile, true) ;;;
  modify (fun l => l <| sf_currentSync := (sf_currentSync l) <| sf_lastIndex := range.2 |> |>) ;;;
  ret range.

Definition SimpleFileLog_takeSync : M SFL SFSync :=
  let! l := get in
  put (l <| sf_currentSync := mkSFSync (MemoryLog_getLastLogIndex (memoryLog l)) false [] |>) ;;;
  ret (sf_currentSync l).

Definition SimpleFileLog_truncatePrefix (firstEntryId : Z) : M SFL unit :=
  let! l := get in
  let old := startIndex (memoryLog l) in
  on_memory (MemoryLog_truncatePrefix firstEntryId) ;;;
  SimpleFileLog_updateMetadata ;;;
  let! l := get in
  on_dir (forM (index_range old (startIndex (memoryLog l) - 1)) (fun entryId => removeFile (print_016lx entryId))).

Definition SimpleFileLog_truncateSuffix (lastEntryId : Z) : M SFL unit :=
  let! l := get in
  let old := MemoryLog_getLastLogIndex (memoryLog l) in
  on_memory (MemoryLog_truncateSuffix lastEntryId) ;;;
  SimpleFileLog_updateMetadata ;;;
  let! l := get in
  on_dir (forM (rev (index_range (MemoryLog_getLastLogIndex (memoryLog l) + 1) old))
            (fun entryId => removeFile (print_016lx entryId))).

(** ** Construction *)

Definition not_an_entry (filename : string) : bool :=
  bool_decide (filename = "metadata1" \/ filename = "metadata2" \/ filename = "unknown").

(** Names that do not look like an entry's are skipped, with a warning. *)
Fixpoint entry_ids (filenames : list string) : list Z :=
  match filenames with
  | [] => []
  | filename :: rest =>
      if not_an_entry filename then entry_ids rest else
      match scan_lx filename with
      | Some (entryId, EmptyString) => entryId :: entry_ids rest
      | _ => entry_ids rest
      end
  end.

(** [ls] lists the directory for lost files too; the order does not matter. *)
Definition getEntryIds (l : SFL) : list Z := entry_ids ("SimpleFile-unknown" :: ls_sorted (sf_dir l)).

Definition SF_readMetadata (filename : string) : M SFL (file_error + SFMetadata) := on_dir (fileToProto filename).

(** [rename(dir, oldName, lostAndFound, newName)] and both [fsync]s *)
Definition lose (oldName newName : string) : M SFL unit :=
  assert_ (negb (startsWith oldName "/")) ;;;
  assert_ (negb (startsWith newName "/")) ;;;
  let! l := get in
  match names (sf_dir l) !! oldName with
  | None => fail Panicked
  | Some i =>
      put (l <| sf_dir := (sf_dir l) <| names := delete oldName (names (sf_dir l)) |> |>
             <| lostAndFound := <[newName := i]> (lostAndFound l) |>)
  end.

Definition SF_choose_metadata (r1 r2 : file_error + SFMetadata) : option SFMetadata :=
  match r1, r2 with
  | inr m1, inr m2 => Some (if sf_version m2 <? sf_version m1 then m1 else m2)
  | inr m1, inl _ => Some m1
  | inl _, inr m2 => Some m2
  | inl _, inl _ => None
  end.

Definition SimpleFileLog_read (entryPath : string) : M SFL LogEntry :=
  let! r := on_dir (fileToProto entryPath) in
  match r with inl _ => fail Panicked | inr e => ret e end.

(** The metadata to go by: the readable one of the two, the later of both, or
    that of a new log if there are no entries either. *)
Definition SF_load_metadata (fsEntryIds : list Z) : M SFL unit :=
  let! r1 := SF_readMetadata "metadata1" in
  let! r2 := SF_readMetadata "metadata2" in
  let! m := match SF_choose_metadata r1 r2 with
            | Some m => ret m
            | None => match fsEntryIds with
                      | [] => ret (mkSFMetadata 0 None 1 0)
                      | _ => fail Panicked
                      end
            end in
  modify (fun l => l <| sf_metadata := m |>).

(** The entries outside of the log; their files are moved away. [now] is the
    system clock. *)
Definition SF_move_extraneous (now : Z) (fsEntryIds : list Z) : M SFL unit :=
  let time := lost_time now in
  let! l := get in
  let m := sf_metadata l in
  let found := List.filter (fun id => (id <? sf_entries_start m) || (sf_entries_end m <? id)) fsEntryIds in
  forM found (fun entryId => lose (print_016lx entryId) (time +:+ "-" +:+ print_016lx entryId)).

Definition SF_read_entries : M SFL unit :=
  let! l := get in
  let m := sf_metadata l in
  on_memory (MemoryLog_truncatePrefix (sf_entries_start m)) ;;;
  forM (index_range (sf_entries_start m) (sf_entries_end m)) (fun id =>
    let! e := SimpleFileLog_read (print_016lx id) in
    let! _ := on_memory (MemoryLog_append [e]) in
    ret tt).

Definition SimpleFileLog_construct (now : Z) : M SFL unit :=
  let! l := get in
  let fsEntryIds := getEntryIds l in
  SF_load_metadata fsEntryIds ;;;
  SF_move_extraneous now fsEntryIds ;;;
  SF_read_entries ;;;
  modify (fun l => l <| sf_log_metadata := default Metadata_init (sf_raft_metadata (sf_metadata l)) |>) ;;;
  SimpleFileLog_updateMetadata ;;;
  SimpleFileLog_updateMetadata.

(** The members before the body runs, on the directories [d] and [lost]. *)
Definition SimpleFileLog_init (d : Disk) (lost : gmap string Z) : SFL :=
  mkSimpleFileLog MemoryLog_init SFMetadata_init d lost (mkSFSync 0 false []) Metadata_init.

(** The destructor; [Log.h]'s then asserts that the last [Sync] was completed. *)
Definition SimpleFileLog_destroy : M SFL unit :=
  modify (fun l => match sf_fds (sf_currentSync l) with
                   | [] => l <| sf_currentSync := (sf_currentSync l) <| sf_completed := true |> |>
                   | _ => l
                   end).

(** [ByteSize] is the protobuf library's. *)
Definition SimpleFileLog_ops (ByteSize : LogEntry -> Z) : LogOps SFL :=
  {| log_sync := SFSync;
     sync_lastIndex := sf_lastIndex;
     sync_wait := SFSync_wait;
     append := SimpleFileLog_append;
     getEntry i l := MemoryLog_getEntry i (memoryLog l);
     getLogStartIndex l := startIndex (memoryLog l);
     getLastLogIndex l := MemoryLog_getLastLogIndex (memoryLog l);
     getSizeBytes l := MemoryLog_getSizeBytes ByteSize (memoryLog l);
     takeSync := SimpleFileLog_takeSync;
     syncComplete _ := ret tt;
     truncatePrefix := SimpleFileLog_truncatePrefix;
     truncateSuffix := SimpleFileLog_truncateSuffix;
     updateMetadata := SimpleFileLog_updateMetadata;
     metadata := sf_log_metadata;
     set_metadata m l := l <| sf_log_metadata := m |>;
     saved_metadata l := default Metadata_init (sf_raft_metadata (sf_metadata l)) |}.
End SimpleFileLog.

(** ** [LogFactory]: which log a configuration asks for *)

Inductive log_module : Type := MemoryModule | SimpleFileModule | SegmentedModule (encoding : Encoding).

(** [makeLog]; [None] where it ends the process. *)
Definition makeLog (storageModule : option string) : option log_module :=
  let module := default "Segmented" storageModule in
  if bool_decide (module = "Memory") then Some MemoryModule
  else if bool_decide (module = "SimpleFile") then Some SimpleFileModule
  else if bool_decide (module = "Segmented" \/ module = "Segmented-Binary") then Some (SegmentedModule BINARY)
  else if bool_decide (module = "Segmented-Text") then Some (SegmentedModule TEXT)
  else None.

Example print_26 : print_016lx 26 = "000000000000001a". Proof. reflexivity. Qed.
Example scan_26 : scan_lx "000000000000001a" = Some (26, ""). Proof. reflexivity. Qed.
Example scan_spelled : scan_lx " -0Xfg" = Some (18446744073709551601, "g"). Proof. reflexivity. Qed.
Example lost_time_now : lost_time 1420070400000042000 = "1420070400.000042". Proof. reflexivity. Qed.
