(* ===== verification/SimpleFileLogSpec.v ===== *)
(** * The simple file log survives restarts

    The operations of [SimpleFileLog.v] against a log that is a first index, its
    entries and its metadata: each call has its effect at once, on the files
    too, and a new process reads back what the last one left. *)

From Stdlib Require Import ZArith Lia Ascii String.
From stdpp Require Import base functions gmap strings list fin_maps.
From S2P Require Import Prelude OrderedMap StringUtil Stream SnapshotFile Log Disk DiskSpec Checksum Printf Durations SegmentedLog SegmentedLogFormat SegmentedLogLoad SegmentedLogDurable SimpleFileLog.
Local Open Scope string_scope.
Local Open Scope Z_scope.
Local Open Scope list_scope.

(** ** File names *)

Lemma hex_char_cases d : 0 <= d < 16 ->
  hex_value (hex_char d) = Some d /\ isspace (hex_char d) = false /\
  Forall (fun c => Ascii.eqb (hex_char d) c = false) ["-"; "+"; "/"; "m"; "u"; "x"; "X"]%char.
Proof.
  intros Hd. assert (exists k, (k < 16)%nat /\ d = Z.of_nat k) as (k & Hk & ->) by (exists (Z.to_nat d); lia).
  do 16 (destruct k as [|k]; [by repeat constructor|apply Nat.succ_lt_mono in Hk]). by apply Nat.nlt_0_r in Hk.
Qed.

Lemma hex_mod_succ x (n : nat) : 0 <= x ->
  x mod 16 ^ Z.of_nat (S n) = (x / 16 ^ Z.of_nat n) mod 16 * 16 ^ Z.of_nat n + x mod 16 ^ Z.of_nat n.
Proof.
  intros Hx. rewrite Nat2Z.inj_succ, Z.pow_succ_r by lia. rewrite (Z.mul_comm 16).
  rewrite Z.rem_mul_r by lia. lia.
Qed.

Lemma scan_hex_digits n x acc : 0 <= x ->
  scan_hex n (hex_digits n x) acc = (acc * 16 ^ Z.of_nat n + x mod 16 ^ Z.of_nat n, n, "").
Proof.
  intros Hx. revert acc. induction n as [|n IH]; intros acc.
  - simpl. by rewrite Z.mod_1_r, Z.mul_1_r, Z.add_0_r.
  - rewrite hex_mod_succ by done. cbn [hex_digits scan_hex].
    destruct (hex_char_cases (x / 16 ^ Z.of_nat n mod 16)) as [-> _]; [apply Z.mod_pos_bound; lia|]. rewrite IH.
    rewrite Nat2Z.inj_succ, Z.pow_succ_r by lia. f_equal. f_equal. ring.
Qed.

(** The whole of a printed number is read back. *)
Lemma scan_print_016lx x : is_u64 x -> scan_lx (print_016lx x) = Some (x, "").
Proof.
  intros Hx. unfold scan_lx, print_016lx. pose proof (scan_hex_digits 16 x 0 ltac:(unfold is_u64 in Hx; lia)) as Hscan.
  rewrite Z.mod_small in Hscan by (unfold is_u64 in Hx; simpl; lia). simpl Z.mul in Hscan. rewrite Z.add_0_l in Hscan.
  change (hex_digits 16 x) with (String (hex_char (x / 16 ^ Z.of_nat 15 mod 16))
    (String (hex_char (x / 16 ^ Z.of_nat 14 mod 16)) (hex_digits 14 x))) in *.
  destruct (hex_char_cases (x / 16 ^ Z.of_nat 15 mod 16)) as (_ & Hs & H1); [apply Z.mod_pos_bound; lia|].
  destruct (hex_char_cases (x / 16 ^ Z.of_nat 14 mod 16)) as (_ & _ & H2); [apply Z.mod_pos_bound; lia|].
  rewrite !Forall_cons in H1, H2. destruct H1 as (H1m & H1p & _), H2 as (_ & _ & _ & _ & _ & H2x & H2X & _).
  cbn [skip_space]. by rewrite Hs, H1m, H1p, H2x, H2X, andb_false_r, Hscan.
Qed.

Lemma print_016lx_inj x y : is_u64 x -> is_u64 y -> print_016lx x = print_016lx y -> x = y.
Proof. intros Hx Hy Heq. pose proof (scan_print_016lx x Hx) as H. rewrite Heq, scan_print_016lx in H by done. by injection H. Qed.

Lemma print_016lx_head x : startsWith (print_016lx x) "/" = false /\ not_an_entry (print_016lx x) = false.
Proof.
  unfold print_016lx. cbn [hex_digits]. destruct (hex_char_cases (x / 16 ^ Z.of_nat 15 mod 16)) as (_ & _ & H1); [apply Z.mod_pos_bound; lia|].
  rewrite !Forall_cons in H1. destruct H1 as (_ & _ & Hs & Hm & Hu & _). split.
  - apply not_true_iff_false. rewrite startsWith_char. intros [s' [= Hc _]]. by rewrite Hc in Hs.
  - unfold not_an_entry. case_bool_decide as Hn; [|done].
    destruct Hn as [Hn|[Hn|Hn]]; apply (f_equal (String.get 0)) in Hn; injection Hn as Hc;
      [rewrite Hc in Hm|rewrite Hc in Hm|rewrite Hc in Hu]; done.
Qed.

(** ** Writing and reading files *)

Section Disk.
Context (E : fault -> Prop).

(** Opening a file that is created or emptied. *)
Lemma wp_openFile_trunc name d Q :
  disk_ok d -> startsWith name "/" = false ->
  (forall fd d', disk_ok d' -> (forall n, contents_of d' n = <[name := Some []]> (contents_of d) n) ->
     handle d' fd name 0 -> handles_kept fd [] d d' -> fds d !! fd = None -> Q fd d') ->
  wp E (openFile name O_CREAT_TRUNC) Q d.
Proof.
  intros Hd Hrel HQ. pose proof (fds_fresh d (next_id d) Hd ltac:(lia)) as Hf1.
  pose proof (fds_fresh d (next_id d + 1) Hd ltac:(lia)) as Hf2.
  destruct (names d !! name) as [i|] eqn:Hn.
  - unfold openFile, openat. apply wp_bind, wp_assert; [by rewrite Hrel|intros _]. apply wp_bind, wp_bind, wp_get.
    rewrite Hn. cbn [O_CREAT O_EXCL O_TRUNC O_CREAT_TRUNC andb]. apply wp_bind, wp_put, wp_ret, wp_ret.
    destruct (names_used _ Hd _ _ Hn) as [Hi Hin].
    assert (disk_ok (mkDisk (names d) (<[i := []]> (inodes d)) (fds d) (next_id d))) as Hd1.
    { destruct Hd as [H1 H2 H3 H4 H5]. split; simpl; [done|..|done|done].
      - intros a j Ha. destruct (H2 _ _ Ha) as [? Hj]. split; [done|].
        destruct (decide (i = j)) as [->|]; [by rewrite lookup_insert_eq; eexists|by rewrite lookup_insert_ne].
      - intros f j q Hq. destruct (H3 _ _ _ Hq) as (? & ? & ?). split_and!; [done..|].
        destruct (decide (i = j)) as [->|]; [by rewrite lookup_insert_eq; eexists|by rewrite lookup_insert_ne]. }
    destruct (handles_open d (names d) (<[i := []]> (inodes d)) (next_id d) i name (next_id d + 1)) as [Hh Hk]; [done|lia|lia|done..|].
    apply HQ; [|by apply contents_of_update|exact Hh|exact Hk|done].
    apply (disk_ok_open _ i (<[next_id d := (i, 0)]> (fds d)) Hd1); simpl; [by rewrite lookup_insert_eq; eexists|lia|done].
  - unfold wp. rewrite (openFile_new d name O_CREAT_TRUNC Hrel Hn eq_refl).
    destruct (add_file_spec d name [] 0 Hd Hn ltac:(lia)) as (H1 & H2 & H3 & H4). by apply HQ.
Qed.

(** Removing the files of some indexes. *)
Lemma wp_remove_all l d (Q : unit -> Disk -> Prop) :
  disk_ok d ->
  (forall d', disk_ok d' -> fds d' = fds d ->
     (forall n, contents_of d' n = if decide (n ∈ map print_016lx l) then None else contents_of d n) -> Q tt d') ->
  wp E (forM l (fun id => removeFile (print_016lx id))) Q d.
Proof.
  revert d. induction l as [|id l IH]; intros d Hd HQ; [by apply wp_ret, HQ|].
  simpl. apply wp_bind. apply wp_removeFile; [done|apply print_016lx_head|]. intros d1 Hd1 Hc1 _ Hf1.
  apply IH; [done|]. intros d2 Hd2 Hf2 Hc2. apply HQ; [done|congruence|]. intros n. rewrite Hc2, Hc1. simpl.
  destruct (decide (n = print_016lx id)) as [->|Hn].
  - rewrite fn_lookup_insert, (decide_True (P := _ ∈ _ :: _)) by by left. by case_decide.
  - rewrite fn_lookup_insert_ne by done. repeat case_decide; set_solver.
Qed.
Context (algorithms : bytes -> option (bytes -> bytes)) `{!AlgorithmLaws algorithms}.
Context (sha1 : is_Some (algorithms checksum_name)).

(** The file of a message. *)
Definition file_of {T} `{ProtoBufText T} (m : T) : bytes :=
  match calculate algorithms checksum_name ("010"%char :: pb_dump m) with
  | Ok checksum => checksum ++ "010"%char :: pb_dump m
  | Fail _ => []
  end.

Lemma wp_protoToFile {T} `{ProtoBufText T} (m : T) path d Q :
  disk_ok d -> startsWith path "/" = false ->
  (forall fd d', disk_ok d' -> (forall n, contents_of d' n = <[path := Some (file_of m)]> (contents_of d) n) ->
     is_Some (fds d' !! fd) -> fds d !! fd = None -> (forall f, f <> fd -> fds d' !! f = fds d !! f) -> Q fd d') ->
  wp E (protoToFile algorithms m path) Q d.
Proof.
  intros Hd Hrel HQ. apply wp_bind. apply wp_openFile_trunc; [done..|]. intros fd d1 Hd1 Hc1 Hh1 Hk1 Hf1.
  apply wp_bind, wp_lift. destruct sha1 as [f Hsha]. pose proof (calculate_text algorithms checksum_name f ("010"%char :: pb_dump m) Hsha) as Hcalc.
  unfold file_of in HQ. rewrite Hcalc in *. apply wp_bind. eapply wp_write; [done|exact Hh1|by rewrite Hc1, fn_lookup_insert|].
  intros d2 Hd2 Hc2 Hh2 Hk2. apply wp_ret. apply HQ; [done| |by destruct Hh2 as (i & -> & _)|done|].
  - intros n. rewrite Hc2. destruct (decide (n = path)) as [->|Hn].
    + rewrite !fn_lookup_insert. change (Z.to_nat 0) with 0%nat. by rewrite overwrite_empty.
    + by rewrite !fn_lookup_insert_ne, Hc1, fn_lookup_insert_ne by done.
  - intros f' Hf'. destruct Hk1 as (_ & K1 & _), Hk2 as (_ & K2 & _). by rewrite K2, K1.
Qed.

(** What text parsing promises: the line end before the message does not matter. *)
Class FileText (T : Type) `{ProtoBufText T} := pb_fromString_line : forall m : T, pb_fromString ("010"%char :: pb_dump m) = m.

Lemma FileContents_get_rest c rest : FileContents_get (c ++ rest) (Z.of_nat (length c)) (Z.of_nat (length (c ++ rest)) - Z.of_nat (length c)) = Ok rest.
Proof.
  unfold FileContents_get. replace (Z.of_nat (length c) + _) with (Z.of_nat (length (c ++ rest))) by lia.
  rewrite (proj2 (Z.ltb_ge _ _)), andb_false_r.
  - rewrite length_app, Nat2Z.id, drop_app_length. rewrite take_ge by lia. done.
  - unfold u64. apply Z.mod_le; lia.
Qed.

Lemma decode_file_of {T} `{ProtoBufText T} `{!FileText T} (m : T) : decode_file algorithms (file_of m) = Ok (inr m).
Proof.
  unfold file_of. destruct sha1 as [f Hsha].
  destruct (calculate algorithms checksum_name ("010"%char :: pb_dump m)) as [c|] eqn:Hc; [|by rewrite (calculate_text _ _ f) in Hc].
  destruct (calculate_length algorithms checksum_name _ c ("010"%char :: pb_dump m) Hc) as [Hlen Hmax].
  unfold decode_file. pose proof (copyPartial_app [] (c ++ "010"%char :: pb_dump m) MAX_LENGTH) as Hcopy.
  simpl app in Hcopy at 1. change (Z.of_nat (length [])) with 0 in Hcopy. rewrite Hcopy.
  assert (take MAX_LENGTH (c ++ "010"%char :: pb_dump m) = c ++ take (MAX_LENGTH - length c) ("010"%char :: pb_dump m)) as Htake.
  { rewrite take_app, take_ge by lia. done. }
  rewrite Htake. destruct (calculate_length algorithms checksum_name _ c (take (MAX_LENGTH - length c) ("010"%char :: pb_dump m)) Hc) as [Hlen' _].
  rewrite Hlen'. replace (length c =? 0)%nat with false by (symmetry; apply Nat.eqb_neq; lia).
  rewrite FileContents_get_rest.
  by rewrite (verify_prefix algorithms _ _ _ _ Hc), pb_fromString_line.
Qed.

Lemma wp_fileToProto {T} `{ProtoBufText T} `{!FileText T} (m : T) path d Q :
  disk_ok d -> startsWith path "/" = false -> contents_of d path = Some (file_of m) ->
  (forall d', disk_ok d' -> (forall n, contents_of d' n = contents_of d n) -> fds d' = fds d -> Q (inr m) d') ->
  wp E (fileToProto algorithms path) Q d.
Proof.
  intros Hd Hrel Hc HQ. apply wp_bind. apply wp_bind, wp_assert; [by rewrite Hrel|intros _].
  eapply wp_openat_existing; [done..|]. intros fd d1 Hd1 Hfd Hc1 Hh1 Hk1.
  apply wp_bind. eapply wp_map_file; [exact Hh1|by rewrite Hc1|]. apply wp_bind, wp_lift. rewrite decode_file_of.
  destruct Hh1 as (i & Hf & Hn). apply wp_bind. eapply wp_close; [done|exact Hf|]. intros d2 Hd2 Hc2 (_ & Hk2 & _) Hf2.
  apply wp_ret, HQ; [done|by intros n; rewrite Hc2|].
  apply (fds_restored fd); [by apply fds_fresh|done|]. intros f Hne. rewrite Hk2 by done. by apply Hk1.
Qed.

Lemma wp_fileToProto_none {T} `{ProtoBufText T} path d Q :
  startsWith path "/" = false -> disk_ok d -> contents_of d path = None ->
  Q (inl FileNotOpened : file_error + T) d -> wp E (fileToProto algorithms path) Q d.
Proof.
  intros Hrel Hd Hc HQ. apply wp_bind. apply wp_bind, wp_assert; [by rewrite Hrel|intros _]. apply wp_bind, wp_get.
  destruct (names d !! path) as [i|] eqn:Hn.
  { assert (is_Some (contents_of d path)) as [? Hs] by (apply contents_name; [done|by rewrite Hn]). by rewrite Hc in Hs. }
  by apply wp_ret, wp_ret.
Qed.

End Disk.

(** ** [MemoryLog] exactly *)

Section Memory.
Context (E : fault -> Prop).

Lemma wp_MemoryLog_append es x Q :
  MemoryLog_ok x -> startIndex x + Z.of_nat (length (entries x ++ es)) <= u64_max ->
  (forall x', startIndex x' = startIndex x -> entries x' = entries x ++ es -> MemoryLog_ok x' ->
     Q (startIndex x + Z.of_nat (length (entries x)), startIndex x + Z.of_nat (length (entries x ++ es)) - 1) x') ->
  wp E (MemoryLog_append es) Q x.
Proof.
  unfold MemoryLog_ok. intros (Hs & Hl) Hmax HQ. rewrite length_app in *.
  apply wp_bind, wp_get, wp_bind, wp_put, wp_ret. u64_solve.
  replace (startIndex x + Z.of_nat (length (entries x)) + Z.of_nat (length es) - 1)
    with (startIndex x + Z.of_nat (length (entries x) + length es) - 1) by lia.
  apply HQ; simpl; [done|done|]. rewrite length_app. lia.
Qed.

Lemma MemoryLog_last x : MemoryLog_ok x -> MemoryLog_getLastLogIndex x = startIndex x + Z.of_nat (length (entries x)) - 1.
Proof. intros (Hs & Hl). unfold MemoryLog_getLastLogIndex. by u64_solve. Qed.

Lemma wp_MemoryLog_truncatePrefix i x Q :
  MemoryLog_ok x -> i <= u64_max ->
  (forall x', startIndex x' = Z.max i (startIndex x) -> entries x' = drop (Z.to_nat (i - startIndex x)) (entries x) -> MemoryLog_ok x' -> Q tt x') ->
  wp E (MemoryLog_truncatePrefix i) Q x.
Proof.
  unfold MemoryLog_ok. intros (Hs & Hl) Hi HQ. apply wp_modify. destruct (Z.ltb_spec (startIndex x) i).
  - assert (drop (Z.to_nat (Z.min (u64 (i - startIndex x)) (Z.of_nat (length (entries x))))) (entries x) =
      drop (Z.to_nat (i - startIndex x)) (entries x)) as Hdrop.
    { u64_solve. destruct (Z.min_spec (i - startIndex x) (Z.of_nat (length (entries x)))) as [[_ ->]|[? ->]]; [done|].
      by rewrite !drop_ge by lia. }
    apply HQ; simpl; [lia|done|]. rewrite Hdrop, length_drop. lia.
  - apply HQ; [lia| |done]. by replace (Z.to_nat (i - startIndex x)) with 0%nat by lia.
Qed.

Lemma wp_MemoryLog_truncateSuffix i x Q :
  MemoryLog_ok x ->
  (forall x', startIndex x' = startIndex x -> entries x' = take (Z.to_nat (i - startIndex x + 1)) (entries x) -> MemoryLog_ok x' -> Q tt x') ->
  wp E (MemoryLog_truncateSuffix i) Q x.
Proof.
  unfold MemoryLog_ok. intros (Hs & Hl) HQ. apply wp_modify. destruct (Z.ltb_spec i (startIndex x)).
  { apply HQ; simpl; [done| |lia]. by replace (Z.to_nat (i - startIndex x + 1)) with 0%nat by lia. }
  u64_solve. destruct (Z.ltb_spec i (startIndex x - 1 + Z.of_nat (length (entries x)))).
  - u64_solve. apply HQ; simpl; [done|done|]. rewrite length_take. lia.
  - apply HQ; [done| |done]. by rewrite take_ge by lia.
Qed.

Lemma MemoryLog_get x k e : MemoryLog_ok x -> entries x !! k = Some e -> MemoryLog_getEntry (startIndex x + Z.of_nat k) x = Ok e.
Proof.
  intros (Hs & Hl) He. unfold MemoryLog_getEntry. pose proof (lookup_lt_Some _ _ _ He) as Hlt. u64_solve.
  replace (Z.to_nat (startIndex x + Z.of_nat k - startIndex x)) with k by lia. by rewrite He.
Qed.
End Memory.

Lemma elem_index_range a b i : i ∈ index_range a b <-> a <= i <= b.
Proof.
  unfold index_range. rewrite list_elem_of_fmap. setoid_rewrite elem_of_seq. split.
  - intros (k & -> & Hk). lia.
  - intros Hi. exists (Z.to_nat (i - a)). lia.
Qed.

(** ** What a log keeps on its files *)

Section Rep.
Context (algorithms : bytes -> option (bytes -> bytes)) `{!AlgorithmLaws algorithms}.
Context (sha1 : is_Some (algorithms checksum_name)).
Context `{ProtoBufText LogEntry} `{ProtoBufText SFMetadata} `{!FileText LogEntry} `{!FileText SFMetadata}.

Abbreviation file := (file_of algorithms).

Definition is_metadata_file (n : string) : Prop := n = "metadata1" \/ n = "metadata2".

Lemma metadata_not_entry n id : is_metadata_file n -> n <> print_016lx id.
Proof.
  intros Hn ->. destruct (print_016lx_head id) as [_ Hne]. unfold not_an_entry in Hne.
  apply bool_decide_eq_false in Hne. destruct Hn; tauto.
Qed.

Record on_files (x : MemoryLog) (d : Disk) : Prop := {
  of_disk : disk_ok d;
  of_memory : MemoryLog_ok x;
  of_entry k e : entries x !! k = Some e -> contents_of d (print_016lx (startIndex x + Z.of_nat k)) = Some (file e);
  of_names n : is_Some (contents_of d n) -> is_metadata_file n \/ exists id, is_u64 id /\ n = print_016lx id
}.

Definition meta_file (m : SFMetadata) : string := if sf_version m mod 2 =? 1 then "metadata1" else "metadata2".

Lemma meta_file_is m : is_metadata_file (meta_file m).
Proof. unfold meta_file, is_metadata_file. destruct (_ =? 1); auto. Qed.

(** The metadata files hold nothing later than [v]. *)
Definition meta_upto (v : Z) (d : Disk) : Prop :=
  forall n, is_metadata_file n -> contents_of d n = None \/ exists m : SFMetadata, contents_of d n = Some (file m) /\ sf_version m <= v.

(** [m] is in its file, and the other file is older. *)
Definition meta_current (m : SFMetadata) (d : Disk) : Prop :=
  contents_of d (meta_file m) = Some (file m) /\
  forall n, is_metadata_file n -> n <> meta_file m ->
    contents_of d n = None \/ exists m' : SFMetadata, contents_of d n = Some (file m') /\ sf_version m' < sf_version m.

Lemma meta_current_upto m d : meta_current m d -> meta_upto (sf_version m) d.
Proof.
  intros [Hm Ho] n Hn. destruct (decide (n = meta_file m)) as [->|Hne]; [by right; exists m|].
  destruct (Ho n Hn Hne) as [->|(m' & -> & Hlt)]; [by left|right; exists m'; split; [done|lia]].
Qed.

(** Another disk with the same files. *)
Lemma on_files_same x d d' : on_files x d -> disk_ok d' -> (forall n, contents_of d' n = contents_of d n) -> on_files x d'.
Proof. intros [H1 H2 H3 H4] Hd' Hc. split; [done|done|..]; intros *; rewrite Hc; auto. Qed.

Lemma meta_current_same m d d' : meta_current m d -> (forall n, is_metadata_file n -> contents_of d' n = contents_of d n) -> meta_current m d'.
Proof.
  intros [Hm Ho] Hc. split; [rewrite Hc; [done|apply meta_file_is]|]. intros n Hn Hne. rewrite Hc by done. by apply Ho.
Qed.

(** Writing a metadata file. *)
Lemma on_files_meta x d d' n c :
  on_files x d -> is_metadata_file n -> disk_ok d' -> (forall k, contents_of d' k = <[n := Some c]> (contents_of d) k) -> on_files x d'.
Proof.
  intros [H1 H2 H3 H4] Hn Hd' Hc. split; [done|done|..].
  - intros k e He. rewrite Hc, fn_lookup_insert_ne; [auto|]. by apply metadata_not_entry.
  - intros k. rewrite Hc. destruct (decide (k = n)) as [->|Hne]; [by left|]. rewrite fn_lookup_insert_ne by done. apply H4.
Qed.

Lemma sf_meta_written m d d' :
  meta_upto (sf_version m - 1) d -> (forall k, contents_of d' k = <[meta_file m := Some (file m)]> (contents_of d) k) ->
  meta_current m d'.
Proof.
  intros Hup Hc. split; [by rewrite Hc, fn_lookup_insert|]. intros n Hn Hne. rewrite Hc, fn_lookup_insert_ne by done.
  destruct (Hup n Hn) as [->|(m' & -> & Hle)]; [by left|right; exists m'; split; [done|lia]].
Qed.

(** The files of entries that are no longer in the log do not matter. *)
Lemma on_files_forget x x' d :
  on_files x d -> MemoryLog_ok x' ->
  (forall k e, entries x' !! k = Some e -> exists k0, entries x !! k0 = Some e /\ startIndex x' + Z.of_nat k = startIndex x + Z.of_nat k0) ->
  on_files x' d.
Proof.
  intros [H1 H2 H3 H4] Hx' Hsub. split; [done|done| |done]. intros k e He. destruct (Hsub k e He) as (k0 & He0 & ->). by apply H3.
Qed.

Lemma entry_u64 x k e : MemoryLog_ok x -> entries x !! k = Some e -> is_u64 (startIndex x + Z.of_nat k).
Proof. intros (Hs & Hl) He. apply lookup_lt_Some in He. unfold is_u64, u64_max in *. lia. Qed.

Lemma on_files_removed x m d d' l :
  on_files x d -> meta_current m d -> disk_ok d' ->
  (forall n, contents_of d' n = if decide (n ∈ map print_016lx l) then None else contents_of d n) ->
  (forall id, id ∈ l -> is_u64 id /\ forall k e, entries x !! k = Some e -> startIndex x + Z.of_nat k <> id) ->
  on_files x d' /\ meta_current m d'.
Proof.
  intros [H1 H2 H3 H4] Hm Hd' Hc Hl. split; [split; [done|done|..]|].
  - intros k e He. rewrite Hc, decide_False; [auto|]. intros (id & Heq & Hid)%list_elem_of_fmap.
    destruct (Hl id Hid) as [Hu Hne]. apply (Hne k e He). apply print_016lx_inj; [by eapply entry_u64|done|done].
  - intros n. rewrite Hc. case_decide; [by intros []|]. apply H4.
  - eapply meta_current_same; [done|]. intros n Hn. rewrite Hc, decide_False; [done|].
    intros (id & Heq & _)%list_elem_of_fmap. by apply (metadata_not_entry n id).
Qed.
(** ** The log and its files *)

Definition closers (s : SFSync) : list Z := map fst (List.filter snd (sf_fds s)).

Record fds_ok (s : SFSync) (d : Disk) : Prop := {
  fo_dir x : x ∈ sf_fds s -> x.2 = false -> x.1 = dir_fd;
  fo_distinct : NoDup (closers s);
  fo_open f : f ∈ closers s -> is_Some (fds d !! f)
}.

(** Before its metadata is written; [v] bounds the versions. *)
Record unsaved (v : Z) (l : SimpleFileLog) : Prop := {
  un_files : on_files (memoryLog l) (sf_dir l);
  un_meta : meta_upto (sf_version (sf_metadata l)) (sf_dir l);
  un_version : 0 <= sf_version (sf_metadata l) <= v;
  un_fds : fds_ok (sf_currentSync l) (sf_dir l)
}.

Record saved (v : Z) (l : SimpleFileLog) : Prop := {
  sa_files : on_files (memoryLog l) (sf_dir l);
  sa_meta : meta_current (sf_metadata l) (sf_dir l);
  sa_start : sf_entries_start (sf_metadata l) = startIndex (memoryLog l);
  sa_end : sf_entries_end (sf_metadata l) = MemoryLog_getLastLogIndex (memoryLog l);
  sa_version : 0 <= sf_version (sf_metadata l) <= v;
  sa_fds : fds_ok (sf_currentSync l) (sf_dir l)
}.

Lemma saved_unsaved v l : saved v l -> unsaved v l.
Proof. intros [H1 H2 H3 H4 H5 H6]. split; [done|by apply meta_current_upto|done|done]. Qed.

(** Same members but for the metadata and the directory. *)
Record rest_same (l l' : SimpleFileLog) : Prop := {
  rs_memory : memoryLog l' = memoryLog l;
  rs_lost : lostAndFound l' = lostAndFound l;
  rs_sync : sf_currentSync l' = sf_currentSync l;
  rs_log_metadata : sf_log_metadata l' = sf_log_metadata l
}.

Section Ops.
Context (E : fault -> Prop).

Lemma fds_ok_kept s d d' : fds_ok s d -> (forall f, is_Some (fds d !! f) -> is_Some (fds d' !! f)) -> fds_ok s d'.
Proof. intros [H1 H2 H3] Hk. split; [done|done|]. intros f Hf. by apply Hk, H3. Qed.

Lemma fds_ok_push s d f :
  fds_ok s d -> f ∉ closers s -> is_Some (fds d !! f) -> fds_ok (s <| sf_fds := sf_fds s ++ [(f, true)] |>) d.
Proof.
  intros [H1 H2 H3] Hf Ho. assert (closers (s <| sf_fds := sf_fds s ++ [(f, true)] |>) = closers s ++ [f]) as Hcl.
  { unfold closers. simpl. by rewrite List.filter_app, map_app. }
  split; [|rewrite Hcl; apply NoDup_app; split_and!; [done|set_solver|by apply NoDup_singleton]|].
  - intros x. simpl. rewrite elem_of_app, list_elem_of_singleton. intros [Hx| ->]; [by apply H1|done].
  - intros g. rewrite Hcl, elem_of_app, list_elem_of_singleton. intros [Hg| ->]; [by apply H3|done].
Qed.

Lemma fds_ok_push_dir s d : fds_ok s d -> fds_ok (s <| sf_fds := sf_fds s ++ [(dir_fd, false)] |>) d.
Proof.
  intros [H1 H2 H3]. assert (closers (s <| sf_fds := sf_fds s ++ [(dir_fd, false)] |>) = closers s) as Hcl.
  { unfold closers. simpl. rewrite List.filter_app, map_app. simpl. by rewrite app_nil_r. }
  split; [|by rewrite Hcl|by rewrite Hcl]. intros x. simpl. rewrite elem_of_app, list_elem_of_singleton.
  intros [Hx| ->]; [by apply H1|done].
Qed.

Lemma fds_ok_nil i c d : fds_ok (mkSFSync i c []) d.
Proof. split; [set_solver|constructor|set_solver]. Qed.

Lemma wp_updateMetadataCallerSync v l Q :
  unsaved v l -> v < u64_max ->
  (forall fd l', saved (v + 1) l' -> rest_same l l' -> sf_raft_metadata (sf_metadata l') = Some (sf_log_metadata l) ->
     is_Some (fds (sf_dir l') !! fd) -> fds (sf_dir l) !! fd = None ->
     (forall f, f <> fd -> fds (sf_dir l') !! f = fds (sf_dir l) !! f) -> Q fd l') ->
  wp E (updateMetadataCallerSync algorithms) Q l.
Proof.
  intros [Hf Hm Hv Hs] Hmax HQ. apply wp_bind, wp_modify, wp_bind, wp_get, wp_zoom. simpl.
  rewrite u64_small by (unfold is_u64, u64_max in *; lia).
  set (m := mkSFMetadata (sf_version (sf_metadata l) + 1) _ _ _).
  change (if (sf_version (sf_metadata l) + 1) mod 2 =? 1 then _ else _) with (meta_file m).
  eapply wp_protoToFile; [done|done|apply Hf|by destruct (meta_file_is m) as [->| ->]|].
  intros fd d' Hd' Hc Ho Hn Hk. apply HQ; try done. split; simpl; try done.
  - eapply on_files_meta; [exact Hf|apply (meta_file_is m)|done|exact Hc].
  - apply (sf_meta_written m (sf_dir l)); [|exact Hc]. intros n Hnm. unfold m. simpl.
    replace (sf_version (sf_metadata l) + 1 - 1) with (sf_version (sf_metadata l)) by lia. by apply Hm.
  - lia.
  - eapply fds_ok_kept; [done|]. intros f Hfo. rewrite Hk; [done|]. intros ->. rewrite Hn in Hfo. by destruct Hfo.
Qed.

Lemma wp_fsync_open fd d Q : is_Some (fds d !! fd) -> Q tt d -> wp E (fsync fd) Q d.
Proof. intros Ho HQ. apply wp_bind, wp_get. rewrite bool_decide_true, orb_true_r by done. by apply wp_ret. Qed.

Lemma wp_SimpleFileLog_updateMetadata v l Q :
  unsaved v l -> v < u64_max ->
  (forall l', saved (v + 1) l' -> rest_same l l' -> sf_raft_metadata (sf_metadata l') = Some (sf_log_metadata l) -> Q tt l') ->
  wp E (SimpleFileLog_updateMetadata algorithms) Q l.
Proof.
  intros Hl Hmax HQ. apply wp_bind. eapply wp_updateMetadataCallerSync; [done..|].
  intros fd l1 [Hf Hm Hst Hen Hv Hs] [R1 R2 R3 R4] Hr [x Ho] Hn Hk. apply wp_zoom, wp_bind, wp_fsync_open; [by eexists|].
  apply wp_bind. eapply wp_close; [apply Hf|done|]. intros d' Hd' Hc (_ & Hk' & _) Hclosed. apply wp_fsync_dir.
  assert (fds d' = fds (sf_dir l)) as Hfds.
  { apply (fds_restored fd); [done|done|]. intros f Hne. by rewrite Hk', Hk. }
  apply HQ; [|by split|done]. split; simpl; try done.
  - by eapply on_files_same.
  - by eapply meta_current_same.
  - rewrite R3. eapply fds_ok_kept; [apply Hl|]. intros f. by rewrite Hfds.
Qed.
(** ** [append] *)

Lemma index_range_seq s a n :
  index_range (s + Z.of_nat a) (s + Z.of_nat (a + n) - 1) = map (fun k => s + Z.of_nat k) (seq a n).
Proof.
  unfold index_range. replace (Z.to_nat _) with n by lia.
  transitivity (map (fun k => s + Z.of_nat k) (map (Nat.add a) (seq 0 n))).
  - rewrite map_map. apply map_ext. intros k. lia.
  - f_equal. pose proof (fmap_add_seq a 0 n) as Hseq. by rewrite Nat.add_0_r in Hseq.
Qed.

Lemma on_files_write x d d' es e :
  on_files (x <| entries := es |>) d -> MemoryLog_ok (x <| entries := es ++ [e] |>) -> disk_ok d' ->
  (forall n, contents_of d' n = <[print_016lx (startIndex x + Z.of_nat (length es)) := Some (file e)]> (contents_of d) n) ->
  on_files (x <| entries := es ++ [e] |>) d'.
Proof.
  intros [H1 H2 H3 H4] Hok Hd' Hc. pose proof (entry_u64 _ (length es) e Hok) as Hu. simpl in *.
  rewrite list_lookup_middle in Hu by done. specialize (Hu eq_refl). split; [done|done|..]; simpl.
  - intros k e' [He|[Hk He]]%lookup_app_Some.
    + rewrite Hc, fn_lookup_insert_ne; [by apply H3|]. pose proof (lookup_lt_Some _ _ _ He).
      pose proof (entry_u64 _ k e' H2 He) as Hu'. simpl in Hu'. intros Heq%print_016lx_inj; [lia|done|done].
    + apply list_lookup_singleton_Some in He as [Hk0 <-]. replace k with (length es) by lia. by rewrite Hc, fn_lookup_insert.
  - intros n. rewrite Hc. destruct (decide (n = print_016lx (startIndex x + Z.of_nat (length es)))) as [->|Hne].
    + intros _. right. by eexists.
    + rewrite fn_lookup_insert_ne by done. apply H4.
Qed.

Lemma meta_upto_written v d d' id c :
  meta_upto v d -> (forall n, contents_of d' n = <[print_016lx id := c]> (contents_of d) n) -> meta_upto v d'.
Proof. intros Hm Hc n Hn. rewrite Hc, fn_lookup_insert_ne; [by apply Hm|]. by apply not_eq_sym, metadata_not_entry. Qed.

(** Everything but the memory, the directory and the [Sync] object. *)
Record members_same (l l' : SimpleFileLog) : Prop := {
  ms_metadata : sf_metadata l' = sf_metadata l;
  ms_lost : lostAndFound l' = lostAndFound l;
  ms_log_metadata : sf_log_metadata l' = sf_log_metadata l
}.

Lemma wp_write_entries x todo : forall old v l Q,
  memoryLog l = x -> entries x = old ++ todo -> MemoryLog_ok x ->
  on_files (x <| entries := old |>) (sf_dir l) -> meta_upto v (sf_dir l) -> fds_ok (sf_currentSync l) (sf_dir l) ->
  (forall l', on_files x (sf_dir l') -> meta_upto v (sf_dir l') -> fds_ok (sf_currentSync l') (sf_dir l') ->
     memoryLog l' = x -> members_same l l' -> Q tt l') ->
  wp E (forM (map (fun k => startIndex x + Z.of_nat k) (seq (length old) (length todo))) (fun index =>
          let! l := get in
          let! e := lift (MemoryLog_getEntry index (memoryLog l)) in
          let! file := on_dir (protoToFile algorithms e (print_016lx index)) in
          push_fd (file, true))) Q l.
Proof.
  induction todo as [|e todo IH]; intros old v l Q Hx Hes Hok Hf Hm Hfd HQ.
  - apply wp_ret. rewrite app_nil_r in Hes.
    assert (x <| entries := old |> = x) as Heq by (destruct x; simpl in *; by subst). rewrite Heq in Hf. by apply HQ.
  - cbn [length seq map]. simpl forM. apply wp_bind, wp_bind, wp_get, wp_bind, wp_lift.
    rewrite Hx, (MemoryLog_get _ (length old) e); [|done|by rewrite Hes, list_lookup_middle].
    apply wp_bind, wp_zoom. eapply wp_protoToFile; [done|done|apply Hf|apply print_016lx_head|].
    intros fd d1 Hd1 Hc1 Ho1 Hn1 Hk1. apply wp_modify.
    assert (Hes' : entries x = (old ++ [e]) ++ todo) by (by rewrite <-app_assoc).
    assert (Hkeep : forall f, is_Some (fds (sf_dir l) !! f) -> is_Some (fds d1 !! f)).
    { intros f Hf1. rewrite Hk1; [exact Hf1|]. intros ->. rewrite Hn1 in Hf1. by destruct Hf1. }
    specialize (IH (old ++ [e]) v). rewrite length_app, Nat.add_1_r in IH. apply IH; clear IH; [done|done|done|..]; simpl.
    + eapply on_files_write; [exact Hf| |done|exact Hc1]. destruct Hok as [Hok1 Hok2]. split; simpl; [done|].
      rewrite Hes' in Hok2. rewrite length_app in Hok2. lia.
    + by eapply meta_upto_written.
    + apply fds_ok_push; [by eapply fds_ok_kept| |done]. intros Hin. apply (fo_open _ _ Hfd) in Hin.
      rewrite Hn1 in Hin. by destruct Hin.
    + intros l' H1 H2 H3 H4 [H5 H6 H7]. by apply HQ.
Qed.

Lemma wp_SimpleFileLog_append v l es Q :
  saved v l -> v < u64_max -> startIndex (memoryLog l) + Z.of_nat (length (entries (memoryLog l) ++ es)) <= u64_max ->
  (forall l', saved (v + 1) l' -> startIndex (memoryLog l') = startIndex (memoryLog l) ->
     entries (memoryLog l') = entries (memoryLog l) ++ es -> lostAndFound l' = lostAndFound l ->
     sf_log_metadata l' = sf_log_metadata l -> sf_raft_metadata (sf_metadata l') = Some (sf_log_metadata l) ->
     Q (startIndex (memoryLog l) + Z.of_nat (length (entries (memoryLog l))),
        startIndex (memoryLog l) + Z.of_nat (length (entries (memoryLog l) ++ es)) - 1) l') ->
  wp E (SimpleFileLog_append algorithms es) Q l.
Proof.
  intros Hl Hv Hmax HQ. pose proof (saved_unsaved v l Hl) as [Hf Hm Hver Hfd]. apply wp_bind, wp_zoom.
  apply wp_MemoryLog_append; [apply Hf|done|]. intros x' Hs' He' Hok'. apply wp_bind. cbn [fst snd].
  rewrite length_app, index_range_seq, <-Hs'.
  apply (wp_write_entries x' es (entries (memoryLog l)) (sf_version (sf_metadata l)) (l <| memoryLog := x' |>)); simpl; try done.
  { eapply on_files_forget; [exact Hf|split; simpl; destruct Hok'; rewrite ?He', ?length_app in *; lia|].
    simpl. intros k e He. exists k. by rewrite Hs'. }
  intros l1 Hf1 Hm1 Hfd1 Hx1 [M1 M2 M3]. simpl in *. apply wp_bind.
  apply (wp_updateMetadataCallerSync v l1); [by rewrite <-M1 in *; split; rewrite ?Hx1|done|].
  intros fd l2 [Hf2 Hm2 Hst2 Hen2 Hv2 Hfd2] [R1 R2 R3 R4] Hr Ho Hn Hk.
  apply wp_bind, wp_modify, wp_bind, wp_modify, wp_bind, wp_modify, wp_ret. simpl.
  rewrite length_app in HQ. rewrite Hs'. apply HQ; simpl; try congruence. split; simpl; try done.
  destruct (fds_ok_push ((sf_currentSync l2) <| sf_fds := sf_fds (sf_currentSync l2) ++ [(dir_fd, false)] |>) (sf_dir l2) fd)
    as [O1 O2 O3]; [by apply fds_ok_push_dir| |done|by split].
  intros Hin. assert (fd ∈ closers (sf_currentSync l1)) as Hin1.
  { revert Hin. unfold closers. simpl. rewrite List.filter_app, map_app, R3. simpl. by rewrite app_nil_r. }
  apply (fo_open _ _ Hfd1) in Hin1. rewrite Hn in Hin1. by destruct Hin1.
Qed.
(** ** Truncation *)

(** The common part: the memory is cut to [x'], the metadata written, and the
    files of the indexes [l0] removed. *)
Lemma wp_cut v l x' (ids : SimpleFileLog -> list Z) Q :
  saved v l -> v < u64_max -> MemoryLog_ok x' ->
  (forall k e, entries x' !! k = Some e -> exists k0, entries (memoryLog l) !! k0 = Some e /\
     startIndex x' + Z.of_nat k = startIndex (memoryLog l) + Z.of_nat k0) ->
  (forall l1, memoryLog l1 = x' -> forall id, id ∈ ids l1 -> is_u64 id /\ forall k e, entries x' !! k = Some e -> startIndex x' + Z.of_nat k <> id) ->
  (forall l', saved (v + 1) l' -> memoryLog l' = x' -> lostAndFound l' = lostAndFound l ->
     sf_log_metadata l' = sf_log_metadata l -> sf_raft_metadata (sf_metadata l') = Some (sf_log_metadata l) -> Q tt l') ->
  wp E (SimpleFileLog_updateMetadata algorithms ;;;
        let! l := get in on_dir (forM (ids l) (fun entryId => removeFile (print_016lx entryId)))) Q (l <| memoryLog := x' |>).
Proof.
  intros Hl Hv Hx' Hsub Hids HQ. pose proof (saved_unsaved v l Hl) as [Hf Hm Hver Hfd]. apply wp_bind.
  apply (wp_SimpleFileLog_updateMetadata v); [split; simpl; try done; by eapply on_files_forget|done|].
  intros l1 [Hf1 Hm1 Hst1 Hen1 Hv1 Hfd1] [R1 R2 R3 R4] Hr. simpl in *. apply wp_bind, wp_get, wp_zoom.
  apply (wp_remove_all E); [apply Hf1|]. intros d' Hd' Hfds Hc.
  destruct (on_files_removed (memoryLog l1) (sf_metadata l1) (sf_dir l1) d' (ids l1)) as [Hf2 Hm2]; [done|done|done|done| |].
  { rewrite R1. by apply Hids. }
  apply HQ; simpl; try done. split; simpl; try done. eapply fds_ok_kept; [done|]. intros f. by rewrite Hfds.
Qed.

Lemma wp_SimpleFileLog_truncatePrefix v l i Q :
  saved v l -> v < u64_max -> i <= u64_max ->
  (forall l', saved (v + 1) l' -> startIndex (memoryLog l') = Z.max i (startIndex (memoryLog l)) ->
     entries (memoryLog l') = drop (Z.to_nat (i - startIndex (memoryLog l))) (entries (memoryLog l)) ->
     lostAndFound l' = lostAndFound l -> sf_log_metadata l' = sf_log_metadata l ->
     sf_raft_metadata (sf_metadata l') = Some (sf_log_metadata l) -> Q tt l') ->
  wp E (SimpleFileLog_truncatePrefix algorithms i) Q l.
Proof.
  intros Hl Hv Hi HQ. pose proof (of_memory _ _ (sa_files _ _ Hl)) as Hok. apply wp_bind, wp_get, wp_bind, wp_zoom.
  apply wp_MemoryLog_truncatePrefix; [done|done|]. intros x' Hs' He' Hok'.
  apply (wp_cut v l x' (fun l1 => index_range (startIndex (memoryLog l)) (startIndex (memoryLog l1) - 1))); try done.
  - intros k e. rewrite He', lookup_drop. intros He. eexists. split; [exact He|].
    destruct Hok as [_ ?]. pose proof (lookup_lt_Some _ _ _ He). lia.
  - intros l1 -> id Hid%elem_index_range. destruct Hok, Hok'. split; [unfold is_u64, u64_max in *; lia|]. intros k e _. lia.
  - intros l' H1 H2 H3 H4 H5. rewrite <-H2 in Hs', He'. by apply HQ.
Qed.

Lemma wp_SimpleFileLog_truncateSuffix v l i Q :
  saved v l -> v < u64_max ->
  (forall l', saved (v + 1) l' -> startIndex (memoryLog l') = startIndex (memoryLog l) ->
     entries (memoryLog l') = take (Z.to_nat (i - startIndex (memoryLog l) + 1)) (entries (memoryLog l)) ->
     lostAndFound l' = lostAndFound l -> sf_log_metadata l' = sf_log_metadata l ->
     sf_raft_metadata (sf_metadata l') = Some (sf_log_metadata l) -> Q tt l') ->
  wp E (SimpleFileLog_truncateSuffix algorithms i) Q l.
Proof.
  intros Hl Hv HQ. pose proof (of_memory _ _ (sa_files _ _ Hl)) as Hok. apply wp_bind, wp_get, wp_bind, wp_zoom.
  apply wp_MemoryLog_truncateSuffix; [done|]. intros x' Hs' He' Hok'.
  apply (wp_cut v l x' (fun l1 => rev (index_range (MemoryLog_getLastLogIndex (memoryLog l1) + 1) (MemoryLog_getLastLogIndex (memoryLog l)))));
    try done.
  - intros k e. rewrite He'. intros [He _]%lookup_take_Some. exists k. by rewrite Hs'.
  - intros l1 -> id. rewrite list_elem_of_In, <-in_rev, <-list_elem_of_In, elem_index_range.
    rewrite !MemoryLog_last by done. intros Hid. destruct Hok, Hok'. split; [unfold is_u64, u64_max in *; lia|].
    intros k e He%lookup_lt_Some. lia.
  - intros l' H1 H2 H3 H4 H5. rewrite <-H2 in Hs', He'. by apply HQ.
Qed.

(** ** Flushing *)

Lemma wp_wait_fds xs l Q :
  (forall x, x ∈ xs -> x.2 = false -> x.1 = dir_fd) -> NoDup (map fst (List.filter snd xs)) ->
  (forall f, f ∈ map fst (List.filter snd xs) -> is_Some (fds (sf_dir l) !! f)) -> disk_ok (sf_dir l) ->
  (forall d', disk_ok d' -> (forall n, contents_of d' n = contents_of (sf_dir l) n) -> Q tt (l <| sf_dir := d' |>)) ->
  wp E (forM xs (fun x => on_dir (fsync x.1 ;;; if x.2 then close x.1 else ret tt))) Q l.
Proof.
  intros Hdir Hnd Ho Hd. revert l Ho Hd. induction xs as [|[f c] xs IH]; intros l Ho Hd HQ.
  { apply wp_ret. assert (l = l <| sf_dir := sf_dir l |>) as -> by (by destruct l). by apply HQ. }
  simpl forM. apply wp_bind, wp_zoom, wp_bind. destruct c; simpl in *.
  - apply NoDup_cons in Hnd as [Hf Hnd]. destruct (Ho f ltac:(by left)) as [y Hy]. apply wp_fsync_open; [by eexists|].
    eapply wp_close; [done|exact Hy|]. intros d1 Hd1 Hc1 (_ & Hk1 & _) _. apply IH; simpl; try done.
    + intros x Hx. apply Hdir. by right.
    + intros g Hg. rewrite Hk1; [apply Ho; by right|]. by intros ->.
    + intros d2 Hd2 Hc2. apply (HQ d2 Hd2). intros n. by rewrite Hc2.
  - pose proof (Hdir (f, false) ltac:(by left) eq_refl) as Hfd. simpl in Hfd. subst f. apply wp_fsync_dir, wp_ret. apply IH; simpl; try done.
    intros x Hx. apply Hdir. by right.
Qed.

(** The [Sync] object taken and waited for. *)
Definition flush : M SimpleFileLog unit := let! s := SimpleFileLog_takeSync in SFSync_wait s.

Lemma wp_flush v l Q :
  saved v l ->
  (forall l', saved v l' -> memoryLog l' = memoryLog l -> lostAndFound l' = lostAndFound l -> sf_log_metadata l' = sf_log_metadata l ->
     sf_metadata l' = sf_metadata l -> sf_fds (sf_currentSync l') = [] -> Q tt l') ->
  wp E flush Q l.
Proof.
  intros [Hf Hm Hst Hen Hv Hfd] HQ. apply wp_bind, wp_bind, wp_get, wp_bind, wp_put, wp_ret.
  apply wp_wait_fds; simpl; [apply Hfd|apply Hfd|apply Hfd|apply Hf|].
  intros d' Hd' Hc. apply HQ; simpl; try done. split; simpl; try done.
  - by eapply on_files_same.
  - by eapply meta_current_same.
  - apply fds_ok_nil.
Qed.
(** ** Starting again *)

Lemma startsWith_head a s : startsWith (String a s) "/" = Ascii.eqb a "/".
Proof.
  apply eq_true_iff_eq. rewrite startsWith_char, Ascii.eqb_eq. split; [by intros [s' [= ->]]|intros ->; by exists s].
Qed.

Lemma lost_name_relative now id : startsWith (lost_time now +:+ "-" +:+ print_016lx id) "/" = false.
Proof.
  unfold lost_time, zero_padded. set (x := u64 (tv_sec (makeTimeSpec now))).
  assert (exists c s, print_lu x = String c s /\ Ascii.eqb c "/" = false) as (c & s & -> & Hc).
  { destruct (strip_zeros_digits 19 x) as (k & Hk & _).
    { pose proof (u64_range (tv_sec (makeTimeSpec now))) as Hx. fold x in Hx. unfold is_u64 in Hx.
      change (10 ^ Z.of_nat 20) with 100000000000000000000. lia. }
    unfold print_lu. rewrite Hk. destruct (digits_head k x "") as (d & s & Heq & Hd). rewrite string_app_nil_r in Heq.
    exists (digit d), s. split; [done|]. assert (exists n, (n < 10)%nat /\ d = Z.of_nat n) as (n & Hn & ->) by (exists (Z.to_nat d); lia).
    do 10 (destruct n as [|n]; [done|apply Nat.succ_lt_mono in Hn]). by apply Nat.nlt_0_r in Hn. }
  destruct (replicate _ _) as [|z zs] eqn:Hz.
  - simpl fold_right. by rewrite !string_app_cons, startsWith_head.
  - assert (z = "0"%char) as ->; [|simpl fold_right; by rewrite !string_app_cons, startsWith_head].
    pose proof (elem_of_replicate (10 - String.length (String c s)) "0"%char z) as [He _]. rewrite Hz in He. apply He. by left.
Qed.

Definition canonical_name (n : string) : Prop :=
  is_metadata_file n \/ (exists id, is_u64 id /\ n = print_016lx id) \/ n = "SimpleFile-unknown".

Lemma entry_ids_spec ns :
  (forall n, n ∈ ns -> canonical_name n) -> NoDup ns ->
  NoDup (entry_ids ns) /\ forall id, id ∈ entry_ids ns <-> is_u64 id /\ print_016lx id ∈ ns.
Proof.
  induction ns as [|n ns IH]; intros Hns Hnd; [split; [constructor|intros id; simpl; set_solver]|].
  apply NoDup_cons in Hnd as [Hn Hnd]. destruct IH as [IHn IHs]; [|done|]; [intros n' Hn'; apply Hns; by right|].
  assert (forall id, is_u64 id -> n <> print_016lx id -> id ∈ entry_ids ns <-> is_u64 id /\ print_016lx id ∈ n :: ns) as Hskip.
  { intros id _ Hne. rewrite IHs, elem_of_cons. intuition congruence. }
  destruct (Hns n ltac:(by left)) as [Hm|[(id & Hid & ->)| ->]]; cbn [entry_ids].
  - assert (not_an_entry n = true) as -> by (unfold not_an_entry; apply bool_decide_eq_true; destruct Hm; auto).
    split; [done|]. intros id. rewrite IHs, elem_of_cons. pose proof (metadata_not_entry n id Hm). intuition congruence.
  - destruct (print_016lx_head id) as [_ ->]. rewrite scan_print_016lx by done. split.
    + constructor; [|done]. by intros [_ ?]%IHs.
    + intros id'. rewrite !elem_of_cons, IHs. split; [intros [->|[? ?]]; auto|].
      intros [Hu [Heq|Hin]]; [left; by apply print_016lx_inj|auto].
  - replace (not_an_entry _) with false by done. replace (scan_lx "SimpleFile-unknown") with (@None (Z * string)) by done.
    split; [done|]. intros id. rewrite IHs, elem_of_cons. split; [intuition|]. intros [Hu [Heq|Hin]]; [|done].
    pose proof (scan_print_016lx id Hu) as Hscan. rewrite Heq in Hscan. done.
Qed.

Lemma getEntryIds_spec x l :
  on_files x (sf_dir l) ->
  NoDup (getEntryIds l) /\ forall id, id ∈ getEntryIds l <-> is_u64 id /\ is_Some (contents_of (sf_dir l) (print_016lx id)).
Proof.
  intros Hf. destruct (ls_sorted_spec (sf_dir l)) as [Hnd Hls]. unfold getEntryIds.
  assert (forall n, n ∈ ls_sorted (sf_dir l) <-> is_Some (contents_of (sf_dir l) n)) as Hls'.
  { intros n. rewrite Hls. symmetry. apply contents_name, Hf. }
  destruct (entry_ids_spec ("SimpleFile-unknown" :: ls_sorted (sf_dir l))) as [H1 H2].
  - intros n. rewrite elem_of_cons, Hls'. intros [->|Hn]; [by right; right|].
    destruct (of_names _ _ Hf n Hn) as [?|?]; [by left|by right; left].
  - constructor; [|done]. rewrite Hls'. intros Hs. destruct (of_names _ _ Hf _ Hs) as [[]|(id & Hid & Heq)]; [done|done|].
    pose proof (scan_print_016lx id Hid) as Hscan. rewrite <-Heq in Hscan. done.
  - split; [done|]. intros id. rewrite H2, elem_of_cons, Hls'. split; [|intuition]. intros [Hid [Heq|?]]; [|done].
    pose proof (scan_print_016lx id Hid) as Hscan. rewrite Heq in Hscan. done.
Qed.
(** Another disk with the same files and descriptors. *)
Definition disk_same (d d' : Disk) : Prop :=
  disk_ok d' /\ (forall n, contents_of d' n = contents_of d n) /\ fds d' = fds d.

Definition read_result (o : option SFMetadata) : file_error + SFMetadata :=
  match o with Some m => inr m | None => inl FileNotOpened end.

Lemma wp_read_metadata n o l Q :
  is_metadata_file n -> disk_ok (sf_dir l) -> contents_of (sf_dir l) n = file <$> o ->
  (forall d', disk_same (sf_dir l) d' -> Q (read_result o) (l <| sf_dir := d' |>)) ->
  wp E (SF_readMetadata algorithms n) Q l.
Proof.
  intros Hn Hd Hc HQ. assert (startsWith n "/" = false) as Hrel by (by destruct Hn as [->| ->]).
  apply wp_zoom. destruct o as [m|]; simpl in Hc.
  - apply (wp_fileToProto E algorithms sha1 m n (sf_dir l)); [done|done|exact Hc|]. intros d' H1 H2 H3. by apply HQ.
  - apply wp_fileToProto_none; [done|done|done|]. by apply HQ.
Qed.

Lemma meta_current_choice m d :
  meta_current m d -> exists o1 o2, contents_of d "metadata1" = file <$> o1 /\ contents_of d "metadata2" = file <$> o2 /\
    SF_choose_metadata (read_result o1) (read_result o2) = Some m.
Proof.
  intros [Hm Ho]. unfold meta_file in *. destruct (sf_version m mod 2 =? 1).
  - destruct (Ho "metadata2" ltac:(by right) ltac:(done)) as [Hc|(m' & Hc & Hlt)].
    + by exists (Some m), None.
    + exists (Some m), (Some m'). split_and!; [done|done|]. simpl. by rewrite (proj2 (Z.ltb_lt _ _)).
  - destruct (Ho "metadata1" ltac:(by left) ltac:(done)) as [Hc|(m' & Hc & Hlt)].
    + by exists None, (Some m).
    + exists (Some m'), (Some m). split_and!; [done|done|]. simpl. by rewrite (proj2 (Z.ltb_ge _ _)) by lia.
Qed.

Lemma wp_SF_load_metadata o1 o2 m ids l Q :
  disk_ok (sf_dir l) -> contents_of (sf_dir l) "metadata1" = file <$> o1 -> contents_of (sf_dir l) "metadata2" = file <$> o2 ->
  SF_choose_metadata (read_result o1) (read_result o2) = Some m \/
    SF_choose_metadata (read_result o1) (read_result o2) = None /\ ids = [] /\ m = mkSFMetadata 0 None 1 0 ->
  (forall d', disk_same (sf_dir l) d' -> Q tt (l <| sf_dir := d' |> <| sf_metadata := m |>)) ->
  wp E (SF_load_metadata algorithms ids) Q l.
Proof.
  intros Hd H1 H2 Hm HQ. apply wp_bind. eapply wp_read_metadata; [by left|done|exact H1|]. intros d1 (Hd1 & Hc1 & Hf1).
  apply wp_bind. eapply wp_read_metadata; [by right|done|simpl; by rewrite Hc1|]. intros d2 (Hd2 & Hc2 & Hf2). simpl in *.
  apply wp_bind. assert (disk_same (sf_dir l) d2) as Hsame.
  { split; [done|]. split; [intros n; by rewrite Hc2|congruence]. }
  destruct Hm as [->|(-> & -> & ->)]; apply wp_ret, wp_modify; by apply (HQ d2).
Qed.

(** Moving one file away. *)
Lemma wp_lose old new l c Q :
  disk_ok (sf_dir l) -> startsWith old "/" = false -> startsWith new "/" = false -> contents_of (sf_dir l) old = Some c ->
  (forall d' lost, disk_ok d' -> (forall n, contents_of d' n = <[old := None]> (contents_of (sf_dir l)) n) -> fds d' = fds (sf_dir l) ->
     Q tt (l <| sf_dir := d' |> <| lostAndFound := lost |>)) ->
  wp E (lose old new) Q l.
Proof.
  intros Hd Ho Hn Hc HQ. do 2 (apply wp_bind, wp_assert; [by rewrite ?Ho, ?Hn|intros _]). apply wp_bind, wp_get.
  unfold contents_of in Hc. destruct (names (sf_dir l) !! old) as [i|] eqn:Hi; [|done]. apply wp_put.
  pose proof (wp_removeFile (fun _ => True) old (sf_dir l) (fun _ d' => d' = (sf_dir l) <| names := delete old (names (sf_dir l)) |> ->
    disk_ok d' /\ (forall n, contents_of d' n = <[old := None]> (contents_of (sf_dir l)) n) /\ fds d' = fds (sf_dir l)) Hd Ho
    (fun d' H1 H2 _ H4 _ => conj H1 (conj H2 H4))) as Hrm.
  unfold wp, removeFile, bind, assert_, modify in Hrm. rewrite Ho in Hrm. simpl in Hrm.
  destruct (Hrm eq_refl) as (G1 & G2 & G3). by apply HQ.
Qed.

Lemma wp_lose_all now ids : forall l Q,
  disk_ok (sf_dir l) -> NoDup ids -> (forall id, id ∈ ids -> is_u64 id /\ is_Some (contents_of (sf_dir l) (print_016lx id))) ->
  (forall d' lost, disk_ok d' -> fds d' = fds (sf_dir l) ->
     (forall n, contents_of d' n = if decide (n ∈ map print_016lx ids) then None else contents_of (sf_dir l) n) ->
     Q tt (l <| sf_dir := d' |> <| lostAndFound := lost |>)) ->
  wp E (forM ids (fun entryId => lose (print_016lx entryId) (lost_time now +:+ "-" +:+ print_016lx entryId))) Q l.
Proof.
  induction ids as [|id ids IH]; intros l Q Hd Hnd Hids HQ.
  - apply wp_ret. assert (l = l <| sf_dir := sf_dir l |> <| lostAndFound := lostAndFound l |>) as -> by (by destruct l). by apply HQ.
  - apply NoDup_cons in Hnd as [Hid Hnd]. destruct (Hids id ltac:(by left)) as [Hu [c Hc]]. simpl forM. apply wp_bind.
    eapply wp_lose; [done|apply print_016lx_head|apply lost_name_relative|exact Hc|]. intros d1 lost1 Hd1 Hc1 Hf1.
    apply IH; simpl; [done|done|..].
    + intros id' Hid'. destruct (Hids id' ltac:(by right)) as [Hu' Hs']. split; [done|]. rewrite Hc1, fn_lookup_insert_ne; [done|].
      intros Heq%print_016lx_inj; [|done|done]. by subst.
    + intros d2 lost2 Hd2 Hf2 Hc2. apply (HQ d2 lost2 Hd2); [congruence|]. intros n. rewrite Hc2, Hc1. simpl.
      destruct (decide (n = print_016lx id)) as [->|Hn].
      * rewrite fn_lookup_insert, (decide_True (P := _ ∈ _ :: _)) by by left. by case_decide.
      * rewrite fn_lookup_insert_ne by done. repeat case_decide; set_solver.
Qed.

(** Reading the entries back. *)
Lemma wp_read_all x : forall todo old l Q,
  entries x = old ++ todo -> MemoryLog_ok x -> on_files x (sf_dir l) ->
  startIndex (memoryLog l) = startIndex x -> entries (memoryLog l) = old ->
  (forall d' x', disk_same (sf_dir l) d' -> MemoryLog_ok x' -> startIndex x' = startIndex x -> entries x' = entries x ->
     Q tt (l <| sf_dir := d' |> <| memoryLog := x' |>)) ->
  wp E (forM (map (fun k => startIndex x + Z.of_nat k) (seq (length old) (length todo))) (fun id =>
          let! e := SimpleFileLog_read algorithms (print_016lx id) in
          let! _ := on_memory (MemoryLog_append [e]) in
          ret tt)) Q l.
Proof.
  induction todo as [|e todo IH]; intros old l Q Hes Hok Hf Hs He HQ.
  - apply wp_ret. rewrite app_nil_r in Hes.
    assert (l = l <| sf_dir := sf_dir l |> <| memoryLog := memoryLog l |>) as -> by (by destruct l).
    apply HQ; [by split; [apply Hf|]| |done|congruence]. destruct Hok. split; rewrite Hs, ?He; [done|]. by rewrite <-Hes.
  - assert (Hes' : entries x = (old ++ [e]) ++ todo) by (by rewrite <-app_assoc).
    cbn [length seq map]. simpl forM. apply wp_bind, wp_bind, wp_bind, wp_zoom.
    apply (wp_fileToProto E algorithms sha1 e _ (sf_dir l)); [apply Hf|apply print_016lx_head|apply (of_entry _ _ Hf); by rewrite Hes, list_lookup_middle|].
    intros d1 Hd1 Hc1 Hf1. apply wp_ret, wp_bind, wp_zoom. simpl. pose proof Hok as [Hok1 Hok2]. rewrite Hes', !length_app in Hok2.
    apply wp_MemoryLog_append; [split; rewrite Hs, ?He; simpl in *; lia|rewrite Hs, He, length_app; simpl in *; lia|].
    intros x1 Hs1 He1 Hok1'. apply wp_ret. specialize (IH (old ++ [e])). rewrite length_app, Nat.add_1_r in IH.
    apply IH; simpl; [done|done|by eapply on_files_same|congruence|congruence|].
    intros d2 x2 (Hd2 & Hc2 & Hf2) Hx2 Hs2 He2. simpl in *. apply (HQ d2 x2); [|done|done|done].
    split; [done|]. split; [intros n; by rewrite Hc2|congruence].
Qed.
Lemma index_range_log x : MemoryLog_ok x ->
  index_range (startIndex x) (MemoryLog_getLastLogIndex x) = map (fun k => startIndex x + Z.of_nat k) (seq 0 (length (entries x))).
Proof.
  intros Hok. rewrite MemoryLog_last, <-index_range_seq by done. f_equal; lia.
Qed.

(** What a new process finds once it has chosen the metadata. *)
Definition found_log (x : MemoryLog) (m : SFMetadata) (l l' : SimpleFileLog) : Prop :=
  startIndex (memoryLog l') = startIndex x /\ entries (memoryLog l') = entries x /\
  sf_log_metadata l' = default Metadata_init (sf_raft_metadata m) /\
  sf_raft_metadata (sf_metadata l') = Some (default Metadata_init (sf_raft_metadata m)) /\
  sf_fds (sf_currentSync l') = sf_fds (sf_currentSync l).

Lemma wp_adopt v x m now ids l Q :
  on_files x (sf_dir l) -> meta_upto (sf_version m) (sf_dir l) -> 0 <= sf_version m <= v -> v + 1 < u64_max ->
  sf_entries_start m = startIndex x -> sf_entries_end m = MemoryLog_getLastLogIndex x ->
  sf_metadata l = m -> memoryLog l = MemoryLog_init -> sf_fds (sf_currentSync l) = [] ->
  NoDup ids -> (forall id, id ∈ ids <-> is_u64 id /\ is_Some (contents_of (sf_dir l) (print_016lx id))) ->
  (forall l', saved (v + 2) l' -> found_log x m l l' -> Q tt l') ->
  wp E (SF_move_extraneous now ids ;;;
        SF_read_entries algorithms ;;;
        modify (fun l => l <| sf_log_metadata := default Metadata_init (sf_raft_metadata (sf_metadata l)) |>) ;;;
        SimpleFileLog_updateMetadata algorithms ;;;
        SimpleFileLog_updateMetadata algorithms) Q l.
Proof.
  intros Hf Hm Hver Hv Hst Hen Hlm Hmem Hfds Hnd Hids HQ. pose proof (of_memory _ _ Hf) as Hok.
  assert (Hlost : forall id, id ∈ List.filter (fun id => (id <? sf_entries_start m) || (sf_entries_end m <? id)) ids ->
    id ∈ ids /\ forall k e, entries x !! k = Some e -> startIndex x + Z.of_nat k <> id).
  { intros id. rewrite list_elem_of_In, filter_In, <-list_elem_of_In. intros [Hin Hout]. split; [done|].
    intros k e He%lookup_lt_Some Heq. rewrite Hst, Hen, MemoryLog_last in Hout by done.
    apply orb_prop in Hout as [?%Z.ltb_lt|?%Z.ltb_lt]; lia. }
  apply wp_bind, wp_bind, wp_get. rewrite Hlm.
  apply wp_lose_all; [apply Hf|by apply NoDup_ListNoDup, List.NoDup_filter, NoDup_ListNoDup|..].
  { intros id [Hin _]%Hlost. by apply Hids. }
  intros d1 lost1 Hd1 Hfd1 Hc1.
  assert (on_files x d1 /\ meta_upto (sf_version m) d1) as [Hf1 Hm1].
  { split.
    - destruct Hf as [F1 F2 F3 F4]. split; [done|done|..].
      + intros k e He. rewrite Hc1, decide_False; [by apply F3|]. intros (id & Heq & Hid)%list_elem_of_fmap.
        destruct (Hlost id Hid) as [Hin Hne]. apply (Hne k e He). apply Hids in Hin as [Hu _].
        apply print_016lx_inj; [by eapply entry_u64|done|done].
      + intros n. rewrite Hc1. case_decide; [by intros []|]. apply F4.
    - intros n Hn. rewrite Hc1, decide_False; [by apply Hm|].
      intros (id & Heq & _)%list_elem_of_fmap. by apply (metadata_not_entry n id). }
  apply wp_bind, wp_bind, wp_get, wp_bind, wp_zoom. simpl. rewrite Hlm, Hmem, Hst, Hen.
  destruct Hok as [Hok1 Hok2]. apply wp_MemoryLog_truncatePrefix; [by split|unfold u64_max in *; lia|].
  intros x1 Hs1 He1 _. simpl in Hs1, He1. rewrite drop_nil in He1. rewrite index_range_log by done.
  apply (wp_read_all x (entries x) []); simpl; [done|done|done|lia|done|].
  intros d2 x2 (Hd2 & Hc2 & Hfd2) Hx2 Hs2 He2. simpl in *. apply wp_bind, wp_modify, wp_bind. simpl. rewrite Hlm.
  apply (wp_SimpleFileLog_updateMetadata v); [|lia|].
  { split; simpl; rewrite ?Hlm; [|intros n Hn; rewrite Hc2; by apply Hm1|done|].
    - apply (on_files_same _ d1 d2); [|done|done]. eapply on_files_forget; [exact Hf1|done|].
      rewrite Hs2, He2. intros k e He. by exists k.
    - destruct (sf_currentSync l) as [i c f]. simpl in Hfds. subst f. apply fds_ok_nil. }
  intros l3 Hl3 [R1 R2 R3 R4] Hr3. simpl in *. apply (wp_SimpleFileLog_updateMetadata (v + 1)); [by apply saved_unsaved|lia|].
  intros l4 Hl4 [T1 T2 T3 T4] Hr4. replace (v + 1 + 1) with (v + 2) in Hl4 by lia.
  apply HQ; [done|]. unfold found_log. rewrite T1, R1, T4, R4, Hr4, R4, T3, R3. split_and!; congruence.
Qed.

Lemma contents_no_file d n : names d = ∅ -> contents_of d n = None.
Proof. intros Hn. unfold contents_of. by rewrite Hn, lookup_empty. Qed.

(** A new log. *)
Lemma wp_construct_new now lost Q :
  (forall l', saved 2 l' -> found_log MemoryLog_init (mkSFMetadata 0 None 1 0) (SimpleFileLog_init Disk_init lost) l' -> Q tt l') ->
  wp E (SimpleFileLog_construct algorithms now) Q (SimpleFileLog_init Disk_init lost).
Proof.
  intros HQ. assert (Hf : on_files MemoryLog_init Disk_init).
  { split; [apply Disk_init_ok|by split|done|]. intros n. by rewrite contents_no_file by done; intros []. }
  destruct (getEntryIds_spec MemoryLog_init (SimpleFileLog_init Disk_init lost) Hf) as [Hnd Hids].
  apply wp_bind, wp_get, wp_bind.
  assert (getEntryIds (SimpleFileLog_init Disk_init lost) = []) as Hnil by reflexivity.
  apply (wp_SF_load_metadata None None (mkSFMetadata 0 None 1 0)); [apply Disk_init_ok|done|done|by right|].
  intros d' (Hd' & Hc & Hfd). simpl in *.
  apply (wp_adopt 0 MemoryLog_init (mkSFMetadata 0 None 1 0)); simpl; try done.
  - by apply (on_files_same _ Disk_init).
  - intros n _. left. rewrite Hc. by apply contents_no_file.
  - intros id. rewrite Hids. simpl. by rewrite Hc.
Qed.

(** A new process on the files of the last one. *)
Lemma wp_construct_again v l now Q :
  saved v l -> v + 1 < u64_max ->
  (forall l', saved (v + 2) l' -> found_log (memoryLog l) (sf_metadata l) (SimpleFileLog_init (reboot (sf_dir l)) (lostAndFound l)) l' -> Q tt l') ->
  wp E (SimpleFileLog_construct algorithms now) Q (SimpleFileLog_init (reboot (sf_dir l)) (lostAndFound l)).
Proof.
  intros [Hf Hm Hst Hen Hver Hfd] Hv HQ. set (l0 := SimpleFileLog_init _ _).
  assert (Hf0 : on_files (memoryLog l) (sf_dir l0)) by (eapply on_files_same; [exact Hf|apply reboot_ok, Hf|done]).
  assert (Hm0 : meta_current (sf_metadata l) (sf_dir l0)) by (by eapply meta_current_same).
  destruct (getEntryIds_spec (memoryLog l) l0 Hf0) as [Hnd Hids]. apply wp_bind, wp_get, wp_bind.
  destruct (meta_current_choice _ _ Hm0) as (o1 & o2 & H1 & H2 & Hch).
  apply (wp_SF_load_metadata o1 o2 (sf_metadata l)); [apply Hf0|done|done|by left|]. intros d' (Hd' & Hc & Hfds).
  apply (wp_adopt v (memoryLog l) (sf_metadata l)); simpl; try done.
  - by apply (on_files_same _ (sf_dir l0)).
  - apply meta_current_upto. eapply meta_current_same; [exact Hm0|]. intros n _. apply Hc.
  - intros id. rewrite Hids. by rewrite Hc.
Qed.
End Ops.

(** ** Runs *)

(** The calls of the log's owner, and the process ending and starting again. *)
Inductive sf_call : Type :=
| SF_Append (es : list LogEntry)
| SF_TruncatePrefix (firstIndex : Z)
| SF_TruncateSuffix (lastIndex : Z)
| SF_SetMetadata (m : Metadata)
| SF_UpdateMetadata
| SF_Flush
| SF_Restart (now : Z).

Definition sf_do (c : sf_call) : M SimpleFileLog unit :=
  match c with
  | SF_Append es => let! _ := SimpleFileLog_append algorithms es in ret tt
  | SF_TruncatePrefix i => SimpleFileLog_truncatePrefix algorithms i
  | SF_TruncateSuffix i => SimpleFileLog_truncateSuffix algorithms i
  | SF_SetMetadata m => modify (fun l => l <| sf_log_metadata := m |>)
  | SF_UpdateMetadata => SimpleFileLog_updateMetadata algorithms
  | SF_Flush => flush
  | SF_Restart now => fun l => SimpleFileLog_construct algorithms now (SimpleFileLog_init (reboot (sf_dir l)) (lostAndFound l))
  end.

(** The log it stands for: no files, no process. *)
Record plain_log : Type := mkPlainLog {
  pl_first : Z;
  pl_entries : list LogEntry;
  pl_metadata : Metadata;
  pl_saved : Metadata
}.

Definition plain_init : plain_log := mkPlainLog 1 [] Metadata_init Metadata_init.

Definition plain_do (c : sf_call) (p : plain_log) : plain_log :=
  let 'mkPlainLog first es m s := p in
  match c with
  | SF_Append new => mkPlainLog first (es ++ new) m m
  | SF_TruncatePrefix i => mkPlainLog (Z.max i first) (drop (Z.to_nat (i - first)) es) m m
  | SF_TruncateSuffix i => mkPlainLog first (take (Z.to_nat (i - first + 1)) es) m m
  | SF_SetMetadata m' => mkPlainLog first es m' s
  | SF_UpdateMetadata => mkPlainLog first es m m
  | SF_Flush => p
  | SF_Restart _ => mkPlainLog first es s s
  end.

(** Indexes stay below 2^64. *)
Definition sf_allowed (c : sf_call) (p : plain_log) : bool :=
  match c with
  | SF_Append es => pl_first p + Z.of_nat (length (pl_entries p ++ es)) <=? u64_max
  | SF_TruncatePrefix i => i <=? u64_max
  | _ => true
  end.

Fixpoint sf_all_allowed (cs : list sf_call) (p : plain_log) : bool :=
  match cs with
  | [] => true
  | c :: cs => sf_allowed c p && sf_all_allowed cs (plain_do c p)
  end.

Definition observes (l : SimpleFileLog) (p : plain_log) : Prop :=
  startIndex (memoryLog l) = pl_first p /\ entries (memoryLog l) = pl_entries p /\
  sf_log_metadata l = pl_metadata p /\ sf_raft_metadata (sf_metadata l) = Some (pl_saved p).

Lemma sf_do_refines v c l p :
  saved v l -> observes l p -> sf_allowed c p = true -> v + 1 < u64_max ->
  safe (sf_do c) (fun _ l' => saved (v + 2) l' /\ observes l' (plain_do c p)) l.
Proof.
  intros Hl (O1 & O2 & O3 & O4) Hal Hv. destruct p as [first es m s]. simpl in O1, O2, O3, O4.
  assert (Hweak : forall u l', saved u l' -> u <= v + 2 -> saved (v + 2) l') by (intros u l' [] ?; split; [done..|lia|done]).
  destruct c; simpl in Hal; cbn [sf_do plain_do].
  - apply Z.leb_le in Hal. apply wp_bind. apply (wp_SimpleFileLog_append _ v); [done|lia|by rewrite O1, O2|].
    intros l' Hs H1 H2 H3 H4 H5. apply wp_ret. split; [by apply (Hweak (v + 1)); [|lia]|].
    unfold observes. simpl. rewrite H1, H2, H4, H5. by subst.
  - apply Z.leb_le in Hal. apply (wp_SimpleFileLog_truncatePrefix _ v); [done|lia|done|].
    intros l' Hs H1 H2 H3 H4 H5. split; [by apply (Hweak (v + 1)); [|lia]|].
    unfold observes. simpl. rewrite H1, H2, H4, H5. by subst.
  - apply (wp_SimpleFileLog_truncateSuffix _ v); [done|lia|].
    intros l' Hs H1 H2 H3 H4 H5. split; [by apply (Hweak (v + 1)); [|lia]|].
    unfold observes. simpl. rewrite H1, H2, H4, H5. by subst.
  - apply wp_modify. split; [|by split_and!]. destruct Hl. split; try done. simpl. lia.
  - apply (wp_SimpleFileLog_updateMetadata _ v); [by apply saved_unsaved|lia|].
    intros l' Hs [R1 R2 R3 R4] Hr. split; [by apply (Hweak (v + 1)); [|lia]|].
    unfold observes. simpl. rewrite R1, R4, Hr. by subst.
  - apply (wp_flush _ v); [done|]. intros l' Hs H1 H2 H3 H4 _. split; [by apply (Hweak v); [|lia]|].
    unfold observes. simpl. rewrite H1, H3, H4. by subst.
  - apply (wp_construct_again _ v l now); [done|lia|]. intros l' Hs (H1 & H2 & H3 & H4 & _). split; [done|].
    unfold observes. simpl. rewrite H1, H2, H3, H4, O4. by subst.
Qed.

(** C33: whatever calls are made on a simple file log, with the process ending
    and starting again between any of them, none faults, and at every point the
    log is the list of the entries appended and not truncated, with the first
    index and the metadata that belong to it. A new process finds all entries,
    flushed or not, and the metadata that was last written: by
    [updateMetadata], or with an append or a truncation, which write it too. *)
Theorem SimpleFileLog_refines now lost cs :
  sf_all_allowed cs plain_init = true -> 2 * Z.of_nat (length cs) + 4 < u64_max ->
  exists l0 l, SimpleFileLog_construct algorithms now (SimpleFileLog_init Disk_init lost) = Ok (tt, l0) /\
    forM cs sf_do l0 = Ok (tt, l) /\ observes l (fold_left (fun p c => plain_do c p) cs plain_init).
Proof.
  intros Hal Hlen.
  destruct (proj1 (safe_run _ (fun _ l' => saved 2 l' /\ observes l' plain_init) _)
    (wp_construct_new (fun _ => False) now lost _ (fun l' Hs Hf => conj Hs (let '(conj a (conj b (conj c (conj d _)))) := Hf in
       conj a (conj b (conj c d)))))) as ([] & l0 & Hc & Hs & Ho).
  exists l0. assert (Hrun : forall cs v l p, saved v l -> observes l p -> sf_all_allowed cs p = true ->
    v + 2 * Z.of_nat (length cs) + 1 < u64_max ->
    exists l', forM cs sf_do l = Ok (tt, l') /\ observes l' (fold_left (fun p c => plain_do c p) cs p)).
  { clear -AlgorithmLaws0 sha1 FileText0 FileText1. induction cs as [|c cs IH]; intros v l p Hs Ho Hal Hv; [by exists l|]. simpl in Hal, Hv.
    apply andb_prop in Hal as [Hc Hal]. destruct (proj1 (safe_run _ _ _) (sf_do_refines v c l p Hs Ho Hc ltac:(lia))) as ([] & l1 & Hrun & Hs1 & Ho1).
    destruct (IH (v + 2) l1 _ Hs1 Ho1 Hal ltac:(lia)) as (l2 & Hrun2 & Ho2). exists l2. split; [|done].
    simpl forM. unfold bind. rewrite Hrun. exact Hrun2. }
  destruct (Hrun cs 2 l0 plain_init Hs Ho Hal ltac:(lia)) as (l & Hl & Hobs). by exists l.
Qed.
End Rep.

Lemma wp_any {S A} (m : M S A) (Q : A -> S -> Prop) s : (forall a s', Q a s') -> wp (fun _ => True) m Q s.
Proof. intros HQ. unfold wp. by destruct (m s) as [[]|]. Qed.

(** ** The contract of [Log.h]

    In memory a simple file log is its [MemoryLog], whatever the files hold. *)

Section Laws.
Context (ByteSize : LogEntry -> Z) (algorithms : bytes -> option (bytes -> bytes)).
Context `{ProtoBufText LogEntry} `{ProtoBufText SFMetadata}.

Abbreviation sfl_ops := (SimpleFileLog_ops algorithms ByteSize).

(** Only the files change, and the metadata that is on them is the old or that
    in memory. *)
Definition files_only (l l' : SimpleFileLog) : Prop :=
  memoryLog l' = memoryLog l /\ @same_metadata _ sfl_ops l l'.

#[local] Instance files_only_preorder : PreOrder files_only.
Proof.
  split; [by intros l; split|]. intros l1 l2 l3 [M1 S1] [M2 S2]. split; [congruence|by transitivity l2].
Qed.

Ltac files_step :=
  lazymatch goal with
  | |- keeps _ (bind _ _) => apply (keeps_bind files_only); [|intros ?]
  | |- keeps _ (forM _ _) => apply (keeps_forM files_only); intros ?
  | |- keeps _ (ret _) => apply (keeps_ret files_only)
  | |- keeps _ get => intros ?; apply wp_get; reflexivity
  | |- keeps _ (lift ?o) => intros ?; apply wp_lift; destruct o; [reflexivity|exact I]
  | |- keeps _ (on_dir _) => intros ?; apply wp_zoom, wp_any; intros ? ?; split; [done|by split; [|left]]
  | |- keeps _ (push_fd _) => intros ?; split; [done|by split; [|left]]
  end.
Ltac files := repeat files_step.

Lemma updateMetadataCallerSync_writes : forall l,
  post (updateMetadataCallerSync algorithms) (fun _ l' => memoryLog l' = memoryLog l /\ sf_currentSync l' = sf_currentSync l /\
    sf_log_metadata l' = sf_log_metadata l /\ @saved_metadata _ sfl_ops l' = sf_log_metadata l) l.
Proof.
  intros l. apply wp_bind, wp_modify, wp_bind, wp_get, wp_zoom, wp_any. intros fd d'. by split_and!.
Qed.

Lemma updateMetadata_writes : forall l,
  post (SimpleFileLog_updateMetadata algorithms) (fun _ l' => memoryLog l' = memoryLog l /\
    sf_log_metadata l' = sf_log_metadata l /\ @saved_metadata _ sfl_ops l' = sf_log_metadata l) l.
Proof.
  intros l. apply wp_bind. eapply wp_mono; [apply updateMetadataCallerSync_writes|done|]. intros fd l1 (H1 & _ & H2 & H3).
  apply wp_zoom, wp_any. intros [] d'. by split_and!.
Qed.

Lemma updateMetadata_files : keeps files_only (SimpleFileLog_updateMetadata algorithms).
Proof.
  intros l. eapply wp_mono; [apply updateMetadata_writes|done|]. intros [] l' (H1 & H2 & H3).
  split; [done|]. split; [done|]. by right.
Qed.

Lemma updateMetadataCallerSync_files : keeps files_only (updateMetadataCallerSync algorithms).
Proof.
  intros l. eapply wp_mono; [apply updateMetadataCallerSync_writes|done|]. intros fd l' (H1 & _ & H2 & H3).
  split; [done|]. split; [done|]. by right.
Qed.

(** An operation is one on the memory, and work on the files. *)
Lemma on_memory_then {A B} (m : M MemoryLog A) (k : A -> M SimpleFileLog B) (Q : B -> MemoryLog -> Prop) l :
  post m (fun a x => forall l1, memoryLog l1 = x -> post (k a) (fun b l' => files_only l1 l' /\ Q b x) l1) (memoryLog l) ->
  post (let! a := on_memory m in k a) (fun b l' => Q b (memoryLog l') /\ @same_metadata _ sfl_ops l l') l.
Proof.
  intros Hm. apply wp_bind, wp_zoom. eapply (wp_mono (fun _ => True)); [exact Hm|done|]. intros a x Hk. cbn beta in Hk.
  eapply wp_mono; [by apply (Hk (l <| memoryLog := x |>))|done|]. intros b l' [[H1 H2] HQ]. split; [by rewrite H1|exact H2].
Qed.

Lemma append_on_memory es l (Q : Z * Z -> MemoryLog -> Prop) :
  post (MemoryLog_append es) Q (memoryLog l) ->
  post (SimpleFileLog_append algorithms es) (fun r l' => Q r (memoryLog l') /\ @same_metadata _ sfl_ops l l') l.
Proof.
  intros Hm. apply on_memory_then. eapply (wp_mono (fun _ => True)); [exact Hm|done|]. intros range x HQ l1 Hl1.
  apply wp_bind, (wp_keeps files_only); [by files|]. intros [] l2 H12.
  apply wp_bind, (wp_keeps files_only); [apply updateMetadataCallerSync_files|]. intros fd l3 H23.
  apply wp_bind, wp_modify, wp_bind, wp_modify, wp_bind, wp_modify, wp_ret. split; [|done].
  transitivity l2; [done|]. transitivity l3; [done|]. split; [done|by split; [|left]].
Qed.

Lemma cut_files (ids : SimpleFileLog -> list Z) f :
  keeps files_only (SimpleFileLog_updateMetadata algorithms ;;; let! l := get in on_dir (forM (ids l) f)).
Proof. apply (keeps_bind files_only); [apply updateMetadata_files|]. intros _. files. Qed.

Lemma truncatePrefix_on_memory i l (Q : unit -> MemoryLog -> Prop) :
  post (MemoryLog_truncatePrefix i) Q (memoryLog l) ->
  post (SimpleFileLog_truncatePrefix algorithms i) (fun r l' => Q r (memoryLog l') /\ @same_metadata _ sfl_ops l l') l.
Proof.
  intros Hm. apply wp_bind, wp_get, on_memory_then. eapply (wp_mono (fun _ => True)); [exact Hm|done|]. intros [] x HQ l1 Hl1.
  apply (wp_keeps files_only); [apply cut_files|]. by intros [] l'.
Qed.

Lemma truncateSuffix_on_memory i l (Q : unit -> MemoryLog -> Prop) :
  post (MemoryLog_truncateSuffix i) Q (memoryLog l) ->
  post (SimpleFileLog_truncateSuffix algorithms i) (fun r l' => Q r (memoryLog l') /\ @same_metadata _ sfl_ops l l') l.
Proof.
  intros Hm. apply wp_bind, wp_get, on_memory_then. eapply (wp_mono (fun _ => True)); [exact Hm|done|]. intros [] x HQ l1 Hl1.
  apply (wp_keeps files_only); [apply cut_files|]. by intros [] l'.
Qed.

Lemma SFSync_wait_files s : keeps files_only (SFSync_wait s).
Proof. unfold SFSync_wait. files. Qed.

(** Left alone in memory. *)
Lemma files_only_kept (l : SimpleFileLog) l' :
  MemoryLog_ok (memoryLog l) -> files_only l l' ->
  MemoryLog_ok (memoryLog l') /\ startIndex (memoryLog l') = startIndex (memoryLog l) /\
    MemoryLog_entries (memoryLog l') = MemoryLog_entries (memoryLog l).
Proof. by intros Hok [-> _]. Qed.

Lemma files_only_post {A} (m : M SimpleFileLog A) l :
  MemoryLog_ok (memoryLog l) -> keeps files_only m ->
  post m (fun _ l' => MemoryLog_ok (memoryLog l') /\ startIndex (memoryLog l') = startIndex (memoryLog l) /\
    MemoryLog_entries (memoryLog l') = MemoryLog_entries (memoryLog l)) l.
Proof. intros Hok Hm. apply (wp_keeps files_only); [done|]. intros _ l'. by apply files_only_kept. Qed.

(** The simple file log is a log. *)
Definition SimpleFileLog_laws : @LogLaws SimpleFileLog sfl_ops.
Proof.
  refine (@Build_LogLaws _ sfl_ops (fun l => MemoryLog_ok (memoryLog l)) (fun l => startIndex (memoryLog l))
    (fun l => MemoryLog_entries (memoryLog l)) _ _ _ _ _ _ _ _ _ _ _ _).
  - intros l. unfold MemoryLog_ok, MemoryLog_entries. rewrite length_map. lia.
  - done.
  - intros l Hl. by apply MemoryLog_last_law.
  - intros l i e Hl. by apply MemoryLog_getEntry_law.
  - intros l es Hl Hes Hmax. eapply wp_mono; [apply append_on_memory, safe_post, MemoryLog_append_law; done|done|].
    by intros r l' [HQ _].
  - intros l i Hl Hi. eapply wp_mono; [apply truncatePrefix_on_memory, safe_post, MemoryLog_truncatePrefix_law; done|done|].
    by intros r l' [HQ _].
  - intros l i Hl Hi. eapply wp_mono; [apply truncateSuffix_on_memory, safe_post, MemoryLog_truncateSuffix_law; done|done|].
    by intros r l' [HQ _].
  - intros l Hl. apply files_only_post; [done|apply updateMetadata_files].
  - done.
  - intros l Hl. by apply wp_bind, wp_get, wp_bind, wp_put, wp_ret.
  - intros l s Hl. apply files_only_post; [done|apply SFSync_wait_files].
  - intros l s Hl. by apply wp_ret.
Defined.

Lemma SimpleFileLog_metadata_laws : @LogMetadataLaws SimpleFileLog sfl_ops.
Proof.
  constructor.
  - intros l es. eapply wp_mono; [apply (append_on_memory es l (fun _ _ => True)), wp_any; done|done|]. by intros r l' [_ H'].
  - intros l i. eapply wp_mono; [apply (truncatePrefix_on_memory i l (fun _ _ => True)), wp_any; done|done|]. by intros r l' [_ H'].
  - intros l i. eapply wp_mono; [apply (truncateSuffix_on_memory i l (fun _ _ => True)), wp_any; done|done|]. by intros r l' [_ H'].
  - intros l. apply wp_bind, wp_get, wp_bind, wp_put, wp_ret. by split; [|left].
  - intros l s. apply (wp_keeps files_only); [apply SFSync_wait_files|]. by intros _ l' [_ H'].
  - intros l s. apply wp_ret. reflexivity.
  - intros l. eapply wp_mono; [apply updateMetadata_writes|done|]. by intros [] l' (_ & H1 & H2).
  - done.
Qed.

Lemma files_only_view l l' : files_only l l' -> @same_view _ sfl_ops l l'.
Proof. intros [Hm _]. unfold same_view. cbn. by rewrite Hm. Qed.

Lemma SimpleFileLog_view_laws : @LogViewLaws SimpleFileLog sfl_ops.
Proof.
  constructor.
  - intros l. by apply wp_bind, wp_get, wp_bind, wp_put, wp_ret.
  - intros y l. apply (wp_keeps files_only); [apply SFSync_wait_files|]. intros _ l'. apply files_only_view.
  - intros y l. apply wp_ret. reflexivity.
  - intros l. apply (wp_keeps files_only); [apply updateMetadata_files|]. intros _ l'. apply files_only_view.
  - done.
Qed.
End Laws.
