(* ===== verification/SimpleFileLogDemo.v ===== *)
(** * A simple file log, evaluated *)

From Stdlib Require Import ZArith Lia Ascii String.
From stdpp Require Import base gmap strings list fin_maps countable.
From S2P Require Import Prelude StringUtil Stream Log Disk Checksum SegmentedLog SegmentedLogDemo SimpleFileLog SimpleFileLogSpec.
Local Open Scope Z_scope.
Local Open Scope list_scope.

#[export] Instance SFMetadata_eq_dec : EqDecision SFMetadata.
Proof. solve_decision. Defined.
#[export] Instance SFMetadata_countable : Countable SFMetadata.
Proof.
  apply (inj_countable' (fun m => (sf_version m, (sf_raft_metadata m, (sf_entries_start m, sf_entries_end m))))
    (fun x => match x with (v, (m, (s, e))) => mkSFMetadata v m s e end)). by intros [].
Defined.

#[export] Instance sf_metadata_codec : ProtoBuf SFMetadata := countable_protobuf SFMetadata.
#[export] Instance sf_metadata_codec_laws : ProtoBufLaws SFMetadata := countable_protobuf_laws SFMetadata.

(** A text that starts with a mark; line ends before it are skipped. *)
Fixpoint after_mark (b : bytes) : bytes :=
  match b with
  | "010"%char :: b' => after_mark b'
  | "{"%char :: b' => b'
  | _ => b
  end.

Definition marked_codec {T} (none : T) `{ProtoBuf T} : ProtoBufText T :=
  {| pb_dump m := "{"%char :: pb_serialize m; pb_fromString b := default none (pb_parse (after_mark b)) |}.

Definition no_entry : LogEntry := mkLogEntry 0 None 0 UNKNOWN None None.
#[local] Instance marked_entry : ProtoBufText LogEntry := marked_codec no_entry.
#[local] Instance marked_metadata : ProtoBufText SFMetadata := marked_codec SFMetadata_init.

Lemma marked_entry_law : FileText LogEntry.
Proof. intros m. cbn [pb_fromString pb_dump marked_entry marked_codec after_mark]. by rewrite pb_parse_serialize. Qed.
Lemma marked_metadata_law : FileText SFMetadata.
Proof. intros m. cbn [pb_fromString pb_dump marked_metadata marked_codec after_mark]. by rewrite pb_parse_serialize. Qed.

(** The sum of the bytes as the digest. *)
Definition demo_sha1 (name : bytes) : option (bytes -> bytes) :=
  if bool_decide (name = checksum_name) then Some byte_sum else None.

Lemma demo_sha1_laws : AlgorithmLaws demo_sha1.
Proof.
  split; intros name f; unfold demo_sha1; case_bool_decide as Hn; intros *; try done; subst name.
  - intros _. by repeat constructor.
  - intros [= <-]. cbn. unfold MAX_LENGTH. lia.
Qed.

Lemma demo_sha1_known : is_Some (demo_sha1 checksum_name).
Proof. by eexists. Qed.

(** Restarted with an append not flushed, metadata not saved, and twice in a row. *)
Definition demo_sf_calls : list sf_call :=
  [SF_Append [demo_entry 1 "a"; demo_entry 1 "b"; demo_entry 1 "c"]; SF_Restart 5; SF_TruncatePrefix 2; SF_Flush;
   SF_SetMetadata demo_metadata; SF_Restart 6; SF_SetMetadata demo_metadata; SF_UpdateMetadata; SF_TruncateSuffix 2;
   SF_Append [demo_entry 2 "d"]; SF_Restart 7; SF_Restart 8].

Lemma SimpleFileLog_refines_witness :
  sf_all_allowed demo_sf_calls plain_init = true /\
  exists l0 l, SimpleFileLog_construct demo_sha1 4 (SimpleFileLog_init Disk_init ∅) = Ok (tt, l0) /\
    forM demo_sf_calls (sf_do demo_sha1) l0 = Ok (tt, l) /\
    observes l (mkPlainLog 2 [demo_entry 1 "b"; demo_entry 2 "d"] demo_metadata demo_metadata).
Proof.
  split; [by vm_compute|].
  exact (@SimpleFileLog_refines demo_sha1 demo_sha1_laws demo_sha1_known _ _ marked_entry_law marked_metadata_law
    4 ∅ demo_sf_calls eq_refl eq_refl).
Defined.

(** A file that no entry of the log has is moved away. *)
Example extraneous_file :
  match (let! _ := SimpleFileLog_construct demo_sha1 4 in
         let! _ := on_dir (protoToFile demo_sha1 (demo_entry 1 "x") (print_016lx 9)) in
         sf_do demo_sha1 (SF_Restart 1420070400000042000)) (SimpleFileLog_init Disk_init ∅) with
  | Ok (_, l) => bool_decide (contents_of (sf_dir l) (print_016lx 9) = None) &&
      bool_decide (map fst (map_to_list (lostAndFound l)) = ["1420070400.000042-0000000000000009"%string])
  | Fail _ => false
  end = true.
Proof. by vm_compute. Qed.
