(* ===== verification/Configuration.v ===== *)
(** * Servers and configurations

    The data of [RaftConsensusInternal] in [Server/RaftConsensus.{h,cc}]: the
    local server and its peers, the sets of servers a configuration is made of,
    and the predicates on them that decide elections and commitment.

    The C++ code shares [Server] objects between [knownServers], [oldServers],
    [newServers], [localServer] and the peers' threads through [shared_ptr]s.
    Here the objects live in a heap, the maps and vectors hold references to
    them, and two references are the same object iff they are equal. *)

From Stdlib Require Import ZArith Lia Ascii String.
From stdpp Require Import base gmap strings list fin_maps sorting.
From S2P Require Import Prelude OrderedMap Log.
Local Open Scope Z_scope.
Local Open Scope list_scope.

(** ** Servers *)

Definition ServerRef : Type := Z.

(** The members of class [Peer] proper. [snapshotFile] is the file the peer is
    being sent, mapped in memory. The RPC in flight is not kept: [callRPC] is an
    argument of the operations that use it. *)
Record Peer : Type := mkPeer {
  peer_exiting : bool;
  requestVoteDone : bool;
  haveVote_ : bool;
  suppressBulkData : bool;
  nextIndex : Z;
  matchIndex : Z;
  lastAckEpoch : Z;
  nextHeartbeatTime : Z;
  backoffUntil : Z;
  rpcFailuresSinceLastWarning : Z;
  lastCatchUpIterationMs : Z;
  thisCatchUpIterationStart : Z;
  thisCatchUpIterationGoalId : Z;
  isCaughtUp_ : bool;
  snapshotFile : option (list ascii);
  snapshotFileOffset : Z;
  peer_lastSnapshotIndex : Z
}.

#[export] Instance Peer_eta : Eta Peer := fun p =>
  mkPeer (peer_exiting p) (requestVoteDone p) (haveVote_ p) (suppressBulkData p) (nextIndex p)
    (matchIndex p) (lastAckEpoch p) (nextHeartbeatTime p) (backoffUntil p)
    (rpcFailuresSinceLastWarning p) (lastCatchUpIterationMs p) (thisCatchUpIterationStart p)
    (thisCatchUpIterationGoalId p) (isCaughtUp_ p) (snapshotFile p) (snapshotFileOffset p)
    (peer_lastSnapshotIndex p).

(** The two subclasses of [Server]. *)
Inductive ServerKind : Type :=
| LocalServer (lastSyncedIndex : Z)
| PeerServer (p : Peer).

Record Server : Type := mkServer {
  serverId : Z;
  addresses : string;
  haveStateMachineSupportedVersions : bool;
  minStateMachineVersion : Z;
  maxStateMachineVersion : Z;
  gcFlag : bool;
  kind : ServerKind
}.

#[export] Instance Server_eta : Eta Server := fun s =>
  mkServer (serverId s) (addresses s) (haveStateMachineSupportedVersions s)
    (minStateMachineVersion s) (maxStateMachineVersion s) (gcFlag s) (kind s).

Definition Server_init (id : Z) (k : ServerKind) : Server :=
  mkServer id ""%string false u16_max 0 false k.

Definition LocalServer_init (id : Z) : Server := Server_init id (LocalServer 0).

(** [now] is the clock when the peer is made. *)
Definition Peer_init (lastLogIndex now : Z) : Peer :=
  mkPeer false false false true (u64 (lastLogIndex + 1)) 0 0 TimePoint_min TimePoint_min 0
    u64_max now u64_max false None 0 0.

(** ** Configurations *)

Inductive ConfState : Type := BLANK | STABLE | STAGING | TRANSITIONAL.

Definition conf_State_toString (s : ConfState) : string :=
  match s with
  | BLANK => "State::BLANK"
  | STABLE => "State::STABLE"
  | STAGING => "State::STAGING"
  | TRANSITIONAL => "State::TRANSITIONAL"
  end%string.

#[export] Instance ConfState_eq_dec : EqDecision ConfState.
Proof. solve_decision. Defined.

(** [servers] is the heap and [nextRef] the next address; the other fields are
    the members of class [Configuration]. *)
Record Configuration : Type := mkConfiguration {
  servers : gmap Z Server;
  nextRef : ServerRef;
  knownServers : list (Z * ServerRef);
  localServer : ServerRef;
  conf_state : ConfState;
  conf_id : Z;
  description : Raft_Configuration;
  oldServers : list ServerRef;
  newServers : list ServerRef
}.

#[export] Instance Configuration_eta : Eta Configuration := fun c =>
  mkConfiguration (servers c) (nextRef c) (knownServers c) (localServer c) (conf_state c)
    (conf_id c) (description c) (oldServers c) (newServers c).

Definition Configuration_init (id : Z) : Configuration :=
  mkConfiguration {[0 := LocalServer_init id]} 1 [(id, 0)] 0 BLANK 0 Raft_Configuration_init [] [].

(** *** [SimpleConfiguration], on the values of its servers

    The predicates and getters the code passes are functions of a [Server]; the
    heap supplies the object ([the_server]). *)

Definition the_server (c : Configuration) (r : ServerRef) : Server :=
  default (LocalServer_init 0) (servers c !! r).

Section Simple.
Context {A : Type}.

Definition simple_all (p : A -> bool) (l : list A) : bool := forallb p l.

Definition simple_min (f : A -> Z) (l : list A) : Z :=
  match l with
  | [] => 0
  | _ => fold_left (fun smallest s => Z.min smallest (f s)) l u64_max
  end.

Definition simple_quorumAll (p : A -> bool) (l : list A) : bool :=
  match l with
  | [] => true
  | _ => Z.of_nat (length l) / 2 + 1 <=? Z.of_nat (length (List.filter p l))
  end.

(** [std::sort] ascending, then the element at [(size - 1) / 2]. *)
Definition simple_quorumMin (f : A -> Z) (l : list A) : Z :=
  match l with
  | [] => 0
  | _ => nth ((length l - 1) / 2) (merge_sort Z.le (map f l)) 0
  end.
End Simple.

Definition simple_contains (r : ServerRef) (l : list ServerRef) : bool := existsb (Z.eqb r) l.

(** *** [Configuration] *)

Definition hasVote (c : Configuration) (r : ServerRef) : bool :=
  if bool_decide (conf_state c = TRANSITIONAL)
  then simple_contains r (oldServers c) || simple_contains r (newServers c)
  else simple_contains r (oldServers c).

Definition lookupAddress (c : Configuration) (id : Z) : string :=
  match om_lookup (knownServers c) id with
  | Some r => addresses (the_server c r)
  | None => ""%string
  end.

Definition quorumAll (c : Configuration) (p : Server -> bool) : bool :=
  if bool_decide (conf_state c = TRANSITIONAL)
  then simple_quorumAll p (map (the_server c) (oldServers c)) &&
       simple_quorumAll p (map (the_server c) (newServers c))
  else simple_quorumAll p (map (the_server c) (oldServers c)).

Definition quorumMin (c : Configuration) (f : Server -> Z) : Z :=
  if bool_decide (conf_state c = TRANSITIONAL)
  then Z.min (simple_quorumMin f (map (the_server c) (oldServers c)))
             (simple_quorumMin f (map (the_server c) (newServers c)))
  else simple_quorumMin f (map (the_server c) (oldServers c)).

Definition stagingAll (c : Configuration) (p : Server -> bool) : bool :=
  if bool_decide (conf_state c = STAGING)
  then simple_all p (map (the_server c) (newServers c)) else true.

Definition stagingMin (c : Configuration) (f : Server -> Z) : Z :=
  if bool_decide (conf_state c = STAGING)
  then simple_min f (map (the_server c) (newServers c)) else 0.

(** ** Quorums *)

(** A majority, as a number of servers. *)
Definition majority (n : nat) : nat := n / 2 + 1.

Section Quorums.
Context {A : Type}.

Lemma simple_quorumAll_count (p : A -> bool) l :
  l <> [] -> simple_quorumAll p l = true <-> (majority (length l) <= length (List.filter p l))%nat.
Proof.
  intros Hl. destruct l as [|a l]; [done|]. unfold simple_quorumAll. rewrite Z.leb_le.
  change 2 with (Z.of_nat 2). rewrite <-Nat2Z.inj_div. unfold majority. lia.
Qed.

(** Two sets of more than half the servers have one in common. *)
Lemma majority_intersect (p q : A -> bool) l :
  (majority (length l) <= length (List.filter p l))%nat ->
  (majority (length l) <= length (List.filter q l))%nat ->
  exists a, a ∈ l /\ p a = true /\ q a = true.
Proof.
  intros Hp Hq.
  assert (length (List.filter p l) + length (List.filter q l) <=
          length l + length (List.filter (fun a => p a && q a) l))%nat as Hsum.
  { clear. induction l as [|a l IH]; simpl; [lia|]. destruct (p a), (q a); simpl; lia. }
  assert (length l < majority (length l) + majority (length l))%nat as Hmaj.
  { unfold majority. pose proof (Nat.div_mod_eq (length l) 2).
    pose proof (Nat.mod_upper_bound (length l) 2 ltac:(lia)). lia. }
  destruct (List.filter (fun a => p a && q a) l) as [|a m] eqn:Hf; [simpl in Hsum; lia|].
  assert (In a (List.filter (fun a => p a && q a) l)) as Ha by (rewrite Hf; by left).
  apply filter_In in Ha as [Ha Hpq]. apply andb_true_iff in Hpq. exists a.
  split; [by apply list_elem_of_In|done].
Qed.

(** How many elements of a sorted list are at least [v]. *)
Lemma sorted_count (l : list Z) (v : Z) k :
  StronglySorted Z.le l -> (k < length l)%nat ->
  v <= nth k l 0 <-> (length l - k <= length (List.filter (fun x => (v <=? x)%Z) l))%nat.
Proof.
  intros Hs. revert k. induction Hs as [|x l Hs IH Hx]; intros k Hk; simpl in *; [lia|].
  destruct (Z.leb_spec v x) as [Hv|Hv].
  - assert (List.filter (fun x => v <=? x) l = l) as Hall.
    { clear -Hx Hv. induction Hx as [|y l Hy _ IH]; simpl; [done|].
      rewrite (proj2 (Z.leb_le _ _)) by lia. by rewrite IH. }
    simpl. rewrite Hall. split; intros _; [lia|]. destruct k as [|k]; [done|].
    rewrite Forall_forall in Hx. transitivity x; [done|]. apply Hx.
    apply list_elem_of_In, nth_In. lia.
  - destruct k as [|k].
    + split; [lia|]. intros Hlen. exfalso.
      pose proof (List.filter_length_le (fun x => v <=? x) l). lia.
    + apply IH. lia.
Qed.

Lemma filter_Permutation_length (p : Z -> bool) l l' :
  l ≡ₚ l' -> length (List.filter p l) = length (List.filter p l').
Proof.
  induction 1 as [|x l l' _ IH|x y l|l1 l2 l3 _ IH1 _ IH2]; simpl; [done| | |congruence].
  - by destruct (p x); simpl; rewrite IH.
  - by destruct (p x), (p y).
Qed.

Lemma filter_map_length (p : Z -> bool) (f : A -> Z) l :
  length (List.filter p (map f l)) = length (List.filter (fun a => p (f a)) l).
Proof. induction l as [|a l IH]; simpl; [done|]. destruct (p (f a)); simpl; by rewrite IH. Qed.

(** The value [quorumMin] picks is the largest that a quorum has reached. *)
Lemma simple_quorumMin_spec (f : A -> Z) l v :
  l <> [] -> v <= simple_quorumMin f l <-> simple_quorumAll (fun a => v <=? f a) l = true.
Proof.
  intros Hl. rewrite simple_quorumAll_count by done. unfold simple_quorumMin.
  destruct l as [|a l]; [done|]. set (vs := map f (a :: l)).
  assert (length (merge_sort Z.le vs) = length (a :: l)) as Hlen.
  { rewrite merge_sort_Permutation. subst vs. by rewrite length_map. }
  rewrite sorted_count.
  - rewrite Hlen, (filter_Permutation_length _ _ vs) by apply merge_sort_Permutation.
    subst vs. rewrite filter_map_length. unfold majority.
    assert (length (a :: l) - (length (a :: l) - 1) / 2 = length (a :: l) / 2 + 1)%nat as ->; [|done].
    simpl length. generalize (length l). intros n. replace (S n - 1)%nat with n by lia.
    pose proof (Nat.div_mod_eq n 2). pose proof (Nat.div_mod_eq (S n) 2).
    pose proof (Nat.mod_upper_bound n 2 ltac:(lia)). pose proof (Nat.mod_upper_bound (S n) 2 ltac:(lia)). lia.
  - apply StronglySorted_merge_sort; apply _.
  - rewrite Hlen. simpl length. apply Nat.Div0.div_lt_upper_bound; lia.
Qed.
End Quorums.

(** The sets of servers whose majorities decide in [c]. *)
Definition deciding (c : Configuration) : list (list ServerRef) :=
  if bool_decide (conf_state c = TRANSITIONAL) then [oldServers c; newServers c] else [oldServers c].

Lemma quorumAll_deciding c p :
  quorumAll c p = true <->
  forall l, l ∈ deciding c -> simple_quorumAll p (map (the_server c) l) = true.
Proof.
  unfold quorumAll, deciding. case_bool_decide.
  - rewrite andb_true_iff. split.
    + intros [Ho Hn] l Hl. apply elem_of_cons in Hl as [->|Hl%list_elem_of_singleton]; by subst.
    + intros Hl. split; apply Hl; [by left|right; by left].
  - split; [intros Ho l Hl%list_elem_of_singleton; by subst|].
    intros Hl. apply Hl. by left.
Qed.

(** A positive [quorumMin] has been reached by a quorum. *)
Lemma quorumMin_reached c f :
  0 < quorumMin c f -> quorumAll c (fun s => quorumMin c f <=? f s) = true.
Proof.
  intros Hpos. apply quorumAll_deciding. intros l Hl.
  assert (quorumMin c f <= simple_quorumMin f (map (the_server c) l)) as Hle.
  { unfold quorumMin, deciding in *. case_bool_decide.
    - apply elem_of_cons in Hl as [->|Hl%list_elem_of_singleton]; subst; lia.
    - apply list_elem_of_singleton in Hl as ->. done. }
  apply simple_quorumMin_spec; [|done]. intros Hnil. rewrite Hnil in Hle. simpl in Hle. lia.
Qed.

(** C27: the commit rule counts right. [quorumMin] is the largest value that a
    quorum has reached: [v] is at most it exactly when a quorum (of both sets
    of servers, during a transition) reports at least [v]. *)
Theorem quorumMin_is_quorumAll c f v :
  (forall l, l ∈ deciding c -> l <> []) ->
  v <= quorumMin c f <-> quorumAll c (fun s => v <=? f s) = true.
Proof.
  intros Hne. rewrite quorumAll_deciding. unfold quorumMin, deciding in *.
  case_bool_decide.
  - rewrite Z.min_glb_iff, !simple_quorumMin_spec.
    + split.
      * intros [Ho Hn] l Hl. apply elem_of_cons in Hl as [->|Hl%list_elem_of_singleton]; by subst.
      * intros Hl. split; apply Hl; [by left|right; by left].
    + intros Hm%map_eq_nil. apply (Hne (newServers c)); [right; by left|done].
    + intros Hm%map_eq_nil. apply (Hne (oldServers c)); [by left|done].
  - rewrite simple_quorumMin_spec.
    + split; [intros Ho l Hl%list_elem_of_singleton; by subst|].
      intros Hl. apply Hl. by left.
    + intros Hm%map_eq_nil. apply (Hne (oldServers c)); [by left|done].
Qed.

(** C17: quorums overlap. In two configurations with a deciding set of servers in
    common (the same configuration, or the steps of a membership change: from
    the old servers to both and from both to the new ones), a quorum of the one
    and a quorum of the other have a server of that set in common. *)
Theorem quorums_overlap c c' l p q :
  l ∈ deciding c -> l ∈ deciding c' -> l <> [] ->
  quorumAll c p = true -> quorumAll c' q = true ->
  exists r, r ∈ l /\ p (the_server c r) = true /\ q (the_server c' r) = true.
Proof.
  intros Hl Hl' Hne Hp Hq. rewrite quorumAll_deciding in Hp, Hq.
  specialize (Hp l Hl). specialize (Hq l Hl').
  rewrite simple_quorumAll_count in Hp, Hq by (by intros ?%map_eq_nil).
  rewrite length_map in Hp, Hq.
  assert (forall (g : ServerRef -> Server) (p : Server -> bool),
    length (List.filter p (map g l)) = length (List.filter (fun r => p (g r)) l)) as Hmap.
  { clear. intros g p. induction l as [|a l IH]; simpl; [done|]. destruct (p (g a)); simpl; by rewrite IH. }
  rewrite Hmap in Hp, Hq. by apply (majority_intersect _ _ _ Hp Hq).
Qed.

(** Three servers. *)
Definition three_servers : Configuration :=
  mkConfiguration
    {[0 := Server_init 1 (LocalServer 7); 1 := Server_init 2 (LocalServer 5); 2 := Server_init 3 (LocalServer 3)]}
    3 [(1, 0); (2, 1); (3, 2)] 0 STABLE 1 Raft_Configuration_init [0; 1; 2] [].

Lemma quorumMin_is_quorumAll_witness :
  2 <= quorumMin three_servers serverId <-> quorumAll three_servers (fun s => 2 <=? serverId s) = true.
Proof. refine (quorumMin_is_quorumAll three_servers serverId 2 _). by intros l ->%list_elem_of_singleton. Defined.

Lemma quorums_overlap_witness :
  exists r, r ∈ [0; 1; 2] /\ (serverId (the_server three_servers r) <=? 2) = true /\
    (2 <=? serverId (the_server three_servers r)) = true.
Proof.
  refine (quorums_overlap three_servers three_servers [0; 1; 2] (fun s => serverId s <=? 2)
    (fun s => 2 <=? serverId s) _ _ _ _ _); vm_compute; try reflexivity; try congruence; by left.
Defined.
