(* ===== verification/Raft.v ===== *)
(** * The consensus module

    [Server/RaftConsensus.cc]: Raft on one server. [RaftConsensus] is the object
    under its mutex, and each method that takes the mutex is one operation of
    the monad on it.

    Where a method releases the mutex, for an RPC or a wait on [stateChanged],
    what the other threads do meanwhile is an argument (an operation on the same
    state). The clock is a parameter [clock], read at successive [ticks]; so are
    the random numbers and the names of the staging files. The log is any
    implementation of [Log.v]'s interface. *)

From Stdlib Require Import ZArith Lia Ascii String.
From stdpp Require Import base gmap strings list fin_maps sorting.
From S2P Require Import Prelude OrderedMap StringUtil Stream SnapshotFile Printf Consensus Log ClientProto Configuration.
Local Open Scope string_scope.
Local Open Scope Z_scope.
Local Open Scope list_scope.

(** ** Messages of [Protocol/Raft.proto] *)

Record RequestVote_Request : Type := mkRequestVote_Request {
  rv_server_id : Z;
  rv_term : Z;
  rv_last_log_term : Z;
  rv_last_log_index : Z
}.

Record RequestVote_Response : Type := mkRequestVote_Response {
  rvr_term : Z;
  rvr_granted : bool;
  rvr_log_ok : option bool
}.

Record ServerCapabilities : Type := mkServerCapabilities {
  min_supported_state_machine_version : option Z;
  max_supported_state_machine_version : option Z
}.

Record AppendEntries_Request : Type := mkAppendEntries_Request {
  ae_server_id : Z;
  ae_term : Z;
  ae_prev_log_index : Z;
  ae_prev_log_term : Z;
  ae_entries : list LogEntry;
  ae_commit_index : Z
}.

Record AppendEntries_Response : Type := mkAppendEntries_Response {
  aer_term : Z;
  aer_success : bool;
  aer_last_log_index : option Z;
  aer_server_capabilities : option ServerCapabilities
}.

#[export] Instance AppendEntries_Response_eta : Eta AppendEntries_Response := fun r =>
  mkAppendEntries_Response (aer_term r) (aer_success r) (aer_last_log_index r)
    (aer_server_capabilities r).

Record InstallSnapshot_Request : Type := mkInstallSnapshot_Request {
  is_server_id : Z;
  is_term : Z;
  is_last_snapshot_index : Z;
  is_byte_offset : Z;
  is_data : bytes;
  is_done : bool;
  is_version : option Z
}.

Record InstallSnapshot_Response : Type := mkInstallSnapshot_Response {
  isr_term : Z;
  isr_bytes_stored : option Z
}.

(** [Server/SnapshotMetadata.proto] *)
Record Metadata_Header : Type := mkMetadata_Header {
  last_included_index : Z;
  last_included_term : Z;
  last_cluster_time : option Z;
  header_configuration : option Raft_Configuration;
  configuration_index : option Z
}.

(** ** State *)

Inductive State : Type := FOLLOWER | CANDIDATE | LEADER.

#[export] Instance State_eq_dec : EqDecision State.
Proof. solve_decision. Defined.

Inductive ClientResult : Type := SUCCESS | FAIL | RETRY | NOT_LEADER.

(** [operator<<] *)
Definition ClientResult_toString (r : ClientResult) : string :=
  match r with
  | SUCCESS => "ClientResult::SUCCESS"
  | FAIL => "ClientResult::FAIL"
  | RETRY => "ClientResult::RETRY"
  | NOT_LEADER => "ClientResult::NOT_LEADER"
  end.

Record ConfigurationManager : Type := mkConfigurationManager {
  descriptions : list (Z * Raft_Configuration);
  snapshot : Z * Raft_Configuration
}.

#[export] Instance ConfigurationManager_eta : Eta ConfigurationManager := fun m =>
  mkConfigurationManager (descriptions m) (snapshot m).

Definition ConfigurationManager_init : ConfigurationManager :=
  mkConfigurationManager [] (0, Raft_Configuration_init).

Record ClusterClock : Type := mkClusterClock { clusterTimeAtEpoch : Z; localTimeAtEpoch : Z }.

(** The constants the constructor reads from the configuration. *)
Record RaftOptions : Type := mkRaftOptions {
  ELECTION_TIMEOUT : Z;
  HEARTBEAT_PERIOD : Z;
  MAX_LOG_ENTRIES_PER_REQUEST : Z;
  RPC_FAILURE_BACKOFF : Z;
  STATE_MACHINE_UPDATER_BACKOFF : Z;
  SOFT_RPC_SIZE_LIMIT : Z
}.

Definition RaftOptions_default : RaftOptions :=
  mkRaftOptions 500000000 250000000 5000 250000000 10000000000 (1024 + 1024 * 1024 - 1024).

(** [notificationCount] counts [stateChanged.notify_all()], and [snapshot_dir]
    is the directory of snapshot files. *)
Record RaftConsensus (L : Type) : Type := mkRaftConsensus {
  raft_serverId : Z;
  raft_serverAddresses : string;
  notificationCount : Z;
  exiting : bool;
  numPeerThreads : Z;
  log : L;
  logSyncQueued : bool;
  leaderDiskThreadWorking : bool;
  configuration : Configuration;
  configurationManager : ConfigurationManager;
  currentTerm : Z;
  state : State;
  lastSnapshotIndex : Z;
  lastSnapshotTerm : Z;
  lastSnapshotClusterTime : Z;
  lastSnapshotBytes : Z;
  snapshotReader : option Reader;
  snapshotWriter : option Writer;
  commitIndex : Z;
  leaderId : Z;
  votedFor : Z;
  currentEpoch : Z;
  clusterClock : ClusterClock;
  startElectionAt : Z;
  withholdVotesUntil : Z;
  numEntriesTruncated : Z;
  snapshot_dir : SnapshotDir;
  ticks : nat
}.
Arguments mkRaftConsensus {L}.
Arguments raft_serverId {L}.
Arguments raft_serverAddresses {L}.
Arguments notificationCount {L}.
Arguments exiting {L}.
Arguments numPeerThreads {L}.
Arguments log {L}.
Arguments logSyncQueued {L}.
Arguments leaderDiskThreadWorking {L}.
Arguments configuration {L}.
Arguments configurationManager {L}.
Arguments currentTerm {L}.
Arguments state {L}.
Arguments lastSnapshotIndex {L}.
Arguments lastSnapshotTerm {L}.
Arguments lastSnapshotClusterTime {L}.
Arguments lastSnapshotBytes {L}.
Arguments snapshotReader {L}.
Arguments snapshotWriter {L}.
Arguments commitIndex {L}.
Arguments leaderId {L}.
Arguments votedFor {L}.
Arguments currentEpoch {L}.
Arguments clusterClock {L}.
Arguments startElectionAt {L}.
Arguments withholdVotesUntil {L}.
Arguments numEntriesTruncated {L}.
Arguments snapshot_dir {L}.
Arguments ticks {L}.

#[export] Instance RaftConsensus_eta {L} : Eta (RaftConsensus L) := fun s =>
  mkRaftConsensus (raft_serverId s) (raft_serverAddresses s) (notificationCount s) (exiting s)
    (numPeerThreads s) (log s) (logSyncQueued s) (leaderDiskThreadWorking s) (configuration s)
    (configurationManager s) (currentTerm s) (state s) (lastSnapshotIndex s) (lastSnapshotTerm s)
    (lastSnapshotClusterTime s) (lastSnapshotBytes s) (snapshotReader s) (snapshotWriter s)
    (commitIndex s) (leaderId s) (votedFor s) (currentEpoch s) (clusterClock s)
    (startElectionAt s) (withholdVotesUntil s) (numEntriesTruncated s) (snapshot_dir s) (ticks s).

(** The constructor: no log, configuration or snapshot until [init]. *)
Definition RaftConsensus_construct {L} (id : Z) (addrs : string) (l : L) (dir : SnapshotDir) :
    RaftConsensus L :=
  mkRaftConsensus id addrs 0 false 0 l false false (Configuration_init id)
    ConfigurationManager_init 0 FOLLOWER 0 0 0 0 None None 0 0 0 0 (mkClusterClock 0 0)
    TimePoint_max TimePoint_min 0 dir 0.

Definition state_is {L} (st : State) (s : RaftConsensus L) : bool := bool_decide (state s = st).

(** ** The virtual methods of [Server] *)

Definition on_peer (f : Peer -> Peer) (s : Server) : Server :=
  match kind s with
  | LocalServer _ => s
  | PeerServer p => s <| kind := PeerServer (f p) |>
  end.

Definition Server_beginRequestVote : Server -> Server :=
  on_peer (fun p => p <| requestVoteDone := false |> <| haveVote_ := false |>).

Definition Server_beginLeadership (lastLogIndex : Z) (s : Server) : Server :=
  match kind s with
  | LocalServer _ => s <| kind := LocalServer lastLogIndex |>
  | PeerServer p =>
      s <| kind := PeerServer (p <| nextIndex := u64 (lastLogIndex + 1) |> <| matchIndex := 0 |>
             <| suppressBulkData := true |> <| snapshotFile := None |>
             <| snapshotFileOffset := 0 |> <| peer_lastSnapshotIndex := 0 |>) |>
  end.

Definition Server_exit : Server -> Server := on_peer (fun p => p <| peer_exiting := true |>).

Definition Server_interrupt (s : Server) : Server := s.

Definition Server_getLastAckEpoch (currentEpoch : Z) (s : Server) : Z :=
  match kind s with LocalServer _ => currentEpoch | PeerServer p => lastAckEpoch p end.

Definition Server_getMatchIndex (s : Server) : Z :=
  match kind s with LocalServer lastSyncedIndex => lastSyncedIndex | PeerServer p => matchIndex p end.

Definition Server_haveVote (votedFor : Z) (s : Server) : bool :=
  match kind s with LocalServer _ => votedFor =? serverId s | PeerServer p => haveVote_ p end.

Definition Server_isCaughtUp (s : Server) : bool :=
  match kind s with LocalServer _ => true | PeerServer p => isCaughtUp_ p end.

Definition Server_scheduleHeartbeat (now : Z) : Server -> Server :=
  on_peer (fun p => p <| nextHeartbeatTime := now |>).

Section Raft.
Context {L : Type} `{LogOps L} `{ProtoBuf Metadata_Header}.
Context (opts : RaftOptions) (clock : nat -> Z) (randomRange : nat -> Z -> Z -> Z).
Context (stagingNameAt : nat -> string).

Abbreviation R := (RaftConsensus L).

(** ** Shared helpers *)

(** [Clock::now()] *)
Definition now : M R Z :=
  let! s := get in
  put (s <| ticks := S (ticks s) |>) ;;;
  ret (clock (ticks s)).

(** [stateChanged.notify_all()] *)
Definition notify_all : M R unit :=
  modify (fun s => s <| notificationCount := notificationCount s + 1 |>).

Definition on_log {A} (m : M L A) : M R A := zoom log (fun l s => s <| log := l |>) m.

Definition log_entry (i : Z) : M R LogEntry :=
  let! s := get in lift (getEntry i (log s)).

(** [takeSync], [sync->wait()], [syncComplete]. *)
Definition sync_now : M R unit :=
  let! sync := on_log takeSync in
  on_log (sync_wait sync) ;;;
  on_log (syncComplete sync).

(** Calls a method of the object a reference designates. *)
Definition update_server (r : ServerRef) (f : Server -> Server) : M R unit :=
  let! s := get in
  match servers (configuration s) !! r with
  | None => fail UndefinedBehavior
  | Some srv =>
      put (s <| configuration := (configuration s)
               <| servers := <[r := f srv]> (servers (configuration s)) |> |>)
  end.

(** [Configuration::forEach]: every known server, in the order of the map. *)
Definition forEach (f : Server -> Server) : M R unit :=
  let! s := get in
  forM (map snd (knownServers (configuration s))) (fun r => update_server r f).

Definition interruptAll : M R unit :=
  notify_all ;;; forEach Server_interrupt.

Definition setElectionTimer : M R unit :=
  let! s := get in
  let duration := randomRange (ticks s) (ELECTION_TIMEOUT opts) (ELECTION_TIMEOUT opts * 2) in
  let! t := now in
  modify (fun s => s <| startElectionAt := i64 (t + duration) |>) ;;;
  notify_all.

Definition updateLogMetadata : M R unit :=
  modify (fun s => s <| log :=
    set_metadata (mkMetadata (Some (currentTerm s)) (Some (votedFor s))) (log s) |>) ;;;
  on_log updateMetadata.

(** ** [Configuration]: changing the set of servers *)

Definition set_conf (f : Configuration -> Configuration) : M R unit :=
  modify (fun s => s <| configuration := f (configuration s) |>).

(** A new [Peer] reads the log and the clock, and its thread is started. *)
Definition getServer (newServerId : Z) : M R ServerRef :=
  let! s := get in
  match om_lookup (knownServers (configuration s)) newServerId with
  | Some r => ret r
  | None =>
      let! t := now in
      let peer := Peer_init (getLastLogIndex (log s)) t in
      let! t' := now in
      let peer := peer <| thisCatchUpIterationStart := t' |>
                       <| thisCatchUpIterationGoalId := getLastLogIndex (log s) |> in
      let r := nextRef (configuration s) in
      modify (fun s => s <| numPeerThreads := u32 (numPeerThreads s + 1) |>) ;;;
      set_conf (fun c => c
        <| servers := <[r := Server_init newServerId (PeerServer peer)]> (servers c) |>
        <| nextRef := r + 1 |>
        <| knownServers := om_set (knownServers c) newServerId r |>) ;;;
      ret r
  end.

(** The loops that build [oldServers] and [newServers]. *)
Definition add_old_server (srv : Raft_Server) : M R unit :=
  let! r := getServer (server_id srv) in
  update_server r (fun o => o <| addresses := server_addresses srv |>) ;;;
  set_conf (fun c => c <| oldServers := oldServers c ++ [r] |>).

Definition add_new_server (srv : Raft_Server) : M R unit :=
  let! r := getServer (server_id srv) in
  update_server r (fun o => o <| addresses := server_addresses srv |>) ;;;
  set_conf (fun c => c <| newServers := newServers c ++ [r] |>).

Definition setGCFlag : Server -> Server := fun s => s <| gcFlag := true |>.

(** The final loop of [setConfiguration]. *)
Definition collect_servers : M R unit :=
  let! s := get in
  forM (knownServers (configuration s)) (fun p =>
    let! s := get in
    match servers (configuration s) !! p.2 with
    | None => fail UndefinedBehavior
    | Some srv =>
        if gcFlag srv then update_server p.2 (fun o => o <| gcFlag := false |>)
        else
          update_server p.2 Server_exit ;;;
          set_conf (fun c => c <| knownServers := om_erase (knownServers c) p.1 |>)
    end).

Definition Configuration_setConfiguration (newId : Z) (newDescription : Raft_Configuration) : M R unit :=
  set_conf (fun c => c
    <| conf_state := if bool_decide (next_servers newDescription = []) then STABLE else TRANSITIONAL |>
    <| conf_id := newId |> <| description := newDescription |>
    <| oldServers := [] |> <| newServers := [] |>) ;;;
  forM (prev_configuration newDescription) add_old_server ;;;
  forM (next_servers newDescription) add_new_server ;;;
  let! s := get in
  update_server (localServer (configuration s)) setGCFlag ;;;
  forM (oldServers (configuration s)) (fun r => update_server r setGCFlag) ;;;
  forM (newServers (configuration s)) (fun r => update_server r setGCFlag) ;;;
  collect_servers.

Definition Configuration_reset : M R unit :=
  set_conf (fun c => c <| conf_state := BLANK |> <| conf_id := 0 |>
    <| description := Raft_Configuration_init |> <| oldServers := [] |> <| newServers := [] |>) ;;;
  forEach Server_exit ;;;
  set_conf (fun c => c <| knownServers :=
    [(serverId (the_server c (localServer c)), localServer c)] |>).

Definition resetStagingServers : M R unit :=
  let! s := get in
  when (bool_decide (conf_state (configuration s) = STAGING))
    (Configuration_setConfiguration (conf_id (configuration s)) (description (configuration s))).

Definition setStagingServers (stagingServers : Raft_SimpleConfiguration) : M R unit :=
  let! s := get in
  assert_ (bool_decide (conf_state (configuration s) = STABLE)) ;;;
  set_conf (fun c => c <| conf_state := STAGING |>) ;;;
  forM stagingServers add_new_server.

(** ** [ConfigurationManager] *)

Definition set_manager (f : ConfigurationManager -> ConfigurationManager) : M R unit :=
  modify (fun s => s <| configurationManager := f (configurationManager s) |>).

Definition restoreInvariants : M R unit :=
  set_manager (fun m =>
    if negb ((snapshot m).1 =? 0)
    then m <| descriptions := om_insert (descriptions m) (snapshot m).1 (snapshot m).2 |> else m) ;;;
  let! s := get in
  match om_last (descriptions (configurationManager s)) with
  | None => Configuration_reset
  | Some (id, d) =>
      when (negb (conf_id (configuration s) =? id)) (Configuration_setConfiguration id d)
  end.

Definition ConfigurationManager_add (index : Z) (d : Raft_Configuration) : M R unit :=
  set_manager (fun m => m <| descriptions := om_set (descriptions m) index d |>) ;;;
  restoreInvariants.

Definition ConfigurationManager_truncatePrefix (firstIndexKept : Z) : M R unit :=
  set_manager (fun m => m <| descriptions := om_erase_below (descriptions m) firstIndexKept |>) ;;;
  restoreInvariants.

Definition ConfigurationManager_truncateSuffix (lastIndexKept : Z) : M R unit :=
  set_manager (fun m => m <| descriptions := om_erase_above (descriptions m) lastIndexKept |>) ;;;
  restoreInvariants.

Definition ConfigurationManager_setSnapshot (index : Z) (d : Raft_Configuration) : M R unit :=
  let! s := get in
  assert_ ((snapshot (configurationManager s)).1 <=? index) ;;;
  set_manager (fun m => m <| snapshot := (index, d) |>) ;;;
  restoreInvariants.

Definition getLatestConfigurationAsOf (lastIncludedIndex : Z) (m : ConfigurationManager) :
    Z * Raft_Configuration :=
  match om_before (descriptions m) lastIncludedIndex with
  | None => (0, Raft_Configuration_init)
  | Some p => p
  end.

(** ** [ClusterClock] *)

Definition newEpoch (clusterTime : Z) : M R unit :=
  let! t := now in
  modify (fun s => s <| clusterClock := mkClusterClock clusterTime t |>).

(** [downCast<uint64_t>] of a negative count is an assertion failure. *)
Definition leaderStamp : M R Z :=
  let! localTime := now in
  let! s := get in
  let nanosSinceEpoch := localTime - localTimeAtEpoch (clusterClock s) in
  assert_ (0 <=? nanosSinceEpoch) ;;;
  let stamp := u64 (clusterTimeAtEpoch (clusterClock s) + nanosSinceEpoch) in
  put (s <| clusterClock := mkClusterClock stamp localTime |>) ;;;
  ret stamp.

Definition interpolate : M R Z :=
  let! localTime := now in
  let! s := get in
  let nanosSinceEpoch := localTime - localTimeAtEpoch (clusterClock s) in
  assert_ (0 <=? nanosSinceEpoch) ;;;
  ret (u64 (clusterTimeAtEpoch (clusterClock s) + nanosSinceEpoch)).

(** ** Private methods that must not acquire the lock *)

(** The end of [append] and of the truncations: a leader leaves the flush to
    the disk thread. *)
Definition queue_or_sync : M R unit :=
  let! s := get in
  if state_is LEADER s then modify (fun s => s <| logSyncQueued := true |>) else sync_now.

(** The configurations among the entries just appended from [index] on. *)
Fixpoint add_configurations (index : Z) (entries : list LogEntry) : M R unit :=
  match entries with
  | [] => ret tt
  | e :: rest =>
      when (bool_decide (type e = CONFIGURATION))
        (ConfigurationManager_add index (default Raft_Configuration_init (configuration_ e))) ;;;
      add_configurations (u64 (index + 1)) rest
  end.

Definition RaftConsensus_append (entries : list LogEntry) : M R unit :=
  forM entries (fun e => assert_ (negb (term e =? 0))) ;;;
  let! range := on_log (append entries) in
  queue_or_sync ;;;
  add_configurations range.1 entries ;;;
  notify_all.

(** [currentTerm], when a server voted, which leader it knows: the only method
    that moves to a newer term. [leaderDiskThreadWorking] is cleared by the
    disk thread; the wait for it is that clearing. *)
Definition discard_writer : M R unit :=
  let! s := get in
  match snapshotWriter s with
  | None => ret tt
  | Some w =>
      match Writer_discard (mkWriter (snapshot_dir s) (stagingName w) (is_open w)
                              (bytesWritten w) (sharedBytesWritten w)) with
      | Ok (_, w') => put (s <| snapshot_dir := dir w' |> <| snapshotWriter := None |>)
      | Fail f => fail f
      end
  end.

Definition stepDown (newTerm : Z) : M R unit :=
  let! s := get in
  assert_ (currentTerm s <=? newTerm) ;;;
  (if currentTerm s <? newTerm then
     modify (fun s => s <| currentTerm := newTerm |> <| leaderId := 0 |> <| votedFor := 0 |>) ;;;
     updateLogMetadata ;;;
     resetStagingServers ;;;
     discard_writer ;;;
     modify (fun s => s <| state := FOLLOWER |>)
   else modify (fun s => s <| state := FOLLOWER |>)) ;;;
  let! s := get in
  when (startElectionAt s =? TimePoint_max) setElectionTimer ;;;
  modify (fun s => if withholdVotesUntil s =? TimePoint_max
                   then s <| withholdVotesUntil := TimePoint_min |> else s) ;;;
  interruptAll ;;;
  modify (fun s => s <| leaderDiskThreadWorking := false |>) ;;;
  let! s := get in
  when (logSyncQueued s)
    (sync_now ;;; modify (fun s => s <| logSyncQueued := false |>)).

Definition configuration_quorumMin (f : Server -> Z) : M R Z :=
  let! s := get in ret (quorumMin (configuration s) f).

Definition advanceCommitIndex : M R unit :=
  let! s := get in
  if negb (state_is LEADER s) then ret tt else
  let newCommitIndex := quorumMin (configuration s) Server_getMatchIndex in
  if newCommitIndex <=? commitIndex s then ret tt else
  assert_ (getLogStartIndex (log s) <=? newCommitIndex) ;;;
  let! e := log_entry newCommitIndex in
  if negb (term e =? currentTerm s) then ret tt else
  modify (fun s => s <| commitIndex := newCommitIndex |>) ;;;
  assert_ (newCommitIndex <=? getLastLogIndex (log s)) ;;;
  notify_all ;;;
  let! s := get in
  if state_is LEADER s && (conf_id (configuration s) <=? commitIndex s) then
    if negb (hasVote (configuration s) (localServer (configuration s))) then
      stepDown (u64 (currentTerm s + 1))
    else if bool_decide (conf_state (configuration s) = TRANSITIONAL) then
      let! stamp := leaderStamp in
      RaftConsensus_append
        [mkLogEntry (currentTerm s) None stamp CONFIGURATION
           (Some (mkRaft_Configuration (next_servers (description (configuration s))) None)) None]
    else ret tt
  else ret tt.

Definition becomeLeader : M R unit :=
  let! s := get in
  assert_ (state_is CANDIDATE s) ;;;
  modify (fun s => s <| state := LEADER |> <| leaderId := raft_serverId s |>
    <| startElectionAt := TimePoint_max |> <| withholdVotesUntil := TimePoint_max |>) ;;;
  newEpoch (clusterTimeAtEpoch (clusterClock s)) ;;;
  forEach (Server_beginLeadership (getLastLogIndex (log s))) ;;;
  let! stamp := leaderStamp in
  RaftConsensus_append [mkLogEntry (currentTerm s) None stamp NOOP None None] ;;;
  interruptAll.

Definition startNewElection : M R unit :=
  let! s := get in
  if conf_id (configuration s) =? 0 then setElectionTimer else
  modify (fun s => s <| currentTerm := u64 (currentTerm s + 1) |> <| state := CANDIDATE |>
    <| leaderId := 0 |> <| votedFor := raft_serverId s |>) ;;;
  setElectionTimer ;;;
  forEach Server_beginRequestVote ;;;
  discard_writer ;;;
  updateLogMetadata ;;;
  interruptAll ;;;
  let! s := get in
  when (quorumAll (configuration s) (Server_haveVote (votedFor s))) becomeLeader.

Definition discardUnneededEntries : M R unit :=
  let! s := get in
  when (getLogStartIndex (log s) <=? lastSnapshotIndex s) (
    let first := u64 (lastSnapshotIndex s + 1) in
    on_log (truncatePrefix first) ;;;
    ConfigurationManager_truncatePrefix first ;;;
    notify_all ;;;
    queue_or_sync).

Definition getLastLogTerm : M R Z :=
  let! s := get in
  let lastLogIndex := getLastLogIndex (log s) in
  if getLogStartIndex (log s) <=? lastLogIndex then
    let! e := log_entry lastLogIndex in ret (term e)
  else
    assert_ (lastLogIndex =? lastSnapshotIndex s) ;;;
    ret (lastSnapshotTerm s).

(** [ByteSize] of a request with these entries, and of an entry, are the
    protobuf library's. *)
Section PackEntries.
Context (entry_ByteSize : LogEntry -> Z) (request_ByteSize : list LogEntry -> Z).

(** [n] is the number of indexes left to consider, from [index] on. *)
Fixpoint packEntries_loop (n : nat) (index : Z) (packed : list LogEntry) (currentSize : Z) :
    M R (list LogEntry) :=
  match n with
  | O => ret packed
  | S n =>
      let! entry := log_entry index in
      let requestEntries := packed ++ [entry] in
      let currentSize := u64 (currentSize + entry_ByteSize entry + 20) in
      if SOFT_RPC_SIZE_LIMIT opts <=? currentSize then
        let actualSize := request_ByteSize requestEntries in
        assert_ (actualSize <=? currentSize) ;;;
        if (SOFT_RPC_SIZE_LIMIT opts <=? actualSize) && negb (Nat.eqb (length packed) 0)
        then ret packed
        else packEntries_loop n (index + 1) requestEntries actualSize
      else packEntries_loop n (index + 1) requestEntries currentSize
  end.

Definition packEntries (nextIndex : Z) : M R (list LogEntry) :=
  let! s := get in
  let lastIndex := Z.min (getLastLogIndex (log s))
                         (u64 (nextIndex + MAX_LOG_ENTRIES_PER_REQUEST opts - 1)) in
  packEntries_loop (Z.to_nat (lastIndex - nextIndex + 1)) nextIndex [] (request_ByteSize []).
End PackEntries.

(** ** Snapshot files *)

(** Runs an operation of a [Writer] on the files of the snapshot directory. *)
Definition with_dir {A} (w : Writer) (m : M Writer A) : M R (A * Writer) :=
  let! s := get in
  match m (mkWriter (snapshot_dir s) (stagingName w) (is_open w)
             (bytesWritten w) (sharedBytesWritten w)) with
  | Ok (a, w') => put (s <| snapshot_dir := dir w' |>) ;;; ret (a, w')
  | Fail f => fail f
  end.

Definition new_Writer : M R Writer :=
  let! s := get in
  let! _ := now in
  match Writer_init (snapshot_dir s) (stagingNameAt (ticks s)) with
  | Ok w => modify (fun s => s <| snapshot_dir := dir w |>) ;;; ret w
  | Fail f => fail f
  end.

(** The version byte and the header of a snapshot file. *)
Definition read_header (rd : Reader) : outcome (Metadata_Header * Reader) :=
  match Reader_readRaw 1 rd with
  | Ok ([], _) => Fail Panicked
  | Ok (v :: _, rd) =>
      if negb (Ascii.eqb v "001") then Fail Panicked
      else match Reader_readMessage Metadata_Header rd with
           | Ok (inr header, rd) => Ok (header, rd)
           | Ok (inl _, _) => Fail Panicked
           | Fail f => Fail f
           end
  | Fail f => Fail f
  end.

(** Is the log too short for the snapshot, or does it disagree with it? *)
Definition log_disagrees : M R bool :=
  let! s := get in
  if getLastLogIndex (log s) <? lastSnapshotIndex s then ret true
  else if getLogStartIndex (log s) <=? lastSnapshotIndex s then
    let! e := log_entry (lastSnapshotIndex s) in
    ret (negb (term e =? lastSnapshotTerm s))
  else ret false.

Definition discard_log : M R unit :=
  let! s := get in
  on_log (truncatePrefix (u64 (lastSnapshotIndex s + 1))) ;;;
  on_log (truncateSuffix (lastSnapshotIndex s)) ;;;
  ConfigurationManager_truncatePrefix (u64 (lastSnapshotIndex s + 1)) ;;;
  ConfigurationManager_truncateSuffix (lastSnapshotIndex s) ;;;
  queue_or_sync ;;;
  newEpoch (lastSnapshotClusterTime s).

(** [if (reader) { ... }] *)
Definition load_header (rd : Reader) : M R Reader :=
  let! (header, rd) := lift (read_header rd) in
  let! s := get in
  if last_included_index header <? lastSnapshotIndex s then fail Panicked else
  modify (fun s => s
    <| lastSnapshotIndex := last_included_index header |>
    <| lastSnapshotTerm := last_included_term header |>
    <| lastSnapshotClusterTime := default 0 (last_cluster_time header) |>
    <| lastSnapshotBytes := Reader_getSizeBytes rd |>
    <| commitIndex := Z.max (last_included_index header) (commitIndex s) |>) ;;;
  let! disagrees := log_disagrees in
  when disagrees discard_log ;;;
  discardUnneededEntries ;;;
  match configuration_index header, header_configuration header with
  | Some i, Some c => ConfigurationManager_setSnapshot i c
  | _, _ => ret tt
  end ;;;
  notify_all ;;;
  ret rd.

Definition readSnapshot : M R unit :=
  let! s := get in
  let! reader :=
    match Reader_init (snapshot_dir s) with
    | None => ret None
    | Some rd => let! rd := load_header rd in ret (Some rd)
    end in
  let! s := get in
  if u64 (lastSnapshotIndex s + 1) <? getLogStartIndex (log s) then fail Panicked else
  modify (fun s => s <| snapshotReader := reader |>).

(** ** Requests from other servers *)

Definition heard_from_leader : M R unit :=
  setElectionTimer ;;;
  let! t := now in
  modify (fun s => s <| withholdVotesUntil := i64 (t + ELECTION_TIMEOUT opts) |>).

(** "All hail leader" *)
Definition record_leader (server_id : Z) : M R unit :=
  let! s := get in
  if leaderId s =? 0 then modify (fun s => s <| leaderId := server_id |>)
  else assert_ (leaderId s =? server_id).

(** The inner loop: this and all following entries, none of a type this code
    does not know. *)
Definition check_types (entries : list LogEntry) : M R unit :=
  forM entries (fun e => if bool_decide (type e = UNKNOWN) then fail Panicked else ret tt).

(** The loop over the request's entries; [index] is the one of the entry before. *)
Fixpoint append_loop (index : Z) (entries : list LogEntry) : M R unit :=
  match entries with
  | [] => ret tt
  | entry :: rest =>
      let index := u64 (index + 1) in
      match Log.index entry with
      | Some i => assert_ (i =? index)
      | None => ret tt
      end ;;;
      let! s := get in
      if index <? getLogStartIndex (log s) then append_loop index rest else
      let! skip :=
        (if index <=? getLastLogIndex (log s) then
           let! e := log_entry index in
           if term e =? term entry then ret true else
           assert_ (commitIndex s <? index) ;;;
           let lastIndexKept := index - 1 in
           modify (fun s => s <| numEntriesTruncated :=
             u64 (numEntriesTruncated s + (getLastLogIndex (log s) - lastIndexKept)) |>) ;;;
           on_log (truncateSuffix lastIndexKept) ;;;
           ConfigurationManager_truncateSuffix lastIndexKept ;;;
           ret false
         else ret false) in
      if skip : bool then append_loop index rest else
      check_types entries ;;;
      RaftConsensus_append entries ;;;
      newEpoch (cluster_time (List.last entries entry))
  end.

(** The server capabilities that every answer carries. *)
Definition local_capabilities (s : R) : ServerCapabilities :=
  let srv := the_server (configuration s) (localServer (configuration s)) in
  if haveStateMachineSupportedVersions srv
  then mkServerCapabilities (Some (minStateMachineVersion srv)) (Some (maxStateMachineVersion srv))
  else mkServerCapabilities None None.

(** Does the entry before the new ones agree? Index 0 and discarded indexes do. *)
Definition prev_entry_agrees (request : AppendEntries_Request) : M R bool :=
  let! s := get in
  if getLastLogIndex (log s) <? ae_prev_log_index request then ret false
  else if getLogStartIndex (log s) <=? ae_prev_log_index request then
    let! e := log_entry (ae_prev_log_index request) in
    ret (term e =? ae_prev_log_term request)
  else ret true.

Definition handleAppendEntries (request : AppendEntries_Request) : M R AppendEntries_Response :=
  let! s := get in
  assert_ (negb (exiting s)) ;;;
  let response := mkAppendEntries_Response (currentTerm s) false (Some (getLastLogIndex (log s)))
                    (Some (local_capabilities s)) in
  if ae_term request <? currentTerm s then ret response else
  let response := response <| aer_term := ae_term request |> in
  stepDown (ae_term request) ;;;
  heard_from_leader ;;;
  record_leader (ae_server_id request) ;;;
  let! agrees := prev_entry_agrees request in
  if negb agrees then ret response else
  append_loop (ae_prev_log_index request) (ae_entries request) ;;;
  let! s := get in
  let response := response <| aer_success := true |>
                           <| aer_last_log_index := Some (getLastLogIndex (log s)) |> in
  when (commitIndex s <? ae_commit_index request) (
    modify (fun s => s <| commitIndex := ae_commit_index request |>) ;;;
    assert_ (ae_commit_index request <=? getLastLogIndex (log s)) ;;;
    notify_all) ;;;
  heard_from_leader ;;;
  ret response.

(** [snapshotWriter], made if there is none. *)
Definition the_writer : M R Writer :=
  let! s := get in
  match snapshotWriter s with
  | Some w => ret w
  | None =>
      let! w := new_Writer in
      modify (fun s => s <| snapshotWriter := Some w |>) ;;;
      ret w
  end.

Definition handleInstallSnapshot (request : InstallSnapshot_Request) : M R InstallSnapshot_Response :=
  let! s := get in
  assert_ (negb (exiting s)) ;;;
  if is_term request <? currentTerm s then ret (mkInstallSnapshot_Response (currentTerm s) None) else
  stepDown (is_term request) ;;;
  heard_from_leader ;;;
  record_leader (is_server_id request) ;;;
  let! w := the_writer in
  let response := mkInstallSnapshot_Response (is_term request) (Some (bytesWritten w)) in
  if is_byte_offset request <? bytesWritten w then ret response else
  if bytesWritten w <? is_byte_offset request then
    if (match is_version request with Some v => v <? 2 | None => true end) then
      let! s := get in
      stepDown (u64 (currentTerm s + 1)) ;;;
      let! s := get in
      ret (mkInstallSnapshot_Response (currentTerm s) (isr_bytes_stored response))
    else ret response
  else
  let! (_, w) := with_dir w (Writer_writeRaw (is_data request)) in
  modify (fun s => s <| snapshotWriter := Some w |>) ;;;
  let response := mkInstallSnapshot_Response (is_term request) (Some (bytesWritten w)) in
  when (is_done request) (
    let! s := get in
    if is_last_snapshot_index request <? lastSnapshotIndex s then discard_writer
    else
      let! (_, w) := with_dir w Writer_save in
      modify (fun s => s <| snapshotWriter := None |>) ;;;
      readSnapshot ;;;
      notify_all) ;;;
  ret response.

Definition handleRequestVote (request : RequestVote_Request) : M R RequestVote_Response :=
  let! s := get in
  assert_ (negb (exiting s)) ;;;
  let lastLogIndex := getLastLogIndex (log s) in
  let! lastLogTerm := getLastLogTerm in
  let logIsOk := (lastLogTerm <? rv_last_log_term request) ||
                 ((rv_last_log_term request =? lastLogTerm) &&
                  (lastLogIndex <=? rv_last_log_index request)) in
  let! t := now in
  if t <? withholdVotesUntil s then
    ret (mkRequestVote_Response (currentTerm s) false (Some logIsOk))
  else
  when (currentTerm s <? rv_term request) (stepDown (rv_term request)) ;;;
  let! s := get in
  when ((rv_term request =? currentTerm s) && (logIsOk && (votedFor s =? 0))) (
    stepDown (currentTerm s) ;;;
    setElectionTimer ;;;
    modify (fun s => s <| votedFor := rv_server_id request |>) ;;;
    updateLogMetadata) ;;;
  let! s := get in
  ret (mkRequestVote_Response (currentTerm s)
         ((rv_term request =? currentTerm s) && (votedFor s =? rv_server_id request))
         (Some logIsOk)).

(** ** Requests to other servers

    [callRPC] sends the request and waits for the answer with the mutex
    released: as an operation on the state it is what the other threads do
    meanwhile. *)

Inductive RPCStatus : Type :=
| RPC_OK
| RPC_SERVICE_SPECIFIC_ERROR
| RPC_TIMEOUT
| RPC_FAILED
| RPC_CANCELED
| RPC_INVALID_SERVICE
| RPC_INVALID_REQUEST.

Inductive CallStatus : Type := CALL_OK | CALL_FAILED | CALL_INVALID_REQUEST.

Definition update_peer (r : ServerRef) (f : Peer -> Peer) : M R unit := update_server r (on_peer f).

(** [peer.member] through the reference the thread holds. *)
Definition get_peer (r : ServerRef) : M R Peer :=
  let! s := get in
  match servers (configuration s) !! r with
  | Some srv => match kind srv with PeerServer p => ret p | LocalServer _ => fail UndefinedBehavior end
  | None => fail UndefinedBehavior
  end.

Definition Peer_callRPC {Resp} (r : ServerRef) (waitForReply : M R (RPCStatus * Resp)) :
    M R (CallStatus * Resp) :=
  let! (status, response) := waitForReply in
  match status with
  | RPC_OK =>
      update_peer r (fun p => p <| rpcFailuresSinceLastWarning := 0 |>) ;;;
      ret (CALL_OK, response)
  | RPC_FAILED =>
      update_peer r (fun p => p <| rpcFailuresSinceLastWarning :=
                                     u64 (rpcFailuresSinceLastWarning p + 1) |>) ;;;
      ret (CALL_FAILED, response)
  | RPC_CANCELED => ret (CALL_FAILED, response)
  | RPC_INVALID_REQUEST => ret (CALL_INVALID_REQUEST, response)
  | RPC_SERVICE_SPECIFIC_ERROR | RPC_TIMEOUT | RPC_INVALID_SERVICE => fail Panicked
  end.

(** The common reaction to a failed call. *)
Definition call_failed (r : ServerRef) (start : Z) : M R unit :=
  update_peer r (fun p => p <| suppressBulkData := true |>
                            <| backoffUntil := i64 (start + RPC_FAILURE_BACKOFF opts) |>).

Definition requestVote (r : ServerRef)
    (send : RequestVote_Request -> M R (RPCStatus * RequestVote_Response)) : M R unit :=
  let! s := get in
  let! lastLogTerm := getLastLogTerm in
  let request := mkRequestVote_Request (raft_serverId s) (currentTerm s) lastLogTerm
                   (getLastLogIndex (log s)) in
  let! start := now in
  let epoch := currentEpoch s in
  let! (status, response) := Peer_callRPC r (send request) in
  match status with
  | CALL_FAILED => call_failed r start
  | CALL_INVALID_REQUEST => fail Panicked
  | CALL_OK =>
      let! s := get in
      let! p := get_peer r in
      if negb (currentTerm s =? rv_term request) || negb (state_is CANDIDATE s) || peer_exiting p
      then ret tt
      else if currentTerm s <? rvr_term response then stepDown (rvr_term response)
      else
        update_peer r (fun p => p <| requestVoteDone := true |> <| lastAckEpoch := epoch |>) ;;;
        notify_all ;;;
        when (rvr_granted response) (
          update_peer r (fun p => p <| haveVote_ := true |>) ;;;
          let! s := get in
          when (quorumAll (configuration s) (Server_haveVote (votedFor s))) becomeLeader)
  end.

Definition installSnapshot (r : ServerRef)
    (send : InstallSnapshot_Request -> M R (RPCStatus * InstallSnapshot_Response)) : M R unit :=
  let! s := get in
  let! p := get_peer r in
  let! file :=
    match snapshotFile p with
    | Some f => ret f
    | None =>
        match snapshot_dir s !! "snapshot" with
        | None => fail Panicked
        | Some f =>
            update_peer r (fun p => p <| snapshotFile := Some f |> <| snapshotFileOffset := 0 |>
                                      <| peer_lastSnapshotIndex := lastSnapshotIndex s |>) ;;;
            ret f
        end
    end in
  let! p := get_peer r in
  let fileLength := Z.of_nat (length file) in
  let numDataBytes :=
    if suppressBulkData p then 0
    else Z.min (u64 (fileLength - snapshotFileOffset p)) (SOFT_RPC_SIZE_LIMIT opts) in
  let! chunk := lift (FileContents_get file (snapshotFileOffset p) numDataBytes) in
  let request := mkInstallSnapshot_Request (raft_serverId s) (currentTerm s)
                   (peer_lastSnapshotIndex p) (snapshotFileOffset p) chunk
                   (u64 (snapshotFileOffset p + numDataBytes) =? fileLength) (Some 2) in
  let! start := now in
  let epoch := currentEpoch s in
  let! (status, response) := Peer_callRPC r (send request) in
  match status with
  | CALL_FAILED => call_failed r start
  | CALL_INVALID_REQUEST => fail Panicked
  | CALL_OK =>
      let! s := get in
      let! p := get_peer r in
      if negb (currentTerm s =? is_term request) || peer_exiting p then ret tt else
      assert_ (state_is LEADER s) ;;;
      if currentTerm s <? isr_term response then stepDown (isr_term response) else
      assert_ (isr_term response =? currentTerm s) ;;;
      let offset := match isr_bytes_stored response with
                    | Some b => b
                    | None => u64 (snapshotFileOffset p + numDataBytes)
                    end in
      update_peer r (fun p => p <| lastAckEpoch := epoch |>
        <| nextHeartbeatTime := i64 (start + HEARTBEAT_PERIOD opts) |>
        <| suppressBulkData := false |> <| snapshotFileOffset := offset |>) ;;;
      notify_all ;;;
      let! p := get_peer r in
      match snapshotFile p with
      | None => fail UndefinedBehavior
      | Some f =>
          when (offset =? Z.of_nat (length f)) (
            update_peer r (fun p => p <| matchIndex := peer_lastSnapshotIndex p |>
              <| nextIndex := u64 (peer_lastSnapshotIndex p + 1) |>) ;;;
            advanceCommitIndex ;;;
            update_peer r (fun p => p <| snapshotFile := None |> <| snapshotFileOffset := 0 |>
                                      <| peer_lastSnapshotIndex := 0 |>))
      end
  end.

(** [labs(int64_t(a - b)) * 1000L * 1000L < nanos], in 64-bit arithmetic. *)
Definition catch_up_close (last this : Z) : bool :=
  i64 (i64 (Z.abs (i64 (u64 (last - this))) * 1000) * 1000) <? ELECTION_TIMEOUT opts.

(** The catch-up rounds of a new server: is the last one about as short as an
    election timeout? *)
Definition update_catch_up (r : ServerRef) : M R unit :=
  let! p := get_peer r in
  when (negb (isCaughtUp_ p) && (thisCatchUpIterationGoalId p <=? matchIndex p)) (
    let! t := now in
    let thisMs := u64 (Z.quot (t - thisCatchUpIterationStart p) 1000000) in
    if catch_up_close (lastCatchUpIterationMs p) thisMs then
      update_peer r (fun p => p <| isCaughtUp_ := true |>) ;;;
      notify_all
    else
      let! t := now in
      let! s := get in
      update_peer r (fun p => p <| lastCatchUpIterationMs := thisMs |>
        <| thisCatchUpIterationStart := t |>
        <| thisCatchUpIterationGoalId := getLastLogIndex (log s) |>)).

(** The answer of the same term: [matched] is the last index the request covered. *)
Definition process_append_response (r : ServerRef) (response : AppendEntries_Response)
    (matched : Z) : M R unit :=
  if aer_success response then
    let! p := get_peer r in
    (if matched <? matchIndex p then ret tt
     else
       update_peer r (fun p => p <| matchIndex := matched |>) ;;;
       advanceCommitIndex) ;;;
    update_peer r (fun p => p <| nextIndex := u64 (matchIndex p + 1) |>
                              <| suppressBulkData := false |>) ;;;
    update_catch_up r
  else
    update_peer r (fun p =>
      let next := if 1 <? nextIndex p then nextIndex p - 1 else nextIndex p in
      p <| nextIndex :=
        match aer_last_log_index response with
        | Some i => if u64 (i + 1) <? next then u64 (i + 1) else next
        | None => next
        end |>).

Definition downCast_u16 (x : Z) : outcome Z :=
  if u16 x =? x then Ok (u16 x) else Fail AssertFailed.

Definition record_capabilities (r : ServerRef) (cap : option ServerCapabilities) : M R unit :=
  match cap with
  | Some (mkServerCapabilities (Some lo) (Some hi)) =>
      let! lo := lift (downCast_u16 lo) in
      let! hi := lift (downCast_u16 hi) in
      update_server r (fun srv => srv <| haveStateMachineSupportedVersions := true |>
        <| minStateMachineVersion := lo |> <| maxStateMachineVersion := hi |>) ;;;
      notify_all
  | _ => ret tt
  end.

Section AppendEntries.
Context (entry_ByteSize : LogEntry -> Z) (request_ByteSize : list LogEntry -> Z).
Context (send : AppendEntries_Request -> M R (RPCStatus * AppendEntries_Response)).
Context (send_snapshot : InstallSnapshot_Request -> M R (RPCStatus * InstallSnapshot_Response)).

(** [None] when a snapshot has to be sent instead. *)
Definition prev_log_term (prevLogIndex : Z) : M R (option Z) :=
  let! s := get in
  if getLogStartIndex (log s) <=? prevLogIndex then
    let! e := log_entry prevLogIndex in ret (Some (term e))
  else if prevLogIndex =? 0 then ret (Some 0)
  else if prevLogIndex =? lastSnapshotIndex s then ret (Some (lastSnapshotTerm s))
  else ret None.

Definition appendEntries (r : ServerRef) : M R unit :=
  let! s := get in
  let! p := get_peer r in
  let prevLogIndex := u64 (nextIndex p - 1) in
  assert_ (prevLogIndex <=? getLastLogIndex (log s)) ;;;
  if nextIndex p <? getLogStartIndex (log s) then installSnapshot r send_snapshot else
  let! prevLogTerm := prev_log_term prevLogIndex in
  match prevLogTerm with
  | None => installSnapshot r send_snapshot
  | Some prevLogTerm =>
      let! packed := (if suppressBulkData p then ret []
                      else packEntries entry_ByteSize request_ByteSize (nextIndex p)) in
      let matched := u64 (prevLogIndex + Z.of_nat (length packed)) in
      let request := mkAppendEntries_Request (raft_serverId s) (currentTerm s) prevLogIndex
                       prevLogTerm packed (Z.min (commitIndex s) matched) in
      let! start := now in
      let epoch := currentEpoch s in
      let! (status, response) := Peer_callRPC r (send request) in
      match status with
      | CALL_FAILED => call_failed r start
      | CALL_INVALID_REQUEST => fail Panicked
      | CALL_OK =>
          let! s := get in
          let! p := get_peer r in
          if negb (currentTerm s =? ae_term request) || peer_exiting p then ret tt else
          assert_ (state_is LEADER s) ;;;
          (if currentTerm s <? aer_term response then stepDown (aer_term response)
           else
             assert_ (aer_term response =? currentTerm s) ;;;
             update_peer r (fun p => p <| lastAckEpoch := epoch |>) ;;;
             notify_all ;;;
             update_peer r (fun p => p <| nextHeartbeatTime := i64 (start + HEARTBEAT_PERIOD opts) |>) ;;;
             process_append_response r response matched) ;;;
          record_capabilities r (aer_server_capabilities response)
      end
  end.
End AppendEntries.

(** ** Requests from clients and from the state machine *)

(** [stateChanged.wait]: what the others do until the next wake-up. *)
Definition upToDate_commitTerm : M R Z :=
  let! s := get in
  if commitIndex s =? lastSnapshotIndex s then ret (lastSnapshotTerm s)
  else
    assert_ (lastSnapshotIndex s <? commitIndex s) ;;;
    assert_ (getLogStartIndex (log s) <=? commitIndex s) ;;;
    assert_ (commitIndex s <=? getLastLogIndex (log s)) ;;;
    let! e := log_entry (commitIndex s) in
    ret (term e).

Fixpoint upToDateLeader_loop (epoch : Z) (sched : list (M R unit)) : M R bool :=
  let! s := get in
  if exiting s || negb (state_is LEADER s) then ret false else
  let! confirmed :=
    (if epoch <=? quorumMin (configuration s) (Server_getLastAckEpoch (currentEpoch s)) then
       let! commitTerm := upToDate_commitTerm in
       ret (commitTerm =? currentTerm s)
     else ret false) in
  if confirmed : bool then ret true else
  match sched with
  | [] => fail Blocked
  | env :: sched' => env ;;; upToDateLeader_loop epoch sched'
  end.

Definition scheduleHeartbeats : M R unit :=
  let! s := get in
  forM (map snd (knownServers (configuration s))) (fun r =>
    let! srv := get in
    match kind (the_server (configuration srv) r) with
    | LocalServer _ => ret tt
    | PeerServer _ => let! t := now in update_server r (Server_scheduleHeartbeat t)
    end).

Definition upToDateLeader (sched : list (M R unit)) : M R bool :=
  modify (fun s => s <| currentEpoch := u64 (currentEpoch s + 1) |>) ;;;
  let! s := get in
  scheduleHeartbeats ;;;
  notify_all ;;;
  upToDateLeader_loop (currentEpoch s) sched.

Definition getConfiguration (sched : list (M R unit)) :
    M R (ClientResult * option (Raft_SimpleConfiguration * Z)) :=
  let! leader := upToDateLeader sched in
  if negb leader then ret (NOT_LEADER, None) else
  let! s := get in
  if negb (bool_decide (conf_state (configuration s) = STABLE)) ||
     (commitIndex s <? conf_id (configuration s))
  then ret (RETRY, None)
  else ret (SUCCESS, Some (prev_configuration (description (configuration s)),
                           conf_id (configuration s))).

Definition getLastCommitIndex (sched : list (M R unit)) : M R (ClientResult * Z) :=
  let! leader := upToDateLeader sched in
  if negb leader then ret (NOT_LEADER, 0) else
  let! s := get in
  ret (SUCCESS, commitIndex s).

Definition getLeaderHint (s : R) : string := lookupAddress (configuration s) (leaderId s).

(** The entry after [lastIndex], once it is committed. *)
Definition committed_entry (nextIndex : Z) : M R Entry :=
  let! s := get in
  if nextIndex <? getLogStartIndex (log s) then
    (match snapshotReader s with None => readSnapshot | Some _ => ret tt end) ;;;
    let! s := get in
    put (s <| snapshotReader := None |>) ;;;
    ret (mkEntry Entry.SNAPSHOT (lastSnapshotIndex s) [] (snapshotReader s)
           (lastSnapshotClusterTime s))
  else
    let! e := log_entry nextIndex in
    if bool_decide (type e = Log.DATA)
    then ret (mkEntry Entry.DATA nextIndex (default [] (data e)) None (cluster_time e))
    else ret (mkEntry Entry.SKIP nextIndex [] None (cluster_time e)).

Fixpoint RaftConsensus_getNextEntry (lastIndex : Z) (sched : list (M R unit)) : M R (option Entry) :=
  let! s := get in
  let nextIndex := u64 (lastIndex + 1) in
  if exiting s then ret None
  else if nextIndex <=? commitIndex s then let! e := committed_entry nextIndex in ret (Some e)
  else match sched with
  | [] => fail Blocked
  | env :: sched' => env ;;; RaftConsensus_getNextEntry lastIndex sched'
  end.

Definition RaftConsensus_getSnapshotStats (s : R) : SnapshotStats :=
  mkSnapshotStats (lastSnapshotIndex s) (lastSnapshotBytes s) (getLogStartIndex (log s))
    (getLastLogIndex (log s)) (getSizeBytes (log s)) (state_is LEADER s).

Fixpoint wait_committed (term index : Z) (sched : list (M R unit)) : M R (ClientResult * Z) :=
  let! s := get in
  if negb (exiting s) && (currentTerm s =? term) then
    if index <=? commitIndex s then ret (SUCCESS, index)
    else match sched with
    | [] => fail Blocked
    | env :: sched' => env ;;; wait_committed term index sched'
    end
  else ret (NOT_LEADER, 0).

(** The fields the caller leaves to it are the term and the cluster time. *)
Definition replicateEntry (entry : LogEntry) (sched : list (M R unit)) : M R (ClientResult * Z) :=
  let! s := get in
  if state_is LEADER s then
    let! stamp := leaderStamp in
    RaftConsensus_append [entry <| term := currentTerm s |> <| cluster_time := stamp |>] ;;;
    let! s' := get in
    wait_committed (currentTerm s) (getLastLogIndex (log s')) sched
  else ret (NOT_LEADER, 0).

Definition replicate (operation : bytes) (sched : list (M R unit)) : M R (ClientResult * Z) :=
  replicateEntry (mkLogEntry 0 None 0 Log.DATA None (Some operation)) sched.

(** The servers that made no progress since [epoch]. [all] stops at the first. *)
Fixpoint staging_stuck (epoch : Z) (currentEpoch : Z) (l : list Server) : option Raft_Server :=
  match l with
  | [] => None
  | srv :: l' =>
      if Server_getLastAckEpoch currentEpoch srv <? epoch
      then Some (mkRaft_Server (serverId srv) (addresses srv))
      else staging_stuck epoch currentEpoch l'
  end.

(** The first wait of [setConfiguration]: [None] when every new server has
    caught up. *)
Fixpoint wait_caught_up (term epoch checkProgressAt : Z) (sched : list (M R unit)) :
    M R (option (ClientResult * SetConfiguration_Response)) :=
  let! s := get in
  if exiting s || negb (term =? currentTerm s) then ret (Some (NOT_LEADER, SC_unset)) else
  if stagingAll (configuration s) Server_isCaughtUp then ret None else
  let! t := now in
  let! next :=
    (if checkProgressAt <=? t then
       match (if bool_decide (conf_state (configuration s) = STAGING)
              then staging_stuck epoch (currentEpoch s)
                     (map (the_server (configuration s)) (newServers (configuration s)))
              else None) with
       | Some bad =>
           resetStagingServers ;;;
           notify_all ;;;
           ret (inl (FAIL, SC_configuration_bad [bad]))
       | None =>
           modify (fun s => s <| currentEpoch := u64 (currentEpoch s + 1) |>) ;;;
           let! s := get in
           let! t := now in
           ret (inr (currentEpoch s, i64 (t + ELECTION_TIMEOUT opts)))
       end
     else ret (inr (epoch, checkProgressAt))) in
  match next with
  | inl res => ret (Some res)
  | inr (epoch, checkProgressAt) =>
      match sched with
      | [] => fail Blocked
      | env :: sched' => env ;;; wait_caught_up term epoch checkProgressAt sched'
      end
  end.

Fixpoint wait_stable (term transitionalId : Z) (sched : list (M R unit)) :
    M R (ClientResult * SetConfiguration_Response) :=
  let! s := get in
  if (transitionalId <? conf_id (configuration s)) && (conf_id (configuration s) <=? commitIndex s)
  then ret (SUCCESS, SC_ok)
  else if exiting s || negb (term =? currentTerm s) then ret (NOT_LEADER, SC_unset)
  else match sched with
  | [] => fail Blocked
  | env :: sched' => env ;;; wait_stable term transitionalId sched'
  end.

(** The three waits have a schedule each. *)
Definition setConfiguration (request : SetConfiguration_Request)
    (catch_up commit stable : list (M R unit)) : M R (ClientResult * SetConfiguration_Response) :=
  let! s := get in
  if exiting s || negb (state_is LEADER s) then ret (NOT_LEADER, SC_unset) else
  if negb (conf_id (configuration s) =? old_id request) then 
    ret (FAIL, SC_configuration_changed
      ("The current configuration has ID " +:+ print_lu (conf_id (configuration s)) +:+ " (no longer " +:+
       print_lu (old_id request) +:+ ") and it's " +:+ conf_State_toString (conf_state (configuration s)))) else
  if negb (bool_decide (conf_state (configuration s) = STABLE)) then
    ret (FAIL, SC_configuration_changed
      ("The current configuration (" +:+ print_lu (conf_id (configuration s)) +:+ ") is not stable (it's " +:+
       conf_State_toString (conf_state (configuration s)) +:+ ")")) else
  setStagingServers (new_servers request) ;;;
  notify_all ;;;
  let term := currentTerm s in
  modify (fun s => s <| currentEpoch := u64 (currentEpoch s + 1) |>) ;;;
  let! s := get in
  let! t := now in
  let! aborted := wait_caught_up term (currentEpoch s) (i64 (t + ELECTION_TIMEOUT opts)) catch_up in
  match aborted with
  | Some res => ret res
  | None =>
      let! s := get in
      let entry := mkLogEntry 0 None 0 CONFIGURATION
        (Some (mkRaft_Configuration (prev_configuration (description (configuration s)))
                                    (Some (new_servers request)))) None in
      let! (result, transitionalId) := replicateEntry entry commit in
      match result with
      | SUCCESS => wait_stable term transitionalId stable
      | NOT_LEADER => ret (NOT_LEADER, SC_unset)
      | _ => ret (result, SC_configuration_changed
          ("Couldn't successfully replicate the transitional configuration (" +:+
           ClientResult_toString result +:+ ")"))
      end
  end.

Definition RaftConsensus_setSupportedStateMachineVersions (minSupported maxSupported : Z) : M R unit :=
  let! s := get in
  let srv := the_server (configuration s) (localServer (configuration s)) in
  when (negb (haveStateMachineSupportedVersions srv) ||
        negb (minStateMachineVersion srv =? minSupported) ||
        negb (maxStateMachineVersion srv =? maxSupported)) (
    update_server (localServer (configuration s)) (fun srv => srv
      <| haveStateMachineSupportedVersions := true |>
      <| minStateMachineVersion := minSupported |> <| maxStateMachineVersion := maxSupported |>) ;;;
    notify_all).

(** The term and cluster time of the last entry a snapshot covers. *)
Definition snapshot_term_and_time (lastIncludedIndex : Z) : M R (Z * Z) :=
  let! s := get in
  if (getLogStartIndex (log s) <=? lastIncludedIndex) &&
     (lastIncludedIndex <=? getLastLogIndex (log s)) then
    let! e := log_entry lastIncludedIndex in
    ret (term e, cluster_time e)
  else if lastIncludedIndex =? 0 then ret (0, 0)
  else if lastIncludedIndex =? lastSnapshotIndex s
  then ret (lastSnapshotTerm s, lastSnapshotClusterTime s)
  else ret (0, 0).

Definition RaftConsensus_beginSnapshot (lastIncludedIndex : Z) : M R Writer :=
  let! writer := new_Writer in
  let! s := get in
  if commitIndex s <? lastIncludedIndex then fail Panicked else
  let! (_, writer) := with_dir writer (Writer_writeRaw ["001"%char]) in
  let! (t, time) := snapshot_term_and_time lastIncludedIndex in
  let c := getLatestConfigurationAsOf lastIncludedIndex (configurationManager s) in
  let header := mkMetadata_Header lastIncludedIndex t (Some time)
    (if c.1 =? 0 then None else Some c.2) (if c.1 =? 0 then None else Some c.1) in
  let! (_, writer) := with_dir writer (Writer_writeMessage header) in
  ret writer.

Definition RaftConsensus_snapshotDone (lastIncludedIndex : Z) (writer : Writer) : M R unit :=
  let! s := get in
  if lastIncludedIndex <=? lastSnapshotIndex s then
    let! _ := with_dir writer Writer_discard in ret tt
  else
  assert_ (getLogStartIndex (log s) <=? lastIncludedIndex) ;;;
  assert_ (lastIncludedIndex <=? getLastLogIndex (log s)) ;;;
  let! (size, _) := with_dir writer Writer_save in
  let! lastEntry := log_entry lastIncludedIndex in
  modify (fun s => s <| lastSnapshotBytes := size |> <| lastSnapshotIndex := lastIncludedIndex |>
    <| lastSnapshotTerm := term lastEntry |> <| lastSnapshotClusterTime := cluster_time lastEntry |>) ;;;
  let c := getLatestConfigurationAsOf lastIncludedIndex (configurationManager s) in
  when (negb (c.1 =? 0)) (ConfigurationManager_setSnapshot c.1 c.2) ;;;
  discardUnneededEntries.

(** ** Threads

    One turn of each thread's loop; the waits between turns are the caller's
    interleaving of steps. *)

Definition timerThread_step : M R unit :=
  let! t := now in
  let! s := get in
  when (startElectionAt s <=? t) startNewElection.

(** [sync->wait()] runs with the mutex released: [unlocked] is what the other
    threads do before and [unlocked'] what they do after it. *)
Definition leaderDiskThread_step (unlocked unlocked' : M R unit) : M R unit :=
  let! s := get in
  when (state_is LEADER s && logSyncQueued s) (
    let term := currentTerm s in
    let! sync := on_log takeSync in
    modify (fun s => s <| logSyncQueued := false |> <| leaderDiskThreadWorking := true |>) ;;;
    unlocked ;;;
    on_log (sync_wait sync) ;;;
    modify (fun s => s <| leaderDiskThreadWorking := false |>) ;;;
    unlocked' ;;;
    let! s := get in
    when (state_is LEADER s && (currentTerm s =? term)) (
      update_server (localServer (configuration s))
        (fun srv => srv <| kind := LocalServer (sync_lastIndex sync) |>) ;;;
      advanceCommitIndex) ;;;
    on_log (syncComplete sync)).

(** [Some t]: wait until [t]; [None]: the thread ends. *)
Definition peerThread_step (r : ServerRef) (requestVote_r appendEntries_r : M R unit) : M R (option Z) :=
  let! p := get_peer r in
  if peer_exiting p then
    modify (fun s => s <| numPeerThreads := u32 (numPeerThreads s - 1) |>) ;;;
    notify_all ;;;
    ret None
  else
    let! t := now in
    if t <? backoffUntil p then ret (Some (backoffUntil p)) else
    let! s := get in
    match state s with
    | FOLLOWER => ret (Some TimePoint_max)
    | CANDIDATE =>
        if requestVoteDone p then ret (Some TimePoint_max)
        else requestVote_r ;;; ret (Some TimePoint_min)
    | LEADER =>
        if (matchIndex p <? getLastLogIndex (log s)) || (nextHeartbeatTime p <? t)
        then appendEntries_r ;;; ret (Some TimePoint_min)
        else ret (Some (nextHeartbeatTime p))
    end.

(** Where [stepDownThreadMain] is in its two nested loops. *)
Inductive StepDownThread : Type :=
| WaitForLeadership
| Confirming (stepDownAt term epoch : Z)
| StepDownThreadDone.

Definition stepDownThread_step (l : StepDownThread) : M R StepDownThread :=
  let! s := get in
  match l with
  | StepDownThreadDone => ret StepDownThreadDone
  | WaitForLeadership =>
      if exiting s then ret StepDownThreadDone else
      if state_is LEADER s then
        let epoch := u64 (currentEpoch s + 1) in
        modify (fun s => s <| currentEpoch := epoch |>) ;;;
        if quorumMin (configuration s) (Server_getLastAckEpoch epoch) <? epoch then
          let! t := now in
          ret (Confirming (i64 (t + ELECTION_TIMEOUT opts)) (currentTerm s) epoch)
        else ret WaitForLeadership
      else ret WaitForLeadership
  | Confirming stepDownAt term epoch =>
      if exiting s then ret StepDownThreadDone
      else if term <? currentTerm s then ret WaitForLeadership
      else if epoch <=? quorumMin (configuration s) (Server_getLastAckEpoch (currentEpoch s))
      then ret WaitForLeadership
      else
        let! t := now in
        if stepDownAt <=? t then
          stepDown (u64 (currentTerm s + 1)) ;;;
          ret WaitForLeadership
        else ret l
  end.

(** [StateMachineVersionIntersection] over the known servers. *)
Record VersionIntersection : Type := mkVersionIntersection {
  missingCount : Z;
  allCount : Z;
  minVersion : Z;
  maxVersion : Z
}.

Definition intersect_versions (v : VersionIntersection) (srv : Server) : VersionIntersection :=
  if haveStateMachineSupportedVersions srv
  then mkVersionIntersection (missingCount v) (allCount v + 1)
         (Z.max (minStateMachineVersion srv) (minVersion v))
         (Z.min (maxStateMachineVersion srv) (maxVersion v))
  else mkVersionIntersection (missingCount v + 1) (allCount v + 1) (minVersion v) (maxVersion v).

Definition version_intersection (c : Configuration) : VersionIntersection :=
  fold_left (fun v p => intersect_versions v (the_server c p.2)) (knownServers c)
    (mkVersionIntersection 0 0 0 u16_max).

(** The locals of [stateMachineUpdaterThreadMain]. [advance_command] is the
    serialised command that asks for a version. *)
Record Updater : Type := mkUpdater { lastVersionCommitted : Z; updater_backoffUntil : Z }.

Definition stateMachineUpdaterThread_step (advance_command : Z -> bytes) (u : Updater)
    (sched : list (M R unit)) : M R Updater :=
  let! t := now in
  let! s := get in
  let backoff := mkUpdater (lastVersionCommitted u) (i64 (t + STATE_MACHINE_UPDATER_BACKOFF opts)) in
  if (updater_backoffUntil u <=? t) && state_is LEADER s then
    let v := version_intersection (configuration s) in
    if negb (missingCount v =? 0) then ret backoff
    else if maxVersion v <? minVersion v then ret backoff
    else if lastVersionCommitted u <? maxVersion v then
      let! stamp := leaderStamp in
      let entry := mkLogEntry (currentTerm s) None stamp Log.DATA None
                     (Some (advance_command (maxVersion v))) in
      let! (result, _) := replicateEntry entry sched in
      match result with
      | SUCCESS => ret (mkUpdater (maxVersion v) (updater_backoffUntil u))
      | _ => ret backoff
      end
    else ret u
  else ret u.

(** ** Starting and stopping *)

(** The log's entries, from [index] on: their configurations. *)
Fixpoint read_configurations (n : nat) (index : Z) : M R unit :=
  match n with
  | O => ret tt
  | S n =>
      let! e := log_entry index in
      (if bool_decide (type e = UNKNOWN) then fail Panicked else ret tt) ;;;
      when (bool_decide (type e = CONFIGURATION))
        (ConfigurationManager_add index (default Raft_Configuration_init (configuration_ e))) ;;;
      read_configurations n (index + 1)
  end.

(** On the object the constructor made, with its log opened. *)
Definition init : M R unit :=
  modify (fun s => s <| configuration := Configuration_init (raft_serverId s) |>
                     <| configurationManager := ConfigurationManager_init |>) ;;;
  let! s := get in
  let first := getLogStartIndex (log s) in
  let last := getLastLogIndex (log s) in
  read_configurations (Z.to_nat (last - first + 1)) first ;;;
  (if first <=? last then let! e := log_entry last in newEpoch (cluster_time e) else ret tt) ;;;
  modify (fun s =>
    s <| currentTerm := default (currentTerm s) (meta_current_term (metadata (log s))) |>
      <| votedFor := default (votedFor s) (meta_voted_for (metadata (log s))) |>) ;;;
  updateLogMetadata ;;;
  readSnapshot ;;;
  modify (fun s => s <| snapshot_dir := discardPartialSnapshots (snapshot_dir s) |>) ;;;
  let! s := get in
  stepDown (currentTerm s) ;;;
  notify_all.

Definition RaftConsensus_exit : M R unit :=
  modify (fun s => s <| exiting := true |>) ;;;
  forEach Server_exit ;;;
  interruptAll.

Definition bootstrapConfiguration : M R unit :=
  let! s := get in
  if negb (currentTerm s =? 0) || negb (getLogStartIndex (log s) =? 1) ||
     negb (getLastLogIndex (log s) =? 0) || negb (lastSnapshotIndex s =? 0)
  then fail Panicked
  else
    stepDown 1 ;;;
    RaftConsensus_append
      [mkLogEntry 1 None 0 CONFIGURATION
         (Some (mkRaft_Configuration
                  [mkRaft_Server (raft_serverId s) (raft_serverAddresses s)] None)) None].

(** What the state machine sees of this. The waits follow [sched]. *)
Definition RaftConsensus_consensus (sched : list (M R unit)) : Consensus R :=
  {| setSupportedStateMachineVersions := RaftConsensus_setSupportedStateMachineVersions;
     getNextEntry lastIndex := RaftConsensus_getNextEntry lastIndex sched;
     getSnapshotStats := RaftConsensus_getSnapshotStats;
     beginSnapshot := RaftConsensus_beginSnapshot;
     snapshotDone := RaftConsensus_snapshotDone;
     snapshotDir := snapshot_dir;
     set_snapshotDir d s := s <| snapshot_dir := d |> |}.
End Raft.
