(* ===== verification/RaftFrame.v ===== *)
(** * Helpers of the consensus module that leave its core alone

    Changing the servers of a configuration, notifying, reading the clock,
    setting timers and writing snapshot files touch neither the log nor the
    members that decide elections and commitment. Each is a fact in the hint
    database [frame], from which the theorems about the operations take them. *)

From Stdlib Require Import ZArith Lia Ascii String.
From stdpp Require Import base gmap strings list fin_maps sorting.
From S2P Require Import Prelude OrderedMap StringUtil Stream SnapshotFile Consensus Log Configuration Raft.
Local Open Scope string_scope.
Local Open Scope Z_scope.
Local Open Scope list_scope.

Create HintDb frame.

Section Frame.
Context {L : Type} `{LogOps L} `{ProtoBuf Metadata_Header}.
Context (opts : RaftOptions) (clock : nat -> Z) (randomRange : nat -> Z -> Z -> Z).
Context (stagingNameAt : nat -> string).

Abbreviation R := (RaftConsensus L).

(** The log, the term, the vote, the commit index and what the last snapshot
    covers are as before. *)
Definition frame (s s' : R) : Prop :=
  raft_serverId s' = raft_serverId s /\ exiting s' = exiting s /\ log s' = log s /\
  currentTerm s' = currentTerm s /\ state s' = state s /\ commitIndex s' = commitIndex s /\
  leaderId s' = leaderId s /\ votedFor s' = votedFor s /\ currentEpoch s' = currentEpoch s /\
  logSyncQueued s' = logSyncQueued s /\
  lastSnapshotIndex s' = lastSnapshotIndex s /\ lastSnapshotTerm s' = lastSnapshotTerm s /\
  lastSnapshotClusterTime s' = lastSnapshotClusterTime s.

#[local] Instance frame_preorder : PreOrder frame.
Proof.
  split; [by intros s|]. intros s1 s2 s3. unfold frame. intros; destruct_and!.
  split_and!; congruence.
Qed.

Lemma frame_refl s : frame s s.
Proof. reflexivity. Qed.

Ltac frame_close :=
  unfold frame in *; destruct_and?; simpl in *; split_and?; congruence.

(** One step of symbolic execution; an operation with a [keeps] lemma in the
    hint database [frame] is one step. *)
Ltac frame_step :=
  first
    [ wp_step; try exact I
    | apply (wp_keeps frame); [solve [auto with frame]|intros ? ? ?] ].
Ltac frame_go := intros ?; repeat frame_step; try frame_close.

Lemma frame_modify f : (forall s, frame s (f s)) -> keeps frame (modify f).
Proof. intros Hf s. apply wp_modify. apply Hf. Qed.

Lemma frame_now : keeps frame (now clock).
Proof. intros s. unfold now. repeat wp_step. frame_close. Qed.

Lemma frame_notify : keeps frame notify_all.
Proof. by apply frame_modify. Qed.

Lemma frame_log_entry i : keeps frame (log_entry i).
Proof. intros s. unfold log_entry. repeat wp_step. destruct (getEntry i (log s)); [frame_close|done]. Qed.

Lemma frame_update_server r f : keeps frame (update_server r f).
Proof. intros s. unfold update_server. repeat wp_step; frame_close. Qed.

Lemma frame_set_conf f : keeps frame (set_conf f).
Proof. by apply frame_modify. Qed.

Lemma frame_assert b : keeps frame (assert_ b).
Proof. intros s. apply wp_assert; [done|]. intros _. reflexivity. Qed.

Lemma frame_set_manager f : keeps frame (set_manager f).
Proof. by apply frame_modify. Qed.

#[local] Hint Resolve frame_now frame_notify frame_log_entry frame_update_server
  frame_set_conf frame_set_manager frame_assert : frame.
Lemma frame_forM {A} (l : list A) (f : A -> M R unit) :
  (forall a, keeps frame (f a)) -> keeps frame (forM l f).
Proof. apply keeps_forM; apply _. Qed.

Lemma frame_forEach f : keeps frame (forEach f).
Proof.
  intros s. unfold forEach. repeat wp_step. apply frame_forM. auto with frame.
Qed.
#[local] Hint Resolve frame_forEach : frame.

Lemma frame_interruptAll : keeps frame interruptAll.
Proof. unfold interruptAll. frame_go. Qed.

Lemma frame_setElectionTimer : keeps frame (setElectionTimer opts clock randomRange).
Proof. unfold setElectionTimer. frame_go. Qed.

Lemma frame_getServer id : keeps frame (getServer clock id).
Proof. unfold getServer. frame_go. Qed.
#[local] Hint Resolve frame_interruptAll frame_setElectionTimer frame_getServer : frame.

Lemma frame_add_old srv : keeps frame (add_old_server clock srv).
Proof. unfold add_old_server. frame_go. Qed.

Lemma frame_add_new srv : keeps frame (add_new_server clock srv).
Proof. unfold add_new_server. frame_go. Qed.

Lemma frame_collect : keeps frame collect_servers.
Proof. intros s. unfold collect_servers. repeat wp_step. apply frame_forM. intros p. frame_go. Qed.
#[local] Hint Resolve frame_add_old frame_add_new frame_collect frame_forM : frame.

Lemma frame_conf_setConfiguration id d :
  keeps frame (Configuration_setConfiguration clock id d).
Proof. unfold Configuration_setConfiguration. frame_go. Qed.

Lemma frame_conf_reset : keeps frame Configuration_reset.
Proof. unfold Configuration_reset. frame_go. Qed.
#[local] Hint Resolve frame_conf_setConfiguration frame_conf_reset : frame.

Lemma frame_resetStaging : keeps frame (resetStagingServers clock).
Proof. unfold resetStagingServers. frame_go. Qed.

Lemma frame_setStaging l : keeps frame (setStagingServers clock l).
Proof. unfold setStagingServers. frame_go. Qed.

Lemma frame_restoreInvariants : keeps frame (restoreInvariants clock).
Proof. unfold restoreInvariants. frame_go. Qed.
#[local] Hint Resolve frame_resetStaging frame_setStaging frame_restoreInvariants : frame.

Lemma frame_manager_add i d : keeps frame (ConfigurationManager_add clock i d).
Proof. unfold ConfigurationManager_add. frame_go. Qed.

Lemma frame_manager_prefix i : keeps frame (ConfigurationManager_truncatePrefix clock i).
Proof. unfold ConfigurationManager_truncatePrefix. frame_go. Qed.

Lemma frame_manager_suffix i : keeps frame (ConfigurationManager_truncateSuffix clock i).
Proof. unfold ConfigurationManager_truncateSuffix. frame_go. Qed.

Lemma frame_manager_snapshot i d : keeps frame (ConfigurationManager_setSnapshot clock i d).
Proof. unfold ConfigurationManager_setSnapshot. frame_go. Qed.

Lemma frame_newEpoch t : keeps frame (newEpoch clock t).
Proof. unfold newEpoch. frame_go. Qed.

Lemma frame_leaderStamp : keeps frame (leaderStamp clock).
Proof. unfold leaderStamp. frame_go. Qed.

#[local] Hint Resolve frame_manager_add frame_manager_prefix frame_manager_suffix
  frame_manager_snapshot frame_newEpoch frame_leaderStamp : frame.

Lemma frame_add_configurations i l : keeps frame (add_configurations clock i l).
Proof. revert i. induction l as [|e l IH]; intros i; simpl; frame_go. Qed.
#[local] Hint Resolve frame_add_configurations : frame.

Lemma frame_getLastLogTerm : keeps frame getLastLogTerm.
Proof. unfold getLastLogTerm. frame_go. Qed.

Lemma frame_discard_writer : keeps frame discard_writer.
Proof. unfold discard_writer. frame_go. Qed.

Lemma frame_with_dir {A} w (m : M Writer A) : keeps frame (with_dir w m).
Proof. unfold with_dir. frame_go. Qed.

Lemma frame_new_Writer : keeps frame (new_Writer clock stagingNameAt).
Proof. unfold new_Writer. frame_go. Qed.
#[local] Hint Resolve frame_getLastLogTerm
  frame_discard_writer frame_with_dir frame_new_Writer : frame.

Lemma frame_heard : keeps frame (heard_from_leader opts clock randomRange).
Proof. unfold heard_from_leader. frame_go. Qed.
#[local] Hint Resolve frame_heard : frame.

Lemma frame_update_peer r f : keeps frame (update_peer r f).
Proof. unfold update_peer. frame_go. Qed.
#[local] Hint Resolve frame_update_peer : frame.

Lemma frame_get_peer r : keeps frame (get_peer r).
Proof. unfold get_peer. frame_go. Qed.
#[local] Hint Resolve frame_get_peer : frame.

Lemma frame_call_failed r t : keeps frame (call_failed opts r t).
Proof. unfold call_failed. apply frame_update_peer. Qed.
#[local] Hint Resolve frame_call_failed : frame.

Lemma frame_update_catch_up r : keeps frame (update_catch_up opts clock r).
Proof. unfold update_catch_up. frame_go. Qed.
#[local] Hint Resolve frame_update_catch_up : frame.

Lemma frame_lift {A} (o : outcome A) : keeps frame (lift o).
Proof. intros s. apply wp_lift. by destruct o. Qed.
#[local] Hint Resolve frame_lift : frame.

Lemma frame_record_capabilities r cap : keeps frame (record_capabilities r cap).
Proof.
  unfold record_capabilities. intros s.
  repeat first [apply (wp_keeps frame); [by apply frame_lift|intros ? ? ?] | frame_step]; frame_close.
Qed.
#[local] Hint Resolve frame_record_capabilities : frame.

Lemma frame_packEntries entry_size request_size i :
  keeps frame (packEntries opts entry_size request_size i).
Proof.
  intros s. unfold packEntries. apply wp_bind, wp_get.
  generalize (Z.to_nat (Z.min (getLastLogIndex (log s)) (u64 (i + MAX_LOG_ENTRIES_PER_REQUEST opts - 1)) - i + 1)).
  intros n. generalize (@nil LogEntry) at 1 as packed. generalize (request_size []) as size.
  revert s i. induction n as [|n IH]; intros s i size packed; simpl; [by apply wp_ret|].
  repeat frame_step; try frame_close; eapply wp_mono; try apply IH; try done; intros ? ? ?; frame_close.
Qed.
#[local] Hint Resolve frame_packEntries : frame.

Lemma frame_log_disagrees : keeps frame log_disagrees.
Proof. unfold log_disagrees. frame_go. Qed.
#[local] Hint Resolve frame_log_disagrees : frame.
End Frame.

#[export] Hint Resolve frame_forM frame_now frame_notify frame_log_entry frame_update_server frame_set_conf
  frame_assert frame_set_manager frame_forEach frame_interruptAll frame_setElectionTimer
  frame_getServer frame_add_old frame_add_new frame_collect frame_conf_setConfiguration
  frame_conf_reset frame_resetStaging frame_setStaging frame_restoreInvariants frame_manager_add
  frame_manager_prefix frame_manager_suffix frame_manager_snapshot frame_newEpoch
  frame_leaderStamp frame_add_configurations frame_getLastLogTerm frame_discard_writer
  frame_with_dir frame_new_Writer frame_heard frame_update_peer frame_get_peer frame_call_failed
  frame_update_catch_up frame_lift frame_record_capabilities frame_packEntries frame_log_disagrees
  : frame.
