(* ===== verification/RaftSnapshots.v ===== *)
(** * The last snapshot of a server

    A snapshot stands for the entries before the log's start. The operations of
    [Raft.v] never replace the last snapshot by an earlier one, never start the
    log beyond the entry after it, and never let it cover what is not committed.
    Each operation is a fact in the hint database [tracked]. *)

From Stdlib Require Import ZArith Lia Ascii String.
From stdpp Require Import base gmap strings list fin_maps sorting.
From S2P Require Import Prelude OrderedMap StringUtil Stream SnapshotFile Consensus Log Configuration Raft RaftFrame.
Local Open Scope string_scope.
Local Open Scope Z_scope.
Local Open Scope list_scope.

Create HintDb tracked.

Section Snapshots.
Context {L : Type} `{LogOps L} `{!LogStartLaws L} `{ProtoBuf Metadata_Header}.
Context (opts : RaftOptions) (clock : nat -> Z) (randomRange : nat -> Z -> Z -> Z).
Context (stagingNameAt : nat -> string).

Abbreviation R := (RaftConsensus L).

(** The entries before the log's start are in the snapshot, and those in the
    snapshot are committed. *)
Definition snapshot_inv (s : R) : Prop :=
  0 <= lastSnapshotIndex s /\ getLogStartIndex (log s) <= lastSnapshotIndex s + 1 /\
  lastSnapshotIndex s <= commitIndex s.

(** How the commit index, the snapshot and the log's start may move. *)
Definition tracked (s s' : R) : Prop :=
  commitIndex s <= commitIndex s' /\ lastSnapshotIndex s <= lastSnapshotIndex s' /\
  lastSnapshotIndex s' <= Z.max (lastSnapshotIndex s) (commitIndex s') /\
  getLogStartIndex (log s) <= getLogStartIndex (log s') /\
  (0 <= lastSnapshotIndex s ->
   getLogStartIndex (log s') <= Z.max (getLogStartIndex (log s)) (lastSnapshotIndex s' + 1)).

#[local] Instance tracked_preorder : PreOrder tracked.
Proof. split; unfold tracked; [intros s|intros s1 s2 s3]; lia. Qed.

Lemma tracked_refl s : tracked s s.
Proof. reflexivity. Qed.

Lemma tracked_inv s s' : tracked s s' -> snapshot_inv s -> snapshot_inv s'.
Proof. unfold tracked, snapshot_inv. lia. Qed.

Lemma frame_tracked {A} (m : M R A) : keeps frame m -> keeps tracked m.
Proof.
  intros Hm s. eapply wp_mono; [apply Hm|done|]. intros a s'. unfold frame, tracked.
  intros; destruct_and!. replace (log s') with (log s) by congruence. lia.
Qed.

Lemma tracked_on_log {A} (m : M L A) :
  (forall l, post m (fun _ l' => getLogStartIndex l' = getLogStartIndex l) l) -> keeps tracked (on_log m).
Proof.
  intros Hm s. apply wp_zoom. eapply wp_mono; [apply Hm|done|]. intros a l Hl. simpl in Hl. unfold tracked. simpl. lia.
Qed.
#[local] Hint Extern 2 (keeps tracked _) => apply frame_tracked; solve [auto with frame] : tracked.
#[local] Hint Extern 1 (keeps tracked (on_log _)) =>
  apply tracked_on_log; intros;
  first [apply append_start | apply truncateSuffix_start | apply takeSync_start | apply sync_wait_start
        | apply syncComplete_start | apply updateMetadata_start] : tracked.

(** The log's start moves to the entry after the snapshot at most. *)
Lemma u64_succ_le x : 0 <= x -> u64 (x + 1) <= x + 1.
Proof. intros Hx. unfold u64. apply Z.mod_le; lia. Qed.

Lemma tracked_truncatePrefix s (Q : unit -> R -> Prop) :
  (forall s', tracked s s' -> lastSnapshotIndex s' = lastSnapshotIndex s -> Q tt s') ->
  wp (fun _ => True) (on_log (truncatePrefix (u64 (lastSnapshotIndex s + 1)))) Q s.
Proof.
  intros HQ. apply wp_zoom. eapply wp_mono; [apply truncatePrefix_start|done|]. intros [] l Hl.
  apply HQ; [|done]. unfold tracked. simpl. split_and!; [lia..|]. intros Hs%u64_succ_le. lia.
Qed.

(** Reading an entry changes nothing. *)
Lemma tracked_log_entry i s (Q : LogEntry -> R -> Prop) :
  (forall e, Q e s) -> wp (fun _ => True) (log_entry i) Q s.
Proof. intros HQ. unfold log_entry. apply wp_bind, wp_get, wp_lift. by destruct (getEntry i (log s)). Qed.

Lemma tracked_lift {A} (o : outcome A) : keeps tracked (lift o).
Proof. intros s. apply wp_lift. by destruct o. Qed.

(** Symbolic execution; an operation with a [keeps] lemma in the hint database is
    one step. *)
Ltac tracked_same := unfold tracked; simpl; lia.
Ltac tracked_close :=
  first [ reflexivity | assumption
        | match goal with
          | |- tracked _ (if ?b then _ else _) => destruct b; tracked_close
          | Hs : tracked ?x ?z |- tracked _ ?z => is_var z; transitivity x; [clear Hs; tracked_close|exact Hs]
          | |- tracked _ (set_field _ ?y) => transitivity y; [tracked_close|tracked_same]
          end ].
Ltac tracked_step :=
  first
    [ apply tracked_truncatePrefix; intros ? ? ?
    | apply tracked_log_entry; intros ?
    | apply (wp_keeps tracked); [by apply tracked_lift|intros ? ? ?]
    | wp_step; try exact I
    | apply (wp_keeps tracked); [solve [auto with tracked]|intros ? ? ?] ].
Ltac tracked_go := intros ?; repeat tracked_step; try tracked_close.

Lemma tracked_modify f : (forall s, tracked s (f s)) -> keeps tracked (modify f).
Proof. intros Hf s. apply wp_modify, Hf. Qed.
#[local] Hint Extern 3 (keeps tracked (modify _)) => apply tracked_modify; intros; tracked_same : tracked.

Lemma tracked_forM {A} (l : list A) (f : A -> M R unit) : (forall a, keeps tracked (f a)) -> keeps tracked (forM l f).
Proof. apply keeps_forM; apply _. Qed.
#[local] Hint Resolve tracked_forM : tracked.

Lemma tracked_sync_now : keeps tracked sync_now.
Proof. unfold sync_now. tracked_go. Qed.
#[local] Hint Resolve tracked_sync_now : tracked.
Lemma tracked_queue_or_sync : keeps tracked queue_or_sync.
Proof. unfold queue_or_sync. tracked_go. Qed.
Lemma tracked_updateLogMetadata : keeps tracked updateLogMetadata.
Proof.
  unfold updateLogMetadata. intros s. apply wp_bind, wp_modify. apply (wp_keeps tracked); [auto with tracked|].
  intros ? s' Hs'. etransitivity; [|exact Hs']. unfold tracked. simpl. rewrite set_metadata_start. lia.
Qed.
#[local] Hint Resolve tracked_queue_or_sync tracked_updateLogMetadata : tracked.
Lemma tracked_append l : keeps tracked (RaftConsensus_append clock l).
Proof. unfold RaftConsensus_append. tracked_go. Qed.
Lemma tracked_discardUnneeded : keeps tracked (discardUnneededEntries clock).
Proof. unfold discardUnneededEntries. tracked_go. Qed.
#[local] Hint Resolve tracked_append tracked_discardUnneeded : tracked.
Lemma tracked_stepDown t : keeps tracked (stepDown opts clock randomRange t).
Proof. unfold stepDown. tracked_go. Qed.
#[local] Hint Resolve tracked_stepDown : tracked.
Lemma tracked_advanceCommitIndex : keeps tracked (advanceCommitIndex opts clock randomRange).
Proof. unfold advanceCommitIndex. tracked_go. Qed.
Lemma tracked_becomeLeader : keeps tracked (becomeLeader clock).
Proof. unfold becomeLeader. tracked_go. Qed.
#[local] Hint Resolve tracked_advanceCommitIndex tracked_becomeLeader : tracked.
Lemma tracked_startNewElection : keeps tracked (startNewElection opts clock randomRange).
Proof. unfold startNewElection. tracked_go. Qed.
#[local] Hint Resolve tracked_startNewElection : tracked.

(** *** Reading and taking snapshots *)

Lemma tracked_discard_log : keeps tracked (discard_log clock).
Proof.
  unfold discard_log. intros s. apply wp_bind, wp_get, wp_bind, tracked_truncatePrefix. intros s1 T1 E1.
  repeat tracked_step. tracked_close.
Qed.
#[local] Hint Resolve tracked_discard_log : tracked.

Lemma tracked_load_header rd : keeps tracked (load_header clock rd).
Proof.
  intros s. unfold load_header. apply wp_bind, wp_lift. destruct (read_header rd) as [[h rd']|]; [|done].
  apply wp_bind, wp_get. destruct (Z.ltb_spec (last_included_index h) (lastSnapshotIndex s)); [done|].
  apply wp_bind, wp_modify. set (s1 := set_field _ _).
  assert (tracked s s1) by (subst s1; tracked_same). clearbody s1. repeat tracked_step; tracked_close.
Qed.
#[local] Hint Resolve tracked_load_header : tracked.

(** After reading it, the snapshot is known to cover what the log lacks. *)
Lemma readSnapshot_covers s :
  0 <= lastSnapshotIndex s ->
  post (readSnapshot clock) (fun _ s' => tracked s s' /\ getLogStartIndex (log s') <= lastSnapshotIndex s' + 1) s.
Proof.
  intros Hs. unfold readSnapshot. apply wp_bind, wp_get, wp_bind.
  eapply (wp_mono _ _ _ (fun _ s' => tracked s s')); [|done|].
  - destruct (Reader_init _) as [rd|]; [|by apply wp_ret]. repeat tracked_step. tracked_close.
  - intros reader s1 T1. apply wp_bind, wp_get.
    destruct (Z.ltb_spec (u64 (lastSnapshotIndex s1 + 1)) (getLogStartIndex (log s1))) as [|Hle]; [done|].
    apply wp_modify. split; [tracked_close|]. simpl.
    assert (0 <= lastSnapshotIndex s1) as Hs1%u64_succ_le by (unfold tracked in T1; lia). lia.
Qed.

Lemma tracked_readSnapshot : keeps tracked (readSnapshot clock).
Proof. unfold readSnapshot. tracked_go. Qed.
#[local] Hint Resolve tracked_readSnapshot : tracked.

(** A snapshot of committed entries. *)
Lemma tracked_snapshotDone i w s :
  i <= commitIndex s -> post (RaftConsensus_snapshotDone clock i w) (fun _ s' => tracked s s') s.
Proof.
  intros Hi. unfold RaftConsensus_snapshotDone. apply wp_bind, wp_get.
  destruct (Z.leb_spec i (lastSnapshotIndex s)) as [|Hlt]; [repeat tracked_step; tracked_close|].
  do 2 (apply wp_bind, wp_assert; [done|]; intros _).
  apply wp_bind, (wp_keeps frame); [auto with frame|]. intros [size w'] s1 F1.
  apply wp_bind, tracked_log_entry. intros e. apply wp_bind, wp_modify.
  set (s2 := set_field _ _). assert (tracked s s2).
  { unfold frame in F1. destruct_and!. subst s2. unfold tracked. simpl.
    replace (log s1) with (log s) by congruence. lia. }
  clearbody s2. repeat tracked_step; tracked_close.
Qed.

(** [beginSnapshot] refuses an index that is not committed. *)
Lemma beginSnapshot_committed i s :
  post (RaftConsensus_beginSnapshot clock stagingNameAt i) (fun _ s' => tracked s s' /\ i <= commitIndex s') s.
Proof.
  unfold RaftConsensus_beginSnapshot. apply wp_bind, (wp_keeps tracked); [auto with tracked|]. intros w s1 T1.
  apply wp_bind, wp_get. destruct (Z.ltb_spec (commitIndex s1) i) as [|Hi]; [done|].
  eapply (wp_mono _ _ _ (fun _ s' => tracked s1 s')); [|done|].
  - unfold snapshot_term_and_time. repeat tracked_step; tracked_close.
  - intros _ s2 T2. split; [by transitivity s1|]. unfold tracked in T2. lia.
Qed.
(** *** Parts of the handlers *)

Lemma tracked_check_types l : keeps tracked (check_types l).
Proof. unfold check_types. apply tracked_forM. intros e. tracked_go. Qed.
Lemma tracked_record_leader id : keeps tracked (record_leader id).
Proof. unfold record_leader. tracked_go. Qed.
#[local] Hint Resolve tracked_check_types tracked_record_leader : tracked.
Lemma tracked_append_loop i es : keeps tracked (append_loop clock i es).
Proof. revert i. induction es as [|e es IH]; intros i; simpl; tracked_go. Qed.
Lemma tracked_prev_entry_agrees r : keeps tracked (prev_entry_agrees r).
Proof. unfold prev_entry_agrees. tracked_go. Qed.
Lemma tracked_the_writer : keeps tracked (the_writer clock stagingNameAt).
Proof. unfold the_writer. tracked_go. Qed.
Lemma tracked_scheduleHeartbeats : keeps tracked (scheduleHeartbeats clock).
Proof. intros s. unfold scheduleHeartbeats. apply wp_bind, wp_get. apply tracked_forM. intros r. tracked_go. Qed.
Lemma tracked_upToDate_commitTerm : keeps tracked upToDate_commitTerm.
Proof. unfold upToDate_commitTerm. tracked_go. Qed.
Lemma tracked_process_append_response r q i : keeps tracked (process_append_response opts clock randomRange r q i).
Proof. unfold process_append_response. tracked_go. Qed.
#[local] Hint Resolve tracked_append_loop tracked_prev_entry_agrees tracked_the_writer
  tracked_scheduleHeartbeats tracked_upToDate_commitTerm tracked_process_append_response : tracked.

(** *** Handlers and threads *)

Lemma tracked_handleAppendEntries q : keeps tracked (handleAppendEntries opts clock randomRange q).
Proof. unfold handleAppendEntries. tracked_go. Qed.
Lemma tracked_handleInstallSnapshot q : keeps tracked (handleInstallSnapshot opts clock randomRange stagingNameAt q).
Proof. unfold handleInstallSnapshot. tracked_go. Qed.
Lemma tracked_handleRequestVote q : keeps tracked (handleRequestVote opts clock randomRange q).
Proof. unfold handleRequestVote. tracked_go. Qed.
Lemma tracked_setSupported lo hi : keeps tracked (RaftConsensus_setSupportedStateMachineVersions lo hi).
Proof. unfold RaftConsensus_setSupportedStateMachineVersions. tracked_go. Qed.
Lemma tracked_beginSnapshot i : keeps tracked (RaftConsensus_beginSnapshot clock stagingNameAt i).
Proof. intros s. eapply wp_mono; [apply beginSnapshot_committed|done|]. by intros w s' []. Qed.
Lemma tracked_timerThread : keeps tracked (timerThread_step opts clock randomRange).
Proof. unfold timerThread_step. tracked_go. Qed.
Lemma tracked_stepDownThread l : keeps tracked (stepDownThread_step opts clock randomRange l).
Proof. unfold stepDownThread_step. tracked_go. Qed.
Lemma tracked_exit : keeps tracked RaftConsensus_exit.
Proof. unfold RaftConsensus_exit. tracked_go. Qed.
Lemma tracked_bootstrap : keeps tracked (bootstrapConfiguration opts clock randomRange).
Proof. unfold bootstrapConfiguration. tracked_go. Qed.

(** *** Operations that wait *)

Lemma tracked_bind {A B} (m : M R A) (k : A -> M R B) :
  keeps tracked m -> (forall a, keeps tracked (k a)) -> keeps tracked (bind m k).
Proof. apply keeps_bind; apply _. Qed.
Lemma tracked_ret {A} (a : A) : keeps tracked (ret a).
Proof. apply keeps_ret; apply _. Qed.

Definition tracked_others (sched : list (M R unit)) : Prop := forall env, env ∈ sched -> keeps tracked env.

Lemma tracked_others_cons env sched : tracked_others (env :: sched) -> keeps tracked env /\ tracked_others sched.
Proof. intros Henv. split; [apply Henv, list_elem_of_here|]. intros e He. by apply Henv, list_elem_of_further. Qed.

Lemma tracked_upToDateLeader_loop epoch sched : tracked_others sched -> keeps tracked (upToDateLeader_loop epoch sched).
Proof. induction sched as [|env sched IH]; [|intros [? ?%IH]%tracked_others_cons]; intros; simpl; tracked_go. Qed.
#[local] Hint Resolve tracked_upToDateLeader_loop : tracked.
Lemma tracked_upToDateLeader sched : tracked_others sched -> keeps tracked (upToDateLeader clock sched).
Proof. intros Hs. unfold upToDateLeader. tracked_go. Qed.
#[local] Hint Resolve tracked_upToDateLeader : tracked.
Lemma tracked_getConfiguration sched : tracked_others sched -> keeps tracked (getConfiguration clock sched).
Proof. intros Hs. unfold getConfiguration. tracked_go. Qed.
Lemma tracked_getLastCommitIndex sched : tracked_others sched -> keeps tracked (getLastCommitIndex clock sched).
Proof. intros Hs. unfold getLastCommitIndex. tracked_go. Qed.

Lemma tracked_committed_entry i : keeps tracked (committed_entry clock i).
Proof. unfold committed_entry. tracked_go. Qed.
#[local] Hint Resolve tracked_committed_entry : tracked.
Lemma tracked_getNextEntry i sched : tracked_others sched -> keeps tracked (RaftConsensus_getNextEntry clock i sched).
Proof. induction sched as [|env sched IH]; [|intros [? ?%IH]%tracked_others_cons]; intros; simpl; tracked_go. Qed.
Lemma tracked_wait_committed t i sched : tracked_others sched -> keeps tracked (wait_committed t i sched).
Proof. induction sched as [|env sched IH]; [|intros [? ?%IH]%tracked_others_cons]; intros; simpl; tracked_go. Qed.
#[local] Hint Resolve tracked_wait_committed : tracked.
Lemma tracked_replicateEntry e sched : tracked_others sched -> keeps tracked (replicateEntry clock e sched).
Proof. intros Hs. unfold replicateEntry. tracked_go. Qed.
#[local] Hint Resolve tracked_replicateEntry : tracked.
Lemma tracked_wait_caught_up t epoch at_ sched :
  tracked_others sched -> keeps tracked (wait_caught_up opts clock t epoch at_ sched).
Proof.
  revert epoch at_. induction sched as [|env sched IH]; [|intros epoch at_ [Henv Hs]%tracked_others_cons];
    intros; simpl; tracked_go.
Qed.
Lemma tracked_wait_stable t i sched : tracked_others sched -> keeps tracked (wait_stable t i sched).
Proof. induction sched as [|env sched IH]; [|intros [? ?%IH]%tracked_others_cons]; intros; simpl; tracked_go. Qed.
#[local] Hint Resolve tracked_wait_caught_up tracked_wait_stable : tracked.

Lemma tracked_setConfiguration q catch_up commit stable :
  tracked_others (catch_up ++ commit ++ stable) -> keeps tracked (setConfiguration opts clock q catch_up commit stable).
Proof.
  intros Henv. assert (tracked_others catch_up) by (intros ? ?; apply Henv, elem_of_app; by left).
  assert (tracked_others commit) by (intros ? ?; apply Henv, elem_of_app; right; apply elem_of_app; by left).
  assert (tracked_others stable) by (intros ? ?; apply Henv, elem_of_app; right; apply elem_of_app; by right).
  unfold setConfiguration. tracked_go.
Qed.
Lemma tracked_stateMachineUpdater advance_command u sched :
  tracked_others sched -> keeps tracked (stateMachineUpdaterThread_step opts clock advance_command u sched).
Proof. intros Hs. unfold stateMachineUpdaterThread_step. tracked_go. Qed.
Lemma tracked_leaderDiskThread env env' :
  keeps tracked env -> keeps tracked env' -> keeps tracked (leaderDiskThread_step opts clock randomRange env env').
Proof. intros. unfold leaderDiskThread_step. tracked_go. Qed.
Lemma tracked_peerThread r m1 m2 :
  keeps tracked m1 -> keeps tracked m2 -> keeps tracked (peerThread_step clock r m1 m2).
Proof. intros. unfold peerThread_step. tracked_go. Qed.

(** *** Requests to other servers *)

Lemma tracked_Peer_callRPC {Resp} r (reply : M R (RPCStatus * Resp)) :
  keeps tracked reply -> keeps tracked (Peer_callRPC r reply).
Proof. intros. unfold Peer_callRPC. tracked_go. Qed.
#[local] Hint Resolve tracked_Peer_callRPC : tracked.
Lemma tracked_requestVote r send :
  (forall q, keeps tracked (send q)) -> keeps tracked (requestVote opts clock randomRange r send).
Proof. intros. unfold requestVote. tracked_go. Qed.
Lemma tracked_installSnapshot r send :
  (forall q, keeps tracked (send q)) -> keeps tracked (installSnapshot opts clock randomRange r send).
Proof. intros. unfold installSnapshot. tracked_go. Qed.
Lemma tracked_appendEntries entry_size request_size r send send_snapshot :
  (forall q, keeps tracked (send q)) -> (forall q, keeps tracked (send_snapshot q)) ->
  keeps tracked (appendEntries opts clock randomRange entry_size request_size send send_snapshot r).
Proof.
  intros Hsend Hsnap. pose proof (tracked_installSnapshot r send_snapshot Hsnap).
  unfold appendEntries, prev_log_term. tracked_go.
Qed.

(** A snapshot of the state machine: it is finished for the index it was begun
    for, whatever the other threads do while it is written. *)
Lemma tracked_takeSnapshot i (others : Writer -> M R Writer) :
  (forall w, keeps tracked (others w)) ->
  keeps tracked (let! w := RaftConsensus_beginSnapshot clock stagingNameAt i in
                 let! w := others w in RaftConsensus_snapshotDone clock i w).
Proof.
  intros Hothers s. apply wp_bind. eapply wp_mono; [apply beginSnapshot_committed|done|]. intros w s1 [T1 Hi].
  apply wp_bind, (wp_keeps tracked); [done|]. intros w' s2 T2.
  eapply wp_mono; [apply tracked_snapshotDone; unfold tracked in T2; lia|done|]. intros [] s3 T3.
  by transitivity s1; [|transitivity s2].
Qed.
End Snapshots.
