(* ===== verification/RaftSpec.v ===== *)
(** * What the consensus module promises on one server

    Every operation of [Raft.v] keeps the invariant of [RaftConsensus] and moves
    the state only forwards: terms, commit index and epochs grow, within a term
    the vote and the known leader are fixed once set, and the term and the vote
    are on disk whenever the mutex is released. *)

From Stdlib Require Import ZArith Lia Ascii String.
From stdpp Require Import base gmap strings list fin_maps sorting.
From S2P Require Import Prelude OrderedMap StringUtil Stream SnapshotFile Consensus Log Configuration Raft RaftFrame RaftSnapshots.
Local Open Scope string_scope.
Local Open Scope Z_scope.
Local Open Scope list_scope.

Section RaftSpec.
Context {L : Type} `{LogMetadataLaws L} `{!LogStartLaws L} `{ProtoBuf Metadata_Header}.
Context (opts : RaftOptions) (clock : nat -> Z) (randomRange : nat -> Z -> Z -> Z).
Context (stagingNameAt : nat -> string).
Context (self : Z) (self_nonzero : self <> 0).

Abbreviation R := (RaftConsensus L).

(** The members that decide elections and commitment. *)
Definition same_core (s s' : R) : Prop :=
  raft_serverId s' = raft_serverId s /\ exiting s' = exiting s /\
  currentTerm s' = currentTerm s /\ state s' = state s /\ commitIndex s' = commitIndex s /\
  leaderId s' = leaderId s /\ votedFor s' = votedFor s /\ currentEpoch s' = currentEpoch s /\
  lastSnapshotIndex s' = lastSnapshotIndex s /\ same_metadata (log s) (log s').

#[local] Instance same_core_preorder : PreOrder same_core.
Proof.
  split; [by intros s|]. intros s1 s2 s3. unfold same_core. intros; destruct_and!.
  split_and!; try congruence. by transitivity (log s2).
Qed.

Lemma same_core_refl s : same_core s s.
Proof. reflexivity. Qed.

Lemma frame_same_core {A} (m : M R A) : keeps frame m -> keeps same_core m.
Proof.
  intros Hm s. eapply wp_mono; [apply Hm|done|]. intros a s'. unfold frame, same_core.
  intros; destruct_and!. split_and!; try congruence. replace (log s') with (log s) by congruence. done.
Qed.

Ltac core_close :=
  unfold same_core in *; destruct_and?; simpl in *; split_and?;
  first [congruence | repeat first [assumption | reflexivity | etransitivity; [eassumption|]]].

(** One step of symbolic execution; an operation with a [keeps] lemma in the
    hint databases is one step. *)
Ltac core_step :=
  first
    [ wp_step; try exact I
    | apply (wp_keeps same_core); [solve [auto with core]|intros ? ? ?] ].
Ltac core_go := intros ?; repeat core_step; try core_close.

Lemma same_core_modify f : (forall s, same_core s (f s)) -> keeps same_core (modify f).
Proof. intros Hf s. apply wp_modify. apply Hf. Qed.

Lemma same_core_on_log {A} (m : M L A) :
  (forall l, post m (fun _ => same_metadata l) l) -> keeps same_core (on_log m).
Proof.
  intros Hm s. apply wp_zoom. eapply wp_mono; [apply Hm|done|]. intros a l ?. core_close.
Qed.

Create HintDb core.
#[local] Hint Extern 2 (keeps same_core _) => apply frame_same_core; solve [auto with frame] : core.
#[local] Hint Extern 1 (keeps same_core (on_log _)) =>
  apply same_core_on_log; intros;
  first [apply append_meta | apply truncatePrefix_meta | apply truncateSuffix_meta
        | apply takeSync_meta | apply sync_wait_meta | apply syncComplete_meta] : core.

Lemma same_core_sync_now : keeps same_core sync_now.
Proof. unfold sync_now. core_go. Qed.
#[local] Hint Resolve same_core_sync_now : core.

Lemma same_core_queue_or_sync : keeps same_core queue_or_sync.
Proof. unfold queue_or_sync. core_go. Qed.
#[local] Hint Resolve same_core_queue_or_sync : core.

Lemma same_core_append l : keeps same_core (RaftConsensus_append clock l).
Proof. unfold RaftConsensus_append. core_go. Qed.
#[local] Hint Resolve same_core_append : core.

Lemma same_core_discardUnneeded : keeps same_core (discardUnneededEntries clock).
Proof. unfold discardUnneededEntries. core_go. Qed.
#[local] Hint Resolve same_core_discardUnneeded : core.

(** ** The invariant, and how the state may move *)

Definition persistent_state (s : R) : Metadata :=
  mkMetadata (Some (currentTerm s)) (Some (votedFor s)).

(** When the mutex of server [self] is free: a leader or a candidate voted for itself, a leader
    knows it is the leader, and the term and the vote are on disk. *)
Record core_inv (s : R) : Prop := {
  inv_id : raft_serverId s = self;
  inv_leader : state s = LEADER -> leaderId s = raft_serverId s /\ votedFor s = raft_serverId s;
  inv_candidate : state s = CANDIDATE -> leaderId s = 0 /\ votedFor s = raft_serverId s;
  inv_metadata : metadata (log s) = persistent_state s;
  inv_saved : saved_metadata (log s) = persistent_state s
}.

(** What [Invariants::checkDelta] expects of two successive states, and that the
    last snapshot is never replaced by an earlier one. *)
Record delta (s s' : R) : Prop := {
  delta_id : raft_serverId s' = raft_serverId s;
  delta_exiting : exiting s = true -> exiting s' = true;
  delta_term : currentTerm s <= currentTerm s';
  delta_commit : commitIndex s <= commitIndex s';
  delta_snapshot : lastSnapshotIndex s <= lastSnapshotIndex s';
  delta_same_term : currentTerm s' = currentTerm s ->
    (leaderId s <> 0 -> leaderId s' = leaderId s) /\
    (votedFor s <> 0 -> votedFor s' = votedFor s) /\
    (state s = LEADER -> state s' = LEADER)
}.

Lemma delta_refl s : delta s s.
Proof. constructor; done. Qed.

Lemma delta_trans s1 s2 s3 : delta s1 s2 -> delta s2 s3 -> delta s1 s3.
Proof.
  intros [I1 E1 T1 C1 S1 D1] [I2 E2 T2 C2 S2 D2]. constructor; [congruence|auto|lia..|].
  intros Ht. assert (currentTerm s2 = currentTerm s1) as H12 by lia.
  assert (currentTerm s3 = currentTerm s2) as H23 by lia.
  destruct (D1 H12) as (HL1 & HV1 & HS1), (D2 H23) as (HL2 & HV2 & HS2). split_and!.
  - intros Hl. rewrite <-HL1 by done. apply HL2. by rewrite HL1.
  - intros Hv. rewrite <-HV1 by done. apply HV2. by rewrite HV1.
  - auto.
Qed.

(** From a state with the invariant, to one with it. *)
Definition good (s s' : R) : Prop := core_inv s -> core_inv s' /\ delta s s'.

#[local] Instance good_preorder : PreOrder good.
Proof.
  split; [intros s Hs; split; [done|apply delta_refl]|].
  intros s1 s2 s3 H12 H23 Hs. destruct (H12 Hs) as [Hs2 Hd12]. destruct (H23 Hs2) as [Hs3 Hd23].
  split; [done|]. by eapply delta_trans.
Qed.

Lemma same_core_good s s' : same_core s s' -> good s s'.
Proof.
  intros (Ei & Ee & Et & Es & Ec & El & Ev & Eo & En & Em & Esv) [I1 I2 I3 I4 I5].
  assert (saved_metadata (log s') = metadata (log s)) as Hsaved by (destruct Esv; congruence).
  split; constructor; unfold persistent_state in *;
    rewrite ?Hsaved, ?Ei, ?Ee, ?Et, ?Es, ?Ec, ?El, ?Ev, ?En, ?Em; auto; lia.
Qed.

Lemma keeps_good {A} (m : M R A) : keeps same_core m -> keeps good m.
Proof.
  intros Hm s. eapply wp_mono; [apply Hm|done|]. intros a s'. apply same_core_good.
Qed.

Lemma same_core_inv s s' : same_core s s' -> core_inv s -> core_inv s'.
Proof. intros Hc Hs. by apply (same_core_good _ _ Hc). Qed.

(** The term and the vote stay on disk. *)
Lemma same_core_on_disk s s' m :
  same_core s s' -> metadata (log s) = m -> saved_metadata (log s) = m ->
  metadata (log s') = m /\ saved_metadata (log s') = m.
Proof.
  intros Hc Hm Hs. destruct Hc as (_ & _ & _ & _ & _ & _ & _ & _ & _ & Hm' & [Hs'|Hs']); split; congruence.
Qed.

(** [updateLogMetadata] brings the disk up to date. *)
Lemma wp_updateLogMetadata s (Q : unit -> R -> Prop) :
  (forall s', raft_serverId s' = raft_serverId s -> exiting s' = exiting s ->
     currentTerm s' = currentTerm s -> state s' = state s -> commitIndex s' = commitIndex s ->
     leaderId s' = leaderId s -> votedFor s' = votedFor s -> currentEpoch s' = currentEpoch s ->
     startElectionAt s' = startElectionAt s -> lastSnapshotIndex s' = lastSnapshotIndex s ->
     metadata (log s') = persistent_state s -> saved_metadata (log s') = persistent_state s ->
     Q tt s') ->
  wp (fun _ => True) updateLogMetadata Q s.
Proof.
  intros HQ. unfold updateLogMetadata. apply wp_bind, wp_modify, wp_zoom.
  eapply wp_mono; [apply updateMetadata_meta|done|]. intros [] l [Hm Hs].
  cbn [log set_field] in Hm, Hs. rewrite set_metadata_meta in *.
  apply HQ; simpl; done.
Qed.

(** [stepDown]: a follower of the new term, which is on disk. *)
Lemma wp_stepDown newTerm s (Q : unit -> R -> Prop) :
  metadata (log s) = persistent_state s -> saved_metadata (log s) = persistent_state s ->
  (forall s', currentTerm s <= newTerm -> currentTerm s' = newTerm ->
     raft_serverId s' = raft_serverId s -> exiting s' = exiting s ->
     state s' = FOLLOWER -> commitIndex s' = commitIndex s -> currentEpoch s' = currentEpoch s ->
     leaderId s' = (if decide (currentTerm s = newTerm) then leaderId s else 0) ->
     votedFor s' = (if decide (currentTerm s = newTerm) then votedFor s else 0) ->
     metadata (log s') = persistent_state s' -> saved_metadata (log s') = persistent_state s' ->
     lastSnapshotIndex s' = lastSnapshotIndex s ->
     Q tt s') ->
  wp (fun _ => True) (stepDown opts clock randomRange newTerm) Q s.
Proof.
  intros Hmeta Hsaved HQ. unfold stepDown. apply wp_bind, wp_get, wp_bind, wp_assert; [done|].
  intros Hle%Z.leb_le. apply wp_bind.
  set (Q1 := fun (_ : unit) s1 => currentTerm s1 = newTerm /\ raft_serverId s1 = raft_serverId s /\
     exiting s1 = exiting s /\ state s1 = FOLLOWER /\ commitIndex s1 = commitIndex s /\
     currentEpoch s1 = currentEpoch s /\
     leaderId s1 = (if decide (currentTerm s = newTerm) then leaderId s else 0) /\
     votedFor s1 = (if decide (currentTerm s = newTerm) then votedFor s else 0) /\
     metadata (log s1) = persistent_state s1 /\ saved_metadata (log s1) = persistent_state s1 /\
     lastSnapshotIndex s1 = lastSnapshotIndex s).
  eapply (wp_mono _ _ _ Q1); [|done|].
  - destruct (Z.ltb_spec (currentTerm s) newTerm) as [Hlt|Hge].
    + apply wp_bind, wp_modify, wp_bind, wp_updateLogMetadata. intros s1; intros; simpl in *.
      apply wp_bind, (wp_keeps same_core); [auto with core|]. intros _ s2 Hs2.
      apply wp_bind, (wp_keeps same_core); [auto with core|]. intros _ s3 Hs3.
      assert (same_core s1 s3) as Hc13 by (by transitivity s2).
      edestruct (same_core_on_disk s1 s3) as [Hm3 Hs3']; [exact Hc13|eassumption..|].
      apply wp_modify. subst Q1. simpl. rewrite !decide_False by lia.
      clear Hs2 Hs3. unfold same_core, persistent_state in *. destruct_and!. simpl in *. split_and!; congruence.
    + assert (currentTerm s = newTerm) as Heq by lia. apply wp_modify. subst Q1. simpl.
      rewrite !decide_True by done. split_and!; done.
  - intros [] s1 Hs1. apply wp_bind, wp_get, wp_bind.
    assert (forall (m : M R unit) (k : unit -> M R unit) s2, same_core s1 s2 -> keeps same_core m ->
      (forall s3, same_core s1 s3 -> wp (fun _ => True) (k tt) Q s3) ->
      wp (fun _ => True) m (fun u s' => wp (fun _ => True) (k u) Q s') s2) as Hstep.
    { intros m k s2 H12 Hm Hk. apply (wp_keeps same_core); [done|]. intros [] s3 H23. apply Hk.
      by transitivity s2. }
    apply Hstep; [done|apply keeps_when; auto with core; apply _|]. intros s2 H2.
    apply wp_bind, Hstep; [done|intros s3; apply wp_modify; by destruct (_ =? _)|]. intros s3 H3.
    apply wp_bind, Hstep; [done|auto with core|]. intros s4 H4.
    apply wp_bind, wp_modify, wp_bind, wp_get.
    assert (forall s5, same_core s1 s5 -> Q tt s5) as Hdone.
    { intros s5 H15. destruct Hs1 as (? & ? & ? & ? & ? & ? & ? & ? & Hm1 & Hv1 & ?).
      destruct (same_core_on_disk _ _ _ H15 Hm1 Hv1) as [Hm5 Hv5].
      clear H2 H3 H4. unfold same_core, persistent_state in *. destruct_and!. apply HQ; congruence. }
    apply wp_when; intros _; [|by apply Hdone].
    apply wp_bind, (wp_keeps same_core); [auto with core|]. intros _ s5 H5. apply wp_modify, Hdone.
    transitivity s4; [done|]. by transitivity s5.
Qed.

(** The same, as a step from a state with the invariant: a leader only steps
    down to a newer term. *)
Lemma wp_stepDown_good newTerm s (Q : unit -> R -> Prop) :
  core_inv s -> (currentTerm s = newTerm -> state s <> LEADER) ->
  (forall s', core_inv s' -> delta s s' -> state s' = FOLLOWER -> currentTerm s' = newTerm ->
     leaderId s' = (if decide (currentTerm s = newTerm) then leaderId s else 0) ->
     votedFor s' = (if decide (currentTerm s = newTerm) then votedFor s else 0) ->
     Q tt s') ->
  wp (fun _ => True) (stepDown opts clock randomRange newTerm) Q s.
Proof.
  intros [I1 I2 I3 I4 I5] Hno HQ. apply wp_stepDown; [done|done|].
  intros s' Hle Ht Hid Hex Hst Hc He Hl Hv Hm Hs Hsn. apply HQ; try done.
  - constructor; congruence.
  - constructor; [done|congruence|lia..|]. intros Hsame.
    rewrite Hl, Hv, !decide_True by congruence.
    split_and!; [done|done|]. intros Hlead. by destruct Hno; [congruence|].
Qed.

Lemma good_stepDown newTerm s :
  (currentTerm s = newTerm -> state s <> LEADER) ->
  post (stepDown opts clock randomRange newTerm) (fun _ s' => good s s') s.
Proof.
  intros Hno. destruct (stepDown opts clock randomRange newTerm s) as [[a s']|f] eqn:Hrun;
    [|unfold post, wp; by rewrite Hrun].
  unfold post, wp. rewrite Hrun. intros Hinv.
  pose proof (wp_stepDown_good newTerm s (fun _ s' => core_inv s' /\ delta s s') Hinv Hno) as Hwp.
  unfold wp in Hwp. rewrite Hrun in Hwp. apply Hwp. by intros.
Qed.

Lemma u64_succ_ne x : u64 (x + 1) <> x.
Proof.
  intros Heq. assert (is_u64 x) as Hx by (rewrite <-Heq; apply u64_range). unfold is_u64 in Hx.
  unfold u64 in Heq. destruct (Z.eq_dec x u64_max) as [->|Hne]; [done|].
  rewrite Z.mod_small in Heq; unfold u64_max in *; lia.
Qed.

Lemma u64_succ_gt x : x < u64_max -> x < u64 (x + 1).
Proof.
  intros Hx. pose proof (u64_range (x + 1)) as Hr. unfold is_u64 in Hr. unfold u64_max in Hx.
  destruct (Z.le_gt_cases (x + 1) (-1)); [lia|]. rewrite u64_small; unfold is_u64; lia.
Qed.

Lemma good_stepDown_succ s :
  post (stepDown opts clock randomRange (u64 (currentTerm s + 1))) (fun _ s' => good s s') s.
Proof. apply good_stepDown. intros Heq. by destruct (u64_succ_ne (currentTerm s)). Qed.

Lemma good_trans s1 s2 s3 : good s1 s2 -> good s2 s3 -> good s1 s3.
Proof. intros. by transitivity s2. Qed.

(** Assignments that leave the invariant alone. *)
Lemma good_commitIndex s i :
  commitIndex s <= i -> good s (s <| commitIndex := i |>).
Proof.
  intros Hi [I1 I2 I3 I4 I5]. split; [by constructor|]. constructor; simpl; done || lia || auto.
Qed.

Lemma good_advanceCommitIndex : keeps good (advanceCommitIndex opts clock randomRange).
Proof.
  intros s. unfold advanceCommitIndex. apply wp_bind, wp_get.
  destruct (negb _); [by apply wp_ret|]. destruct (Z.leb_spec (quorumMin (configuration s) Server_getMatchIndex) (commitIndex s)) as [|Hlt];
    [by apply wp_ret|].
  apply wp_bind, wp_assert; [done|]. intros _.
  apply wp_bind, (wp_keeps same_core); [auto with core|]. intros e s1 Hc1.
  destruct (negb _); [apply wp_ret; by apply same_core_good|].
  apply wp_bind, wp_modify, wp_bind, wp_assert; [done|]. intros _.
  apply wp_bind, (wp_keeps same_core); [auto with core|]. intros [] s2 Hc2.
  assert (good s s2) as Hgood.
  { eapply good_trans; [by apply same_core_good|]. eapply good_trans; [|by apply same_core_good].
    apply good_commitIndex. unfold same_core in Hc1. destruct_and!. lia. }
  apply wp_bind, wp_get. destruct (_ && _); [|by apply wp_ret].
  destruct (negb _).
  { eapply wp_mono; [apply good_stepDown_succ|done|]. intros [] s3 Hc3. by eapply good_trans. }
  destruct (bool_decide _); [|by apply wp_ret].
  apply wp_bind, (wp_keeps same_core); [auto with core|]. intros stamp s3 Hc3.
  apply (wp_keeps same_core); [auto with core|]. intros [] s4 Hc4.
  eapply good_trans; [exact Hgood|]. eapply good_trans; by apply same_core_good.
Qed.

Lemma wp_becomeLeader s (Q : unit -> R -> Prop) :
  core_inv s ->
  (forall s', core_inv s' -> delta s s' -> state s' = LEADER -> currentTerm s' = currentTerm s -> Q tt s') ->
  wp (fun _ => True) (becomeLeader clock) Q s.
Proof.
  intros [I1 I2 I3 I4 I5] HQ. unfold becomeLeader. apply wp_bind, wp_get, wp_bind, wp_assert; [done|].
  intros Hcand. apply bool_decide_eq_true in Hcand. destruct (I3 Hcand) as [Hl Hv].
  apply wp_bind, wp_modify.
  set (s1 := set_field _ _). assert (core_inv s1 /\ delta s s1) as [Hinv1 Hd1].
  { split; constructor; subst s1; simpl; try done; try lia. }
  do 3 (apply wp_bind, (wp_keeps same_core); [auto with core|intros ? ? ?]).
  apply wp_bind, (wp_keeps same_core); [auto with core|]. intros [] s5 Hc5.
  apply (wp_keeps same_core); [auto with core|]. intros [] s6 Hc6.
  assert (same_core s1 s6) as Hc16 by (repeat (etransitivity; [eassumption|]); done).
  destruct (same_core_good _ _ Hc16 Hinv1) as [Hinv6 Hd6]. apply HQ; [done|by eapply delta_trans| |];
    unfold same_core in Hc16; destruct_and!; subst s1; simpl in *; congruence.
Qed.

Lemma good_becomeLeader : keeps good (becomeLeader clock).
Proof.
  intros s. destruct (becomeLeader clock s) as [[a s']|f] eqn:Hrun; unfold post, wp; rewrite Hrun; [|done].
  intros Hinv. pose proof (wp_becomeLeader s (fun _ s' => core_inv s' /\ delta s s') Hinv) as Hwp.
  unfold wp in Hwp. rewrite Hrun in Hwp. apply Hwp. by intros.
Qed.

(** Assignments that move the commit index and the last snapshot forwards. *)
Lemma good_indexes s i j :
  commitIndex s <= i -> lastSnapshotIndex s <= j ->
  good s (s <| commitIndex := i |> <| lastSnapshotIndex := j |>).
Proof.
  intros Hi Hj [I1 I2 I3 I4 I5]. split; [by constructor|]. constructor; simpl; done || lia || auto.
Qed.

(** Composition of operations that are [good]. *)

Lemma good_bind {A B} (m : M R A) (k : A -> M R B) :
  keeps good m -> (forall a, keeps good (k a)) -> keeps good (bind m k).
Proof. apply keeps_bind; apply _. Qed.

Lemma good_ret {A} (a : A) : keeps good (ret a).
Proof. apply keeps_ret; apply _. Qed.

Lemma good_when b (m : M R unit) : keeps good m -> keeps good (when b m).
Proof. apply keeps_when; apply _. Qed.

Lemma good_get : keeps good get.
Proof. intros s. by apply wp_get. Qed.

Lemma good_fail {A} f : keeps good (fail (A:=A) f).
Proof. intros s. by apply wp_fail. Qed.

Lemma good_lift {A} (o : outcome A) : keeps good (lift o).
Proof. intros s. apply wp_lift. by destruct o. Qed.

Create HintDb good.
#[local] Hint Resolve good_ret good_get good_fail good_lift good_advanceCommitIndex good_becomeLeader : good.
#[local] Hint Extern 2 (keeps good _) =>
  apply keeps_good; solve [auto with core | by apply same_core_modify] : good.

(** Takes an operation apart; what is left are the steps that need an argument. *)
Ltac good_go :=
  repeat match goal with
    | |- keeps good _ => solve [eauto with good]
    | |- keeps good (bind _ _) => apply good_bind; [|intros ?]
    | |- keeps good (when _ _) => apply good_when
    | |- keeps good (if ?b then _ else _) => destruct b
    | |- keeps good (match ?x with _ => _ end) => destruct x
    end.

(** ** Requests from other servers *)

(** A request of the current leader, who is not this server, makes it a
    follower that knows its leader: two leaders of a term are an assertion
    failure. *)
Lemma wp_accept_leader {A} newTerm id (k : M R A) s (Q : A -> R -> Prop) :
  core_inv s -> id <> self ->
  (forall s', core_inv s' -> delta s s' -> state s' = FOLLOWER -> currentTerm s' = newTerm ->
     leaderId s' = id -> wp (fun _ => True) k Q s') ->
  wp (fun _ => True)
    (stepDown opts clock randomRange newTerm ;;;
     heard_from_leader opts clock randomRange ;;; record_leader id ;;; k) Q s.
Proof.
  intros [I1 I2 I3 I4 I5] Hid HQ. apply wp_bind, wp_stepDown; [done|done|].
  intros s1 Hle Ht1 Hid1 Hex1 Hst1 Hc1 He1 Hl1 Hv1 Hm1 Hs1 Hn1.
  apply wp_bind, (wp_keeps same_core); [auto with core|]. intros [] s2 Hcore.
  destruct (same_core_on_disk _ _ _ Hcore Hm1 Hs1) as [Hm2 Hs2].
  apply wp_bind. unfold record_leader. apply wp_bind, wp_get. unfold same_core in Hcore. destruct_and!.
  assert (forall s3, leaderId s3 = id -> leaderId s2 = 0 \/ leaderId s2 = id ->
    raft_serverId s3 = raft_serverId s2 -> exiting s3 = exiting s2 ->
    currentTerm s3 = currentTerm s2 -> state s3 = state s2 -> commitIndex s3 = commitIndex s2 ->
    votedFor s3 = votedFor s2 -> lastSnapshotIndex s3 = lastSnapshotIndex s2 ->
    log s3 = log s2 -> wp (fun _ => True) k Q s3) as Hk.
  { intros s3 Hl3 Hor. intros. apply HQ; try congruence.
    - constructor; unfold persistent_state in *; congruence.
    - constructor; try congruence; try lia. intros Hsame.
      rewrite decide_True in Hl1 by congruence. rewrite decide_True in Hv1 by congruence.
      split_and!; intros Hpre.
      + destruct Hor; congruence.
      + congruence.
      + destruct (I2 Hpre). destruct Hor; congruence. }
  destruct (Z.eqb_spec (leaderId s2) 0).
  - apply wp_modify, Hk; simpl; auto.
  - apply wp_assert; [done|]. intros ?%Z.eqb_eq. apply Hk; auto; congruence.
Qed.

Lemma good_wp {A} (m : M R A) s (Q : A -> R -> Prop) s0 :
  keeps good m -> core_inv s -> delta s0 s ->
  (forall a s', core_inv s' -> delta s0 s' -> Q a s') -> wp (fun _ => True) m Q s.
Proof.
  intros Hm Hs Hd HQ. apply (wp_keeps good); [done|]. intros a s' Hg.
  destruct (Hg Hs) as [Hs' Hd']. apply HQ; [done|]. by eapply delta_trans.
Qed.

(** To show [keeps good], the invariant may be assumed. *)
Lemma keeps_good_intro {A} (m : M R A) :
  (forall s, core_inv s -> post m (fun _ s' => core_inv s' /\ delta s s') s) -> keeps good m.
Proof.
  intros Hm s. unfold post, wp. destruct (m s) as [[a s']|f] eqn:Hrun; [|done]. intros Hs.
  specialize (Hm s Hs). unfold post, wp in Hm. by rewrite Hrun in Hm.
Qed.

Lemma good_restart {A} (m : M R A) s0 s :
  keeps good m -> core_inv s -> delta s0 s -> post m (fun _ s' => core_inv s' /\ delta s0 s') s.
Proof. intros. eapply good_wp; eauto. Qed.

Lemma good_append_loop i es : keeps good (append_loop clock i es).
Proof.
  revert i. induction es as [|e es IH]; intros i; simpl; [apply good_ret|].
  apply good_bind; [destruct (Log.index e); good_go|]. intros _. good_go.
  unfold check_types. apply keeps_forM; [apply _|]. intros e'. good_go.
Qed.
#[local] Hint Resolve good_append_loop : good.

Lemma good_prev_entry_agrees r : keeps good (prev_entry_agrees r).
Proof. unfold prev_entry_agrees. good_go. Qed.
#[local] Hint Resolve good_prev_entry_agrees : good.

Lemma good_handleAppendEntries request :
  ae_server_id request <> self -> keeps good (handleAppendEntries opts clock randomRange request).
Proof.
  intros Hid. apply keeps_good_intro. intros s Hs. unfold handleAppendEntries.
  apply wp_bind, wp_get, wp_bind, wp_assert; [done|]. intros _.
  destruct (ae_term request <? currentTerm s); [by apply wp_ret; split; [|apply delta_refl]|].
  apply wp_accept_leader; [done|done|]. intros s1 Hs1 Hd1 _ _ _.
  apply good_restart; [|done|done]. apply good_bind; [good_go|]. intros agrees.
  destruct (negb agrees); [good_go|]. apply good_bind; [good_go|]. intros _.
  intros s2. apply wp_bind, wp_get, wp_bind.
  assert (forall k s3, keeps good k -> good s2 s3 ->
    post (A:=AppendEntries_Response) k (fun _ s' => good s2 s') s3) as Hrest.
  { intros k s3 Hk Hg. apply (wp_keeps good); [done|]. intros _ s4 Hg'. by eapply good_trans. }
  apply wp_when; [|by intros _; apply Hrest; [good_go|]].
  intros Hlt%Z.ltb_lt. apply wp_bind, wp_modify, wp_bind, wp_assert; [done|]. intros _.
  apply (wp_keeps same_core); [auto with core|]. intros _ s3 Hc3%same_core_good.
  apply Hrest; [good_go|]. eapply good_trans; [|exact Hc3]. apply good_commitIndex. lia.
Qed.

(** An assignment to members the invariant does not mention, or that moves the
    commit index forwards. *)
Lemma good_modify f :
  (forall s, raft_serverId (f s) = raft_serverId s /\ (exiting s = true -> exiting (f s) = true) /\
     currentTerm (f s) = currentTerm s /\ state (f s) = state s /\ commitIndex s <= commitIndex (f s) /\ lastSnapshotIndex s <= lastSnapshotIndex (f s) /\
     leaderId (f s) = leaderId s /\ votedFor (f s) = votedFor s /\
     metadata (log (f s)) = metadata (log s) /\ saved_metadata (log (f s)) = saved_metadata (log s)) ->
  keeps good (modify f).
Proof.
  intros Hf s. apply wp_modify. intros [I1 I2 I3 I4 I5].
  destruct (Hf s) as (Ei & Ee & Et & Es & Ec & En & El & Ev & Em & Esv).
  split; constructor; unfold persistent_state in *; rewrite ?Ei, ?Et, ?Es, ?El, ?Ev, ?Em, ?Esv; auto; lia.
Qed.
#[local] Hint Extern 3 (keeps good (modify _)) =>
  apply good_modify; intros; simpl; split_and!; (done || lia) : good.

(** What reading a snapshot changes of these members: the commit index and the
    last snapshot. *)
Definition quiet (s s' : R) : Prop :=
  commitIndex s <= commitIndex s' /\ lastSnapshotIndex s <= lastSnapshotIndex s' /\
  same_core (s <| commitIndex := commitIndex s' |> <| lastSnapshotIndex := lastSnapshotIndex s' |>) s'.

#[local] Instance quiet_preorder : PreOrder quiet.
Proof.
  split; [by intros s; split_and!; [lia|lia|]|]. intros s1 s2 s3 (Hle1 & Hn1 & Hc1) (Hle2 & Hn2 & Hc2).
  split_and!; [lia|lia|]. unfold same_core in *. destruct_and!. simpl in *.
  split_and!; first [congruence | etransitivity; eassumption].
Qed.

Lemma quiet_same_core {A} (m : M R A) : keeps same_core m -> keeps quiet m.
Proof.
  intros Hm s. eapply wp_mono; [apply Hm|done|]. intros a s' Hc.
  unfold quiet, same_core in *. destruct_and!. simpl. split_and!; congruence || lia.
Qed.

Lemma quiet_good {A} (m : M R A) : keeps quiet m -> keeps good m.
Proof.
  intros Hm s. eapply wp_mono; [apply Hm|done|]. intros a s' (Hle & Hn & Hc%same_core_good).
  eapply good_trans; [|exact Hc]. by apply good_indexes.
Qed.

Lemma same_core_discard_log : keeps same_core (discard_log clock).
Proof. unfold discard_log. core_go. Qed.
#[local] Hint Resolve same_core_discard_log : core.

Lemma quiet_load_header rd : keeps quiet (load_header clock rd).
Proof.
  intros s. unfold load_header. apply wp_bind, wp_lift. destruct (read_header rd) as [[h rd']|]; [|done].
  apply wp_bind, wp_get. destruct (Z.ltb_spec (last_included_index h) (lastSnapshotIndex s)); [done|]. apply wp_bind, wp_modify.
  set (s1 := set_field _ _). assert (quiet s s1) as Hq1 by (split_and!; [subst s1; simpl; lia..|done]).
  assert (forall (m : M R Reader), keeps same_core m -> wp (fun _ => True) m (fun _ s' => quiet s s') s1) as Hrest.
  { intros m Hm. eapply (wp_keeps quiet); [by apply quiet_same_core|]. intros ? s' ?. by etransitivity. }
  apply Hrest. core_go.
Qed.

Lemma quiet_readSnapshot : keeps quiet (readSnapshot clock).
Proof.
  intros s. unfold readSnapshot. apply wp_bind, wp_get.
  assert (forall rd : option Reader, keeps same_core (let! s := get in
    if u64 (lastSnapshotIndex s + 1) <? getLogStartIndex (log s) then fail Panicked else
    modify (fun s => s <| snapshotReader := rd |>))) as Hrest by (intros rd; core_go).
  apply wp_bind. eapply (wp_mono _ _ _ (fun _ s' => quiet s s')); [|done|].
  - destruct (Reader_init _); [|by apply wp_ret]. apply wp_bind.
    apply (wp_keeps quiet); [apply quiet_load_header|]. intros rd s' ?. by apply wp_ret.
  - intros rd s1 Hq. apply (wp_keeps quiet); [apply quiet_same_core, Hrest|]. intros ? s2 ?. by etransitivity.
Qed.

Lemma good_readSnapshot : keeps good (readSnapshot clock).
Proof. apply quiet_good, quiet_readSnapshot. Qed.
#[local] Hint Resolve good_readSnapshot : good.

Lemma good_the_writer : keeps good (the_writer clock stagingNameAt).
Proof. unfold the_writer. good_go. Qed.
#[local] Hint Resolve good_the_writer : good.

(** Reads the term and steps down to the next one. *)
Lemma good_stepDown_next :
  keeps good (let! s := get in stepDown opts clock randomRange (u64 (currentTerm s + 1))).
Proof. intros s. apply wp_bind, wp_get, good_stepDown_succ. Qed.

Lemma good_stepDown_then {A} (k : M R A) :
  keeps good k ->
  keeps good (let! s := get in stepDown opts clock randomRange (u64 (currentTerm s + 1)) ;;; k).
Proof.
  intros Hk s. apply wp_bind, wp_get, wp_bind. eapply wp_mono; [apply good_stepDown_succ|done|].
  intros [] s1 Hg. apply (wp_keeps good); [done|]. intros a s2 Hg'. by eapply good_trans.
Qed.

Lemma good_handleInstallSnapshot request :
  is_server_id request <> self ->
  keeps good (handleInstallSnapshot opts clock randomRange stagingNameAt request).
Proof.
  intros Hid. apply keeps_good_intro. intros s Hs. unfold handleInstallSnapshot.
  apply wp_bind, wp_get, wp_bind, wp_assert; [done|]. intros _.
  destruct (is_term request <? currentTerm s); [by apply wp_ret; split; [|apply delta_refl]|].
  apply wp_accept_leader; [done|done|]. intros s1 Hs1 Hd1 _ _ _.
  apply good_restart; [|done|done]. apply good_bind; [good_go|]. intros w.
  destruct (_ <? bytesWritten w); [good_go|]. destruct (bytesWritten w <? _).
  - destruct (match is_version request with Some v => v <? 2 | None => true end); [|good_go].
    apply good_stepDown_then. good_go.
  - good_go.
Qed.

Lemma wp_handleRequestVote_vote request s (Q : unit -> R -> Prop) :
  core_inv s -> votedFor s = 0 ->
  (forall s', core_inv s' -> delta s s' -> state s' = FOLLOWER -> currentTerm s' = currentTerm s ->
     votedFor s' = rv_server_id request -> Q tt s') ->
  wp (fun _ => True)
    (stepDown opts clock randomRange (currentTerm s) ;;;
     setElectionTimer opts clock randomRange ;;;
     modify (fun s => s <| votedFor := rv_server_id request |>) ;;;
     updateLogMetadata) Q s.
Proof.
  intros Hs Hv HQ. assert (state s <> LEADER) as Hnl.
  { intros Hl. destruct Hs as [I1 I2]. destruct (I2 Hl). congruence. }
  apply wp_bind, wp_stepDown_good; [done|done|]. intros s1 [I1 I2 I3 I4 I5] Hd1 Hst1 Ht1 Hl1 Hv1.
  apply wp_bind, (wp_keeps same_core); [auto with core|]. intros [] s2 Hc2.
  apply wp_bind, wp_modify, wp_updateLogMetadata. intros s3. intros. unfold same_core in Hc2.
  destruct_and!. rewrite decide_True in Hl1, Hv1 by done.
  unfold persistent_state in *. simpl in *. apply HQ; try congruence.
  - constructor; unfold persistent_state; congruence.
  - destruct Hd1 as [D1 D2 D3 D4 D5 D6]. constructor; try congruence; try lia.
    + intros Hex. specialize (D2 Hex). congruence.
    + intros _. split_and!; congruence.
Qed.

(** Is the candidate's log at least as up to date? *)
Definition log_up_to_date (lastLogTerm lastLogIndex : Z) (request : RequestVote_Request) : bool :=
  (lastLogTerm <? rv_last_log_term request) ||
  ((rv_last_log_term request =? lastLogTerm) && (lastLogIndex <=? rv_last_log_index request)).

(** The rule for votes, from the term and the vote before the request. *)
Definition grants (s : R) (logIsOk : bool) (request : RequestVote_Request) : bool :=
  if currentTerm s <? rv_term request then logIsOk
  else (rv_term request =? currentTerm s) &&
       ((votedFor s =? rv_server_id request) || (logIsOk && (votedFor s =? 0))).

(** Once the term is settled: the vote itself and the answer. *)
Lemma wp_vote_in_term request logIsOk s (Q : RequestVote_Response -> R -> Prop) :
  core_inv s -> rv_server_id request <> 0 ->
  (forall granted s', core_inv s' -> delta s s' -> currentTerm s' = currentTerm s ->
     granted = (rv_term request =? currentTerm s) &&
               ((votedFor s =? rv_server_id request) || (logIsOk && (votedFor s =? 0))) ->
     (granted = true -> votedFor s' = rv_server_id request) ->
     Q (mkRequestVote_Response (currentTerm s) granted (Some logIsOk)) s') ->
  wp (fun _ => True)
    (let! s := get in
     when ((rv_term request =? currentTerm s) && (logIsOk && (votedFor s =? 0))) (
       stepDown opts clock randomRange (currentTerm s) ;;;
       setElectionTimer opts clock randomRange ;;;
       modify (fun s => s <| votedFor := rv_server_id request |>) ;;;
       updateLogMetadata) ;;;
     let! s := get in
     ret (mkRequestVote_Response (currentTerm s)
            ((rv_term request =? currentTerm s) && (votedFor s =? rv_server_id request))
            (Some logIsOk))) Q s.
Proof.
  intros Hs Hid HQ. apply wp_bind, wp_get, wp_bind, wp_when.
  - intros [Ht [-> Hv%Z.eqb_eq]%andb_prop]%andb_prop.
    apply wp_handleRequestVote_vote; [done|done|]. intros s' Hs' Hd' _ Ht' Hv'.
    apply wp_bind, wp_get, wp_ret. rewrite Ht', Hv', Ht, Z.eqb_refl. apply HQ; try done.
    rewrite Ht, Hv, Z.eqb_refl. simpl. by rewrite orb_true_r.
  - intros Hno. apply wp_bind, wp_get, wp_ret. apply HQ; try done.
    + destruct (rv_term request =? currentTerm s); [|done]. simpl in *. by rewrite Hno, orb_false_r.
    + by intros [_ ?%Z.eqb_eq]%andb_prop.
Qed.

Lemma getLastLogTerm_pure s : post getLastLogTerm (fun t s' => getLastLogTerm s = Ok (t, s) /\ s' = s) s.
Proof.
  unfold post, wp. destruct (getLastLogTerm s) as [[t s']|f] eqn:Hrun; [|done].
  assert (s' = s) as ->; [|done]. revert Hrun. unfold getLastLogTerm, log_entry, bind, get, lift, assert_.
  destruct (_ <=? _).
  - destruct (getEntry _ _); [by intros [= _ ->]|done].
  - destruct (_ =? _); [by intros [= _ ->]|done].
Qed.

(** Everything [handleRequestVote] promises. *)
Lemma wp_handleRequestVote request s (Q : RequestVote_Response -> R -> Prop) :
  core_inv s -> rv_server_id request <> 0 ->
  (forall lastLogTerm granted s', getLastLogTerm s = Ok (lastLogTerm, s) ->
     let logIsOk := log_up_to_date lastLogTerm (getLastLogIndex (log s)) request in
     core_inv s' -> delta s s' ->
     granted = negb (clock (ticks s) <? withholdVotesUntil s) && grants s logIsOk request ->
     (granted = true -> currentTerm s' = rv_term request /\ votedFor s' = rv_server_id request) ->
     Q (mkRequestVote_Response (currentTerm s') granted (Some logIsOk)) s') ->
  wp (fun _ => True) (handleRequestVote opts clock randomRange request) Q s.
Proof.
  intros Hs Hid HQ. unfold handleRequestVote. apply wp_bind, wp_get, wp_bind, wp_assert; [done|]. intros _.
  apply wp_bind. eapply wp_mono; [apply getLastLogTerm_pure|done|]. intros lastLogTerm ? [Hlt ->].
  apply wp_bind, wp_bind, wp_get, wp_bind, wp_put, wp_ret. specialize (HQ lastLogTerm).
  set (s1 := s <| ticks := _ |>). fold (log_up_to_date lastLogTerm (getLastLogIndex (log s)) request).
  set (logIsOk := log_up_to_date _ _ _) in *.
  assert (core_inv s1 /\ delta s s1) as [Hs1 Hd1] by (apply (same_core_good s s1); [done|done]).
  destruct (clock (ticks s) <? withholdVotesUntil s); [by apply wp_ret, (HQ false s1)|].
  apply wp_bind, wp_when.
  - intros Hlt1. apply wp_stepDown_good; [done|simpl; lia|].
    intros s2 Hs2 Hd2 _ Ht2 _ Hv2. apply Z.ltb_lt in Hlt1. rewrite decide_False in Hv2 by (simpl; lia).
    apply wp_vote_in_term; [done|done|]. intros granted s3 Hs3 Hd3 Ht3 Hgr Hv3.
    rewrite <-Ht3. apply HQ; try done; [eapply delta_trans; [|done]; by eapply delta_trans| |].
    + rewrite Hgr, Ht2, Hv2, Z.eqb_refl. unfold grants. rewrite (proj2 (Z.ltb_lt _ _)) by done.
      destruct (Z.eqb_spec 0 (rv_server_id request)); [congruence|]. simpl. by rewrite andb_true_r.
    + intros Htrue. split; [congruence|auto].
  - intros Hge. apply wp_vote_in_term; [done|done|]. intros granted s3 Hs3 Hd3 Ht3 Hgr Hv3.
    rewrite <-Ht3. apply HQ; try done; [by eapply delta_trans| |].
    + rewrite Hgr. unfold grants. by rewrite Hge.
    + intros Htrue. split; [|auto]. rewrite Htrue in Hgr. symmetry in Hgr.
      apply andb_prop in Hgr as [?%Z.eqb_eq _]. congruence.
Qed.

Lemma good_handleRequestVote request :
  rv_server_id request <> 0 -> keeps good (handleRequestVote opts clock randomRange request).
Proof.
  intros Hid. apply keeps_good_intro. intros s Hs. apply wp_handleRequestVote; [done|done|]. by intros.
Qed.

(** ** Requests to other servers *)

Lemma good_Peer_callRPC {Resp} r (reply : M R (RPCStatus * Resp)) :
  keeps good reply -> keeps good (Peer_callRPC r reply).
Proof. intros Hr. unfold Peer_callRPC. good_go. Qed.

Lemma get_peer_pure r (s : R) : post (get_peer r) (fun _ s' => s' = s) s.
Proof.
  unfold get_peer. apply wp_bind, wp_get. destruct (_ !! r) as [srv|]; [|done].
  by destruct (kind srv); [done|apply wp_ret].
Qed.

Lemma good_requestVote r send :
  (forall q, keeps good (send q)) -> keeps good (requestVote opts clock randomRange r send).
Proof.
  intros Hsend. unfold requestVote. apply good_bind; [good_go|]. intros s0.
  apply good_bind; [good_go|]. intros lastLogTerm. apply good_bind; [good_go|]. intros start.
  apply good_bind; [by apply good_Peer_callRPC|]. intros [[] response]; [|good_go|good_go].
  intros s. apply wp_bind, wp_get, wp_bind. eapply wp_mono; [apply get_peer_pure|done|]. intros p ? ->.
  destruct (_ || _); [by apply wp_ret|]. destruct (Z.ltb_spec (currentTerm s) (rvr_term response)).
  { apply good_stepDown. lia. }
  refine ((_ : keeps good _) s). good_go.
Qed.

Lemma good_installSnapshot r send :
  (forall q, keeps good (send q)) -> keeps good (installSnapshot opts clock randomRange r send).
Proof.
  intros Hsend. unfold installSnapshot. apply good_bind; [good_go|]. intros s0.
  do 5 (apply good_bind; [good_go|intros ?]).
  apply good_bind; [by apply good_Peer_callRPC|]. intros [[] response]; [|good_go|good_go].
  intros s. apply wp_bind, wp_get, wp_bind. eapply wp_mono; [apply get_peer_pure|done|]. intros p ? ->.
  destruct (_ || _); [by apply wp_ret|]. apply wp_bind, wp_assert; [done|]. intros _.
  destruct (Z.ltb_spec (currentTerm s) (isr_term response)).
  { apply good_stepDown. lia. }
  refine ((_ : keeps good _) s). good_go.
Qed.

Lemma good_process_append_response r response i :
  keeps good (process_append_response opts clock randomRange r response i).
Proof. unfold process_append_response. good_go. Qed.
#[local] Hint Resolve good_process_append_response : good.

Lemma good_appendEntries entry_size request_size r send send_snapshot :
  (forall q, keeps good (send q)) -> (forall q, keeps good (send_snapshot q)) ->
  keeps good (appendEntries opts clock randomRange entry_size request_size send send_snapshot r).
Proof.
  intros Hsend Hsnap. pose proof (good_installSnapshot r send_snapshot Hsnap).
  unfold appendEntries, prev_log_term. do 3 (apply good_bind; [good_go|intros ?]).
  destruct (_ <? _); [good_go|]. apply good_bind; [good_go|]. intros [prevLogTerm|]; [|good_go].
  do 2 (apply good_bind; [good_go|intros ?]).
  apply good_bind; [by apply good_Peer_callRPC|]. intros [[] response]; [|good_go|good_go].
  intros s. apply wp_bind, wp_get, wp_bind. eapply wp_mono; [apply get_peer_pure|done|]. intros p ? ->.
  destruct (_ || _); [by apply wp_ret|]. apply wp_bind, wp_assert; [done|]. intros _. apply wp_bind.
  eapply (wp_mono _ _ _ (fun _ s' => good s s')); [|done|].
  - destruct (Z.ltb_spec (currentTerm s) (aer_term response)); [apply good_stepDown; lia|].
    refine ((_ : keeps good _) s). good_go.
  - intros ? s1 Hg. apply (wp_keeps good); [good_go|]. intros ? s2 Hg'. by eapply good_trans.
Qed.

(** ** Requests from clients and from the state machine *)

Lemma good_scheduleHeartbeats : keeps good (scheduleHeartbeats clock).
Proof.
  unfold scheduleHeartbeats. apply good_bind; [good_go|]. intros s.
  apply keeps_forM; [apply _|]. intros r. good_go.
Qed.

Lemma good_upToDate_commitTerm : keeps good upToDate_commitTerm.
Proof. unfold upToDate_commitTerm. good_go. Qed.
#[local] Hint Resolve good_scheduleHeartbeats good_upToDate_commitTerm : good.

Lemma good_upToDateLeader_loop epoch sched :
  (forall env, env ∈ sched -> keeps good env) -> keeps good (upToDateLeader_loop epoch sched).
Proof.
  induction sched as [|env sched IH]; intros Henv; simpl; good_go.
  - apply Henv, list_elem_of_here.
  - apply IH. intros env' Hin. by apply Henv, list_elem_of_further.
Qed.

Lemma good_upToDateLeader sched :
  (forall env, env ∈ sched -> keeps good env) -> keeps good (upToDateLeader clock sched).
Proof. intros. unfold upToDateLeader. good_go. by apply good_upToDateLeader_loop. Qed.

Lemma good_getConfiguration sched :
  (forall env, env ∈ sched -> keeps good env) -> keeps good (getConfiguration clock sched).
Proof. intros Henv%good_upToDateLeader. unfold getConfiguration. good_go. Qed.

Lemma good_getLastCommitIndex sched :
  (forall env, env ∈ sched -> keeps good env) -> keeps good (getLastCommitIndex clock sched).
Proof. intros Henv%good_upToDateLeader. unfold getLastCommitIndex. good_go. Qed.

Lemma good_committed_entry i : keeps good (committed_entry clock i).
Proof.
  unfold committed_entry. apply good_bind; [good_go|]. intros s. destruct (_ <? _); [|good_go].
  apply good_bind; [good_go|]. intros _. apply keeps_good. core_go.
Qed.
#[local] Hint Resolve good_committed_entry : good.

Lemma good_getNextEntry i sched :
  (forall env, env ∈ sched -> keeps good env) -> keeps good (RaftConsensus_getNextEntry clock i sched).
Proof.
  induction sched as [|env sched IH]; intros Henv; simpl; good_go.
  - apply Henv, list_elem_of_here.
  - apply IH. intros env' Hin. by apply Henv, list_elem_of_further.
Qed.

Lemma good_wait_committed t i sched :
  (forall env, env ∈ sched -> keeps good env) -> keeps good (wait_committed t i sched).
Proof.
  induction sched as [|env sched IH]; intros Henv; simpl; good_go.
  - apply Henv, list_elem_of_here.
  - apply IH. intros env' Hin. by apply Henv, list_elem_of_further.
Qed.

Lemma good_replicateEntry e sched :
  (forall env, env ∈ sched -> keeps good env) -> keeps good (replicateEntry clock e sched).
Proof. intros. unfold replicateEntry. good_go. by apply good_wait_committed. Qed.

Lemma good_wait_caught_up t epoch at_ sched :
  (forall env, env ∈ sched -> keeps good env) ->
  keeps good (wait_caught_up opts clock t epoch at_ sched).
Proof.
  revert epoch at_. induction sched as [|env sched IH]; intros epoch at_ Henv; simpl; good_go.
  - apply Henv, list_elem_of_here.
  - apply IH. intros env' Hin. by apply Henv, list_elem_of_further.
Qed.

Lemma good_wait_stable t i sched :
  (forall env, env ∈ sched -> keeps good env) -> keeps good (wait_stable t i sched).
Proof.
  induction sched as [|env sched IH]; intros Henv; simpl; good_go.
  - apply Henv, list_elem_of_here.
  - apply IH. intros env' Hin. by apply Henv, list_elem_of_further.
Qed.

Lemma good_setConfiguration request catch_up commit stable :
  (forall env, env ∈ catch_up ++ commit ++ stable -> keeps good env) ->
  keeps good (setConfiguration opts clock request catch_up commit stable).
Proof.
  intros Henv. assert (forall env, env ∈ catch_up -> keeps good env) as Hcatch.
  { intros ? ?. apply Henv, elem_of_app. by left. }
  assert (forall env, env ∈ commit -> keeps good env) as Hcommit.
  { intros ? ?. apply Henv, elem_of_app. right. apply elem_of_app. by left. }
  assert (forall env, env ∈ stable -> keeps good env) as Hstable.
  { intros ? ?. apply Henv, elem_of_app. right. apply elem_of_app. by right. }
  pose proof (fun e => good_replicateEntry e _ Hcommit).
  pose proof (fun t epoch at_ => good_wait_caught_up t epoch at_ _ Hcatch).
  pose proof (fun t i => good_wait_stable t i _ Hstable).
  unfold setConfiguration. good_go.
Qed.

Lemma good_setSupported lo hi : keeps good (RaftConsensus_setSupportedStateMachineVersions lo hi).
Proof. unfold RaftConsensus_setSupportedStateMachineVersions. good_go. Qed.

Lemma good_snapshot_term_and_time i : keeps good (snapshot_term_and_time i).
Proof. unfold snapshot_term_and_time. good_go. Qed.
#[local] Hint Resolve good_snapshot_term_and_time : good.

Lemma good_beginSnapshot i : keeps good (RaftConsensus_beginSnapshot clock stagingNameAt i).
Proof. unfold RaftConsensus_beginSnapshot. good_go. Qed.

Lemma good_snapshotDone i w : keeps good (RaftConsensus_snapshotDone clock i w).
Proof.
  intros s. unfold RaftConsensus_snapshotDone. apply wp_bind, wp_get.
  destruct (Z.leb_spec i (lastSnapshotIndex s)) as [|Hlt].
  { refine ((_ : keeps good _) s). good_go. }
  do 2 (apply wp_bind, wp_assert; [done|]; intros _).
  apply wp_bind, (wp_keeps same_core); [auto with core|]. intros [size w'] s1 Hc1.
  apply wp_bind, (wp_keeps same_core); [auto with core|]. intros e s2 Hc2.
  assert (good s s2) as Hg2 by (eapply good_trans; by apply same_core_good).
  assert (lastSnapshotIndex s2 = lastSnapshotIndex s) as Hn2 by (unfold same_core in *; destruct_and!; congruence).
  apply wp_bind, wp_modify.
  set (s3 := set_field _ _). assert (good s s3) as Hg3.
  { eapply good_trans; [exact Hg2|]. eapply good_trans; [apply (good_indexes s2 (commitIndex s2) i); lia|].
    by apply same_core_good. }
  assert (forall m : M R unit, keeps good m -> post m (fun _ s' => good s s') s3) as Hrest.
  { intros m Hm. apply (wp_keeps good); [done|]. intros ? s4 Hg. by eapply good_trans. }
  apply Hrest. good_go.
Qed.

(** ** Threads *)

(** A new term, as a candidate that voted for itself; the term must not wrap. *)
Lemma good_startNewElection s :
  currentTerm s < u64_max ->
  post (startNewElection opts clock randomRange) (fun _ s' => good s s') s.
Proof.
  intros Hmax. unfold post, wp. destruct (startNewElection _ _ _ s) as [[a s']|f] eqn:Hrun; [|done].
  intros [I1 I2 I3 I4 I5].
  enough (post (startNewElection opts clock randomRange) (fun _ s' => core_inv s' /\ delta s s') s) as Hpost.
  { unfold post, wp in Hpost. by rewrite Hrun in Hpost. }
  unfold startNewElection. apply wp_bind, wp_get. destruct (_ =? 0).
  { apply good_restart; [good_go|done|apply delta_refl]. }
  apply wp_bind, wp_modify. do 3 (apply wp_bind, (wp_keeps same_core); [auto with core|intros ? ? ?]).
  apply wp_bind, wp_updateLogMetadata. intros s5. intros.
  apply wp_bind, (wp_keeps same_core); [auto with core|]. intros [] s6 Hc6.
  destruct (same_core_on_disk _ _ (persistent_state s'2) Hc6) as [Hm6 Hv6]; [done..|].
  unfold same_core in *. destruct_and!. simpl in *.
  pose proof (u64_succ_gt _ Hmax).
  assert (core_inv s6 /\ delta s s6) as [Hs6 Hd6].
  { split; constructor; unfold persistent_state in *; try congruence; lia. }
  apply wp_bind, wp_get. refine (good_restart _ s s6 _ Hs6 Hd6). good_go.
Qed.

(** A server that gives up before its term would wrap around. *)
Definition timerThread_bounded : M R unit := fun s =>
  if currentTerm s <? u64_max then timerThread_step opts clock randomRange s else Fail Blocked.

Lemma good_timerThread : keeps good timerThread_bounded.
Proof.
  intros s. enough (currentTerm s < u64_max ->
    post (timerThread_step opts clock randomRange) (fun _ s' => good s s') s) as Hen.
  { unfold post, wp, timerThread_bounded in *. destruct (Z.ltb_spec (currentTerm s) u64_max); [by apply Hen|done]. }
  intros Hmax. unfold timerThread_step. apply wp_bind, (wp_keeps same_core); [auto with core|]. intros t s1 Hc.
  apply wp_bind, wp_get. assert (currentTerm s1 = currentTerm s) by (unfold same_core in Hc; by destruct_and!).
  apply wp_when; intros _; [|by apply same_core_good].
  eapply wp_mono; [apply good_startNewElection; congruence|done|].
  intros ? s2 Hg. eapply good_trans; [|exact Hg]. by apply same_core_good.
Qed.

Lemma good_leaderDiskThread env env' :
  keeps good env -> keeps good env' -> keeps good (leaderDiskThread_step opts clock randomRange env env').
Proof. intros. unfold leaderDiskThread_step. good_go. Qed.

Lemma good_peerThread r m1 m2 : keeps good m1 -> keeps good m2 -> keeps good (peerThread_step clock r m1 m2).
Proof. intros. unfold peerThread_step. good_go. Qed.

Lemma good_stepDownThread l : keeps good (stepDownThread_step opts clock randomRange l).
Proof.
  intros s. unfold stepDownThread_step. apply wp_bind, wp_get. destruct l as [|at_ t epoch|].
  - refine ((_ : keeps good _) s). good_go.
  - destruct (exiting s); [by apply wp_ret|]. destruct (t <? currentTerm s); [by apply wp_ret|].
    destruct (_ <=? _); [by apply wp_ret|].
    apply wp_bind, (wp_keeps same_core); [auto with core|]. intros now1 s1 Hc.
    destruct (_ <=? _); [|by apply wp_ret, same_core_good].
    apply wp_bind. assert (currentTerm s = currentTerm s1) as -> by (unfold same_core in Hc; by destruct_and!).
    eapply wp_mono; [apply good_stepDown_succ|done|]. intros ? s2 Hg. apply wp_ret.
    eapply good_trans; [|exact Hg]. by apply same_core_good.
  - by apply wp_ret.
Qed.

Lemma good_stateMachineUpdater advance_command u sched :
  (forall env, env ∈ sched -> keeps good env) ->
  keeps good (stateMachineUpdaterThread_step opts clock advance_command u sched).
Proof.
  intros Henv. pose proof (fun e => good_replicateEntry e _ Henv).
  unfold stateMachineUpdaterThread_step. good_go.
Qed.

Lemma good_exit : keeps good RaftConsensus_exit.
Proof. unfold RaftConsensus_exit. good_go. Qed.

Lemma good_bootstrap : keeps good (bootstrapConfiguration opts clock randomRange).
Proof.
  intros s. unfold bootstrapConfiguration. apply wp_bind, wp_get. destruct (Z.eqb_spec (currentTerm s) 0); [|done].
  simpl. destruct (_ || _); [done|]. apply wp_bind.
  eapply wp_mono; [apply good_stepDown; lia|done|]. intros [] s1 Hg.
  apply (wp_keeps good); [good_go|]. intros ? s2 Hg'. by eapply good_trans.
Qed.

(** ** Every operation of the server

    What can run under the mutex of server [self], in any order and
    interleaved wherever a method waits: [bind] puts operations in sequence,
    and an argument that stands for the other threads is again an operation.
    Servers have nonzero ids, and no other server has this one's. With
    [any_snapshot], snapshots are done for indexes that were not begun, too; the
    state machine finishes those it has begun only ([op_takeSnapshot]). *)
Inductive operation_with (any_snapshot : bool) : forall A : Type, M R A -> Prop :=
| op_ret A (a : A) : operation_with any_snapshot A (ret a)
| op_bind A B (m : M R A) (k : A -> M R B) :
    operation_with any_snapshot A m -> (forall a, operation_with any_snapshot B (k a)) -> operation_with any_snapshot B (bind m k)
| op_handleRequestVote q :
    rv_server_id q <> 0 -> operation_with any_snapshot _ (handleRequestVote opts clock randomRange q)
| op_handleAppendEntries q :
    ae_server_id q <> self -> operation_with any_snapshot _ (handleAppendEntries opts clock randomRange q)
| op_handleInstallSnapshot q :
    is_server_id q <> self ->
    operation_with any_snapshot _ (handleInstallSnapshot opts clock randomRange stagingNameAt q)
| op_requestVote r send :
    (forall q, operation_with any_snapshot _ (send q)) -> operation_with any_snapshot _ (requestVote opts clock randomRange r send)
| op_installSnapshot r send :
    (forall q, operation_with any_snapshot _ (send q)) -> operation_with any_snapshot _ (installSnapshot opts clock randomRange r send)
| op_appendEntries entry_size request_size r send send_snapshot :
    (forall q, operation_with any_snapshot _ (send q)) -> (forall q, operation_with any_snapshot _ (send_snapshot q)) ->
    operation_with any_snapshot _ (appendEntries opts clock randomRange entry_size request_size send send_snapshot r)
| op_getConfiguration sched :
    (forall env, env ∈ sched -> operation_with any_snapshot _ env) -> operation_with any_snapshot _ (getConfiguration clock sched)
| op_getLastCommitIndex sched :
    (forall env, env ∈ sched -> operation_with any_snapshot _ env) -> operation_with any_snapshot _ (getLastCommitIndex clock sched)
| op_getNextEntry i sched :
    (forall env, env ∈ sched -> operation_with any_snapshot _ env) -> operation_with any_snapshot _ (RaftConsensus_getNextEntry clock i sched)
| op_replicate command sched :
    (forall env, env ∈ sched -> operation_with any_snapshot _ env) -> operation_with any_snapshot _ (replicate clock command sched)
| op_setConfiguration q catch_up commit stable :
    (forall env, env ∈ catch_up ++ commit ++ stable -> operation_with any_snapshot _ env) ->
    operation_with any_snapshot _ (setConfiguration opts clock q catch_up commit stable)
| op_setSupportedStateMachineVersions lo hi :
    operation_with any_snapshot _ (RaftConsensus_setSupportedStateMachineVersions lo hi)
| op_beginSnapshot i : operation_with any_snapshot _ (RaftConsensus_beginSnapshot clock stagingNameAt i)
| op_snapshotDone i w : any_snapshot = true -> operation_with any_snapshot _ (RaftConsensus_snapshotDone clock i w)
| op_takeSnapshot i others :
    (forall w, operation_with any_snapshot Writer (others w)) ->
    operation_with any_snapshot _
      (let! w := RaftConsensus_beginSnapshot clock stagingNameAt i in
       let! w := others w in RaftConsensus_snapshotDone clock i w)
| op_timerThread : operation_with any_snapshot _ timerThread_bounded
| op_leaderDiskThread env env' :
    operation_with any_snapshot _ env -> operation_with any_snapshot _ env' -> operation_with any_snapshot _ (leaderDiskThread_step opts clock randomRange env env')
| op_peerThread r m1 m2 :
    operation_with any_snapshot _ m1 -> operation_with any_snapshot _ m2 -> operation_with any_snapshot _ (peerThread_step clock r m1 m2)
| op_stepDownThread l : operation_with any_snapshot _ (stepDownThread_step opts clock randomRange l)
| op_stateMachineUpdater advance_command u sched :
    (forall env, env ∈ sched -> operation_with any_snapshot _ env) ->
    operation_with any_snapshot _ (stateMachineUpdaterThread_step opts clock advance_command u sched)
| op_bootstrap : operation_with any_snapshot _ (bootstrapConfiguration opts clock randomRange)
| op_exit : operation_with any_snapshot _ RaftConsensus_exit.

Abbreviation operation := (operation_with true).

Lemma good_operation any_snapshot A (m : M R A) : operation_with any_snapshot A m -> keeps good m.
Proof.
  induction 1; auto using good_ret, good_bind, good_handleRequestVote, good_handleAppendEntries,
    good_handleInstallSnapshot, good_requestVote, good_installSnapshot, good_appendEntries,
    good_getConfiguration, good_getLastCommitIndex, good_getNextEntry, good_setConfiguration,
    good_setSupported, good_beginSnapshot, good_snapshotDone, good_timerThread,
    good_leaderDiskThread, good_peerThread, good_stepDownThread, good_stateMachineUpdater, good_bootstrap, good_exit.
  by apply good_replicateEntry.
Qed.

Lemma tracked_timer_bounded : keeps tracked timerThread_bounded.
Proof.
  intros s. unfold timerThread_bounded, post, wp. destruct (_ <? _); [|done].
  apply (tracked_timerThread opts clock randomRange s).
Qed.

Lemma tracked_operation A (m : M R A) : operation_with false A m -> keeps tracked m.
Proof.
  induction 1; auto using tracked_ret, tracked_bind, tracked_handleRequestVote, tracked_handleAppendEntries,
    tracked_handleInstallSnapshot, tracked_requestVote, tracked_installSnapshot, tracked_appendEntries,
    tracked_getConfiguration, tracked_getLastCommitIndex, tracked_getNextEntry, tracked_setConfiguration,
    tracked_setSupported, tracked_beginSnapshot, tracked_takeSnapshot, tracked_timer_bounded,
    tracked_leaderDiskThread, tracked_peerThread, tracked_stepDownThread, tracked_stateMachineUpdater,
    tracked_bootstrap, tracked_exit.
  - by apply tracked_replicateEntry.
  - done.
Qed.

(** C14: Whatever operations run on a server, in whatever order and however they
    interleave at their waits, the invariant holds whenever the mutex is free
    and the state moves forwards only: the term, the commit index and the last
    snapshot never decrease, and within a term the leader, the vote and the
    leadership are fixed once set. If snapshots are only done as the state
    machine does them, after they were begun, then the last snapshot stays
    committed and goes on covering every entry before the log's start. *)
Theorem operations_move_forwards any_snapshot A (m : M R A) s a s' :
  operation_with any_snapshot A m -> core_inv s -> m s = Ok (a, s') ->
  core_inv s' /\ delta s s' /\ (any_snapshot = false -> snapshot_inv s -> snapshot_inv s').
Proof.
  intros Hop Hs Hrun. pose proof (good_operation _ A m Hop s) as Hgood.
  unfold post, wp in Hgood. rewrite Hrun in Hgood. destruct (Hgood Hs) as [Hs' Hd]. split_and!; [done..|].
  intros ->. pose proof (tracked_operation A m Hop s) as Htr. unfold post, wp in Htr. rewrite Hrun in Htr.
  by apply tracked_inv.
Qed.

(** ** Starting *)

Lemma same_core_read_configurations n i : keeps same_core (read_configurations clock n i).
Proof. revert i. induction n as [|n IH]; intros i; simpl; core_go. Qed.

Lemma init_spec addrs l dir :
  post (init opts clock randomRange) (fun _ s' =>
    core_inv s' /\ state s' = FOLLOWER /\ leaderId s' = 0 /\
    currentTerm s' = default 0 (meta_current_term (metadata l)) /\
    votedFor s' = default 0 (meta_voted_for (metadata l)))
    (RaftConsensus_construct self addrs l dir).
Proof.
  unfold init. apply wp_bind, wp_modify, wp_bind, wp_get.
  set (s0 := set_field _ _). apply wp_bind, (wp_keeps same_core); [apply same_core_read_configurations|].
  intros [] s1 Hc1. apply wp_bind, (wp_keeps same_core).
  { destruct (_ <=? _); [|intros s; by apply wp_ret]. core_go. }
  intros [] s2 Hc2. apply wp_bind, wp_modify, wp_bind, wp_updateLogMetadata. intros s3. intros.
  apply wp_bind, (wp_keeps quiet); [apply quiet_readSnapshot|]. intros [] s4 (_ & _ & Hc4).
  apply wp_bind, wp_modify, wp_bind, wp_get, wp_bind.
  match goal with Hm : metadata (log s3) = ?m |- _ => destruct (same_core_on_disk _ _ m Hc4) as [Hm4 Hv4]; [done..|] end.
  unfold same_core, same_metadata, persistent_state in *. destruct_and!. subst s0. simpl in *.
  apply wp_stepDown; [unfold persistent_state; simpl; congruence..|].
  intros s5 Hle Ht Hid Hex Hst _ _. simpl. rewrite !decide_True by done. intros Hl5 Hv5 Hm5 Hs5 _.
  apply (wp_keeps same_core); [auto with core|]. intros ? s6 Hc6.
  destruct (same_core_on_disk _ _ _ Hc6 Hm5 Hs5) as [Hm6 Hv6]. unfold same_core in Hc6. destruct_and!.
  unfold persistent_state in *. simpl in *. split; [constructor|]; unfold persistent_state; intros; try congruence.
  replace (metadata l) with (metadata (log s2)) by congruence. split_and!; congruence.
Qed.

Lemma frame_read_configurations n i : keeps frame (read_configurations clock n i).
Proof.
  revert i. induction n as [|n IH]; intros i; simpl; intros s;
    repeat first [wp_step | apply (wp_keeps frame); [solve [auto with frame]|intros ? ? ?]];
    unfold frame in *; destruct_and?; split_and?; congruence.
Qed.

(** A server that starts has the snapshot that the log lacks, or does not start. *)
Lemma init_snapshot_inv addrs l dir :
  post (init opts clock randomRange) (fun _ s' => snapshot_inv s') (RaftConsensus_construct self addrs l dir).
Proof.
  unfold init. apply wp_bind, wp_modify, wp_bind, wp_get. set (s0 := set_field _ _).
  apply wp_bind, (wp_keeps tracked); [apply frame_tracked, frame_read_configurations|]. intros _ s1 T1.
  apply wp_bind, (wp_keeps tracked).
  { destruct (_ <=? _); [|apply tracked_ret]. apply frame_tracked. intros s.
    repeat first [wp_step | apply (wp_keeps frame); [solve [auto with frame]|intros ? ? ?]].
    unfold frame in *; destruct_and?; split_and?; congruence. }
  intros _ s2 T2. apply wp_bind, wp_modify. set (s3 := set_field _ _).
  apply wp_bind, (wp_keeps tracked); [apply tracked_updateLogMetadata|]. intros _ s4 T4.
  assert (0 <= lastSnapshotIndex s4 <= commitIndex s4) as Hs4 by (unfold tracked in *; subst s0 s3; simpl in *; lia).
  apply wp_bind. eapply wp_mono; [apply (readSnapshot_covers opts clock randomRange s4); lia|done|]. intros _ s5 [T5 Hs5].
  apply wp_bind, wp_modify, wp_bind, wp_get, wp_bind, (wp_keeps tracked); [apply tracked_stepDown|].
  intros _ s6 T6. apply wp_modify. set (s7 := set_field _ _).
  assert (snapshot_inv s6) as Hs6; [|exact Hs6]. apply (tracked_inv _ _ T6).
  unfold tracked, snapshot_inv in *. simpl. clear T1 T2 T4 T6. lia.
Qed.

(** ** The life of a server

    Operations, and restarts: a new process that opens the log a crash left. *)
Inductive history : R -> R -> Prop :=
| history_start s : history s s
| history_operation s1 s2 s3 A (m : M R A) a :
    history s1 s2 -> operation A m -> m s2 = Ok (a, s3) -> history s1 s3
| history_restart s1 s2 s3 addrs l dir :
    history s1 s2 -> metadata l = saved_metadata (log s2) ->
    init opts clock randomRange (RaftConsensus_construct self addrs l dir) = Ok (tt, s3) ->
    history s1 s3.

(** What survives a crash. *)
Definition durable (s s' : R) : Prop :=
  currentTerm s <= currentTerm s' /\
  (currentTerm s' = currentTerm s -> votedFor s <> 0 -> votedFor s' = votedFor s).

Lemma durable_trans s1 s2 s3 : durable s1 s2 -> durable s2 s3 -> durable s1 s3.
Proof.
  intros [Ht1 Hv1] [Ht2 Hv2]. split; [lia|]. intros Ht Hv.
  assert (currentTerm s2 = currentTerm s1) as H12 by lia. rewrite <-(Hv1 H12 Hv). apply Hv2; [lia|].
  by rewrite (Hv1 H12 Hv).
Qed.

Lemma delta_durable s s' : delta s s' -> durable s s'.
Proof. intros [_ _ Ht _ _ Hd]. split; [done|]. intros Heq. apply (Hd Heq). Qed.

Lemma history_durable s s' : history s s' -> core_inv s -> core_inv s' /\ durable s s'.
Proof.
  induction 1 as [s|s1 s2 s3 A m a _ IH Hop Hrun|s1 s2 s3 addrs l dir _ IH Hl Hrun]; intros Hs.
  - split; [done|]. split; [lia|done].
  - destruct (IH Hs) as [Hs2 Hd]. destruct (proj1 (post_run _ _ _) (good_operation _ _ _ Hop s2) _ _ Hrun Hs2) as [Hs3 Hd3].
    split; [done|]. eapply durable_trans; [done|]. by apply delta_durable.
  - destruct (IH Hs) as [Hs2 Hd]. pose proof (init_spec addrs l dir) as Hinit.
    unfold post, wp in Hinit. rewrite Hrun in Hinit. destruct Hinit as (Hs3 & _ & _ & Ht & Hv).
    split; [done|]. eapply durable_trans; [done|].
    rewrite Hl, (inv_saved _ Hs2) in Ht, Hv. simpl in *. split; [lia|done].
Qed.

Lemma handleRequestVote_granted request s response s' :
  core_inv s -> rv_server_id request <> 0 ->
  handleRequestVote opts clock randomRange request s = Ok (response, s') ->
  rvr_granted response = true ->
  core_inv s' /\ delta s s' /\ currentTerm s' = rv_term request /\ votedFor s' = rv_server_id request.
Proof.
  intros Hs Hid Hrun Hg.
  assert (post (handleRequestVote opts clock randomRange request) (fun r s' => rvr_granted r = true ->
    core_inv s' /\ delta s s' /\ currentTerm s' = rv_term request /\ votedFor s' = rv_server_id request) s) as Hpost.
  { apply wp_handleRequestVote; [done|done|]. simpl. naive_solver. }
  unfold post, wp in Hpost. rewrite Hrun in Hpost. auto.
Qed.

(** C2: A server votes for at most one candidate in a term, even if it crashes
    and restarts between the two requests. *)
Theorem one_vote_per_term q1 q2 s1 s2 s3 s4 r1 r2 :
  core_inv s1 -> rv_server_id q1 <> 0 -> rv_server_id q2 <> 0 ->
  handleRequestVote opts clock randomRange q1 s1 = Ok (r1, s2) -> rvr_granted r1 = true ->
  history s2 s3 ->
  handleRequestVote opts clock randomRange q2 s3 = Ok (r2, s4) -> rvr_granted r2 = true ->
  rv_term q1 = rv_term q2 -> rv_server_id q1 = rv_server_id q2.
Proof.
  intros Hs1 Hid1 Hid2 Hrun1 Hg1 Hhist Hrun2 Hg2 Hterm.
  destruct (handleRequestVote_granted _ _ _ _ Hs1 Hid1 Hrun1 Hg1) as (Hs2 & _ & Ht2 & Hv2).
  destruct (history_durable _ _ Hhist Hs2) as [Hs3 Hd23].
  destruct (handleRequestVote_granted _ _ _ _ Hs3 Hid2 Hrun2 Hg2) as (_ & Hd34%delta_durable & Ht4 & Hv4).
  destruct (durable_trans _ _ _ Hd23 Hd34) as [_ Hv]. rewrite <-Hv2, <-Hv4. symmetry. apply Hv; congruence.
Qed.

(** A server that voted for another candidate is never the leader of that
    term, even after a restart. *)
Theorem voter_is_not_leader q s1 s2 s3 r :
  core_inv s1 -> rv_server_id q <> 0 -> rv_server_id q <> self ->
  handleRequestVote opts clock randomRange q s1 = Ok (r, s2) -> rvr_granted r = true ->
  history s2 s3 -> currentTerm s3 = rv_term q -> state s3 <> LEADER.
Proof.
  intros Hs1 Hid Hself Hrun Hg Hhist Ht Hlead.
  destruct (handleRequestVote_granted _ _ _ _ Hs1 Hid Hrun Hg) as (Hs2 & _ & Ht2 & Hv2).
  destruct (history_durable _ _ Hhist Hs2) as [[I1 I2 _ _ _] [_ Hv]]. destruct (I2 Hlead) as [_ Hvote].
  rewrite I1, Hv, Hv2 in Hvote by congruence. done.
Qed.


(** C10: The rule for commitment. The commit index moves only on a leader, to the
    largest index that a quorum of the configuration has stored, and only if
    the entry there is of the leader's current term. *)
Theorem advanceCommitIndex_rule s u s' :
  core_inv s -> 0 <= commitIndex s ->
  advanceCommitIndex opts clock randomRange s = Ok (u, s') ->
  let agreed := quorumMin (configuration s) Server_getMatchIndex in
  (state s = LEADER /\ commitIndex s < agreed /\ commitIndex s' = agreed /\
   quorumAll (configuration s) (fun srv => agreed <=? Server_getMatchIndex srv) = true /\
   getLogStartIndex (log s) <= agreed /\
   exists e, getEntry agreed (log s) = Ok e /\ term e = currentTerm s) \/
  (commitIndex s' = commitIndex s /\
    (state s = LEADER -> commitIndex s < agreed ->
     exists e, getEntry agreed (log s) = Ok e /\ term e <> currentTerm s)).
Proof.
  intros Hs Hpos Hrun agreed. revert u s' Hrun. apply post_run.
  unfold advanceCommitIndex. apply wp_bind, wp_get. fold agreed.
  unfold state_is. case_bool_decide as Hlead; simpl; [|by apply wp_ret; right; split; [|congruence]].
  destruct (Z.leb_spec agreed (commitIndex s)); [by apply wp_ret; right; split; [|lia]|].
  apply wp_bind, wp_assert; [done|]. intros Hstart%Z.leb_le.
  unfold log_entry. apply wp_bind, wp_bind, wp_get, wp_lift.
  destruct (getEntry agreed (log s)) as [e|] eqn:He; [|done].
  destruct (Z.eqb_spec (term e) (currentTerm s)) as [Hterm|Hterm]; simpl; [|by apply wp_ret; right; eauto].
  eapply (wp_mono (fun _ => True) _ _ (fun _ s' => commitIndex s' = agreed)); [|done|].
  - apply wp_bind, wp_modify, wp_bind, wp_assert; [done|]. intros _.
    apply wp_bind, wp_modify, wp_bind, wp_get. simpl.
    destruct (_ && _); [|by apply wp_ret]. destruct (negb _).
    + apply wp_stepDown; [apply Hs..|]. by intros.
    + destruct (bool_decide _); [|by apply wp_ret].
      apply wp_bind, (wp_keeps same_core); [auto with core|]. intros stamp s3 Hc3.
      apply (wp_keeps same_core); [auto with core|]. intros ? s4 Hc4.
      unfold same_core in *. destruct_and!. simpl in *. congruence.
  - intros _ s' Hc. left. split_and!; try done; [|by eauto].
    apply quorumMin_reached. fold agreed. lia.
Qed.

(** What the state machine is handed for [nextIndex]: its entry, or, if the log
    starts after it, the last snapshot. *)
Definition delivered (nextIndex : Z) (e : Entry) (s : R) : Prop :=
  match entry_type e with
  | Entry.SNAPSHOT =>
      entry_index e = lastSnapshotIndex s /\ clusterTime e = lastSnapshotClusterTime s /\
      nextIndex < getLogStartIndex (log s)
  | kind =>
      entry_index e = nextIndex /\ getLogStartIndex (log s) <= nextIndex /\
      exists le, getEntry nextIndex (log s) = Ok le /\ clusterTime e = cluster_time le /\
        (kind = Entry.DATA <-> type le = DATA) /\
        (kind = Entry.DATA -> command e = default [] (data le))
  end.

(** A snapshot that is delivered covers the index asked for and is committed. *)
Lemma delivered_within nextIndex e s :
  delivered nextIndex e s -> nextIndex <= commitIndex s -> snapshot_inv s ->
  nextIndex <= entry_index e <= commitIndex s.
Proof. unfold delivered, snapshot_inv. destruct (entry_type e); lia. Qed.

Lemma wp_committed_entry nextIndex s :
  post (committed_entry clock nextIndex)
    (fun e s' => exiting s' = exiting s /\ tracked s s' /\ delivered nextIndex e s') s.
Proof.
  unfold committed_entry. apply wp_bind, wp_get. destruct (Z.ltb_spec nextIndex (getLogStartIndex (log s))).
  - apply wp_bind. eapply (wp_mono _ _ _ (fun _ s' => quiet s s' /\ tracked s s')); [|done|].
    { apply wp_and; destruct (snapshotReader s);
        [by apply wp_ret|apply quiet_readSnapshot|apply tracked_ret|by apply (tracked_readSnapshot opts clock randomRange)]. }
    intros [] s1 [(Hle & _ & Hc) Ht]. unfold same_core in Hc. destruct_and!.
    apply wp_bind, wp_get, wp_bind, wp_put, wp_ret. simpl in *. split_and!; [done|done|].
    unfold tracked in Ht. unfold delivered. simpl. split_and!; [done|done|lia].
  - apply wp_bind. unfold log_entry. apply wp_bind, wp_get, wp_lift.
    destruct (getEntry nextIndex (log s)) as [le|] eqn:Hle; [|done].
    case_bool_decide as Hdata; apply wp_ret; (split; [done|split; [apply tracked_refl|]]); unfold delivered; simpl;
      (split_and!; [done|lia|]); exists le; split_and!; done.
Qed.

Lemma wp_getNextEntry lastIndex sched s :
  post (RaftConsensus_getNextEntry clock lastIndex sched) (fun r s' =>
    match r with
    | None => exiting s' = true
    | Some e => exiting s' = false /\ u64 (lastIndex + 1) <= commitIndex s' /\ delivered (u64 (lastIndex + 1)) e s'
    end) s.
Proof.
  revert s. induction sched as [|env sched IH]; intros s; simpl;
    (apply wp_bind, wp_get; destruct (exiting s) eqn:Hex; [by apply wp_ret|]);
    (destruct (Z.leb_spec (u64 (lastIndex + 1)) (commitIndex s));
      [apply wp_bind; eapply wp_mono; [apply wp_committed_entry|done|];
       intros e s' (He & Hc & Hd); apply wp_ret; unfold tracked in Hc; split_and!; [congruence|lia|done]|]).
  - by apply wp_fail.
  - apply wp_bind. destruct (env s) as [[u s1]|f] eqn:Hrun; unfold wp; rewrite Hrun; [|done]. apply IH.
Qed.

(** C22: The state machine is handed the entries in order and only once they are
    committed. Whatever happens while it waits, the answer is the next index's
    entry as it is in the log, or, only if the log starts after that index, the
    last snapshot. There is no answer only when the server is exiting. As long
    as what happens meanwhile keeps the log covered by a committed snapshot,
    which every operation of the server does, what is handed out reaches the
    index asked for and is committed, a snapshot too. *)
Theorem getNextEntry_committed lastIndex sched s r s' :
  RaftConsensus_getNextEntry clock lastIndex sched s = Ok (r, s') ->
  match r with
  | None => exiting s' = true
  | Some e => exiting s' = false /\ u64 (lastIndex + 1) <= commitIndex s' /\ delivered (u64 (lastIndex + 1)) e s'
  end /\
  (snapshot_inv s -> (forall env, env ∈ sched -> operation_with false unit env) ->
   snapshot_inv s' /\
   forall e, r = Some e -> u64 (lastIndex + 1) <= entry_index e <= commitIndex s').
Proof.
  intros Hrun. pose proof (proj1 (post_run _ _ _) (wp_getNextEntry lastIndex sched s) _ _ Hrun) as Hr.
  split; [exact Hr|]. intros Hs Henv.
  assert (tracked s s') as Ht.
  { refine (proj1 (post_run _ _ _) (tracked_getNextEntry opts clock randomRange lastIndex sched _ s) _ _ Hrun).
    intros env Hin. by apply tracked_operation, Henv. }
  pose proof (tracked_inv _ _ Ht Hs) as Hs'. split; [done|].
  intros e ->. destruct Hr as (_ & Hc & Hd). by apply delivered_within.
Qed.

(** The heap with one object changed. *)
Definition set_server (r : ServerRef) (srv : Server) (s : R) : R :=
  s <| configuration := (configuration s) <| servers := <[r := srv]> (servers (configuration s)) |> |>.

Lemma wp_update_peer r f srv s (Q : unit -> R -> Prop) :
  servers (configuration s) !! r = Some srv -> Q tt (set_server r (on_peer f srv) s) ->
  wp (fun _ => True) (update_peer r f) Q s.
Proof.
  intros Hr HQ. unfold update_peer, update_server. apply wp_bind, wp_get. rewrite Hr. by apply wp_put.
Qed.

(** [r]'s vote and those of the servers that voted already. *)
Definition votes_with (r : ServerRef) (s : R) (r' : ServerRef) : bool :=
  (r' =? r) || Server_haveVote (votedFor s) (the_server (configuration s) r').

Lemma simple_quorumAll_map {A B} (p : B -> bool) (q : A -> bool) (g : A -> B) l :
  (forall a, p (g a) = true -> q a = true) ->
  simple_quorumAll p (map g l) = true -> simple_quorumAll q l = true.
Proof.
  intros Hpq. destruct l as [|a l]; [done|]. rewrite !simple_quorumAll_count by done. rewrite length_map.
  assert (length (List.filter p (map g (a :: l))) <= length (List.filter q (a :: l)))%nat as Hle; [|lia].
  generalize (a :: l) as l'. induction l' as [|b l' IH]; simpl; [lia|]. specialize (Hpq b).
  destruct (p (g b)), (q b); simpl; naive_solver lia.
Qed.

(** The last step of an election: the votes are counted and they suffice. *)
Lemma count_votes r s srv o :
  servers (configuration s) !! r = Some o ->
  quorumAll (configuration (set_server r srv s)) (Server_haveVote (votedFor s)) = true ->
  forall l, l ∈ deciding (configuration s) -> simple_quorumAll (votes_with r s) l = true.
Proof.
  intros Hr Hq l Hl. rewrite quorumAll_deciding in Hq. specialize (Hq l Hl).
  eapply simple_quorumAll_map; [|exact Hq]. intros r' Hv. unfold votes_with.
  destruct (Z.eqb_spec r' r) as [->|Hne]; [done|]. simpl. revert Hv. unfold the_server. simpl.
  by rewrite lookup_insert_ne.
Qed.

(** C16: An election is won by a quorum. If an answer to [requestVote] makes this
    server the leader, then when the answer came the server was a candidate of
    the term it had asked for, the answer granted the vote in that term, and with
    it a majority of each deciding set of servers had voted for this server. *)
Theorem requestVote_wins_by_quorum r (others : M R unit) response s u s' :
  keeps good others -> core_inv s ->
  requestVote opts clock randomRange r (fun _ => others ;;; ret (RPC_OK, response)) s = Ok (u, s') ->
  state s' = LEADER ->
  exists s0 s1, same_core s s0 /\ others s0 = Ok (tt, s1) /\
    (state s1 <> LEADER ->
     state s1 = CANDIDATE /\ currentTerm s1 = currentTerm s /\
     rvr_granted response = true /\ rvr_term response <= currentTerm s1 /\
     forall l, l ∈ deciding (configuration s1) -> simple_quorumAll (votes_with r s1) l = true).
Proof.
  intros Hothers Hs. revert u s'. refine (proj1 (post_run _ (fun _ s' => state s' = LEADER -> _) _) _). unfold requestVote. apply wp_bind, wp_get.
  apply wp_bind, (wp_keeps same_core); [auto with core|]. intros t sa Hca.
  apply wp_bind, (wp_keeps same_core); [auto with core|]. intros start s0 Hcb.
  assert (same_core s s0) as Hc0 by (by transitivity sa).
  pose proof (same_core_inv _ _ Hc0 Hs) as Hs0. clear Hca Hcb sa.
  apply wp_bind. unfold Peer_callRPC. apply wp_bind. apply wp_bind.
  destruct (others s0) as [[[] s1]|f] eqn:Hrun; unfold wp at 1; rewrite Hrun; [|done].
  pose proof (Hothers s0) as Hgood. unfold post, wp in Hgood. rewrite Hrun in Hgood.
  destruct (Hgood Hs0) as [Hs1 _].
  apply wp_ret. simpl.
  destruct (servers (configuration s1) !! r) as [o|] eqn:Hr;
    [|by apply wp_bind; unfold update_peer, update_server; apply wp_bind, wp_get; rewrite Hr].
  apply wp_bind, (wp_update_peer _ _ o); [done|]. apply wp_ret. simpl. set (s2 := set_server r _ s1).
  apply wp_bind, wp_get, wp_bind. eapply wp_mono; [apply get_peer_pure|done|]. intros p ? ->.
  destruct (_ || _) eqn:Hcond.
  { apply wp_ret. intros Hlead. by exists s0, s1. }
  apply orb_false_iff in Hcond as [[Hterm%negb_false_iff%Z.eqb_eq Hcand%negb_false_iff]%orb_false_iff _].
  apply bool_decide_eq_true in Hcand. simpl in Hterm, Hcand.
  destruct (Z.ltb_spec (currentTerm s2) (rvr_term response)) as [Hnewer|Hsame].
  { apply wp_stepDown; [apply Hs1..|]. intros. congruence. }
  apply wp_bind, (wp_update_peer _ _ (on_peer (fun p => p <| rpcFailuresSinceLastWarning := 0 |>) o));
    [simpl; by rewrite lookup_insert_eq|].
  apply wp_bind, wp_modify, wp_when; [|by intros _ ?; simpl in *; congruence]. intros Hgranted.
  set (s3 := set_field _ _). assert (servers (configuration s3) !! r = Some (on_peer
    (fun p => p <| requestVoteDone := true |> <| lastAckEpoch := currentEpoch s |>)
    (on_peer (fun p => p <| rpcFailuresSinceLastWarning := 0 |>) o))) as Hr3 by (simpl; by rewrite lookup_insert_eq).
  apply wp_bind, (wp_update_peer _ _ _ _ _ Hr3), wp_bind, wp_get, wp_when; [|by intros _ ?; simpl in *; congruence].
  intros Hquorum. eapply wp_mono; [apply good_becomeLeader|done|]. intros ? s' _ _.
  exists s0, s1. split_and!; [done|done|]. intros _. split_and!; [done|done|done|done|].
  eapply count_votes; [exact Hr|]. revert Hquorum. unfold set_server. simpl. rewrite !insert_insert_eq. intros Hquorum.
  exact Hquorum.
Qed.
End RaftSpec.

Abbreviation operation opts clock randomRange stagingNameAt self :=
  (operation_with opts clock randomRange stagingNameAt self true).
