(* ===== verification/RaftLog.v ===== *)
(** * What the consensus module does to the log

    The log operations of [Raft.v], against the contract of [Log.v]: [merge] is
    what a follower's log becomes when a leader's entries arrive, and
    [handleAppendEntries] computes it. *)

From Stdlib Require Import ZArith Lia Ascii String.
From stdpp Require Import base gmap strings list fin_maps sorting.
From S2P Require Import Prelude OrderedMap StringUtil Stream SnapshotFile Consensus Log Configuration Raft RaftFrame.
Local Open Scope string_scope.
Local Open Scope Z_scope.
Local Open Scope list_scope.

(** ** Merging a leader's entries into a log

    [es] are the entries after index [p], [ents] those from index [start] on.
    What agrees is kept; from the first disagreement on, [es] replaces it. *)
Fixpoint merge (start p : Z) (ents es : list LogEntry) : list LogEntry :=
  match es with
  | [] => ents
  | e :: rest =>
      if p + 1 <? start then merge start (p + 1) ents rest else
      match ents !! Z.to_nat (p + 1 - start) with
      | Some e0 =>
          if term e0 =? term e then merge start (p + 1) ents rest
          else take (Z.to_nat (p + 1 - start)) ents ++ es
      | None => ents ++ es
      end
  end.

Section Merge.
Context (start : Z).

(** The log reaches up to [p] at least. *)
Definition reaches (p : Z) (ents : list LogEntry) : Prop := p <= start + Z.of_nat (length ents) - 1.

(** Two entry lists agree with the leader's entries after [p], term by term. *)
Definition agrees_after (p : Z) (ents es : list LogEntry) : Prop :=
  forall k e, es !! k = Some e -> start <= p + 1 + Z.of_nat k ->
  exists e', ents !! Z.to_nat (p + 1 + Z.of_nat k - start) = Some e' /\ term e' = term e.

(** Entries up to [p] are not touched. *)
Lemma merge_below p ents es k e :
  reaches p ents -> ents !! k = Some e -> start + Z.of_nat k <= p ->
  merge start p ents es !! k = Some e.
Proof.
  intros Hp Hk Hle. revert p Hp Hle. induction es as [|e1 es IH]; intros p Hp Hle; simpl; [done|].
  pose proof (lookup_lt_Some _ _ _ Hk). unfold reaches in *.
  destruct (Z.ltb_spec (p + 1) start); [lia|].
  destruct (ents !! Z.to_nat (p + 1 - start)) as [e0|] eqn:He0.
  - pose proof (lookup_lt_Some _ _ _ He0). destruct (term e0 =? term e1); [apply IH; lia|].
    rewrite lookup_app_l by (rewrite length_take; lia). rewrite lookup_take_lt by lia. done.
  - by rewrite lookup_app_l.
Qed.

(** Afterwards the log agrees with the leader's entries. *)
Lemma merge_agrees p ents es :
  reaches p ents -> agrees_after p (merge start p ents es) es.
Proof.
  revert p. induction es as [|e1 es IH]; intros p Hp k e Hk Hs; [done|].
  unfold reaches in *. simpl. destruct (Z.ltb_spec (p + 1) start).
  { destruct k as [|k]; [simpl in *; lia|]. simpl in Hk.
    replace (p + 1 + Z.of_nat (S k)) with (p + 1 + 1 + Z.of_nat k) in * by lia.
    apply IH; [unfold reaches; lia|done|done]. }
  destruct (ents !! Z.to_nat (p + 1 - start)) as [e0|] eqn:He0.
  - pose proof (lookup_lt_Some _ _ _ He0). destruct (Z.eqb_spec (term e0) (term e1)) as [Ht|Ht].
    + destruct k as [|k]; simpl in Hk.
      * injection Hk as <-. exists e0. split; [|done]. replace (p + 1 + Z.of_nat 0) with (p + 1) by lia.
        apply merge_below; [unfold reaches; lia|done|lia].
      * replace (p + 1 + Z.of_nat (S k)) with (p + 1 + 1 + Z.of_nat k) in * by lia.
        apply IH; [unfold reaches; lia|done|done].
    + exists e. split; [|done]. rewrite lookup_app_r by (rewrite length_take; lia).
      rewrite length_take, Nat.min_l by lia. rewrite <-Hk. f_equal. lia.
  - apply lookup_ge_None in He0. exists e. split; [|done]. rewrite lookup_app_r by lia. rewrite <-Hk. f_equal. lia.
Qed.

(** A log that agrees already is left alone: a stale request removes nothing. *)
Lemma merge_agreeing p ents es : agrees_after p ents es -> merge start p ents es = ents.
Proof.
  revert p. induction es as [|e1 es IH]; intros p Ha; simpl; [done|].
  assert (agrees_after (p + 1) ents es) as Ha'.
  { intros k e Hk Hs. specialize (Ha (S k) e Hk).
    replace (p + 1 + Z.of_nat (S k)) with (p + 1 + 1 + Z.of_nat k) in Ha by lia. by apply Ha. }
  destruct (Z.ltb_spec (p + 1) start); [by apply IH|].
  destruct (Ha O e1) as (e' & He' & Ht); [done|lia|].
  replace (p + 1 + Z.of_nat 0) with (p + 1) in He' by lia. rewrite He', Ht, Z.eqb_refl. by apply IH.
Qed.

(** Only the terms count. *)
Lemma agrees_after_stored p ents es :
  agrees_after p ents (map stored es) <-> agrees_after p ents es.
Proof.
  unfold agrees_after. change (map stored es) with (stored <$> es). setoid_rewrite list_lookup_fmap_Some.
  split; intros Ha k e He Hs.
  - destruct (Ha k (stored e)) as (e' & ? & ?); [by exists e|done|]. by exists e'.
  - destruct He as (e0 & -> & He0). destruct (Ha k e0 He0 Hs) as (e' & ? & ?). by exists e'.
Qed.

Lemma merge_idempotent p ents es :
  reaches p ents -> merge start p (merge start p ents es) es = merge start p ents es.
Proof. intros Hp. by apply merge_agreeing, merge_agrees. Qed.
End Merge.

Section RaftLog.
Context {L : Type} `{LogLaws L} `{ProtoBuf Metadata_Header}.
Context (opts : RaftOptions) (clock : nat -> Z) (randomRange : nat -> Z -> Z -> Z).
Context (stagingNameAt : nat -> string).

Abbreviation R := (RaftConsensus L).

(** The log keeps its contract and its entries, and the commit index stays. *)
Definition same_log (s s' : R) : Prop :=
  log_ok (log s) -> log_ok (log s') /\ log_start (log s') = log_start (log s) /\
    log_entries (log s') = log_entries (log s) /\ commitIndex s' = commitIndex s.

#[local] Instance same_log_preorder : PreOrder same_log.
Proof.
  split; [by intros s|]. intros s1 s2 s3 H12 H23 Hok. destruct (H12 Hok) as (Hok2 & ? & ? & ?).
  destruct (H23 Hok2) as (Hok3 & ? & ? & ?). split_and!; congruence.
Qed.

Lemma frame_same_log {A} (m : M R A) : keeps frame m -> keeps same_log m.
Proof.
  intros Hm s. eapply wp_mono; [apply Hm|done|]. intros a s' Hf Hok. unfold frame in Hf.
  destruct_and!. repeat match goal with E : log _ = log _ |- _ => rewrite E end. done.
Qed.

Lemma same_log_modify f : (forall s, log (f s) = log s /\ commitIndex (f s) = commitIndex s) ->
  keeps same_log (modify f).
Proof. intros Hf s. apply wp_modify. intros Hok. destruct (Hf s) as [-> ->]. done. Qed.

(** To show [keeps], the contract of the log may be assumed. *)
Lemma same_log_intro {A} (m : M R A) :
  (forall s, log_ok (log s) -> post m (fun _ s' => log_ok (log s') /\
     log_start (log s') = log_start (log s) /\ log_entries (log s') = log_entries (log s) /\
     commitIndex s' = commitIndex s) s) -> keeps same_log m.
Proof.
  intros Hm s. unfold post, wp. destruct (m s) as [[a s']|f] eqn:Hrun; [|done]. intros Hok.
  specialize (Hm s Hok). unfold post, wp in Hm. by rewrite Hrun in Hm.
Qed.

Lemma same_log_sync_now : keeps same_log sync_now.
Proof.
  apply same_log_intro. intros s Hok. unfold sync_now, on_log. apply wp_bind, wp_zoom.
  eapply wp_mono; [apply takeSync_law, Hok|done|]. intros sync l (Hok1 & ? & ?).
  apply wp_bind, wp_zoom. eapply wp_mono; [apply sync_wait_law, Hok1|done|]. intros _ l1 (Hok2 & ? & ?).
  apply wp_zoom. eapply wp_mono; [apply syncComplete_law, Hok2|done|].
  intros ? l' (? & ? & ?). simpl in *. split_and!; congruence.
Qed.

Lemma same_log_queue_or_sync : keeps same_log queue_or_sync.
Proof.
  unfold queue_or_sync. intros s. apply wp_bind, wp_get. destruct (state_is LEADER s).
  - by apply wp_modify.
  - apply same_log_sync_now.
Qed.

Lemma same_log_updateLogMetadata : keeps same_log updateLogMetadata.
Proof.
  apply same_log_intro. intros s Hok. unfold updateLogMetadata, on_log. apply wp_bind, wp_modify, wp_zoom.
  destruct (set_metadata_law (log s) (mkMetadata (Some (currentTerm s)) (Some (votedFor s))) Hok)
    as (Hok1 & Hst & Hen).
  eapply wp_mono; [apply updateMetadata_law, Hok1|done|].
  intros ? l (? & ? & ?). simpl in *. split_and!; congruence.
Qed.

Create HintDb log.
#[local] Hint Resolve same_log_sync_now same_log_queue_or_sync same_log_updateLogMetadata : log.
#[local] Hint Extern 2 (keeps same_log _) => apply frame_same_log; solve [auto with frame] : log.
#[local] Hint Extern 3 (keeps same_log (modify _)) => apply same_log_modify; intros; done : log.

Ltac log_go :=
  repeat match goal with
    | |- keeps same_log _ => solve [eauto with log]
    | |- keeps same_log (bind _ _) => apply keeps_bind; [apply _| |intros ?]
    | |- keeps same_log get => intros ?; by apply wp_get
    | |- keeps same_log (ret _) => apply keeps_ret; apply _
    | |- keeps same_log (when _ _) => apply keeps_when; [apply _|]
    | |- keeps same_log (if ?b then _ else _) => destruct b
    | |- keeps same_log (match ?x with _ => _ end) => destruct x
    end.

Lemma same_log_stepDown t : keeps same_log (stepDown opts clock randomRange t).
Proof.
  unfold stepDown. log_go. apply same_log_modify. intros s. by destruct (_ =? _).
Qed.

Lemma same_log_record_leader id : keeps same_log (record_leader id).
Proof. unfold record_leader. log_go. Qed.
#[local] Hint Resolve same_log_stepDown same_log_record_leader : log.

(** ** [append] *)
Lemma wp_append es s (Q : unit -> R -> Prop) :
  log_ok (log s) -> es <> [] ->
  log_start (log s) + Z.of_nat (length (log_entries (log s) ++ es)) <= u64_max ->
  (forall s', log_ok (log s') -> log_start (log s') = log_start (log s) ->
     log_entries (log s') = log_entries (log s) ++ map stored es -> commitIndex s' = commitIndex s -> Q tt s') ->
  wp (fun _ => True) (RaftConsensus_append clock es) Q s.
Proof.
  intros Hok Hes Hmax HQ. unfold RaftConsensus_append.
  apply wp_bind, (wp_keeps frame); [auto with frame|]. intros [] s1 Hf. unfold frame in Hf. destruct_and!.
  apply wp_bind, wp_zoom. eapply wp_mono; [apply append_law; congruence|done|].
  intros range l (Hok2 & Hst2 & Hen2 & _).
  set (s2 := s1 <| log := l |>). change l with (log s2) in Hok2, Hst2, Hen2.
  apply wp_bind, (wp_keeps same_log); [auto with log|]. intros [] s3 H23. destruct (H23 Hok2) as (Hok3 & ? & ? & ?).
  apply wp_bind, (wp_keeps same_log); [auto with log|]. intros [] s4 H34. destruct (H34 Hok3) as (Hok4 & ? & ? & ?).
  apply (wp_keeps same_log); [auto with log|]. intros [] s5 H45. destruct (H45 Hok4) as (Hok5 & ? & ? & ?).
  apply HQ; [done|congruence..|]. replace (commitIndex s) with (commitIndex s2) by done. congruence.
Qed.

(** The entry at an index inside the log. *)
Lemma getEntry_inside s i :
  log_ok (log s) -> log_start (log s) <= i <= getLastLogIndex (log s) ->
  exists e, log_entries (log s) !! Z.to_nat (i - log_start (log s)) = Some (stored e) /\
            getEntry i (log s) = Ok e.
Proof.
  intros Hok Hi. rewrite getLastLogIndex_law in Hi by done.
  destruct (lookup_lt_is_Some_2 (log_entries (log s)) (Z.to_nat (i - log_start (log s)))) as [e He]; [lia|].
  destruct (getEntry_law _ i e Hok) as (e' & Hget & <-); [lia|done|]. by exists e'.
Qed.

Lemma wp_log_entry_inside E i s (Q : LogEntry -> R -> Prop) :
  log_ok (log s) -> log_start (log s) <= i <= getLastLogIndex (log s) ->
  (forall e, log_entries (log s) !! Z.to_nat (i - log_start (log s)) = Some (stored e) -> Q e s) ->
  wp E (log_entry i) Q s.
Proof.
  intros Hok Hi HQ. destruct (getEntry_inside s i Hok Hi) as (e & He & Hget).
  unfold log_entry. apply wp_bind, wp_get, wp_lift. rewrite Hget. by apply HQ.
Qed.

(** ** [handleAppendEntries] *)

(** The end of the loop: the rest of the request goes after the log. *)
Lemma wp_append_rest entry rest s (Q : unit -> R -> Prop) :
  log_ok (log s) ->
  log_start (log s) + Z.of_nat (length (log_entries (log s) ++ entry :: rest)) <= u64_max ->
  (forall s', log_ok (log s') -> log_start (log s') = log_start (log s) ->
     log_entries (log s') = log_entries (log s) ++ map stored (entry :: rest) -> commitIndex s' = commitIndex s -> Q tt s') ->
  wp (fun _ => True)
    (check_types (entry :: rest) ;;; RaftConsensus_append clock (entry :: rest) ;;;
     newEpoch clock (cluster_time (List.last (entry :: rest) entry))) Q s.
Proof.
  intros Hok Hmax HQ. apply wp_bind, (wp_keeps same_log).
  { unfold check_types. apply keeps_forM; [apply _|]. intros e. destruct (bool_decide _); log_go.
    intros s'. by apply wp_fail. }
  intros [] s1 H01. destruct (H01 Hok) as (Hok1 & Hst1 & Hen1 & Hc1).
  apply wp_bind, wp_append; [done|done|congruence|]. intros s2 Hok2 Hst2 Hen2 Hc2.
  apply (wp_keeps same_log); [auto with log|]. intros [] s3 H23. destruct (H23 Hok2) as (Hok3 & ? & ? & ?).
  apply HQ; congruence.
Qed.

(** Entries up to the commit index are still there. *)
Definition committed_kept (s s' : R) : Prop :=
  forall i e, log_start (log s) <= i <= commitIndex s ->
    log_entries (log s) !! Z.to_nat (i - log_start (log s)) = Some e ->
    log_entries (log s') !! Z.to_nat (i - log_start (log s)) = Some e.

Lemma append_loop_merges es p s :
  log_ok (log s) -> 0 <= p -> p + Z.of_nat (length es) < u64_max -> p <= getLastLogIndex (log s) ->
  post (append_loop clock p es) (fun _ s' =>
    log_ok (log s') /\ log_start (log s') = log_start (log s) /\
    log_entries (log s') = merge (log_start (log s)) p (log_entries (log s)) (map stored es) /\
    commitIndex s' = commitIndex s /\ committed_kept s s') s.
Proof.
  revert p s. induction es as [|e es IH]; intros p s Hok Hp Hmax Hlast.
  { apply wp_ret. split_and!; try done. by intros ????. }
  cbn [append_loop length map] in *. assert (u64 (p + 1) = p + 1) as ->.
  { apply u64_small. unfold is_u64, u64_max in *. lia. }
  pose proof (log_bounds _ Hok). pose proof (getLastLogIndex_law _ Hok) as Hll.
  apply wp_bind. eapply (wp_mono (fun _ => True) _ _ (fun _ s' => s' = s)); [|done|].
  { destruct (Log.index e); [by apply wp_assert|by apply wp_ret]. }
  intros ? ? ->. apply wp_bind, wp_get. rewrite getLogStartIndex_law by done. cbn [merge].
  destruct (Z.ltb_spec (p + 1) (log_start (log s))); [apply IH; try done; lia|].
  apply wp_bind. destruct (Z.leb_spec (p + 1) (getLastLogIndex (log s))).
  - apply wp_bind, wp_log_entry_inside; [done|lia|]. intros e0 He0. rewrite He0.
    change (term (stored e0)) with (term e0). change (term (stored e)) with (term e).
    destruct (term e0 =? term e); [apply wp_ret, IH; done || lia|].
    apply wp_bind, wp_assert; [done|]. intros Hcommit%Z.ltb_lt. apply wp_bind, wp_modify, wp_bind, wp_zoom.
    cbn [log set_field].
    eapply wp_mono; [apply truncateSuffix_law; [exact Hok|lia]|done|].
    intros ? l (Hok1 & Hst1 & Hen1). cbn [log set_field].
    set (s1 := set_field l _). change l with (log s1) in Hok1, Hst1, Hen1.
    apply wp_bind, (wp_keeps same_log); [auto with log|]. intros [] s2 H12.
    destruct (H12 Hok1) as (Hok2 & Hst2 & Hen2 & Hc2). apply wp_ret.
    replace (Z.to_nat (p + 1 - 1 - log_start (log s) + 1)) with (Z.to_nat (p + 1 - log_start (log s))) in Hen1 by lia.
    rewrite Hen1 in Hen2. apply wp_append_rest; [done| |].
    + rewrite Hst2, Hst1, Hen2, length_app, length_take. simpl length. lia.
    + intros s3 Hok3 Hst3 Hen3 Hc3. cbn [map] in Hen3. change (commitIndex s1) with (commitIndex s) in Hc2.
      split_and!; try congruence.
      intros i ei Hi Hei. rewrite Hen3, Hen2. rewrite lookup_app_l.
      * by rewrite lookup_take_lt by lia.
      * rewrite length_take. pose proof (lookup_lt_Some _ _ _ Hei). lia.
  - apply wp_ret. rewrite lookup_ge_None_2 by lia. apply wp_append_rest; [done| |].
    + rewrite length_app. simpl length. lia.
    + intros s3 Hok3 Hst3 Hen3 Hc3. cbn [map] in Hen3. split_and!; try congruence.
      intros i ei Hi Hei. rewrite Hen3, lookup_app_l; [done|]. by eapply lookup_lt_Some.
Qed.

(** Is the entry before the new ones in the log, or discarded from it? *)
Definition prev_agrees (s : R) (request : AppendEntries_Request) : Prop :=
  ae_prev_log_index request <= getLastLogIndex (log s) /\
  forall e, log_start (log s) <= ae_prev_log_index request ->
    log_entries (log s) !! Z.to_nat (ae_prev_log_index request - log_start (log s)) = Some e ->
    term e = ae_prev_log_term request.

Lemma wp_prev_entry_agrees request s (Q : bool -> R -> Prop) :
  log_ok (log s) ->
  (forall b, (b = true <-> prev_agrees s request) -> Q b s) ->
  wp (fun _ => True) (prev_entry_agrees request) Q s.
Proof.
  intros Hok HQ. unfold prev_entry_agrees. apply wp_bind, wp_get. unfold prev_agrees in HQ.
  destruct (Z.ltb_spec (getLastLogIndex (log s)) (ae_prev_log_index request)).
  { apply wp_ret, HQ. split; [done|lia]. }
  rewrite getLogStartIndex_law by done. destruct (Z.leb_spec (log_start (log s)) (ae_prev_log_index request)).
  - apply wp_bind, wp_log_entry_inside; [done|lia|]. intros e He. apply wp_ret, HQ.
    rewrite Z.eqb_eq. split.
    + intros Ht. split; [done|]. intros e' _ He'. rewrite He in He'. by injection He' as <-.
    + intros [_ Ht]. by apply (Ht (stored e)).
  - apply wp_ret, HQ. split; [|done]. intros _. split; [done|]. lia.
Qed.

(** What an answered request has done to the log. *)
Definition appended (request : AppendEntries_Request) (response : AppendEntries_Response) (s s' : R) : Prop :=
  log_ok (log s') /\ log_start (log s') = log_start (log s) /\
  (aer_success response = true <-> currentTerm s <= ae_term request /\ prev_agrees s request) /\
  if aer_success response then
    log_entries (log s') =
      merge (log_start (log s)) (ae_prev_log_index request) (log_entries (log s)) (map stored (ae_entries request)) /\
    committed_kept s s' /\ commitIndex s' = Z.max (commitIndex s) (ae_commit_index request) /\
    aer_last_log_index response = Some (getLastLogIndex (log s'))
  else
    log_entries (log s') = log_entries (log s) /\ commitIndex s' = commitIndex s /\
    aer_last_log_index response = Some (getLastLogIndex (log s)).

Lemma handleAppendEntries_spec request s :
  log_ok (log s) -> 0 <= ae_prev_log_index request ->
  ae_prev_log_index request + Z.of_nat (length (ae_entries request)) < u64_max ->
  post (handleAppendEntries opts clock randomRange request)
    (fun response s' => appended request response s s') s.
Proof.
  intros Hok Hprev Hmax. unfold handleAppendEntries, appended.
  apply wp_bind, wp_get, wp_bind, wp_assert; [done|]. intros _.
  destruct (Z.ltb_spec (ae_term request) (currentTerm s)).
  { apply wp_ret. simpl. split_and!; try done. split; [done|lia]. }
  apply wp_bind, (wp_keeps same_log); [auto with log|]. intros [] s1 H01.
  apply wp_bind, (wp_keeps same_log); [auto with log|]. intros [] s2 H12.
  apply wp_bind, (wp_keeps same_log); [auto with log|]. intros [] s3 H23.
  assert (same_log s s3) as H03 by (transitivity s2; [by transitivity s1|done]). clear H01 H12 H23.
  destruct (H03 Hok) as (Hok3 & Hst3 & Hen3 & Hc3).
  apply wp_bind, wp_prev_entry_agrees; [done|]. intros agrees Hagrees.
  assert (prev_agrees s3 request <-> prev_agrees s request) as Hprev3.
  { unfold prev_agrees. by rewrite !getLastLogIndex_law, Hst3, Hen3 by done. }
  destruct agrees; simpl.
  - destruct (Z.le_gt_cases (ae_prev_log_index request) (getLastLogIndex (log s3))) as [Hle|Hgt];
      [|destruct (proj1 Hagrees eq_refl); lia].
    apply wp_bind. eapply wp_mono; [by apply append_loop_merges|done|]. rewrite Hst3, Hen3.
    intros [] s4 (Hok4 & Hst4 & Hen4 & Hc4 & Hkept). apply wp_bind, wp_get, wp_bind.
    eapply (wp_mono (fun _ => True) _ _ (fun _ s5 => log s5 = log s4 /\
      commitIndex s5 = Z.max (commitIndex s) (ae_commit_index request))); [|done|].
    + apply wp_when.
      * intros Hlt%Z.ltb_lt. apply wp_bind, wp_modify, wp_bind, wp_assert; [done|]. intros _.
        apply wp_modify. simpl. split; [done|lia].
      * intros Hge%Z.ltb_ge. split; [done|lia].
    + intros [] s5 [Hlog5 Hc5]. apply wp_bind, (wp_keeps frame); [auto with frame|].
      intros [] s6 Hf. unfold frame in Hf. destruct_and!. apply wp_ret. simpl.
      replace (log s6) with (log s4) by congruence. split_and!; try done; try congruence.
      * split; [|done]. intros _. split; [done|]. by apply Hprev3, Hagrees.
      * intros i e Hi He. replace (log s6) with (log s4) by congruence. rewrite <-Hst3.
        apply Hkept; rewrite ?Hst3, ?Hc3, ?Hen3; done.
  - apply wp_ret. simpl. split_and!; try done. split; [done|]. intros [_ ?]. by apply Hagrees, Hprev3.
Qed.

(** C9: What a follower does to its log. If the entry before the new ones does
    not agree with the leader's, or the request is of an old term, the log stays
    and the answer is a refusal. Otherwise the entries are merged into the log:
    entries that agree are kept, also those after the request's, and the first
    that disagrees is replaced with all that follow it, never one that is
    committed. Afterwards the log agrees with all the leader's entries, the
    commit index is the leader's if that is larger, and the answer carries the
    log's new last index. *)
Theorem handleAppendEntries_merges request s response s' :
  log_ok (log s) -> 0 <= ae_prev_log_index request ->
  ae_prev_log_index request + Z.of_nat (length (ae_entries request)) < u64_max ->
  handleAppendEntries opts clock randomRange request s = Ok (response, s') ->
  appended request response s s' /\
  (aer_success response = true ->
   agrees_after (log_start (log s')) (ae_prev_log_index request) (log_entries (log s')) (ae_entries request)).
Proof.
  intros Hok Hprev Hmax Hrun.
  pose proof (proj1 (post_run _ _ _) (handleAppendEntries_spec request s Hok Hprev Hmax) _ _ Hrun) as Hspec.
  split; [done|]. intros Hsucc. destruct Hspec as (_ & Hst & Hagree & Hcase).
  rewrite Hsucc in Hcase. destruct Hcase as (Hen & _). rewrite Hst, Hen.
  apply agrees_after_stored, merge_agrees.
  destruct (proj1 Hagree Hsucc) as [_ [Hle _]]. unfold reaches. by rewrite getLastLogIndex_law in Hle.
Qed.

(** C20: A delayed or repeated request does no harm: if the log agrees with the
    request's entries already, whatever it has after them, handling the request
    leaves every entry where it is. *)
Theorem handleAppendEntries_stale request s response s' :
  log_ok (log s) -> 0 <= ae_prev_log_index request ->
  ae_prev_log_index request + Z.of_nat (length (ae_entries request)) < u64_max ->
  agrees_after (log_start (log s)) (ae_prev_log_index request) (log_entries (log s)) (ae_entries request) ->
  handleAppendEntries opts clock randomRange request s = Ok (response, s') ->
  log_start (log s') = log_start (log s) /\ log_entries (log s') = log_entries (log s).
Proof.
  intros Hok Hprev Hmax Hagree Hrun.
  destruct (proj1 (post_run _ _ _) (handleAppendEntries_spec request s Hok Hprev Hmax) _ _ Hrun)
    as (_ & Hst & _ & Hcase). split; [done|].
  destruct (aer_success response); destruct Hcase as (Hen & _); [|done].
  rewrite Hen. by apply merge_agreeing, agrees_after_stored.
Qed.

(** ** [packEntries] *)
Section Packing.
Context (entry_ByteSize : LogEntry -> Z) (request_ByteSize : list LogEntry -> Z).
(* a repeated field's encoding: the elements, each with its tag and length *)
Context (ByteSize_grows : forall l e,
  request_ByteSize (l ++ [e]) <= request_ByteSize l + entry_ByteSize e + 20).
Context (ByteSize_request : forall l, 0 <= request_ByteSize l).
Context (ByteSize_entry : forall e, 0 <= entry_ByteSize e < 2 ^ 32).
Context (limit_small : SOFT_RPC_SIZE_LIMIT opts < 2 ^ 32).

(** At most one entry, or below the limit. *)
Definition within_limit (l : list LogEntry) : Prop :=
  (length l <= 1)%nat \/ request_ByteSize l < SOFT_RPC_SIZE_LIMIT opts.

Lemma packEntries_loop_safe n i packed size s :
  log_ok (log s) -> log_start (log s) <= i -> i + Z.of_nat n <= getLastLogIndex (log s) + 1 ->
  request_ByteSize packed <= size < 2 ^ 34 -> (packed = [] -> size < 2 ^ 33) -> within_limit packed ->
  safe (packEntries_loop opts entry_ByteSize request_ByteSize n i packed size) (fun r s' =>
    s' = s /\ within_limit r /\ (packed = [] -> (0 < n)%nat -> r <> []) /\
    exists k, (k <= n)%nat /\
      map stored r = map stored packed ++ take k (drop (Z.to_nat (i - log_start (log s))) (log_entries (log s)))) s.
Proof.
  revert i packed size. induction n as [|n IH]; intros i packed size Hok Hi Hmax Hsize Hempty Hlim; simpl.
  { apply wp_ret. split_and!; [done|done|lia|]. exists O. by rewrite take_0, app_nil_r. }
  apply wp_bind, wp_log_entry_inside; [done|lia|]. intros e He.
  pose proof (ByteSize_grows packed e). pose proof (ByteSize_request (packed ++ [e])).
  pose proof (ByteSize_request packed). pose proof (ByteSize_entry e).
  rewrite u64_small by (unfold is_u64; lia). set (size' := size + entry_ByteSize e + 20) in *.
  assert (forall size2, request_ByteSize (packed ++ [e]) <= size2 < 2 ^ 34 -> within_limit (packed ++ [e]) ->
    wp (fun _ => False) (packEntries_loop opts entry_ByteSize request_ByteSize n (i + 1) (packed ++ [e]) size2)
      (fun r s' => s' = s /\ within_limit r /\ (packed = [] -> (0 < S n)%nat -> r <> []) /\
         exists k, (k <= S n)%nat /\
           map stored r = map stored packed ++ take k (drop (Z.to_nat (i - log_start (log s))) (log_entries (log s)))) s) as Hnext.
  { intros size2 Hsize2 Hlim2. eapply wp_mono; [apply (IH (i + 1)); [done|lia|lia|done|by destruct packed|done]|done|].
    intros r s' (-> & Hr & _ & k & Hk & Heq). rewrite map_app in Heq. split_and!; [done|done| |].
    - intros _ _ ->. by destruct (map stored packed).
    - exists (S k). split; [lia|]. rewrite Heq, (drop_S _ (stored e) (Z.to_nat (i - _))) by done.
      replace (S (Z.to_nat (i - log_start (log s)))) with (Z.to_nat (i + 1 - log_start (log s))) by lia.
      cbn [take]. by rewrite <-app_assoc. }
  destruct (Z.leb_spec (SOFT_RPC_SIZE_LIMIT opts) size').
  - apply wp_bind, wp_assert; [lia|]. intros _.
    destruct (Z.leb_spec (SOFT_RPC_SIZE_LIMIT opts) (request_ByteSize (packed ++ [e])));
      [destruct (Nat.eqb_spec (length packed) 0) as [Hnil%nil_length_inv|Hne]|]; simpl.
    + apply Hnext; [|left; by rewrite Hnil]. specialize (Hempty Hnil). lia.
    + apply wp_ret. split_and!; [done|done| |].
      * by intros ->.
      * exists O. split; [lia|]. by rewrite take_0, app_nil_r.
    + apply Hnext; [lia|by right].
  - apply Hnext; [lia|]. right. lia.
Qed.

(** C21: What a leader sends at once: consecutive entries of its log from
    [nextIndex] on, no more than the maximum number and, beyond the first,
    within the size limit. Packing always succeeds, and makes progress: when
    there is an entry to send, one is sent however large it is. *)
Theorem packEntries_sends nextIndex s :
  log_ok (log s) -> log_start (log s) <= nextIndex <= getLastLogIndex (log s) + 1 ->
  1 <= MAX_LOG_ENTRIES_PER_REQUEST opts -> nextIndex + MAX_LOG_ENTRIES_PER_REQUEST opts <= u64_max ->
  request_ByteSize [] < 2 ^ 32 ->
  safe (packEntries opts entry_ByteSize request_ByteSize nextIndex) (fun packed s' =>
    s' = s /\ within_limit packed /\
    Z.of_nat (length packed) <= MAX_LOG_ENTRIES_PER_REQUEST opts /\
    (nextIndex <= getLastLogIndex (log s) -> packed <> []) /\
    exists k, map stored packed =
              take k (drop (Z.to_nat (nextIndex - log_start (log s))) (log_entries (log s)))) s.
Proof.
  intros Hok Hnext Hmax Hwrap Hempty. unfold packEntries. apply wp_bind, wp_get.
  pose proof (log_bounds _ Hok). pose proof (ByteSize_request []).
  rewrite u64_small by (unfold is_u64, u64_max in *; lia).
  set (lastIndex := Z.min _ _). set (n := Z.to_nat _).
  eapply wp_mono; [apply (packEntries_loop_safe n nextIndex []); [done|lia|subst n lastIndex; lia|lia|lia|]|done|].
  - left. simpl. lia.
  - intros r s' (-> & Hlim & Hprog & k & Hk & Heq). split_and!; [done|done| | |by exists k].
    + assert (length r <= k)%nat by (rewrite <-(length_map stored r), Heq; simpl; rewrite length_take; lia).
      subst n lastIndex. lia.
    + intros Hle. apply Hprog; [done|]. subst n lastIndex. lia.
Qed.
End Packing.
End RaftLog.
