(* ===== verification/RaftConfig.v ===== *)
(** * The servers of a configuration

    [Configuration] keeps a map of the servers it knows and two lists of
    references into it. The objects live in a heap, so a reference could dangle:
    the invariant says none does, and every change of the configuration keeps
    it. [setConfiguration] ends with exactly the servers of the description,
    and a server that stays keeps its object. *)

From Stdlib Require Import ZArith Lia Ascii String.
From stdpp Require Import base gmap strings list fin_maps sorting.
From S2P Require Import Prelude OrderedMap StringUtil Stream SnapshotFile Consensus Log Configuration Raft RaftFrame.
Local Open Scope string_scope.
Local Open Scope Z_scope.
Local Open Scope list_scope.

(** ** The invariant *)

Definition known (c : Configuration) (id : Z) : option ServerRef := om_lookup (knownServers c) id.

Record heap_wf (c : Configuration) : Prop := {
  wf_sorted : om_sorted (knownServers c);
  wf_known : forall id r, known c id = Some r -> exists srv, servers c !! r = Some srv /\ serverId srv = id;
  wf_local : exists srv, servers c !! localServer c = Some srv /\ known c (serverId srv) = Some (localServer c);
  wf_fresh : forall r srv, servers c !! r = Some srv -> r < nextRef c /\ gcFlag srv = false
}.

(** [l] refers to known servers only. *)
Definition refers (c : Configuration) (l : list ServerRef) : Prop :=
  Forall (fun r => exists id, known c id = Some r) l.

Record conf_wf (c : Configuration) : Prop := {
  wf_heap : heap_wf c;
  wf_old : refers c (oldServers c);
  wf_new : refers c (newServers c)
}.

(** The references of a list of servers, in order. *)
Definition resolves (c : Configuration) (l : list ServerRef) (d : list Raft_Server) : Prop :=
  Forall2 (fun r srv => known c (server_id srv) = Some r) l d.

Lemma resolves_refers c l d : resolves c l d -> refers c l.
Proof. induction 1; constructor; eauto. Qed.

(** Objects are only added: every reference stays valid and means the same server. *)
Record grows (c c' : Configuration) : Prop := {
  grows_servers : forall r srv, servers c !! r = Some srv ->
    exists srv', servers c' !! r = Some srv' /\ serverId srv' = serverId srv;
  grows_known : forall id r, known c id = Some r -> known c' id = Some r;
  grows_local : localServer c' = localServer c;
  grows_state : conf_state c' = conf_state c;
  grows_id : conf_id c' = conf_id c;
  grows_description : description c' = description c
}.

#[export] Instance grows_preorder : PreOrder grows.
Proof.
  split; [constructor; eauto|]. intros c1 c2 c3 [A1 B1 C1 D1 E1 F1] [A2 B2 C2 D2 E2 F2].
  constructor; try congruence; [|auto]. intros r srv Hr. destruct (A1 r srv Hr) as (srv2 & Hr2 & Hid2).
  destruct (A2 r srv2 Hr2) as (srv3 & Hr3 & Hid3). exists srv3. split; [done|congruence].
Qed.

Lemma grows_resolves c c' l d : grows c c' -> resolves c l d -> resolves c' l d.
Proof. intros Hg. induction 1; constructor; [|done]. by apply (grows_known _ _ Hg). Qed.

Lemma grows_refers c c' l : grows c c' -> refers c l -> refers c' l.
Proof.
  intros Hg Hl. eapply Forall_impl; [exact Hl|]. intros r [id Hid]. exists id. by apply (grows_known _ _ Hg).
Qed.

(** What is known of a server apart from its addresses: the object of a server
    that stays only changes in these and in the flag. *)
Definition learnt (srv : Server) : Server := srv <| gcFlag := false |> <| addresses := "" |>.

Definition stays (c c' : Configuration) : Prop := forall r srv, servers c !! r = Some srv ->
  exists srv', servers c' !! r = Some srv' /\ learnt srv' = learnt srv.

#[export] Instance stays_preorder : PreOrder stays.
Proof.
  split; [by intros c r srv Hr; exists srv|]. intros c1 c2 c3 H12 H23 r srv1 Hr1.
  destruct (H12 r srv1 Hr1) as (srv2 & Hr2 & E2), (H23 r srv2 Hr2) as (srv3 & Hr3 & E3).
  exists srv3. split; [done|congruence].
Qed.

Lemma stays_update c r srv srv' :
  servers c !! r = Some srv -> learnt srv' = learnt srv ->
  stays c (c <| servers := <[r := srv']> (servers c) |>).
Proof.
  intros Hr He r0 srv0 Hr0. simpl. destruct (decide (r0 = r)) as [->|Hne].
  - rewrite lookup_insert_eq. exists srv'. split; [done|congruence].
  - rewrite lookup_insert_ne by done. by exists srv0.
Qed.

(** Retiring a server changes nothing else of it. *)
Lemma learnt_exit srv srv' : learnt srv' = learnt srv -> learnt (Server_exit srv') = learnt (Server_exit srv).
Proof.
  assert (forall o, learnt (Server_exit o) = Server_exit (learnt o)) as Hcomm.
  { intros o. unfold Server_exit, on_peer. simpl. by destruct (kind o). }
  intros He. by rewrite !Hcomm, He.
Qed.

Section RaftConfig.
Context {L : Type} `{LogOps L}.
Context (clock : nat -> Z).

Abbreviation R := (RaftConsensus L).

Lemma wp_update_server E r f srv s (Q : unit -> R -> Prop) :
  servers (configuration s) !! r = Some srv ->
  Q tt (s <| configuration := (configuration s)
            <| servers := <[r := f srv]> (servers (configuration s)) |> |>) ->
  wp E (update_server r f) Q s.
Proof. intros Hr HQ. unfold update_server. apply wp_bind, wp_get. rewrite Hr. by apply wp_put. Qed.

(** Updating an object keeps the invariant if the id and the flag stay. *)
Lemma heap_wf_update c r srv srv' :
  heap_wf c -> servers c !! r = Some srv -> serverId srv' = serverId srv -> gcFlag srv' = gcFlag srv ->
  heap_wf (c <| servers := <[r := srv']> (servers c) |>) /\
  grows c (c <| servers := <[r := srv']> (servers c) |>).
Proof.
  intros [W1 W2 W3 W4] Hr Hid Hgc.
  assert (forall r0 srv0, servers c !! r0 = Some srv0 ->
    exists srv1, <[r := srv']> (servers c) !! r0 = Some srv1 /\ serverId srv1 = serverId srv0) as Hup.
  { intros r0 srv0 Hr0. destruct (decide (r0 = r)) as [->|Hne].
    - rewrite lookup_insert_eq. exists srv'. split; [done|congruence].
    - rewrite lookup_insert_ne by done. by exists srv0. }
  split; constructor; try done.
  - intros id r0 Hr0. destruct (W2 id r0 Hr0) as (srv0 & Hsrv0 & Hid0).
    destruct (Hup r0 srv0 Hsrv0) as (srv1 & Hsrv1 & Hid1). exists srv1. split; [done|congruence].
  - destruct W3 as (srv0 & Hsrv0 & Hk). destruct (Hup _ _ Hsrv0) as (srv1 & Hsrv1 & Hid1).
    exists srv1. split; [done|]. by rewrite Hid1.
  - intros r0 srv0. simpl. destruct (decide (r0 = r)) as [->|Hne].
    + rewrite lookup_insert_eq. intros [= <-]. destruct (W4 _ _ Hr). split; [done|congruence].
    + rewrite lookup_insert_ne by done. apply W4.
Qed.

Lemma getServer_safe id s :
  heap_wf (configuration s) ->
  safe (getServer clock id) (fun r s' =>
    heap_wf (configuration s') /\ grows (configuration s) (configuration s') /\
    known (configuration s') id = Some r /\
    (forall id', is_Some (known (configuration s') id') <-> is_Some (known (configuration s) id') \/ id' = id) /\
    oldServers (configuration s') = oldServers (configuration s) /\
    newServers (configuration s') = newServers (configuration s) /\
    stays (configuration s) (configuration s')) s.
Proof.
  intros [W1 W2 W3 W4]. unfold getServer. apply wp_bind, wp_get.
  destruct (om_lookup (knownServers (configuration s)) id) as [r|] eqn:Hid.
  { apply wp_ret. split_and!; try done.
    intros id'. split; [by left|]. intros [?| ->]; [done|]. by exists r. }
  unfold now, set_conf. repeat wp_step. simpl. set (c := configuration s) in *. set (r := nextRef c).
  assert (forall r0 srv0, servers c !! r0 = Some srv0 -> r0 <> r) as Hfresh.
  { intros r0 srv0 Hr0. destruct (W4 _ _ Hr0). subst r. lia. }
  set (srv := Server_init id _).
  assert (forall r0 srv0, servers c !! r0 = Some srv0 -> <[r := srv]> (servers c) !! r0 = Some srv0) as Hkeep.
  { intros r0 srv0 Hr0. rewrite lookup_insert_ne; [done|]. intros <-. by eapply Hfresh. }
  assert (forall id' r', known c id' = Some r' -> om_lookup (om_set (knownServers c) id r) id' = Some r') as Hknown.
  { intros id' r' Hk. rewrite om_lookup_set_ne; [done|]. intros ->. unfold known in Hk. congruence. }
  split_and!; try done; try constructor; simpl; try done.
  - by apply om_set_sorted.
  - intros id' r'. unfold known. simpl. rewrite om_lookup_set. case_decide as Hdec.
    + intros [= <-]. exists srv. by rewrite lookup_insert_eq.
    + intros Hk. destruct (W2 _ _ Hk) as (srv0 & Hr0 & ?). exists srv0. auto.
  - destruct W3 as (srv0 & Hr0 & Hk). exists srv0. split; [auto|]. unfold known. simpl. auto.
  - intros r0 srv0. destruct (decide (r0 = r)) as [->|Hne].
    + rewrite lookup_insert_eq. intros [= <-]. split; [subst r; lia|done].
    + rewrite lookup_insert_ne by done. intros Hr0. destruct (W4 _ _ Hr0). split; [lia|done].
  - intros r0 srv0 Hr0. exists srv0. auto.
  - unfold known. simpl. apply om_lookup_set_eq.
  - unfold known. simpl. intros Hsome. rewrite om_lookup_set in Hsome. case_decide as Hdec; [by right|by left].
  - unfold known. simpl. intros [Hs'| ->]; [|by rewrite om_lookup_set_eq].
    rewrite om_lookup_set. by case_decide.
  - intros r0 srv0 Hr0. exists srv0. auto.
Qed.

(** The servers of [d] are known now, under the references [refs]. *)
Record added (c c' : Configuration) (d : list Raft_Server) (refs : list ServerRef) : Prop := {
  added_wf : heap_wf c';
  added_grows : grows c c';
  added_known : forall id, is_Some (known c' id) <-> is_Some (known c id) \/ id ∈ map server_id d;
  added_refs : resolves c' refs d;
  added_stays : stays c c'
}.

Lemma added_nil c : heap_wf c -> added c c [] [].
Proof.
  intros Hwf. constructor; [done|done| |constructor|done]. intros id. simpl. split; [by left|].
  by intros [?|?%elem_of_nil].
Qed.

Lemma added_cons c1 c2 c3 srv r d refs :
  added c1 c2 [srv] [r] -> added c2 c3 d refs -> added c1 c3 (srv :: d) (r :: refs).
Proof.
  intros [A1 B1 C1 D1 E1] [A2 B2 C2 D2 E2]. constructor; [done|by transitivity c2| | |by transitivity c2].
  - intros id. rewrite C2, C1. simpl. rewrite !elem_of_cons, elem_of_nil. tauto.
  - constructor; [|done]. apply (grows_known _ _ B2). by inversion D1.
Qed.

Lemma added_same_servers c c1 c' d refs :
  added c c1 d refs -> servers c' = servers c1 -> nextRef c' = nextRef c1 ->
  knownServers c' = knownServers c1 -> localServer c' = localServer c1 ->
  conf_state c' = conf_state c1 -> conf_id c' = conf_id c1 -> description c' = description c1 ->
  added c c' d refs.
Proof.
  intros [[W1 W2 W3 W4] [G1 G2 G3 G4 G5 G6] K Rs St] E1 E2 E3 E4 E5 E6 E7.
  assert (forall id, known c' id = known c1 id) as Ek by (intros; unfold known; by rewrite E3).
  constructor; [constructor|constructor| | |]; unfold stays; rewrite ?E1, ?E2, ?E3, ?E4; try congruence; try done.
  - intros id r. rewrite Ek. apply W2.
  - destruct W3 as (srv & ? & ?). exists srv. by rewrite Ek.
  - intros id r. rewrite Ek. apply G2.
  - intros id. by rewrite Ek.
  - eapply Forall2_impl; [exact Rs|]. intros r srv Hr. by rewrite Ek.
Qed.

(** [getServer] and the assignment of the addresses. *)
Lemma get_and_address srv s (k : ServerRef -> M R unit) (Q : unit -> R -> Prop) :
  heap_wf (configuration s) ->
  (forall r s', added (configuration s) (configuration s') [srv] [r] ->
     oldServers (configuration s') = oldServers (configuration s) ->
     newServers (configuration s') = newServers (configuration s) ->
     wp (fun _ => False) (k r) Q s') ->
  wp (fun _ => False)
    (let! r := getServer clock (server_id srv) in
     update_server r (fun o => o <| addresses := server_addresses srv |>) ;;; k r) Q s.
Proof.
  intros Hwf HQ. apply wp_bind. eapply wp_mono; [by apply getServer_safe|done|].
  intros r s1 (Hwf1 & Hg1 & Hr & Hk & Ho & Hn & Hst1). destruct (wf_known _ Hwf1 _ _ Hr) as (o & Hro & Hid).
  apply wp_bind, (wp_update_server _ _ _ o); [done|].
  destruct (heap_wf_update _ r o (o <| addresses := server_addresses srv |>) Hwf1 Hro) as [Hwf2 Hg2]; [done|done|].
  apply HQ; [|done|done]. constructor; [done|by etransitivity| | |].
  - intros id. simpl. rewrite list_elem_of_singleton. apply Hk.
  - constructor; [done|constructor].
  - etransitivity; [exact Hst1|]. by apply (stays_update _ _ o).
Qed.

Lemma add_old_servers d s :
  heap_wf (configuration s) ->
  safe (forM d (add_old_server clock)) (fun _ s' => exists refs,
    added (configuration s) (configuration s') d refs /\
    oldServers (configuration s') = oldServers (configuration s) ++ refs /\
    newServers (configuration s') = newServers (configuration s)) s.
Proof.
  revert s. induction d as [|srv d IH]; intros s Hwf.
  { apply wp_ret. exists []. rewrite app_nil_r. split_and!; [by apply added_nil|done|done]. }
  apply wp_bind. unfold add_old_server at 1. apply get_and_address; [done|]. intros r s1 Ha Ho Hn.
  unfold set_conf. apply wp_modify. eapply wp_mono; [apply IH|done|].
  - simpl. by eapply added_wf, (added_same_servers _ (configuration s1)).
  - intros ? s3 (refs & Ha3 & Ho3 & Hn3). exists (r :: refs). simpl in *. split_and!.
    + eapply added_cons; [|exact Ha3]. by eapply added_same_servers.
    + by rewrite Ho3, Ho, <-app_assoc.
    + congruence.
Qed.

Lemma add_new_servers d s :
  heap_wf (configuration s) ->
  safe (forM d (add_new_server clock)) (fun _ s' => exists refs,
    added (configuration s) (configuration s') d refs /\
    newServers (configuration s') = newServers (configuration s) ++ refs /\
    oldServers (configuration s') = oldServers (configuration s)) s.
Proof.
  revert s. induction d as [|srv d IH]; intros s Hwf.
  { apply wp_ret. exists []. rewrite app_nil_r. split_and!; [by apply added_nil|done|done]. }
  apply wp_bind. unfold add_new_server at 1. apply get_and_address; [done|]. intros r s1 Ha Ho Hn.
  unfold set_conf. apply wp_modify. eapply wp_mono; [apply IH|done|].
  - simpl. by eapply added_wf, (added_same_servers _ (configuration s1)).
  - intros ? s3 (refs & Ha3 & Hn3 & Ho3). exists (r :: refs). simpl in *. split_and!.
    + eapply added_cons; [|exact Ha3]. by eapply added_same_servers.
    + by rewrite Hn3, Hn, <-app_assoc.
    + congruence.
Qed.

(** *** Marking the servers that stay, and collecting the others *)

(** The same objects, the flags of [ms] set, and none but perhaps of [rest]. *)
Record flagged (c c' : Configuration) (ms : ServerRef -> Prop) : Prop := {
  fl_servers : forall r srv, servers c !! r = Some srv ->
    exists srv', servers c' !! r = Some srv' /\ serverId srv' = serverId srv /\ (gcFlag srv' = true <-> ms r);
  fl_only : forall r srv', servers c' !! r = Some srv' -> is_Some (servers c !! r);
  fl_nextRef : nextRef c' = nextRef c;
  fl_local : localServer c' = localServer c;
  fl_state : conf_state c' = conf_state c;
  fl_id : conf_id c' = conf_id c;
  fl_description : description c' = description c;
  fl_old : oldServers c' = oldServers c;
  fl_new : newServers c' = newServers c
}.

Lemma flagged_start c : heap_wf c -> flagged c c (fun _ => False).
Proof.
  intros Hwf. constructor; try done. intros r srv Hr. exists srv. by rewrite (proj2 (wf_fresh _ Hwf _ _ Hr)).
Qed.

Lemma flagged_iff c c' ms ms' : (forall r, ms r <-> ms' r) -> flagged c c' ms -> flagged c c' ms'.
Proof.
  intros Hms [F1 F2 F3 F4 F5 F6 F7 F8 F9]. constructor; try done.
  intros r srv Hr. destruct (F1 r srv Hr) as (srv' & ? & ? & Hgc). exists srv'. by rewrite <-Hms.
Qed.

(** Assigning a flag. *)
Lemma flagged_update c c' ms r o o' :
  flagged c c' ms -> servers c' !! r = Some o -> serverId o' = serverId o ->
  flagged c (c' <| servers := <[r := o']> (servers c') |>)
    (fun r0 => if decide (r0 = r) then gcFlag o' = true else ms r0).
Proof.
  intros [F1 F2 F3 F4 F5 F6 F7 F8 F9] Ho Hid. constructor; simpl; try done.
  - intros r0 srv Hr0. destruct (F1 r0 srv Hr0) as (srv' & Hr0' & Hid' & Hgc).
    destruct (decide (r0 = r)) as [->|Hne].
    + rewrite lookup_insert_eq. exists o'. split_and!; [done|congruence|done].
    + rewrite lookup_insert_ne by done. exists srv'. done.
  - intros r0 srv'. destruct (decide (r0 = r)) as [->|Hne].
    + intros _. by apply (F2 r o).
    + rewrite lookup_insert_ne by done. apply F2.
Qed.

Lemma flagged_known c c' ms k :
  flagged c c' ms -> flagged c (c' <| knownServers := k |>) ms.
Proof. intros [F1 F2 F3 F4 F5 F6 F7 F8 F9]. by constructor. Qed.

(** The marking loops. *)
Lemma mark_servers c l (s : R) ms :
  flagged c (configuration s) ms -> Forall (fun r => is_Some (servers c !! r)) l ->
  safe (forM l (fun r => update_server r setGCFlag)) (fun _ s' =>
    flagged c (configuration s') (fun r => ms r \/ r ∈ l) /\
    knownServers (configuration s') = knownServers (configuration s) /\
    stays (configuration s) (configuration s')) s.
Proof.
  intros Hfl Hl. revert s ms Hfl. induction Hl as [|r l [o Ho] _ IH]; intros s ms Hfl.
  { apply wp_ret. split_and!; [|done|done]. eapply flagged_iff; [|exact Hfl]. intros r. rewrite elem_of_nil. tauto. }
  destruct (fl_servers _ _ _ Hfl _ _ Ho) as (o1 & Ho1 & _).
  apply wp_bind, (wp_update_server _ _ _ o1); [done|].
  eapply wp_mono; [eapply (IH _ (fun r0 => ms r0 \/ r0 = r))|done|].
  - simpl. eapply flagged_iff; [|exact (flagged_update _ _ ms r o1 (setGCFlag o1) Hfl Ho1 eq_refl)].
    intros r0. simpl. case_decide; naive_solver.
  - intros ? s' (Hf & Hk & Hst). split_and!; [|done|].
    + eapply flagged_iff; [|exact Hf]. intros r0. simpl. rewrite elem_of_cons. tauto.
    + etransitivity; [|exact Hst]. by apply (stays_update _ _ o1).
Qed.

(** The references of the known servers are distinct: each object has one id. *)
Lemma known_refs_NoDup c : heap_wf c -> NoDup (map snd (knownServers c)).
Proof.
  intros Hwf. assert (forall id r, (id, r) ∈ knownServers c -> known c id = Some r) as Hk.
  { intros id r Hin. apply om_lookup_elem; [apply Hwf|done]. }
  pose proof (wf_sorted _ Hwf) as Hs. revert Hk Hs. induction (knownServers c) as [|[id r] l IH]; intros Hk Hs; simpl.
  { constructor. }
  apply om_sorted_cons in Hs as [Hs Hhd]. constructor; [|apply IH; [|done]; intros; apply Hk; by right].
  intros ([id' r'] & -> & Hin)%list_elem_of_fmap. simpl in *.
  destruct (wf_known _ Hwf id r') as (srv & Hr & Hid); [apply Hk; by left|].
  destruct (wf_known _ Hwf id' r') as (srv' & Hr' & Hid'); [apply Hk; by right|].
  rewrite Forall_forall in Hhd. specialize (Hhd _ Hin). simpl in Hhd.
  assert (id = id') as -> by congruence. by apply (key_lt_irrefl id').
Qed.

(** Between two servers of the final loop: [rest] is still to visit. The objects
    that stay have learnt what they had, and the others are retired. *)
Record collecting (c : Configuration) (ms : ServerRef -> Prop) (rest : list (Z * ServerRef)) (c' : Configuration) : Prop := {
  co_flagged : flagged c c' (fun r => ms r /\ r ∈ map snd rest);
  co_sorted : om_sorted (knownServers c');
  co_known : forall id r, known c' id = Some r <-> known c id = Some r /\ (ms r \/ (id, r) ∈ rest);
  co_rest : Forall (fun p => known c p.1 = Some p.2) rest;
  co_NoDup : NoDup (map snd rest);
  co_objects : forall id r srv, known c id = Some r -> servers c !! r = Some srv ->
    exists srv', servers c' !! r = Some srv' /\
      (ms r \/ (id, r) ∈ rest -> learnt srv' = learnt srv) /\
      (~ ms r -> (id, r) ∉ rest -> learnt srv' = learnt (Server_exit srv))
}.

(** The objects after a step that puts [o'] in place of [o]. *)
Lemma collecting_objects c ms id r rest c' o o' :
  heap_wf c -> collecting c ms ((id, r) :: rest) c' -> servers c' !! r = Some o ->
  (ms r -> learnt o' = learnt o) -> (~ ms r -> learnt o' = learnt (Server_exit o)) ->
  forall id0 r0 srv, known c id0 = Some r0 -> servers c !! r0 = Some srv ->
    exists srv', <[r := o']> (servers c') !! r0 = Some srv' /\
      (ms r0 \/ (id0, r0) ∈ rest -> learnt srv' = learnt srv) /\
      (~ ms r0 -> (id0, r0) ∉ rest -> learnt srv' = learnt (Server_exit srv)).
Proof.
  intros Hwf [_ _ _ Rs N Obj] Ho Hstay Hexit id0 r0 srv Hk Hsrv.
  destruct (Obj id0 r0 srv Hk Hsrv) as (srv' & Hsrv' & Hin & Hout).
  apply NoDup_cons in N as [Hnotin _]. destruct (decide (r0 = r)) as [->|Hne].
  - apply Forall_cons in Rs as [Hhd _]. simpl in Hhd.
    assert (id0 = id) as ->.
    { destruct (wf_known _ Hwf _ _ Hk) as (o1 & Ho1 & <-), (wf_known _ Hwf _ _ Hhd) as (o2 & Ho2 & <-). congruence. }
    rewrite lookup_insert_eq. exists o'. assert (srv' = o) as -> by congruence.
    assert (learnt o = learnt srv) as Heq by (apply Hin; right; by left).
    split_and!; [done| |].
    + intros [Hm|Hr]; [by rewrite Hstay|]. destruct Hnotin. apply list_elem_of_fmap. by exists (id, r).
    + intros Hm _. rewrite Hexit by done. by apply learnt_exit.
  - rewrite lookup_insert_ne by done. exists srv'. split_and!; [done| |].
    + intros [Hm|Hr]; apply Hin; [by left|right; by right].
    + intros Hm Hr. apply Hout; [done|]. rewrite elem_of_cons. intros [[= _ ->]|?]; done.
Qed.

Lemma collecting_step c ms id r rest c' o o' :
  heap_wf c -> collecting c ms ((id, r) :: rest) c' -> servers c' !! r = Some o -> serverId o' = serverId o ->
  gcFlag o' = false -> (ms r -> learnt o' = learnt o) -> (~ ms r -> learnt o' = learnt (Server_exit o)) ->
  (ms r -> collecting c ms rest (c' <| servers := <[r := o']> (servers c') |>)) /\
  (~ ms r -> collecting c ms rest
     (c' <| servers := <[r := o']> (servers c') |> <| knownServers := om_erase (knownServers c') id |>)).
Proof.
  intros Hwf Hco Ho Hid Hgc Hstay Hexit.
  pose proof (collecting_objects c ms id r rest c' o o' Hwf Hco Ho Hstay Hexit) as Hobj.
  destruct Hco as [F S K Rs N _]. apply Forall_cons in Rs as [Hhd Rs]. simpl in Hhd.
  apply NoDup_cons in N as [Hnotin N].
  assert (flagged c (c' <| servers := <[r := o']> (servers c') |>) (fun r0 => ms r0 /\ r0 ∈ map snd rest)) as Hf.
  { eapply flagged_iff; [|exact (flagged_update _ _ _ r o o' F Ho Hid)]. intros r0. rewrite Hgc. simpl.
    case_decide as Hdec; [subst; naive_solver|]. rewrite elem_of_cons. tauto. }
  assert (forall id0 r0, (id0, r0) ∈ rest -> r0 <> r) as Hother.
  { intros id0 r0 Hin ->. apply Hnotin, list_elem_of_fmap. by exists (id0, r). }
  split; intros Hms; constructor; try done.
  - intros id0 r0. unfold known at 1. simpl. change (om_lookup _ id0) with (known c' id0). rewrite K, elem_of_cons.
    split; [|tauto]. intros [? [?|[[= -> ->]|?]]]; auto.
  - by apply flagged_known.
  - by apply om_erase_sorted.
  - intros id0 r0. unfold known at 1. simpl. rewrite om_lookup_erase by done. case_decide as Hdec.
    + subst id0. split; [done|]. intros [Hk [Hm|Hin]].
      * rewrite Hhd in Hk. by injection Hk as <-.
      * rewrite Hhd in Hk. injection Hk as <-. by destruct (Hother _ _ Hin).
    + change (om_lookup _ id0) with (known c' id0). rewrite K, elem_of_cons. split; [|tauto].
      intros [? [?|[[= ? ?]|?]]]; [by auto|congruence|by auto].
Qed.

Lemma collect_servers_safe c (ms : ServerRef -> Prop) (s : R) :
  heap_wf c -> flagged c (configuration s) ms -> knownServers (configuration s) = knownServers c ->
  (forall r, ms r -> exists id, known c id = Some r) -> stays c (configuration s) ->
  safe collect_servers (fun _ s' => collecting c ms [] (configuration s')) s.
Proof.
  intros Hwf Hfl Hk Hms Hst. unfold collect_servers. apply wp_bind, wp_get. rewrite Hk.
  apply (wp_forM _ _ _ (fun rest s' => collecting c ms rest (configuration s'))).
  - constructor; [|by rewrite Hk; apply Hwf| | |by apply known_refs_NoDup|].
    + eapply flagged_iff; [|exact Hfl]. intros r. split; [|tauto]. intros Hm. split; [done|].
      destruct (Hms r Hm) as [id Hid]. apply list_elem_of_fmap. exists (id, r). split; [done|].
      apply om_lookup_elem; [apply Hwf|done].
    + intros id r. unfold known. rewrite Hk. split; [|tauto]. intros Hr. split; [done|]. right.
      apply om_lookup_elem; [apply Hwf|done].
    + apply Forall_forall. intros [id r] Hin. apply om_lookup_elem; [apply Hwf|done].
    + intros id r srv Hr Hsrv. destruct (Hst r srv Hsrv) as (srv' & Hsrv' & Heq). exists srv'.
      split_and!; [done|done|]. intros _ []. apply om_lookup_elem; [apply Hwf|exact Hr].
  - intros [id r] rest s' Hco. apply wp_bind, wp_get. simpl.
    pose proof (co_rest _ _ _ _ Hco) as Hrest. apply Forall_cons in Hrest as [Hid _]. simpl in Hid.
    destruct (wf_known _ Hwf _ _ Hid) as (srv0 & Hr0 & _).
    destruct (fl_servers _ _ _ (co_flagged _ _ _ _ Hco) _ _ Hr0) as (o & Ho & _ & Hgc). rewrite Ho.
    assert (gcFlag o = true <-> ms r) as Hflag by (rewrite Hgc; simpl; rewrite elem_of_cons; tauto).
    destruct (gcFlag o) eqn:Hgo.
    + apply (wp_update_server _ _ _ o); [done|].
      destruct (collecting_step c ms id r rest _ o (o <| gcFlag := false |>) Hwf Hco Ho) as [Hstep _]; [done|done|done| |].
      { by intros []; apply Hflag. }
      by apply Hstep, Hflag.
    + apply wp_bind, (wp_update_server _ _ _ o); [done|]. unfold set_conf. apply wp_modify.
      destruct (collecting_step c ms id r rest _ o (Server_exit o) Hwf Hco Ho) as [_ Hstep].
      * unfold Server_exit, on_peer. by destruct (kind o).
      * unfold Server_exit, on_peer. by destruct (kind o).
      * by intros ?%Hflag.
      * done.
      * apply Hstep. intros ?%Hflag. done.
Qed.

Lemma collected_wf c ms c' :
  heap_wf c -> collecting c ms [] c' -> ms (localServer c) ->
  heap_wf c' /\ (forall id r, known c' id = Some r <-> known c id = Some r /\ ms r).
Proof.
  intros [W1 W2 W3 W4] [F S K _ _ _] Hlocal. pose proof (fl_servers _ _ _ F) as Hsrv.
  assert (forall id r, known c' id = Some r <-> known c id = Some r /\ ms r) as Hk.
  { intros id r. rewrite K, elem_of_nil. tauto. }
  split; [|done]. constructor; [done| | |].
  - intros id r [Hr _]%Hk. destruct (W2 id r Hr) as (srv & Hs & Hid).
    destruct (Hsrv _ _ Hs) as (srv' & Hs' & Hid' & _). exists srv'. split; [done|congruence].
  - destruct W3 as (srv & Hs & Hknown). destruct (Hsrv _ _ Hs) as (srv' & Hs' & Hid' & _).
    exists srv'. rewrite (fl_local _ _ _ F), Hid'. split; [done|]. by apply Hk.
  - intros r srv' Hr. destruct (fl_only _ _ _ F r srv' Hr) as [srv Hs]. rewrite (fl_nextRef _ _ _ F).
    destruct (W4 r srv Hs) as [Hlt _]. split; [done|].
    destruct (Hsrv _ _ Hs) as (srv1 & Hr1 & _ & Hgc). assert (Some srv1 = Some srv') as [= ->] by (rewrite <-Hr1; exact Hr).
    destruct (gcFlag srv'); [|done]. destruct (proj1 Hgc eq_refl) as [_ Hin]. by apply elem_of_nil in Hin.
Qed.

Lemma resolves_kept c c' (ms : ServerRef -> Prop) l d :
  (forall id r, known c' id = Some r <-> known c id = Some r /\ ms r) -> Forall ms l ->
  resolves c l d -> resolves c' l d.
Proof.
  intros Hk Hms Hr. revert Hms. induction Hr as [|r srv l d Hr _ IH]; intros Hms; [constructor|].
  apply Forall_cons in Hms as [Hm Hms]. constructor; [by apply Hk|by apply IH].
Qed.

Lemma refers_valid c l : heap_wf c -> refers c l -> Forall (fun r => is_Some (servers c !! r)) l.
Proof.
  intros Hwf Hl. eapply Forall_impl; [exact Hl|]. intros r [id Hid].
  destruct (wf_known _ Hwf _ _ Hid) as (srv & Hr & _). by exists srv.
Qed.

Lemma known_inj c id id' r : heap_wf c -> known c id = Some r -> known c id' = Some r -> id = id'.
Proof.
  intros Hwf Hr Hr'. destruct (wf_known _ Hwf _ _ Hr) as (srv & Hs & <-).
  destruct (wf_known _ Hwf _ _ Hr') as (srv' & Hs' & <-). congruence.
Qed.

(** An id is known under a reference of [l] exactly when it is in [d]. *)
Lemma resolves_known c l d id :
  heap_wf c -> resolves c l d ->
  (exists r, known c id = Some r /\ r ∈ l) <-> id ∈ map server_id d.
Proof.
  intros Hwf. induction 1 as [|r srv l d Hr _ IH]; simpl.
  { rewrite elem_of_nil. split; [|done]. by intros (r & _ & ?%elem_of_nil). }
  rewrite elem_of_cons, <-IH. split.
  - intros (r0 & Hr0 & [->|Hin]%elem_of_cons); [left; by eapply known_inj|right; eauto].
  - intros [->|(r0 & Hr0 & Hin)]; [exists r|exists r0]; (split; [done|]); [by left|by right].
Qed.

(** The second half of [setConfiguration]: everything but the local server and
    the servers of the two lists is forgotten. *)
Definition forget_others : M R unit :=
  let! s := get in
  update_server (localServer (configuration s)) setGCFlag ;;;
  forM (oldServers (configuration s)) (fun r => update_server r setGCFlag) ;;;
  forM (newServers (configuration s)) (fun r => update_server r setGCFlag) ;;;
  collect_servers.

Lemma forget_others_safe s :
  let c := configuration s in
  conf_wf c ->
  safe forget_others (fun _ s' =>
    let ms r := r = localServer c \/ r ∈ oldServers c \/ r ∈ newServers c in
    collecting c ms [] (configuration s')) s.
Proof.
  intros c [Hwf Hold Hnew]. unfold forget_others. apply wp_bind, wp_get. fold c.
  destruct (wf_local _ Hwf) as (srv & Hsrv & Hlocal).
  pose proof (mark_servers c [localServer c] s _ (flagged_start c Hwf)) as Hm1.
  apply wp_bind. apply wp_bind_inv in Hm1; [|by constructor].
  eapply wp_mono; [exact Hm1|done|]. intros [] s1 (Hf1 & Hk1 & St1).
  apply wp_bind. eapply wp_mono; [eapply mark_servers; [exact Hf1|by apply refers_valid]|done|].
  intros [] s2 (Hf2 & Hk2 & St2).
  apply wp_bind. eapply wp_mono; [eapply mark_servers; [exact Hf2|by apply refers_valid]|done|].
  intros [] s3 (Hf3 & Hk3 & St3).
  apply collect_servers_safe; [done| |by rewrite Hk3, Hk2, Hk1| |by do 2 (etransitivity; [eassumption|])].
  - eapply flagged_iff; [|exact Hf3]. intros r. simpl. rewrite list_elem_of_singleton. tauto.
  - intros r. unfold refers in *. rewrite Forall_forall in Hold, Hnew. intros [->|[Hr|Hr]]; eauto.
Qed.

(** The configuration [c'] that setting [d] as number [newId] makes of [c]. *)
Definition configured (c : Configuration) (newId : Z) (d : Raft_Configuration) (c' : Configuration) : Prop :=
  conf_wf c' /\ conf_id c' = newId /\ description c' = d /\
  conf_state c' = (if bool_decide (next_servers d = []) then STABLE else TRANSITIONAL) /\
  resolves c' (oldServers c') (prev_configuration d) /\
  resolves c' (newServers c') (next_servers d) /\
  localServer c' = localServer c /\
  (forall id, is_Some (known c' id) <->
     known c id = Some (localServer c) \/
     id ∈ map server_id (prev_configuration d) \/ id ∈ map server_id (next_servers d)) /\
  (forall id r, known c id = Some r -> is_Some (known c' id) -> known c' id = Some r) /\
  (forall id r srv, known c id = Some r -> servers c !! r = Some srv ->
     exists srv', servers c' !! r = Some srv' /\
       learnt srv' = learnt (if decide (is_Some (known c' id)) then srv else Server_exit srv)).

Lemma setConfiguration_safe newId d s :
  conf_wf (configuration s) ->
  safe (Configuration_setConfiguration clock newId d) (fun _ s' =>
    configured (configuration s) newId d (configuration s')) s.
Proof.
  set (c := configuration s). intros [Hwf _ _]. unfold Configuration_setConfiguration, set_conf. apply wp_bind, wp_modify.
  set (s0 := set_field _ s). assert (heap_wf (configuration s0)) as Hwf0.
  { destruct Hwf as [W1 W2 W3 W4]. by constructor. }
  apply wp_bind. eapply wp_mono; [by apply add_old_servers|done|].
  intros [] s1 (olds & Ha1 & Ho1 & Hn1).
  apply wp_bind. eapply wp_mono; [apply add_new_servers, Ha1|done|].
  intros [] s2 (news & Ha2 & Hn2 & Ho2). simpl in Ho1, Hn1. rewrite Hn1 in Hn2. rewrite Ho1 in Ho2. simpl in Hn2.
  pose proof (grows_resolves _ _ _ _ (added_grows _ _ _ _ Ha2) (added_refs _ _ _ _ Ha1)) as Hr_old.
  pose proof (added_refs _ _ _ _ Ha2) as Hr_new.
  assert (conf_wf (configuration s2)) as Hwf2.
  { constructor; [apply Ha2| |]; rewrite ?Ho2, ?Hn2; by eapply resolves_refers. }
  eapply wp_mono; [by apply forget_others_safe|done|]. intros [] s3 Hco. simpl.
  destruct (collected_wf _ _ _ (wf_heap _ Hwf2) Hco) as [Hwf3 Hk]; [by left|].
  assert (grows (configuration s0) (configuration s2)) as Hg by (etransitivity; [apply Ha1|apply Ha2]).
  pose proof (co_flagged _ _ _ _ Hco) as Hf.
  assert (resolves (configuration s3) (oldServers (configuration s3)) (prev_configuration d)) as Hold3.
  { rewrite (fl_old _ _ _ Hf), Ho2. eapply resolves_kept; [exact Hk| |exact Hr_old].
    apply Forall_forall. rewrite Ho2. auto. }
  assert (resolves (configuration s3) (newServers (configuration s3)) (next_servers d)) as Hnew3.
  { rewrite (fl_new _ _ _ Hf), Hn2. eapply resolves_kept; [exact Hk| |exact Hr_new].
    apply Forall_forall. rewrite Hn2. auto. }
  split_and!; try done.
  - constructor; [done|by eapply resolves_refers..].
  - by rewrite (fl_id _ _ _ Hf), (grows_id _ _ Hg).
  - by rewrite (fl_description _ _ _ Hf), (grows_description _ _ Hg).
  - by rewrite (fl_state _ _ _ Hf), (grows_state _ _ Hg).
  - by rewrite (fl_local _ _ _ Hf), (grows_local _ _ Hg).
  - intros id. rewrite <-(resolves_known _ _ _ id (wf_heap _ Hwf2) Hr_old), <-(resolves_known _ _ _ id (wf_heap _ Hwf2) Hr_new).
    rewrite <-Ho2, <-Hn2. pose proof (grows_local _ _ Hg) as Hl.
    destruct (wf_local _ Hwf) as (self & _ & Hself). pose proof (grows_known _ _ Hg _ _ Hself) as Hself2.
    split.
    + intros [r [Hr [->|[Hin|Hin]]]%Hk]; [left|right; left|right; right]; [|by eauto..].
      rewrite Hl in Hr. rewrite (known_inj _ _ _ _ (wf_heap _ Hwf2) Hr Hself2). exact Hself.
    + intros [Hr|[(r & Hr & Hin)|(r & Hr & Hin)]].
      * exists (localServer c). apply Hk. split; [by apply (grows_known _ _ Hg)|]. left. by rewrite Hl.
      * exists r. apply Hk. auto.
      * exists r. apply Hk. auto.
  - intros id r Hr [r' Hr']. rewrite Hr'. apply Hk in Hr' as [Hr' _].
    apply (grows_known _ _ Hg) in Hr. congruence.
  - intros id r srv Hr Hsrv. assert (stays c (configuration s2)) as Hst.
    { change (stays (configuration s0) (configuration s2)). etransitivity; [apply Ha1|apply Ha2]. }
    destruct (Hst r srv Hsrv) as (srv2 & Hsrv2 & He2). apply (grows_known _ _ Hg) in Hr as Hr2.
    destruct (co_objects _ _ _ _ Hco id r srv2 Hr2 Hsrv2) as (srv3 & Hsrv3 & Hin & Hout).
    exists srv3. split; [done|]. case_decide as Hdec.
    + rewrite Hin; [done|]. left. destruct Hdec as [r' [Hr' Hm]%Hk]. by replace r with r' by congruence.
    + rewrite Hout; [by apply learnt_exit| |by apply not_elem_of_nil]. intros Hm. apply Hdec. exists r. apply Hk. auto.
Qed.

(** C26: [setConfiguration] does what its comment says and dereferences nothing
    that is gone: it always returns. Afterwards the two lists are the servers of
    the description, in order; the server knows itself and exactly those, each
    under its id. A server that was known before and still is keeps its object,
    with all that its thread has learnt; one that is not known any more is
    retired: its thread has been told to exit, and nothing else of it changed. *)
Theorem setConfiguration_exact newId d s :
  conf_wf (configuration s) ->
  exists s', Configuration_setConfiguration clock newId d s = Ok (tt, s') /\
    configured (configuration s) newId d (configuration s').
Proof.
  intros Hwf. destruct (proj1 (safe_run _ _ _) (setConfiguration_safe newId d s Hwf)) as ([] & s' & Hrun & Hc).
  by exists s'.
Qed.

(** ** [reset] *)

Lemma forEach_exit_safe l (s : R) :
  heap_wf (configuration s) -> Forall (fun r => is_Some (servers (configuration s) !! r)) l ->
  safe (forM l (fun r => update_server r Server_exit)) (fun _ s' =>
    heap_wf (configuration s') /\ grows (configuration s) (configuration s') /\
    oldServers (configuration s') = oldServers (configuration s) /\
    newServers (configuration s') = newServers (configuration s) /\
    configurationManager s' = configurationManager s) s.
Proof.
  intros Hwf Hl. revert s Hwf Hl. induction l as [|r l IH]; intros s Hwf Hl.
  { by apply wp_ret. }
  apply Forall_cons in Hl as [[o Ho] Hl]. apply wp_bind, (wp_update_server _ _ _ o); [done|].
  destruct (heap_wf_update _ r o (Server_exit o) Hwf Ho) as [Hwf1 Hg1];
    [by unfold Server_exit, on_peer; destruct (kind o)..|].
  eapply wp_mono; [apply IH; [done|]|done|].
  - eapply Forall_impl; [exact Hl|]. intros r0 [o0 Ho0].
    destruct (grows_servers _ _ Hg1 _ _ Ho0) as (o1 & Ho1 & _). by exists o1.
  - intros ? s' (? & ? & ? & ? & ?). simpl in *. split_and!; try done. by etransitivity.
Qed.

Lemma Configuration_reset_safe (s : R) :
  conf_wf (configuration s) ->
  safe Configuration_reset (fun _ s' =>
    conf_wf (configuration s') /\ conf_id (configuration s') = 0 /\
    description (configuration s') = Raft_Configuration_init /\
    configurationManager s' = configurationManager s) s.
Proof.
  intros [Hwf _ _]. unfold Configuration_reset, set_conf, forEach. apply wp_bind, wp_modify.
  set (s0 := set_field _ s). assert (heap_wf (configuration s0)) as Hwf0.
  { destruct Hwf as [W1 W2 W3 W4]. by constructor. }
  apply wp_bind, wp_bind, wp_get. eapply wp_mono; [apply forEach_exit_safe; [done|]|done|].
  - apply Forall_forall. intros r ([id r0] & -> & Hin)%list_elem_of_fmap.
    destruct (wf_known _ Hwf0 id r0) as (srv & Hr & _); [|by exists srv].
    apply om_lookup_elem; [apply Hwf0|done].
  - intros [] s1 (Hwf1 & Hg & Ho & Hn & Hm). apply wp_modify.
    assert (conf_id (configuration s1) = 0 /\ description (configuration s1) = Raft_Configuration_init) as [Hi Hd].
    { by rewrite (grows_id _ _ Hg), (grows_description _ _ Hg). }
    simpl in Ho, Hn. destruct Hwf1 as [W1 W2 (srv & Hr & Hk) W4].
    split_and!; [|done|done|exact Hm].
    constructor; simpl; [|by rewrite Ho; constructor|by rewrite Hn; constructor].
    unfold the_server. rewrite Hr. constructor; simpl; [| | |done].
    + apply om_sorted_cons. split; constructor.
    + intros id r. unfold known. simpl. case_decide as Hdec; [|done].
      intros [= <-]. by exists srv.
    + exists srv. split; [done|]. unfold known. simpl. by case_decide.
Qed.

(** ** [ConfigurationManager] *)

Definition same_manager (s s' : R) : Prop := configurationManager s' = configurationManager s.

#[local] Instance same_manager_preorder : PreOrder same_manager.
Proof. split; [done|]. intros s1 s2 s3. unfold same_manager. congruence. Qed.

Create HintDb manager.
Ltac manager_go :=
  repeat match goal with
    | |- keeps same_manager _ => solve [eauto with manager]
    | |- keeps same_manager (bind _ _) => apply keeps_bind; [apply _| |intros ?]
    | |- keeps same_manager get => intros ?; by apply wp_get
    | |- keeps same_manager (put _) => intros ?; by apply wp_put
    | |- keeps same_manager (ret _) => apply keeps_ret; apply _
    | |- keeps same_manager (fail _) => intros ?; by apply wp_fail
    | |- keeps same_manager (modify _) => intros ?; by apply wp_modify
    | |- keeps same_manager (when _ _) => apply keeps_when; [apply _|]
    | |- keeps same_manager (forM _ _) => apply keeps_forM; [apply _|intros ?]
    | |- keeps same_manager (if ?b then _ else _) => destruct b
    | |- keeps same_manager (match ?x with _ => _ end) => destruct x
    end.

Lemma same_manager_update_server r f : keeps same_manager (update_server r f).
Proof. intros s. unfold update_server. apply wp_bind, wp_get. by destruct (_ !! r). Qed.

Lemma same_manager_now : keeps same_manager (now clock).
Proof. intros s. by repeat wp_step. Qed.
#[local] Hint Resolve same_manager_update_server same_manager_now : manager.

Lemma same_manager_getServer id : keeps same_manager (getServer clock id).
Proof. unfold getServer, set_conf. manager_go. Qed.
#[local] Hint Resolve same_manager_getServer : manager.

Lemma same_manager_setConfiguration id d : keeps same_manager (Configuration_setConfiguration clock id d).
Proof.
  unfold Configuration_setConfiguration, set_conf, collect_servers, add_old_server, add_new_server, set_conf.
  manager_go.
Qed.

Lemma safe_and {A} (m : M R A) Q Q' s : safe m Q s -> post m Q' s -> safe m (fun a s' => Q a s' /\ Q' a s') s.
Proof. unfold safe, post, wp. destruct (m s) as [[a s']|f]; [done|done]. Qed.

(** The descriptions with the snapshot's among them. *)
Definition with_snapshot (m : ConfigurationManager) : list (Z * Raft_Configuration) :=
  if (snapshot m).1 =? 0 then descriptions m
  else om_insert (descriptions m) (snapshot m).1 (snapshot m).2.

(** The configuration in force is the latest description. *)
Definition in_force (c : Configuration) (l : list (Z * Raft_Configuration)) : Prop :=
  match om_last l with
  | None => conf_id c = 0 /\ description c = Raft_Configuration_init
  | Some (id, d) => conf_id c = id /\ description c = d
  end.

Record manager_wf (s : R) : Prop := {
  mw_conf : conf_wf (configuration s);
  mw_sorted : om_sorted (descriptions (configurationManager s));
  mw_positive : forall id d, om_lookup (descriptions (configurationManager s)) id = Some d -> 0 < id;
  mw_snapshot : (snapshot (configurationManager s)).1 <> 0 ->
    om_lookup (descriptions (configurationManager s)) (snapshot (configurationManager s)).1 =
    Some (snapshot (configurationManager s)).2;
  mw_current : in_force (configuration s) (descriptions (configurationManager s))
}.

Lemma om_last_lookup (l : list (Z * Raft_Configuration)) id d :
  om_sorted l -> om_last l = Some (id, d) -> om_lookup l id = Some d.
Proof. intros Hs Hl. apply om_lookup_elem; [done|]. by apply last_Some_elem_of in Hl. Qed.

Lemma restoreInvariants_safe s :
  let m := configurationManager s in
  conf_wf (configuration s) -> om_sorted (descriptions m) ->
  (forall id d, om_lookup (with_snapshot m) id = Some d -> 0 < id) ->
  ((snapshot m).1 <> 0 -> om_lookup (with_snapshot m) (snapshot m).1 = Some (snapshot m).2) ->
  (forall id d, om_lookup (with_snapshot m) id = Some d -> conf_id (configuration s) = id ->
     description (configuration s) = d) ->
  safe (restoreInvariants clock) (fun _ s' => manager_wf s' /\
    configurationManager s' = m <| descriptions := with_snapshot m |>) s.
Proof.
  intros m Hwf Hs Hpos Hsnap Hsame. unfold restoreInvariants, set_manager. apply wp_bind, wp_modify.
  set (s1 := set_field _ s). assert (configurationManager s1 = m <| descriptions := with_snapshot m |>) as Hm1.
  { subst s1. simpl. unfold with_snapshot. fold m. destruct (Z.eqb_spec (snapshot m).1 0); [|done]. by destruct m. }
  change (configuration s) with (configuration s1) in *. clearbody s1.
  assert (om_sorted (with_snapshot m)) as Hs1.
  { unfold with_snapshot. destruct (_ =? _); [done|]. by apply om_insert_sorted. }
  assert (forall s2, conf_wf (configuration s2) -> configurationManager s2 = configurationManager s1 ->
    in_force (configuration s2) (with_snapshot m) -> manager_wf s2 /\
    configurationManager s2 = m <| descriptions := with_snapshot m |>) as Hdone.
  { intros s2 Hwf2 Hm2 Hf. rewrite Hm1 in Hm2. split; [|done]. constructor; rewrite ?Hm2; simpl; auto. }
  apply wp_bind, wp_get. rewrite Hm1. simpl.
  destruct (om_last (with_snapshot m)) as [[id d]|] eqn:Hlast; [apply wp_when|].
  - intros _. eapply wp_mono; [exact (safe_and _ _ _ _ (setConfiguration_safe id d s1 Hwf)
      (same_manager_setConfiguration id d s1))|done|].
    intros [] s2 [(Hwf2 & Hid & Hd & _) Hm2]. apply Hdone; [done|done|]. unfold in_force. by rewrite Hlast.
  - intros Hid%negb_false_iff%Z.eqb_eq. apply Hdone; [done|done|]. unfold in_force. rewrite Hlast.
    split; [done|]. apply (Hsame id); [by apply om_last_lookup|done].
  - eapply wp_mono; [by apply Configuration_reset_safe|done|]. intros [] s2 (Hwf2 & Hid & Hd & Hm2).
    apply Hdone; [done|done|]. unfold in_force. by rewrite Hlast.
Qed.

(** The operations of the manager, and what they do to the descriptions. *)
Inductive manager_op : Type :=
| ManagerAdd (index : Z) (d : Raft_Configuration)
| ManagerTruncatePrefix (firstIndexKept : Z)
| ManagerTruncateSuffix (lastIndexKept : Z)
| ManagerSetSnapshot (index : Z) (d : Raft_Configuration).

Definition run_manager_op (op : manager_op) : M R unit :=
  match op with
  | ManagerAdd i d => ConfigurationManager_add clock i d
  | ManagerTruncatePrefix i => ConfigurationManager_truncatePrefix clock i
  | ManagerTruncateSuffix i => ConfigurationManager_truncateSuffix clock i
  | ManagerSetSnapshot i d => ConfigurationManager_setSnapshot clock i d
  end.

Definition manager_effect (op : manager_op) (m : ConfigurationManager) : ConfigurationManager :=
  match op with
  | ManagerAdd i d => m <| descriptions := om_set (descriptions m) i d |>
  | ManagerTruncatePrefix i => m <| descriptions := om_erase_below (descriptions m) i |>
  | ManagerTruncateSuffix i => m <| descriptions := om_erase_above (descriptions m) i |>
  | ManagerSetSnapshot i d => m <| snapshot := (i, d) |>
  end.

(** A description is added at a new index; a snapshot is not older than the
    last, and agrees with the description of the log if that is still there. *)
Definition manager_allowed (op : manager_op) (m : ConfigurationManager) : Prop :=
  match op with
  | ManagerAdd i d => 0 < i /\ om_lookup (descriptions m) i = None
  | ManagerSetSnapshot i d =>
      0 < i /\ (snapshot m).1 <= i /\ forall d', om_lookup (descriptions m) i = Some d' -> d' = d
  | _ => True
  end.

(** What the operation makes of a description that stays is what it was. *)
Lemma manager_effect_lookup op m id d :
  om_sorted (descriptions m) -> manager_allowed op m ->
  om_lookup (descriptions (manager_effect op m)) id = Some d ->
  om_lookup (descriptions m) id = Some d \/
  (om_lookup (descriptions m) id = None /\ exists i, op = ManagerAdd i d /\ id = i).
Proof.
  intros Hs Ha. destruct op as [i d0|i|i|i d0]; simpl in *.
  - rewrite om_lookup_set. case_decide as Hdec; [|by left]. intros [= <-]. subst i. right.
    split; [apply Ha|]. by exists id.
  - rewrite om_lookup_erase_below by done. case_decide; [done|by left].
  - rewrite om_lookup_erase_above by done. case_decide; [done|by left].
  - by left.
Qed.

Lemma manager_effect_sorted op m : om_sorted (descriptions m) -> om_sorted (descriptions (manager_effect op m)).
Proof.
  intros Hs. destruct op; simpl;
    auto using om_set_sorted, om_erase_below_sorted, om_erase_above_sorted.
Qed.

Lemma with_snapshot_lookup m id d :
  om_lookup (with_snapshot m) id = Some d <->
  om_lookup (descriptions m) id = Some d \/
  (om_lookup (descriptions m) id = None /\ (snapshot m).1 <> 0 /\ id = (snapshot m).1 /\ d = (snapshot m).2).
Proof.
  unfold with_snapshot. destruct (Z.eqb_spec (snapshot m).1 0) as [Hz|Hz]; [naive_solver|].
  rewrite om_lookup_insert. case_decide as Hdec; [subst id|naive_solver].
  destruct (om_lookup (descriptions m) (snapshot m).1); simpl; naive_solver.
Qed.

(** The snapshot that counts after the operation. *)
Lemma manager_effect_snapshot op s :
  manager_wf s -> manager_allowed op (configurationManager s) ->
  let m := manager_effect op (configurationManager s) in
  (snapshot m).1 <> 0 ->
  0 < (snapshot m).1 /\
  (forall d, om_lookup (descriptions (configurationManager s)) (snapshot m).1 = Some d -> d = (snapshot m).2) /\
  (forall i d, op = ManagerAdd i d -> i <> (snapshot m).1).
Proof.
  intros [W1 W2 W3 W4 W5] Ha m Hz. destruct op as [i d0|i|i|i d0]; simpl in *.
  4: { split_and!; [apply Ha|apply Ha|done]. }
  all: specialize (W4 Hz); split_and!; [by eapply W3|congruence|]; try done.
  intros i' d' [= <- <-] ->. destruct Ha as [_ Ha]. simpl in *. congruence.
Qed.

(** C25: The configuration in force is always the latest one in the log or the
    snapshot. Each operation of the manager returns, changes the descriptions as
    its name says (the snapshot's always among them), and switches the
    configuration to the one that is now the latest, or to none. *)
Theorem manager_tracks_latest op s :
  manager_wf s -> manager_allowed op (configurationManager s) ->
  exists s', run_manager_op op s = Ok (tt, s') /\ manager_wf s' /\
    let m := manager_effect op (configurationManager s) in
    configurationManager s' = m <| descriptions := with_snapshot m |>.
Proof.
  intros Hwf Ha. pose proof Hwf as [W1 W2 W3 W4 W5]. set (m := manager_effect op (configurationManager s)). simpl.
  enough (safe (run_manager_op op) (fun _ s' => manager_wf s' /\
    configurationManager s' = m <| descriptions := with_snapshot m |>) s) as Hsafe.
  { destruct (proj1 (safe_run _ _ _) Hsafe) as ([] & s' & Hrun & Hwf' & Hm'). by exists s'. }
  set (s1 := s <| configurationManager := m |>).
  enough (safe (restoreInvariants clock) (fun _ s' => manager_wf s' /\
    configurationManager s' = m <| descriptions := with_snapshot m |>) s1) as Hsafe.
  { destruct op; simpl; unfold ConfigurationManager_add, ConfigurationManager_truncatePrefix,
      ConfigurationManager_truncateSuffix, ConfigurationManager_setSnapshot, set_manager;
      [apply wp_bind, wp_modify, Hsafe..|].
    apply wp_bind, wp_get, wp_bind, wp_assert; [simpl in Ha; lia|]. intros _.
    apply wp_bind, wp_modify, Hsafe. }
  assert (forall id d, om_lookup (with_snapshot m) id = Some d -> 0 < id) as Hpos.
  { intros id d [Hl|(_ & Hz & -> & _)]%with_snapshot_lookup; [|by apply (manager_effect_snapshot op s)].
    apply manager_effect_lookup in Hl as [Hl|(_ & i & -> & ->)]; [by eapply W3|apply Ha|done|done]. }
  apply restoreInvariants_safe; simpl; [done|by apply manager_effect_sorted|done| |].
  - intros Hz. destruct (manager_effect_snapshot op s) as (_ & Hs & Hadd); [done|done|done|].
    apply with_snapshot_lookup. destruct (om_lookup (descriptions m) (snapshot m).1) as [d|] eqn:Hl; [left|by right].
    apply manager_effect_lookup in Hl as [Hl|(_ & i & -> & Hi)]; [by rewrite (Hs d)|by destruct (Hadd i d eq_refl)|done|done].
  - intros id d Hl Hid. pose proof (Hpos id d Hl) as Hlt. unfold in_force in W5.
    destruct (om_last (descriptions (configurationManager s))) as [[id0 d0]|] eqn:Hlast; [|lia].
    destruct W5 as [Hid0 Hd0]. apply om_last_lookup in Hlast; [|done]. rewrite Hd0.
    assert (id0 = id) as -> by congruence.
    apply with_snapshot_lookup in Hl as [Hl|(_ & Hz & -> & ->)].
    + apply manager_effect_lookup in Hl as [Hl|(Hnone & _)]; [congruence|congruence|done|done].
    + destruct (manager_effect_snapshot op s) as (_ & Hs & _); [done|done|done|]. exact (Hs _ Hlast).
Qed.
End RaftConfig.
