(* ===== verification/RaftDemo.v ===== *)
(** * Runs of the consensus module

    A cluster of three servers on the in-memory log, seen by server 1: it starts
    from its log, votes, is elected, replicates and commits. The theorems about
    [RaftConsensus] are instantiated on these states. The clock, the random
    numbers and the codec are chosen for these runs only. *)

From Stdlib Require Import ZArith Lia Ascii String.
From stdpp Require Import base gmap strings list fin_maps sorting.
From S2P Require Import Prelude OrderedMap StringUtil Stream SnapshotFile Consensus Log Configuration Raft RaftFrame RaftSnapshots RaftSpec RaftLog RaftConfig.
Local Open Scope string_scope.
Local Open Scope Z_scope.
Local Open Scope list_scope.

Module DemoRaft.
#[export] Instance ops : LogOps MemoryLog := MemoryLog_ops (fun _ => 0).
#[export] Instance laws : LogLaws MemoryLog := MemoryLog_laws (fun _ => 0).
#[export] Instance metadata_laws : LogMetadataLaws MemoryLog := MemoryLog_metadata_laws (fun _ => 0).
#[export] Instance start_laws : LogStartLaws MemoryLog := MemoryLog_start_laws (fun _ => 0).
(** Headers without a configuration, of numbers below 256. *)
#[export] Instance header_codec : ProtoBuf Metadata_Header :=
  {| pb_serialize h := map (fun i => ascii_of_N (Z.to_N i))
       [last_included_index h; last_included_term h; default 0 (last_cluster_time h)];
     pb_parse b := match map (fun c => Z.of_N (N_of_ascii c)) b with
                   | [i; t; time] => Some (mkMetadata_Header i t (Some time) None None)
                   | _ => None
                   end |}.

Abbreviation R := (RaftConsensus MemoryLog).
Definition opts : RaftOptions := RaftOptions_default.
(** A second passes at every reading. *)
Definition clock (n : nat) : Z := 1000000000 * Z.of_nat n.
Definition randomRange (n : nat) (lo hi : Z) : Z := lo.
Definition stagingNameAt (n : nat) : string := "partial.1".

Definition cluster : Raft_Configuration :=
  mkRaft_Configuration [mkRaft_Server 1 "a"; mkRaft_Server 2 "b"; mkRaft_Server 3 "c"] None.
Definition first_entry : LogEntry := mkLogEntry 1 None 0 CONFIGURATION (Some cluster) None.
Definition first_log : MemoryLog :=
  mkMemoryLog 1 [first_entry] (mkSync 1 false) (mkMetadata (Some 1) (Some 0)).
Abbreviation fresh := (RaftConsensus_construct 1 "a" first_log ∅ : R).


(** [MemoryLog] never lets the two diverge. *)
Lemma all_saved (l : MemoryLog) : metadata l = saved_metadata l.
Proof. reflexivity. Qed.

(** The state an operation leads to. *)
Definition final {A} (m : M R A) (s : R) : R := match m s with Ok (_, s') => s' | Fail _ => s end.
Definition returns {A} (m : M R A) (s : R) : bool := match m s with Ok _ => true | Fail _ => false end.

Lemma final_run_raft (m : M R unit) s : returns m s = true -> m s = Ok (tt, final m s).
Proof. unfold returns, final. by destruct (m s) as [[[] s']|f]. Qed.

Lemma final_run_raft_value {A} (m : M R A) s a :
  (match m s with Ok (a', _) => a' | Fail _ => a end) = a -> returns m s = true ->
  m s = Ok (a, final m s).
Proof. unfold returns, final. by destruct (m s) as [[a' s']|f]; [intros ->|]. Qed.

Definition started : R := final (init opts clock randomRange) fresh.
Lemma started_run : init opts clock randomRange fresh = Ok (tt, started).
Proof. unfold started. apply final_run_raft. vm_compute. reflexivity. Qed.

Lemma started_inv : core_inv 1 started.
Proof.
  exact (proj1 (proj1 (post_run _ _ _) (init_spec opts clock randomRange 1 "a" first_log ∅)
    tt started started_run)).
Qed.

(** *** Voting *)

Definition ask (server term : Z) : RequestVote_Request := mkRequestVote_Request server term 1 1.
Abbreviation vote q := (handleRequestVote opts clock randomRange q).
Definition yes (term : Z) : RequestVote_Response := mkRequestVote_Response term true (Some true).

Definition voted : R := final (vote (ask 2 5)) started.
Lemma voted_run : vote (ask 2 5) started = Ok (yes 5, voted).
Proof. unfold voted. apply final_run_raft_value; vm_compute; reflexivity. Qed.

(** A crash, and a new process on the log that is left. *)
Definition restarted : R := final (init opts clock randomRange) (RaftConsensus_construct 1 "a" (log voted) ∅).
Lemma restarted_run :
  init opts clock randomRange (RaftConsensus_construct 1 "a" (log voted) ∅) = Ok (tt, restarted).
Proof. unfold restarted. apply final_run_raft. vm_compute. reflexivity. Qed.

Lemma restarted_history : history opts clock randomRange stagingNameAt 1 voted restarted.
Proof. exact (history_restart _ _ _ _ 1 voted voted restarted "a" (log voted) ∅ (history_start _ _ _ _ 1 voted)
  (all_saved (log voted)) restarted_run). Qed.

Definition voted_again : R := final (vote (ask 2 5)) restarted.
Lemma voted_again_run : vote (ask 2 5) restarted = Ok (yes 5, voted_again).
Proof. unfold voted_again. apply final_run_raft_value; vm_compute; reflexivity. Qed.

(** *** Being elected, with the vote of server 2 *)

Abbreviation timer := (timerThread_bounded opts clock randomRange : M R unit).
Definition candidate : R := final timer started.
Lemma candidate_run : timer started = Ok (tt, candidate).
Proof. unfold candidate. apply final_run_raft. vm_compute. reflexivity. Qed.

Lemma candidate_inv : core_inv 1 candidate.
Proof.
  exact (proj1 (proj1 (post_run _ _ _) (good_operation opts clock randomRange stagingNameAt 1 ltac:(done) true _ _
    (op_timerThread opts clock randomRange stagingNameAt 1 true) started) tt candidate candidate_run started_inv)).
Qed.

Abbreviation ask_server_2 :=
  (requestVote opts clock randomRange 1 (fun _ => ret tt ;;; ret (RPC_OK, yes 2)) : M R unit).
Definition elected : R := final ask_server_2 candidate.
Lemma elected_run : ask_server_2 candidate = Ok (tt, elected).
Proof. unfold elected. apply final_run_raft. vm_compute. reflexivity. Qed.

Lemma elected_inv : core_inv 1 elected.
Proof.
  refine (proj1 (proj1 (post_run _ _ _) (good_requestVote opts clock randomRange 1 1 _ _ candidate)
    tt elected elected_run candidate_inv)).
  intros q. apply good_ret.
Qed.

(** *** Committing: servers 1 and 2 have the entry of this term, at index 2. *)

Definition replicated : R :=
  final (update_server 0 (fun o => o <| kind := LocalServer 2 |>) ;;;
         update_peer 1 (fun p => p <| matchIndex := 2 |>)) elected.
Lemma replicated_inv : core_inv 1 replicated.
Proof.
  destruct elected_inv as [I1 I2 I3 I4 I5].
  assert (same_core elected replicated) as Hc by (unfold same_core; split_and!; [vm_compute; reflexivity..|split; [|left]; vm_compute; reflexivity]).
  exact (same_core_inv 1 _ _ Hc elected_inv).
Qed.

Abbreviation commit := (advanceCommitIndex opts clock randomRange : M R unit).
Definition committed : R := final commit replicated.
Lemma committed_run : commit replicated = Ok (tt, committed).
Proof. unfold committed. apply final_run_raft. vm_compute. reflexivity. Qed.

(** *** Taking a snapshot of what is committed: the log is discarded up to it,
    and a state machine that starts afresh is handed the snapshot. *)

Abbreviation snapshot_2 :=
  (let! w := RaftConsensus_beginSnapshot clock stagingNameAt 2 in
   let! w := ret w in RaftConsensus_snapshotDone clock 2 w : M R unit).
Definition snapshotted : R := final snapshot_2 committed.
Lemma snapshotted_run : snapshot_2 committed = Ok (tt, snapshotted).
Proof. unfold snapshotted. apply final_run_raft. vm_compute. reflexivity. Qed.

Abbreviation first_next := (RaftConsensus_getNextEntry clock 0 [snapshot_2]).
Definition handed : R := final first_next snapshotted.
Definition handed_entry : Entry :=
  match first_next snapshotted with Ok (Some e, _) => e | _ => mkEntry Entry.SKIP 0 [] None 0 end.
Lemma handed_run : first_next snapshotted = Ok (Some handed_entry, handed).
Proof. unfold handed. apply final_run_raft_value; vm_compute; reflexivity. Qed.

(** *** Following server 2, leader of term 3 *)

Definition new_entry : LogEntry := mkLogEntry 3 None 7 DATA None (Some ["x"%char]).
Definition replicate_entry : AppendEntries_Request := mkAppendEntries_Request 2 3 1 1 [new_entry] 1.
Abbreviation follow := (handleAppendEntries opts clock randomRange replicate_entry).
Definition followed : R := final follow started.
Definition stored_2 : AppendEntries_Response :=
  mkAppendEntries_Response 3 true (Some 2) (Some (mkServerCapabilities None None)).
Lemma followed_run : follow started = Ok (stored_2, followed).
Proof. unfold followed. apply final_run_raft_value; vm_compute; reflexivity. Qed.

Definition followed_twice : R := final follow followed.
Lemma followed_twice_run : follow followed = Ok (stored_2, followed_twice).
Proof. unfold followed_twice. apply final_run_raft_value; vm_compute; reflexivity. Qed.

Lemma started_log_ok : log_ok (log started).
Proof. vm_compute. repeat split; congruence. Qed.
Lemma followed_log_ok : log_ok (log followed).
Proof. vm_compute. repeat split; congruence. Qed.
End DemoRaft.
Import DemoRaft.

Lemma operations_move_forwards_witness : core_inv 1 candidate /\ delta started candidate /\ snapshot_inv candidate.
Proof.
  destruct (operations_move_forwards opts clock randomRange stagingNameAt 1 ltac:(congruence) false unit timer started tt
    candidate (op_timerThread opts clock randomRange stagingNameAt 1 false) started_inv candidate_run) as (Hi & Hd & Hs).
  split; [exact Hi|split; [exact Hd|]]. apply Hs; [reflexivity|]. vm_compute. repeat split; congruence.
Defined.

Lemma one_vote_per_term_witness : rv_server_id (ask 2 5) = rv_server_id (ask 2 5).
Proof.
  exact (one_vote_per_term opts clock randomRange stagingNameAt 1 ltac:(congruence) (ask 2 5) (ask 2 5)
    started voted restarted voted_again (yes 5) (yes 5) started_inv ltac:(simpl; congruence) ltac:(simpl; congruence)
    voted_run eq_refl restarted_history voted_again_run eq_refl eq_refl).
Defined.

Lemma voter_is_not_leader_witness : state restarted <> LEADER.
Proof.
  refine (voter_is_not_leader opts clock randomRange stagingNameAt 1 _ (ask 2 5) started voted restarted (yes 5)
    started_inv _ _ voted_run eq_refl restarted_history _); vm_compute; congruence.
Defined.


Lemma advanceCommitIndex_rule_witness :
  commitIndex committed = 2 /\
  let agreed := quorumMin (configuration replicated) Server_getMatchIndex in
  (state replicated = LEADER /\ commitIndex replicated < agreed /\ commitIndex committed = agreed /\
   quorumAll (configuration replicated) (fun srv => agreed <=? Server_getMatchIndex srv) = true /\
   getLogStartIndex (log replicated) <= agreed /\
   exists e, getEntry agreed (log replicated) = Ok e /\ term e = currentTerm replicated) \/
  (commitIndex committed = commitIndex replicated /\
    (state replicated = LEADER -> commitIndex replicated < agreed ->
     exists e, getEntry agreed (log replicated) = Ok e /\ term e <> currentTerm replicated)).
Proof.
  split; [vm_compute; reflexivity|].
  exact (advanceCommitIndex_rule opts clock randomRange 1 replicated tt committed replicated_inv
    ltac:(vm_compute; congruence) committed_run).
Defined.

Lemma getNextEntry_committed_witness :
  entry_type handed_entry = Entry.SNAPSHOT /\ entry_index handed_entry = 2 /\
  (exiting handed = false /\ u64 (0 + 1) <= commitIndex handed /\ delivered (u64 (0 + 1)) handed_entry handed) /\
  snapshot_inv handed /\ u64 (0 + 1) <= entry_index handed_entry <= commitIndex handed.
Proof.
  destruct (getNextEntry_committed opts clock randomRange stagingNameAt 1 0 [snapshot_2] snapshotted
    (Some handed_entry) handed handed_run) as [Hd Hall].
  split; [vm_compute; reflexivity|]. split; [vm_compute; reflexivity|]. split; [exact Hd|].
  destruct Hall as [Hs He].
  - vm_compute. repeat split; congruence.
  - intros env Hin. apply list_elem_of_singleton in Hin as ->. apply op_takeSnapshot. intros w. apply op_ret.
  - split; [exact Hs|]. apply He. reflexivity.
Defined.

Lemma requestVote_wins_by_quorum_witness :
  exists s0 s1, same_core candidate s0 /\ ret tt s0 = Ok (tt, s1) /\
    (state s1 <> LEADER ->
     state s1 = CANDIDATE /\ currentTerm s1 = currentTerm candidate /\
     rvr_granted (yes 2) = true /\ rvr_term (yes 2) <= currentTerm s1 /\
     forall l, l ∈ deciding (configuration s1) -> simple_quorumAll (votes_with 1 s1) l = true).
Proof.
  refine (requestVote_wins_by_quorum opts clock randomRange 1 1 (ret tt) (yes 2) candidate tt elected
    _ candidate_inv elected_run _); [apply good_ret|vm_compute; reflexivity].
Defined.

Lemma handleAppendEntries_merges_witness :
  appended replicate_entry stored_2 started followed /\
  (aer_success stored_2 = true -> agrees_after (log_start (log followed)) 1 (log_entries (log followed)) [new_entry]).
Proof.
  refine (handleAppendEntries_merges opts clock randomRange replicate_entry started stored_2 followed
    started_log_ok _ _ followed_run); vm_compute; congruence.
Defined.

Lemma handleAppendEntries_stale_witness :
  log_start (log followed_twice) = log_start (log followed) /\
  log_entries (log followed_twice) = log_entries (log followed).
Proof.
  refine (handleAppendEntries_stale opts clock randomRange replicate_entry followed stored_2 followed_twice
    followed_log_ok _ _ _ followed_twice_run); [vm_compute; congruence..|].
  intros [|k] e Hk; [|done]. injection Hk as <-. intros _. exists new_entry. by split; vm_compute.
Defined.

Lemma packEntries_sends_witness :
  safe (packEntries opts (fun _ => 4) (fun l => 24 * Z.of_nat (length l)) 1) (fun packed s' =>
    s' = followed /\ within_limit opts (fun l => 24 * Z.of_nat (length l)) packed /\
    Z.of_nat (length packed) <= MAX_LOG_ENTRIES_PER_REQUEST opts /\
    (1 <= getLastLogIndex (log followed) -> packed <> []) /\
    exists k, map stored packed = take k (drop (Z.to_nat (1 - log_start (log followed))) (log_entries (log followed)))) followed.
Proof.
  refine (packEntries_sends opts (fun _ => 4) (fun l => 24 * Z.of_nat (length l)) _ _ _ _ 1 followed
    followed_log_ok _ _ _ _).
  - intros l e. rewrite length_app. simpl. lia.
  - intros l. lia.
  - intros e. lia.
  - vm_compute. reflexivity.
  - vm_compute. split; congruence.
  - vm_compute. congruence.
  - vm_compute. congruence.
  - vm_compute. reflexivity.
Defined.

(** *** The configuration of a process that just started *)

Lemma fresh_conf_wf : conf_wf (configuration fresh).
Proof.
  constructor; [|constructor..]. constructor; simpl.
  - apply om_sorted_cons. split; constructor.
  - intros id r. unfold known. simpl. case_decide as Hdec; [|done]. intros [= <-]. subst. by eexists.
  - by eexists.
  - intros r srv [<- <-]%lookup_singleton_Some. by split.
Qed.

Lemma fresh_manager_wf : manager_wf fresh.
Proof. constructor; [apply fresh_conf_wf|constructor|done|done|done]. Qed.

(** Server 3 leaves the cluster. *)
Definition with_three : R := final (Configuration_setConfiguration clock 1 cluster) fresh.
Definition two : Raft_Configuration :=
  mkRaft_Configuration [mkRaft_Server 1 "a"; mkRaft_Server 2 "b"] None.
Lemma with_three_wf : conf_wf (configuration with_three).
Proof.
  destruct (proj1 (safe_run _ _ _) (setConfiguration_safe clock 1 cluster fresh fresh_conf_wf)) as ([] & s & Hrun & Hc).
  unfold with_three, final. rewrite Hrun. apply Hc.
Qed.

Lemma setConfiguration_exact_witness :
  known (configuration with_three) 3 = Some 2 /\
  exists s', Configuration_setConfiguration clock 2 two with_three = Ok (tt, s') /\
    configured (configuration with_three) 2 two (configuration s') /\
    known (configuration s') 3 = None /\
    (match kind (the_server (configuration s') 2) with PeerServer p => peer_exiting p | _ => false end) = true.
Proof.
  split; [vm_compute; reflexivity|].
  destruct (setConfiguration_exact clock 2 two with_three with_three_wf) as (s' & Hrun & Hc).
  exists s'. split; [exact Hrun|split; [exact Hc|]].
  assert (s' = final (Configuration_setConfiguration clock 2 two) with_three) as -> by (unfold final; by rewrite Hrun).
  split; vm_compute; reflexivity.
Defined.

Lemma manager_tracks_latest_witness :
  exists s', run_manager_op clock (ManagerAdd 1 cluster) fresh = Ok (tt, s') /\ manager_wf s' /\
    let m := manager_effect (ManagerAdd 1 cluster) (configurationManager fresh) in
    configurationManager s' = m <| descriptions := with_snapshot m |>.
Proof.
  refine (manager_tracks_latest clock (ManagerAdd 1 cluster) fresh fresh_manager_wf _).
  vm_compute. by split.
Defined.
