(* ===== verification/RaftVotes.v ===== *)
(** * Who has whose vote

    What the operations of [Raft.v] do to the votes that a candidate has
    collected. Only [requestVote] adds one, and only a new election starts to
    collect; every other operation loses votes at most. The log may carry a
    ledger that no operation touches, in which a cluster records what its servers
    did (see [ElectionSafety.v]). *)

From Stdlib Require Import ZArith Lia Ascii String.
From stdpp Require Import base gmap strings list fin_maps sorting.
From S2P Require Import Prelude OrderedMap StringUtil Stream SnapshotFile Consensus Log Configuration Raft RaftFrame RaftSpec RaftConfig.
Local Open Scope string_scope.
Local Open Scope Z_scope.
Local Open Scope list_scope.

(** ** A ledger beside the log *)

(** The votes a server gave, as term and candidate, its own included, and the
    terms it led. *)
Record Ledger : Type := mkLedger { given : list (Z * Z); led : list Z }.

Class LedgerLog (L : Type) `{LogOps L} := {
  ledger : L -> Ledger;
  write_ledger : Ledger -> L -> L;
  ledger_write g l : ledger (write_ledger g l) = g;
  ledger_append es l : post (append es) (fun _ l' => ledger l' = ledger l) l;
  ledger_truncatePrefix i l : post (truncatePrefix i) (fun _ l' => ledger l' = ledger l) l;
  ledger_truncateSuffix i l : post (truncateSuffix i) (fun _ l' => ledger l' = ledger l) l;
  ledger_takeSync l : post takeSync (fun _ l' => ledger l' = ledger l) l;
  ledger_sync_wait y l : post (sync_wait y) (fun _ l' => ledger l' = ledger l) l;
  ledger_syncComplete y l : post (syncComplete y) (fun _ l' => ledger l' = ledger l) l;
  ledger_updateMetadata l : post updateMetadata (fun _ l' => ledger l' = ledger l) l;
  ledger_set_metadata m l : ledger (set_metadata m l) = ledger l;
  write_ledger_metadata g l : metadata (write_ledger g l) = metadata l /\ saved_metadata (write_ledger g l) = saved_metadata l
}.

(** ** Votes of a configuration *)

Definition voted (srv : Server) : bool :=
  match kind srv with PeerServer p => haveVote_ p | LocalServer _ => false end.

(** The peer with id [v] is known, and its vote is noted. *)
Definition has_vote (c : Configuration) (v : Z) : Prop :=
  exists r srv, (v, r) ∈ knownServers c /\ servers c !! r = Some srv /\ voted srv = true.

Definition novote (c c' : Configuration) : Prop := forall v, has_vote c' v -> has_vote c v.

#[export] Instance novote_preorder : PreOrder novote.
Proof. split; [by intros c v|]. intros c1 c2 c3 H12 H23 v Hv. by apply H12, H23. Qed.

(** A method of a server that adds no vote. *)
Definition tame (f : Server -> Server) : Prop := forall srv,
  serverId (f srv) = serverId srv /\ gcFlag (f srv) = gcFlag srv /\ (voted (f srv) = true -> voted srv = true).

Definition votes_tame (f : Server -> Server) : Prop := forall srv, voted (f srv) = true -> voted srv = true.

Lemma tame_votes f : tame f -> votes_tame f.
Proof. intros Hf srv. apply Hf. Qed.

Lemma tame_on_peer f : (forall p, haveVote_ (f p) = true -> haveVote_ p = true) -> tame (on_peer f).
Proof. intros Hf srv. unfold on_peer, voted. destruct (kind srv) eqn:Hk; simpl; rewrite ?Hk; auto. Qed.

Lemma novote_update c r srv srv' :
  servers c !! r = Some srv -> (voted srv' = true -> voted srv = true) ->
  novote c (c <| servers := <[r := srv']> (servers c) |>).
Proof.
  intros Hr Hv v (r0 & srv0 & Hk & H0 & Hvote). simpl in *. apply lookup_insert_Some in H0 as [[<- <-]|[_ H0]].
  - exists r, srv. auto.
  - by exists r0, srv0.
Qed.

(** Updating an object keeps the invariant if the id and the flag stay. *)
Lemma conf_wf_update c r srv srv' :
  conf_wf c -> servers c !! r = Some srv -> serverId srv' = serverId srv -> gcFlag srv' = gcFlag srv ->
  conf_wf (c <| servers := <[r := srv']> (servers c) |>).
Proof.
  intros [Hheap Hold Hnew] Hr Hid Hgc. destruct (heap_wf_update _ r srv srv' Hheap Hr Hid Hgc) as [Hwf Hg].
  split; [done|by eapply grows_refers..].
Qed.

(** ** What has nothing to do with elections *)

Section Votes.
Context {L : Type} `{LedgerLog L} `{ProtoBuf Metadata_Header}.
Context (opts : RaftOptions) (clock : nat -> Z) (randomRange : nat -> Z -> Z -> Z).
Context (stagingNameAt : nat -> string).

Abbreviation R := (RaftConsensus L).

(** The term, the vote, the role and the ledger are the same. *)
Definition still (s s' : R) : Prop :=
  raft_serverId s' = raft_serverId s /\ currentTerm s' = currentTerm s /\ state s' = state s /\
  votedFor s' = votedFor s /\ ledger (log s') = ledger (log s).

#[local] Instance still_preorder : PreOrder still.
Proof. split; [by intros s|]. unfold still. intros s1 s2 s3. intros; destruct_and!. split_and!; congruence. Qed.

(** Changes of the configuration on the way from one to another: no vote is added. *)
Definition hush (s s' : R) : Prop := still s s' /\ novote (configuration s) (configuration s').

#[local] Instance hush_preorder : PreOrder hush.
Proof. split; [by intros s|]. intros s1 s2 s3 [S1 N1] [S2 N2]. split; by etransitivity. Qed.

(** From one configuration to another: it stays well-formed. *)
Definition calm (s s' : R) : Prop :=
  still s s' /\ (conf_wf (configuration s) -> conf_wf (configuration s') /\ novote (configuration s) (configuration s')).

#[local] Instance calm_preorder : PreOrder calm.
Proof.
  split; [by intros s|]. intros s1 s2 s3 [S1 N1] [S2 N2]. split; [by etransitivity|].
  intros W1. destruct (N1 W1) as [W2 V1]. destruct (N2 W2) as [W3 V2]. split; [done|]. by etransitivity.
Qed.

Lemma calm_same s s' : still s s' -> configuration s' = configuration s -> calm s s'.
Proof. intros Hs Hc. split; [done|]. by rewrite Hc. Qed.

Lemma calm_modify f :
  (forall s, still s (f s) /\ configuration (f s) = configuration s) -> keeps calm (modify f).
Proof. intros Hf s. apply wp_modify. destruct (Hf s). by apply calm_same. Qed.

Lemma hush_modify f :
  (forall s, still s (f s) /\ novote (configuration s) (configuration (f s))) -> keeps hush (modify f).
Proof. intros Hf s. apply wp_modify, Hf. Qed.

Lemma calm_assert b : keeps calm (assert_ b).
Proof. intros s. apply wp_assert; [done|]. intros _. reflexivity. Qed.

Lemma hush_assert b : keeps hush (assert_ b).
Proof. intros s. apply wp_assert; [done|]. intros _. reflexivity. Qed.

Lemma hush_update_server r f : votes_tame f -> keeps hush (update_server r f).
Proof.
  intros Hf s. unfold update_server. apply wp_bind, wp_get. destruct (servers (configuration s) !! r) as [srv|] eqn:Hr; [|done].
  apply wp_put. split; [done|]. simpl. eapply novote_update; [exact Hr|apply Hf].
Qed.

Lemma calm_update_server r f : tame f -> keeps calm (update_server r f).
Proof.
  intros Hf s. unfold update_server. apply wp_bind, wp_get. destruct (servers (configuration s) !! r) as [srv|] eqn:Hr; [|done].
  apply wp_put. split; [done|]. intros Hwf. simpl. destruct (Hf srv) as (Hid & Hgc & Hv).
  split; [by apply conf_wf_update with srv|by eapply novote_update; [exact Hr|]].
Qed.

Lemma calm_on_log {A} (m : M L A) :
  (forall l, post m (fun _ l' => ledger l' = ledger l) l) -> keeps calm (on_log m).
Proof. intros Hm s. apply wp_zoom. eapply wp_mono; [apply Hm|done|]. intros a l Hl. apply calm_same; done. Qed.

Lemma hush_calm s s' : hush s s' -> (conf_wf (configuration s) -> conf_wf (configuration s')) -> calm s s'.
Proof. intros [Hs Hn] Hwf. split; auto. Qed.

Create HintDb hush.
Create HintDb calm.

(** Symbolic execution; an operation with a [keeps] lemma in the hint database is
    one step. *)
Ltac hush_close := first [reflexivity | split; [unfold still; simpl; split_and!; done|intros v Hv; exact Hv] | etransitivity; [eassumption|hush_close]].
Ltac hush_step := first [wp_step; try exact I | apply (wp_keeps hush); [solve [auto with hush]|intros ? ? ?]].
Ltac hush_go := intros ?; repeat hush_step; try hush_close.
Ltac calm_close :=
  first [ reflexivity | assumption | apply calm_same; [unfold still; simpl; split_and!; done|done]
        | match goal with
          | |- calm _ (if ?b then _ else _) => destruct b; calm_close
          | Hs : calm ?x ?z |- calm _ ?z => is_var z; transitivity x; [clear Hs; calm_close|exact Hs]
          | |- calm _ (set_field _ ?y) => transitivity y; [calm_close|by apply calm_same]
          end ].
Ltac calm_step := first [wp_step; try exact I | apply (wp_keeps calm); [solve [auto with calm]|intros ? ? ?]].
Ltac calm_go := intros ?; repeat calm_step; try calm_close.

#[local] Hint Resolve calm_assert : calm.
#[local] Hint Resolve hush_assert : hush.
#[local] Hint Extern 1 (tame _) => first [by intros []|apply tame_on_peer; intros; simpl in *; congruence] : calm.
#[local] Hint Extern 1 (votes_tame _) => first [by intros []|apply tame_votes, tame_on_peer; intros; simpl in *; congruence] : hush.
#[local] Hint Resolve hush_update_server : hush.
#[local] Hint Resolve calm_update_server : calm.

Lemma calm_now : keeps calm (now clock).
Proof. unfold now. calm_go. Qed.
Lemma hush_now : keeps hush (now clock).
Proof. unfold now. hush_go. Qed.
Lemma calm_notify : keeps calm notify_all.
Proof. unfold notify_all. calm_go. Qed.
Lemma calm_log_entry i : keeps calm (log_entry i).
Proof. intros s. unfold log_entry. repeat wp_step. destruct (getEntry i (log s)); [reflexivity|done]. Qed.
Lemma calm_lift {A} (o : outcome A) : keeps calm (lift o).
Proof. intros s. apply wp_lift. by destruct o. Qed.
Lemma calm_set_manager f : keeps calm (set_manager f).
Proof. unfold set_manager. calm_go. Qed.
#[local] Hint Resolve calm_now calm_notify calm_log_entry calm_lift calm_set_manager : calm.
Ltac calm_step ::= first [apply (wp_keeps calm); [by apply calm_lift|intros ? ? ?] | wp_step; try exact I | apply (wp_keeps calm); [solve [auto with calm]|intros ? ? ?]].
#[local] Hint Resolve hush_now : hush.

Lemma calm_forM {A} (l : list A) (f : A -> M R unit) : (forall a, keeps calm (f a)) -> keeps calm (forM l f).
Proof. apply keeps_forM; apply _. Qed.
Lemma hush_forM {A} (l : list A) (f : A -> M R unit) : (forall a, keeps hush (f a)) -> keeps hush (forM l f).
Proof. apply keeps_forM; apply _. Qed.
#[local] Hint Resolve calm_forM : calm.
#[local] Hint Resolve hush_forM : hush.

Lemma calm_forEach f : tame f -> keeps calm (forEach f).
Proof. intros Hf s. unfold forEach. repeat wp_step. apply calm_forM. auto with calm. Qed.
#[local] Hint Resolve calm_forEach : calm.

Lemma calm_interruptAll : keeps calm interruptAll.
Proof. unfold interruptAll. calm_go. Qed.
Lemma calm_setElectionTimer : keeps calm (setElectionTimer opts clock randomRange).
Proof. unfold setElectionTimer. calm_go. Qed.
#[local] Hint Resolve calm_interruptAll calm_setElectionTimer : calm.

(** *** Configurations *)

Lemma novote_known c k :
  (forall x, x ∈ k -> x ∈ knownServers c) -> novote c (c <| knownServers := k |>).
Proof. intros Hk v (r & srv & Hin & Hr & Hv). exists r, srv. split_and!; auto. Qed.

Lemma om_erase_subset {A} (m : list (Z * A)) k x : x ∈ om_erase m k -> x ∈ m.
Proof.
  assert (Forall (fun y => y ∈ m) (om_erase m k)) as Hall by (apply om_erase_Forall, Forall_forall; auto).
  rewrite Forall_forall in Hall. auto.
Qed.

Lemma om_set_member {A} (m : list (Z * A)) k v x : x ∈ om_set m k v -> x = (k, v) \/ x ∈ m.
Proof.
  assert (Forall (fun y => y = (k, v) \/ y ∈ m) (om_set m k v)) as Hall
    by (apply om_set_Forall; [by left|apply Forall_forall; auto]).
  rewrite Forall_forall in Hall. auto.
Qed.

Lemma hush_getServer id : keeps hush (getServer clock id).
Proof.
  unfold getServer. intros s. apply wp_bind, wp_get. destruct (om_lookup _ _); [by apply wp_ret|].
  apply wp_bind, (wp_keeps hush); [auto with hush|]. intros t s1 Hs1.
  apply wp_bind, (wp_keeps hush); [auto with hush|]. intros t' s2 Hs2.
  apply wp_bind, wp_modify. unfold set_conf. apply wp_bind, wp_modify, wp_ret.
  etransitivity; [exact Hs1|]. etransitivity; [exact Hs2|]. split; [done|]. simpl.
  intros v (r & srv & Hin%om_set_member & Hr & Hv). simpl in *.
  apply lookup_insert_Some in Hr as [[<- <-]|[Hne Hr]]; [done|].
  destruct Hin as [[= -> ->]|Hin]; [done|]. by exists r, srv.
Qed.
#[local] Hint Resolve hush_getServer : hush.

Lemma hush_set_conf f : (forall c, novote c (f c)) -> keeps hush (set_conf f).
Proof. intros Hf. unfold set_conf. apply hush_modify. intros s. split; [done|]. apply Hf. Qed.
#[local] Hint Extern 1 (keeps hush (set_conf _)) => apply hush_set_conf; intros c v Hv; exact Hv : hush.

Lemma hush_add_old srv : keeps hush (add_old_server clock srv).
Proof. unfold add_old_server. hush_go. Qed.
Lemma hush_add_new srv : keeps hush (add_new_server clock srv).
Proof. unfold add_new_server. hush_go. Qed.

Lemma hush_collect : keeps hush collect_servers.
Proof.
  intros s. unfold collect_servers. apply wp_bind, wp_get. apply hush_forM. intros p.
  intros s1. apply wp_bind, wp_get. destruct (_ !! _) as [srv|]; [|done]. destruct (gcFlag srv).
  - apply hush_update_server. by intros [].
  - apply wp_bind, (wp_keeps hush).
    { apply hush_update_server, tame_votes, tame_on_peer. by intros []. }
    intros ? s2 Hs2. unfold set_conf. apply wp_modify. etransitivity; [exact Hs2|]. split; [done|].
    simpl. apply novote_known. intros x. apply om_erase_subset.
Qed.
#[local] Hint Resolve hush_add_old hush_add_new hush_collect : hush.

Lemma calm_setConfiguration newId d : keeps calm (Configuration_setConfiguration clock newId d).
Proof.
  intros s. assert (keeps hush (Configuration_setConfiguration clock newId d)) as Hhush
    by (unfold Configuration_setConfiguration; hush_go).
  specialize (Hhush s). pose proof (setConfiguration_safe clock newId d s) as Hwf.
  unfold post, wp in *. destruct (Configuration_setConfiguration clock newId d s) as [[[] s']|f] eqn:Hrun; [|done].
  apply hush_calm; [done|]. intros Hs. specialize (Hwf Hs). unfold safe, wp in Hwf. rewrite Hrun in Hwf. apply Hwf.
Qed.
#[local] Hint Resolve calm_setConfiguration : calm.

Lemma calm_reset : keeps calm Configuration_reset.
Proof.
  intros s. enough (conf_wf (configuration s) -> post Configuration_reset (fun _ s' => calm s s') s) as Hen.
  { unfold post, wp in *. destruct (Configuration_reset s) as [[u s']|f] eqn:Hrun; [|done].
    assert (still s s') as Hstill; [|split; [done|]; intros Hwf; by apply (Hen Hwf)].
    assert (keeps still Configuration_reset) as Hk; [|specialize (Hk s); unfold post, wp in Hk; by rewrite Hrun in Hk].
    intros s0. unfold Configuration_reset, set_conf, forEach. apply wp_bind, wp_modify, wp_bind, wp_bind, wp_get.
    apply (wp_keeps hush); [apply hush_forM; intros r; apply hush_update_server, tame_votes, tame_on_peer; by intros []|].
    intros ? s1 [Hs1 _]. apply wp_modify. etransitivity; [exact Hs1|done]. }
  intros [Hwf _ _]. pose proof (Configuration_reset_safe s) as Hsafe.
  enough (post Configuration_reset (fun _ s' => hush s s') s) as Hhush.
  { unfold post, safe, wp in *. destruct (Configuration_reset s) as [[u s']|f]; [|done].
    apply hush_calm; [done|]. intros Hs. by apply Hsafe. }
  unfold Configuration_reset, set_conf, forEach. apply wp_bind, wp_modify.
  set (s0 := set_field _ s). assert (heap_wf (configuration s0)) as Hwf0 by (destruct Hwf; by constructor).
  apply wp_bind, wp_bind, wp_get. eapply wp_mono; [apply wp_and|done|].
  - apply (wp_keeps hush (forM (map snd (knownServers (configuration s0))) (fun r => update_server r Server_exit))).
    { apply hush_forM. intros r. apply hush_update_server, tame_votes, tame_on_peer. by intros []. }
    intros ? s1 Hs1. exact Hs1.
  - eapply wp_mono; [apply forEach_exit_safe; [exact Hwf0|]|done|by intros ? ? Hx; exact (proj1 Hx)].
    apply Forall_forall. intros r ([id r0] & -> & Hin)%list_elem_of_fmap.
    destruct (wf_known _ Hwf0 id r0) as (srv & Hr & _); [|by exists srv]. apply om_lookup_elem; [apply Hwf0|done].
  - intros [] s1 [Hs1 Hwf1]. apply wp_modify. etransitivity; [|split; [|apply novote_known]; [done|]].
    + exact Hs1.
    + intros x ->%list_elem_of_singleton. destruct (wf_local _ Hwf1) as (srv & Hr & Hk). unfold the_server. rewrite Hr.
      by apply om_lookup_elem; [apply Hwf1|].
Qed.
#[local] Hint Resolve calm_reset : calm.

Lemma calm_resetStaging : keeps calm (resetStagingServers clock).
Proof. unfold resetStagingServers. calm_go. Qed.
Lemma calm_restoreInvariants : keeps calm (restoreInvariants clock).
Proof. unfold restoreInvariants. calm_go. Qed.
#[local] Hint Resolve calm_resetStaging calm_restoreInvariants : calm.
Lemma calm_manager_add i d : keeps calm (ConfigurationManager_add clock i d).
Proof. unfold ConfigurationManager_add. calm_go. Qed.
Lemma calm_manager_prefix i : keeps calm (ConfigurationManager_truncatePrefix clock i).
Proof. unfold ConfigurationManager_truncatePrefix. calm_go. Qed.
Lemma calm_manager_suffix i : keeps calm (ConfigurationManager_truncateSuffix clock i).
Proof. unfold ConfigurationManager_truncateSuffix. calm_go. Qed.
Lemma calm_manager_snapshot i d : keeps calm (ConfigurationManager_setSnapshot clock i d).
Proof. unfold ConfigurationManager_setSnapshot. calm_go. Qed.
#[local] Hint Resolve calm_manager_add calm_manager_prefix calm_manager_suffix calm_manager_snapshot : calm.

Lemma calm_setStaging l : keeps calm (setStagingServers clock l).
Proof.
  intros s. unfold setStagingServers. apply wp_bind, wp_get, wp_bind, wp_assert; [done|]. intros _.
  unfold set_conf at 1. apply wp_bind, wp_modify. set (s0 := set_field _ s).
  assert (keeps hush (forM l (add_new_server clock))) as Hhush by auto with hush. specialize (Hhush s0).
  pose proof (add_new_servers clock l s0) as Hwf. unfold post, safe, wp in *.
  destruct (forM l (add_new_server clock) s0) as [[u s']|f]; [|done].
  apply hush_calm; [etransitivity; [|exact Hhush]; split; [done|by intros v Hv]|]. intros [Hheap Hold Hnew].
  destruct Hwf as (refs & Ha & Hn & Ho); [destruct Hheap; by constructor|].
  assert (forall r, refers (configuration s) r -> refers (configuration s') r) as Hgrow
    by (intros r; apply (grows_refers _ _ _ (added_grows _ _ _ _ Ha))).
  split; [apply Ha|rewrite Ho; by apply Hgrow|]. rewrite Hn. apply Forall_app. split; [by apply Hgrow|].
  eapply resolves_refers, Ha.
Qed.
#[local] Hint Resolve calm_setStaging : calm.

(** *** The log, the clocks and the snapshots *)

#[local] Hint Extern 1 (keeps calm (on_log _)) =>
  apply calm_on_log; intros;
  first [apply ledger_append | apply ledger_truncatePrefix | apply ledger_truncateSuffix
        | apply ledger_takeSync | apply ledger_sync_wait | apply ledger_syncComplete | apply ledger_updateMetadata] : calm.

Lemma calm_newEpoch t : keeps calm (newEpoch clock t).
Proof. unfold newEpoch. calm_go. Qed.
Lemma calm_leaderStamp : keeps calm (leaderStamp clock).
Proof. unfold leaderStamp. calm_go. Qed.
Lemma calm_sync_now : keeps calm sync_now.
Proof. unfold sync_now. calm_go. Qed.
#[local] Hint Resolve calm_newEpoch calm_leaderStamp calm_sync_now : calm.
Lemma calm_queue_or_sync : keeps calm queue_or_sync.
Proof. unfold queue_or_sync. calm_go. Qed.
Lemma calm_updateLogMetadata : keeps calm updateLogMetadata.
Proof.
  intros s. unfold updateLogMetadata. apply wp_bind, wp_modify. apply (wp_keeps calm); [auto with calm|]. intros ? s' Hs'.
  etransitivity; [|exact Hs']. apply calm_same; [|done]. unfold still. simpl. by rewrite ledger_set_metadata.
Qed.
Lemma calm_add_configurations i l : keeps calm (add_configurations clock i l).
Proof. revert i. induction l as [|e l IH]; intros i; simpl; calm_go. Qed.
#[local] Hint Resolve calm_queue_or_sync calm_updateLogMetadata calm_add_configurations : calm.
Lemma calm_append l : keeps calm (RaftConsensus_append clock l).
Proof. unfold RaftConsensus_append. calm_go. Qed.
Lemma calm_discard_writer : keeps calm discard_writer.
Proof. unfold discard_writer. calm_go. Qed.
Lemma calm_discardUnneeded : keeps calm (discardUnneededEntries clock).
Proof. unfold discardUnneededEntries. calm_go. Qed.
Lemma calm_getLastLogTerm : keeps calm getLastLogTerm.
Proof. unfold getLastLogTerm. calm_go. Qed.
Lemma calm_with_dir {A} w (m : M Writer A) : keeps calm (with_dir w m).
Proof. unfold with_dir. calm_go. Qed.
Lemma calm_new_Writer : keeps calm (new_Writer clock stagingNameAt).
Proof. unfold new_Writer. calm_go. Qed.
Lemma calm_heard : keeps calm (heard_from_leader opts clock randomRange).
Proof. unfold heard_from_leader. calm_go. Qed.
#[local] Hint Resolve calm_append calm_discard_writer calm_discardUnneeded calm_getLastLogTerm calm_with_dir calm_new_Writer calm_heard : calm.
Lemma calm_log_disagrees : keeps calm log_disagrees.
Proof. unfold log_disagrees. calm_go. Qed.
Lemma calm_update_peer r f : (forall p, haveVote_ (f p) = true -> haveVote_ p = true) -> keeps calm (update_peer r f).
Proof. intros Hf. unfold update_peer. apply calm_update_server, tame_on_peer, Hf. Qed.
#[local] Hint Extern 1 (forall p, haveVote_ _ = true -> haveVote_ p = true) => intros; simpl in *; congruence : calm.
#[local] Hint Resolve calm_log_disagrees calm_update_peer : calm.
Lemma calm_get_peer r : keeps calm (get_peer r).
Proof. unfold get_peer. calm_go. Qed.
#[local] Hint Resolve calm_get_peer : calm.
Lemma calm_call_failed r t : keeps calm (call_failed opts r t).
Proof. unfold call_failed. auto with calm. Qed.
Lemma calm_update_catch_up r : keeps calm (update_catch_up opts clock r).
Proof. unfold update_catch_up. calm_go. Qed.
#[local] Hint Resolve calm_call_failed calm_update_catch_up : calm.
Lemma calm_record_capabilities r cap : keeps calm (record_capabilities r cap).
Proof. unfold record_capabilities. calm_go. Qed.
Lemma calm_record_leader id : keeps calm (record_leader id).
Proof. unfold record_leader. calm_go. Qed.
Lemma calm_check_types l : keeps calm (check_types l).
Proof. unfold check_types. apply calm_forM. intros e. calm_go. Qed.
#[local] Hint Resolve calm_record_capabilities calm_record_leader calm_check_types : calm.
Lemma calm_append_loop i es : keeps calm (append_loop clock i es).
Proof. revert i. induction es as [|e es IH]; intros i; simpl; calm_go. Qed.
Lemma calm_prev_entry_agrees r : keeps calm (prev_entry_agrees r).
Proof. unfold prev_entry_agrees. calm_go. Qed.
Lemma calm_discard_log : keeps calm (discard_log clock).
Proof. unfold discard_log. calm_go. Qed.
#[local] Hint Resolve calm_append_loop calm_prev_entry_agrees calm_discard_log : calm.
Lemma calm_load_header rd : keeps calm (load_header clock rd).
Proof. unfold load_header. calm_go. Qed.
#[local] Hint Resolve calm_load_header : calm.
Lemma calm_readSnapshot : keeps calm (readSnapshot clock).
Proof. unfold readSnapshot. calm_go. Qed.
Lemma calm_the_writer : keeps calm (the_writer clock stagingNameAt).
Proof. unfold the_writer. calm_go. Qed.
Lemma calm_scheduleHeartbeats : keeps calm (scheduleHeartbeats clock).
Proof. intros s. unfold scheduleHeartbeats. apply wp_bind, wp_get. apply calm_forM. intros r. calm_go. Qed.
Lemma calm_upToDate_commitTerm : keeps calm upToDate_commitTerm.
Proof. unfold upToDate_commitTerm. calm_go. Qed.
Lemma calm_snapshot_term_and_time i : keeps calm (snapshot_term_and_time i).
Proof. unfold snapshot_term_and_time. calm_go. Qed.
#[local] Hint Resolve calm_readSnapshot calm_the_writer calm_scheduleHeartbeats calm_upToDate_commitTerm calm_snapshot_term_and_time : calm.
Lemma calm_committed_entry i : keeps calm (committed_entry clock i).
Proof. unfold committed_entry. calm_go. Qed.
Lemma calm_read_configurations n i : keeps calm (read_configurations clock n i).
Proof. revert i. induction n as [|n IH]; intros i; simpl; calm_go. Qed.
#[local] Hint Resolve calm_committed_entry calm_read_configurations : calm.

(** ** What starts no election and wins none *)

Record steady (s s' : R) : Prop := {
  steady_id : raft_serverId s' = raft_serverId s;
  steady_ledger : ledger (log s') = ledger (log s);
  steady_term : currentTerm s <= currentTerm s';
  steady_vote : currentTerm s' = currentTerm s -> votedFor s <> 0 -> votedFor s' = votedFor s;
  steady_wf : conf_wf (configuration s) -> conf_wf (configuration s');
  steady_role : state s' <> FOLLOWER ->
    state s' = state s /\ currentTerm s' = currentTerm s /\ votedFor s' = votedFor s /\
    (conf_wf (configuration s) -> novote (configuration s) (configuration s'))
}.

Lemma calm_steady s s' : calm s s' -> steady s s'.
Proof.
  intros [(Hi & Ht & Hs & Hv & Hl) Hc]. split; [done|done|lia|congruence|by intros W; destruct (Hc W)|].
  intros _. split_and!; [done|done|done|by intros W; destruct (Hc W)].
Qed.

#[local] Instance steady_preorder : PreOrder steady.
Proof.
  split; [intros s; by apply calm_steady|]. intros s1 s2 s3 A B. split.
  - rewrite (steady_id _ _ B). apply A.
  - rewrite (steady_ledger _ _ B). apply A.
  - pose proof (steady_term _ _ A). pose proof (steady_term _ _ B). lia.
  - intros Ht Hv. pose proof (steady_term _ _ A). pose proof (steady_term _ _ B).
    assert (votedFor s2 = votedFor s1) as Hv2 by (apply (steady_vote _ _ A); [lia|done]).
    rewrite <-Hv2. apply (steady_vote _ _ B); [lia|congruence].
  - intros Hw. by apply (steady_wf _ _ B), (steady_wf _ _ A).
  - intros Hf. destruct (steady_role _ _ B Hf) as (S2 & T2 & V2 & N2).
    destruct (steady_role _ _ A) as (S1 & T1 & V1 & N1); [congruence|]. split_and!; [congruence..|].
    intros Hw. etransitivity; [by apply N1|]. by apply N2, (steady_wf _ _ A).
Qed.

Lemma keeps_steady {A} (m : M R A) : keeps calm m -> keeps steady m.
Proof. intros Hm s. eapply wp_mono; [apply Hm|done|]. intros a s'. apply calm_steady. Qed.

(** Becoming a follower of a term that is not older. *)
Lemma steady_follower s s' :
  raft_serverId s' = raft_serverId s -> ledger (log s') = ledger (log s) -> state s' = FOLLOWER ->
  currentTerm s <= currentTerm s' -> (currentTerm s' = currentTerm s -> votedFor s' = votedFor s) ->
  (conf_wf (configuration s) -> conf_wf (configuration s')) -> steady s s'.
Proof. intros. split; auto. congruence. Qed.

(** After stepping down a server is a follower. *)
Lemma stepDown_follower newTerm s :
  post (stepDown opts clock randomRange newTerm) (fun _ s' => steady s s' /\ state s' = FOLLOWER) s.
Proof.
  unfold stepDown. apply wp_bind, wp_get, wp_bind, wp_assert; [done|]. intros Hle%Z.leb_le.
  apply wp_bind. eapply (wp_mono _ _ _ (fun _ s1 => steady s s1 /\ state s1 = FOLLOWER)); [|done|].
  - destruct (Z.ltb_spec (currentTerm s) newTerm) as [Hlt|Hge].
    + apply wp_bind, wp_modify. do 3 (apply wp_bind, (wp_keeps calm); [auto with calm|intros ? ? ?]).
      apply wp_modify. split; [|done]. set (s0 := set_field _ _) in *.
      assert (calm s0 s'1) as [(Hi & Ht & _ & Hv & Hl) Hc] by (repeat (etransitivity; [eassumption|]); reflexivity).
      subst s0. simpl in *. apply steady_follower; simpl; try done; try lia. intros W. by destruct (Hc W).
    + apply wp_modify. split; [|done]. by apply steady_follower.
  - intros [] s1 [Hs1 Hf1].
    assert (forall (m : M R unit), keeps calm m -> wp (fun _ => True) m (fun _ s' => steady s s' /\ state s' = FOLLOWER) s1) as Hrest.
    { intros m Hm. apply (wp_keeps calm); [done|]. intros ? s' Hc. split; [etransitivity; [exact Hs1|by apply calm_steady]|].
      destruct Hc as [(_ & _ & Hst & _) _]. congruence. }
    apply Hrest. calm_go.
Qed.

Lemma steady_stepDown newTerm : keeps steady (stepDown opts clock randomRange newTerm).
Proof. intros s. eapply wp_mono; [apply stepDown_follower|done|]. by intros ? ? []. Qed.

Create HintDb steady.
#[local] Hint Extern 2 (keeps steady _) => apply keeps_steady; solve [auto with calm] : steady.
#[local] Hint Resolve steady_stepDown : steady.
Ltac steady_close :=
  first [ reflexivity | assumption | by apply calm_steady, calm_same
        | match goal with
          | |- steady _ (if ?b then _ else _) => destruct b; steady_close
          | Hs : steady ?x ?z |- steady _ ?z => is_var z; transitivity x; [clear Hs; steady_close|exact Hs]
          | |- steady _ (set_field _ ?y) => transitivity y; [steady_close|by apply calm_steady, calm_same]
          end ].
Ltac steady_step := first [apply (wp_keeps steady); [by apply keeps_steady, calm_lift|intros ? ? ?] | wp_step; try exact I | apply (wp_keeps steady); [solve [auto with steady]|intros ? ? ?]].
Ltac steady_go := intros ?; repeat steady_step; try steady_close.

Lemma steady_advanceCommitIndex : keeps steady (advanceCommitIndex opts clock randomRange).
Proof. unfold advanceCommitIndex. steady_go. Qed.
#[local] Hint Resolve steady_advanceCommitIndex : steady.
Lemma steady_handleAppendEntries q : keeps steady (handleAppendEntries opts clock randomRange q).
Proof. unfold handleAppendEntries. steady_go. Qed.
Lemma steady_handleInstallSnapshot q : keeps steady (handleInstallSnapshot opts clock randomRange stagingNameAt q).
Proof. unfold handleInstallSnapshot. steady_go. Qed.
Lemma steady_process_append_response r q i : keeps steady (process_append_response opts clock randomRange r q i).
Proof. unfold process_append_response. steady_go. Qed.
Lemma steady_setSupported lo hi : keeps steady (RaftConsensus_setSupportedStateMachineVersions lo hi).
Proof. unfold RaftConsensus_setSupportedStateMachineVersions. steady_go. Qed.
Lemma steady_beginSnapshot i : keeps steady (RaftConsensus_beginSnapshot clock stagingNameAt i).
Proof. unfold RaftConsensus_beginSnapshot. steady_go. Qed.
Lemma steady_snapshotDone i w : keeps steady (RaftConsensus_snapshotDone clock i w).
Proof. unfold RaftConsensus_snapshotDone. steady_go. Qed.
Lemma steady_stepDownThread l : keeps steady (stepDownThread_step opts clock randomRange l).
Proof. unfold stepDownThread_step. steady_go. Qed.
Lemma steady_exit : keeps steady RaftConsensus_exit.
Proof. unfold RaftConsensus_exit. steady_go. Qed.
Lemma steady_bootstrap : keeps steady (bootstrapConfiguration opts clock randomRange).
Proof. unfold bootstrapConfiguration. steady_go. Qed.

(** A vote is given only where none was, by a follower. *)
Lemma steady_handleRequestVote q : keeps steady (handleRequestVote opts clock randomRange q).
Proof.
  intros s. unfold handleRequestVote. apply wp_bind, wp_get, wp_bind, wp_assert; [done|]. intros _.
  apply wp_bind, (wp_keeps steady); [auto with steady|]. intros t s1 Hs1.
  apply wp_bind, (wp_keeps steady); [auto with steady|]. intros t' s2 Hs2.
  destruct (_ <? _); [apply wp_ret; steady_close|].
  apply wp_bind, (wp_keeps steady); [apply keeps_when; auto with steady; apply _|]. intros [] s3 Hs3.
  apply wp_bind, wp_get, wp_bind. eapply (wp_mono _ _ _ (fun _ s' => steady s3 s')); [|done|].
  - apply wp_when; [|reflexivity]. intros [_ [_ Hv%Z.eqb_eq]%andb_prop]%andb_prop.
    apply wp_bind. eapply wp_mono; [apply stepDown_follower|done|]. intros [] s4 [Hs4 Hf].
    apply wp_bind, (wp_keeps calm); [auto with calm|]. intros [] s5 [(I5 & T5 & S5 & V5 & L5) C5].
    apply wp_bind, wp_modify, (wp_keeps calm); [auto with calm|]. intros ? s6 [(I6 & T6 & S6 & V6 & L6) C6].
    simpl in *. destruct Hs4. split; try congruence; try lia. intros W. by destruct (C5 (steady_wf0 W)) as [? _], (C6 H2).
  - intros [] s4 Hs4. apply wp_bind, wp_get, wp_ret. steady_close.
Qed.

(** The answer grants a vote exactly when it is the one on record. *)
Lemma handleRequestVote_answer q s :
  post (handleRequestVote opts clock randomRange q) (fun r s' => rvr_granted r = true ->
    currentTerm s' = rv_term q /\ votedFor s' = rv_server_id q) s.
Proof.
  unfold handleRequestVote. apply wp_bind, wp_get, wp_bind, wp_assert; [done|]. intros _.
  do 2 (apply wp_bind, (wp_keeps steady); [auto with steady|intros ? ? _]).
  destruct (_ <? _); [by apply wp_ret|].
  apply wp_bind, (wp_keeps steady); [apply keeps_when; auto with steady; apply _|]. intros [] s3 _.
  apply wp_bind, wp_get, wp_bind. eapply (wp_mono (fun _ => True) _ _ (fun _ _ => True)); [|done|].
  - unfold wp. by destruct (when _ _ _) as [[]|].
  - intros [] s4 _. apply wp_bind, wp_get, wp_ret. intros [?%Z.eqb_eq ?%Z.eqb_eq]%andb_prop. done.
Qed.
(** ** The invariant of elections

    [members] are the servers of the cluster, and [voted_for_self v t] says that
    server [v] gave this server its vote of term [t]. *)

Context (self : Z) (voted_for_self : Z -> Z -> bool) (members : list Z).

(** A majority of the cluster voted for this server. *)
Definition won (t : Z) : Prop := simple_quorumAll (fun v => (v =? self) || voted_for_self v t) members = true.

Record vote_inv (s : R) : Prop := {
  vi_id : raft_serverId s = self;
  vi_conf : conf_wf (configuration s);
  vi_given t c : (t, c) ∈ given (ledger (log s)) ->
    t <= currentTerm s /\ c <> 0 /\ (t = currentTerm s -> votedFor s = c);
  vi_once t c c' : (t, c) ∈ given (ledger (log s)) -> (t, c') ∈ given (ledger (log s)) -> c = c';
  vi_self : state s <> FOLLOWER -> votedFor s = self;
  vi_candidate : state s = CANDIDATE ->
    forall v, has_vote (configuration s) v -> voted_for_self v (currentTerm s) = true;
  vi_leader : state s = LEADER -> won (currentTerm s);
  vi_led t : t ∈ led (ledger (log s)) -> won t /\ (t, self) ∈ given (ledger (log s))
}.

Definition fair (s s' : R) : Prop := vote_inv s -> vote_inv s'.

#[local] Instance fair_preorder : PreOrder fair.
Proof. split; [by intros s ?|]. intros s1 s2 s3 A B Hs. auto. Qed.

Lemma steady_fair s s' : steady s s' -> fair s s'.
Proof.
  intros [Hid Hl Ht Hv Hwf Hr] [I1 I2 I3 I4 I5 I6 I7 I8]. split; rewrite ?Hl; try done.
  - congruence.
  - auto.
  - intros t c Hin. destruct (I3 t c Hin) as (Hle & Hc & Hcur). split_and!; [lia|done|]. intros ->.
    assert (currentTerm s' = currentTerm s) as Heq by lia. rewrite Hv; [auto|done|]. rewrite Hcur; [done|lia].
  - intros Hf. destruct (Hr Hf) as (Hs & _ & -> & _). apply I5. congruence.
  - intros Hc. destruct Hr as (Hs & -> & _ & Hn); [congruence|]. intros v Hhas. apply I6; [congruence|]. by apply Hn.
  - intros Hlead. destruct Hr as (Hs & -> & _ & _); [congruence|]. apply I7. congruence.
Qed.

Lemma keeps_fair {A} (m : M R A) : keeps steady m -> keeps fair m.
Proof. intros Hm s. eapply wp_mono; [apply Hm|done|]. intros a s'. apply steady_fair. Qed.

Lemma fair_bind {A B} (m : M R A) (k : A -> M R B) :
  keeps fair m -> (forall a, keeps fair (k a)) -> keeps fair (bind m k).
Proof. apply keeps_bind; apply _. Qed.

Lemma fair_ret {A} (a : A) : keeps fair (ret a).
Proof. apply keeps_ret; apply _. Qed.

Lemma fair_when b (m : M R unit) : keeps fair m -> keeps fair (when b m).
Proof. apply keeps_when; apply _. Qed.

Lemma fair_get : keeps fair get.
Proof. intros s. by apply wp_get. Qed.

Lemma fair_fail {A} f : keeps fair (fail (A:=A) f).
Proof. intros s. by apply wp_fail. Qed.

(** To show [keeps fair], the invariant may be assumed. *)
Lemma keeps_fair_intro {A} (m : M R A) :
  (forall s, vote_inv s -> post m (fun _ s' => vote_inv s') s) -> keeps fair m.
Proof.
  intros Hm s. unfold post, wp. destruct (m s) as [[a s']|f] eqn:Hrun; [|done]. intros Hs.
  specialize (Hm s Hs). unfold post, wp in Hm. by rewrite Hrun in Hm.
Qed.

Create HintDb fair.
#[local] Hint Resolve fair_ret fair_get fair_fail : fair.
#[local] Hint Resolve steady_handleAppendEntries steady_handleInstallSnapshot steady_process_append_response
  steady_setSupported steady_beginSnapshot steady_snapshotDone steady_stepDownThread steady_exit steady_bootstrap
  steady_handleRequestVote : steady.
#[local] Hint Extern 2 (keeps fair _) => apply keeps_fair; solve [auto with steady] : fair.
#[local] Hint Extern 1 (keeps calm (modify _)) =>
  apply calm_modify; intros; split; [unfold still; simpl; split_and!; done|done] : calm.
#[local] Hint Extern 1 (keeps steady (lift _)) => apply keeps_steady, calm_lift : steady.

(** Takes an operation apart; what is left are the steps that need an argument. *)
Ltac fair_go :=
  repeat match goal with
    | |- keeps fair _ => solve [eauto with fair]
    | |- keeps fair (bind _ _) => apply fair_bind; [|intros ?]
    | |- keeps fair (when _ _) => apply fair_when
    | |- keeps fair (if ?b then _ else _) => destruct b
    | |- keeps fair (match ?x with _ => _ end) => destruct x
    end.

(** *** Operations that wait *)

Definition fair_others (sched : list (M R unit)) : Prop := forall env, env ∈ sched -> keeps fair env.

Lemma fair_others_cons env sched : fair_others (env :: sched) -> keeps fair env /\ fair_others sched.
Proof. intros Henv. split; [apply Henv, list_elem_of_here|]. intros e He. by apply Henv, list_elem_of_further. Qed.

Lemma fair_upToDateLeader_loop epoch sched : fair_others sched -> keeps fair (upToDateLeader_loop epoch sched).
Proof. induction sched as [|env sched IH]; [|intros [? ?%IH]%fair_others_cons]; intros; simpl; fair_go. Qed.

Lemma fair_upToDateLeader sched : fair_others sched -> keeps fair (upToDateLeader clock sched).
Proof. intros Hs. unfold upToDateLeader. fair_go. by apply fair_upToDateLeader_loop. Qed.
#[local] Hint Resolve fair_upToDateLeader : fair.

Lemma fair_getConfiguration sched : fair_others sched -> keeps fair (getConfiguration clock sched).
Proof. intros Hs. unfold getConfiguration. fair_go. Qed.

Lemma fair_getLastCommitIndex sched : fair_others sched -> keeps fair (getLastCommitIndex clock sched).
Proof. intros Hs. unfold getLastCommitIndex. fair_go. Qed.

Lemma fair_getNextEntry i sched : fair_others sched -> keeps fair (RaftConsensus_getNextEntry clock i sched).
Proof. induction sched as [|env sched IH]; [|intros [? ?%IH]%fair_others_cons]; intros; simpl; fair_go. Qed.

Lemma fair_wait_committed t i sched : fair_others sched -> keeps fair (wait_committed t i sched).
Proof. induction sched as [|env sched IH]; [|intros [? ?%IH]%fair_others_cons]; intros; simpl; fair_go. Qed.
#[local] Hint Resolve fair_wait_committed : fair.

Lemma fair_replicateEntry e sched : fair_others sched -> keeps fair (replicateEntry clock e sched).
Proof. intros Hs. unfold replicateEntry. fair_go. Qed.
#[local] Hint Resolve fair_replicateEntry : fair.

Lemma fair_wait_caught_up t epoch at_ sched :
  fair_others sched -> keeps fair (wait_caught_up opts clock t epoch at_ sched).
Proof.
  revert epoch at_. induction sched as [|env sched IH]; [|intros epoch at_ [Henv Hs]%fair_others_cons];
    intros; simpl; fair_go.
Qed.

Lemma fair_wait_stable t i sched : fair_others sched -> keeps fair (wait_stable t i sched).
Proof. induction sched as [|env sched IH]; [|intros [? ?%IH]%fair_others_cons]; intros; simpl; fair_go. Qed.
#[local] Hint Resolve fair_wait_caught_up fair_wait_stable : fair.

Lemma fair_setConfiguration q catch_up commit stable :
  fair_others (catch_up ++ commit ++ stable) -> keeps fair (setConfiguration opts clock q catch_up commit stable).
Proof.
  intros Henv. assert (fair_others catch_up) by (intros ? ?; apply Henv; set_solver).
  assert (fair_others commit) by (intros ? ?; apply Henv; set_solver).
  assert (fair_others stable) by (intros ? ?; apply Henv; set_solver).
  unfold setConfiguration. fair_go.
Qed.

Lemma fair_stateMachineUpdater advance_command u sched :
  fair_others sched -> keeps fair (stateMachineUpdaterThread_step opts clock advance_command u sched).
Proof. intros Hs. unfold stateMachineUpdaterThread_step. fair_go. Qed.

Lemma fair_leaderDiskThread env env' :
  keeps fair env -> keeps fair env' -> keeps fair (leaderDiskThread_step opts clock randomRange env env').
Proof. intros. unfold leaderDiskThread_step. fair_go. Qed.

Lemma fair_peerThread r m1 m2 : keeps fair m1 -> keeps fair m2 -> keeps fair (peerThread_step clock r m1 m2).
Proof. intros. unfold peerThread_step. fair_go. Qed.

Lemma fair_Peer_callRPC {Resp} r (reply : M R (RPCStatus * Resp)) : keeps fair reply -> keeps fair (Peer_callRPC r reply).
Proof. intros. unfold Peer_callRPC. fair_go. Qed.
#[local] Hint Resolve fair_Peer_callRPC : fair.

Lemma fair_installSnapshot r send :
  (forall q, keeps fair (send q)) -> keeps fair (installSnapshot opts clock randomRange r send).
Proof. intros. unfold installSnapshot. fair_go. Qed.

Lemma calm_packEntries_loop entry_size request_size n i packed size :
  keeps calm (packEntries_loop opts entry_size request_size n i packed size).
Proof. revert i packed size. induction n as [|n IH]; intros; simpl; calm_go. Qed.
#[local] Hint Resolve calm_packEntries_loop : calm.

Lemma fair_appendEntries entry_size request_size r send send_snapshot :
  (forall q, keeps fair (send q)) -> (forall q, keeps fair (send_snapshot q)) ->
  keeps fair (appendEntries opts clock randomRange entry_size request_size send send_snapshot r).
Proof.
  intros Hsend Hsnap. pose proof (fair_installSnapshot r send_snapshot Hsnap).
  unfold appendEntries, prev_log_term, packEntries. fair_go.
Qed.

(** *** Winning an election *)

(** The servers of [members] are one of the sets that decide. *)
Definition decided_by_members (c : Configuration) : Prop :=
  exists l, l ∈ deciding c /\ map (fun r => serverId (the_server c r)) l = members.

Lemma simple_quorumAll_ext {A B} (p : A -> bool) (q : B -> bool) (g : ServerRef -> A) (h : ServerRef -> B) l :
  (forall r, r ∈ l -> p (g r) = true -> q (h r) = true) ->
  simple_quorumAll p (map g l) = true -> simple_quorumAll q (map h l) = true.
Proof.
  intros Hpq. destruct l as [|a l]; [done|]. rewrite !simple_quorumAll_count by done. rewrite !length_map.
  assert (length (List.filter p (map g (a :: l))) <= length (List.filter q (map h (a :: l))))%nat; [|lia].
  revert Hpq. generalize (a :: l) as l'. induction l' as [|b l' IH]; intros Hpq; simpl; [lia|].
  assert (length (List.filter p (map g l')) <= length (List.filter q (map h l')))%nat as Hle
    by (apply IH; intros r Hr; by apply Hpq, list_elem_of_further).
  specialize (Hpq b (list_elem_of_here _ _)). destruct (p (g b)); [rewrite (Hpq eq_refl); simpl; lia|].
  destruct (q (h b)); simpl; lia.
Qed.

Lemma deciding_refers c l : conf_wf c -> l ∈ deciding c -> refers c l.
Proof.
  intros [_ Hold Hnew]. unfold deciding. case_bool_decide; [intros [->| ->%list_elem_of_singleton]%elem_of_cons; done|].
  by intros ->%list_elem_of_singleton.
Qed.

(** A known server's vote counts for its id. *)
Lemma counted_vote s r :
  vote_inv s -> state s = CANDIDATE -> (exists id, known (configuration s) id = Some r) ->
  Server_haveVote (votedFor s) (the_server (configuration s) r) = true ->
  let v := serverId (the_server (configuration s) r) in (v =? self) || voted_for_self v (currentTerm s) = true.
Proof.
  intros Hs Hcand [id Hk] Hv. destruct (vi_conf _ Hs) as [Hwf _ _]. destruct (wf_known _ Hwf id r Hk) as (srv & Hr & Hid).
  revert Hv. unfold the_server. rewrite Hr. simpl. unfold Server_haveVote. destruct (kind srv) as [i|p] eqn:Hkind.
  - rewrite (vi_self _ Hs) by congruence. intros Heq%Z.eqb_eq. rewrite <-Heq. by rewrite Z.eqb_refl.
  - intros Hp. rewrite (vi_candidate _ Hs Hcand); [by rewrite orb_true_r|]. rewrite Hid. exists r, srv. split_and!; [|done|].
    + by apply om_lookup_elem; [apply Hwf|].
    + unfold voted. by rewrite Hkind.
Qed.

Lemma quorum_wins s :
  vote_inv s -> state s = CANDIDATE -> decided_by_members (configuration s) ->
  quorumAll (configuration s) (Server_haveVote (votedFor s)) = true -> won (currentTerm s).
Proof.
  intros Hs Hcand (l & Hl & Hm) Hq. rewrite quorumAll_deciding in Hq. unfold won. rewrite <-Hm.
  eapply simple_quorumAll_ext; [|exact (Hq l Hl)]. intros r Hr Hv. apply counted_vote; [done|done| |done].
  pose proof (deciding_refers _ _ (vi_conf _ Hs) Hl) as Href. unfold refers in Href. rewrite Forall_forall in Href. by apply Href.
Qed.

Lemma tame_beginLeadership i : tame (Server_beginLeadership i).
Proof. intros srv. unfold Server_beginLeadership, voted. destruct (kind srv) eqn:Hk; simpl; rewrite ?Hk; auto. Qed.
#[local] Hint Resolve tame_beginLeadership : calm.

Lemma fair_becomeLeader s :
  (vote_inv s -> won (currentTerm s)) -> post (becomeLeader clock) (fun _ s' => fair s s') s.
Proof.
  intros Hwon. unfold becomeLeader. apply wp_bind, wp_get, wp_bind, wp_assert; [done|].
  intros Hcand%bool_decide_eq_true. apply wp_bind, wp_modify. set (s1 := set_field _ _).
  assert (fair s s1) as Hs1.
  { intros Hs. pose proof (Hwon Hs). destruct Hs as [I1 I2 I3 I4 I5 I6 I7 I8]. split; try done. intros _. simpl. apply I5. congruence. }
  do 3 (apply wp_bind, (wp_keeps calm); [auto with calm|intros ? ? ?]).
  apply wp_bind, (wp_keeps calm); [auto with calm|]. intros ? s5 ?. apply (wp_keeps calm); [auto with calm|]. intros ? s6 ?.
  etransitivity; [exact Hs1|]. apply steady_fair, calm_steady. subst s1. repeat (etransitivity; [eassumption|]). reflexivity.
Qed.

Lemma fair_count_votes s :
  decided_by_members (configuration s) -> state s = CANDIDATE ->
  post (when (quorumAll (configuration s) (Server_haveVote (votedFor s))) (becomeLeader clock)) (fun _ s' => fair s s') s.
Proof.
  intros Hd Hc. apply wp_when; [|reflexivity]. intros Hq. apply fair_becomeLeader. intros Hs. by apply quorum_wins.
Qed.

(** The sets that decide, and whom their members stand for, are the same. *)
Definition roster (s s' : R) : Prop :=
  deciding (configuration s') = deciding (configuration s) /\
  forall r, serverId (the_server (configuration s') r) = serverId (the_server (configuration s) r).

#[local] Instance roster_preorder : PreOrder roster.
Proof. split; [by intros s|]. intros s1 s2 s3 [D1 I1] [D2 I2]. split; [congruence|]. intros r. by rewrite I2. Qed.

Lemma roster_decided s s' : roster s s' -> decided_by_members (configuration s) -> decided_by_members (configuration s').
Proof.
  intros [Hd Hid] (l & Hl & Hm). exists l. rewrite Hd. split; [done|]. rewrite <-Hm. apply map_ext. intros r. apply Hid.
Qed.

Lemma roster_update c r srv srv' :
  servers c !! r = Some srv -> serverId srv' = serverId srv ->
  forall r', serverId (the_server (c <| servers := <[r := srv']> (servers c) |>) r') = serverId (the_server c r').
Proof.
  intros Hr Hid r'. unfold the_server, ServerRef in *. simpl. destruct (Z.eq_dec r r') as [->|Hne]; [by rewrite lookup_insert_eq, Hr|].
  by rewrite lookup_insert_ne.
Qed.

Lemma roster_update_server r f : (forall srv, serverId (f srv) = serverId srv) -> keeps roster (update_server r f).
Proof.
  intros Hf s. unfold update_server. apply wp_bind, wp_get. destruct (servers (configuration s) !! r) as [srv|] eqn:Hr; [|done].
  apply wp_put. split; [done|]. by apply roster_update with srv.
Qed.

Lemma roster_forEach f : (forall srv, serverId (f srv) = serverId srv) -> keeps roster (forEach f).
Proof.
  intros Hf s. unfold forEach. apply wp_bind, wp_get. apply keeps_forM; [apply _|]. intros r. by apply roster_update_server.
Qed.

Lemma roster_modify f : (forall s, configuration (f s) = configuration s) -> keeps roster (modify f).
Proof. intros Hf s. apply wp_modify. unfold roster. by rewrite Hf. Qed.

Lemma roster_bind {A B} (m : M R A) (k : A -> M R B) :
  keeps roster m -> (forall a, keeps roster (k a)) -> keeps roster (bind m k).
Proof. apply keeps_bind; apply _. Qed.

Lemma roster_on_log {A} (m : M L A) : keeps roster (on_log m).
Proof. intros s. apply wp_zoom. unfold wp. by destruct (m (log s)) as [[]|]. Qed.

Lemma on_peer_id f srv : serverId (on_peer f srv) = serverId srv.
Proof. unfold on_peer. by destruct (kind srv). Qed.

Lemma roster_interruptAll : keeps roster interruptAll.
Proof. unfold interruptAll. apply roster_bind; [by apply roster_modify|]. intros _. by apply roster_forEach. Qed.

Lemma roster_setElectionTimer : keeps roster (setElectionTimer opts clock randomRange).
Proof. intros s. unfold setElectionTimer, now, notify_all. repeat wp_step. done. Qed.

Lemma roster_discard_writer : keeps roster discard_writer.
Proof. intros s. unfold discard_writer. apply wp_bind, wp_get. destruct (snapshotWriter s); [|done]. by destruct (Writer_discard _) as [[]|]. Qed.

Lemma roster_updateLogMetadata : keeps roster updateLogMetadata.
Proof. unfold updateLogMetadata. apply roster_bind; [by apply roster_modify|]. intros _. apply roster_on_log. Qed.

(** A new election starts without votes. *)
Lemma beginRequestVote_forgets (refs : list ServerRef) (s : R) :
  post (forM refs (fun r => update_server r Server_beginRequestVote)) (fun _ s' =>
    knownServers (configuration s') = knownServers (configuration s) /\
    forall r srv, servers (configuration s') !! r = Some srv -> voted srv = true ->
      (r ∉ refs) /\ servers (configuration s) !! r = Some srv) s.
Proof.
  revert s. induction refs as [|r0 refs IH]; intros s; simpl.
  { apply wp_ret. split; [done|]. intros r srv Hr Hv. split; [apply not_elem_of_nil|done]. }
  apply wp_bind. unfold update_server at 1. apply wp_bind, wp_get.
  destruct (servers (configuration s) !! r0) as [srv0|] eqn:Hr0; [|done]. apply wp_put.
  eapply wp_mono; [apply IH|done|]. intros ? s' [Hk Hs']. split; [by rewrite Hk|]. intros r srv Hr Hv.
  destruct (Hs' r srv Hr Hv) as [Hnin Hold]. simpl in Hold. apply lookup_insert_Some in Hold as [[<- <-]|[Hne Hold]]; [exfalso|].
  - revert Hv. unfold Server_beginRequestVote, on_peer, voted. destruct (kind srv0) eqn:Hkind; simpl; rewrite ?Hkind; done.
  - split; [|done]. apply not_elem_of_cons. by split.
Qed.

Lemma beginRequestVote_no_votes (s : R) :
  post (forEach Server_beginRequestVote) (fun _ s' => forall v, ~ has_vote (configuration s') v) s.
Proof.
  unfold forEach. apply wp_bind, wp_get. eapply wp_mono; [apply beginRequestVote_forgets|done|].
  intros ? s' [Hk Hs'] v (r & srv & Hin & Hr & Hv). destruct (Hs' r srv Hr Hv) as [Hnin _]. apply Hnin.
  rewrite Hk in Hin. apply list_elem_of_fmap. by exists (v, r).
Qed.

(** A new term, whose vote is this server's own; the term must not wrap. *)
Lemma fair_startNewElection s :
  currentTerm s < u64_max -> (conf_id (configuration s) <> 0 -> decided_by_members (configuration s)) ->
  post (startNewElection opts clock randomRange) (fun _ s' => fair s s') s.
Proof.
  intros Hmax Hdec. unfold startNewElection. apply wp_bind, wp_get. destruct (Z.eqb_spec (conf_id (configuration s)) 0) as [|Hne].
  { apply keeps_fair. auto with steady. }
  specialize (Hdec Hne). apply wp_bind, wp_modify. set (s1 := set_field _ _).
  assert (forall A (m : M R A) (k : A -> M R unit) s2, calm s1 s2 /\ roster s s2 -> keeps calm m -> keeps roster m ->
    (forall a s3, calm s1 s3 /\ roster s s3 -> calm s2 s3 -> wp (fun _ => True) (k a) (fun _ s' => fair s s') s3) ->
    wp (fun _ => True) (bind m k) (fun _ s' => fair s s') s2) as Hstep.
  { intros A m k s2 [Hc Hr] Hm Hm' Hk. apply wp_bind. eapply wp_mono; [apply wp_and; [apply Hm|apply Hm']|done|].
    intros a s3 [Hc' Hr']. apply Hk; [|done]. split; by etransitivity. }
  apply Hstep; [done|auto with calm|apply roster_setElectionTimer|]. intros _ s2 H2 _.
  apply wp_bind. eapply wp_mono; [apply wp_and; [apply (calm_forEach Server_beginRequestVote)|
    apply wp_and; [apply (roster_forEach Server_beginRequestVote); apply on_peer_id|apply beginRequestVote_no_votes]]|done|].
  { apply tame_on_peer. done. }
  intros _ s3 (Hc3 & Hr3 & Hno). assert (calm s1 s3 /\ roster s s3) as H3 by (destruct H2; split; by etransitivity).
  apply Hstep; [done|auto with calm|apply roster_discard_writer|]. intros _ s4 H4 C4.
  apply Hstep; [done|auto with calm|apply roster_updateLogMetadata|]. intros _ s5 H5 C5.
  apply Hstep; [done|auto with calm|apply roster_interruptAll|]. intros _ s6 [[(I6 & T6 & S6 & V6 & L6) C6] R6] C6'.
  apply wp_bind, wp_get. eapply wp_mono; [apply fair_count_votes|done|].
  - by apply (roster_decided s).
  - by rewrite S6.
  - intros ? s' Hs' Hs. apply Hs'. clear Hs' Hstep. simpl in *. pose proof (u64_succ_gt _ Hmax) as Hgt.
    assert (calm s3 s6) as [_ Hcalm] by (do 2 (etransitivity; [eassumption|]); done).
    destruct (C6 (vi_conf _ Hs)) as [W6 _]. destruct H3 as [[_ W3] _]. destruct (W3 (vi_conf _ Hs)) as [Hw3 _].
    destruct (Hcalm Hw3) as [_ N6]. split; rewrite ?L6, ?I6, ?T6, ?V6, ?S6; try done; try apply Hs.
    + intros t c Hin. destruct (vi_given _ Hs t c Hin) as (Hle & Hc & _). split_and!; [lia|done|lia].
    + intros _. apply Hs.
    + intros _ v Hv. by destruct (Hno v (N6 v Hv)).
Qed.

(** The runs considered are those in which elections are among [members] and
    votes are honest: elsewhere a run gets stuck. *)
Definition members_decide (c : Configuration) : bool :=
  existsb (fun l => bool_decide (map (fun r => serverId (the_server c r)) l = members)) (deciding c).

Lemma members_decide_spec c : members_decide c = true -> decided_by_members c.
Proof.
  intros (l & Hl & Hm%bool_decide_eq_true)%existsb_exists. exists l. split; [by apply list_elem_of_In|done].
Qed.

(** The operation, where its final state satisfies [b]. *)
Definition provided {A} (b : A -> R -> bool) (m : M R A) : M R A := fun s =>
  match m s with
  | Ok (a, s') => if b a s' then Ok (a, s') else Fail Blocked
  | Fail f => Fail f
  end.

Lemma provided_run {A} b (m : M R A) s a s' : provided b m s = Ok (a, s') -> m s = Ok (a, s') /\ b a s' = true.
Proof. unfold provided. destruct (m s) as [[a1 s1]|f]; [|done]. destruct (b a1 s1) eqn:Hb; [|done]. by intros [= <- <-]. Qed.

(** One turn of the timer thread; a server without a configuration starts no
    election, and one whose term would wrap around has given up. *)
Definition timerThread_in_cluster : M R unit :=
  let! _ := provided (fun _ s => bool_decide (conf_id (configuration s) = 0) || members_decide (configuration s)) (ret tt) in
  timerThread_bounded opts clock randomRange.

Lemma fair_timerThread : keeps fair timerThread_in_cluster.
Proof.
  intros s. unfold timerThread_in_cluster, post. apply wp_bind. unfold provided, wp at 1. simpl.
  destruct (_ || _) eqn:Hg; [|done]. apply orb_prop in Hg.
  unfold timerThread_bounded, wp. destruct (Z.ltb_spec (currentTerm s) u64_max) as [Hmax|]; [|done].
  enough (post (timerThread_step opts clock randomRange) (fun _ s' => fair s s') s) as Hen by exact Hen.
  unfold timerThread_step. apply wp_bind. unfold now. apply wp_bind, wp_get, wp_bind, wp_put, wp_ret, wp_bind, wp_get.
  apply wp_when; intros _; [|by apply steady_fair, calm_steady, calm_same].
  eapply wp_mono; [apply fair_startNewElection; [done|]|done|].
  - intros Hne. destruct Hg as [?%bool_decide_eq_true|?%members_decide_spec]; done.
  - intros ? s' Hs'. etransitivity; [|exact Hs']. by apply steady_fair, calm_steady, calm_same.
Qed.

(** The answer to a request for votes, when it comes: a granted vote was given by
    the server that [r] stands for, and the configuration is that of the cluster. *)
Definition honest_answer (r : ServerRef) (q : RequestVote_Request) (answer : RPCStatus * RequestVote_Response) (s : R) : bool :=
  match answer with
  | (RPC_OK, response) =>
      negb (rvr_granted response) ||
      (members_decide (configuration s) &&
       match servers (configuration s) !! r with
       | Some srv => voted_for_self (serverId srv) (rv_term q)
       | None => true
       end)
  | _ => true
  end.

Definition requestVote_in_cluster (r : ServerRef) (send : RequestVote_Request -> M R (RPCStatus * RequestVote_Response)) : M R unit :=
  requestVote opts clock randomRange r (fun q => provided (honest_answer r q) (send q)).

(** [r]'s vote of term [t] may be counted. *)
Record countable (r : ServerRef) (t : Z) (s : R) : Prop := {
  co_inv : vote_inv s;
  co_decided : decided_by_members (configuration s);
  co_vote srv : servers (configuration s) !! r = Some srv -> voted_for_self (serverId srv) t = true
}.

Lemma countable_step r t s s' :
  calm s s' -> roster s s' ->
  (forall srv', servers (configuration s') !! r = Some srv' ->
     exists srv, servers (configuration s) !! r = Some srv /\ serverId srv' = serverId srv) ->
  countable r t s -> countable r t s'.
Proof.
  intros Hc Hr Hid [C1 C2 C3]. split.
  - exact (steady_fair _ _ (calm_steady _ _ Hc) C1).
  - exact (roster_decided _ _ Hr C2).
  - intros srv' Hs'. destruct (Hid srv' Hs') as (srv & Hs & ->). by apply C3.
Qed.

Lemma countable_update_peer r t f s :
  (forall p, haveVote_ (f p) = true -> haveVote_ p = true) -> countable r t s ->
  post (update_peer r f) (fun _ s' => countable r t s' /\ currentTerm s' = currentTerm s /\ state s' = state s) s.
Proof.
  intros Hf Hs. pose proof (calm_update_peer r f Hf s) as Hcalm.
  pose proof (roster_update_server r (on_peer f) (on_peer_id f) s) as Hroster. unfold update_peer in *.
  destruct (servers (configuration s) !! r) as [srv|] eqn:Hr;
    [|by unfold update_server; apply wp_bind, wp_get; rewrite Hr].
  eapply wp_mono; [apply wp_and; [exact Hcalm|apply wp_and; [exact Hroster|]]|done|].
  - apply (wp_update_server _ r _ srv) with (Q := fun _ s' => s' = set_server r (on_peer f srv) s); done.
  - intros ? s' (Hc & Hro & ->). split; [|done]. eapply countable_step; [exact Hc|exact Hro| |done].
    intros srv'. simpl. rewrite lookup_insert_eq. intros [= <-]. exists srv. split; [done|apply on_peer_id].
Qed.

(** Counting it. *)
Lemma countable_count_vote r s :
  countable r (currentTerm s) s ->
  post (update_peer r (fun p => p <| haveVote_ := true |>)) (fun _ s' =>
    countable r (currentTerm s') s' /\ state s' = state s) s.
Proof.
  intros [Hs Hd Hv]. unfold update_peer. destruct (servers (configuration s) !! r) as [srv|] eqn:Hr;
    [|by unfold update_server; apply wp_bind, wp_get; rewrite Hr].
  apply (wp_update_server _ r _ srv); [done|]. split; [|done]. specialize (Hv srv eq_refl).
  set (srv' := on_peer _ srv). assert (serverId srv' = serverId srv) as Hid by apply on_peer_id.
  assert (gcFlag srv' = gcFlag srv) as Hgc by (subst srv'; unfold on_peer; by destruct (kind srv)). split.
  - destruct Hs as [I1 I2 I3 I4 I5 I6 I7 I8]. split; try done; [by apply conf_wf_update with srv|].
    intros Hc v (r' & o & Hk & Ho & Hvote). simpl in *. apply lookup_insert_Some in Ho as [[<- <-]|[Hne Ho]].
    + destruct I2 as [Hwf _ _]. apply om_lookup_elem in Hk; [|apply Hwf].
      destruct (wf_known _ Hwf v r Hk) as (o & Ho & <-). congruence.
    + apply I6; [done|]. by exists r', o.
  - destruct Hd as (l & Hl & Hm). exists l. split; [done|]. rewrite <-Hm. apply map_ext. intros r'.
    simpl. by apply roster_update with srv.
  - intros o. simpl. rewrite lookup_insert_eq. intros [= <-]. by rewrite Hid.
Qed.

Lemma fair_requestVote r send :
  (forall q, keeps fair (send q)) -> keeps fair (requestVote_in_cluster r send).
Proof.
  intros Hsend. unfold requestVote_in_cluster, requestVote. do 3 (apply fair_bind; [fair_go|intros ?]).
  set (q := mkRequestVote_Request _ _ _ _). apply keeps_fair_intro. intros s Hs. apply wp_bind. unfold Peer_callRPC. apply wp_bind.
  pose proof (Hsend q s) as Hfair. unfold post, wp in Hfair. unfold wp at 1.
  destruct (provided _ _ s) as [[[status response] s1]|f] eqn:Hrun; [|done].
  apply provided_run in Hrun as [Hrun Hh]. rewrite Hrun in Hfair. specialize (Hfair Hs).
  assert (forall A (m : M R A) s2, vote_inv s2 -> keeps fair m -> wp (fun _ => True) m (fun _ s' => vote_inv s') s2) as Hrest.
  { intros A m s2 H2' Hm. apply (wp_keeps fair); [done|]. intros ? s' Hs'. auto. }
  destruct status; try done.
  2: { apply wp_bind, (wp_keeps fair); [fair_go|]. intros ? s2 Hs2. apply wp_ret, Hrest; [auto|fair_go]. }
  2: { apply wp_ret, Hrest; [done|fair_go]. }
  destruct (rvr_granted response) eqn:Hg.
  2: { apply wp_bind, (wp_keeps fair); [fair_go|]. intros ? s2 Hs2. apply wp_ret.
    apply Hrest; [auto|]. rewrite Hg. simpl when. fair_go. }
  unfold honest_answer in Hh. simpl in Hh. rewrite Hg in Hh. apply andb_prop in Hh as [Hd%members_decide_spec Hv].
  assert (countable r (rv_term q) s1) as C1 by (split; [done|done|intros srv Hsrv; by rewrite Hsrv in Hv]).
  apply wp_bind. eapply wp_mono; [by apply countable_update_peer|done|]. intros ? s2 (C2 & T2 & S2). apply wp_ret.
  apply wp_bind, wp_get, wp_bind. eapply wp_mono; [apply get_peer_pure|done|]. intros p ? ->.
  destruct (_ || _) eqn:Hcond; [by apply wp_ret; apply C2|].
  apply orb_false_iff in Hcond as [[Hterm%negb_false_iff%Z.eqb_eq Hcand%negb_false_iff%bool_decide_eq_true]%orb_false_iff _].
  destruct (_ <? _); [apply Hrest; [apply C2|fair_go]|].
  apply wp_bind. eapply wp_mono; [by apply countable_update_peer|done|]. intros ? s3 (C3 & T3 & S3).
  apply wp_bind, wp_modify. set (s4 := set_field _ s3).
  assert (countable r (currentTerm s4) s4) as C4.
  { simpl. rewrite T3, Hterm. apply (countable_step _ _ s3 s4); [by apply calm_same|done| |done]. intros srv Hsrv. by exists srv. }
  apply wp_when; [intros _|intros _; apply C4]. apply wp_bind. eapply wp_mono; [by apply countable_count_vote|done|]. intros ? s5 [C5 S5].
  apply wp_bind, wp_get. eapply wp_mono; [apply fair_count_votes|done|].
  - apply C5.
  - simpl in *. congruence.
  - intros ? s' Hs'. by apply Hs', C5.
Qed.

(** *** What goes into the ledger *)

(** The vote that an answer grants. *)
Definition record_vote (t c : Z) : M R unit :=
  modify (fun s => s <| log :=
    write_ledger (mkLedger ((t, c) :: given (ledger (log s))) (led (ledger (log s)))) (log s) |>).

Definition answer_and_record (q : RequestVote_Request) : M R RequestVote_Response :=
  let! response := handleRequestVote opts clock randomRange q in
  when (rvr_granted response) (record_vote (rv_term q) (rv_server_id q)) ;;;
  ret response.

(** A leader, and its vote for itself. *)
Definition record_leadership : M R unit :=
  let! s := get in
  when (state_is LEADER s) (
    record_vote (currentTerm s) (raft_serverId s) ;;;
    modify (fun s => s <| log :=
      write_ledger (mkLedger (given (ledger (log s))) (currentTerm s :: led (ledger (log s)))) (log s) |>)).

Lemma fair_record_vote t c s :
  c <> 0 -> t = currentTerm s -> votedFor s = c -> post (record_vote t c) (fun _ s' => fair s s') s.
Proof.
  intros Hc Ht Hv. apply wp_modify. intros [I1 I2 I3 I4 I5 I6 I7 I8]. split; simpl; rewrite ?ledger_write; simpl; try done.
  - intros t' c' [[= -> ->]|Hin]%elem_of_cons; [split_and!; [lia|done|done]|by apply I3].
  - assert (forall c', (t, c') ∈ given (ledger (log s)) -> c' = c) as Hold.
    { intros c' Hin. destruct (I3 t c' Hin) as (_ & _ & Hcur). rewrite <-Hv. symmetry. by apply Hcur. }
    intros t' c1 c2 [[= -> ->]|Hin1]%elem_of_cons [[= E2]|Hin2]%elem_of_cons; subst; try done.
    + symmetry. by apply Hold.
    + by apply Hold.
    + by apply (I4 t').
  - intros t' Hin. destruct (I8 t' Hin). split; [done|]. by apply list_elem_of_further.
Qed.

Lemma fair_answer q : rv_server_id q <> 0 -> keeps fair (answer_and_record q).
Proof.
  intros Hid s. unfold answer_and_record. apply wp_bind.
  eapply wp_mono; [apply wp_and; [apply (keeps_fair _ (steady_handleRequestVote q))|apply handleRequestVote_answer]|done|].
  intros response s1 [Hs1 Hg]. apply wp_bind. apply wp_when; [|intros _; by apply wp_ret].
  intros Htrue. destruct (Hg Htrue) as [Ht Hv]. eapply wp_mono; [by apply fair_record_vote|done|].
  intros ? s2 Hs2. apply wp_ret. by etransitivity.
Qed.

Lemma fair_record_leadership : self <> 0 -> keeps fair record_leadership.
Proof.
  intros Hself. apply keeps_fair_intro. intros s Hs. unfold record_leadership. apply wp_bind, wp_get, wp_when; [|done].
  intros Hlead%bool_decide_eq_true. assert (votedFor s = self) as Hv by (apply Hs; congruence).
  pose proof (vi_leader _ Hs Hlead) as Hwon. apply wp_bind.
  pose proof (fair_record_vote (currentTerm s) (raft_serverId s) s) as Hrec. unfold record_vote in *. rewrite (vi_id _ Hs) in *.
  specialize (Hrec Hself eq_refl Hv Hs). unfold wp in Hrec. simpl in Hrec. apply wp_modify. simpl in *.
  apply wp_modify. destruct Hrec as [I1 I2 I3 I4 I5 I6 I7 I8]. split; simpl in *; rewrite !ledger_write in *; simpl in *; try done.
  intros t [->|Hin]%elem_of_cons; [|by apply I8]. split; [done|]. apply list_elem_of_here.
Qed.
End Votes.
