(* ===== verification/ElectionSafety.v ===== *)
(** * At most one leader in a term

    The servers of a cluster, each with its life of operations and restarts on
    [Raft.v]'s state. What they owe one another is that an answer which grants a
    vote was given by the server it is from; from this, and from what each
    server does by itself, two servers never lead the same term. *)

From Stdlib Require Import ZArith Lia Ascii String.
From stdpp Require Import base gmap strings list fin_maps sorting.
From S2P Require Import Prelude OrderedMap StringUtil Stream SnapshotFile Consensus Log Configuration Raft RaftFrame RaftSpec RaftLog RaftConfig RaftDemo RaftVotes.
Local Open Scope string_scope.
Local Open Scope Z_scope.
Local Open Scope list_scope.

Section Server.
Context {L : Type} `{LogMetadataLaws L} `{!LedgerLog L} `{ProtoBuf Metadata_Header}.
Context (opts : RaftOptions) (clock : nat -> Z) (randomRange : nat -> Z -> Z -> Z).
Context (stagingNameAt : nat -> string).
Context (self : Z) (voted_for_self : Z -> Z -> bool) (members : list Z).

Abbreviation R := (RaftConsensus L).

(** ** The operations of a server of the cluster

    Those of [RaftSpec.operation], except that votes and leaderships go into the
    ledger, that the answers to [requestVote] are honest, and that elections are
    among [members]. *)
Inductive cluster_operation : forall A : Type, M R A -> Prop :=
| cl_ret A (a : A) : cluster_operation A (ret a)
| cl_bind A B (m : M R A) (k : A -> M R B) :
    cluster_operation A m -> (forall a, cluster_operation B (k a)) -> cluster_operation B (bind m k)
| cl_record_leadership : cluster_operation _ record_leadership
| cl_handleRequestVote q :
    rv_server_id q <> 0 -> cluster_operation _ (answer_and_record opts clock randomRange q)
| cl_handleAppendEntries q :
    ae_server_id q <> self -> cluster_operation _ (handleAppendEntries opts clock randomRange q)
| cl_handleInstallSnapshot q :
    is_server_id q <> self ->
    cluster_operation _ (handleInstallSnapshot opts clock randomRange stagingNameAt q)
| cl_requestVote r send :
    (forall q, cluster_operation _ (send q)) ->
    cluster_operation _ (requestVote_in_cluster opts clock randomRange voted_for_self members r send)
| cl_installSnapshot r send :
    (forall q, cluster_operation _ (send q)) -> cluster_operation _ (installSnapshot opts clock randomRange r send)
| cl_appendEntries entry_size request_size r send send_snapshot :
    (forall q, cluster_operation _ (send q)) -> (forall q, cluster_operation _ (send_snapshot q)) ->
    cluster_operation _ (appendEntries opts clock randomRange entry_size request_size send send_snapshot r)
| cl_getConfiguration sched :
    (forall env, env ∈ sched -> cluster_operation _ env) -> cluster_operation _ (getConfiguration clock sched)
| cl_getLastCommitIndex sched :
    (forall env, env ∈ sched -> cluster_operation _ env) -> cluster_operation _ (getLastCommitIndex clock sched)
| cl_getNextEntry i sched :
    (forall env, env ∈ sched -> cluster_operation _ env) ->
    cluster_operation _ (RaftConsensus_getNextEntry clock i sched)
| cl_replicate command sched :
    (forall env, env ∈ sched -> cluster_operation _ env) -> cluster_operation _ (replicate clock command sched)
| cl_setConfiguration q catch_up commit stable :
    (forall env, env ∈ catch_up ++ commit ++ stable -> cluster_operation _ env) ->
    cluster_operation _ (setConfiguration opts clock q catch_up commit stable)
| cl_setSupportedStateMachineVersions lo hi :
    cluster_operation _ (RaftConsensus_setSupportedStateMachineVersions lo hi)
| cl_beginSnapshot i : cluster_operation _ (RaftConsensus_beginSnapshot clock stagingNameAt i)
| cl_snapshotDone i w : cluster_operation _ (RaftConsensus_snapshotDone clock i w)
| cl_timerThread : cluster_operation _ (timerThread_in_cluster opts clock randomRange members)
| cl_leaderDiskThread env env' :
    cluster_operation _ env -> cluster_operation _ env' ->
    cluster_operation _ (leaderDiskThread_step opts clock randomRange env env')
| cl_peerThread r m1 m2 :
    cluster_operation _ m1 -> cluster_operation _ m2 -> cluster_operation _ (peerThread_step clock r m1 m2)
| cl_stepDownThread l : cluster_operation _ (stepDownThread_step opts clock randomRange l)
| cl_stateMachineUpdater advance_command u sched :
    (forall env, env ∈ sched -> cluster_operation _ env) ->
    cluster_operation _ (stateMachineUpdaterThread_step opts clock advance_command u sched)
| cl_bootstrap : cluster_operation _ (bootstrapConfiguration opts clock randomRange)
| cl_exit : cluster_operation _ RaftConsensus_exit.

Context (self_nonzero : self <> 0).

Lemma fair_operation A (m : M R A) :
  cluster_operation A m -> keeps (fair self voted_for_self members) m.
Proof.
  induction 1; try (apply keeps_fair;
    auto using steady_handleAppendEntries, steady_handleInstallSnapshot, steady_setSupported,
      steady_beginSnapshot, steady_snapshotDone, steady_stepDownThread, steady_bootstrap, steady_exit; fail).
  all: auto using fair_ret, fair_bind, fair_record_leadership, fair_answer, fair_requestVote, fair_installSnapshot,
    fair_appendEntries, fair_getConfiguration, fair_getLastCommitIndex, fair_getNextEntry, fair_setConfiguration,
    fair_timerThread, fair_leaderDiskThread, fair_peerThread, fair_stateMachineUpdater.
  by apply fair_replicateEntry.
Qed.

Lemma good_record_vote t c : keeps (good self) (record_vote t c).
Proof.
  apply good_modify. intros s. simpl.
  match goal with |- context [write_ledger ?g ?l] => destruct (write_ledger_metadata g l) end. split_and!; done || lia.
Qed.

Lemma good_record_leadership : keeps (good self) record_leadership.
Proof.
  unfold record_leadership. apply good_bind; [apply good_get|]. intros s. apply good_when, good_bind; [apply good_record_vote|].
  intros _. apply good_modify. intros s0. simpl.
  match goal with |- context [write_ledger ?g ?l] => destruct (write_ledger_metadata g l) end. split_and!; done || lia.
Qed.

Lemma good_answer q : rv_server_id q <> 0 -> keeps (good self) (answer_and_record opts clock randomRange q).
Proof.
  intros Hq. unfold answer_and_record. apply good_bind; [by apply good_handleRequestVote|]. intros response.
  apply good_bind; [apply good_when, good_record_vote|]. intros _. apply good_ret.
Qed.

Lemma good_provided {A} b (m : M R A) : keeps (good self) m -> keeps (good self) (provided b m).
Proof.
  intros Hm s. specialize (Hm s). unfold post, wp, provided in *. destruct (m s) as [[a s']|f]; [|done].
  by destruct (b a s').
Qed.

Lemma good_timerThread_in_cluster : keeps (good self) (timerThread_in_cluster opts clock randomRange members).
Proof. apply good_bind; [apply good_provided, good_ret|]. intros _. apply good_timerThread. Qed.

Lemma good_requestVote_in_cluster r send :
  (forall q, keeps (good self) (send q)) ->
  keeps (good self) (requestVote_in_cluster opts clock randomRange voted_for_self members r send).
Proof. intros Hsend. apply good_requestVote. intros q. by apply good_provided. Qed.

Lemma good_cluster_operation A (m : M R A) : cluster_operation A m -> keeps (good self) m.
Proof.
  induction 1; auto using good_ret, good_bind, good_handleAppendEntries, good_answer, good_record_leadership,
    good_handleInstallSnapshot, good_requestVote_in_cluster, good_installSnapshot, good_appendEntries,
    good_getConfiguration, good_getLastCommitIndex, good_getNextEntry, good_setConfiguration,
    good_setSupported, good_beginSnapshot, good_snapshotDone, good_timerThread_in_cluster,
    good_leaderDiskThread, good_peerThread, good_stepDownThread, good_stateMachineUpdater, good_bootstrap, good_exit.
  by apply good_replicateEntry.
Qed.

(** ** The life of a server, from an empty ledger on *)

Inductive life : R -> Prop :=
| life_start addrs l dir s :
    ledger l = mkLedger [] [] ->
    init opts clock randomRange (RaftConsensus_construct self addrs l dir) = Ok (tt, s) -> life s
| life_operation s A (m : M R A) a s' :
    life s -> cluster_operation A m -> m s = Ok (a, s') -> life s'
| life_restart s addrs l dir s' :
    life s -> metadata l = saved_metadata (log s) -> ledger l = ledger (log s) ->
    init opts clock randomRange (RaftConsensus_construct self addrs l dir) = Ok (tt, s') -> life s'.

Lemma conf_init_wf : conf_wf (Configuration_init self).
Proof.
  constructor; [|constructor..]. constructor; simpl.
  - apply om_sorted_cons. split; constructor.
  - intros id r. unfold known. simpl. case_decide as Hdec; [|done]. intros [= <-]. subst. by eexists.
  - eexists. split; [by rewrite lookup_singleton_eq|]. unfold known. simpl. by rewrite decide_True.
  - intros r srv [<- <-]%lookup_singleton_Some. by split.
Qed.

(** The configuration and the ledger of two successive states. *)
Definition sound (s s' : R) : Prop :=
  ledger (log s') = ledger (log s) /\ (conf_wf (configuration s) -> conf_wf (configuration s')).

Local Instance sound_preorder : PreOrder sound.
Proof. split; [by intros s|]. intros s1 s2 s3 [L1 C1] [L2 C2]. split; [congruence|auto]. Qed.

Lemma sound_steady {A} (m : M R A) : keeps steady m -> keeps sound m.
Proof. intros Hm s. eapply wp_mono; [apply Hm|done|]. intros ? s' []. by split. Qed.

Lemma sound_calm {A} (m : M R A) : keeps calm m -> keeps sound m.
Proof. intros Hm. by apply sound_steady, keeps_steady. Qed.

Lemma init_sound addrs l dir :
  post (init opts clock randomRange) (fun _ s' => ledger (log s') = ledger l /\ conf_wf (configuration s'))
    (RaftConsensus_construct self addrs l dir).
Proof.
  unfold init. apply wp_bind, wp_modify, wp_bind, wp_get. set (s0 := set_field _ _).
  eapply (wp_mono (fun _ => True) _ _ (fun _ s' => sound s0 s')); [|done|];
    [|intros ? s' [Hl Hc]; split; [done|apply Hc, conf_init_wf]].
  refine ((_ : keeps sound _) s0). generalize s0. clear s0. intros s0.
  assert (forall A B (m : M R A) (k : A -> M R B), keeps sound m -> (forall a, keeps sound (k a)) -> keeps sound (bind m k)) as Hbind
    by (intros; apply keeps_bind; [apply _|done..]).
  apply Hbind; [by apply sound_calm, calm_read_configurations; assumption|]. intros _.
  apply Hbind. { destruct (_ <=? _); [|by intros s; apply wp_ret]. apply Hbind; [by apply sound_calm, calm_log_entry; assumption|].
    intros e. by apply sound_calm, calm_newEpoch; assumption. }
  intros _. apply Hbind; [intros s; by apply wp_modify|]. intros _. apply Hbind; [by apply sound_calm, calm_updateLogMetadata; assumption|].
  intros _. apply Hbind; [by apply sound_calm, calm_readSnapshot; assumption|]. intros _. apply Hbind; [intros s; by apply wp_modify|].
  intros _. apply Hbind; [intros s; by apply wp_get|]. intros s. apply Hbind; [by apply sound_steady, steady_stepDown; assumption|].
  intros _. by apply sound_calm, calm_notify; assumption.
Qed.

(** A process that just started on a log whose ledger agrees with its metadata. *)
Lemma init_vote_inv addrs l dir s :
  init opts clock randomRange (RaftConsensus_construct self addrs l dir) = Ok (tt, s) ->
  (forall t c, (t, c) ∈ given (ledger l) -> t <= default 0 (meta_current_term (metadata l)) /\ c <> 0 /\
     (t = default 0 (meta_current_term (metadata l)) -> default 0 (meta_voted_for (metadata l)) = c)) ->
  (forall t c c', (t, c) ∈ given (ledger l) -> (t, c') ∈ given (ledger l) -> c = c') ->
  (forall t, t ∈ led (ledger l) -> won self voted_for_self members t /\ (t, self) ∈ given (ledger l)) ->
  core_inv self s /\ vote_inv self voted_for_self members s.
Proof.
  intros Hrun Hgiven Honce Hled.
  pose proof (proj1 (post_run _ _ _) (init_spec opts clock randomRange self addrs l dir) _ _ Hrun) as (Hs & Hf & _ & Ht & Hv).
  pose proof (proj1 (post_run _ _ _) (init_sound addrs l dir) _ _ Hrun) as [Hl Hc].
  split; [done|]. split; rewrite ?Hl, ?Ht, ?Hv; try done; try congruence. apply Hs.
Qed.

Lemma life_inv s : life s -> core_inv self s /\ vote_inv self voted_for_self members s.
Proof.
  induction 1 as [addrs l dir s Hl Hrun|s A m a s' _ [Hc Hv] Hop Hrun|s addrs l dir s' _ [Hc Hv] Hm Hl Hrun].
  - eapply init_vote_inv; [exact Hrun|rewrite Hl; simpl; set_solver..].
  - pose proof (good_cluster_operation A m Hop s) as Hgood. pose proof (fair_operation A m Hop s) as Hfair.
    unfold post, wp in *. rewrite Hrun in *. split; [by apply Hgood|by apply Hfair].
  - eapply init_vote_inv; [exact Hrun|..]; rewrite ?Hl, ?Hm, ?(inv_saved _ _ Hc); apply Hv.
Qed.

(** The terms a server led, at present or when it wrote it down. *)
Definition was_leader (s : R) (t : Z) : Prop :=
  t ∈ led (ledger (log s)) \/ (state s = LEADER /\ currentTerm s = t).

Lemma leader_won s t :
  life s -> was_leader s t ->
  won self voted_for_self members t /\ forall c, (t, c) ∈ given (ledger (log s)) -> c = self.
Proof.
  intros [_ Hv]%life_inv [Hled|[Hlead <-]].
  - destruct (vi_led _ _ _ _ Hv t Hled) as [Hwon Hself]. split; [done|]. intros c Hin. by apply (vi_once _ _ _ _ Hv t).
  - split; [by apply (vi_leader _ _ _ _ Hv)|]. intros c Hin.
    destruct (vi_given _ _ _ _ Hv _ _ Hin) as (_ & _ & Hcur). rewrite <-Hcur by done.
    apply (vi_self _ _ _ _ Hv). congruence.
Qed.
End Server.

(** ** The cluster *)

Section Cluster.
Context {L : Type} `{LogMetadataLaws L} `{!LedgerLog L} `{ProtoBuf Metadata_Header}.
Context (opts : Z -> RaftOptions) (clock : Z -> nat -> Z) (randomRange : Z -> nat -> Z -> Z -> Z).
Context (stagingNameAt : Z -> nat -> string).

(** Server [v] of the cluster [S] gave [i] its vote of term [t]. *)
Definition voted_for (S : Z -> RaftConsensus L) (i v t : Z) : bool :=
  bool_decide ((t, i) ∈ given (ledger (log (S v)))).

(** Each of [members] came to its state in [S] by a life of its own, in which the
    votes it was given are votes that the others gave. *)
Definition cluster_run (members : list Z) (S : Z -> RaftConsensus L) : Prop :=
  forall i, i ∈ members ->
    life (opts i) (clock i) (randomRange i) (stagingNameAt i) i (voted_for S i) members (S i).

(** C1: Election safety. However the servers of a cluster run, answer each other,
    crash and restart, at most one of them leads in any term. *)
Theorem election_safety members S i j t :
  members <> [] -> 0 ∉ members -> cluster_run members S ->
  i ∈ members -> j ∈ members -> was_leader (S i) t -> was_leader (S j) t -> i = j.
Proof.
  intros Hne Hnz Hrun Hi Hj Hlead_i Hlead_j.
  assert (forall k, k ∈ members -> k <> 0) as Hid by set_solver.
  destruct (leader_won _ _ _ _ _ _ _ (Hid i Hi) _ _ (Hrun i Hi) Hlead_i) as [Wi Vi].
  destruct (leader_won _ _ _ _ _ _ _ (Hid j Hj) _ _ (Hrun j Hj) Hlead_j) as [Wj Vj].
  unfold won in *. rewrite simple_quorumAll_count in Wi, Wj by done.
  destruct (majority_intersect _ _ _ Wi Wj) as (v & Hv & Vvi & Vvj).
  destruct (life_inv _ _ _ _ _ _ _ (Hid v Hv) _ (Hrun v Hv)) as [_ Hinv]. unfold voted_for in *.
  apply orb_prop in Vvi as [->%Z.eqb_eq|Vvi%bool_decide_eq_true]; apply orb_prop in Vvj as [Evj%Z.eqb_eq|Vvj%bool_decide_eq_true]; subst; try done.
  - symmetry. by apply Vi.
  - by apply Vj.
  - by apply (vi_once _ _ _ _ Hinv t).
Qed.
End Cluster.

(** ** A log with a ledger

    Any log, paired with a ledger its operations do not see. *)

Section Ledgered.
Context {L : Type} `{LogOps L}.

Definition beside {A} (m : M L A) : M (L * Ledger) A := zoom fst (fun l p => (l, p.2)) m.

#[export] Instance Ledgered_ops : LogOps (L * Ledger) := {|
  log_sync := log_sync;
  sync_lastIndex := sync_lastIndex;
  sync_wait y := beside (sync_wait y);
  append es := beside (append es);
  getEntry i p := getEntry i p.1;
  getLogStartIndex p := getLogStartIndex p.1;
  getLastLogIndex p := getLastLogIndex p.1;
  getSizeBytes p := getSizeBytes p.1;
  takeSync := beside takeSync;
  syncComplete y := beside (syncComplete y);
  truncatePrefix i := beside (truncatePrefix i);
  truncateSuffix i := beside (truncateSuffix i);
  updateMetadata := beside updateMetadata;
  metadata p := metadata p.1;
  set_metadata m p := (set_metadata m p.1, p.2);
  saved_metadata p := saved_metadata p.1
|}.

Lemma beside_ledger {A} (m : M L A) p : post (beside m) (fun _ p' => p'.2 = p.2) p.
Proof. apply wp_zoom. unfold wp. by destruct (m p.1) as [[]|]. Qed.

#[export] Instance Ledgered_ledger : LedgerLog (L * Ledger).
Proof.
  refine {| ledger := snd; write_ledger g p := (p.1, g) |}; try done; intros; apply beside_ledger.
Defined.

Lemma beside_metadata {A} (m : M L A) p :
  post m (fun _ => same_metadata p.1) p.1 -> post (beside m) (fun _ => same_metadata p) p.
Proof. intros Hm. apply wp_zoom. eapply wp_mono; [exact Hm|done|]. by intros a l Hl. Qed.

#[export] Instance Ledgered_metadata `{!LogMetadataLaws L} : LogMetadataLaws (L * Ledger).
Proof.
  split; intros.
  - apply beside_metadata, append_meta.
  - apply beside_metadata, truncatePrefix_meta.
  - apply beside_metadata, truncateSuffix_meta.
  - exact (beside_metadata takeSync l (takeSync_meta l.1)).
  - exact (beside_metadata (sync_wait (L:=L) s) l (sync_wait_meta l.1 s)).
  - exact (beside_metadata (syncComplete (L:=L) s) l (syncComplete_meta l.1 s)).
  - pose proof (updateMetadata_meta (L:=L) l.1) as Hm. unfold post, wp in *. simpl. unfold beside, zoom.
    by destruct (updateMetadata l.1) as [[]|].
  - apply (set_metadata_meta l.1).
Qed.
End Ledgered.

(** ** An election

    Server 1 is elected leader of term 2 with the vote of server 2; server 3
    starts only. *)
Module DemoElection.
#[local] Existing Instance DemoRaft.ops.
#[local] Existing Instance DemoRaft.metadata_laws.
#[local] Existing Instance DemoRaft.header_codec.
Import DemoRaft(clock, randomRange, stagingNameAt, opts, first_log).

Abbreviation R := (RaftConsensus (MemoryLog * Ledger)).

Definition final {A} (m : M R A) (s : R) : R := match m s with Ok (_, s') => s' | Fail _ => s end.
Definition result {A} (m : M R A) (s : R) : option A := match m s with Ok (a, _) => Some a | Fail _ => None end.

Lemma final_result {A} (m : M R A) s a : result m s = Some a -> m s = Ok (a, final m s).
Proof. unfold result, final. destruct (m s) as [[a' s']|f]; [by intros [= ->]|done]. Qed.

Definition fresh (id : Z) : R := RaftConsensus_construct id "a" (first_log, mkLedger [] []) ∅.
Definition started (id : Z) : R := final (init opts clock randomRange) (fresh id).

Definition request : RequestVote_Request := mkRequestVote_Request 1 2 1 1.
Definition yes : RequestVote_Response := mkRequestVote_Response 2 true (Some true).
Definition voter : R := final (answer_and_record opts clock randomRange request) (started 2).

Definition timer : M R unit := timerThread_in_cluster opts clock randomRange [1; 2; 3].
Definition candidate : R := final timer (started 1).

(** The answer of server 2 to the request it got, and of nobody else. *)
Definition send (q : RequestVote_Request) : M R (RPCStatus * RequestVote_Response) :=
  ret (if bool_decide (rv_term q = 2) then (RPC_OK, yes) else (RPC_CANCELED, yes)).
Definition election : M R unit :=
  requestVote_in_cluster opts clock randomRange (fun v t => (v =? 2) && (t =? 2)) [1; 2; 3] 1 send.
Definition elected : R := final election candidate.
Definition leader : R := final record_leadership elected.

Definition servers (id : Z) : R := if id =? 1 then leader else if id =? 2 then voter else started id.

Abbreviation lives i s :=
  (life opts clock randomRange stagingNameAt i (voted_for servers i) [1; 2; 3] s).

Lemma started_life i : result (init opts clock randomRange) (fresh i) = Some tt -> lives i (started i).
Proof. intros Hrun%final_result. exact (life_start _ _ _ _ _ _ _ "a" (first_log, mkLedger [] []) ∅ _ eq_refl Hrun). Qed.

Lemma run_life {A} (m : M R A) i s a s' :
  lives i s -> cluster_operation opts clock randomRange stagingNameAt i (voted_for servers i) [1; 2; 3] A m ->
  m s = Ok (a, s') -> lives i s'.
Proof. intros Hs Hm Hrun. by eapply life_operation. Qed.

Lemma candidate_life : lives 1 candidate.
Proof.
  apply (run_life timer 1 (started 1) tt); [by apply started_life; vm_compute|apply cl_timerThread|].
  unfold candidate. refine (final_result timer (started 1) tt _). by vm_compute.
Qed.

(** The vote that was counted is one that server 2 gave. *)
Lemma elected_life : lives 1 elected.
Proof.
  apply (run_life (requestVote_in_cluster opts clock randomRange (voted_for servers 1) [1; 2; 3] 1 send) 1 candidate tt).
  - apply candidate_life.
  - apply cl_requestVote. intros q. apply cl_ret.
  - vm_compute. reflexivity.
Qed.

Lemma leader_life : lives 1 leader.
Proof.
  apply (run_life record_leadership 1 elected tt); [apply elected_life|apply cl_record_leadership|].
  unfold leader. refine (final_result record_leadership elected tt _). by vm_compute.
Qed.

Lemma voter_life : lives 2 voter.
Proof.
  apply (run_life (answer_and_record opts clock randomRange request) 2 (started 2) yes).
  - by apply started_life; vm_compute.
  - by apply cl_handleRequestVote.
  - unfold voter. refine (final_result (answer_and_record opts clock randomRange request) (started 2) yes _). by vm_compute.
Qed.

Lemma servers_run :
  cluster_run (fun _ => opts) (fun _ => clock) (fun _ => randomRange) (fun _ => stagingNameAt) [1; 2; 3] servers.
Proof.
  intros i Hi. apply elem_of_cons in Hi as [->|Hi]; [exact leader_life|].
  apply elem_of_cons in Hi as [->|Hi]; [exact voter_life|].
  apply list_elem_of_singleton in Hi as ->. by apply started_life; vm_compute.
Qed.

(** Server 1 led term 2, and it leads now. *)
Lemma election_safety_witness : was_leader (servers 1) 2 /\ 1 = 1.
Proof.
  assert (was_leader (servers 1) 2) as Hlead by (right; split; vm_compute; reflexivity).
  split; [exact Hlead|].
  refine (election_safety (fun _ => opts) (fun _ => clock) (fun _ => randomRange) (fun _ => stagingNameAt)
    [1; 2; 3] servers 1 1 2 _ _ servers_run _ _ Hlead Hlead);
    [congruence|by apply (bool_decide_unpack _); vm_compute|by left|by left].
Defined.
End DemoElection.
