(* ===== verification/RaftInvariants.v ===== *)
(** * The run-time checks of the consensus module

    [Server/RaftConsensusInvariants.cc]: what the server checks of itself, in
    debug builds, whenever its mutex is locked or unlocked. The checks count
    errors; the theorems say that the ones about successive states never find
    any: a change of what threads wait for is always announced, so no wake-up
    is lost. *)

From Stdlib Require Import ZArith Lia Ascii String.
From stdpp Require Import base gmap strings list fin_maps sorting.
From S2P Require Import Prelude OrderedMap StringUtil Stream SnapshotFile Consensus Log Configuration Raft RaftFrame RaftSpec RaftDemo.
Local Open Scope string_scope.
Local Open Scope Z_scope.
Local Open Scope list_scope.

(** ** State *)

Record ConsensusSnapshot : Type := mkConsensusSnapshot {
  snap_stateChangedCount : Z;
  snap_exiting : bool;
  snap_numPeerThreads : Z;
  snap_lastLogIndex : Z;
  snap_lastLogTerm : Z;
  snap_configurationId : Z;
  snap_configurationState : ConfState;
  snap_currentTerm : Z;
  snap_state : State;
  snap_commitIndex : Z;
  snap_leaderId : Z;
  snap_votedFor : Z;
  snap_currentEpoch : Z;
  snap_startElectionAt : Z
}.

(** [clock_reads] counts the readings of the clock by the checks. *)
Record Invariants : Type := mkInvariants {
  errors : Z;
  previous : option ConsensusSnapshot;
  clock_reads : nat
}.

#[export] Instance Invariants_eta : Eta Invariants := fun v =>
  mkInvariants (errors v) (previous v) (clock_reads v).

Definition Invariants_init : Invariants := mkInvariants 0 None 0.

Section Checks.
Context {L : Type} `{LogOps L}.
Context (opts : RaftOptions) (clock : nat -> Z).

Abbreviation R := (RaftConsensus L).

(** ** The checks

    [s] is the consensus module, which the checks only read. *)

Definition expect (expr : bool) : M Invariants unit :=
  modify (fun v => if expr then v else v <| errors := u64 (errors v + 1) |>).

Definition check_now : M Invariants Z :=
  let! v := get in
  put (v <| clock_reads := S (clock_reads v) |>) ;;;
  ret (clock (clock_reads v)).

(** The term of the last entry, 0 for an empty log. *)
Definition snapshot_lastLogTerm (s : R) : outcome Z :=
  if getLogStartIndex (log s) <=? getLastLogIndex (log s) then
    match getEntry (getLastLogIndex (log s)) (log s) with
    | Ok e => Ok (term e)
    | Fail f => Fail f
    end
  else Ok 0.

Definition ConsensusSnapshot_of (s : R) : outcome ConsensusSnapshot :=
  match snapshot_lastLogTerm s with
  | Ok lastLogTerm => Ok (mkConsensusSnapshot (notificationCount s) (exiting s) (numPeerThreads s)
      (getLastLogIndex (log s)) lastLogTerm (conf_id (configuration s)) (conf_state (configuration s))
      (currentTerm s) (state s) (commitIndex s) (leaderId s) (votedFor s) (currentEpoch s) (startElectionAt s))
  | Fail f => Fail f
  end.

(** [getLogStartIndex()] to [getLastLogIndex()]. *)
Definition log_indexes (s : R) : list Z :=
  map (fun k => getLogStartIndex (log s) + Z.of_nat k)
    (seq 0 (Z.to_nat (getLastLogIndex (log s) - getLogStartIndex (log s) + 1))).

(** Log terms and cluster times increase; the last of each is returned. *)
Fixpoint check_entries (s : R) (indexes : list Z) (lastTerm lastClusterTime : Z) : M Invariants (Z * Z) :=
  match indexes with
  | [] => ret (lastTerm, lastClusterTime)
  | i :: indexes =>
      let! entry := lift (getEntry i (log s)) in
      expect (lastTerm <=? term entry) ;;;
      expect (lastClusterTime <=? cluster_time entry) ;;;
      check_entries s indexes (term entry) (cluster_time entry)
  end.

(** The loop from the last index down to the last configuration. *)
Fixpoint check_last_configuration (s : R) (indexes : list Z) : M Invariants bool :=
  match indexes with
  | [] => ret false
  | i :: indexes =>
      let! entry := lift (getEntry i (log s)) in
      if bool_decide (type entry = CONFIGURATION) then
        expect (conf_id (configuration s) =? i) ;;;
        expect (negb (bool_decide (conf_state (configuration s) = BLANK))) ;;;
        ret true
      else check_last_configuration s indexes
  end.

Definition check_description (s : R) (i : Z) : M Invariants unit :=
  let! entry := lift (getEntry i (log s)) in
  when (bool_decide (type entry = CONFIGURATION)) (
    let it := om_lookup (descriptions (configurationManager s)) i in
    expect (bool_decide (is_Some it)) ;;;
    match it with
    | Some d => expect (bool_decide (d = default Raft_Configuration_init (configuration_ entry)))
    | None => ret tt
    end).

Definition check_log (s : R) : M Invariants unit :=
  let! last := check_entries s (log_indexes s) 0 0 in
  let (lastTerm, lastClusterTime) := last : Z * Z in
  expect (lastTerm <=? currentTerm s) ;;;
  (if getLogStartIndex (log s) <=? getLastLogIndex (log s)
   then expect (lastClusterTime =? clusterTimeAtEpoch (clusterClock s))
   else expect (lastSnapshotClusterTime s =? clusterTimeAtEpoch (clusterClock s))).

Definition check_configuration (s : R) : M Invariants unit :=
  let! found := check_last_configuration s (rev (log_indexes s)) in
  when (negb found) (
    if getLogStartIndex (log s) =? 1 then
      expect (conf_id (configuration s) =? 0) ;;;
      expect (bool_decide (conf_state (configuration s) = BLANK))
    else expect (conf_id (configuration s) <=? lastSnapshotIndex s)) ;;;
  forM (log_indexes s) (check_description s) ;;;
  expect (forallb (fun p => p.1 <=? Z.max (getLastLogIndex (log s)) (lastSnapshotIndex s))
            (descriptions (configurationManager s))) ;;;
  when (bool_decide (conf_state (configuration s) = BLANK)) (
    expect (state_is FOLLOWER s) ;;;
    expect (getLastLogIndex (log s) =? 0)).

Definition check_commit (s : R) : M Invariants unit :=
  expect (lastSnapshotIndex s <=? commitIndex s) ;;;
  expect (commitIndex s <=? getLastLogIndex (log s)) ;;;
  expect (lastSnapshotIndex s <=? getLastLogIndex (log s)) ;;;
  assert_ (u64 (getLogStartIndex (log s) - 1) <=? getLastLogIndex (log s)) ;;;
  when (state_is LEADER s) (
    let majorityEntry := quorumMin (configuration s) Server_getMatchIndex in
    if (majorityEntry <=? commitIndex s) || (majorityEntry <? getLogStartIndex (log s)) then expect true
    else
      let! entry := lift (getEntry majorityEntry (log s)) in
      expect (negb (term entry =? currentTerm s))).

Definition check_leader (s : R) : M Invariants unit :=
  when (state_is LEADER s) (expect (leaderId s =? raft_serverId s)) ;;;
  when (state_is LEADER s) (expect (votedFor s =? raft_serverId s)).

Definition check_timer (s : R) : M Invariants unit :=
  if state_is LEADER s then expect (startElectionAt s =? TimePoint_max)
  else
    expect (TimePoint_min <? startElectionAt s) ;;;
    let! t := check_now in
    expect (startElectionAt s <=? i64 (t + ELECTION_TIMEOUT opts * 2)).

Definition check_metadata (s : R) : M Invariants unit :=
  expect (default 0 (meta_current_term (metadata (log s))) =? currentTerm s) ;;;
  expect (default 0 (meta_voted_for (metadata (log s))) =? votedFor s).

Definition checkBasic (s : R) : M Invariants unit :=
  check_log s ;;; check_configuration s ;;; check_commit s ;;; check_leader s ;;; check_timer s ;;;
  check_metadata s.

(** Within a term. *)
Definition check_same_term (previous current : ConsensusSnapshot) : M Invariants unit :=
  when (snap_currentTerm previous =? snap_currentTerm current) (
    when (negb (snap_leaderId previous =? 0)) (expect (snap_leaderId previous =? snap_leaderId current)) ;;;
    when (negb (snap_votedFor previous =? 0)) (expect (snap_votedFor previous =? snap_votedFor current)) ;;;
    when (bool_decide (snap_state previous = LEADER)) (expect (bool_decide (snap_state current = LEADER)))).

Definition check_monotonic (previous current : ConsensusSnapshot) : M Invariants unit :=
  when (snap_exiting previous) (expect (snap_exiting current)) ;;;
  expect (snap_currentTerm previous <=? snap_currentTerm current) ;;;
  expect (snap_commitIndex previous <=? snap_commitIndex current) ;;;
  expect (snap_currentEpoch previous <=? snap_currentEpoch current).

(** A change requires a notification of the condition variable. *)
Definition check_notified (previous current : ConsensusSnapshot) : M Invariants unit :=
  when (snap_stateChangedCount previous =? snap_stateChangedCount current) (
    expect (snap_currentTerm previous =? snap_currentTerm current) ;;;
    expect (bool_decide (snap_state previous = snap_state current)) ;;;
    expect (snap_lastLogIndex previous =? snap_lastLogIndex current) ;;;
    expect (snap_lastLogTerm previous =? snap_lastLogTerm current) ;;;
    expect (snap_commitIndex previous =? snap_commitIndex current) ;;;
    expect (Bool.eqb (snap_exiting previous) (snap_exiting current)) ;;;
    expect (snap_numPeerThreads previous <=? snap_numPeerThreads current) ;;;
    expect (snap_configurationId previous =? snap_configurationId current) ;;;
    expect (bool_decide (snap_configurationState previous = snap_configurationState current)) ;;;
    expect (snap_startElectionAt previous =? snap_startElectionAt current)).

Definition checkDelta (s : R) : M Invariants unit :=
  let! v := get in
  let! current := lift (ConsensusSnapshot_of s) in
  match previous v with
  | None => ret tt
  | Some previous =>
      check_same_term previous current ;;;
      check_monotonic previous current ;;;
      check_notified previous current
  end ;;;
  modify (fun v => v <| previous := Some current |>).

Definition checkPeer (s : R) (r : ServerRef) : M Invariants unit :=
  match kind (the_server (configuration s) r) with
  | LocalServer _ => ret tt
  | PeerServer peer =>
      when (exiting s) (expect (peer_exiting peer)) ;;;
      when (negb (requestVoteDone peer)) (expect (negb (haveVote_ peer))) ;;;
      expect (matchIndex peer <=? getLastLogIndex (log s)) ;;;
      expect (lastAckEpoch peer <=? currentEpoch s) ;;;
      let! t := check_now in
      expect (nextHeartbeatTime peer <=? i64 (t + HEARTBEAT_PERIOD opts)) ;;;
      let! t := check_now in
      expect (backoffUntil peer <=? i64 (t + RPC_FAILURE_BACKOFF opts))
  end.

Definition checkPeerBasic (s : R) : M Invariants unit :=
  forM (map snd (knownServers (configuration s))) (checkPeer s).

Definition checkPeerDelta (s : R) : M Invariants unit := ret tt.

Definition checkAll (s : R) : M Invariants unit :=
  checkBasic s ;;; checkDelta s ;;; checkPeerBasic s ;;; checkPeerDelta s.
End Checks.

(** ** No change goes unannounced *)

Section Notified.
Context {L : Type} `{LogViewLaws L} `{ProtoBuf Metadata_Header}.
Context (opts : RaftOptions) (clock : nat -> Z) (randomRange : nat -> Z -> Z -> Z).
Context (stagingNameAt : nat -> string).

Abbreviation R := (RaftConsensus L).

(** What the waiting threads look at is the same. *)
Definition seen (s s' : R) : Prop :=
  currentTerm s' = currentTerm s /\ state s' = state s /\ commitIndex s' = commitIndex s /\
  exiting s' = exiting s /\ numPeerThreads s' = numPeerThreads s /\ startElectionAt s' = startElectionAt s /\
  conf_id (configuration s') = conf_id (configuration s) /\
  conf_state (configuration s') = conf_state (configuration s) /\ same_view (log s) (log s').

#[local] Instance seen_preorder : PreOrder seen.
Proof.
  split; [by intros s|]. intros s1 s2 s3. unfold seen. intros; destruct_and!.
  split_and!; try congruence. by etransitivity.
Qed.

(** Changes, if any, and how many notifications. *)
Definition mono (s s' : R) : Prop := notificationCount s <= notificationCount s'.
Definition loud (s s' : R) : Prop := notificationCount s < notificationCount s'.
Definition told (s s' : R) : Prop := mono s s' /\ (notificationCount s' = notificationCount s -> seen s s').

#[local] Instance mono_preorder : PreOrder mono.
Proof. split; unfold mono; [intros s|intros s1 s2 s3]; lia. Qed.

#[local] Instance told_preorder : PreOrder told.
Proof.
  split; [by intros s; split|]. unfold told, mono. intros s1 s2 s3 [M1 S1] [M2 S2]. split; [lia|].
  intros Heq. etransitivity; [apply S1|apply S2]; lia.
Qed.

Lemma loud_told s s' : loud s s' -> told s s'.
Proof. unfold loud, told, mono. split; lia. Qed.

Lemma seen_told s s' : notificationCount s' = notificationCount s -> seen s s' -> told s s'.
Proof. unfold told, mono. intros. split; [lia|done]. Qed.

Lemma told_lift {A} (o : outcome A) : keeps told (lift o).
Proof. intros s. apply wp_lift. by destruct o. Qed.

Create HintDb told.
Create HintDb loud.
Create HintDb mono.

Ltac count_facts :=
  repeat match goal with
  | Hs : told _ _ |- _ => destruct Hs as [Hs _]; unfold mono in Hs; simpl in Hs
  | Hs : mono _ _ |- _ => unfold mono in Hs; simpl in Hs
  | Hs : loud _ _ |- _ => unfold loud in Hs; simpl in Hs
  | |- context [if ?b then _ else _] => destruct b
  | Hs : context [if ?b then _ else _] |- _ => destruct b
  end.

Ltac told_same := apply seen_told; [done|unfold seen; simpl; split_and!; done].
Ltac told_chain :=
  first [ reflexivity | assumption | told_same
        | match goal with
          | |- told _ (if ?b then _ else _) => destruct b; told_chain
          | Hs : told ?x ?z |- told _ ?z => is_var z; transitivity x; [clear Hs; told_chain|exact Hs]
          | Hs : loud ?x ?z |- told _ ?z => is_var z; transitivity x; [clear Hs; told_chain|by apply loud_told]
          | |- told _ (set_field _ ?y) => transitivity y; [told_chain|told_same]
          end ].
Ltac count_close := count_facts; unfold mono, loud; simpl; count_facts; simpl in *; lia.
Ltac told_close :=
  lazymatch goal with
  | |- told _ _ => first [solve [told_chain] | solve [apply loud_told; count_close]]
  | |- _ => count_close
  end.

Ltac told_step :=
  first
    [ apply (wp_keeps loud); [solve [auto 2 with loud]|intros ? ? ?]
    | apply (wp_keeps told); [by apply told_lift|intros ? ? ?]
    | wp_step; try exact I
    | apply (wp_keeps told); [solve [auto with told]|intros ? ? ?]
    | apply (wp_keeps mono); [solve [auto with mono]|intros ? ? ?] ].
Ltac told_go := intros ?; repeat told_step; try told_close.

Lemma told_loud_mono {A} (m : M R A) : keeps loud m -> keeps mono m.
Proof. intros Hm s. eapply wp_mono; [apply Hm|done|]. unfold loud, mono. lia. Qed.
Lemma told_mono {A} (m : M R A) : keeps told m -> keeps mono m.
Proof. intros Hm s. eapply wp_mono; [apply Hm|done|]. by intros ? ? []. Qed.
#[local] Hint Extern 2 (keeps mono _) => apply told_mono; solve [auto with told] : mono.
#[local] Hint Extern 2 (keeps mono _) => apply told_loud_mono; solve [auto with loud] : mono.

Lemma told_assert b : keeps told (assert_ b).
Proof. intros s. apply wp_assert; [done|]. intros _. reflexivity. Qed.
Lemma told_modify f : (forall s, told s (f s)) -> keeps told (modify f).
Proof. intros Hf s. apply wp_modify, Hf. Qed.
Lemma told_now : keeps told (now clock).
Proof. intros s. unfold now. repeat wp_step. told_same. Qed.
Lemma loud_notify : keeps loud notify_all.
Proof. intros s. apply wp_modify. unfold loud. simpl. lia. Qed.
Lemma told_log_entry i : keeps told (log_entry i).
Proof. intros s. unfold log_entry. repeat wp_step. destruct (getEntry i (log s)); [reflexivity|done]. Qed.
Lemma told_update_server r f : keeps told (update_server r f).
Proof. intros s. unfold update_server. repeat wp_step; told_same. Qed.
Lemma told_set_manager f : keeps told (set_manager f).
Proof. apply told_modify. intros s. told_same. Qed.
Lemma mono_set_conf f : keeps mono (set_conf f).
Proof. intros s. apply wp_modify. by unfold mono. Qed.
Lemma mono_on_log {A} (m : M L A) : keeps mono (on_log m).
Proof. intros s. apply wp_zoom. unfold wp. destruct (m (log s)) as [[]|]; by unfold mono. Qed.
Lemma told_on_log {A} (m : M L A) :
  (forall l, post m (fun _ => same_view l) l) -> keeps told (on_log m).
Proof.
  intros Hm s. apply wp_zoom. eapply wp_mono; [apply Hm|done|]. intros a l Hl.
  apply seen_told; [done|]. unfold seen. simpl. split_and!; done.
Qed.
#[local] Hint Resolve told_assert told_lift told_now told_log_entry told_update_server told_set_manager : told.
#[local] Hint Resolve loud_notify : loud.
#[local] Hint Resolve mono_set_conf mono_on_log : mono.
#[local] Hint Extern 1 (keeps told (on_log _)) =>
  apply told_on_log; intros;
  first [apply takeSync_view | apply sync_wait_view | apply syncComplete_view | apply updateMetadata_view] : told.
#[local] Hint Extern 1 (keeps told (modify _)) => apply told_modify; intros; told_same : told.
Lemma told_forM {A} (l : list A) (f : A -> M R unit) : (forall a, keeps told (f a)) -> keeps told (forM l f).
Proof. apply keeps_forM; apply _. Qed.
Lemma mono_forM {A} (l : list A) (f : A -> M R unit) : (forall a, keeps mono (f a)) -> keeps mono (forM l f).
Proof. apply keeps_forM; apply _. Qed.
#[local] Hint Resolve told_forM : told.
#[local] Hint Resolve mono_forM : mono.
Lemma told_forEach f : keeps told (forEach f).
Proof. unfold forEach. told_go. Qed.
#[local] Hint Resolve told_forEach : told.
Lemma loud_interruptAll : keeps loud interruptAll.
Proof. unfold interruptAll. told_go. Qed.
Lemma loud_setElectionTimer : keeps loud (setElectionTimer opts clock randomRange).
Proof. unfold setElectionTimer. told_go. Qed.
#[local] Hint Resolve loud_interruptAll loud_setElectionTimer : loud.

Lemma mono_getServer id : keeps mono (getServer clock id).
Proof. unfold getServer. told_go. Qed.
#[local] Hint Resolve mono_getServer : mono.
Lemma mono_add_old srv : keeps mono (add_old_server clock srv).
Proof. unfold add_old_server. told_go. Qed.
Lemma mono_add_new srv : keeps mono (add_new_server clock srv).
Proof. unfold add_new_server. told_go. Qed.
Lemma mono_collect : keeps mono collect_servers.
Proof. intros s. unfold collect_servers. apply wp_bind, wp_get. apply mono_forM. intros p. told_go. Qed.
#[local] Hint Resolve mono_add_old mono_add_new mono_collect : mono.
Lemma mono_conf_setConfiguration id d : keeps mono (Configuration_setConfiguration clock id d).
Proof. unfold Configuration_setConfiguration. told_go. Qed.
Lemma mono_conf_reset : keeps mono Configuration_reset.
Proof. unfold Configuration_reset. told_go. Qed.
#[local] Hint Resolve mono_conf_setConfiguration mono_conf_reset : mono.
Lemma mono_resetStaging : keeps mono (resetStagingServers clock).
Proof. unfold resetStagingServers. told_go. Qed.
Lemma mono_setStaging l : keeps mono (setStagingServers clock l).
Proof. unfold setStagingServers. told_go. Qed.
Lemma mono_restoreInvariants : keeps mono (restoreInvariants clock).
Proof. unfold restoreInvariants. told_go. Qed.
#[local] Hint Resolve mono_resetStaging mono_setStaging mono_restoreInvariants : mono.
Lemma mono_manager_add i d : keeps mono (ConfigurationManager_add clock i d).
Proof. unfold ConfigurationManager_add. told_go. Qed.
Lemma mono_manager_prefix i : keeps mono (ConfigurationManager_truncatePrefix clock i).
Proof. unfold ConfigurationManager_truncatePrefix. told_go. Qed.
Lemma mono_manager_suffix i : keeps mono (ConfigurationManager_truncateSuffix clock i).
Proof. unfold ConfigurationManager_truncateSuffix. told_go. Qed.
Lemma mono_manager_snapshot i d : keeps mono (ConfigurationManager_setSnapshot clock i d).
Proof. unfold ConfigurationManager_setSnapshot. told_go. Qed.
#[local] Hint Resolve mono_manager_add mono_manager_prefix mono_manager_suffix mono_manager_snapshot : mono.

(** *** Helpers *)

Lemma told_newEpoch t : keeps told (newEpoch clock t).
Proof. unfold newEpoch. told_go. Qed.
Lemma told_leaderStamp : keeps told (leaderStamp clock).
Proof. unfold leaderStamp. told_go. Qed.
Lemma told_sync_now : keeps told sync_now.
Proof. unfold sync_now. told_go. Qed.
#[local] Hint Resolve told_newEpoch told_leaderStamp told_sync_now : told.
Lemma told_queue_or_sync : keeps told queue_or_sync.
Proof. unfold queue_or_sync. told_go. Qed.
Lemma told_updateLogMetadata : keeps told updateLogMetadata.
Proof.
  unfold updateLogMetadata. intros s. apply wp_bind, wp_modify. apply (wp_keeps told); [auto with told|].
  intros ? s' Hs'. etransitivity; [|exact Hs']. apply seen_told; [done|]. unfold seen. simpl. split_and!; try done.
  apply set_metadata_view.
Qed.
Lemma mono_add_configurations i l : keeps mono (add_configurations clock i l).
Proof. revert i. induction l as [|e l IH]; intros i; simpl; told_go. Qed.
#[local] Hint Resolve told_queue_or_sync told_updateLogMetadata : told.
#[local] Hint Resolve mono_add_configurations : mono.
Lemma loud_append l : keeps loud (RaftConsensus_append clock l).
Proof. unfold RaftConsensus_append. told_go. Qed.
#[local] Hint Resolve loud_append : loud.
Lemma told_discard_writer : keeps told discard_writer.
Proof. unfold discard_writer. told_go. Qed.
#[local] Hint Resolve told_discard_writer : told.
Lemma loud_stepDown t : keeps loud (stepDown opts clock randomRange t).
Proof. unfold stepDown. told_go. Qed.
#[local] Hint Resolve loud_stepDown : loud.
Lemma told_advanceCommitIndex : keeps told (advanceCommitIndex opts clock randomRange).
Proof. unfold advanceCommitIndex. told_go. Qed.
Lemma loud_becomeLeader : keeps loud (becomeLeader clock).
Proof. unfold becomeLeader. told_go. Qed.
#[local] Hint Resolve told_advanceCommitIndex : told.
#[local] Hint Resolve loud_becomeLeader : loud.
Lemma loud_startNewElection : keeps loud (startNewElection opts clock randomRange).
Proof. unfold startNewElection. told_go. Qed.
Lemma told_discardUnneeded : keeps told (discardUnneededEntries clock).
Proof. unfold discardUnneededEntries. told_go. Qed.
Lemma told_getLastLogTerm : keeps told getLastLogTerm.
Proof. unfold getLastLogTerm. told_go. Qed.
Lemma told_with_dir {A} w (m : M Writer A) : keeps told (with_dir w m).
Proof. unfold with_dir. told_go. Qed.
Lemma told_new_Writer : keeps told (new_Writer clock stagingNameAt).
Proof. unfold new_Writer. told_go. Qed.
Lemma loud_heard : keeps loud (heard_from_leader opts clock randomRange).
Proof. unfold heard_from_leader. told_go. Qed.
#[local] Hint Resolve loud_startNewElection loud_heard : loud.
#[local] Hint Resolve told_discardUnneeded told_getLastLogTerm told_with_dir told_new_Writer : told.
Lemma told_log_disagrees : keeps told log_disagrees.
Proof. unfold log_disagrees. told_go. Qed.
Lemma told_update_peer r f : keeps told (update_peer r f).
Proof. apply told_update_server. Qed.
Lemma told_get_peer r : keeps told (get_peer r).
Proof. unfold get_peer. told_go. Qed.
#[local] Hint Resolve told_log_disagrees told_update_peer told_get_peer : told.
Lemma told_call_failed r t : keeps told (call_failed opts r t).
Proof. unfold call_failed. auto with told. Qed.
Lemma told_update_catch_up r : keeps told (update_catch_up opts clock r).
Proof. unfold update_catch_up. told_go. Qed.
#[local] Hint Resolve told_call_failed told_update_catch_up : told.
Lemma told_record_capabilities r cap : keeps told (record_capabilities r cap).
Proof. unfold record_capabilities. told_go. Qed.
Lemma told_record_leader id : keeps told (record_leader id).
Proof. unfold record_leader. told_go. Qed.
Lemma told_check_types l : keeps told (check_types l).
Proof. unfold check_types. apply told_forM. intros e. told_go. Qed.
#[local] Hint Resolve told_record_capabilities told_record_leader told_check_types : told.
Lemma told_append_loop i es : keeps told (append_loop clock i es).
Proof. revert i. induction es as [|e es IH]; intros i; simpl; told_go. Qed.
Lemma told_prev_entry_agrees r : keeps told (prev_entry_agrees r).
Proof. unfold prev_entry_agrees. told_go. Qed.
Lemma mono_discard_log : keeps mono (discard_log clock).
Proof. unfold discard_log. told_go. Qed.
#[local] Hint Resolve told_append_loop told_prev_entry_agrees : told.
#[local] Hint Resolve mono_discard_log : mono.
Lemma loud_load_header rd : keeps loud (load_header clock rd).
Proof. unfold load_header. told_go. Qed.
#[local] Hint Resolve loud_load_header : loud.
Lemma told_readSnapshot : keeps told (readSnapshot clock).
Proof. unfold readSnapshot. told_go. Qed.
Lemma told_the_writer : keeps told (the_writer clock stagingNameAt).
Proof. unfold the_writer. told_go. Qed.
Lemma told_scheduleHeartbeats : keeps told (scheduleHeartbeats clock).
Proof. intros s. unfold scheduleHeartbeats. apply wp_bind, wp_get. apply told_forM. intros r. told_go. Qed.
Lemma told_upToDate_commitTerm : keeps told upToDate_commitTerm.
Proof. unfold upToDate_commitTerm. told_go. Qed.
Lemma told_snapshot_term_and_time i : keeps told (snapshot_term_and_time i).
Proof. unfold snapshot_term_and_time. told_go. Qed.
#[local] Hint Resolve told_readSnapshot told_the_writer told_scheduleHeartbeats told_upToDate_commitTerm told_snapshot_term_and_time : told.
Lemma told_committed_entry i : keeps told (committed_entry clock i).
Proof. unfold committed_entry. told_go. Qed.
Lemma told_packEntries_loop entry_size request_size n i packed size :
  keeps told (packEntries_loop opts entry_size request_size n i packed size).
Proof. revert i packed size. induction n as [|n IH]; intros; simpl; told_go. Qed.
Lemma told_process_append_response r q i : keeps told (process_append_response opts clock randomRange r q i).
Proof. unfold process_append_response. told_go. Qed.
#[local] Hint Resolve told_committed_entry told_packEntries_loop told_process_append_response : told.

(** *** Operations *)

Lemma told_handleAppendEntries q : keeps told (handleAppendEntries opts clock randomRange q).
Proof. unfold handleAppendEntries. told_go. Qed.
Lemma told_handleInstallSnapshot q : keeps told (handleInstallSnapshot opts clock randomRange stagingNameAt q).
Proof. unfold handleInstallSnapshot. told_go. Qed.
Lemma told_handleRequestVote q : keeps told (handleRequestVote opts clock randomRange q).
Proof. unfold handleRequestVote. told_go. Qed.
Lemma told_setSupported lo hi : keeps told (RaftConsensus_setSupportedStateMachineVersions lo hi).
Proof. unfold RaftConsensus_setSupportedStateMachineVersions. told_go. Qed.
Lemma told_beginSnapshot i : keeps told (RaftConsensus_beginSnapshot clock stagingNameAt i).
Proof. unfold RaftConsensus_beginSnapshot. told_go. Qed.
Lemma told_stepDownThread l : keeps told (stepDownThread_step opts clock randomRange l).
Proof. unfold stepDownThread_step. told_go. Qed.
Lemma told_exit : keeps told RaftConsensus_exit.
Proof. unfold RaftConsensus_exit. told_go. Qed.
Lemma told_bootstrap : keeps told (bootstrapConfiguration opts clock randomRange).
Proof. unfold bootstrapConfiguration. told_go. Qed.
Lemma told_timerThread : keeps told (timerThread_bounded opts clock randomRange).
Proof.
  intros s. unfold timerThread_bounded, post, wp. destruct (_ <? _); [|done].
  assert (keeps told (timerThread_step opts clock randomRange)) as Hstep by (unfold timerThread_step; told_go).
  exact (Hstep s).
Qed.

Lemma loud_discardUnneeded s :
  getLogStartIndex (log s) <= lastSnapshotIndex s ->
  post (discardUnneededEntries clock) (fun _ s' => loud s s') s.
Proof.
  intros Hle. unfold discardUnneededEntries. apply wp_bind, wp_get, wp_when; [|rewrite Z.leb_gt; lia]. intros _.
  repeat told_step. told_close.
Qed.

Lemma told_snapshotDone i w : keeps told (RaftConsensus_snapshotDone clock i w).
Proof.
  intros s. unfold RaftConsensus_snapshotDone. apply wp_bind, wp_get. destruct (_ <=? _).
  { repeat told_step; told_close. }
  apply wp_bind, wp_assert; [done|]. intros Hstart%Z.leb_le. apply wp_bind, wp_assert; [done|]. intros _.
  apply wp_bind. eapply wp_mono; [apply wp_and; [apply (told_with_dir w Writer_save)|apply frame_with_dir]|done|].
  intros [size w'] s1 [T1 F1]. apply wp_bind.
  eapply wp_mono; [apply wp_and; [apply (told_log_entry i)|apply frame_log_entry]|done|]. intros e s2 [T2 F2].
  apply wp_bind, wp_modify, wp_bind. set (s3 := set_field _ _).
  eapply (wp_mono _ _ _ (fun _ s4 => mono s3 s4 /\ frame s3 s4)); [|done|].
  - apply wp_when; intros _; [|split; [reflexivity|apply frame_refl]].
    apply wp_and; [apply mono_manager_snapshot|]. refine ((_ : keeps frame _) s3). auto with frame.
  - intros ? s4 [M4 F4]. eapply wp_mono; [apply loud_discardUnneeded|done|].
    + assert (log s4 = log s) as ->; [|assert (lastSnapshotIndex s4 = i) as ->; [|done]];
        unfold frame in *; destruct_and!; subst s3; simpl in *; congruence.
    + intros ? s5 L5. simpl in L5. subst s3. told_close.
Qed.

(** *** Operations that wait *)

Lemma told_bind {A B} (m : M R A) (k : A -> M R B) :
  keeps told m -> (forall a, keeps told (k a)) -> keeps told (bind m k).
Proof. apply keeps_bind; apply _. Qed.
Lemma told_ret {A} (a : A) : keeps told (ret a).
Proof. apply keeps_ret; apply _. Qed.

Definition told_others (sched : list (M R unit)) : Prop := forall env, env ∈ sched -> keeps told env.

Lemma told_others_cons env sched : told_others (env :: sched) -> keeps told env /\ told_others sched.
Proof. intros Henv. split; [apply Henv, list_elem_of_here|]. intros e He. by apply Henv, list_elem_of_further. Qed.

Lemma told_upToDateLeader_loop epoch sched : told_others sched -> keeps told (upToDateLeader_loop epoch sched).
Proof. induction sched as [|env sched IH]; [|intros [? ?%IH]%told_others_cons]; intros; simpl; told_go. Qed.
#[local] Hint Resolve told_upToDateLeader_loop : told.

Lemma told_upToDateLeader sched : told_others sched -> keeps told (upToDateLeader clock sched).
Proof. intros Hs. unfold upToDateLeader. told_go. Qed.
#[local] Hint Resolve told_upToDateLeader : told.

Lemma told_getConfiguration sched : told_others sched -> keeps told (getConfiguration clock sched).
Proof. intros Hs. unfold getConfiguration. told_go. Qed.

Lemma told_getLastCommitIndex sched : told_others sched -> keeps told (getLastCommitIndex clock sched).
Proof. intros Hs. unfold getLastCommitIndex. told_go. Qed.

Lemma told_getNextEntry i sched : told_others sched -> keeps told (RaftConsensus_getNextEntry clock i sched).
Proof. induction sched as [|env sched IH]; [|intros [? ?%IH]%told_others_cons]; intros; simpl; told_go. Qed.

Lemma told_wait_committed t i sched : told_others sched -> keeps told (wait_committed t i sched).
Proof. induction sched as [|env sched IH]; [|intros [? ?%IH]%told_others_cons]; intros; simpl; told_go. Qed.
#[local] Hint Resolve told_wait_committed : told.

Lemma told_replicateEntry e sched : told_others sched -> keeps told (replicateEntry clock e sched).
Proof. intros Hs. unfold replicateEntry. told_go. Qed.
#[local] Hint Resolve told_replicateEntry : told.

Lemma told_wait_caught_up t epoch at_ sched :
  told_others sched -> keeps told (wait_caught_up opts clock t epoch at_ sched).
Proof.
  revert epoch at_. induction sched as [|env sched IH]; [|intros epoch at_ [Henv Hs]%told_others_cons];
    intros; simpl; told_go.
Qed.

Lemma told_wait_stable t i sched : told_others sched -> keeps told (wait_stable t i sched).
Proof. induction sched as [|env sched IH]; [|intros [? ?%IH]%told_others_cons]; intros; simpl; told_go. Qed.
#[local] Hint Resolve told_wait_caught_up told_wait_stable : told.

Lemma told_setConfiguration q catch_up commit stable :
  told_others (catch_up ++ commit ++ stable) -> keeps told (setConfiguration opts clock q catch_up commit stable).
Proof.
  intros Henv. assert (told_others catch_up) by (intros ? ?; apply Henv, elem_of_app; by left).
  assert (told_others commit) by (intros ? ?; apply Henv, elem_of_app; right; apply elem_of_app; by left).
  assert (told_others stable) by (intros ? ?; apply Henv, elem_of_app; right; apply elem_of_app; by right).
  unfold setConfiguration. told_go.
Qed.

Lemma told_stateMachineUpdater advance_command u sched :
  told_others sched -> keeps told (stateMachineUpdaterThread_step opts clock advance_command u sched).
Proof. intros Hs. unfold stateMachineUpdaterThread_step. told_go. Qed.

Lemma told_leaderDiskThread env env' :
  keeps told env -> keeps told env' -> keeps told (leaderDiskThread_step opts clock randomRange env env').
Proof. intros. unfold leaderDiskThread_step. told_go. Qed.

Lemma told_peerThread r m1 m2 : keeps told m1 -> keeps told m2 -> keeps told (peerThread_step clock r m1 m2).
Proof. intros. unfold peerThread_step. told_go. Qed.

Lemma told_Peer_callRPC {Resp} r (reply : M R (RPCStatus * Resp)) : keeps told reply -> keeps told (Peer_callRPC r reply).
Proof. intros. unfold Peer_callRPC. told_go. Qed.
#[local] Hint Resolve told_Peer_callRPC : told.

Lemma told_requestVote r send : (forall q, keeps told (send q)) -> keeps told (requestVote opts clock randomRange r send).
Proof. intros. unfold requestVote. told_go. Qed.

Lemma told_installSnapshot r send :
  (forall q, keeps told (send q)) -> keeps told (installSnapshot opts clock randomRange r send).
Proof. intros. unfold installSnapshot. told_go. Qed.

Lemma told_appendEntries entry_size request_size r send send_snapshot :
  (forall q, keeps told (send q)) -> (forall q, keeps told (send_snapshot q)) ->
  keeps told (appendEntries opts clock randomRange entry_size request_size send send_snapshot r).
Proof.
  intros Hsend Hsnap. pose proof (told_installSnapshot r send_snapshot Hsnap).
  unfold appendEntries, prev_log_term, packEntries. told_go.
Qed.

(** *** The checks of successive states *)

Lemma told_operation self A (m : M R A) :
  operation opts clock randomRange stagingNameAt self A m -> keeps told m.
Proof.
  induction 1; auto using told_ret, told_bind, told_handleRequestVote, told_handleAppendEntries,
    told_handleInstallSnapshot, told_requestVote, told_installSnapshot, told_appendEntries,
    told_getConfiguration, told_getLastCommitIndex, told_getNextEntry, told_setConfiguration,
    told_setSupported, told_beginSnapshot, told_snapshotDone, told_timerThread,
    told_leaderDiskThread, told_peerThread, told_stepDownThread, told_stateMachineUpdater, told_bootstrap, told_exit.
  by apply told_replicateEntry.
Qed.

(** A check that finds nothing. *)
Definition silent (m : M Invariants unit) : Prop := forall v, m v = Ok (tt, v).

Lemma silent_expect b : b = true -> silent (expect b).
Proof. by intros ->. Qed.

Lemma silent_when b m : (b = true -> silent m) -> silent (when b m).
Proof. destruct b; [by intros Hm; apply Hm|done]. Qed.

Lemma silent_bind m m' : silent m -> silent m' -> silent (m ;;; m').
Proof. intros Hm Hm' v. unfold bind. rewrite Hm. apply Hm'. Qed.

(** Takes checks apart; [expect] is left. *)
Ltac silent_go :=
  repeat match goal with
    | |- silent (_ ;;; _) => apply silent_bind
    | |- silent (when _ _) => apply silent_when; intros
    | |- silent (expect _) => apply silent_expect
    end.

Lemma snapshot_fields (s : R) p : ConsensusSnapshot_of s = Ok p ->
  exists t, snapshot_lastLogTerm s = Ok t /\
    p = mkConsensusSnapshot (notificationCount s) (exiting s) (numPeerThreads s) (getLastLogIndex (log s)) t
      (conf_id (configuration s)) (conf_state (configuration s)) (currentTerm s) (state s) (commitIndex s)
      (leaderId s) (votedFor s) (currentEpoch s) (startElectionAt s).
Proof. unfold ConsensusSnapshot_of. destruct (snapshot_lastLogTerm s) as [t|]; [|done]. intros [= <-]. eauto. Qed.

Lemma check_same_term_silent (s s' : R) p p' :
  ConsensusSnapshot_of s = Ok p -> ConsensusSnapshot_of s' = Ok p' -> delta s s' -> silent (check_same_term p p').
Proof.
  intros (t & _ & ->)%snapshot_fields (t' & _ & ->)%snapshot_fields Hd. unfold check_same_term. simpl.
  apply silent_when. intros Heq%Z.eqb_eq. destruct (delta_same_term _ _ Hd) as (Hl & Hv & Hs); [done|].
  silent_go.
  - apply Z.eqb_eq. symmetry. apply Hl. by destruct (Z.eqb_spec (leaderId s) 0).
  - apply Z.eqb_eq. symmetry. apply Hv. by destruct (Z.eqb_spec (votedFor s) 0).
  - apply bool_decide_eq_true, Hs. by eapply bool_decide_eq_true.
Qed.

Lemma seen_snapshot (s s' : R) : seen s s' -> snapshot_lastLogTerm s' = snapshot_lastLogTerm s.
Proof.
  unfold seen, same_view, snapshot_lastLogTerm. intros (_ & _ & _ & _ & _ & _ & _ & _ & Hstart & Hlast & He).
  by rewrite Hstart, Hlast, He.
Qed.

Lemma check_notified_silent (s s' : R) p p' :
  ConsensusSnapshot_of s = Ok p -> ConsensusSnapshot_of s' = Ok p' -> told s s' -> silent (check_notified p p').
Proof.
  intros (t & Ht & ->)%snapshot_fields (t' & Ht' & ->)%snapshot_fields [_ Htold]. unfold check_notified. simpl.
  apply silent_when. intros Heq%Z.eqb_eq. symmetry in Heq. specialize (Htold Heq).
  rewrite (seen_snapshot _ _ Htold), Ht in Ht'. injection Ht' as <-.
  destruct Htold as (-> & -> & -> & -> & -> & -> & -> & -> & _ & -> & _). silent_go;
    rewrite ?Z.eqb_refl, ?Z.leb_refl, ?eqb_reflx, ?bool_decide_eq_true_2; done.
Qed.

Lemma check_monotonic_run (s s' : R) p p' v :
  ConsensusSnapshot_of s = Ok p -> ConsensusSnapshot_of s' = Ok p' -> delta s s' ->
  check_monotonic p p' v = expect (currentEpoch s <=? currentEpoch s') v.
Proof.
  intros (t & _ & ->)%snapshot_fields (t' & _ & ->)%snapshot_fields Hd. unfold check_monotonic. simpl.
  pose proof (delta_exiting _ _ Hd) as Hx. pose proof (delta_term _ _ Hd). pose proof (delta_commit _ _ Hd).
  unfold bind. rewrite (silent_when _ _ (fun Hb => silent_expect _ (Hx Hb))).
  by rewrite (silent_expect (currentTerm s <=? currentTerm s')), (silent_expect (commitIndex s <=? commitIndex s')) by (by apply Z.leb_le).
Qed.

Lemma check_leader_silent self (s : R) : core_inv self s -> silent (check_leader s).
Proof.
  intros [_ Hlead _ _ _]. unfold check_leader. silent_go; apply Z.eqb_eq, Hlead; by eapply bool_decide_eq_true.
Qed.

Lemma check_metadata_silent self (s : R) : core_inv self s -> silent (check_metadata s).
Proof. intros [_ _ _ Hm _]. unfold check_metadata. rewrite Hm. silent_go; apply Z.eqb_refl. Qed.
End Notified.

Section Successive.
Context {L : Type} `{LogMetadataLaws L} `{!LogViewLaws L} `{ProtoBuf Metadata_Header}.
Context (opts : RaftOptions) (clock : nat -> Z) (randomRange : nat -> Z -> Z -> Z).
Context (stagingNameAt : nat -> string) (self : Z) (self_nonzero : self <> 0).

Abbreviation R := (RaftConsensus L).

(** C15: The run-time checks of successive states find nothing. When a check saw a
    state with the mutex free and operations then ran, in any order and
    interleaving, the next check finds that within the term the leader and the
    vote did not change and a leader stayed one, that terms and commit index did
    not decrease, and that each change of what threads wait for came with a
    notification, so that no wake-up is lost; the one error it can count is an
    epoch that wrapped around. The checks of leadership and metadata are silent. *)
Theorem checks_find_nothing A (m : M R A) s a s' seen_before v v' :
  operation opts clock randomRange stagingNameAt self A m -> core_inv self s -> m s = Ok (a, s') ->
  ConsensusSnapshot_of s = Ok seen_before -> previous v = Some seen_before ->
  checkDelta s' v = Ok (tt, v') ->
  errors v' = (if currentEpoch s <=? currentEpoch s' then errors v else u64 (errors v + 1)) /\
  check_leader s' v' = Ok (tt, v') /\ check_metadata s' v' = Ok (tt, v').
Proof.
  intros Hop Hs Hrun Hsnap Hprev Hcheck.
  pose proof (good_operation opts clock randomRange stagingNameAt self self_nonzero true A m Hop s) as Hgood.
  pose proof (told_operation opts clock randomRange stagingNameAt self A m Hop s) as Htold.
  unfold post, wp in Hgood, Htold. rewrite Hrun in Hgood, Htold. destruct (Hgood Hs) as [Hs' Hd].
  split; [|split; [by eapply check_leader_silent|by eapply check_metadata_silent]].
  revert Hcheck. unfold checkDelta, bind, get, lift, modify. destruct (ConsensusSnapshot_of s') as [p'|] eqn:Hp'; [|done].
  rewrite Hprev, (check_same_term_silent s s' seen_before p' Hsnap Hp' Hd), (check_monotonic_run s s' seen_before p' v Hsnap Hp' Hd).
  unfold expect, modify. rewrite (check_notified_silent s s' seen_before p' Hsnap Hp' Htold).
  intros [= <-]. by destruct (_ <=? _).
Qed.
End Successive.

(** ** Runs *)

Module DemoChecks.
Import DemoRaft.
#[local] Instance view_laws : LogViewLaws MemoryLog := MemoryLog_view_laws (fun _ => 0).

Definition checks_clock (n : nat) : Z := 100000000000.

(** The server of [RaftDemo.v] passes all checks as it starts, becomes a
    candidate and is elected. *)
Definition checked (states : list R) : option Z :=
  match forM states (checkAll opts checks_clock) Invariants_init with
  | Ok (_, v) => Some (errors v)
  | Fail _ => None
  end.

Example a_run_passes : checked [started; candidate; elected] = Some 0.
Proof. vm_compute. reflexivity. Qed.

(** A new term that nobody is told of is found. *)
Example a_silent_change_is_found :
  checked [started; started <| currentTerm := 7 |>] = Some 2.
Proof. vm_compute. reflexivity. Qed.

Definition seen_started : ConsensusSnapshot :=
  match ConsensusSnapshot_of started with Ok p => p | Fail _ => mkConsensusSnapshot 0 false 0 0 0 0 BLANK 0 FOLLOWER 0 0 0 0 0 end.
Definition before : Invariants := mkInvariants 0 (Some seen_started) 0.
Definition after : Invariants :=
  match checkDelta candidate before with Ok (_, v) => v | Fail _ => Invariants_init end.

Lemma checks_find_nothing_witness :
  errors after = 0 /\ check_leader candidate after = Ok (tt, after) /\ check_metadata candidate after = Ok (tt, after).
Proof.
  assert (ConsensusSnapshot_of started = Ok seen_started) as Hseen by (vm_compute; reflexivity).
  assert (checkDelta candidate before = Ok (tt, after)) as Hcheck by (vm_compute; reflexivity).
  exact (checks_find_nothing opts clock randomRange stagingNameAt 1 ltac:(congruence) unit timer started tt candidate
    seen_started before after (op_timerThread opts clock randomRange stagingNameAt 1 true) started_inv candidate_run
    Hseen eq_refl Hcheck).
Defined.
End DemoChecks.
