(* ===== verification/Client.v ===== *)
(** * The client library

    [Client/ClientImpl.cc]. The object below the public [Cluster] and [Tree]
    classes: it makes paths canonical, numbers the read-write requests of its
    session ([ExactlyOnceRPCHelper]) and repackages the answers. The leader is
    reached through the interface [LeaderRPCBase], which [LeaderRPC] and
    [MockClient] implement.

    Each method is an operation on the client and on what is outside of it, of
    type [E]: the leader, the network and the clock. *)

From Stdlib Require Import ZArith Lia Ascii String.
From stdpp Require Import base gmap strings list fin_maps sorting.
From S2P Require Import Prelude StringUtil Printf Log ClientProto Tree TreeSpec TreeRPC StateMachine.
Local Open Scope string_scope.
Local Open Scope Z_scope.
Local Open Scope list_scope.

(** ** Results: [include/LogCabin/Client.h] *)

Inductive C_Status : Type :=
| C_OK
| C_INVALID_ARGUMENT
| C_LOOKUP_ERROR
| C_TYPE_ERROR
| C_CONDITION_NOT_MET
| C_TIMEOUT.

#[export] Instance C_Status_eq_dec : EqDecision C_Status.
Proof. solve_decision. Defined.

Record C_Result : Type := mkC_Result { c_status : C_Status; c_error : string }.
Definition C_Result_init : C_Result := mkC_Result C_OK "".

(** [typedef std::pair<std::string, std::string> Condition] *)
Definition Condition : Type := string * string.

Inductive GetConfigurationStatus : Type := GC_OK | GC_TIMEOUT.
Record GetConfigurationResult : Type := mkGetConfigurationResult {
  gcr_status : GetConfigurationStatus;
  gcr_configuration : Z;
  gcr_servers : list Raft_Server;
  gcr_error : string
}.
Definition GetConfigurationResult_init : GetConfigurationResult :=
  mkGetConfigurationResult GC_OK 0 [] "".

Inductive ConfigurationStatus : Type := CR_OK | CR_CHANGED | CR_BAD | CR_TIMEOUT.
Record ConfigurationResult : Type := mkConfigurationResult {
  cr_status : ConfigurationStatus;
  cr_badServers : list Raft_Server;
  cr_error : string
}.
Definition ConfigurationResult_init : ConfigurationResult := mkConfigurationResult CR_OK [] "".

(** ** The interface to the leader *)

(** [Protocol::Client::OpCode], but for the one no server implements. The
    first two and the configuration's are sent to the leader. *)
Inductive OpCode : Type :=
| STATE_MACHINE_QUERY
| STATE_MACHINE_COMMAND
| VERIFY_RECIPIENT
| GET_CONFIGURATION
| SET_CONFIGURATION
| GET_SERVER_INFO.

Definition OpRequest (o : OpCode) : Type :=
  match o with
  | STATE_MACHINE_QUERY => Query_Request
  | STATE_MACHINE_COMMAND => Command_Request
  | VERIFY_RECIPIENT => VerifyRecipient_Request
  | GET_CONFIGURATION => unit
  | SET_CONFIGURATION => SetConfiguration_Request
  | GET_SERVER_INFO => unit
  end.

Definition OpResponse (o : OpCode) : Type :=
  match o with
  | STATE_MACHINE_QUERY => Query_Response
  | STATE_MACHINE_COMMAND => Command_Response
  | VERIFY_RECIPIENT => VerifyRecipient_Response
  | GET_CONFIGURATION => GetConfiguration_Response
  | SET_CONFIGURATION => SetConfiguration_Response
  | GET_SERVER_INFO => Raft_Server
  end.

(** [LeaderRPCBase::Status] and [LeaderRPCBase::Call::Status]: the response is
    filled in exactly if the status is [OK]. *)
Inductive RPCStatus (R : Type) : Type := RPC_OK (response : R) | RPC_TIMEOUT | RPC_INVALID_REQUEST.
Arguments RPC_OK {R} response.
Arguments RPC_TIMEOUT {R}.
Arguments RPC_INVALID_REQUEST {R}.

Inductive CallStatus (R : Type) : Type :=
| Call_OK (response : R)
| Call_RETRY
| Call_TIMEOUT
| Call_INVALID_REQUEST.
Arguments Call_OK {R} response.
Arguments Call_RETRY {R}.
Arguments Call_TIMEOUT {R}.
Arguments Call_INVALID_REQUEST {R}.

Class SteadyClock (E : Type) := Clock_now : M E Z.

(** [makeCall] and [Call::start] are one step, as they are used. *)
Class LeaderRPCBase (E : Type) := {
  LeaderCall : Type;
  leader_call : forall o : OpCode, OpRequest o -> Z -> M E (RPCStatus (OpResponse o));
  startCall : Command_Request -> Z -> M E LeaderCall;
  waitCall : LeaderCall -> Z -> M E (CallStatus Command_Response);
  cancelCall : LeaderCall -> M E unit
}.

(** ** Helpers of the anonymous name space *)

(** [status()] of a message that does not set it is the first value of the
    enumeration, [UNKNOWN], which is 10. *)
Definition treeError (response_status : option PC_Status) (response_error : option string) :
    outcome C_Result :=
  let error := default "" response_error in
  match default PC_UNKNOWN response_status with
  | PC_OK => Ok (mkC_Result C_OK error)
  | PC_INVALID_ARGUMENT => Ok (mkC_Result C_INVALID_ARGUMENT error)
  | PC_LOOKUP_ERROR => Ok (mkC_Result C_LOOKUP_ERROR error)
  | PC_TYPE_ERROR => Ok (mkC_Result C_TYPE_ERROR error)
  | PC_CONDITION_NOT_MET => Ok (mkC_Result C_CONDITION_NOT_MET error)
  | PC_TIMEOUT => Ok (mkC_Result C_TIMEOUT error)
  | PC_SESSION_EXPIRED => Fail Panicked
  | PC_UNKNOWN => Ok (mkC_Result C_INVALID_ARGUMENT
      ("Did not understand status code in response (10). Original error was: " +:+ c_str error))
  end.

Definition setCondition (condition : Condition) : option TreeCondition :=
  if string_empty condition.1 then None else Some (mkTreeCondition condition.1 condition.2).

(** The loop over the characters of [path]; [word] is the component being read. *)
Fixpoint split (path : string) (word : string) (components : list string) : list string :=
  match path with
  | EmptyString => if string_empty word then components else components ++ [word]
  | String c path' =>
      if Ascii.eqb c "/"%char then
        if string_empty word then split path' word components
        else split path' "" (components ++ [word])
      else split path' (word +:+ String c "") components
  end.

(** ** Paths *)

(** How the loop that irons out ["."] and [".."] ends. *)
Inductive ironed : Type :=
| Ironed (components : list string)
| AboveRoot
| OutOfFuel.

(** [components.erase(first, last)] *)
Definition erase (components : list string) (first last : nat) : list string :=
  take first components ++ drop last components.

(** [while (i < components.size())]. Every turn takes a component away or
    moves [i] past one, so that [components.size()] turns are enough:
    [ClientSpec.iron_out_resolves]. *)
Fixpoint iron_out (fuel : nat) (i : nat) (components : list string) : ironed :=
  match components !! i with
  | None => Ironed components
  | Some c =>
      match fuel with
      | O => OutOfFuel
      | S fuel' =>
          if decide (c = "..") then
            if decide (0 < i)%nat then iron_out fuel' (i - 1) (erase components (i - 1) (i + 1))
            else AboveRoot
          else if decide (c = ".") then iron_out fuel' i (erase components i (i + 1))
          else iron_out fuel' (S i) components
      end
  end.

Definition is_absolute (path : string) : bool := startsWith path "/".

(** The result and the out parameter [canonical]. *)
Definition canonicalize (path workingDirectory : string) : outcome (C_Result * string) :=
  let relative := negb (string_empty path) && negb (is_absolute path) in
  if relative && (string_empty workingDirectory || negb (is_absolute workingDirectory)) then
    Ok (mkC_Result C_INVALID_ARGUMENT
          ("Can't use relative path '" +:+ c_str path +:+ "' from working directory '" +:+
           c_str workingDirectory +:+ "' (working directory should be an absolute path)"), "")
  else
    let components := if relative then split workingDirectory "" [] else [] in
    let components := split path "" components in
    match iron_out (length components) 0 components with
    | Ironed [] => Ok (C_Result_init, "/")
    | Ironed l => Ok (C_Result_init, fold_left (fun canonical c => canonical +:+ ("/" +:+ c)) l "")
    | AboveRoot =>
        Ok (mkC_Result C_INVALID_ARGUMENT
              ("Path '" +:+ c_str path +:+ "' from working directory '" +:+ c_str workingDirectory +:+
               "' attempts to look up directory above root ('/')"), "")
    | OutOfFuel => Fail Blocked
    end.

(** ** State *)

(** [Call] is the type of the RPC objects of the leader's implementation;
    [keepAliveThread] says whether the thread has been started. The two
    durations are in milliseconds. *)
Record ExactlyOnceRPCHelper (Call : Type) : Type := mkExactlyOnceRPCHelper {
  outstandingRPCNumbers : gset Z;
  clientId : Z;
  nextRPCNumber : Z;
  exiting : bool;
  lastKeepAliveStart : Z;
  keepAliveInterval : Z;
  sessionCloseTimeout : Z;
  keepAliveCall : option Call;
  keepAliveThread : bool
}.
Arguments mkExactlyOnceRPCHelper {Call}.
Arguments outstandingRPCNumbers {Call}.
Arguments clientId {Call}.
Arguments nextRPCNumber {Call}.
Arguments exiting {Call}.
Arguments lastKeepAliveStart {Call}.
Arguments keepAliveInterval {Call}.
Arguments sessionCloseTimeout {Call}.
Arguments keepAliveCall {Call}.
Arguments keepAliveThread {Call}.
#[export] Instance ExactlyOnceRPCHelper_eta Call : Eta (ExactlyOnceRPCHelper Call) := fun h =>
  mkExactlyOnceRPCHelper (outstandingRPCNumbers h) (clientId h) (nextRPCNumber h) (exiting h)
    (lastKeepAliveStart h) (keepAliveInterval h) (sessionCloseTimeout h) (keepAliveCall h)
    (keepAliveThread h).

(** The constructor; the close timeout comes from the client's options. *)
Definition ExactlyOnceRPCHelper_init {Call} (closeTimeout : Z) : ExactlyOnceRPCHelper Call :=
  mkExactlyOnceRPCHelper ∅ 0 1 false TimePoint_min (60 * 1000) closeTimeout None false.

(** [*numbers.begin()] of a [std::set] that is not empty. *)
Definition set_begin (numbers : gset Z) : outcome Z :=
  match elements numbers with
  | [] => Fail UndefinedBehavior
  | x :: l => Ok (fold_right Z.min x l)
  end.

Record ClientImpl (Call E : Type) : Type := mkClientImpl {
  exactlyOnceRPCHelper : ExactlyOnceRPCHelper Call;
  outside : E
}.
Arguments mkClientImpl {Call E}.
Arguments exactlyOnceRPCHelper {Call E}.
Arguments outside {Call E}.
#[export] Instance ClientImpl_eta Call E : Eta (ClientImpl Call E) := fun c =>
  mkClientImpl (exactlyOnceRPCHelper c) (outside c).

(** ** The session *)

Section Client.
Context {E : Type} `{LeaderRPCBase E, SteadyClock E}.

Definition Client : Type := ClientImpl LeaderCall E.

Definition on_leader {A} (m : M E A) : M Client A :=
  zoom outside (fun e (c : Client) => c <| outside := e |>) m.

Definition on_helper (f : ExactlyOnceRPCHelper LeaderCall -> ExactlyOnceRPCHelper LeaderCall) :
    M Client unit :=
  modify (fun c => c <| exactlyOnceRPCHelper := f (exactlyOnceRPCHelper c) |>).

Definition helper : M Client (ExactlyOnceRPCHelper LeaderCall) := gets exactlyOnceRPCHelper.

Definition now : M Client Z := on_leader Clock_now.

Definition open_session_request : Command_Request := mkCommand_Request (Some tt) None None None.
Definition close_session_request (clientId : Z) : Command_Request :=
  mkCommand_Request None (Some clientId) None None.
Definition tree_request (t : ReadWriteTree_Request) : Command_Request :=
  mkCommand_Request None None (Some t) None.

(** The request that opens the session; [false]: the timeout elapsed. *)
Definition openSession (timeout : Z) : M Client bool :=
  let! t := now in
  on_helper (fun h => h <| lastKeepAliveStart := t |>) ;;;
  let! status := on_leader (leader_call STATE_MACHINE_COMMAND open_session_request timeout) in
  match status with
  | RPC_OK response =>
      let id := default 0 (resp_open_session response) in
      on_helper (fun h => h <| clientId := id |>) ;;;
      assert_ (0 <? id) ;;;
      on_helper (fun h => h <| keepAliveThread := true |>) ;;;
      ret true
  | RPC_TIMEOUT => ret false
  | RPC_INVALID_REQUEST => fail Panicked
  end.

(** The rest of [getRPCInfo], with a session. *)
Definition numberRPC : M Client ExactlyOnceRPCInfo :=
  let! t := now in
  on_helper (fun h => h <| lastKeepAliveStart := t |>) ;;;
  let! h := helper in
  let rpcNumber := nextRPCNumber h in
  on_helper (fun h => h <| nextRPCNumber := u64 (nextRPCNumber h + 1) |>
                        <| outstandingRPCNumbers := {[rpcNumber]} ∪ outstandingRPCNumbers h |>) ;;;
  let! h := helper in
  let! first := lift (set_begin (outstandingRPCNumbers h)) in
  ret (mkExactlyOnceRPCInfo (clientId h) first rpcNumber).

Definition getRPCInfo (timeout : Z) : M Client ExactlyOnceRPCInfo :=
  let! h := helper in
  let! opened := (if clientId h =? 0 then openSession timeout else ret true) in
  if opened then numberRPC else ret (mkExactlyOnceRPCInfo 0 0 0).

Definition doneWithRPC (rpcInfo : ExactlyOnceRPCInfo) : M Client unit :=
  on_helper (fun h => h <| outstandingRPCNumbers := outstandingRPCNumbers h ∖ {[rpc_number rpcInfo]} |>).

(** The destructor's part: whatever the answer to the request to close the
    session, the thread is joined. *)
Definition exit : M Client unit :=
  on_helper (fun h => h <| exiting := true |>) ;;;
  let! h := helper in
  match keepAliveCall h with
  | Some call => on_leader (cancelCall call)
  | None => ret tt
  end ;;;
  when (0 <? clientId h) (
    let! t := now in
    let! _ := on_leader (leader_call STATE_MACHINE_COMMAND (close_session_request (clientId h))
                           (i64 (t + sessionCloseTimeout h * 1000000))) in
    ret tt).

(** ** The keep-alive thread *)

Definition keepalive_request (rpcInfo : ExactlyOnceRPCInfo) : ReadWriteTree_Request :=
  mkReadWriteTree_Request rpcInfo
    (setCondition ("keepalive", "this is just a no-op to keep the client's session active; the condition is expected to fail"))
    None None (Some ("keepalive", "you shouldn't see this!")) None.

Definition nextKeepAlive (h : ExactlyOnceRPCHelper LeaderCall) : Z :=
  if 0 <? keepAliveInterval h then i64 (lastKeepAliveStart h + keepAliveInterval h * 1000000)
  else TimePoint_max.

(** One turn of the loop of [keepAliveThreadMain]: [false] when it is over.
    While the RPC runs the mutex is free, and the other threads do [during];
    when there is nothing to send yet, the thread waits and they do [waiting]. *)
Definition keepAliveThread_step (during waiting : M Client unit) : M Client bool :=
  let! h := helper in
  if exiting h then ret false else
  let! t := now in
  if nextKeepAlive h <? t then
    let! rpcInfo := getRPCInfo TimePoint_max in
    let! call := on_leader (startCall (tree_request (keepalive_request rpcInfo)) TimePoint_max) in
    on_helper (fun h => h <| keepAliveCall := Some call |>) ;;;
    during ;;;
    let! status := on_leader (waitCall call TimePoint_max) in
    on_helper (fun h => h <| keepAliveCall := None |>) ;;;
    match status with
    | Call_OK _ | Call_RETRY => doneWithRPC rpcInfo ;;; ret true
    | Call_TIMEOUT | Call_INVALID_REQUEST => fail Panicked
    end
  else waiting ;;; ret true.

Fixpoint keepAliveThreadMain (sched : list (M Client unit * M Client unit)) : M Client unit :=
  match sched with
  | [] => ret tt
  | (during, waiting) :: sched' =>
      let! running := keepAliveThread_step during waiting in
      if running then keepAliveThreadMain sched' else ret tt
  end.

(** ** Calls on the tree *)

(** [absTimeout]: 0 is no timeout, and a deadline past the end of time is none. *)
Definition absTimeout (relTimeoutNanos : Z) : M Client Z :=
  if relTimeoutNanos =? 0 then ret TimePoint_max else
  let! t := now in
  let deadline := i64 (t + i64 relTimeoutNanos) in
  ret (if deadline <? t then TimePoint_max else deadline).

Definition treeQuery (request : ReadOnlyTree_Request) (timeout : Z) : M Client ReadOnlyTree_Response :=
  let! status := on_leader (leader_call STATE_MACHINE_QUERY (mkQuery_Request (Some request)) timeout) in
  match status with
  | RPC_OK qresponse => ret (default (mkReadOnlyTree_Response None None None None) (queryr_tree qresponse))
  | RPC_TIMEOUT =>
      ret (mkReadOnlyTree_Response (Some PC_TIMEOUT) (Some "Client-specified timeout elapsed") None None)
  | RPC_INVALID_REQUEST => fail Panicked
  end.

(** Without a session there is nothing to send the request on. *)
Definition treeCommand (request : ReadWriteTree_Request) (timeout : Z) : M Client ReadWriteTree_Response :=
  let! status :=
    (if client_id (exactly_once request) =? 0 then ret RPC_TIMEOUT
     else on_leader (leader_call STATE_MACHINE_COMMAND (tree_request request) timeout)) in
  match status with
  | RPC_OK cresponse => ret (default ReadWriteTree_Response_init (resp_tree cresponse))
  | RPC_TIMEOUT =>
      ret (mkReadWriteTree_Response (Some PC_TIMEOUT) (Some "Client-specified timeout elapsed"))
  | RPC_INVALID_REQUEST => fail Panicked
  end.

Definition pc_is_ok (s : option PC_Status) : bool := bool_decide (default PC_UNKNOWN s = PC_OK).

(** What the four methods that change the tree have in common; [fill] puts the
    operation into the request. *)
Definition readWriteOperation (path workingDirectory : string) (condition : Condition) (timeout : Z)
    (fill : ExactlyOnceRPCInfo -> option TreeCondition -> string -> ReadWriteTree_Request) :
    M Client C_Result :=
  let! (result, realPath) := lift (canonicalize path workingDirectory) in
  if negb (bool_decide (c_status result = C_OK)) then ret result else
  let! rpcInfo := getRPCInfo timeout in
  let request := fill rpcInfo (setCondition condition) realPath in
  let! response := treeCommand request timeout in
  doneWithRPC (exactly_once request) ;;;
  if pc_is_ok (rwr_status response) then ret C_Result_init
  else lift (treeError (rwr_status response) (rwr_error response)).

Definition makeDirectory (path workingDirectory : string) (condition : Condition) (timeout : Z) :
    M Client C_Result :=
  readWriteOperation path workingDirectory condition timeout (fun i c realPath =>
    mkReadWriteTree_Request i c (Some realPath) None None None).

Definition removeDirectory (path workingDirectory : string) (condition : Condition) (timeout : Z) :
    M Client C_Result :=
  readWriteOperation path workingDirectory condition timeout (fun i c realPath =>
    mkReadWriteTree_Request i c None (Some realPath) None None).

Definition write (path workingDirectory contents : string) (condition : Condition) (timeout : Z) :
    M Client C_Result :=
  readWriteOperation path workingDirectory condition timeout (fun i c realPath =>
    mkReadWriteTree_Request i c None None (Some (realPath, contents)) None).

Definition removeFile (path workingDirectory : string) (condition : Condition) (timeout : Z) :
    M Client C_Result :=
  readWriteOperation path workingDirectory condition timeout (fun i c realPath =>
    mkReadWriteTree_Request i c None None None (Some realPath)).

(** The two that only read; the second component is the out parameter. *)
Definition listDirectory (path workingDirectory : string) (condition : Condition) (timeout : Z) :
    M Client (C_Result * list string) :=
  let! (result, realPath) := lift (canonicalize path workingDirectory) in
  if negb (bool_decide (c_status result = C_OK)) then ret (result, []) else
  let! response := treeQuery (mkReadOnlyTree_Request (setCondition condition) (Some realPath) None) timeout in
  if pc_is_ok (ror_status response) then ret (C_Result_init, default [] (ror_list_directory response))
  else let! error := lift (treeError (ror_status response) (ror_error response)) in ret (error, []).

Definition read (path workingDirectory : string) (condition : Condition) (timeout : Z) :
    M Client (C_Result * string) :=
  let! (result, realPath) := lift (canonicalize path workingDirectory) in
  if negb (bool_decide (c_status result = C_OK)) then ret (result, "") else
  let! response := treeQuery (mkReadOnlyTree_Request (setCondition condition) None (Some realPath)) timeout in
  if pc_is_ok (ror_status response) then ret (C_Result_init, default "" (ror_read response))
  else let! error := lift (treeError (ror_status response) (ror_error response)) in ret (error, "").

(** ** The cluster's configuration *)

(** Only [TIMEOUT] is looked at: a request the server rejects reads as the
    empty configuration. *)
Definition getConfiguration (timeout : Z) : M Client GetConfigurationResult :=
  let! status := on_leader (leader_call GET_CONFIGURATION tt timeout) in
  match status with
  | RPC_OK response => ret (mkGetConfigurationResult GC_OK (gc_id response) (gc_servers response) "")
  | RPC_TIMEOUT => ret (mkGetConfigurationResult GC_TIMEOUT 0 [] "Client-specified timeout elapsed")
  | RPC_INVALID_REQUEST => ret (mkGetConfigurationResult GC_OK 0 [] "")
  end.

Definition setConfiguration (oldId : Z) (newConfiguration : list Raft_Server) (timeout : Z) :
    M Client ConfigurationResult :=
  let! status := on_leader
    (leader_call SET_CONFIGURATION (mkSetConfiguration_Request oldId newConfiguration) timeout) in
  match status with
  | RPC_TIMEOUT => ret (mkConfigurationResult CR_TIMEOUT [] "Client-specified timeout elapsed")
  | RPC_OK SC_ok => ret ConfigurationResult_init
  | RPC_OK (SC_configuration_changed error) =>
      ret (mkConfigurationResult CR_CHANGED [] ("configuration changed: " +:+ error))
  | RPC_OK (SC_configuration_bad bad_servers) =>
      ret (mkConfigurationResult CR_BAD bad_servers "servers slow or unavailable")
  | RPC_OK SC_unset | RPC_INVALID_REQUEST => fail Panicked
  end.
End Client.
Arguments Client E {_}.

(** A client that has just been made, around [e]. *)
Definition ClientImpl_init {Call E} (closeTimeout : Z) (e : E) : ClientImpl Call E :=
  mkClientImpl (ExactlyOnceRPCHelper_init closeTimeout) e.

(** ** The public classes: [Client/Client.cc] *)

(** The exceptions of the methods whose names end in [Ex]. *)
Inductive Exception : Type :=
| InvalidArgumentException (error : string)
| LookupException (error : string)
| TypeException (error : string)
| ConditionNotMetException (error : string)
| TimeoutException (error : string)
| ConfigurationExceptionBad (error : string)
| ConfigurationExceptionChanged (error : string).

Definition throwException (result : C_Result) : option Exception :=
  match c_status result with
  | C_OK => None
  | C_INVALID_ARGUMENT => Some (InvalidArgumentException (c_error result))
  | C_LOOKUP_ERROR => Some (LookupException (c_error result))
  | C_TYPE_ERROR => Some (TypeException (c_error result))
  | C_CONDITION_NOT_MET => Some (ConditionNotMetException (c_error result))
  | C_TIMEOUT => Some (TimeoutException (c_error result))
  end.

Definition configurationException (result : ConfigurationResult) : option Exception :=
  match cr_status result with
  | CR_BAD => Some (ConfigurationExceptionBad (cr_error result))
  | CR_CHANGED => Some (ConfigurationExceptionChanged (cr_error result))
  | CR_TIMEOUT => Some (TimeoutException (cr_error result))
  | CR_OK => None
  end.

(** [TreeDetails]; the [Tree] objects share the client and swap their details. *)
Record TreeDetails : Type := mkTreeDetails {
  workingDirectory : string;
  condition : Condition;
  timeoutNanos : Z
}.
#[export] Instance TreeDetails_eta : Eta TreeDetails := fun d =>
  mkTreeDetails (workingDirectory d) (condition d) (timeoutNanos d).

(** [Cluster::getTree] *)
Definition getTree : TreeDetails := mkTreeDetails "/" ("", "") 0.

Section TreeObject.
Context {E : Type} `{LeaderRPCBase E, SteadyClock E}.

(** The details after the call come back with the result. The timeout starts
    before the directory is known to be valid. *)
Definition setWorkingDirectory (newWorkingDirectory : string) (d : TreeDetails) :
    M (Client E) (C_Result * TreeDetails) :=
  let! timeout := absTimeout (timeoutNanos d) in
  let! (result, realPath) := lift (canonicalize newWorkingDirectory (workingDirectory d)) in
  if negb (bool_decide (c_status result = C_OK)) then
    ret (result, d <| workingDirectory :=
      "invalid from prior call to setWorkingDirectory('" +:+ c_str newWorkingDirectory +:+
      "') relative to '" +:+ c_str (workingDirectory d) +:+ "'" |>)
  else
    let d := d <| workingDirectory := realPath |> in
    let! result := makeDirectory realPath "" (condition d) timeout in
    ret (result, d).

Definition ClientTree_setCondition (path value : string) (d : TreeDetails) : outcome (C_Result * TreeDetails) :=
  if string_empty path then Ok (C_Result_init, d <| condition := ("", "") |>) else
  match canonicalize path (workingDirectory d) with
  | Fail f => Fail f
  | Ok (result, realPath) =>
      if negb (bool_decide (c_status result = C_OK)) then
        Ok (result, d <| condition :=
          ("invalid from prior call to setCondition('" +:+ c_str path +:+ "') relative to '" +:+
           c_str (workingDirectory d) +:+ "'", value) |>)
      else Ok (C_Result_init, d <| condition := (realPath, value) |>)
  end.

Definition setTimeout (nanoseconds : Z) (d : TreeDetails) : TreeDetails :=
  d <| timeoutNanos := nanoseconds |>.

(** The methods of [Tree] that run an operation with the object's details. *)
Definition with_details {A} (op : string -> Condition -> Z -> M (Client E) A) (d : TreeDetails) :
    M (Client E) A :=
  let! timeout := absTimeout (timeoutNanos d) in
  op (workingDirectory d) (condition d) timeout.

Definition ClientTree_makeDirectory (path : string) : TreeDetails -> M (Client E) C_Result :=
  with_details (makeDirectory path).
Definition ClientTree_listDirectory (path : string) : TreeDetails -> M (Client E) (C_Result * list string) :=
  with_details (listDirectory path).
Definition ClientTree_removeDirectory (path : string) : TreeDetails -> M (Client E) C_Result :=
  with_details (removeDirectory path).
Definition ClientTree_write (path contents : string) : TreeDetails -> M (Client E) C_Result :=
  with_details (fun wd c t => write path wd contents c t).
Definition ClientTree_read (path : string) : TreeDetails -> M (Client E) (C_Result * string) :=
  with_details (read path).
Definition ClientTree_removeFile (path : string) : TreeDetails -> M (Client E) C_Result :=
  with_details (removeFile path).
End TreeObject.
