(* ===== verification/ClientSpec.v ===== *)
(** * What the client library promises: paths

    The canonical form of a path, against a reference that keeps a stack of
    names: [canonicalize] irons [".."] and ["."] out of a vector in place. *)

From Stdlib Require Import ZArith Lia Ascii String.
From stdpp Require Import base gmap strings list fin_maps sorting.
From S2P Require Import Prelude StringUtil Printf Log ClientProto Tree TreeSpec TreeRPC StateMachine Client.
Local Open Scope string_scope.
Local Open Scope Z_scope.
Local Open Scope list_scope.

(** ** The reference *)

(** The names of a path, in order. *)
Definition names (path : string) : list string := split path "" [].

(** The names that lead from the root to where [path] ends, as a stack of the
    names walked so far, the last one on top; [None]: above the root. *)
Fixpoint resolve (walked : list string) (path : list string) : option (list string) :=
  match path with
  | [] => Some (rev walked)
  | c :: path' =>
      if decide (c = "..") then
        match walked with
        | [] => None
        | _ :: walked' => resolve walked' path'
        end
      else if decide (c = ".") then resolve walked path'
      else resolve (c :: walked) path'
  end.

Fixpoint slashed (l : list string) : string :=
  match l with
  | [] => ""
  | c :: l' => "/" +:+ c +:+ slashed l'
  end.

(** How an absolute path is written. *)
Definition render (l : list string) : string :=
  match l with [] => "/" | _ => slashed l end.

Definition is_relative (path : string) : bool := negb (string_empty path) && negb (is_absolute path).

(** A name of a canonical path. *)
Definition canonical_name (c : string) : Prop := valid_name c /\ c <> "." /\ c <> "..".

(** ** Ironing out *)

Lemma iron_out_resolves fuel i cs :
  (i <= length cs)%nat -> (length cs - i <= fuel)%nat ->
  iron_out fuel i cs =
    match resolve (rev (take i cs)) (drop i cs) with Some l => Ironed l | None => AboveRoot end.
Proof.
  revert i cs. induction fuel as [|fuel IH]; intros i cs Hi Hfuel; simpl.
  - assert (i = length cs) as -> by lia.
    rewrite lookup_ge_None_2 by lia. rewrite firstn_all, drop_all. simpl. by rewrite rev_involutive.
  - destruct (cs !! i) as [c|] eqn:Hc.
    2: { apply lookup_ge_None in Hc. assert (i = length cs) as -> by lia.
         rewrite firstn_all, drop_all. simpl. by rewrite rev_involutive. }
    pose proof (lookup_lt_Some _ _ _ Hc) as Hlt. rewrite (drop_S _ _ _ Hc). simpl.
    assert (length (take i cs) = i) as Ht by (rewrite length_take; lia).
    case_decide as Hdd; [|case_decide as Hd].
    + case_decide as H0.
      * destruct i as [|i]; [lia|]. destruct (lookup_lt_is_Some_2 cs i) as [x Hx]; [lia|].
        replace (S i - 1)%nat with i by lia.
        assert (length (take i cs) = i) as Ht' by (rewrite length_take; lia).
        rewrite (take_S_r _ _ _ Hx), rev_app_distr. simpl. unfold erase.
        rewrite IH; [|rewrite length_app, length_drop; lia..].
        rewrite take_app_length', drop_app_length' by done.
        by rewrite ?Nat.add_1_r.
      * destruct i as [|i]; [|lia]. done.
    + unfold erase. rewrite IH; [|rewrite length_app, length_drop; lia..].
      rewrite take_app_length', drop_app_length' by done. by rewrite ?Nat.add_1_r.
    + rewrite IH by lia. by rewrite (take_S_r _ _ _ Hc), rev_app_distr.
Qed.

Lemma iron_out_all cs :
  iron_out (length cs) 0 cs = match resolve [] cs with Some l => Ironed l | None => AboveRoot end.
Proof. rewrite iron_out_resolves by lia. by rewrite take_0, drop_0. Qed.

(** ** Splitting *)

Lemma split_acc path word acc acc' : split path word (acc ++ acc') = acc ++ split path word acc'.
Proof.
  revert word acc'. induction path as [|c path IH]; intros word acc'; simpl.
  - destruct (string_empty word); [done|]. by rewrite app_assoc.
  - destruct (Ascii.eqb c _); [destruct (string_empty word)|]; rewrite <-?app_assoc; apply IH.
Qed.

Lemma split_names path acc : split path "" acc = acc ++ names path.
Proof. unfold names. rewrite <-split_acc. by rewrite app_nil_r. Qed.

Lemma split_slash p q word acc : split (p +:+ "/" +:+ q) word acc = split q "" (split p word acc).
Proof.
  revert word acc. induction p as [|c p IH]; intros word acc.
  - simpl. by destruct (string_empty word) eqn:Hw; [destruct word|].
  - rewrite string_app_cons. simpl. destruct (Ascii.eqb c _); [destruct (string_empty word)|]; apply IH.
Qed.

Lemma names_slash p q : names (p +:+ "/" +:+ q) = names p ++ names q.
Proof. unfold names at 1. rewrite split_slash. apply split_names. Qed.

Lemma split_word c word acc :
  has_char "/" c = false -> word +:+ c <> "" -> split c word acc = acc ++ [word +:+ c].
Proof.
  revert word. induction c as [|a c IH]; intros word Hc Hne; simpl.
  - rewrite string_app_nil_r in *. by destruct word.
  - simpl in Hc. apply orb_false_iff in Hc as [-> Hc].
    assert ((word +:+ String a "") +:+ c = word +:+ String a c) as Heq by (by rewrite string_app_assoc).
    rewrite IH; [by rewrite Heq|done|by rewrite Heq].
Qed.

Lemma names_word c : valid_name c -> names c = [c].
Proof. intros [Hne Hc]. unfold names. by rewrite split_word. Qed.

Lemma slashed_app c l : slashed (c :: l) = "/" +:+ (c +:+ slashed l).
Proof. done. Qed.

Lemma names_slashed l : Forall valid_name l -> names (slashed l) = l.
Proof.
  induction l as [|c l IH]; [done|]. intros [Hc Hl]%Forall_cons. rewrite slashed_app.
  change ("/" +:+ (c +:+ slashed l)) with ("" +:+ "/" +:+ (c +:+ slashed l)). rewrite names_slash. simpl.
  destruct l as [|d l]; [simpl; rewrite string_app_nil_r; by apply names_word|].
  rewrite slashed_app, names_slash, (names_word c) by done. simpl. f_equal.
  specialize (IH Hl). rewrite slashed_app in IH.
  change ("/" +:+ (d +:+ slashed l)) with ("" +:+ "/" +:+ (d +:+ slashed l)) in IH.
  by rewrite names_slash in IH.
Qed.

Lemma names_render l : Forall valid_name l -> names (render l) = l.
Proof. destruct l as [|c l]; [done|]. apply names_slashed. Qed.

Lemma names_valid path : Forall valid_name (names path).
Proof. exact (Path_split_valid path "" [] eq_refl (Forall_nil_2 _)). Qed.

(** The server splits a path as the client does. *)
Lemma Path_split_names path acc : Path_split path "" acc = acc ++ names path.
Proof. rewrite <-split_names. reflexivity. Qed.

Lemma fold_slashed l acc : fold_left (fun canonical c => canonical +:+ ("/" +:+ c)) l acc = acc +:+ slashed l.
Proof.
  revert acc. induction l as [|c l IH]; intros acc; simpl; [by rewrite string_app_nil_r|].
  rewrite IH, string_app_assoc. f_equal.
Qed.

(** ** Resolving *)

Lemma resolve_canonical walked path l :
  Forall canonical_name walked -> Forall valid_name path -> resolve walked path = Some l ->
  Forall canonical_name l.
Proof.
  revert walked. induction path as [|c path IH]; intros walked Hw Hp; simpl.
  - intros [= <-]. by apply Forall_rev.
  - apply Forall_cons in Hp as [Hc Hp]. case_decide; [|case_decide].
    + destruct walked as [|x walked]; [done|]. apply Forall_cons in Hw as [_ Hw]. by apply IH.
    + by apply IH.
    + apply IH; [|done]. constructor; [|done]. by split.
Qed.

Lemma resolve_id walked l :
  Forall canonical_name l -> resolve walked l = Some (rev walked ++ l).
Proof.
  revert walked. induction l as [|c l IH]; intros walked; simpl; [by rewrite app_nil_r|].
  intros [(_ & Hd & Hdd) Hl]%Forall_cons. rewrite !decide_False by done. rewrite IH by done. simpl.
  by rewrite <-app_assoc.
Qed.

(** ** What [canonicalize] computes *)

(** The path the caller means: relative to the working directory or not. *)
Definition meant (path workingDirectory : string) : string :=
  if is_relative path then workingDirectory +:+ "/" +:+ path else path.

Lemma canonicalize_eq path wd :
  exists relative_error above_error,
  canonicalize path wd =
    if is_relative path && negb (is_absolute wd) then Ok (mkC_Result C_INVALID_ARGUMENT relative_error, "")
    else match resolve [] (names (meant path wd)) with
         | Some l => Ok (C_Result_init, render l)
         | None => Ok (mkC_Result C_INVALID_ARGUMENT above_error, "")
         end.
Proof.
  do 2 eexists. unfold canonicalize. fold (is_relative path). cbv zeta.
  assert (string_empty wd || negb (is_absolute wd) = negb (is_absolute wd)) as -> by (by destruct wd).
  destruct (is_relative path && negb (is_absolute wd)) eqn:Hrel; [reflexivity|].
  assert (split path "" (if is_relative path then split wd "" [] else []) = names (meant path wd)) as ->.
  { unfold meant. destruct (is_relative path); [|done]. by rewrite names_slash, split_names. }
  rewrite iron_out_all. destruct (resolve [] _) as [l|]; [|reflexivity].
  rewrite fold_slashed. by destruct l.
Qed.

(** C38: the canonical form of a path is the list of names a reader ends at who
    walks it from the root, going up at every [".."]. Relative paths are walked
    from the working directory; they are refused exactly if that is not an
    absolute path, and a path is refused exactly if the walk leaves the root. *)
Theorem canonicalize_resolves path wd :
  if is_relative path && negb (is_absolute wd) then
    exists err, canonicalize path wd = Ok (mkC_Result C_INVALID_ARGUMENT err, "")
  else match resolve [] (names (meant path wd)) with
       | Some l => canonicalize path wd = Ok (C_Result_init, render l)
       | None => exists err, canonicalize path wd = Ok (mkC_Result C_INVALID_ARGUMENT err, "")
       end.
Proof.
  destruct (canonicalize_eq path wd) as (e1 & e2 & ->).
  destruct (is_relative path && _); [by eexists|]. destruct (resolve _ _); [done|by eexists].
Qed.

Lemma canonicalize_ok path wd p :
  canonicalize path wd = Ok (C_Result_init, p) -> exists l, p = render l /\ Forall canonical_name l.
Proof.
  destruct (canonicalize_eq path wd) as (e1 & e2 & ->).
  destruct (is_relative path && _); [done|]. destruct (resolve _ _) as [l|] eqn:Hl; [|done].
  intros [= <-]. exists l. split; [done|]. by eapply resolve_canonical; [|apply names_valid|].
Qed.

Lemma canonical_valid l : Forall canonical_name l -> Forall valid_name l.
Proof. intros Hl. eapply Forall_impl; [exact Hl|]. by intros c [? _]. Qed.

Lemma render_absolute l : is_absolute (render l) = true.
Proof.
  unfold is_absolute. apply startsWith_char. destruct l as [|c l]; [by exists ""|]. by eexists.
Qed.

Lemma canonicalize_render l wd : Forall canonical_name l -> canonicalize (render l) wd = Ok (C_Result_init, render l).
Proof.
  intros Hl. destruct (canonicalize_eq (render l) wd) as (e1 & e2 & ->).
  unfold meant, is_relative. rewrite render_absolute, andb_false_r. cbn [andb].
  by rewrite names_render, resolve_id by auto using canonical_valid.
Qed.

Lemma Path_init_render l :
  Forall canonical_name l ->
  status (path_result (Path_init (render l))) = OK /\ Path_components (Path_init (render l)) = "root" :: l.
Proof.
  intros Hl. unfold Path_init. fold (is_absolute (render l)). rewrite render_absolute. cbn [negb].
  split; [done|]. unfold Path_components. simpl. rewrite Path_split_names, names_render by auto using canonical_valid.
  by rewrite <-(app_removelast_last "" (l := ["root"] ++ l)).
Qed.

(** C39: a path that [canonicalize] returns is a canonical path: absolute,
    without empty names, ["."] or [".."], and the same wherever it is made
    canonical again. The server's parser accepts it and reads the same names. *)
Theorem canonicalize_canonical path wd p :
  canonicalize path wd = Ok (C_Result_init, p) ->
  is_absolute p = true /\ (forall wd', canonicalize p wd' = Ok (C_Result_init, p)) /\
  exists l, Forall canonical_name l /\
    status (path_result (Path_init p)) = OK /\ Path_components (Path_init p) = "root" :: l.
Proof.
  intros (l & -> & Hl)%canonicalize_ok. split; [apply render_absolute|].
  split; [intros wd'; by apply canonicalize_render|]. exists l. split; [done|]. by apply Path_init_render.
Qed.

Lemma canonicalize_canonical_witness :
  canonicalize "../x//./y/" "/home/user" = Ok (C_Result_init, "/home/x/y") /\
  is_absolute "/home/x/y" = true.
Proof. split; [reflexivity|]. by apply (canonicalize_canonical "../x//./y/" "/home/user" "/home/x/y"). Defined.

(** ** Numbering requests *)

Lemma fold_min_spec x l :
  (forall y, y ∈ x :: l -> fold_right Z.min x l <= y) /\ fold_right Z.min x l ∈ x :: l.
Proof.
  induction l as [|a l [IH1 IH2]]; simpl.
  - split; [|by left]. intros y ->%list_elem_of_singleton. lia.
  - split.
    + intros y [->|[->|Hy]%elem_of_cons]%elem_of_cons; [|lia|].
      * specialize (IH1 x ltac:(by left)). lia.
      * specialize (IH1 y ltac:(by right)). lia.
    + destruct (Z.min_spec a (fold_right Z.min x l)) as [[_ ->]|[_ ->]]; [by right; left|].
      apply elem_of_cons in IH2 as [->|IH2]; [by left|by right; right].
Qed.

(** The first of a set that is not empty. *)
Lemma set_begin_spec (X : gset Z) n :
  n ∈ X -> exists m, set_begin X = Ok m /\ m ∈ X /\ forall k, k ∈ X -> m <= k.
Proof.
  intros Hn. unfold set_begin. destruct (elements X) as [|x l] eqn:Hl.
  - apply elements_empty_inv in Hl. set_solver.
  - destruct (fold_min_spec x l) as [Hmin Hin]. rewrite <-Hl in Hmin, Hin.
    exists (fold_right Z.min x l). split; [done|]. split; [by apply elem_of_elements|].
    intros k Hk. apply Hmin. by apply elem_of_elements.
Qed.
