(* ===== verification/ClientTree.v ===== *)
(** * What the client library promises: the tree

    The operations of the client on a leader that runs each request once on
    one tree. [LeaderTree] is what the client needs of the leader: an answered
    request has run, one that timed out may have. From it follows what callers
    of the library see: the operation of the abstract store on the canonical
    path, or a timeout that leaves open whether it happened. *)

From Stdlib Require Import ZArith Lia Ascii String.
From stdpp Require Import base gmap strings list fin_maps sorting.
From S2P Require Import Prelude StringUtil Printf Log ClientProto Tree TreeSpec TreeRPC StateMachine Client ClientSpec.
Local Open Scope string_scope.
Local Open Scope Z_scope.
Local Open Scope list_scope.

(** ** What the client needs of the leader *)

Class LeaderTree (E : Type) `{LeaderRPCBase E, SteadyClock E} := {
  leader_tree : E -> Tree;
  leader_ok : E -> Prop;
  law_wf e : leader_ok e -> tree_wf (leader_tree e);
  law_clock e : leader_ok e ->
    safe Clock_now (fun _ e' => leader_ok e' /\ superRoot (leader_tree e') = superRoot (leader_tree e)) e;
  law_open e timeout : leader_ok e ->
    safe (leader_call STATE_MACHINE_COMMAND open_session_request timeout) (fun status e' =>
      leader_ok e' /\ superRoot (leader_tree e') = superRoot (leader_tree e) /\
      match status with
      | RPC_OK response => exists id, resp_open_session response = Some id /\ 0 < id
      | RPC_TIMEOUT => True
      | RPC_INVALID_REQUEST => False
      end) e;
  law_command e t timeout r t' : leader_ok e -> 0 < client_id (exactly_once t) ->
    readWriteTreeRPC t (leader_tree e) = Ok (r, t') ->
    safe (leader_call STATE_MACHINE_COMMAND (tree_request t) timeout) (fun status e' =>
      leader_ok e' /\
      match status with
      | RPC_OK response => resp_tree response = Some r /\ superRoot (leader_tree e') = superRoot t'
      | RPC_TIMEOUT => superRoot (leader_tree e') = superRoot (leader_tree e) \/
                       superRoot (leader_tree e') = superRoot t'
      | RPC_INVALID_REQUEST => False
      end) e;
  law_query e q timeout r t' : leader_ok e ->
    readOnlyTreeRPC q (leader_tree e) = Ok (r, t') ->
    safe (leader_call STATE_MACHINE_QUERY (mkQuery_Request (Some q)) timeout) (fun status e' =>
      leader_ok e' /\ superRoot (leader_tree e') = superRoot (leader_tree e) /\
      match status with
      | RPC_OK response => queryr_tree response = Some r
      | RPC_TIMEOUT => True
      | RPC_INVALID_REQUEST => False
      end) e
}.

(** ** What callers see *)

Definition C_Status_of (s : Status) : C_Status :=
  match s with
  | OK => C_OK
  | INVALID_ARGUMENT => C_INVALID_ARGUMENT
  | LOOKUP_ERROR => C_LOOKUP_ERROR
  | TYPE_ERROR => C_TYPE_ERROR
  | CONDITION_NOT_MET => C_CONDITION_NOT_MET
  end.

(** The status and the out parameters, which are empty unless the status is [OK]. *)
Definition answer : Type := C_Status * string * list string.

Definition no_answer (st : C_Status) : answer := (st, "", []).

Definition seen (x : response) : answer :=
  match x with
  | RStatus st => no_answer (C_Status_of st)
  | RContents st c => if decide (st = OK) then (C_OK, c, []) else no_answer (C_Status_of st)
  | RChildren st l => if decide (st = OK) then (C_OK, "", l) else no_answer (C_Status_of st)
  end.

(** The operations of the library are those of the tree but for the check of a
    condition alone. *)
Definition client_op (o : op) : bool :=
  match o with OpCheckCondition _ _ => false | _ => true end.

Definition at_path (p : string) (o : op) : op :=
  match o with
  | OpMakeDirectory _ => OpMakeDirectory p
  | OpListDirectory _ => OpListDirectory p
  | OpRemoveDirectory _ => OpRemoveDirectory p
  | OpWrite _ c => OpWrite p c
  | OpRead _ => OpRead p
  | OpRemoveFile _ => OpRemoveFile p
  | OpCheckCondition _ c => OpCheckCondition p c
  end.

Section Run.
Context {E : Type} `{LeaderRPCBase E, SteadyClock E}.

Definition client_run (o : op) (wd : string) (cond : Condition) (timeout : Z) : M (Client E) answer :=
  match o with
  | OpMakeDirectory p => let! r := makeDirectory p wd cond timeout in ret (no_answer (c_status r))
  | OpRemoveDirectory p => let! r := removeDirectory p wd cond timeout in ret (no_answer (c_status r))
  | OpWrite p c => let! r := write p wd c cond timeout in ret (no_answer (c_status r))
  | OpRemoveFile p => let! r := removeFile p wd cond timeout in ret (no_answer (c_status r))
  | OpRead p => let! (r, c) := read p wd cond timeout in ret (c_status r, c, [])
  | OpListDirectory p => let! (r, l) := listDirectory p wd cond timeout in ret (c_status r, "", l)
  | OpCheckCondition _ _ => fail Panicked
  end.
End Run.

(** The canonical path of a call, if it has one. *)
Definition call_path (path wd : string) : option string :=
  match canonicalize path wd with
  | Ok (r, p) => if decide (c_status r = C_OK) then Some p else None
  | Fail _ => None
  end.

(** The operation happened: its condition was checked and it ran, in one step. *)
Definition happened (o : op) (cond : Condition) (fs : FS) (a : answer) (fs' : FS) : Prop :=
  let st := spec_condition fs (setCondition cond) in
  if decide (st = OK) then exists x, a = seen x /\ spec_step o fs x fs'
  else a = no_answer (C_Status_of st) /\ forall q, fs' q = fs q.

(** One call on the abstract store. *)
Definition call_spec (o : op) (wd : string) (cond : Condition) (fs : FS) (a : answer) (fs' : FS) : Prop :=
  match call_path (op_path o) wd with
  | None => a = no_answer C_INVALID_ARGUMENT /\ forall q, fs' q = fs q
  | Some p =>
      happened (at_path p o) cond fs a fs' \/
      a = no_answer C_TIMEOUT /\
      ((forall q, fs' q = fs q) \/ exists a', happened (at_path p o) cond fs a' fs')
  end.

(** A call of the library with all its arguments. *)
Record call : Type := mkCall {
  call_op : op;
  call_wd : string;
  call_condition : Condition;
  call_timeout : Z
}.

Fixpoint client_calls {E} `{LeaderRPCBase E, SteadyClock E} (l : list call) : M (Client E) (list answer) :=
  match l with
  | [] => ret []
  | k :: l' =>
      let! a := client_run (call_op k) (call_wd k) (call_condition k) (call_timeout k) in
      let! rest := client_calls l' in
      ret (a :: rest)
  end.

Inductive calls_spec : FS -> list call -> list answer -> FS -> Prop :=
| calls_nil fs : calls_spec fs [] [] fs
| calls_cons fs k a fs1 l rest fs' :
    call_spec (call_op k) (call_wd k) (call_condition k) fs a fs1 ->
    calls_spec fs1 l rest fs' -> calls_spec fs (k :: l) (a :: rest) fs'.

(** ** The operations, against the interface *)

Section Spec.
Context {E : Type} `{LeaderTree E}.

Definition client_tree (c : Client E) : Tree := leader_tree (outside c).

Definition client_ok (c : Client E) : Prop :=
  leader_ok (outside c) /\ 0 <= clientId (exactlyOnceRPCHelper c).

Definition same_dirs (c c' : Client E) : Prop :=
  superRoot (client_tree c') = superRoot (client_tree c).

Lemma wp_now c (Q : Z -> Client E -> Prop) :
  client_ok c -> (forall t c', client_ok c' -> same_dirs c c' ->
    exactlyOnceRPCHelper c' = exactlyOnceRPCHelper c -> Q t c') ->
  safe now Q c.
Proof.
  intros [Hok Hid] HQ. apply wp_zoom. eapply wp_mono; [by apply law_clock|done|].
  intros t e' [Hok' Hdirs]. by apply HQ.
Qed.

Lemma same_dirs_trans c1 c2 c3 : same_dirs c1 c2 -> same_dirs c2 c3 -> same_dirs c1 c3.
Proof. unfold same_dirs. congruence. Qed.

Lemma safe_numberRPC (c : Client E) :
  client_ok c ->
  safe numberRPC (fun i c' => client_ok c' /\ same_dirs c c' /\
    client_id i = clientId (exactlyOnceRPCHelper c)) c.
Proof.
  intros Hok. unfold numberRPC, safe, helper. apply wp_bind, wp_now; [done|]. intros t c1 Hok1 Hd1 Hh.
  unfold on_helper. cbv zeta. do 9 wp_step.
  destruct (set_begin_spec ({[nextRPCNumber (exactlyOnceRPCHelper c1)]} ∪
    outstandingRPCNumbers (exactlyOnceRPCHelper c1)) (nextRPCNumber (exactlyOnceRPCHelper c1)))
    as (m & Hm & _); [set_solver|].
  simpl in *. rewrite Hm. apply wp_ret. rewrite <-Hh. by destruct Hok1.
Qed.

Lemma safe_openSession timeout (c : Client E) :
  client_ok c ->
  safe (openSession timeout) (fun opened c' => client_ok c' /\ same_dirs c c') c.
Proof.
  intros Hok. unfold openSession, safe. apply wp_bind, wp_now; [done|]. intros t c1 [Hok1 Hid1] Hd1 _.
  unfold on_helper. do 3 wp_step. apply wp_zoom. simpl.
  eapply wp_mono; [by apply law_open|done|]. intros status e' (Hok2 & Hd2 & Hst).
  assert (same_dirs c (c1 <| outside := e' |>)) as Hd by (by eapply same_dirs_trans).
  destruct status as [r| |]; [|by apply wp_ret|done].
  destruct Hst as (id & -> & Hpos). do 3 wp_step. apply wp_assert; intros Has; simpl in Has; [lia|].
  do 2 wp_step. apply wp_ret. split; [|done]. split; [done|]. simpl. lia.
Qed.

Lemma safe_getRPCInfo timeout (c : Client E) :
  client_ok c ->
  safe (getRPCInfo timeout) (fun i c' => client_ok c' /\ same_dirs c c' /\ 0 <= client_id i) c.
Proof.
  intros Hok. unfold getRPCInfo, safe, helper. do 3 wp_step.
  assert (forall c1, client_ok c1 -> same_dirs c c1 -> wp (fun _ => False) numberRPC
    (fun i c' => client_ok c' /\ same_dirs c c' /\ 0 <= client_id i) c1) as Hnumber.
  { intros c1 Hok1 Hd1. eapply wp_mono; [by apply safe_numberRPC|done|]. intros i c2 (Hok2 & Hd2 & ->).
    split; [done|]. split; [by eapply same_dirs_trans|]. apply Hok1. }
  destruct (_ =? 0); [|by apply Hnumber].
  eapply wp_mono; [by apply safe_openSession|done|]. intros [] c1 [Hok1 Hd1]; [by apply Hnumber|].
  by apply wp_ret.
Qed.

(** ** Requests that change the tree *)

Lemma treeError_of st e :
  treeError (Some (PC_Status_of st)) e = Ok (mkC_Result (C_Status_of st) (default "" e)).
Proof. by destruct st. Qed.

Lemma pc_is_ok_of st : pc_is_ok (Some (PC_Status_of st)) = bool_decide (st = OK).
Proof. by destruct st. Qed.

Lemma rw_happened req o cond t :
  tree_wf t -> rw_condition req = setCondition cond -> rw_op req = Some o ->
  safe (readWriteTreeRPC req) (fun r t' => tree_wf t' /\ exists st,
    rwr_status r = Some (PC_Status_of st) /\
    happened o cond (abs (superRoot t)) (no_answer (C_Status_of st)) (abs (superRoot t'))) t.
Proof.
  intros Hwf Hc Ho. pose proof (readWriteTreeRPC_total req t Hwf) as Hrw. cbv zeta in Hrw.
  rewrite Hc, Ho in Hrw. unfold happened. cbv zeta. case_decide as Hst.
  - eapply wp_mono; [exact Hrw|done|]. intros r t' (Hwf' & st & Hr & Hstep). split; [done|].
    exists st. split; [done|]. by exists (RStatus st).
  - eapply wp_mono; [exact Hrw|done|]. intros r t' (Hroot & Hr). unfold tree_wf. rewrite Hroot.
    split; [done|]. by eexists.
Qed.

Lemma safe_treeCommand req o cond timeout (c : Client E) :
  client_ok c -> 0 <= client_id (exactly_once req) ->
  rw_condition req = setCondition cond -> rw_op req = Some o ->
  safe (treeCommand req timeout) (fun r c' => client_ok c' /\
    ((exists st, rwr_status r = Some (PC_Status_of st) /\
       happened o cond (abs (superRoot (client_tree c))) (no_answer (C_Status_of st))
         (abs (superRoot (client_tree c')))) \/
     rwr_status r = Some PC_TIMEOUT /\
       (same_dirs c c' \/ exists a', happened o cond (abs (superRoot (client_tree c))) a'
                                      (abs (superRoot (client_tree c')))))) c.
Proof.
  intros [Hok Hid] Hi Hc Ho. unfold treeCommand, safe. wp_step.
  destruct (Z.eqb_spec (client_id (exactly_once req)) 0) as [Hz|Hz].
  { do 2 wp_step. split; [done|]. right. split; [done|]. by left. }
  pose proof (rw_happened req o cond (client_tree c) (law_wf _ Hok) Hc Ho) as (r & t' & Hr & Hwf' & st & Hst & Hh)%safe_run.
  apply wp_zoom. eapply wp_mono; [apply (law_command _ req timeout r t' Hok); [lia|done]|done|].
  intros [resp| |] e'; [| |by intros [_ []]].
  - intros (Hok' & Hresp & Hroot). apply wp_ret. rewrite Hresp. split; [done|]. left. exists st.
    split; [done|]. unfold client_tree in *. simpl. by rewrite Hroot.
  - intros (Hok' & Hroot). apply wp_ret. split; [done|]. right. split; [done|].
    destruct Hroot as [Hroot|Hroot]; [by left|]. right. exists (no_answer (C_Status_of st)).
    unfold client_tree in *. simpl. by rewrite Hroot.
Qed.

Lemma canonicalize_total path wd :
  exists r p, canonicalize path wd = Ok (r, p) /\
    (c_status r = C_OK /\ call_path path wd = Some p \/
     c_status r = C_INVALID_ARGUMENT /\ call_path path wd = None).
Proof.
  unfold call_path. destruct (canonicalize_eq path wd) as (e1 & e2 & ->).
  destruct (is_relative path && _); [|destruct (resolve _ _)]; do 2 eexists; (split; [reflexivity|]); auto.
Qed.

Lemma same_fs c c' : same_dirs c c' -> forall q, abs (superRoot (client_tree c')) q = abs (superRoot (client_tree c)) q.
Proof. by intros ->. Qed.

(** A call of the client, done right. *)
Definition call_done (o : op) (wd : string) (cond : Condition) (c : Client E) (a : answer) (c' : Client E) : Prop :=
  client_ok c' /\
  call_spec o wd cond (abs (superRoot (client_tree c))) a (abs (superRoot (client_tree c'))).

Lemma safe_readWriteOperation o wd cond timeout fill (c : Client E) :
  client_ok c ->
  (forall i k p, exactly_once (fill i k p) = i /\ rw_condition (fill i k p) = k /\
                 rw_op (fill i k p) = Some (at_path p o)) ->
  safe (let! r := readWriteOperation (op_path o) wd cond timeout fill in ret (no_answer (c_status r)))
    (call_done o wd cond c) c.
Proof.
  intros Hok Hfill. unfold readWriteOperation, safe, call_done, call_spec. do 2 wp_step. wp_step.
  destruct (canonicalize_total (op_path o) wd) as (res & p & -> & [[Hres ->]|[Hres ->]]).
  2: { rewrite Hres, bool_decide_false by done. cbn [negb]. do 2 apply wp_ret. by rewrite Hres. }
  rewrite Hres, bool_decide_true by done. cbn [negb]. wp_step.
  eapply wp_mono; [by apply safe_getRPCInfo|done|]. intros i c1 (Hok1 & Hd1 & Hi). cbv zeta.
  destruct (Hfill i (setCondition cond) p) as (Hx & Hc & Ho). wp_step.
  eapply wp_mono; [by apply (safe_treeCommand _ (at_path p o) cond); rewrite ?Hx|done|].
  intros r c2 (Hok2 & Hr). rewrite Hd1 in Hr. unfold doneWithRPC, on_helper. do 2 wp_step.
  assert (client_ok (c2 <| exactlyOnceRPCHelper := (exactlyOnceRPCHelper c2)
    <| outstandingRPCNumbers := outstandingRPCNumbers (exactlyOnceRPCHelper c2) ∖
         {[rpc_number (exactly_once (fill i (setCondition cond) p))]} |> |>)) as Hok3 by apply Hok2.
  destruct Hr as [(st & Hst & Hh)|[Hst Hh]]; rewrite Hst.
  - rewrite pc_is_ok_of, treeError_of. case_bool_decide as Hs.
    + subst st. do 2 apply wp_ret. split; [done|]. by left.
    + apply wp_lift, wp_ret. split; [done|]. by left.
  - apply wp_lift, wp_ret. split; [done|]. right. split; [done|].
    destruct Hh as [Hh|Hh]; [left|by right]. intros q. apply (same_fs c). by eapply same_dirs_trans.
Qed.

(** ** Requests that read it *)

Lemma ro_happened req o cond t :
  tree_wf t -> ro_condition req = setCondition cond -> ro_op req = Some o ->
  safe (readOnlyTreeRPC req) (fun r t' => superRoot t' = superRoot t /\ exists st a,
    ror_status r = Some (PC_Status_of st) /\
    happened o cond (abs (superRoot t)) a (abs (superRoot t)) /\
    a = match st, o with
        | OK, OpListDirectory _ => (C_OK, "", default [] (ror_list_directory r))
        | OK, _ => (C_OK, default "" (ror_read r), [])
        | _, _ => no_answer (C_Status_of st)
        end) t.
Proof.
  intros Hwf Hc Ho. pose proof (readOnlyTreeRPC_total req t Hwf) as Hro. cbv zeta in Hro.
  rewrite Hc, Ho in Hro. unfold happened. cbv zeta. case_decide as Hst.
  - eapply wp_mono; [exact Hro|done|]. intros r t' (Hroot & x & Hx & Hstep). split; [done|].
    unfold ro_response in Hx. destruct (ror_status r) as [pc|]; [|done]. simpl in Hx.
    destruct (PC_decode pc) as [st|] eqn:Hpc; [|done]. simpl in Hx.
    assert (pc = PC_Status_of st) as -> by (destruct pc; simplify_eq/=; done).
    exists st, (seen x). split; [done|]. split; [by exists x|].
    destruct o; try done; injection Hx as <-; by destruct st.
  - eapply wp_mono; [exact Hro|done|]. intros r t' (Hroot & Hr). split; [done|].
    eexists _, _. split; [done|]. split; [by split|].
    set (st := spec_condition _ _) in *. by destruct st, o.
Qed.

Lemma safe_treeQuery req o cond timeout (c : Client E) :
  client_ok c -> ro_condition req = setCondition cond -> ro_op req = Some o ->
  safe (treeQuery req timeout) (fun r c' => client_ok c' /\ same_dirs c c' /\
    (ror_status r = Some PC_TIMEOUT \/ exists st a,
       ror_status r = Some (PC_Status_of st) /\
       happened o cond (abs (superRoot (client_tree c))) a (abs (superRoot (client_tree c))) /\
       a = match st, o with
           | OK, OpListDirectory _ => (C_OK, "", default [] (ror_list_directory r))
           | OK, _ => (C_OK, default "" (ror_read r), [])
           | _, _ => no_answer (C_Status_of st)
           end)) c.
Proof.
  intros [Hok Hid] Hc Ho. unfold treeQuery, safe. wp_step.
  pose proof (ro_happened req o cond (client_tree c) (law_wf _ Hok) Hc Ho) as (r & t' & Hr & _ & Hh)%safe_run.
  apply wp_zoom. eapply wp_mono; [by apply (law_query _ req timeout r t' Hok)|done|].
  intros [resp| |] e' (Hok' & Hd & Hst); [| |done]; apply wp_ret; (split; [done|]); (split; [done|]).
  - rewrite Hst. by right.
  - by left.
Qed.

Lemma safe_readOperation {A} o wd cond timeout req (m : M (Client E) (C_Result * A)) (empty : A)
    (get : ReadOnlyTree_Response -> A) (out : A -> string * list string) (c : Client E) :
  client_ok c ->
  m = (let! (result, realPath) := lift (canonicalize (op_path o) wd) in
       if negb (bool_decide (c_status result = C_OK)) then ret (result, empty) else
       let! response := treeQuery (req realPath) timeout in
       if pc_is_ok (ror_status response) then ret (C_Result_init, get response)
       else let! error := lift (treeError (ror_status response) (ror_error response)) in ret (error, empty)) ->
  (forall p, ro_condition (req p) = setCondition cond /\ ro_op (req p) = Some (at_path p o)) ->
  out empty = ("", []) ->
  (forall r p, (C_OK, (out (get r)).1, (out (get r)).2) =
     match at_path p o with
     | OpListDirectory _ => (C_OK, "", default [] (ror_list_directory r))
     | _ => (C_OK, default "" (ror_read r), [])
     end) ->
  safe (let! (r, x) := m in ret (c_status r, (out x).1, (out x).2)) (call_done o wd cond c) c.
Proof.
  intros Hok -> Hreq Hempty Hget. unfold safe, call_done, call_spec. do 3 wp_step.
  destruct (canonicalize_total (op_path o) wd) as (res & p & -> & [[Hres ->]|[Hres ->]]).
  2: { rewrite Hres, bool_decide_false by done. cbn [negb]. do 2 apply wp_ret. by rewrite Hres, Hempty. }
  rewrite Hres, bool_decide_true by done. cbn [negb]. destruct (Hreq p) as [Hc Ho]. wp_step.
  eapply wp_mono; [by apply (safe_treeQuery _ (at_path p o) cond)|done|].
  intros r c1 (Hok1 & Hd1 & Hr).
  destruct Hr as [Hst|(st & a & Hst & Hh & Ha)]; rewrite Hst.
  { apply wp_bind, wp_lift, wp_ret, wp_ret. rewrite Hempty. split; [done|]. right.
    split; [done|]. left. by apply same_fs. }
  unfold same_dirs in Hd1. rewrite <-Hd1 in Hh at 2. rewrite pc_is_ok_of, treeError_of. case_bool_decide as Hs.
  - subst st. do 2 apply wp_ret. split; [done|]. left. cbn. rewrite (Hget r p). subst a.
    by destruct o.
  - apply wp_bind, wp_lift, wp_ret, wp_ret. rewrite Hempty. split; [done|]. left. cbn. subst a.
    by destruct st.
Qed.

Lemma client_run_done o wd cond timeout (c : Client E) :
  client_ok c -> client_op o = true ->
  safe (client_run o wd cond timeout) (call_done o wd cond c) c.
Proof.
  intros Hok Ho. destruct o as [p|p|p|p s|p|p|]; try done.
  - by apply (safe_readWriteOperation (OpMakeDirectory p)).
  - by eapply (safe_readOperation (OpListDirectory p) _ _ timeout
      (fun realPath => mkReadOnlyTree_Request (setCondition cond) (Some realPath) None)
      _ [] (fun r => default [] (ror_list_directory r)) (fun l => ("", l))).
  - by apply (safe_readWriteOperation (OpRemoveDirectory p)).
  - by apply (safe_readWriteOperation (OpWrite p s)).
  - by eapply (safe_readOperation (OpRead p) _ _ timeout
      (fun realPath => mkReadOnlyTree_Request (setCondition cond) None (Some realPath))
      _ "" (fun r => default "" (ror_read r)) (fun s => (s, []))).
  - by apply (safe_readWriteOperation (OpRemoveFile p)).
Qed.

(** C18: the library on a leader that keeps [LeaderTree]'s promises. Any sequence
    of calls returns, without a fault, and each call's answer and effect are
    those of the operation of the abstract store on the canonical path, its
    condition checked in the same step; a call that timed out happened or not,
    and one whose path is bad is refused and does nothing. *)
Theorem client_refines l (c : Client E) :
  client_ok c -> Forall (fun k => client_op (call_op k) = true) l ->
  exists answers c', client_calls l c = Ok (answers, c') /\ client_ok c' /\
    calls_spec (abs (superRoot (client_tree c))) l answers (abs (superRoot (client_tree c'))).
Proof.
  revert c. induction l as [|k l IH]; intros c Hok Hl; simpl.
  { exists [], c. split; [done|]. split; [done|constructor]. }
  apply Forall_cons in Hl as [Hk Hl].
  pose proof (client_run_done _ (call_wd k) (call_condition k) (call_timeout k) c Hok Hk)
    as (a & c1 & Ha & Hok1 & Hcall)%safe_run.
  destruct (IH c1 Hok1 Hl) as (rest & c' & Hrest & Hok' & Hspec).
  exists (a :: rest), c'. unfold bind. rewrite Ha, Hrest. split; [done|]. split; [done|].
  by econstructor.
Qed.
End Spec.
