(* ===== verification/MockClient.v ===== *)
(** * The mock of the leader

    [Client/MockClientImpl.cc]: [TreeLeaderRPC] runs the requests on a tree in
    the client's own process, so that an application can be tested without a
    cluster. The application may intercept a request with [TestingCallbacks];
    that a callback may call the library again is not modelled. The clock is a
    parameter, read at successive [ticks]. *)

From Stdlib Require Import ZArith Lia Ascii String.
From stdpp Require Import base gmap strings list fin_maps sorting.
From S2P Require Import Prelude StringUtil Printf Log ClientProto Tree TreeSpec TreeRPC StateMachine Client ClientSpec ClientTree.
Local Open Scope string_scope.
Local Open Scope Z_scope.
Local Open Scope list_scope.

(** [include/LogCabin/Client.h]: [Some] is a response the application made up. *)
Record TestingCallbacks : Type := mkTestingCallbacks {
  stateMachineQuery : Query_Request -> option Query_Response;
  stateMachineCommand : Command_Request -> option Command_Response
}.

(** The base class intercepts nothing. *)
Definition TestingCallbacks_init : TestingCallbacks :=
  mkTestingCallbacks (fun _ => None) (fun _ => None).

Record TreeLeaderRPC : Type := mkTreeLeaderRPC {
  callbacks : TestingCallbacks;
  tree : Tree;
  ticks : nat
}.
#[export] Instance TreeLeaderRPC_eta : Eta TreeLeaderRPC := fun t =>
  mkTreeLeaderRPC (callbacks t) (tree t) (ticks t).

Definition TreeLeaderRPC_init (callbacks : TestingCallbacks) : TreeLeaderRPC :=
  mkTreeLeaderRPC callbacks Tree_init 0.

Section Mock.
Context (clock : nat -> Z).

Definition mock_now : M TreeLeaderRPC Z :=
  let! s := get in
  put (s <| ticks := S (ticks s) |>) ;;;
  ret (clock (ticks s)).

Definition on_mock_tree {A} (m : M Tree A) : M TreeLeaderRPC A :=
  zoom tree (fun t s => s <| tree := t |>) m.

Definition mock_query (request : Query_Request) (timeout : Z) : M TreeLeaderRPC (RPCStatus Query_Response) :=
  let! s := get in
  match stateMachineQuery (callbacks s) request with
  | Some response => ret (RPC_OK response)
  | None =>
      let! t := mock_now in
      if timeout <? t then ret RPC_TIMEOUT else
      match query_tree request with
      | Some r => let! response := on_mock_tree (readOnlyTreeRPC r) in
                  ret (RPC_OK (mkQuery_Response (Some response)))
      | None => fail Panicked
      end
  end.

Definition mock_command (request : Command_Request) (timeout : Z) :
    M TreeLeaderRPC (RPCStatus Command_Response) :=
  let! s := get in
  match stateMachineCommand (callbacks s) request with
  | Some response => ret (RPC_OK response)
  | None =>
      let! t := mock_now in
      if timeout <? t then ret RPC_TIMEOUT else
      match cmd_tree request, cmd_open_session request, cmd_close_session request with
      | Some r, _, _ => let! response := on_mock_tree (readWriteTreeRPC r) in
                        ret (RPC_OK (Command_Response_init <| resp_tree := Some response |>))
      | None, Some _, _ => ret (RPC_OK (Command_Response_init <| resp_open_session := Some 1 |>))
      | None, None, Some _ => ret (RPC_OK Command_Response_init)
      | None, None, None => fail Panicked
      end
  end.

(** An object of class [TreeLeaderRPC::Call] holds its request; whatever the
    status of the call, [wait] returns [OK]. *)
Definition mock_wait (request : Command_Request) (timeout : Z) :
    M TreeLeaderRPC (CallStatus Command_Response) :=
  let! status := mock_command request timeout in
  ret (Call_OK match status with RPC_OK response => response | _ => Command_Response_init end).

#[export] Instance mock_clock : SteadyClock TreeLeaderRPC := mock_now.

#[export] Instance mock_leader : LeaderRPCBase TreeLeaderRPC := {
  LeaderCall := Command_Request;
  leader_call o := match o return OpRequest o -> Z -> M TreeLeaderRPC (RPCStatus (OpResponse o)) with
                   | STATE_MACHINE_QUERY => mock_query
                   | STATE_MACHINE_COMMAND => mock_command
                   | _ => fun _ _ => fail Panicked
                   end;
  startCall request timeout := ret request;
  waitCall := mock_wait;
  cancelCall _ := ret tt
}.

(** A request that returned leaves the tree well formed, or as it was. *)
Lemma rw_wf t tr r t' : tree_wf tr -> readWriteTreeRPC t tr = Ok (r, t') -> tree_wf t'.
Proof.
  intros Hwf Hr. pose proof (readWriteTreeRPC_total t tr Hwf) as Hrw. cbv zeta in Hrw.
  unfold safe, wp in Hrw. rewrite Hr in Hrw. case_decide; [destruct (rw_op t); [apply Hrw|done]|].
  unfold tree_wf. by rewrite (proj1 Hrw).
Qed.

Lemma ro_same q tr r t' : tree_wf tr -> readOnlyTreeRPC q tr = Ok (r, t') -> superRoot t' = superRoot tr.
Proof.
  intros Hwf Hr. pose proof (readOnlyTreeRPC_total q tr Hwf) as Hro. cbv zeta in Hro.
  unfold safe, wp in Hro. rewrite Hr in Hro. case_decide; [destruct (ro_op q); [apply Hro|done]|].
  apply Hro.
Qed.

(** The mock keeps the promises of a leader when nothing is intercepted. *)
Definition mock_ok (s : TreeLeaderRPC) : Prop :=
  tree_wf (tree s) /\ callbacks s = TestingCallbacks_init.

Lemma safe_mock_now s (Q : Z -> TreeLeaderRPC -> Prop) :
  Q (clock (ticks s)) (s <| ticks := S (ticks s) |>) -> safe mock_now Q s.
Proof. done. Qed.

#[export, refine] Instance mock_leader_tree : LeaderTree TreeLeaderRPC := {
  leader_tree := tree;
  leader_ok := mock_ok
}.
Proof.
  - by intros s [? _].
  - intros s [Hwf Hcb]. apply safe_mock_now. done.
  - intros s timeout [Hwf Hcb]. unfold leader_call, mock_leader, mock_command, safe.
    do 2 wp_step. rewrite Hcb. simpl. wp_step. apply safe_mock_now.
    destruct (timeout <? _); apply wp_ret; (split; [done|]); (split; [done|]); [done|].
    by exists 1.
  - intros s t timeout r t' [Hwf Hcb] _ Hr. unfold leader_call, mock_leader, mock_command, safe.
    do 2 wp_step. rewrite Hcb. simpl. wp_step. apply safe_mock_now.
    destruct (timeout <? _); [apply wp_ret; split; [done|]; by left|].
    wp_step. apply wp_zoom. unfold wp at 1. simpl. rewrite Hr. apply wp_ret. simpl.
    split; [|done]. split; [|done]. by eapply rw_wf.
  - intros s q timeout r t' [Hwf Hcb] Hr. unfold leader_call, mock_leader, mock_query, safe.
    do 2 wp_step. rewrite Hcb. simpl. wp_step. apply safe_mock_now.
    destruct (timeout <? _); [by apply wp_ret|].
    wp_step. apply wp_zoom. unfold wp at 1. simpl. rewrite Hr. apply wp_ret. simpl.
    pose proof (ro_same _ _ _ _ Hwf Hr) as Hroot. split; [|done]. split; [|done].
    unfold tree_wf. simpl. by rewrite Hroot.
Defined.
End Mock.

(** ** A run *)

#[local] Instance demo_clock : SteadyClock TreeLeaderRPC := mock_clock Z.of_nat.
#[local] Instance demo_leader : LeaderRPCBase TreeLeaderRPC := mock_leader Z.of_nat.
#[local] Instance demo_leader_tree : LeaderTree TreeLeaderRPC := mock_leader_tree Z.of_nat.

Definition demo_client : Client TreeLeaderRPC :=
  ClientImpl_init 1000 (TreeLeaderRPC_init TestingCallbacks_init).

Definition demo_calls : list call :=
  [mkCall (OpMakeDirectory "a/b") "/" ("", "") TimePoint_max;
   mkCall (OpWrite "b/../f" "x") "/a" ("", "") TimePoint_max;
   mkCall (OpRead "./f") "/a" ("/a/f", "x") TimePoint_max;
   mkCall (OpRead "f") "/a" ("/a/f", "y") TimePoint_max;
   mkCall (OpListDirectory "../a") "/a" ("", "") TimePoint_max;
   mkCall (OpRemoveFile "../../f") "/a" ("", "") TimePoint_max;
   mkCall (OpRemoveFile "f") "/a" ("", "") (-1)].

Example demo_calls_run :
  match client_calls demo_calls demo_client with
  | Ok (answers, c) =>
      answers = [(C_OK, "", []); (C_OK, "", []); (C_OK, "x", []); (C_CONDITION_NOT_MET, "", []);
                 (C_OK, "", ["b/"; "f"]); (C_INVALID_ARGUMENT, "", []); (C_TIMEOUT, "", [])] /\
      nextRPCNumber (exactlyOnceRPCHelper c) = 4 /\ outstandingRPCNumbers (exactlyOnceRPCHelper c) = ∅
  | Fail _ => False
  end.
Proof. vm_compute. split; [reflexivity|]. split; reflexivity. Qed.

Lemma client_refines_witness :
  exists answers c', client_calls demo_calls demo_client = Ok (answers, c') /\
    client_ok c' /\
    calls_spec (abs (superRoot (client_tree demo_client))) demo_calls answers
      (abs (superRoot (client_tree c'))).
Proof.
  apply (client_refines demo_calls demo_client).
  - split; [|done]. split; [apply Tree_init_wf|done].
  - repeat constructor.
Defined.
