(* ===== verification/MessageSocket.v ===== *)
(** * Message sockets

    [RPC/MessageSocket.{h,cc}]: discrete messages over a TCP connection. A
    message goes over the wire as a header of 16 bytes and its contents. The
    event loop calls [readable] and [writable]; any thread may call
    [sendMessage]. What the kernel answers to [recv] and [sendmsg] is a script
    in the state: bytes arrive in any portions, calls are interrupted or would
    block, the other side goes away. *)

From Stdlib Require Import ZArith Lia Ascii String.
From stdpp Require Import base strings list.
From S2P Require Import Prelude Stream Endian.
Local Open Scope Z_scope.
Local Open Scope list_scope.

(** ** The kernel *)

(** The errors the code tells apart. *)
Inductive errno : Type :=
| EAGAIN | EINTR | ECONNRESET | ETIMEDOUT | EHOSTUNREACH | EPIPE | OtherErrno.

(** What the receive queue of the socket holds next: some bytes (at least one),
    an error for one call, or the end of the stream. *)
Inductive recv_event : Type :=
| RecvData (c : ascii) (b : bytes)
| RecvErrno (e : errno)
| RecvShutdown.

(** [recv(fd, buf, maxBytes, MSG_DONTWAIT)]. A call for no bytes returns none
    if there are some. *)
Definition recv (maxBytes : Z) : M (list recv_event) (errno + bytes) := fun s =>
  match s with
  | [] => Ok (inl EAGAIN, [])
  | RecvData c b :: rest =>
      let n := Z.to_nat maxBytes in
      Ok (inr (take n (c :: b)),
          match drop n (c :: b) with [] => rest | c' :: b' => RecvData c' b' :: rest end)
  | RecvErrno e :: rest => Ok (inl e, rest)
  | RecvShutdown :: _ => Ok (inr [], s)
  end.

(** The next answers of [sendmsg]: it takes up to so many bytes, or fails. *)
Inductive send_event : Type :=
| SendTook (n : nat)
| SendErrno (e : errno).

(** The sending side of the kernel: its next answers, and the bytes taken. *)
Record SendKernel : Type := mkSendKernel { send_script : list send_event; wire : bytes }.

#[export] Instance SendKernel_eta : Eta SendKernel :=
  fun k => mkSendKernel (send_script k) (wire k).

(** [sendmsg] of the buffers [iov]. *)
Definition sendmsg (iov : list bytes) : M SendKernel (errno + Z) := fun k =>
  match send_script k with
  | [] => Ok (inl EAGAIN, k)
  | SendErrno e :: rest => Ok (inl e, k <| send_script := rest |>)
  | SendTook n :: rest =>
      let b := take n (concat iov) in
      Ok (inr (Z.of_nat (length b)), mkSendKernel rest (wire k ++ b))
  end.

(** ** Data *)

Record Header : Type := mkHeader { fixed : Z; version : Z; payloadLength : Z; messageId : Z }.

(** [sizeof(Header)]. *)
Definition sizeof_Header : Z := 16.

(** The header as it goes over the wire. *)
Definition Header_toBigEndian (h : Header) : bytes :=
  be16 (fixed h) ++ be16 (version h) ++ be32 (payloadLength h) ++ be64 (messageId h).

Definition Header_fromBigEndian (b : bytes) : Header :=
  mkHeader (of_be32 (take 2 b)) (of_be32 (take 2 (drop 2 b)))
           (of_be32 (take 4 (drop 4 b))) (of_be32 (take 8 (drop 8 b))).

(** A message being received: [in_header] is the memory of the header as it
    came from the wire (the source converts it in place when it is complete;
    here it is converted where it is used), [in_message] the part of the payload
    received so far. *)
Record Inbound : Type := mkInbound { in_bytesRead : Z; in_header : bytes; in_message : bytes }.

Definition Inbound_init : Inbound := mkInbound 0 [] [].

Record Outbound : Type := mkOutbound { out_bytesSent : Z; out_header : bytes; out_message : bytes }.

#[export] Instance Outbound_eta : Eta Outbound :=
  fun o => mkOutbound (out_bytesSent o) (out_header o) (out_message o).

Definition Outbound_init (id : Z) (message : bytes) : Outbound :=
  mkOutbound 0 (Header_toBigEndian (mkHeader 0xdaf4 1 (u32 (Z.of_nat (length message))) id)) message.

(** [Event::File::Monitor]: whether the event loop is asked to report the file,
    until it is disabled forever. *)
Inductive Monitor : Type := Disabled | Events (enabled : bool).

Definition setEvents (enabled : bool) (m : Monitor) : Monitor :=
  match m with Disabled => Disabled | Events _ => Events enabled end.

Record MessageSocket : Type := mkMessageSocket {
  maxMessageLength : Z;
  inbound : Inbound;
  outboundQueue : list Outbound;
  receiveSocket : list recv_event;
  sendSocket : SendKernel;
  receiveSocketMonitor : Monitor;
  sendSocketMonitor : Monitor
}.

#[export] Instance MessageSocket_eta : Eta MessageSocket :=
  fun s => mkMessageSocket (maxMessageLength s) (inbound s) (outboundQueue s) (receiveSocket s)
             (sendSocket s) (receiveSocketMonitor s) (sendSocketMonitor s).

Definition MessageSocket_construct (kernel_in : list recv_event) (kernel_out : SendKernel) (maxLen : Z) :
  MessageSocket :=
  mkMessageSocket maxLen Inbound_init [] kernel_in kernel_out (Events true) (Events false).

(** [MessageSocket::Handler]. *)
Class Handler (H : Type) := {
  handleReceivedMessage : Z -> bytes -> M (MessageSocket * H) unit;
  handleDisconnect : M (MessageSocket * H) unit
}.

(** ** Sending *)

(** Callable from any thread; the two parts are each under a lock, and the
    second only repeats what is asked of the event loop. *)
Definition sendMessage (id : Z) (contents : bytes) : M MessageSocket unit :=
  let! s := get in
  if maxMessageLength s <? Z.of_nat (length contents) then fail Panicked
  else
    let kick := bool_decide (outboundQueue s = []) in
    modify (fun s => s <| outboundQueue := outboundQueue s ++ [Outbound_init id contents] |>) ;;;
    when kick (modify (fun s => s <| sendSocketMonitor := setEvents true (sendSocketMonitor s) |>)).

(** Skips the part of the buffers that has been sent. *)
Fixpoint iov_skip (bytesSent : Z) (iov : list bytes) : list bytes :=
  match iov with
  | [] => []
  | b :: iov' =>
      if bytesSent <? Z.of_nat (length b) then drop (Z.to_nat bytesSent) b :: iov'
      else [] :: iov_skip (bytesSent - Z.of_nat (length b)) iov'
  end.

Section Socket.
Context {H : Type} `{Handler H}.

Abbreviation W := (MessageSocket * H)%type.

Definition on_socket {A} (m : M MessageSocket A) : M W A := zoom fst (fun s w => (s, w.2)) m.

Definition disable_monitors : M MessageSocket unit :=
  modify (fun s => s <| receiveSocketMonitor := Disabled |> <| sendSocketMonitor := Disabled |>).

Definition disconnect : M W unit := on_socket disable_monitors ;;; handleDisconnect.

(** [MessageSocket::close]; the lock on the event loop keeps its handlers out. *)
Definition close : M W unit := on_socket disable_monitors ;;; handleDisconnect.

(** [outbound.bytesSent += bytesSent]; the message goes back to the front of the
    queue if some of it is left. Returns whether the loop goes on. *)
Definition sent_successfully (outbound : Outbound) (bytesSent : Z) : M W bool :=
  let outbound := outbound <| out_bytesSent := out_bytesSent outbound + bytesSent |> in
  if negb (out_bytesSent outbound =? sizeof_Header + Z.of_nat (length (out_message outbound))) then
    on_socket (modify (fun s => s <| sendSocketMonitor := setEvents true (sendSocketMonitor s) |>)) ;;;
    on_socket (modify (fun s => s <| outboundQueue := outbound :: outboundQueue s |>)) ;;;
    ret false
  else ret true.

(** The message in front is taken off the queue for the call to the kernel; the
    mutex of the queue is free until it is put back, and [others] is what the
    other threads do then. *)
Definition writable_round (others : M W unit) : M W bool :=
  let! s := on_socket get in
  match outboundQueue s with
  | [] => ret false
  | outbound :: queue =>
      on_socket (modify (fun s => s <| outboundQueue := queue |>)) ;;;
      others ;;;
      let iov := iov_skip (out_bytesSent outbound) [out_header outbound; out_message outbound] in
      let! r := on_socket (zoom sendSocket (fun k s => s <| sendSocket := k |>) (sendmsg iov)) in
      match r with
      | inr bytesSent => sent_successfully outbound bytesSent
      | inl EAGAIN | inl EINTR => sent_successfully outbound 0
      | inl ECONNRESET | inl EPIPE => disconnect ;;; ret false
      | inl _ => fail Panicked
      end
  end.

(** The loop makes one call to the kernel per round, so that the length of the
    kernel's script bounds it. [others] is for one round each. *)
Fixpoint writable_loop (n : nat) (others : list (M W unit)) : M W unit :=
  match n with
  | O => fail Blocked
  | S n' =>
      let! again := writable_round (hd (ret tt) others) in
      if again then writable_loop n' (tl others) else ret tt
  end.

Definition writable (others : list (M W unit)) : M W unit :=
  let! s := on_socket get in
  writable_loop (S (length (send_script (sendSocket s)))) others.

(** The event loop finds the socket writable; the request was for one event. *)
Definition SendSocket_handleFileEvent (others : list (M W unit)) : M W unit :=
  let! s := on_socket get in
  match sendSocketMonitor s with
  | Events true =>
      on_socket (modify (fun s => s <| sendSocketMonitor := Events false |>)) ;;; writable others
  | _ => ret tt
  end.

(** ** Receiving *)

(** [MessageSocket::read]; [None] is [-1]. *)
Definition read (maxBytes : Z) : M MessageSocket (option bytes) :=
  let! actual := zoom receiveSocket (fun k s => s <| receiveSocket := k |>) (recv maxBytes) in
  match actual with
  | inr [] => ret None
  | inr b => ret (Some b)
  | inl ECONNRESET | inl ETIMEDOUT | inl EHOSTUNREACH => ret None
  | inl EAGAIN | inl EINTR => ret (Some [])
  | inl _ => fail Panicked
  end.

(** The first half of the loop of [readable]: returns whether the header is
    complete and acceptable. *)
Definition receive_header : M W bool :=
  let! s := on_socket get in
  let ib := inbound s in
  let! got := on_socket (read (sizeof_Header - in_bytesRead ib)) in
  match got with
  | None => disconnect ;;; ret false
  | Some b =>
      let bytesRead := in_bytesRead ib + Z.of_nat (length b) in
      let memory := take (Z.to_nat (in_bytesRead ib)) (in_header ib) ++ b in
      on_socket (modify (fun s => s <| inbound := mkInbound bytesRead memory (in_message ib) |>)) ;;;
      if bytesRead <? sizeof_Header then ret false
      else
        let header := Header_fromBigEndian memory in
        if negb (fixed header =? 0xdaf4) then disconnect ;;; ret false
        else if negb (version header =? 1) then disconnect ;;; ret false
        else if maxMessageLength s <? payloadLength header then disconnect ;;; ret false
        else
          on_socket (modify (fun s => s <| inbound := mkInbound bytesRead memory [] |>)) ;;;
          ret true
  end.

(** The second half: returns whether the loop goes on. *)
Definition receive_payload : M W bool :=
  let! s := on_socket get in
  let ib := inbound s in
  let header := Header_fromBigEndian (in_header ib) in
  let payloadBytesRead := in_bytesRead ib - sizeof_Header in
  let! got := on_socket (read (payloadLength header - payloadBytesRead)) in
  match got with
  | None => disconnect ;;; ret false
  | Some b =>
      let bytesRead := in_bytesRead ib + Z.of_nat (length b) in
      let message := take (Z.to_nat payloadBytesRead) (in_message ib) ++ b in
      on_socket (modify (fun s => s <| inbound := mkInbound bytesRead (in_header ib) message |>)) ;;;
      if bytesRead <? sizeof_Header + payloadLength header then ret false
      else
        on_socket (modify (fun s => s <| inbound := mkInbound bytesRead (in_header ib) [] |>)) ;;;
        handleReceivedMessage (messageId header) message ;;;
        on_socket (modify (fun s => s <| inbound := mkInbound 0 (in_header (inbound s)) (in_message (inbound s)) |>)) ;;;
        ret true
  end.

Definition receive_round : M W bool :=
  let! s := on_socket get in
  let! complete := if in_bytesRead (inbound s) <? sizeof_Header then receive_header else ret true in
  if complete then receive_payload else ret false.

Fixpoint readable_loop (n : nat) : M W unit :=
  match n with
  | O => fail Blocked
  | S n' => let! again := receive_round in if again then readable_loop n' else ret tt
  end.

(** The bytes that have arrived. *)
Definition arrived (l : list recv_event) : bytes :=
  concat (map (fun e => match e with RecvData c b => c :: b | _ => [] end) l).

(** A round that is not the last one takes at least one byte from the kernel,
    except perhaps the first. *)
Definition readable : M W unit :=
  let! s := on_socket get in
  readable_loop (2 + length (arrived (receiveSocket s))).

(** The event loop reports the socket as long as there is something to read. *)
Definition ReceiveSocket_handleFileEvent : M W unit :=
  let! s := on_socket get in
  match receiveSocketMonitor s with
  | Events true => readable
  | _ => ret tt
  end.

End Socket.
