(* ===== verification/MessageSocketSpec.v ===== *)
(** * What message sockets promise

    The messages handed to [sendMessage] on one side arrive at the handler of
    the other side whole, once and in order, however the kernel cuts the bytes
    into portions and whatever other threads send meanwhile; and as long as
    something is queued, the event loop is asked to report the socket. *)

From Stdlib Require Import ZArith Lia Ascii String.
From stdpp Require Import base strings list.
From S2P Require Import Prelude Stream Endian MessageSocket.
Local Open Scope Z_scope.
Local Open Scope list_scope.

(** ** Frames *)

Definition header_of (m : Z * bytes) : Header := mkHeader 0xdaf4 1 (u32 (Z.of_nat (length m.2))) m.1.

Definition frame_of (m : Z * bytes) : bytes := Header_toBigEndian (header_of m) ++ m.2.

Definition frames (ms : list (Z * bytes)) : bytes := concat (map frame_of ms).

Lemma frames_app ms ms' : frames (ms ++ ms') = frames ms ++ frames ms'.
Proof. unfold frames. by rewrite map_app, concat_app. Qed.

#[local] Opaque be16 be32 be64.

Lemma header_length h : length (Header_toBigEndian h) = 16%nat.
Proof. unfold Header_toBigEndian. by rewrite !length_app, !be16_length, be32_length, be64_length. Qed.

Lemma header_fields (a b c d rest : bytes) :
  length a = 2%nat -> length b = 2%nat -> length c = 4%nat -> length d = 8%nat ->
  Header_fromBigEndian ((a ++ b ++ c ++ d) ++ rest) = mkHeader (of_be32 a) (of_be32 b) (of_be32 c) (of_be32 d).
Proof.
  intros Ha Hb Hc Hd. unfold Header_fromBigEndian.
  replace 8%nat with (2 + (2 + 4))%nat at 2 by done. replace 4%nat with (2 + 2)%nat at 2 by done.
  rewrite <-!drop_drop, <-!app_assoc. rewrite !(drop_app_length' a), !(drop_app_length' b), (drop_app_length' c) by done.
  by rewrite (take_app_length' a), (take_app_length' b), (take_app_length' c), (take_app_length' d).
Qed.

Lemma header_roundtrip h rest :
  0 <= fixed h < 65536 -> 0 <= version h < 65536 -> 0 <= payloadLength h < 4294967296 ->
  is_u64 (messageId h) -> Header_fromBigEndian (Header_toBigEndian h ++ rest) = h.
Proof.
  intros Hf Hv Hp Hm. unfold Header_toBigEndian.
  rewrite header_fields by auto using be16_length, be32_length, be64_length. destruct h as [f v p m]. simpl in *.
  by rewrite !of_be32_be16, of_be32_be32, of_be32_be64.
Qed.

(** ** Sending *)

Definition unsent (o : Outbound) : bytes := drop (Z.to_nat (out_bytesSent o)) (out_header o ++ out_message o).

Record outbound_ok (o : Outbound) : Prop := {
  ok_header : length (out_header o) = 16%nat;
  ok_bytesSent : 0 <= out_bytesSent o < sizeof_Header + Z.of_nat (length (out_message o))
}.

Lemma iov_skip_concat n iov : 0 <= n -> concat (iov_skip n iov) = drop (Z.to_nat n) (concat iov).
Proof.
  revert n. induction iov as [|b iov IH]; intros n Hn; cbn [iov_skip concat]; [by rewrite drop_nil|].
  destruct (Z.ltb_spec n (Z.of_nat (length b))).
  - cbn [concat]. by rewrite drop_app_le by lia.
  - cbn [concat]. rewrite app_nil_l, IH, drop_app_ge by lia. f_equal. lia.
Qed.

#[local] Arguments iov_skip : simpl never.


(** A handler that writes down what happens, and the messages submitted. *)
Record Recorder : Type := mkRecorder {
  submitted : list (Z * bytes);
  received : list (Z * bytes);
  disconnected : bool
}.

#[export] Instance Recorder_eta : Eta Recorder :=
  fun r => mkRecorder (submitted r) (received r) (disconnected r).

#[export] Instance Recorder_handler : Handler Recorder := {|
  handleReceivedMessage id b := modify (fun w => (w.1, w.2 <| received := received w.2 ++ [(id, b)] |>));
  handleDisconnect := modify (fun w => (w.1, w.2 <| disconnected := true |>))
|}.

Abbreviation W := (MessageSocket * Recorder)%type.

Definition submit (m : Z * bytes) : M W unit :=
  on_socket (sendMessage m.1 m.2) ;;; modify (fun w => (w.1, w.2 <| submitted := submitted w.2 ++ [m] |>)).

(** What happens to the sending side: a thread sends a message; the event loop
    reports the socket, and meanwhile other threads send theirs; the kernel is
    ready for more. *)
Inductive send_action : Type :=
| Submit (m : Z * bytes)
| Report (others : list (list (Z * bytes)))
| Ready (answers : list send_event).

Definition run_send (a : send_action) : M W unit :=
  match a with
  | Submit m => submit m
  | Report others => SendSocket_handleFileEvent (map (fun ms => forM ms submit) others)
  | Ready answers =>
      on_socket (modify (fun s => s <| sendSocket := mkSendKernel answers (wire (sendSocket s)) |>))
  end.

(** The bytes taken by the kernel and those still queued are the frames of the
    messages submitted; when something is queued, the event loop is asked to
    report the socket. After a disconnect, the kernel has a prefix. *)
Definition sending (w : W) : Prop :=
  if disconnected w.2 then wire (sendSocket w.1) `prefix_of` frames (submitted w.2) /\ sendSocketMonitor w.1 = Disabled
  else
    wire (sendSocket w.1) ++ concat (map unsent (outboundQueue w.1)) = frames (submitted w.2) /\
    Forall outbound_ok (outboundQueue w.1) /\
    (outboundQueue w.1 <> [] -> sendSocketMonitor w.1 = Events true) /\
    sendSocketMonitor w.1 <> Disabled.

(** The same while a message is out of the queue for the call to the kernel. *)
Definition sending_with (current : bytes) (w : W) : Prop :=
  disconnected w.2 = false /\
  wire (sendSocket w.1) ++ current ++ concat (map unsent (outboundQueue w.1)) = frames (submitted w.2) /\
  Forall outbound_ok (outboundQueue w.1) /\ sendSocketMonitor w.1 <> Disabled.

Definition only_panics (f : fault) : Prop := f = Panicked.

(** The kernel's script does not change. *)
Definition same_script (w w' : W) : Prop := send_script (sendSocket w'.1) = send_script (sendSocket w.1).

Lemma unsent_init id b : unsent (Outbound_init id b) = frame_of (id, b).
Proof. done. Qed.

Lemma outbound_init_ok id b : outbound_ok (Outbound_init id b).
Proof. split; [apply header_length|]. unfold Outbound_init, sizeof_Header. simpl. lia. Qed.

(** What [submit] does when it does not panic. *)
Lemma wp_submit m w (Q : unit -> W -> Prop) :
  (forall mon, (mon = sendSocketMonitor w.1 /\ outboundQueue w.1 <> [] \/ mon = setEvents true (sendSocketMonitor w.1)) ->
     Q tt (w.1 <| outboundQueue := outboundQueue w.1 ++ [Outbound_init m.1 m.2] |> <| sendSocketMonitor := mon |>,
           w.2 <| submitted := submitted w.2 ++ [m] |>)) ->
  wp only_panics (submit m) Q w.
Proof.
  intros HQ. destruct w as [s r]. unfold submit, on_socket, sendMessage. wp_go; simpl in *.
  - done.
  - apply HQ. by right.
  - apply bool_decide_eq_false in Hw. destruct s. apply HQ. by left.
Qed.

Lemma frame_of_pair m : unsent (Outbound_init m.1 m.2) = frame_of m.
Proof. by destruct m. Qed.

Lemma submit_sending_with cur m w :
  sending_with cur w ->
  wp only_panics (submit m) (fun _ w' => sending_with cur w' /\ same_script w w') w.
Proof.
  intros (Hd & Hw & Hok & Hmon). apply wp_submit. intros mon Hm. split; [|done].
  split_and!; [done| | |].
  - simpl. rewrite map_app, concat_app, frames_app, <-Hw. cbn [map concat]. unfold frames. cbn [map concat].
    by rewrite frame_of_pair, !app_nil_r, !app_assoc.
  - apply Forall_app. split; [done|]. apply Forall_singleton, outbound_init_ok.
  - simpl. destruct Hm as [[-> _]| ->]; [done|]. by destruct (sendSocketMonitor w.1).
Qed.

Lemma submit_sending m w : sending w -> wp only_panics (submit m) (fun _ w' => sending w') w.
Proof.
  unfold sending at 1. destruct (disconnected w.2) eqn:Hd.
  - intros [Hp Hmon]. apply wp_submit. intros mon Hm. unfold sending. simpl. rewrite Hd. split.
    + rewrite frames_app. by apply prefix_app_r.
    + destruct Hm as [[-> _]| ->]; [done|]. by rewrite Hmon.
  - intros (Hw & Hok & Hready & Hmon). apply wp_submit. intros mon Hm.
    unfold sending. simpl. rewrite Hd. split_and!.
    + rewrite map_app, concat_app, frames_app, <-Hw. cbn [map concat]. unfold frames. cbn [map concat].
      by rewrite frame_of_pair, !app_nil_r, !app_assoc.
    + apply Forall_app. split; [done|]. apply Forall_singleton, outbound_init_ok.
    + intros _. destruct Hm as [[-> Hne]| ->]; [by apply Hready|]. by destruct (sendSocketMonitor w.1).
    + destruct Hm as [[-> _]| ->]; [done|]. by destruct (sendSocketMonitor w.1).
Qed.

Lemma submits_sending_with cur ms w :
  sending_with cur w ->
  wp only_panics (forM ms submit) (fun _ w' => sending_with cur w' /\ same_script w w') w.
Proof.
  intros Hs. apply (wp_forM _ ms submit (fun _ w' => sending_with cur w' /\ same_script w w') w); [done|].
  intros m _ w' [Hs' Hk]. eapply wp_mono; [by apply (submit_sending_with cur)|done|].
  intros _ w2 [Hs2 Hk2]. split; [done|]. unfold same_script in *. congruence.
Qed.

(** What is left of a message after the kernel took some of it. *)
Lemma unsent_took o n : outbound_ok o ->
  let iov := iov_skip (out_bytesSent o) [out_header o; out_message o] in
  let b := take n (concat iov) in
  let o' := o <| out_bytesSent := out_bytesSent o + Z.of_nat (length b) |> in
  unsent o = b ++ unsent o' /\
  (out_bytesSent o' <> sizeof_Header + Z.of_nat (length (out_message o)) -> outbound_ok o') /\
  (out_bytesSent o' = sizeof_Header + Z.of_nat (length (out_message o)) -> unsent o' = []).
Proof.
  intros [Hh [H0 H1]] iov b o'. unfold sizeof_Header in *.
  assert (concat iov = unsent o) as Hiov.
  { subst iov. rewrite iov_skip_concat by done. unfold unsent. cbn [concat]. by rewrite app_nil_r. }
  assert (length (unsent o) = Z.to_nat (16 + Z.of_nat (length (out_message o)) - out_bytesSent o)) as Hlen.
  { unfold unsent. rewrite length_drop, length_app. lia. }
  assert (length b <= length (unsent o))%nat as Hb by (subst b; rewrite Hiov, length_take; lia).
  assert (unsent o' = drop (length b) (unsent o)) as Ho'.
  { subst o'. unfold unsent. simpl. rewrite drop_drop. f_equal. lia. }
  split_and!.
  - rewrite Ho'. assert (b = take (length b) (unsent o)) as Hbt.
    { subst b. rewrite Hiov, length_take. destruct (Nat.min_spec n (length (unsent o))) as [[? ->]|[? ->]]; [done|].
      by rewrite !take_ge by lia. }
    rewrite Hbt at 1. by rewrite take_drop.
  - intros Hne. split; [done|]. subst o'. simpl in *. unfold sizeof_Header. lia.
  - intros Heq. rewrite Ho'. apply drop_ge. subst o'. simpl in Heq. lia.
Qed.

Lemma disconnect_sending cur w : sending_with cur w -> wp only_panics disconnect (fun _ w' => sending w') w.
Proof.
  intros (Hd & Hw & _). unfold disconnect, on_socket, disable_monitors. wp_go. simpl.
  unfold wp. simpl. unfold sending. simpl. split; [|done]. rewrite <-Hw. by apply prefix_app_r.
Qed.

(** A message with something left goes back to the front. *)
Lemma put_back_sending o w :
  sending_with (unsent o) w -> outbound_ok o ->
  sending ((w.1 <| sendSocketMonitor := setEvents true (sendSocketMonitor w.1) |>)
             <| outboundQueue := o :: outboundQueue w.1 |>, w.2).
Proof.
  intros (Hd & Hw & Hok & Hmon) Ho. unfold sending. simpl. rewrite Hd.
  split_and!; [done|by constructor|..]; by destruct (sendSocketMonitor w.1).
Qed.

Lemma sent_successfully_sending o n w : 0 <= n ->
  let o' := o <| out_bytesSent := out_bytesSent o + n |> in
  sending_with (unsent o') w ->
  (out_bytesSent o' <> sizeof_Header + Z.of_nat (length (out_message o)) -> outbound_ok o') ->
  (out_bytesSent o' = sizeof_Header + Z.of_nat (length (out_message o)) -> unsent o' = []) ->
  wp only_panics (sent_successfully o n)
    (fun again w' => if again then sending_with [] w' /\ w' = w else sending w') w.
Proof.
  intros Hn o' Hs Hok Hdone. unfold sent_successfully. fold o'.
  destruct (Z.eqb_spec (out_bytesSent o') (sizeof_Header + Z.of_nat (length (out_message o)))) as [Heq|Hne].
  - replace (length (out_message o')) with (length (out_message o)) by done. rewrite (proj2 (Z.eqb_eq _ _) Heq). simpl.
    apply wp_ret. split; [|done]. by rewrite Hdone in Hs.
  - replace (length (out_message o')) with (length (out_message o)) by done. rewrite (proj2 (Z.eqb_neq _ _) Hne).
    destruct w as [s r]. unfold on_socket. simpl. wp_go. exact (put_back_sending o' (s, r) Hs (Hok Hne)).
Qed.

Lemma sent_nothing o w : sending_with (unsent o) w -> outbound_ok o ->
  wp only_panics (sent_successfully o 0) (fun again w' => again = false /\ sending w') w.
Proof.
  intros Hs Ho. pose proof Ho as [_ Hsent].
  assert (o <| out_bytesSent := out_bytesSent o + 0 |> = o) as Heq by (destruct o; unfold set_field; simpl; f_equal; lia).
  unfold sent_successfully. rewrite Heq. rewrite (proj2 (Z.eqb_neq _ _)) by lia.
  destruct w as [s r]. unfold on_socket. simpl. wp_go. split; [done|]. exact (put_back_sending o (s, r) Hs Ho).
Qed.

Lemma writable_round_sending ms w :
  sending_with [] w ->
  wp only_panics (writable_round (forM ms submit))
    (fun again w' => if again then sending_with [] w' /\
       (S (length (send_script (sendSocket w'.1))) <= length (send_script (sendSocket w.1)))%nat else sending w') w.
Proof.
  intros (Hd & Hw & Hok & Hmon). destruct w as [s r]. unfold writable_round, on_socket at 1. apply wp_bind, wp_zoom, wp_get. simpl in *.
  destruct (outboundQueue s) as [|o q] eqn:Hq; [apply wp_ret; unfold sending; simpl; rewrite Hd, Hq; done|].
  apply Forall_cons in Hok as [Ho Hok]. apply wp_bind, wp_zoom, wp_modify. apply wp_bind.
  eapply wp_mono; [apply (submits_sending_with (unsent o))|done|]; [by split_and!|].
  intros _ w' [Hs Hsame]. unfold same_script in Hsame. simpl in Hsame. rewrite <-Hsame. clear Hw Hd Hmon Hsame Hok.
  unfold on_socket at 1. apply wp_bind, wp_zoom, wp_zoom. unfold sendmsg, wp.
  pose proof Ho as [_ Hsent]. destruct Hs as (Hd & Hw & Hok & Hmon).
  destruct w' as [s' r']. simpl in *.
  assert (forall k, wire k = wire (sendSocket s') -> sending_with (unsent o) (s' <| sendSocket := k |>, r')) as Hback
    by (intros k Hk; split_and!; [done|simpl; by rewrite Hk|done|done]).
  destruct (send_script (sendSocket s')) as [|[n|e] rest] eqn:Hk.
  - eapply wp_mono; [apply (sent_nothing o); [by apply Hback|done]|done|]. by intros _ w2 [-> Hs2].
  - destruct (unsent_took o n Ho) as (Htook & Hleft & Hdone).
    set (b := take n _) in *.
    eapply wp_mono; [apply sent_successfully_sending; [lia| |done|done]|done|].
    + split_and!; try done. simpl. by rewrite <-Hw, Htook, <-!app_assoc.
    + intros again w2. destruct again; [|done]. intros [Hs2 ->]. split; [done|]. simpl. lia.
  - destruct e; try done;
      [eapply wp_mono; [apply (sent_nothing o); [by apply Hback|done]|done|]; by intros _ w2 [-> Hs2]..| |];
      apply wp_bind; (eapply wp_mono; [apply (disconnect_sending (unsent o)); by apply Hback|done|]; by intros [] w2 Hw2).
Qed.

Definition submits (others : list (list (Z * bytes))) : list (M W unit) := map (fun ms => forM ms submit) others.

Lemma writable_loop_sending n others w :
  sending_with [] w -> (length (send_script (sendSocket w.1)) < n)%nat ->
  wp only_panics (writable_loop n (submits others)) (fun _ w' => sending w') w.
Proof.
  revert others w. induction n as [|n IH]; intros others w Hs Hn; [lia|]. cbn [writable_loop].
  assert (exists ms, hd (ret tt) (submits others) = forM ms submit) as [ms ->]
    by (destruct others as [|ms ?]; [by exists []|by exists ms]).
  assert (tl (submits others) = submits (tl others)) as -> by (by destruct others).
  apply wp_bind. eapply wp_mono; [by apply writable_round_sending|done|].
  intros again w' Hw'. destruct again; [|by apply wp_ret]. destruct Hw' as [Hs' Hlt].
  apply IH; [done|lia].
Qed.

Lemma run_send_sending a w : sending w -> wp only_panics (run_send a) (fun _ w' => sending w') w.
Proof.
  intros Hs. destruct a as [m|others|answers]; cbn [run_send].
  - by apply submit_sending.
  - destruct w as [s r]. unfold SendSocket_handleFileEvent, on_socket at 1. apply wp_bind, wp_zoom, wp_get. simpl.
    destruct (sendSocketMonitor s) as [|[|]] eqn:Hm; try (by apply wp_ret; destruct s).
    unfold sending in Hs. simpl in Hs. destruct (disconnected r) eqn:Hd; [by destruct Hs; congruence|].
    apply wp_bind. unfold on_socket at 1. apply wp_zoom, wp_modify. unfold writable, on_socket at 1. apply wp_bind, wp_zoom, wp_get.
    apply writable_loop_sending; [|simpl; lia]. simpl. destruct Hs as (Hw & Hok & _). by split_and!.
  - unfold on_socket. apply wp_zoom, wp_modify. by destruct w.
Qed.

Definition connected_socket (maxLen : Z) (arriving : list recv_event) : W :=
  (MessageSocket_construct arriving (mkSendKernel [] []) maxLen, mkRecorder [] [] false).

Lemma run_sends_sending l maxLen arriving :
  wp only_panics (forM l run_send) (fun _ w' => sending w') (connected_socket maxLen arriving).
Proof.
  apply (wp_forM _ l run_send (fun _ w' => sending w')); [by split_and!|].
  intros a _ w Hw. by apply run_send_sending.
Qed.

(** ** Receiving *)

(** A message the receiver accepts, with contents. *)
Record sendable (maxLen : Z) (m : Z * bytes) : Prop := {
  sendable_id : is_u64 m.1;
  sendable_some : m.2 <> [];
  sendable_length : Z.of_nat (length m.2) <= maxLen
}.

(** The connection is up: bytes arrive and calls are interrupted. *)
Definition benign (e : recv_event) : Prop :=
  match e with RecvData _ _ | RecvErrno EAGAIN | RecvErrno EINTR => True | _ => False end.

Definition remaining (l : list recv_event) : nat := length l + length (arrived l).

(** Something was taken from the kernel, if there was anything. *)
Record progress (l l' : list recv_event) : Prop := {
  progress_bytes : (length (arrived l') <= length (arrived l))%nat;
  progress_events : (length l' <= length l)%nat;
  progress_less : l = [] \/ (remaining l' < remaining l)%nat
}.

Lemma progress_trans l1 l2 l3 : progress l1 l2 -> (length (arrived l3) <= length (arrived l2))%nat ->
  (length l3 <= length l2)%nat -> progress l1 l3.
Proof. intros [H1 H2 H3] H4 H5. unfold remaining in *. split; [lia|lia|]. destruct H3; [by left|right; unfold remaining; lia]. Qed.

Lemma wp_read n s (Q : option bytes -> MessageSocket -> Prop) :
  0 < n -> Forall benign (receiveSocket s) ->
  (forall b l, arrived (receiveSocket s) = b ++ arrived l -> Z.of_nat (length b) <= n -> Forall benign l ->
     progress (receiveSocket s) l -> Q (Some b) (s <| receiveSocket := l |>)) ->
  safe (read n) Q s.
Proof.
  intros Hn Hb HQ. unfold read, safe. apply wp_bind, wp_zoom. unfold recv, wp.
  destruct (receiveSocket s) as [|e l] eqn:Hl.
  - apply (HQ [] []); [done|simpl; lia|done|]. split; [done|done|by left].
  - apply Forall_cons in Hb as [He Hb]. destruct e as [c b|e|]; [| |done].
    + set (k := Z.to_nat n) in *. destruct (take k (c :: b)) as [|x t] eqn:Ht; [exfalso; subst k; destruct (Z.to_nat n) eqn:?; [lia|done]|].
      pose proof (take_drop k (c :: b)) as Hcut. rewrite Ht in Hcut.
      assert (Z.of_nat (length (x :: t)) <= n) as Hlen by (rewrite <-Ht, length_take; lia).
      pose proof (f_equal length Hcut) as Hcut'. rewrite length_app in Hcut'.
      destruct (drop k (c :: b)) as [|c' b'] eqn:Hd.
      * rewrite app_nil_r in Hcut. apply (HQ (x :: t) l); [unfold arrived; cbn [map concat]; by rewrite <-Hcut|done|done|].
        unfold arrived, remaining. split; [..|right]; unfold remaining, arrived; cbn [map concat]; rewrite ?length_app; simpl; lia.
      * apply (HQ (x :: t) (RecvData c' b' :: l)); [unfold arrived; cbn [map concat]; by rewrite <-Hcut, <-app_assoc|done|by constructor|].
        split; [..|right]; unfold remaining, arrived; cbn [map concat]; rewrite ?length_app; simpl in *; lia.
    + destruct e; try done; (apply (HQ [] l); [done|simpl; lia|done|]; split; [done|simpl; lia|right; unfold remaining, arrived; simpl; lia]).
Qed.

(** [p] is the part of the next frame received so far. *)
Record holds (p : bytes) (ib : Inbound) : Prop := {
  holds_count : in_bytesRead ib = Z.of_nat (length p);
  holds_header : (length p < 16)%nat -> take (length p) (in_header ib) = p;
  holds_message : (16 <= length p)%nat -> in_header ib = take 16 p /\ in_message ib = drop 16 p
}.

(** Of the messages [all], those before [rest] are received, and the bytes that
    are here continue them; [total] is everything that arrives. *)
Definition receiving_at (total : bytes) (all rest : list (Z * bytes)) (p : bytes) (w : W) : Prop :=
  total = frames (received w.2) ++ p ++ arrived (receiveSocket w.1) /\
  all = received w.2 ++ rest /\ disconnected w.2 = false /\ receiveSocketMonitor w.1 = Events true /\
  Forall (sendable (maxMessageLength w.1)) rest /\ maxMessageLength w.1 < 4294967296 /\
  Forall benign (receiveSocket w.1) /\ holds p (inbound w.1) /\
  p ++ arrived (receiveSocket w.1) `prefix_of` frames rest.

Definition receiving (total : bytes) (all : list (Z * bytes)) (w : W) : Prop :=
  exists rest p, receiving_at total all rest p w /\ (forall m rest', rest = m :: rest' -> (length p < 16 + length m.2)%nat).

Lemma prefix_is_take {A} (p q l : list A) : p ++ q `prefix_of` l -> p = take (length p) l.
Proof. intros [k ->]. by rewrite <-app_assoc, take_app_length. Qed.

Lemma header_received m rest' p q maxLen :
  sendable maxLen m -> maxLen < 4294967296 -> (16 <= length p)%nat -> p ++ q `prefix_of` frames (m :: rest') ->
  Header_fromBigEndian (take 16 p) = mkHeader 0xdaf4 1 (Z.of_nat (length m.2)) m.1.
Proof.
  intros [Hid Hne Hlen] Hmax Hp Hpre%prefix_is_take. rewrite Hpre, take_take, Nat.min_l by done.
  unfold frames. cbn [map concat]. unfold frame_of. rewrite <-app_assoc, take_app_length' by apply (header_length (header_of m)).
  rewrite <-(app_nil_r (Header_toBigEndian _)). assert (u32 (Z.of_nat (length m.2)) = Z.of_nat (length m.2)) as Hu
    by (unfold u32; apply Z.mod_small; lia).
  rewrite header_roundtrip; unfold header_of; simpl; rewrite ?Hu; [done|lia|lia|lia|done].
Qed.

Lemma frame_received m rest' p q :
  p ++ q `prefix_of` frames (m :: rest') -> (length p = 16 + length m.2)%nat ->
  p = frame_of m /\ drop 16 p = m.2 /\ q `prefix_of` frames rest'.
Proof.
  unfold frames. cbn [map concat]. intros [k Hk] Hp. rewrite <-app_assoc in Hk.
  assert (p = frame_of m) as ->.
  { apply app_inj_1 in Hk; [by destruct Hk|]. unfold frame_of. rewrite length_app, (header_length (header_of m)). lia. }
  apply app_inv_head in Hk. split; [done|]. split; [|by exists k]. unfold frame_of. by rewrite drop_app_length'.
Qed.

#[local] Opaque Header_fromBigEndian.

(** The second half of the loop. *)
Lemma receive_payload_spec total all m rest' p w :
  receiving_at total all (m :: rest') p w -> (16 <= length p < 16 + length m.2)%nat ->
  safe receive_payload (fun again w' => receiving total all w' /\ progress (receiveSocket w.1) (receiveSocket w'.1) /\
    (again = true -> (length (arrived (receiveSocket w'.1)) < length (arrived (receiveSocket w.1)))%nat)) w.
Proof.
  intros (Htot & Hall & Hd & Hmon & Hok & Hmax & Hben & [Hcount Hhead Hmsg] & Hpre) Hp. destruct w as [s r]. cbn [fst snd] in *.
  pose proof Hok as [Hm Hok']%Forall_cons. destruct (Hmsg ltac:(lia)) as [Hh Hb].
  pose proof (header_received m rest' p _ _ Hm Hmax ltac:(lia) Hpre) as Hheader.
  unfold receive_payload, safe, on_socket at 1. apply wp_bind, wp_zoom, wp_get. simpl. rewrite Hh, Hheader, Hcount. cbn [payloadLength messageId].
  unfold sizeof_Header. apply wp_bind. unfold on_socket at 1. apply wp_zoom. apply wp_read; [lia|done|]. cbn [fst snd].
  intros b l Harr Hlen Hben' Hprog. apply wp_bind. unfold on_socket at 1. apply wp_zoom, wp_modify.
  assert (length (arrived (receiveSocket s)) = length b + length (arrived l))%nat as Hless by (by rewrite Harr, length_app).
  rewrite Harr, app_assoc in Hpre. replace (Z.to_nat (Z.of_nat (length p) - 16)) with (length p - 16)%nat by lia.
  assert (take (length p - 16) (in_message (inbound s)) ++ b = drop 16 (p ++ b)) as Hmess.
  { rewrite Hb, drop_app_le by lia. by rewrite take_ge by (rewrite length_drop; lia). }
  rewrite Hmess. assert (take 16 (p ++ b) = take 16 p) as Hhead' by (by rewrite take_app_le by lia).
  destruct (Z.ltb_spec (Z.of_nat (length p) + Z.of_nat (length b)) (16 + Z.of_nat (length m.2))) as [Hmore|Hfull].
  - apply wp_ret. split; [|done]. exists (m :: rest'), (p ++ b). split.
    + split_and!; try done; [by rewrite Htot, Harr, (app_assoc p)|]. split; simpl; [rewrite length_app; lia|rewrite length_app; lia|]. intros _. by rewrite Hhead'.
    + intros m2 rest2 [= <- <-]. rewrite length_app. lia.
  - assert (length (p ++ b) = 16 + length m.2)%nat as Hl by (rewrite length_app; lia).
    destruct (frame_received _ _ _ _ Hpre Hl) as (Hframe & Hcontents & Hrest). rewrite Hcontents.
    apply wp_bind. unfold on_socket at 1. apply wp_zoom, wp_modify. apply wp_bind. simpl. apply wp_modify.
    apply wp_bind. unfold on_socket at 1. apply wp_zoom, wp_modify, wp_ret. cbn [fst snd].
    split; [|split; [done|]].
    + exists rest', []. split; [|intros m2 rest2 _; simpl; lia]. split_and!; try done; simpl.
      * rewrite <-surjective_pairing, frames_app, Htot, Harr, (app_assoc p), Hframe, <-app_assoc.
        unfold frames at 3. simpl. by rewrite app_nil_r.
      * rewrite Hall, <-app_assoc. by destruct m.
      * by split; [|rewrite take_0|simpl; lia].
    + intros _. simpl. lia.
Qed.

(** The first half. *)
Lemma receive_header_spec total all rest p w :
  receiving_at total all rest p w -> (length p < 16)%nat ->
  safe receive_header (fun complete w' => progress (receiveSocket w.1) (receiveSocket w'.1) /\
    if complete then exists m rest' p', rest = m :: rest' /\ receiving_at total all rest p' w' /\ length p' = 16%nat
    else receiving total all w') w.
Proof.
  intros (Htot & Hall & Hd & Hmon & Hok & Hmax & Hben & [Hcount Hhead Hmsg] & Hpre) Hp. destruct w as [s r]. cbn [fst snd] in *.
  unfold receive_header, safe, on_socket at 1. apply wp_bind, wp_zoom, wp_get. cbn [fst snd]. rewrite Hcount.
  unfold sizeof_Header. apply wp_bind. unfold on_socket at 1. apply wp_zoom. apply wp_read; [lia|done|]. cbn [fst snd].
  intros b l Harr Hlen Hben' Hprog. apply wp_bind. unfold on_socket at 1. apply wp_zoom, wp_modify.
  rewrite Nat2Z.id, Hhead by done. rewrite Harr, app_assoc in Hpre.
  destruct (Z.ltb_spec (Z.of_nat (length p) + Z.of_nat (length b)) 16) as [Hmore|Hfull].
  - apply wp_ret. split; [done|]. exists rest, (p ++ b). split.
    + split_and!; try done; [by rewrite Htot, Harr, (app_assoc p)|]. split; simpl; rewrite length_app; [lia| |lia]. intros _. rewrite take_ge; [done|]. rewrite length_app. lia.
    + intros m2 rest2 _. rewrite length_app. lia.
  - assert (length (p ++ b) = 16)%nat as Hl by (rewrite length_app; lia).
    destruct rest as [|m rest']; [destruct Hpre as [k Hk]; unfold frames in Hk; simpl in Hk; by destruct p, b|].
    pose proof Hok as [Hm Hok']%Forall_cons.
    pose proof (header_received m rest' (p ++ b) _ _ Hm Hmax ltac:(lia) Hpre) as Hheader.
    rewrite take_ge in Hheader by lia. rewrite Hheader. cbn [fixed version payloadLength]. cbn [Z.eqb negb].
    rewrite (proj2 (Z.ltb_ge _ _)) by apply Hm. simpl.
    apply wp_bind. unfold on_socket at 1. apply wp_zoom, wp_modify, wp_ret. split; [done|].
    exists m, rest', (p ++ b). split; [done|]. split; [|done]. split_and!; try done; [by rewrite Htot, Harr, (app_assoc p)|].
    split; simpl; [by rewrite length_app, Nat2Z.inj_add|lia|]. intros _. by rewrite take_ge, drop_ge by lia.
Qed.

Lemma receive_round_spec total all w :
  receiving total all w ->
  safe receive_round (fun again w' => receiving total all w' /\ progress (receiveSocket w.1) (receiveSocket w'.1) /\
    (again = true -> (length (arrived (receiveSocket w'.1)) < length (arrived (receiveSocket w.1)))%nat)) w.
Proof.
  intros (rest & p & Hat & Hshort). pose proof Hat as (_ & _ & _ & _ & _ & _ & _ & [Hcount _ _] & Hpre).
  unfold receive_round, safe, on_socket at 1. apply wp_bind, wp_zoom, wp_get. destruct w as [s r]. cbn [fst snd] in *.
  rewrite Hcount. unfold sizeof_Header. destruct (Z.ltb_spec (Z.of_nat (length p)) 16) as [Hlt|Hge].
  - apply wp_bind. eapply wp_mono; [apply (receive_header_spec total all rest p (s, r) Hat); lia|done|].
    intros complete [s' r'] [Hprog Hcase]. cbn [fst snd] in *. destruct complete; [|by apply wp_ret].
    destruct Hcase as (m & rest' & p' & -> & Hat' & Hl).
    assert (sendable (maxMessageLength s') m) as [_ Hne _] by (destruct Hat' as (_ & _ & _ & _ & Hok & _); by apply Forall_cons in Hok as [? _]).
    assert (0 < length m.2)%nat by (destruct m.2; [done|simpl; lia]).
    eapply wp_mono; [apply (receive_payload_spec total all m rest' p' (s', r') Hat'); lia|done|]. cbn [fst snd].
    intros again w2 (Hr & Hp2 & Hless). split; [done|]. destruct Hprog as [P1 P2 P3], Hp2 as [P4 P5 P6]. split.
    + by apply (progress_trans _ (receiveSocket s')).
    + intros Ha. specialize (Hless Ha). lia.
  - apply wp_bind, wp_ret. destruct rest as [|m rest'].
    + exfalso. destruct Hpre as [k Hk]. unfold frames in Hk. simpl in Hk. destruct p; [simpl in Hge; lia|done].
    + apply (receive_payload_spec total all m rest' p (s, r) Hat). specialize (Hshort m rest' eq_refl). lia.
Qed.

Lemma readable_loop_spec total all n w :
  receiving total all w -> (length (arrived (receiveSocket w.1)) < n)%nat ->
  safe (readable_loop n) (fun _ w' => receiving total all w' /\ progress (receiveSocket w.1) (receiveSocket w'.1)) w.
Proof.
  revert w. induction n as [|n IH]; intros w Hw Hn; [lia|]. cbn [readable_loop]. unfold safe. apply wp_bind.
  eapply wp_mono; [by apply receive_round_spec|done|]. intros again w' (Hw' & Hp & Hless). destruct again; [|by apply wp_ret].
  specialize (Hless eq_refl). eapply wp_mono; [apply IH; [done|lia]|done|].
  intros _ w2 [Hw2 [P4 P5 P6]]. split; [done|]. by apply (progress_trans _ (receiveSocket w'.1)).
Qed.

(** The event loop, as long as it has something to report of the receiving
    side; each report takes something from the kernel. *)
Fixpoint receive_all (n : nat) : M W unit :=
  let! s := on_socket get in
  match receiveSocket s, n with
  | [], _ => ret tt
  | _, O => fail Blocked
  | _, S n' => ReceiveSocket_handleFileEvent ;;; receive_all n'
  end.

Lemma receive_all_spec total all n w :
  receiving total all w -> (remaining (receiveSocket w.1) <= n)%nat ->
  safe (receive_all n) (fun _ w' => receiving total all w' /\ receiveSocket w'.1 = []) w.
Proof.
  revert w. induction n as [|n IH]; intros [s r] Hw Hn; unfold safe; cbn [receive_all fst] in *; unfold on_socket at 1;
    apply wp_bind, wp_zoom, wp_get; cbn [fst snd]; (destruct (receiveSocket s) as [|e l] eqn:Hl; [by apply wp_ret|]).
  - unfold remaining in Hn. simpl in Hn. lia.
  - apply wp_bind. unfold ReceiveSocket_handleFileEvent, on_socket at 1. apply wp_bind, wp_zoom, wp_get. cbn [fst snd].
    pose proof Hw as (rest & p & (_ & _ & _ & Hmon & _) & _). cbn [fst] in Hmon. rewrite Hmon.
    unfold readable, on_socket at 1. apply wp_bind, wp_zoom, wp_get. cbn [fst snd].
    eapply wp_mono; [apply (readable_loop_spec total all); [done|cbn [fst]; lia]|done|].
    intros _ w' [Hw' [_ _ P]]. cbn [fst] in P. rewrite Hl in P. apply IH; [done|]. destruct P; [done|lia].
Qed.

(** C7: Messages arrive whole, once and in order, if none is empty and none is
    longer than the receiver accepts (an empty one that others follow closely
    ends the connection: [empty_message_disconnects]). Messages are submitted on
    one side by several threads, while the event loop writes as much as the kernel
    takes at a time; on the other side, some prefix of those bytes arrives, in
    any portions and with interrupted calls in between. Then the receiver
    returns, stays connected, and its handler has got exactly the first messages
    whose frames arrived completely: all of them if everything did. *)
Theorem framing_roundtrip actions maxSend maxRecv evs s r :
  forM actions run_send (connected_socket maxSend []) = Ok (tt, (s, r)) ->
  Forall (sendable maxRecv) (submitted r) -> maxRecv < 4294967296 ->
  Forall benign evs -> arrived evs `prefix_of` wire (sendSocket s) ->
  exists w' rest p, receive_all (remaining evs) (connected_socket maxRecv evs) = Ok (tt, w') /\
    disconnected w'.2 = false /\ receiveSocket w'.1 = [] /\
    submitted r = received w'.2 ++ rest /\ arrived evs = frames (received w'.2) ++ p /\
    (forall m rest', rest = m :: rest' -> p `prefix_of` frame_of m /\ p <> frame_of m) /\
    (disconnected r = false -> outboundQueue s = [] -> arrived evs = wire (sendSocket s) -> rest = []).
Proof.
  intros Hrun Hok Hmax Hben Harr.
  pose proof (run_sends_sending actions maxSend []) as Hs. unfold wp in Hs. rewrite Hrun in Hs.
  assert (wire (sendSocket s) `prefix_of` frames (submitted r)) as Hwire.
  { unfold sending in Hs. simpl in Hs. destruct (disconnected r); [by destruct Hs|]. destruct Hs as [<- _]. by eexists. }
  assert (receiving (arrived evs) (submitted r) (connected_socket maxRecv evs)) as Hrecv.
  { exists (submitted r), []. split; [|intros; simpl; lia]. split_and!; try done.
    by transitivity (wire (sendSocket s)). }
  pose proof (receive_all_spec _ _ (remaining evs) _ Hrecv (le_n _)) as Hsafe.
  apply safe_run in Hsafe as ([] & w' & Hw' & (rest & p & Hat & Hshort) & Hend).
  destruct Hat as (Htot & Hall & Hd & _ & _ & _ & _ & _ & Hpre). rewrite Hend, app_nil_r in *.
  exists w', rest, p. split_and!; try done.
  - intros m rest' ->. specialize (Hshort m rest' eq_refl). split.
    + rewrite (prefix_is_take p [] (frames (m :: rest'))) by (by rewrite app_nil_r). unfold frames. cbn [map concat].
      rewrite take_app_le; [eexists; symmetry; apply take_drop|]. unfold frame_of. rewrite length_app, (header_length (header_of m)). lia.
    + intros ->. unfold frame_of in Hshort. rewrite length_app, (header_length (header_of m)) in Hshort. lia.
  - intros Hd' Hq Heq. unfold sending in Hs. simpl in Hs. rewrite Hd' in Hs. destruct Hs as [Hall' _].
    rewrite Hq, app_nil_r, <-Heq, Htot, Hall, frames_app in Hall'. apply app_inv_head in Hall'.
    destruct rest as [|m rest']; [done|]. exfalso. specialize (Hshort m rest' eq_refl).
    apply (f_equal length) in Hall'. unfold frames in Hall'. cbn [map concat] in Hall'.
    unfold frame_of at 1 in Hall'. rewrite !length_app, (header_length (header_of m)) in Hall'. lia.
Qed.

(** Two threads' messages, written in portions that do not fit the frames and
    read in others. *)
Definition demo_actions : list send_action :=
  [Submit (1, ["a"; "b"]%char);
   Ready [SendTook 5; SendErrno EINTR; SendTook 100]; Report [[(2, ["c"%char])]]; Report [];
   Ready [SendTook 100; SendTook 100]; Report []].

Definition demo_sent : W :=
  match forM demo_actions run_send (connected_socket 1000 []) with
  | Ok (_, w) => w
  | Fail _ => connected_socket 1000 []
  end.

(** The bytes, in chunks of 7, with an interrupted call between them. *)
Fixpoint chunks (n : nat) (b : bytes) : list recv_event :=
  match n, take 7 b with
  | S n', c :: t => RecvData c t :: RecvErrno EINTR :: chunks n' (drop 7 b)
  | _, _ => []
  end.

Lemma framing_roundtrip_witness :
  exists w', receive_all (remaining (chunks 10 (wire (sendSocket demo_sent.1))))
               (connected_socket 100 (chunks 10 (wire (sendSocket demo_sent.1)))) = Ok (tt, w') /\
    received w'.2 = [(1, ["a"; "b"]%char); (2, ["c"%char])].
Proof.
  destruct (framing_roundtrip demo_actions 1000 100 (chunks 10 (wire (sendSocket demo_sent.1)))
              demo_sent.1 demo_sent.2) as (w' & rest & p & Hw' & _ & _ & Hall & _ & _ & Hdone).
  - vm_compute. reflexivity.
  - repeat constructor; done.
  - done.
  - repeat constructor.
  - exists []. vm_compute. reflexivity.
  - exists w'. split; [exact Hw'|]. rewrite Hdone, app_nil_r in Hall by (vm_compute; reflexivity).
    rewrite <-Hall. vm_compute. reflexivity.
Defined.

(** A message without contents, such as the ping of [ClientSession], is lost
    with the connection if more bytes are already behind it: [readable] asks the
    kernel for no bytes, and takes the answer for the end of the stream. *)
Definition ping_then_request : list recv_event :=
  match frames [(u64_max, []); (0, ["x"%char])] with [] => [] | c :: b => [RecvData c b] end.

Lemma empty_message_disconnects :
  safe ReceiveSocket_handleFileEvent (fun _ w' => disconnected w'.2 = true /\ received w'.2 = [])
    (connected_socket 100 ping_then_request).
Proof. vm_compute. done. Qed.
