(* ===== verification/ClientSession.v ===== *)
(** * RPCs on one connection, seen by the client

    [RPC/ClientSession.{h,cc}] and [RPC/OpaqueClientRPC.{h,cc}]: a session sends
    requests with consecutive message ids and keeps a [Response] for each until
    its RPC takes it; when nothing comes back for a while, a ping finds out
    whether the server is alive. The session is the handler of its message
    socket. *)

From Stdlib Require Import ZArith Lia Ascii String.
From stdpp Require Import base gmap strings list fin_maps.
From S2P Require Import Prelude Stream MessageSocket.
Local Open Scope Z_scope.
Local Open Scope list_scope.

(** [Protocol::Common]: the message ids that no RPC has. *)
Definition PING_MESSAGE_ID : Z := 18446744073709551615.
Definition VERSION_MESSAGE_ID : Z := 18446744073709551614.

(** ** Data *)

Inductive ResponseStatus : Type := WAITING | HAS_REPLY | CANCELED.

(** [ClientSession::Response]; its condition variable has no state. *)
Record Response : Type := mkResponse { r_status : ResponseStatus; r_reply : bytes; hasWaiter : bool }.

#[export] Instance Response_eta : Eta Response := fun r => mkResponse (r_status r) (r_reply r) (hasWaiter r).

Definition Response_init : Response := mkResponse WAITING [] false.

(** The members of [ClientSession] but for the socket and the event loop.
    [timer] is when the timer fires, in nanoseconds from when it was set;
    [hasSocket] says that [messageSocket] is not null. *)
Record ClientSession : Type := mkClientSession {
  PING_TIMEOUT_NS : Z;
  address : string;
  nextMessageId : Z;
  responses : gmap Z Response;
  errorMessage : string;
  numActiveRPCs : Z;
  activePing : bool;
  hasSocket : bool;
  timer : option Z
}.

#[export] Instance ClientSession_eta : Eta ClientSession := fun s =>
  mkClientSession (PING_TIMEOUT_NS s) (address s) (nextMessageId s) (responses s) (errorMessage s)
    (numActiveRPCs s) (activePing s) (hasSocket s) (timer s).

(** [Event::Timer::schedule] of a timer that fires once. *)
Definition Timer_schedule (ns : Z) : option Z := Some (if ns =? 0 then 1 else ns).

Inductive OpaqueStatus : Type := OPAQUE_NOT_READY | OPAQUE_OK | OPAQUE_ERROR | OPAQUE_CANCELED.

#[export] Instance OpaqueStatus_eq_dec : EqDecision OpaqueStatus.
Proof. solve_decision. Defined.

(** [OpaqueClientRPC]; [oc_session] says that it still refers to its session. *)
Record OpaqueClientRPC : Type := mkOpaqueClientRPC {
  oc_session : bool;
  responseToken : Z;
  oc_status : OpaqueStatus;
  oc_reply : bytes;
  oc_errorMessage : string
}.

#[export] Instance OpaqueClientRPC_eta : Eta OpaqueClientRPC := fun r =>
  mkOpaqueClientRPC (oc_session r) (responseToken r) (oc_status r) (oc_reply r) (oc_errorMessage r).

Definition OpaqueClientRPC_init : OpaqueClientRPC := mkOpaqueClientRPC false u64_max OPAQUE_NOT_READY [] "".

(** What [connect] came to: it succeeded, at once or while waited for, or failed
    with an error, or time ran out. *)
Inductive connect_result : Type :=
| Connected
| ConnectFailed (strerror : string)
| ConnectTimedOut.

(** A session and the RPC objects that the threads of the client own. *)
Record Client : Type := mkClient { session : ClientSession; rpcs : gmap Z OpaqueClientRPC }.

#[export] Instance Client_eta : Eta Client := fun c => mkClient (session c) (rpcs c).

Abbreviation W := (MessageSocket * Client)%type.

Definition on_client {A} (m : M Client A) : M W A := zoom snd (fun c w => (w.1, c)) m.

Definition on_session {A} (m : M ClientSession A) : M W A :=
  on_client (zoom session (fun s c => c <| session := s |>) m).

(** ** The session *)

(** The constructor: [PING_TIMEOUT_NS] from the configuration, the address and
    whether it resolved, and whether a socket could be made and connected. *)
Definition ClientSession_construct (pingMilliseconds : Z) (addr : string) (isValid socketMade : bool)
    (connected : connect_result) : ClientSession :=
  let session := mkClientSession (u64 (pingMilliseconds * 1000 * 1000)) addr 0 ∅ "" 0 false false None in
  if negb isValid then session <| errorMessage := ("Failed to resolve " +:+ addr)%string |>
  else if negb socketMade then session <| errorMessage := "Failed to create socket"%string |>
  else
    match connected with
    | Connected => session <| hasSocket := true |>
    | ConnectFailed e => session <| errorMessage := ("Failed to connect socket to " +:+ addr +:+ ": " +:+ e)%string |>
    | ConnectTimedOut =>
        session <| errorMessage := ("Failed to connect socket to " +:+ addr +:+ ": timeout expired")%string |>
    end.

(** [ClientSession::makeErrorSession]. *)
Definition makeErrorSession (noAddress message : string) : ClientSession :=
  let session := ClientSession_construct 500 noAddress false false Connected in
  session <| errorMessage := message |>.

(** [MessageSocketHandler::handleReceivedMessage]. *)
Definition ClientSession_handleReceivedMessage (id : Z) (message : bytes) : M ClientSession unit :=
  let! s := get in
  if id =? PING_MESSAGE_ID then
    when ((0 <? numActiveRPCs s) && activePing s)
      (modify (fun s => s <| activePing := false |> <| timer := Timer_schedule (PING_TIMEOUT_NS s) |>))
  else
    match responses s !! id with
    | None => ret tt
    | Some response =>
        match r_status response with
        | HAS_REPLY => ret tt
        | WAITING | CANCELED =>
            let n := u32 (numActiveRPCs s - 1) in
            modify (fun s => s <| numActiveRPCs := n |>
                               <| timer := if n =? 0 then None else Timer_schedule (PING_TIMEOUT_NS s) |>
                               <| responses := <[id := mkResponse HAS_REPLY message (hasWaiter response)]> (responses s) |>)
        end
    end.

(** [MessageSocketHandler::handleDisconnect]. *)
Definition ClientSession_handleDisconnect : M ClientSession unit :=
  let! s := get in
  when (bool_decide (errorMessage s = "")%string)
    (modify (fun s => s <| errorMessage := ("Disconnected from server " +:+ address s)%string |>)).

#[export] Instance ClientSession_handler : Handler Client := {|
  handleReceivedMessage id message := on_session (ClientSession_handleReceivedMessage id message);
  handleDisconnect := on_session ClientSession_handleDisconnect
|}.

(** [Timer::handleTimerEvent]. The call to [sendMessage] happens with the mutex
    of the session held. *)
Definition handleTimerEvent : M W unit :=
  let! s := on_session get in
  if negb (hasSocket s) || (numActiveRPCs s =? 0) || negb (bool_decide (errorMessage s = "")%string) then ret tt
  else if negb (activePing s) then
    on_session (modify (fun s => s <| activePing := true |>)) ;;;
    on_socket (sendMessage PING_MESSAGE_ID []) ;;;
    on_session (modify (fun s => s <| timer := Timer_schedule (PING_TIMEOUT_NS s) |>))
  else
    on_session (modify (fun s => s <| errorMessage := ("Server " +:+ address s +:+ " timed out")%string |>)).

(** The event loop finds that the timer has expired. *)
Definition Timer_handleFileEvent : M W unit :=
  let! s := on_session get in
  match timer s with
  | None => ret tt
  | Some _ => on_session (modify (fun s => s <| timer := None |>)) ;;; handleTimerEvent
  end.

(** [sendRequest], its part under the mutex: the id of the request. *)
Definition allocate : M ClientSession Z :=
  let! s := get in
  let messageId := nextMessageId s in
  let n := u32 (numActiveRPCs s + 1) in
  modify (fun s =>
    let s := s <| nextMessageId := u64 (messageId + 1) |>
               <| responses := <[messageId := Response_init]> (responses s) |>
               <| numActiveRPCs := n |> in
    if n =? 1 then s <| activePing := false |> <| timer := Timer_schedule (PING_TIMEOUT_NS s) |> else s) ;;;
  ret messageId.

(** The rest of [sendRequest], after the mutex is released. *)
Definition queue_request (messageId : Z) (request : bytes) : M W OpaqueClientRPC :=
  let! s := on_session get in
  when (hasSocket s) (on_socket (sendMessage messageId request)) ;;;
  ret (mkOpaqueClientRPC true messageId OPAQUE_NOT_READY [] "").

(** [others] is what other threads do in between. *)
Definition sendRequest (request : bytes) (others : M W unit) : M W OpaqueClientRPC :=
  let! messageId := on_session allocate in
  others ;;;
  queue_request messageId request.

Definition ClientSession_toString (s : ClientSession) : string :=
  if bool_decide (errorMessage s = "")%string then ("Active session to " +:+ address s)%string
  else ("Closed session: " +:+ errorMessage s)%string.

(** [ClientSession::cancel]. *)
Definition ClientSession_cancel (rpc : OpaqueClientRPC) : M ClientSession unit :=
  let! s := get in
  match responses s !! responseToken rpc with
  | None => ret tt
  | Some response =>
      (if hasWaiter response then
         modify (fun s => s <| responses := <[responseToken rpc := response <| r_status := CANCELED |>]> (responses s) |>)
       else modify (fun s => s <| responses := delete (responseToken rpc) (responses s) |>)) ;;;
      modify (fun s => s <| numActiveRPCs := u32 (numActiveRPCs s - 1) |>)
  end.

(** [ClientSession::update]: fills in the RPC if it has completed. *)
Definition ClientSession_update (rpc : OpaqueClientRPC) : M ClientSession OpaqueClientRPC :=
  let! s := get in
  match responses s !! responseToken rpc with
  | None => assert_ (bool_decide (oc_status rpc = OPAQUE_CANCELED)) ;;; ret rpc
  | Some response =>
      let forget (rpc : OpaqueClientRPC) :=
        modify (fun s => s <| responses := delete (responseToken rpc) (responses s) |>) ;;;
        ret (rpc <| oc_session := false |>) in
      match r_status response with
      | HAS_REPLY => forget (rpc <| oc_reply := r_reply response |> <| oc_status := OPAQUE_OK |>)
      | status =>
          if negb (bool_decide (errorMessage s = "")%string) then
            forget (rpc <| oc_errorMessage := errorMessage s |> <| oc_status := OPAQUE_ERROR |>)
          else
            assert_ (match status with CANCELED => false | _ => true end) ;;; ret rpc
      end
  end.

(** One round of the loop of [wait] up to the wait, and what follows it; the
    [Response] is written to through a pointer. Returns whether it waits. *)
Definition wait_check (token timeout now : Z) : M ClientSession bool :=
  let! s := get in
  match responses s !! token with
  | None => ret false
  | Some response =>
      match r_status response with
      | HAS_REPLY => ret false
      | CANCELED => modify (fun s => s <| responses := delete token (responses s) |>) ;;; ret false
      | WAITING =>
          if negb (bool_decide (errorMessage s = "")%string) then ret false
          else if timeout <? now then ret false
          else
            modify (fun s => s <| responses := <[token := response <| hasWaiter := true |>]> (responses s) |>) ;;;
            ret true
      end
  end.

Definition wait_resume (token : Z) : M ClientSession unit :=
  let! s := get in
  match responses s !! token with
  | None => fail UndefinedBehavior
  | Some response =>
      modify (fun s => s <| responses := <[token := response <| hasWaiter := false |>]> (responses s) |>)
  end.

(** [ClientSession::wait]. The schedule has, for each round, the time its clock
    shows and what happens while it waits. *)
Fixpoint ClientSession_wait (token timeout : Z) (sched : list (Z * M W unit)) : M W unit :=
  match sched with
  | [] => fail Blocked
  | (now, others) :: sched' =>
      let! waits := on_session (wait_check token timeout now) in
      if waits then
        others ;;;
        on_session (wait_resume token) ;;;
        ClientSession_wait token timeout sched'
      else ret tt
  end.

(** ** The RPC *)

(** [OpaqueClientRPC::update]. *)
Definition OpaqueClientRPC_update (rpc : OpaqueClientRPC) : M ClientSession OpaqueClientRPC :=
  match oc_status rpc with
  | OPAQUE_NOT_READY => if oc_session rpc then ClientSession_update rpc else ret rpc
  | _ => ret rpc
  end.

Definition OpaqueClientRPC_cancel (rpc : OpaqueClientRPC) : M ClientSession OpaqueClientRPC :=
  match oc_status rpc with
  | OPAQUE_NOT_READY =>
      when (oc_session rpc) (ClientSession_cancel rpc) ;;;
      ret (mkOpaqueClientRPC false (responseToken rpc) OPAQUE_CANCELED [] "RPC canceled by user")
  | _ => ret rpc
  end.

(** The object that a variable of some thread holds. *)
Definition the_rpc (ref : Z) : M Client OpaqueClientRPC :=
  let! c := get in
  match rpcs c !! ref with Some rpc => ret rpc | None => fail UndefinedBehavior end.

(** A method of the object, under its mutex. *)
Definition on_rpc (ref : Z) (f : OpaqueClientRPC -> M ClientSession OpaqueClientRPC) : M Client OpaqueClientRPC :=
  let! rpc := the_rpc ref in
  let! rpc := zoom session (fun s c => c <| session := s |>) (f rpc) in
  modify (fun c => c <| rpcs := <[ref := rpc]> (rpcs c) |>) ;;;
  ret rpc.

Definition cancel (ref : Z) : M Client unit := on_rpc ref OpaqueClientRPC_cancel ;;; ret tt.

Definition getErrorMessage (ref : Z) : M Client string :=
  let! rpc := on_rpc ref OpaqueClientRPC_update in ret (oc_errorMessage rpc).

Definition getStatus (ref : Z) : M Client OpaqueStatus :=
  let! rpc := on_rpc ref OpaqueClientRPC_update in ret (oc_status rpc).

Definition peekReply (ref : Z) : M Client (option bytes) :=
  let! rpc := on_rpc ref OpaqueClientRPC_update in
  ret (match oc_status rpc with OPAQUE_OK => Some (oc_reply rpc) | _ => None end).

(** [waitForReply]; the mutex of the RPC is free while it waits, so that another
    thread can cancel it. *)
Definition waitForReply (ref timeout : Z) (sched : list (Z * M W unit)) : M W unit :=
  let! rpc := on_client (the_rpc ref) in
  match oc_status rpc with
  | OPAQUE_NOT_READY =>
      if oc_session rpc then
        ClientSession_wait (responseToken rpc) timeout sched ;;;
        on_client (on_rpc ref OpaqueClientRPC_update ;;; ret tt)
      else
        on_client (modify (fun c => c <| rpcs := <[ref := rpc
          <| oc_errorMessage := "This RPC was never associated with a ClientSession."%string |>
          <| oc_status := OPAQUE_ERROR |>]> (rpcs c) |>))
  | _ => ret tt
  end.

(** The destructor cancels the RPC. *)
Definition destroy (ref : Z) : M Client unit :=
  cancel ref ;;; modify (fun c => c <| rpcs := delete ref (rpcs c) |>).

(** [opaqueRPC = session->sendRequest(request)] for a new object [ref]. *)
Definition start (ref : Z) (request : bytes) (others : M W unit) : M W unit :=
  let! rpc := sendRequest request others in
  on_client (modify (fun c => c <| rpcs := <[ref := rpc]> (rpcs c) |>)).
