(* ===== verification/OpaqueServer.v ===== *)
(** * RPCs on a server, as bytes

    [RPC/OpaqueServer.{h,cc}] and [RPC/OpaqueServerRPC.{h,cc}]: the connections
    of a server, each with its message socket. A request becomes an
    [OpaqueServerRPC], which goes to the handler of the server and may be
    answered later from any thread; it refers to its connection weakly, so that
    an answer to a connection that is gone is dropped. *)

From Stdlib Require Import ZArith Lia Ascii String.
From stdpp Require Import base gmap strings list fin_maps.
From S2P Require Import Prelude Stream Endian MessageSocket ClientSession.
Local Open Scope Z_scope.
Local Open Scope list_scope.

(** [MessageSocket::MAX_VERSION_SUPPORTED]. *)
Definition MAX_VERSION_SUPPORTED : Z := 1.

(** [os_socket] is the number of the connection; [None] once it was reset. *)
Record OpaqueServerRPC : Type := mkOpaqueServerRPC {
  os_request : bytes;
  os_response : bytes;
  os_socket : option Z;
  os_messageId : Z
}.

#[export] Instance OpaqueServerRPC_eta : Eta OpaqueServerRPC := fun r =>
  mkOpaqueServerRPC (os_request r) (os_response r) (os_socket r) (os_messageId r).

(** The default constructor: an RPC that cannot be replied to. *)
Definition OpaqueServerRPC_init : OpaqueServerRPC := mkOpaqueServerRPC [] [] None u64_max.

(** The server with the connections it holds and, in [rpcHandler], what its
    handler keeps. [nextSocket] numbers the connections. *)
Record OpaqueServer (S : Type) : Type := mkOpaqueServer {
  os_maxMessageLength : Z;
  sockets : gmap Z MessageSocket;
  nextSocket : Z;
  rpcHandler : S
}.
Arguments mkOpaqueServer {S}.
Arguments os_maxMessageLength {S}.
Arguments sockets {S}.
Arguments nextSocket {S}.
Arguments rpcHandler {S}.

#[export] Instance OpaqueServer_eta S : Eta (OpaqueServer S) := fun s =>
  mkOpaqueServer (os_maxMessageLength s) (sockets s) (nextSocket s) (rpcHandler s).

Definition OpaqueServer_construct {S} (handler : S) (maxLen : Z) : OpaqueServer S :=
  mkOpaqueServer maxLen ∅ 0 handler.

(** [OpaqueServer::Handler]. *)
Class RPCHandler (S : Type) := handleRPC : OpaqueServerRPC -> M (OpaqueServer S) unit.

Section Server.
Context {S : Type} `{RPCHandler S}.

Definition set_socket (c : Z) (sock : MessageSocket) : M (OpaqueServer S) unit :=
  modify (fun s => s <| sockets := <[c := sock]> (sockets s) |>).

(** [socketRef->monitor.sendMessage], if [socket.lock()] finds the connection. *)
Definition send_on (c id : Z) (contents : bytes) : M (OpaqueServer S) unit :=
  let! s := get in
  match sockets s !! c with
  | None => ret tt
  | Some sock =>
      match sendMessage id contents sock with
      | Ok (_, sock') => set_socket c sock'
      | Fail f => fail f
      end
  end.

(** [MessageSocketHandler::handleReceivedMessage]; a handler whose server pointer
    is null is one whose connection is gone. *)
Definition OpaqueServer_handleReceivedMessage (c id : Z) (message : bytes) : M (OpaqueServer S) unit :=
  let! s := get in
  match sockets s !! c with
  | None => ret tt
  | Some _ =>
      if id =? PING_MESSAGE_ID then send_on c id []
      else if id =? VERSION_MESSAGE_ID then send_on c id (be16 MAX_VERSION_SUPPORTED)
      else handleRPC (mkOpaqueServerRPC message [] (Some c) id)
  end.

(** [MessageSocketHandler::handleDisconnect]. *)
Definition OpaqueServer_handleDisconnect (c : Z) : M (OpaqueServer S) unit :=
  modify (fun s => s <| sockets := delete c (sockets s) |>).

(** The message socket of connection [c] calls the handler while it runs. *)
Definition focus {A} (c : Z) (m : M (OpaqueServer S) A) : M (MessageSocket * OpaqueServer S) A := fun w =>
  match m (w.2 <| sockets := <[c := w.1]> (sockets w.2) |>) with
  | Ok (a, s) => Ok (a, (default w.1 (sockets s !! c), s))
  | Fail f => Fail f
  end.

Definition MessageSocketHandler (c : Z) : Handler (OpaqueServer S) := {|
  handleReceivedMessage id message := focus c (OpaqueServer_handleReceivedMessage c id message);
  handleDisconnect := focus c (OpaqueServer_handleDisconnect c)
|}.

(** [BoundListener::handleFileEvent]: [accept4] gave a connected socket. *)
Definition BoundListener_handleFileEvent (kernel_in : list recv_event) (kernel_out : SendKernel) :
  M (OpaqueServer S) unit :=
  let! s := get in
  set_socket (nextSocket s) (MessageSocket_construct kernel_in kernel_out (os_maxMessageLength s)) ;;;
  modify (fun s => s <| nextSocket := nextSocket s + 1 |>).

(** The destructor lets go of the connections; RPCs in progress keep running,
    but their replies are dropped. *)
Definition OpaqueServer_destroy : M (OpaqueServer S) unit := modify (fun s => s <| sockets := ∅ |>).

(** [OpaqueServerRPC::sendReply]: [response] is moved out, and the RPC forgets its
    connection so that it cannot reply again. *)
Definition sendReply (rpc : OpaqueServerRPC) : M (OpaqueServer S) OpaqueServerRPC :=
  match os_socket rpc with
  | Some c => send_on c (os_messageId rpc) (os_response rpc)
  | None => ret tt
  end ;;;
  ret (rpc <| os_response := [] |> <| os_socket := None |>).

(** [OpaqueServerRPC::closeSession]: [MessageSocket::close] tells the handler,
    which drops the connection. *)
Definition closeSession (rpc : OpaqueServerRPC) : M (OpaqueServer S) OpaqueServerRPC :=
  match os_socket rpc with
  | Some c => OpaqueServer_handleDisconnect c
  | None => ret tt
  end ;;;
  ret (rpc <| os_socket := None |>).
End Server.

(** A message joins the queue of its connection, if there still is one. *)
Lemma wp_send_on {S} k id b (s : OpaqueServer S) (Q : unit -> OpaqueServer S -> Prop) :
  (sockets s !! k = None -> Q tt s) ->
  (forall sock sock', sockets s !! k = Some sock -> outboundQueue sock' = outboundQueue sock ++ [Outbound_init id b] ->
     Q tt (s <| sockets := <[k := sock']> (sockets s) |>)) ->
  post (send_on k id b) Q s.
Proof.
  intros Hno Hyes. unfold send_on. apply wp_bind, wp_get. destruct (sockets s !! k) as [sock|] eqn:Hk; [|by apply wp_ret, Hno].
  unfold sendMessage, bind, get. destruct (maxMessageLength sock <? Z.of_nat (length b)); [done|].
  unfold modify, when. destruct (bool_decide (outboundQueue sock = [])); simpl; by eapply Hyes.
Qed.
