(* ===== verification/RPCProtocol.v ===== *)
(** * RPCs to services

    [RPC/Protocol.{h,cc}], [RPC/ClientRPC.{h,cc}], [RPC/ServerRPC.{h,cc}] and the
    parsing of [Core/ProtoBuf.cc]: what the bytes of a request and of a response
    mean. A request names a service and an operation and carries a protocol
    buffer; a response starts with a status. *)

From Stdlib Require Import ZArith Lia Ascii String.
From stdpp Require Import base gmap strings list fin_maps.
From S2P Require Import Prelude Stream Endian MessageSocket ClientSession OpaqueServer.
Local Open Scope Z_scope.
Local Open Scope list_scope.

(** ** Headers *)

(** [RequestHeaderVersion1] with its prefix. *)
Record RequestHeader : Type := mkRequestHeader {
  rh_version : Z;
  rh_service : Z;
  rh_serviceSpecificErrorVersion : Z;
  rh_opCode : Z
}.

Definition byte (x : Z) : ascii := ascii_of_N (Z.to_N (Z.land x 255)).
Definition of_byte (c : ascii) : Z := Z.of_N (N_of_ascii c).

(** [sizeof(RequestHeaderVersion1)] and [sizeof(ResponseHeaderVersion1)]; the
    structs are packed, and so is [RequestHeaderPrefix], of one byte. *)
Definition sizeof_RequestHeader : nat := 6.
Definition sizeof_ResponseHeader : nat := 1.

(** [toBigEndian] of both parts, as it goes out. *)
Definition RequestHeader_toBigEndian (h : RequestHeader) : bytes :=
  [byte (rh_version h)] ++ be16 (rh_service h) ++ [byte (rh_serviceSpecificErrorVersion h)] ++ be16 (rh_opCode h).

Definition RequestHeader_fromBigEndian (b : bytes) : RequestHeader :=
  mkRequestHeader (of_be32 (take 1 b)) (of_be32 (take 2 (drop 1 b))) (of_be32 (take 1 (drop 3 b)))
    (of_be32 (take 2 (drop 4 b))).

(** [Protocol::Status]. *)
Inductive ProtocolStatus : Type :=
| STATUS_OK
| STATUS_SERVICE_SPECIFIC_ERROR
| STATUS_INVALID_VERSION
| STATUS_INVALID_SERVICE
| STATUS_INVALID_REQUEST.

Definition Status_code (s : ProtocolStatus) : Z :=
  match s with
  | STATUS_OK => 0
  | STATUS_SERVICE_SPECIFIC_ERROR => 1
  | STATUS_INVALID_VERSION => 2
  | STATUS_INVALID_SERVICE => 3
  | STATUS_INVALID_REQUEST => 4
  end.

Definition Status_of_code (x : Z) : option ProtocolStatus :=
  find (fun s => Status_code s =? x)
    [STATUS_OK; STATUS_SERVICE_SPECIFIC_ERROR; STATUS_INVALID_VERSION; STATUS_INVALID_SERVICE; STATUS_INVALID_REQUEST].

(** [ResponseHeaderVersion1] is the status alone. *)
Definition ResponseHeader (s : ProtocolStatus) : bytes := [byte (Status_code s)].

(** [Core::ProtoBuf::parse]: [downCast<int>] asserts that the length, which has
    64 bits, fits. *)
Definition parse {T} `{ProtoBuf T} (from : bytes) (skipBytes : nat) : outcome (option T) :=
  if 2147483647 <? u64 (Z.of_nat (length from) - Z.of_nat skipBytes) then Fail AssertFailed
  else Ok (pb_parse (drop skipBytes from)).

(** ** Servers *)

Record ServerRPC : Type := mkServerRPC {
  opaqueRPC : OpaqueServerRPC;
  active : bool;
  service : Z;
  serviceSpecificErrorVersion : Z;
  opCode : Z
}.

#[export] Instance ServerRPC_eta : Eta ServerRPC := fun r =>
  mkServerRPC (opaqueRPC r) (active r) (service r) (serviceSpecificErrorVersion r) (opCode r).

Definition ServerRPC_init : ServerRPC := mkServerRPC OpaqueServerRPC_init false 0 0 0.

Section ServerSide.
Context {S : Type} `{RPCHandler S}.

Abbreviation MS := (M (OpaqueServer S)).

(** The response leaves through the opaque RPC. *)
Definition respond (status : ProtocolStatus) (payload : bytes) (rpc : ServerRPC) : MS ServerRPC :=
  let! o := sendReply ((opaqueRPC rpc) <| os_response := ResponseHeader status ++ payload |>) in
  ret (rpc <| active := false |> <| opaqueRPC := o |>).

Definition reject (status : ProtocolStatus) (rpc : ServerRPC) : MS ServerRPC := respond status [] rpc.

Definition rejectInvalidService : ServerRPC -> MS ServerRPC := reject STATUS_INVALID_SERVICE.
Definition rejectInvalidRequest : ServerRPC -> MS ServerRPC := reject STATUS_INVALID_REQUEST.

Definition ServerRPC_reply {T} `{ProtoBuf T} (payload : T) : ServerRPC -> MS ServerRPC :=
  respond STATUS_OK (pb_serialize payload).

Definition returnError {T} `{ProtoBuf T} (serviceSpecificError : T) : ServerRPC -> MS ServerRPC :=
  respond STATUS_SERVICE_SPECIFIC_ERROR (pb_serialize serviceSpecificError).

Definition ServerRPC_closeSession (rpc : ServerRPC) : MS ServerRPC :=
  let! o := closeSession (opaqueRPC rpc) in
  ret (rpc <| active := false |> <| opaqueRPC := o |>).

(** The constructor reads the header, or rejects the request at once. *)
Definition ServerRPC_construct (o : OpaqueServerRPC) : MS ServerRPC :=
  let rpc := mkServerRPC o true 0 0 0 in
  let request := os_request o in
  if bool_decide (length request < 1)%nat then reject STATUS_INVALID_REQUEST rpc
  else
    let requestHeader := RequestHeader_fromBigEndian request in
    if negb (rh_version requestHeader =? 1) || bool_decide (length request < sizeof_RequestHeader)%nat then
      reject STATUS_INVALID_VERSION rpc
    else
      ret (rpc <| service := rh_service requestHeader |>
               <| serviceSpecificErrorVersion := rh_serviceSpecificErrorVersion requestHeader |>
               <| opCode := rh_opCode requestHeader |>).

(** [getRequest] into a protocol buffer; an RPC that it rejects comes back
    without one. *)
Definition getRequest {T} `{ProtoBuf T} (rpc : ServerRPC) : MS (option T * ServerRPC) :=
  if negb (active rpc) then ret (None, rpc)
  else
    let! m := lift (parse (os_request (opaqueRPC rpc)) sizeof_RequestHeader) in
    match m with
    | Some m => ret (Some m, rpc)
    | None => let! rpc := rejectInvalidRequest rpc in ret (None, rpc)
    end.

(** [getRequest] into a buffer. *)
Definition getRequest_bytes (rpc : ServerRPC) : MS (option bytes) :=
  if negb (active rpc) then ret None
  else
    let request := os_request (opaqueRPC rpc) in
    assert_ (bool_decide (sizeof_RequestHeader <= length request)%nat) ;;;
    ret (Some (drop sizeof_RequestHeader request)).
End ServerSide.

(** ** Clients *)

(** [RPC::ClientRPC::Status]; the response or the service-specific error is
    filled in with the status. *)
Inductive ReplyStatus (R E : Type) : Type :=
| Reply_OK (response : R)
| Reply_SERVICE_SPECIFIC_ERROR (error : E)
| Reply_RPC_FAILED
| Reply_RPC_CANCELED
| Reply_TIMEOUT
| Reply_INVALID_SERVICE
| Reply_INVALID_REQUEST.
Arguments Reply_OK {R E} response.
Arguments Reply_SERVICE_SPECIFIC_ERROR {R E} error.
Arguments Reply_RPC_FAILED {R E}.
Arguments Reply_RPC_CANCELED {R E}.
Arguments Reply_TIMEOUT {R E}.
Arguments Reply_INVALID_SERVICE {R E}.
Arguments Reply_INVALID_REQUEST {R E}.

(** The request as the constructor of [ClientRPC] builds it. *)
Definition request_bytes {T} `{ProtoBuf T} (service errorVersion opCode : Z) (request : T) : bytes :=
  RequestHeader_toBigEndian (mkRequestHeader 1 service errorVersion opCode) ++ pb_serialize request.

(** The constructor; [ref] is its [opaqueRPC]. *)
Definition ClientRPC_construct {T} `{ProtoBuf T} (service errorVersion opCode : Z) (request : T)
    (others : M W unit) (ref : Z) : M W unit :=
  start ref (request_bytes service errorVersion opCode request) others.

Definition isReady (ref : Z) : M Client bool :=
  let! status := getStatus ref in ret (negb (bool_decide (status = OPAQUE_NOT_READY))).

(** The second half of [ClientRPC::waitForReply]: what the bytes of the response
    say, where both protocol buffers are asked for. *)
Definition read_response {R E} `{ProtoBuf R} `{ProtoBuf E} (response : bytes) : outcome (ReplyStatus R E) :=
  match response with
  | [] => Fail Panicked
  | status :: _ =>
      match Status_of_code (of_byte status) with
      | Some STATUS_INVALID_VERSION => Fail Panicked
      | Some STATUS_OK =>
          match parse response sizeof_ResponseHeader with
          | Ok (Some m) => Ok (Reply_OK m)
          | Ok None => Fail Panicked
          | Fail f => Fail f
          end
      | Some STATUS_SERVICE_SPECIFIC_ERROR =>
          match parse response sizeof_ResponseHeader with
          | Ok (Some m) => Ok (Reply_SERVICE_SPECIFIC_ERROR m)
          | Ok None => Fail Panicked
          | Fail f => Fail f
          end
      | Some STATUS_INVALID_SERVICE => Ok Reply_INVALID_SERVICE
      | Some STATUS_INVALID_REQUEST => Ok Reply_INVALID_REQUEST
      | None => Fail Panicked
      end
  end.

(** [ClientRPC::waitForReply]; [now] is the clock after the wait. *)
Definition ClientRPC_waitForReply {R E} `{ProtoBuf R} `{ProtoBuf E} (ref timeout : Z)
    (sched : list (Z * M W unit)) (now : Z) : M W (ReplyStatus R E) :=
  waitForReply ref timeout sched ;;;
  let! status := on_client (getStatus ref) in
  match status with
  | OPAQUE_NOT_READY => if timeout <? now then ret Reply_TIMEOUT else fail Panicked
  | OPAQUE_ERROR => ret Reply_RPC_FAILED
  | OPAQUE_CANCELED => ret Reply_RPC_CANCELED
  | OPAQUE_OK =>
      let! reply := on_client (peekReply ref) in
      match reply with
      | None => fail UndefinedBehavior
      | Some response => lift (read_response response)
      end
  end.

(** ** What one side writes, the other reads *)

Lemma of_be32_byte x : 0 <= x < 256 -> of_be32 [byte x] = x.
Proof.
  intros Hx. unfold of_be32, byte. cbn [fold_left]. change 255 with (Z.ones 8). rewrite Z.land_ones by lia.
  change (2 ^ 8) with 256. rewrite (Z.mod_small x) by lia. rewrite N_ascii_embedding by lia. rewrite Z.shiftl_0_l, Z.lor_0_l. lia.
Qed.

Lemma RequestHeader_roundtrip h b :
  0 <= rh_version h < 256 -> 0 <= rh_service h < 65536 -> 0 <= rh_serviceSpecificErrorVersion h < 256 ->
  0 <= rh_opCode h < 65536 -> RequestHeader_fromBigEndian (RequestHeader_toBigEndian h ++ b) = h.
Proof.
  intros Hv Hs He Ho. destruct h as [v s e o]. simpl in *. unfold RequestHeader_fromBigEndian, RequestHeader_toBigEndian.
  change (take 1 (([byte v] ++ be16 s ++ [byte e] ++ be16 o) ++ b)) with [byte v].
  f_equal; [by apply of_be32_byte|exact (of_be32_be16 s Hs)|by apply of_be32_byte|exact (of_be32_be16 o Ho)].
Qed.

Lemma parse_after {T} `{ProtoBufLaws T} pre (m : T) n :
  length pre = n -> Z.of_nat (length (pb_serialize m)) <= 2147483647 ->
  parse (pre ++ pb_serialize m) n = Ok (Some m).
Proof.
  intros <- Hlen. unfold parse. rewrite length_app, drop_app_length, pb_parse_serialize.
  rewrite u64_small by (unfold is_u64; lia).
  destruct (Z.ltb_spec 2147483647 (Z.of_nat (length pre + length (pb_serialize m)) - Z.of_nat (length pre))); [lia|done].
Qed.

Section Roundtrip.
Context {S : Type} `{RPCHandler S}.

(** The server finds in a request the service, the operation and the message. *)
Lemma request_roundtrip {T} `{ProtoBufLaws T} sv ev op (m : T) c id (s : OpaqueServer S) :
  0 <= sv < 65536 -> 0 <= ev < 256 -> 0 <= op < 65536 -> Z.of_nat (length (pb_serialize m)) <= 2147483647 ->
  let o := mkOpaqueServerRPC (request_bytes sv ev op m) [] c id in
  let rpc := mkServerRPC o true sv ev op in
  ServerRPC_construct o s = Ok (rpc, s) /\ getRequest rpc s = Ok ((Some m, rpc), s).
Proof.
  intros Hs He Ho Hlen. cbv zeta. split.
  - unfold ServerRPC_construct. cbn [os_request].
    assert (length (request_bytes sv ev op m) = 6 + length (pb_serialize m))%nat as Hl by done.
    assert (RequestHeader_fromBigEndian (request_bytes sv ev op m) = mkRequestHeader 1 sv ev op) as Hh
      by (apply RequestHeader_roundtrip; simpl; lia).
    rewrite Hl, Hh, !bool_decide_false by (unfold sizeof_RequestHeader; lia). reflexivity.
  - unfold getRequest, lift, bind. cbn [active negb opaqueRPC os_request].
    unfold request_bytes at 1. by rewrite parse_after.
Qed.
End Roundtrip.

(** The client finds in a response what the server replied. *)
Lemma response_roundtrip {R E} `{ProtoBufLaws R} `{ProtoBufLaws E} :
  (forall m : R, Z.of_nat (length (pb_serialize m)) <= 2147483647 ->
     read_response (R := R) (E := E) (ResponseHeader STATUS_OK ++ pb_serialize m) = Ok (Reply_OK m)) /\
  (forall e : E, Z.of_nat (length (pb_serialize e)) <= 2147483647 ->
     read_response (R := R) (E := E) (ResponseHeader STATUS_SERVICE_SPECIFIC_ERROR ++ pb_serialize e) =
     Ok (Reply_SERVICE_SPECIFIC_ERROR e)).
Proof.
  split; intros m Hm; unfold read_response; simpl app.
  - pose proof (parse_after (ResponseHeader STATUS_OK) m 1%nat eq_refl Hm) as Hp. simpl app in Hp.
    change sizeof_ResponseHeader with 1%nat. by rewrite Hp.
  - pose proof (parse_after (ResponseHeader STATUS_SERVICE_SPECIFIC_ERROR) m 1%nat eq_refl Hm) as Hp. simpl app in Hp.
    change sizeof_ResponseHeader with 1%nat. by rewrite Hp.
Qed.
