(* ===== verification/RPCSystem.v ===== *)
(** * A connection, from client to server and back

    A session of a client and a server, on one connection: threads of the client
    start RPCs, wait for them and cancel them, messages arrive in the order they
    were queued (as [MessageSocketSpec.framing_roundtrip] shows), threads of the
    server answer in any order, late, repeatedly or never, the timer fires, and
    either side disconnects. A reply that an RPC returns is the answer to its
    own request. *)

From Stdlib Require Import ZArith Lia Ascii String.
From stdpp Require Import base gmap strings list fin_maps sorting.
From S2P Require Import Prelude Stream Endian MessageSocket MessageSocketSpec ClientSession OpaqueServer RPCProtocol.
Local Open Scope Z_scope.
Local Open Scope list_scope.

(** The handler of the server keeps the RPCs for its threads. *)
Definition Pending : Type := list OpaqueServerRPC.

#[export] Instance Pending_handler : RPCHandler Pending := fun rpc =>
  modify (fun s => s <| rpcHandler := rpcHandler s ++ [rpc] |>).

(** [starting] are the calls of [sendRequest] between their two halves, each with
    the object it is for, its message id and its request. The last two fields
    record what happened: the object and the request of each message id, and the
    answers of the server, with message id, request and response. *)
Record Connection : Type := mkConnection {
  client : MessageSocket * Client;
  server : OpaqueServer Pending;
  starting : list (Z * Z * bytes);
  sent : gmap Z (Z * bytes);
  answered : list (Z * bytes * bytes)
}.

#[export] Instance Connection_eta : Eta Connection := fun c =>
  mkConnection (client c) (server c) (starting c) (sent c) (answered c).

Definition on_side {A} (m : M (MessageSocket * Client) A) : M Connection A :=
  zoom client (fun w c => c <| client := w |>) m.
Definition on_peer {A} (m : M (OpaqueServer Pending) A) : M Connection A :=
  zoom server (fun s c => c <| server := s |>) m.

Inductive action : Type :=
| Start (ref : Z) (request : bytes)
| Queue (k : nat)
| Cancel (ref : Z)
| Update (ref : Z)
| BeginWait (ref timeout now : Z)
| EndWait (ref : Z)
| Destroy (ref : Z)
| TimerFires
| ToServer
| Answer (k : nat) (response : bytes)
| CloseSession (k : nat)
| ToClient
| ClientDisconnects
| ServerDisconnects.

(** The connection has number 0 at the server. An action that cannot happen
    ends the run. *)
Definition step (a : action) : M Connection unit :=
  match a with
  | Start ref request =>
      let! id := on_side (on_session allocate) in
      modify (fun c => c <| starting := starting c ++ [(ref, id, request)] |>
                         <| sent := <[id := (ref, request)]> (sent c) |>)
  | Queue k =>
      let! c := get in
      match starting c !! k with
      | None => fail Blocked
      | Some (ref, id, request) =>
          modify (fun c => c <| starting := delete k (starting c) |>) ;;;
          let! rpc := on_side (queue_request id request) in
          on_side (on_client (modify (fun c => c <| rpcs := <[ref := rpc]> (rpcs c) |>)))
      end
  | Cancel ref => on_side (on_client (cancel ref))
  | Update ref => on_side (on_client (getStatus ref)) ;;; ret tt
  | BeginWait ref timeout now =>
      let! rpc := on_side (on_client (the_rpc ref)) in
      on_side (on_session (wait_check (responseToken rpc) timeout now)) ;;; ret tt
  | EndWait ref =>
      let! rpc := on_side (on_client (the_rpc ref)) in
      on_side (on_session (wait_resume (responseToken rpc)))
  | Destroy ref => on_side (on_client (destroy ref))
  | TimerFires => on_side Timer_handleFileEvent
  | ToServer =>
      let! c := get in
      match outboundQueue (client c).1 with
      | [] => fail Blocked
      | o :: queue =>
          on_side (on_socket (modify (fun s => s <| outboundQueue := queue |>))) ;;;
          on_peer (OpaqueServer_handleReceivedMessage 0 (messageId (Header_fromBigEndian (out_header o))) (out_message o))
      end
  | Answer k response =>
      let! c := get in
      match rpcHandler (server c) !! k with
      | None => fail Blocked
      | Some rpc =>
          let! rpc' := on_peer (sendReply (rpc <| os_response := response |>)) in
          on_peer (modify (fun s => s <| rpcHandler := <[k := rpc']> (rpcHandler s) |>)) ;;;
          when (bool_decide (is_Some (os_socket rpc)))
            (modify (fun c => c <| answered := answered c ++ [(os_messageId rpc, os_request rpc, response)] |>))
      end
  | CloseSession k =>
      let! c := get in
      match rpcHandler (server c) !! k with
      | None => fail Blocked
      | Some rpc =>
          let! rpc' := on_peer (closeSession rpc) in
          on_peer (modify (fun s => s <| rpcHandler := <[k := rpc']> (rpcHandler s) |>))
      end
  | ToClient =>
      let! c := get in
      match sockets (server c) !! 0 with
      | None => fail Blocked
      | Some sock =>
          match outboundQueue sock with
          | [] => fail Blocked
          | o :: queue =>
              on_peer (set_socket 0 (sock <| outboundQueue := queue |>)) ;;;
              on_side (handleReceivedMessage (messageId (Header_fromBigEndian (out_header o))) (out_message o))
          end
      end
  | ClientDisconnects => on_side disconnect
  | ServerDisconnects => on_peer (OpaqueServer_handleDisconnect 0)
  end.

Definition run (actions : list action) : M Connection unit := forM actions step.

(** A session that is connected to a server that has accepted it. *)
Definition Connection_init (ping maxClient maxServer : Z) : Connection :=
  let socket (maxLen : Z) := MessageSocket_construct [] (mkSendKernel [] []) maxLen in
  mkConnection (socket maxClient, mkClient (ClientSession_construct ping "server" true true Connected) ∅)
    (mkOpaqueServer maxServer {[0 := socket maxServer]} 1 []) [] ∅ [].

(** ** The invariant *)

(** The message ids under way from the client to an answer, each once. *)
Definition queued_ids (l : list Outbound) : list Z :=
  filter (fun id => id < VERSION_MESSAGE_ID) (map (fun o => messageId (Header_fromBigEndian (out_header o))) l).

Definition live_ids (l : list OpaqueServerRPC) : list Z :=
  map os_messageId (filter (fun r => is_Some (os_socket r)) l).

Definition flight (c : Connection) : list Z :=
  map (fun x => x.1.2) (starting c) ++ queued_ids (outboundQueue (client c).1) ++
  live_ids (rpcHandler (server c)) ++ map (fun x => x.1.1) (answered c).

(** What is known of a request, of an answer and of the messages. *)
Definition is_request (c : Connection) (id : Z) (request : bytes) : Prop := exists ref, sent c !! id = Some (ref, request).

Definition is_answer (c : Connection) (id : Z) (response : bytes) : Prop :=
  exists request, is_request c id request /\ (id, request, response) ∈ answered c.

Definition rpc_ok (c : Connection) (ref : Z) (rpc : OpaqueClientRPC) : Prop :=
  exists request, sent c !! responseToken rpc = Some (ref, request) /\
    (oc_status rpc = OPAQUE_OK -> (responseToken rpc, request, oc_reply rpc) ∈ answered c).

Record conn_inv (n : Z) (c : Connection) : Prop := {
  inv_next : 0 <= nextMessageId (session (client c).2) <= n;
  inv_sent : forall id x, sent c !! id = Some x -> 0 <= id < nextMessageId (session (client c).2);
  inv_starting : Forall (fun x => sent c !! x.1.2 = Some (x.1.1, x.2)) (starting c);
  inv_rpcs : map_Forall (rpc_ok c) (rpcs (client c).2);
  inv_responses : map_Forall (fun id r => is_Some (sent c !! id) /\ (r_status r = HAS_REPLY -> is_answer c id (r_reply r)))
                    (responses (session (client c).2));
  inv_requests : Forall (fun o => exists id b, o = Outbound_init id b /\ (id = PING_MESSAGE_ID \/ is_request c id b))
                   (outboundQueue (client c).1);
  inv_pending : Forall (fun r => is_request c (os_messageId r) (os_request r)) (rpcHandler (server c));
  inv_answers : map_Forall (fun _ sock => Forall (fun o => exists id b, o = Outbound_init id b /\
                   (id = PING_MESSAGE_ID \/ is_answer c id b)) (outboundQueue sock)) (sockets (server c));
  inv_answered : Forall (fun x => is_request c x.1.1 x.1.2) (answered c);
  inv_once : NoDup (flight c)
}.

(** The replies a session holds are among those it held before. *)
Record no_new_reply (s s' : ClientSession) : Prop := {
  same_next : nextMessageId s' = nextMessageId s;
  old_reply : forall id r', responses s' !! id = Some r' -> exists r, responses s !! id = Some r /\
    (r_status r' = HAS_REPLY -> r_status r = HAS_REPLY /\ r_reply r = r_reply r')
}.

#[export] Instance no_new_reply_preorder : PreOrder no_new_reply.
Proof.
  split; [by split; eauto|]. intros s1 s2 s3 [N1 R1] [N2 R2]. split; [congruence|].
  intros id r3 H3. destruct (R2 id r3 H3) as (r2 & H2 & E2). destruct (R1 id r2 H2) as (r1 & H1 & E1).
  exists r1. split; [done|]. intros Hs3. destruct (E2 Hs3) as [Hs2 <-]. by apply E1.
Qed.

Lemma no_new_reply_same s s' : nextMessageId s' = nextMessageId s -> responses s' = responses s -> no_new_reply s s'.
Proof. intros Hn Hr. split; [done|]. rewrite Hr. eauto. Qed.

Lemma no_new_reply_delete s id : no_new_reply s (s <| responses := delete id (responses s) |>).
Proof. split; [done|]. simpl. intros id' r' [_ H]%lookup_delete_Some. by exists r'. Qed.

Lemma no_new_reply_insert s id r r' :
  responses s !! id = Some r -> (r_status r' = HAS_REPLY -> r_status r = HAS_REPLY /\ r_reply r = r_reply r') ->
  no_new_reply s (s <| responses := <[id := r']> (responses s) |>).
Proof.
  intros Hr Hsame. split; [done|]. simpl. intros id2 r2 [[<- <-]|[_ H]]%lookup_insert_Some; [|by exists r2].
  by exists r.
Qed.

Lemma keeps_cancel rpc : keeps no_new_reply (ClientSession_cancel rpc).
Proof.
  intros s. unfold ClientSession_cancel. wp_go; try reflexivity; unfold wp; simpl.
  - transitivity (s <| responses := <[responseToken rpc := r <| r_status := CANCELED |>]> (responses s) |>);
      [by apply (no_new_reply_insert _ _ _ _ Hm)|by apply no_new_reply_same].
  - transitivity (s <| responses := delete (responseToken rpc) (responses s) |>);
      [by apply no_new_reply_delete|by apply no_new_reply_same].
Qed.

Lemma keeps_wait_check token timeout now : keeps no_new_reply (wait_check token timeout now).
Proof.
  intros s. unfold wait_check. wp_go; try reflexivity; [|by apply no_new_reply_delete].
  apply (no_new_reply_insert _ _ _ _ Hm). simpl. by rewrite Hm0.
Qed.

Lemma keeps_wait_resume token : keeps no_new_reply (wait_resume token).
Proof. intros s. unfold wait_resume. wp_go. by apply (no_new_reply_insert _ _ _ _ Hm). Qed.

(** What an RPC knows after it has looked. *)
Lemma update_spec rpc s :
  post (OpaqueClientRPC_update rpc) (fun rpc' s' => no_new_reply s s' /\ responseToken rpc' = responseToken rpc /\
    (oc_status rpc' = OPAQUE_OK -> (oc_status rpc = OPAQUE_OK /\ oc_reply rpc' = oc_reply rpc) \/
       exists r, responses s !! responseToken rpc = Some r /\ r_status r = HAS_REPLY /\ r_reply r = oc_reply rpc')) s.
Proof.
  unfold OpaqueClientRPC_update, ClientSession_update. wp_go; try (split_and!; [reflexivity|done|by left]); simpl;
    try (split_and!; [by apply no_new_reply_delete|done|naive_solver]).
  all: split_and!; [reflexivity|done|intros; congruence].
Qed.

Lemma cancel_spec rpc s :
  post (OpaqueClientRPC_cancel rpc) (fun rpc' s' => no_new_reply s s' /\ responseToken rpc' = responseToken rpc /\
    (oc_status rpc' = OPAQUE_OK -> oc_status rpc = OPAQUE_OK /\ oc_reply rpc' = oc_reply rpc)) s.
Proof.
  unfold OpaqueClientRPC_cancel. destruct (oc_status rpc) eqn:Hst; try (apply wp_ret; split_and!; [reflexivity|done|intros; split; congruence]).
  apply wp_bind. apply wp_when; intros _; [|apply wp_ret; by split_and!].
  eapply wp_mono; [apply keeps_cancel|done|]. intros [] s' Hs. by apply wp_ret.
Qed.

(** ** Steps of the client *)

(** Nothing new is known: the client changes as a session without new replies
    does, and its RPCs and queue stay consistent. *)
Lemma inv_client n c w' :
  conn_inv n c ->
  no_new_reply (session (client c).2) (session w'.2) ->
  map_Forall (rpc_ok c) (rpcs w'.2) ->
  Forall (fun o => exists id b, o = Outbound_init id b /\ (id = PING_MESSAGE_ID \/ is_request c id b)) (outboundQueue w'.1) ->
  NoDup (flight (c <| client := w' |>)) ->
  conn_inv n (c <| client := w' |>).
Proof.
  intros Hinv [Hnext Hold] Hrpcs Hqueue Hids. destruct Hinv. split; simpl; rewrite ?Hnext; try done.
  intros id r Hr. destruct (Hold id r Hr) as (r0 & Hr0 & Hs0). destruct (inv_responses0 id r0 Hr0) as [Hsome Hans].
  split; [done|]. intros Hs. destruct (Hs0 Hs) as [Hs1 <-]. by apply Hans.
Qed.

(** A reply that a session holds for an RPC is its answer. *)
Lemma rpc_ok_update n c ref rpc rpc' :
  conn_inv n c -> rpc_ok c ref rpc -> responseToken rpc' = responseToken rpc ->
  (oc_status rpc' = OPAQUE_OK -> (oc_status rpc = OPAQUE_OK /\ oc_reply rpc' = oc_reply rpc) \/
     exists r, responses (session (client c).2) !! responseToken rpc = Some r /\ r_status r = HAS_REPLY /\ r_reply r = oc_reply rpc') ->
  rpc_ok c ref rpc'.
Proof.
  intros Hinv (request & Hsent & Hok) Htok Hnew. exists request. rewrite Htok. split; [done|].
  intros Hs. destruct (Hnew Hs) as [[Hs0 ->]|(r & Hr & Hhas & <-)]; [by apply Hok|].
  destruct (proj2 (inv_responses _ _ Hinv _ _ Hr) Hhas) as (request' & [ref' Hsent'] & Hans).
  rewrite Hsent in Hsent'. by simplify_eq.
Qed.

(** A method of an RPC object. *)
Lemma inv_on_rpc n c ref f :
  conn_inv n c ->
  (forall rpc s, post (f rpc) (fun rpc' s' => no_new_reply s s' /\ responseToken rpc' = responseToken rpc /\
    (oc_status rpc' = OPAQUE_OK -> (oc_status rpc = OPAQUE_OK /\ oc_reply rpc' = oc_reply rpc) \/
       exists r, responses s !! responseToken rpc = Some r /\ r_status r = HAS_REPLY /\ r_reply r = oc_reply rpc')) s) ->
  post (on_rpc ref f) (fun _ cl' => conn_inv n (c <| client := ((client c).1, cl') |>)) (client c).2.
Proof.
  intros Hinv Hf. unfold on_rpc, the_rpc. wp_go. eapply wp_mono; [apply Hf|done|].
  intros rpc' s' (Hold & Htok & Hnew). wp_go. pose proof (inv_rpcs _ _ Hinv _ _ Hm) as Hok.
  apply inv_client; [done|done| |apply Hinv|apply Hinv].
  simpl. intros ref2 rpc2 [[<- <-]|[_ H2]]%lookup_insert_Some; [|by apply (inv_rpcs _ _ Hinv)].
  by apply (rpc_ok_update n c ref o rpc').
Qed.

(** A method of the session that leaves no new reply. *)
Lemma inv_on_session {A} n c (m : M ClientSession A) :
  conn_inv n c -> keeps no_new_reply m ->
  post (on_session m) (fun _ w' => conn_inv n (c <| client := w' |>)) (client c).
Proof.
  intros Hinv Hm. unfold on_session, on_client. wp_go. eapply wp_mono; [apply Hm|done|].
  intros a s' Hs. apply inv_client; [done|done|apply Hinv..].
Qed.

Lemma wp_on_side {A} E (m : M (MessageSocket * Client) A) c (Q : A -> Connection -> Prop) :
  wp E m (fun a w' => Q a (c <| client := w' |>)) (client c) -> wp E (on_side m) Q c.
Proof. intros HQ. unfold on_side. by apply wp_zoom. Qed.

Lemma wp_on_client {A} E (m : M Client A) w (Q : A -> MessageSocket * Client -> Prop) :
  wp E m (fun a cl' => Q a (w.1, cl')) w.2 -> wp E (on_client m) Q w.
Proof. intros HQ. unfold on_client. by apply wp_zoom. Qed.

(** Messages queued on the socket of the client. *)
Lemma queued_ids_app l l' : queued_ids (l ++ l') = queued_ids l ++ queued_ids l'.
Proof. unfold queued_ids. by rewrite map_app, filter_app. Qed.

Lemma outbound_id id b : is_u64 id -> messageId (Header_fromBigEndian (out_header (Outbound_init id b))) = id.
Proof.
  intros Hid. unfold Outbound_init. cbn [out_header].
  rewrite <-(app_nil_r (Header_toBigEndian _)), header_roundtrip; simpl; try lia; try done.
  apply Z.mod_pos_bound. lia.
Qed.

Lemma queued_ids_init id b : is_u64 id ->
  queued_ids [Outbound_init id b] = if decide (id < VERSION_MESSAGE_ID) then [id] else [].
Proof. intros Hid. unfold queued_ids. cbn [map]. by rewrite (outbound_id id b Hid). Qed.

Lemma inv_queue n c id b :
  conn_inv n c -> (id = PING_MESSAGE_ID \/ is_request c id b) -> is_u64 id ->
  (id < VERSION_MESSAGE_ID -> id ∉ flight c) ->
  post (on_socket (sendMessage id b)) (fun _ w' => conn_inv n (c <| client := w' |>)) (client c).
Proof.
  intros Hinv Hid Hu Hnew.
  assert (forall s, outboundQueue s = outboundQueue (client c).1 ++ [Outbound_init id b] ->
    conn_inv n (c <| client := (s, (client c).2) |>)) as Hadd.
  { intros s Hs. apply inv_client; [done|done|apply Hinv|..].
    - simpl. rewrite Hs. apply Forall_app. split; [apply Hinv|]. apply Forall_singleton. by exists id, b.
    - pose proof (inv_once _ _ Hinv) as Hnd. unfold flight in *. simpl. rewrite Hs, queued_ids_app, queued_ids_init by done.
      destruct (decide (id < VERSION_MESSAGE_ID)) as [Hlt|]; [|by rewrite app_nil_r].
      specialize (Hnew Hlt). rewrite <-app_assoc. simpl.
      rewrite app_assoc, <-Permutation_middle, <-app_assoc. by apply NoDup_cons. }
  unfold on_socket, sendMessage. wp_go; try done; by apply Hadd.
Qed.

(** ** Knowledge grows *)

Record knows (c c' : Connection) : Prop := {
  knows_sent : sent c ⊆ sent c';
  knows_answered : forall x, x ∈ answered c -> x ∈ answered c'
}.

Lemma is_request_mono c c' id b : knows c c' -> is_request c id b -> is_request c' id b.
Proof. intros [Hs _] [ref H]. exists ref. by eapply lookup_weaken. Qed.

Lemma is_answer_mono c c' id b : knows c c' -> is_answer c id b -> is_answer c' id b.
Proof. intros Hk (req & Hr & Ha). exists req. split; [by eapply is_request_mono|by apply Hk]. Qed.

Lemma rpc_ok_mono c c' ref rpc : knows c c' -> rpc_ok c ref rpc -> rpc_ok c' ref rpc.
Proof.
  intros Hk (req & Hs & Ho). exists req. split; [by eapply lookup_weaken; [|apply Hk]|]. intros H. by apply Hk, Ho.
Qed.

Lemma inv_weaken n n' c : n <= n' -> conn_inv n c -> conn_inv n' c.
Proof. intros Hn []. split; try done. lia. Qed.

(** ** Steps of the server *)

Lemma inv_server n c s' :
  conn_inv n c ->
  Forall (fun r => is_request c (os_messageId r) (os_request r)) (rpcHandler s') ->
  map_Forall (fun _ sock => Forall (fun o => exists id b, o = Outbound_init id b /\
     (id = PING_MESSAGE_ID \/ is_answer c id b)) (outboundQueue sock)) (sockets s') ->
  NoDup (flight (c <| server := s' |>)) -> conn_inv n (c <| server := s' |>).
Proof. intros [] Hp Ha Hnd. by split. Qed.

Lemma live_ids_app l l' : live_ids (l ++ l') = live_ids l ++ live_ids l'.
Proof. unfold live_ids. by rewrite filter_app, map_app. Qed.

(** The RPC [k] forgets its connection. *)
Lemma live_ids_insert (l : list OpaqueServerRPC) k rpc rpc' :
  l !! k = Some rpc -> os_socket rpc' = None ->
  live_ids l ≡ₚ (if decide (is_Some (os_socket rpc)) then [os_messageId rpc] else []) ++ live_ids (<[k := rpc']> l).
Proof.
  intros Hk Hnone. assert (k < length l)%nat as Hlt by by eapply lookup_lt_Some.
  rewrite insert_take_drop by done. rewrite <-(take_drop_middle l k rpc Hk) at 1.
  rewrite !live_ids_app. cbn [app]. unfold live_ids at 2 4. rewrite !filter_cons.
  rewrite (decide_False (P := is_Some (os_socket rpc'))) by (rewrite Hnone; apply is_Some_None).
  destruct (decide (is_Some (os_socket rpc))); [|done]. cbn [map app]. by rewrite Permutation_middle.
Qed.

(** ** Each action keeps the invariant *)

Lemma request_id n c id b : conn_inv n c -> n <= VERSION_MESSAGE_ID -> is_request c id b -> is_u64 id /\ id < VERSION_MESSAGE_ID.
Proof.
  intros Hinv Hn [ref Hs]. pose proof (inv_sent _ _ Hinv _ _ Hs). pose proof (inv_next _ _ Hinv).
  unfold is_u64, VERSION_MESSAGE_ID in *. lia.
Qed.

Lemma flight_requests n c id : conn_inv n c -> n <= VERSION_MESSAGE_ID -> id ∈ flight c -> is_Some (sent c !! id).
Proof.
  intros Hinv Hn Hid. unfold flight in Hid. rewrite !elem_of_app in Hid. destruct Hid as [Hid|[Hid|[Hid|Hid]]].
  - apply list_elem_of_In, in_map_iff in Hid as (x & <- & Hx). apply list_elem_of_In in Hx.
    pose proof (inv_starting _ _ Hinv) as Hst. rewrite Forall_forall in Hst. rewrite (Hst x Hx). done.
  - unfold queued_ids in Hid. apply list_elem_of_filter in Hid as [Hlt Hid].
    apply list_elem_of_In, in_map_iff in Hid as (o & <- & Ho). apply list_elem_of_In in Ho.
    pose proof (inv_requests _ _ Hinv) as Hq. rewrite Forall_forall in Hq. destruct (Hq o Ho) as (id & b & -> & [->|Hreq]).
    + rewrite outbound_id in Hlt by (unfold is_u64, PING_MESSAGE_ID; lia). unfold PING_MESSAGE_ID, VERSION_MESSAGE_ID in Hlt. lia.
    + destruct (request_id _ _ _ _ Hinv Hn Hreq) as [Hu _]. rewrite outbound_id by done. destruct Hreq as [ref ->]. done.
  - unfold live_ids in Hid. apply list_elem_of_In, in_map_iff in Hid as (r & <- & Hr).
    apply list_elem_of_In, list_elem_of_filter in Hr as [_ Hr].
    pose proof (inv_pending _ _ Hinv) as Hp. rewrite Forall_forall in Hp. destruct (Hp r Hr) as [ref ->]. done.
  - apply list_elem_of_In, in_map_iff in Hid as (x & <- & Hx). apply list_elem_of_In in Hx.
    pose proof (inv_answered _ _ Hinv) as Ha. rewrite Forall_forall in Ha. destruct (Ha x Hx) as [ref ->]. done.
Qed.

Lemma inv_start n c ref request :
  conn_inv n c -> n < VERSION_MESSAGE_ID -> post (step (Start ref request)) (fun _ c' => conn_inv (n + 1) c') c.
Proof.
  intros Hinv Hn. unfold step. apply wp_bind, wp_on_side. unfold on_session, on_client. wp_go. unfold wp. simpl.
  set (s0 := session (client c).2). set (id := nextMessageId s0).
  pose proof (inv_next _ _ Hinv) as Hnext. fold s0 id in Hnext.
  assert (u64 (id + 1) = id + 1) as Hu by (apply u64_small; unfold is_u64, VERSION_MESSAGE_ID in *; lia).
  assert (sent c !! id = None) as Hfresh.
  { apply eq_None_not_Some. intros [x Hx]. pose proof (inv_sent _ _ Hinv _ _ Hx). fold s0 id in H. lia. }
  assert (id ∉ flight c) as Hnew.
  { intros Hid. destruct (flight_requests n c id Hinv ltac:(lia) Hid) as [x Hx]. by rewrite Hfresh in Hx. }
  match goal with |- conn_inv _ (_ <| client := (_, _ <| session := ?t |>) |> <| starting := _ |> <| sent := _ |>) => set (s1 := t) end.
  assert (nextMessageId s1 = id + 1 /\ responses s1 = <[id := Response_init]> (responses s0)) as [Hnext1 Hresp1]
    by (subst s1; destruct (u32 (numActiveRPCs s0 + 1) =? 1); simpl; by rewrite Hu).
  clearbody s1. set (c' := c <| client := _ |> <| starting := _ |> <| sent := _ |>).
  assert (knows c c') as Hk by (split; [by apply insert_subseteq|done]).
  assert (conn_inv n c) as [] by done. split.
  - simpl. rewrite Hnext1. lia.
  - simpl. rewrite Hnext1. intros id' x [[<- _]|[_ H]]%lookup_insert_Some; [lia|].
    specialize (inv_sent0 id' x H). fold s0 id in inv_sent0. lia.
  - simpl. apply Forall_app. split; [|apply Forall_singleton; simpl; by rewrite lookup_insert_eq].
    eapply Forall_impl; [exact inv_starting0|]. intros x Hx. eapply lookup_weaken; [exact Hx|apply Hk].
  - intros r rpc Hr. eapply rpc_ok_mono; [exact Hk|by apply inv_rpcs0].
  - simpl. rewrite Hresp1. intros id' r [[<- <-]|[_ H]]%lookup_insert_Some; [by rewrite lookup_insert_eq|].
    destruct (inv_responses0 id' r H) as [[x Hx] Ha]. split; [exists x; eapply lookup_weaken; [exact Hx|apply Hk]|].
    intros Hs. eapply is_answer_mono; [exact Hk|by apply Ha].
  - eapply Forall_impl; [exact inv_requests0|]. intros o (i & b & -> & Hi). exists i, b. split; [done|].
    destruct Hi as [->|Hi]; [by left|right; by eapply is_request_mono].
  - eapply Forall_impl; [exact inv_pending0|]. intros r. by apply is_request_mono.
  - intros k sock Hs. eapply Forall_impl; [exact (inv_answers0 k sock Hs)|]. intros o (i & b & -> & Hi). exists i, b.
    split; [done|]. destruct Hi as [->|Hi]; [by left|right; by eapply is_answer_mono].
  - eapply Forall_impl; [exact inv_answered0|]. intros x. by apply is_request_mono.
  - unfold flight. simpl. rewrite map_app, <-app_assoc. simpl. rewrite <-Permutation_middle.
    by apply NoDup_cons.
Qed.

Lemma inv_queue_action n c k :
  conn_inv n c -> n <= VERSION_MESSAGE_ID -> post (step (Queue k)) (fun _ c' => conn_inv n c') c.
Proof.
  destruct c as [[sock [sess objects]] srv st sn an] eqn:Hc. rewrite <-Hc. intros Hinv Hn. unfold step. apply wp_bind, wp_get. destruct (starting c !! k) as [[[ref id] request]|] eqn:Hk; [|done].
  apply wp_bind, wp_modify. set (c1 := c <| starting := _ |>).
  assert (is_request c id request) as Hreq.
  { exists ref. pose proof (inv_starting _ _ Hinv) as Hst. rewrite Forall_forall in Hst.
    apply (Hst (ref, id, request)). by eapply list_elem_of_lookup_2. }
  destruct (request_id _ _ _ _ Hinv Hn Hreq) as [Hu Hlt].
  assert (flight c ≡ₚ id :: flight c1) as Hperm.
  { unfold flight. subst c1. simpl. rewrite <-(take_drop_middle (starting c) k _ Hk) at 1.
    rewrite delete_take_drop, !map_app. cbn [map app]. simpl. rewrite <-!app_assoc. cbn [app]. by rewrite <-Permutation_middle. }
  pose proof (inv_once _ _ Hinv) as Hnd. rewrite Hperm in Hnd. apply NoDup_cons in Hnd as [Hnew Hnd].
  assert (conn_inv n c1) as Hinv1.
  { destruct Hinv. split; try done. subst c1. simpl. by apply Forall_delete. }
  unfold queue_request. apply wp_bind, wp_on_side. unfold on_session at 1, on_client at 1. apply wp_bind, wp_zoom, wp_zoom, wp_get.
  assert (((client c1).1, (client c1).2 <| session := session (client c1).2 |>) = client c1) as -> by (subst c1 c; done).
  assert (forall w : MessageSocket * Client, conn_inv n (c1 <| client := w |>) ->
    post (on_side (on_client (modify (fun cl => cl <| rpcs := <[ref := mkOpaqueClientRPC true id OPAQUE_NOT_READY [] ""]> (rpcs cl) |>))))
      (fun _ c' => conn_inv n c') (c1 <| client := w |>)) as Hfinish.
  { intros w Hw. apply wp_on_side, wp_on_client, wp_modify. apply (inv_client n (c1 <| client := w |>)); [done|reflexivity| |apply Hw|apply Hw].
    simpl. intros ref2 rpc2 [[<- <-]|[_ H2]]%lookup_insert_Some; [|by apply (inv_rpcs _ _ Hw)].
    exists request. split; [|done]. destruct Hreq as [ref' Hs]. pose proof (inv_starting _ _ Hinv) as Hst.
    rewrite Forall_forall in Hst. apply (Hst (ref, id, request)). by eapply list_elem_of_lookup_2. }
  apply wp_bind, wp_when; intros _.
  - eapply wp_mono; [apply (inv_queue n c1 id request); [done|by right|done|done]|done|].
    intros [] w Hw. apply wp_ret. by apply Hfinish.
  - apply wp_ret. apply (Hfinish (client c1)). by destruct c1.
Qed.

(** What the client does on its own keeps the invariant. *)
Section ClientKeeps.
Context (n : Z).

Definition client_keeps {A} (m : M (MessageSocket * Client) A) : Prop := forall c, conn_inv n c ->
  post m (fun _ w' => conn_inv n (c <| client := w' |>)) (client c).

Lemma client_keeps_ret {A} (a : A) : client_keeps (ret a).
Proof. intros c Hc. apply wp_ret. by destruct c. Qed.

Lemma client_keeps_bind {A B} (m : M _ A) (k : A -> M _ B) :
  client_keeps m -> (forall a, client_keeps (k a)) -> client_keeps (bind m k).
Proof.
  intros Hm Hk c Hc. apply wp_bind. eapply wp_mono; [by apply Hm|done|]. intros a w' Hw.
  exact (Hk a (c <| client := w' |>) Hw).
Qed.

Lemma client_keeps_when b m : client_keeps m -> client_keeps (when b m).
Proof. intros Hm. destruct b; [done|apply client_keeps_ret]. Qed.

Lemma client_keeps_session {A} (m : M ClientSession A) : keeps no_new_reply m -> client_keeps (on_session m).
Proof. intros Hm c Hc. by apply inv_on_session. Qed.

Lemma client_keeps_modify f : (forall s, no_new_reply s (f s)) -> client_keeps (on_session (modify f)).
Proof. intros Hf. apply client_keeps_session. intros s. apply wp_modify, Hf. Qed.

Lemma client_keeps_get : client_keeps (on_session get).
Proof. apply client_keeps_session. intros s. apply wp_get. reflexivity. Qed.

Lemma client_keeps_rpc {A} ref (g : OpaqueClientRPC -> A) f :
  (forall rpc s, post (f rpc) (fun rpc' s' => no_new_reply s s' /\ responseToken rpc' = responseToken rpc /\
    (oc_status rpc' = OPAQUE_OK -> (oc_status rpc = OPAQUE_OK /\ oc_reply rpc' = oc_reply rpc) \/
       exists r, responses s !! responseToken rpc = Some r /\ r_status r = HAS_REPLY /\ r_reply r = oc_reply rpc')) s) ->
  client_keeps (on_client (let! rpc := on_rpc ref f in ret (g rpc))).
Proof.
  intros Hf c Hc. apply wp_on_client, wp_bind. eapply wp_mono; [by apply (inv_on_rpc n c ref f)|done|].
  intros rpc cl' Hcl. by apply wp_ret.
Qed.

Lemma client_keeps_cancel ref : client_keeps (on_client (cancel ref)).
Proof.
  apply (client_keeps_rpc ref (fun _ => tt)). intros rpc s. eapply wp_mono; [apply cancel_spec|done|].
  intros rpc' s' (H1 & H2 & H3). split_and!; [done|done|]. intros H. left. by apply H3.
Qed.

Lemma client_keeps_update ref : client_keeps (on_client (getStatus ref)).
Proof. apply (client_keeps_rpc ref oc_status). intros rpc s. apply update_spec. Qed.

Lemma client_keeps_the_rpc ref : client_keeps (on_client (the_rpc ref)).
Proof.
  intros c Hc. apply wp_on_client. unfold the_rpc. wp_go. by destruct c as [[sock cl] srv st sn an].
Qed.

Lemma client_keeps_ping : client_keeps (on_socket (sendMessage PING_MESSAGE_ID [])).
Proof.
  intros c Hc. apply inv_queue; [done|by left|unfold is_u64, PING_MESSAGE_ID; lia|].
  unfold PING_MESSAGE_ID, VERSION_MESSAGE_ID. lia.
Qed.

Lemma client_keeps_timer : client_keeps Timer_handleFileEvent.
Proof.
  unfold Timer_handleFileEvent, handleTimerEvent. apply client_keeps_bind; [apply client_keeps_get|]. intros s.
  destruct (timer s); [|apply client_keeps_ret].
  apply client_keeps_bind; [by apply client_keeps_modify; intros; apply no_new_reply_same|]. intros _.
  apply client_keeps_bind; [apply client_keeps_get|]. intros s'.
  destruct (_ || _); [apply client_keeps_ret|]. destruct (negb (activePing s')).
  - apply client_keeps_bind; [by apply client_keeps_modify; intros; apply no_new_reply_same|]. intros _.
    apply client_keeps_bind; [apply client_keeps_ping|]. intros _.
    by apply client_keeps_modify; intros; apply no_new_reply_same.
  - by apply client_keeps_modify; intros; apply no_new_reply_same.
Qed.

Lemma client_keeps_destroy ref : client_keeps (on_client (destroy ref)).
Proof.
  intros c Hc. unfold destroy. apply wp_on_client, wp_bind.
  pose proof (client_keeps_cancel ref c Hc) as Hcancel. unfold post, on_client in Hcancel.
  unfold wp, zoom in Hcancel |- *. destruct (cancel ref (client c).2) as [[u cl]|f]; [|done]. simpl.
  set (c1 := c <| client := ((client c).1, cl) |>) in *.
  assert (conn_inv n (c1 <| client := ((client c).1, cl <| rpcs := delete ref (rpcs cl) |>) |>)) as H; [|exact H].
  apply inv_client; [done|reflexivity| |apply Hcancel|apply Hcancel].
  simpl. intros ref2 rpc2 [_ H2]%lookup_delete_Some. by apply (inv_rpcs _ _ Hcancel).
Qed.

Lemma client_keeps_disconnect : client_keeps disconnect.
Proof.
  unfold disconnect. apply client_keeps_bind.
  - intros c Hc. unfold on_socket, disable_monitors. wp_go.
    apply inv_client; [done|reflexivity|apply Hc|apply Hc|apply Hc].
  - intros _. apply client_keeps_session. intros s. unfold ClientSession_handleDisconnect. wp_go; [|reflexivity].
    by apply no_new_reply_same.
Qed.

Lemma step_client {A} (m : M (MessageSocket * Client) A) c :
  client_keeps m -> conn_inv n c -> post (on_side m) (fun _ c' => conn_inv n c') c.
Proof. intros Hm Hc. by apply wp_on_side, Hm. Qed.
End ClientKeeps.

(** The oldest message of the client arrives. *)
Lemma inv_to_server n c :
  conn_inv n c -> n <= VERSION_MESSAGE_ID -> post (step ToServer) (fun _ c' => conn_inv n c') c.
Proof.
  intros Hinv Hn. unfold step. apply wp_bind, wp_get. destruct (outboundQueue (client c).1) as [|o queue] eqn:Hq; [done|].
  pose proof (inv_requests _ _ Hinv) as Hreqs. rewrite Hq in Hreqs. apply Forall_cons in Hreqs as [(id & b & -> & Hid) Hreqs].
  assert (is_u64 id) as Hu by (destruct Hid as [->|Hid]; [unfold is_u64, PING_MESSAGE_ID; lia|by eapply request_id]).
  apply wp_bind, wp_on_side. unfold on_socket. apply wp_zoom, wp_modify. rewrite outbound_id by done.
  set (c1 := c <| client := _ |>).
  assert (flight c = map (fun x => x.1.2) (starting c) ++
    ((if decide (id < VERSION_MESSAGE_ID) then [id] else []) ++ queued_ids queue) ++
    live_ids (rpcHandler (server c)) ++ map (fun x => x.1.1) (answered c)) as Hfl.
  { unfold flight. rewrite Hq. change (Outbound_init id b :: queue) with ([Outbound_init id b] ++ queue).
    by rewrite queued_ids_app, queued_ids_init. }
  pose proof (inv_once _ _ Hinv) as Hnd. rewrite Hfl in Hnd.
  assert (conn_inv n c1) as Hinv1.
  { apply inv_client; [done|reflexivity|apply Hinv|done|]. unfold flight. simpl. eapply sublist_NoDup; [exact Hnd|].
    apply sublist_app; [done|]. apply sublist_app; [|done]. by apply sublist_inserts_l. }
  unfold on_peer. apply wp_zoom. unfold OpaqueServer_handleReceivedMessage. apply wp_bind, wp_get.
  assert (conn_inv n (c1 <| server := server c1 |>)) as Hsame by (by destruct c).
  destruct (sockets (server c1) !! 0) as [sock|] eqn:Hsock; [|by apply wp_ret].
  destruct (Z.eqb_spec id PING_MESSAGE_ID) as [->|Hping].
  - apply wp_send_on; [done|]. intros sock1 sock2 Hs1 Hs2. apply inv_server; [done|apply Hinv1| |apply Hinv1].
    simpl. intros k sk [[<- <-]|[_ Hk]]%lookup_insert_Some; [|by apply (inv_answers _ _ Hinv1 k)].
    rewrite Hs2. apply Forall_app. split; [by apply (inv_answers _ _ Hinv1 0)|]. apply Forall_singleton. exists PING_MESSAGE_ID, []. auto.
  - destruct Hid as [?|Hreq]; [done|]. destruct (request_id _ _ _ _ Hinv Hn Hreq) as [_ Hlt].
    destruct (Z.eqb_spec id VERSION_MESSAGE_ID) as [->|_]; [lia|]. unfold handleRPC, Pending_handler. apply wp_modify.
    apply inv_server; [done| |apply Hinv1|].
    + simpl. apply Forall_app. split; [apply Hinv|]. by apply Forall_singleton.
    + rewrite decide_True in Hnd by done. unfold flight. simpl. rewrite live_ids_app. change (live_ids [_]) with [id].
      assert (forall Q L D : list Z, Q ++ (L ++ [id]) ++ D ≡ₚ ([id] ++ Q) ++ L ++ D) as Hperm; [|by rewrite Hperm].
      intros Q L D. rewrite <-!app_assoc. cbn [app]. by rewrite (app_assoc Q L (id :: D)), <-Permutation_middle, <-app_assoc.
Qed.

(** A reply becomes known to the session. *)
Lemma inv_reply n c id b r w s' :
  conn_inv n c -> responses (session (client c).2) !! id = Some r -> is_answer c id b ->
  nextMessageId s' = nextMessageId (session (client c).2) ->
  responses s' = <[id := mkResponse HAS_REPLY b w]> (responses (session (client c).2)) ->
  conn_inv n (c <| client := ((client c).1, (client c).2 <| session := s' |>) |>).
Proof.
  intros [] Hr Ha Hn Hs. split; simpl; rewrite ?Hn; try done. rewrite Hs.
  intros id2 r2 [[<- <-]|[_ H]]%lookup_insert_Some; [|by apply inv_responses0].
  split; [by destruct (inv_responses0 id r Hr)|done].
Qed.

(** The oldest message of the server arrives. *)
Lemma inv_to_client n c : conn_inv n c -> n <= VERSION_MESSAGE_ID -> post (step ToClient) (fun _ c' => conn_inv n c') c.
Proof.
  intros Hinv Hn. unfold step. apply wp_bind, wp_get. destruct (sockets (server c) !! 0) as [sock|] eqn:Hs; [|done].
  destruct (outboundQueue sock) as [|o queue] eqn:Hq; [done|].
  pose proof (inv_answers _ _ Hinv _ _ Hs) as Ha. simpl in Ha. rewrite Hq in Ha.
  apply Forall_cons in Ha as [(id & b & -> & Hid) Ha].
  apply wp_bind. unfold on_peer, set_socket. apply wp_zoom, wp_modify. set (c1 := c <| server := _ |>).
  assert (conn_inv n c1) as Hinv1.
  { apply inv_server; [done|apply Hinv| |apply Hinv]. simpl.
    intros k sk [[<- <-]|[_ Hk]]%lookup_insert_Some; [done|by apply (inv_answers _ _ Hinv k)]. }
  assert (is_u64 id) as Hu.
  { destruct Hid as [->|(req & Hreq & _)]; [unfold is_u64, PING_MESSAGE_ID; lia|by eapply request_id]. }
  rewrite outbound_id by done. cbn [handleReceivedMessage ClientSession_handler]. cbn [out_message Outbound_init].
  unfold on_side. apply wp_zoom. unfold on_session, on_client. apply wp_zoom, wp_zoom.
  unfold ClientSession_handleReceivedMessage. wp_go; try (by apply inv_client; [done|reflexivity|apply Hinv1|apply Hinv1|apply Hinv1]);
    try (by destruct c as [[sk [ss ob]] srv st sn an]).
  - apply (inv_client n c1); [done|by apply no_new_reply_same|apply Hinv1..].
  - apply Z.eqb_neq in Hif. destruct Hid as [|Hid]; [done|]. by eapply (inv_reply n c1 id b r).
  - apply Z.eqb_neq in Hif. destruct Hid as [|Hid]; [done|]. by eapply (inv_reply n c1 id b r).
Qed.

(** An RPC of the server forgets its connection, and may leave an answer. *)
Lemma inv_forget n c k rpc rpc' m (new : list (Z * bytes * bytes)) :
  conn_inv n c -> rpcHandler (server c) !! k = Some rpc ->
  os_socket rpc' = None -> os_messageId rpc' = os_messageId rpc -> os_request rpc' = os_request rpc ->
  map (fun x => x.1.1) new = (if decide (is_Some (os_socket rpc)) then [os_messageId rpc] else []) \/ new = [] ->
  Forall (fun x => x.1 = (os_messageId rpc, os_request rpc)) new ->
  (forall kk sk, m !! kk = Some sk -> Forall (fun o => exists id b, o = Outbound_init id b /\
     (id = PING_MESSAGE_ID \/ is_answer c id b \/ (id, os_request rpc, b) ∈ new)) (outboundQueue sk)) ->
  conn_inv n (c <| server := (server c) <| sockets := m |> <| rpcHandler := <[k := rpc']> (rpcHandler (server c)) |> |>
                <| answered := answered c ++ new |>).
Proof.
  intros Hinv Hk Hnone Hid Hrq Hnew Hown Hm. set (c' := c <| server := _ |> <| answered := _ |>).
  assert (knows c c') as Hkn by (split; [done|]; intros x Hx; simpl; apply elem_of_app; by left).
  assert (is_request c (os_messageId rpc) (os_request rpc)) as Hreq.
  { pose proof (inv_pending _ _ Hinv) as Hp. rewrite Forall_forall in Hp. by eapply Hp, list_elem_of_lookup_2. }
  assert (NoDup (flight c')) as Hnd.
  { pose proof (inv_once _ _ Hinv) as Hnd. unfold flight in Hnd.
    rewrite (live_ids_insert _ _ _ _ Hk Hnone) in Hnd.
    set (St := map (fun x => x.1.2) (starting c)) in *. set (Qu := queued_ids _) in *. set (Li := live_ids (<[k:=rpc']> _)) in *.
    set (An := map (fun x => x.1.1) (answered c)) in *.
    change (NoDup (St ++ Qu ++ Li ++ map (fun x => x.1.1) (answered c ++ new))). rewrite map_app. fold An. destruct Hnew as [->| ->].
    - assert (forall D : list Z, Qu ++ Li ++ An ++ D ≡ₚ Qu ++ (D ++ Li) ++ An) as Hperm; [|by rewrite Hperm].
      intros D. by rewrite (Permutation_app_comm An D), (app_assoc Li D An), (Permutation_app_comm Li D).
    - simpl. rewrite app_nil_r. eapply sublist_NoDup; [exact Hnd|].
      apply sublist_app; [done|]. apply sublist_app; [done|]. apply sublist_app; [|done]. by apply sublist_inserts_l. }
  assert (conn_inv n c) as [] by done. split; try done.
  - intros r rpc0 Hr. eapply rpc_ok_mono; [exact Hkn|by apply inv_rpcs0].
  - intros id r Hr. destruct (inv_responses0 id r Hr) as [Hsome Ha]. split; [done|].
    intros Hs. eapply is_answer_mono; [exact Hkn|by apply Ha].
  - simpl. apply Forall_insert; [done|]. by rewrite Hid, Hrq.
  - intros kk sk Hs. simpl in Hs. eapply Forall_impl; [exact (Hm kk sk Hs)|]. intros o (id & b & -> & Hi). exists id, b.
    split; [done|]. destruct Hi as [->|[Hi|Hi]]; [by left|right; by eapply is_answer_mono|right].
    rewrite Forall_forall in Hown. pose proof (Hown _ Hi) as [= ->]. exists (os_request rpc). split; [done|].
    simpl. apply elem_of_app. by right.
  - simpl. apply Forall_app. split; [done|]. eapply Forall_impl; [exact Hown|]. intros x ->. done.
Qed.

(** A thread of the server answers. *)
Lemma conn_answer n c k response :
  conn_inv n c -> post (step (Answer k response)) (fun _ c' => conn_inv n c') c.
Proof.
  intros Hinv. unfold step. apply wp_bind, wp_get. destruct (rpcHandler (server c) !! k) as [rpc|] eqn:Hk; [|done].
  set (x := (os_messageId rpc, os_request rpc, response)).
  pose proof (inv_forget n c k rpc (rpc <| os_response := [] |> <| os_socket := None |>)) as Hf.
  apply wp_bind. unfold on_peer, sendReply. apply wp_zoom. simpl. destruct (os_socket rpc) as [i|] eqn:Hi.
  - apply wp_bind, wp_send_on; [intros _|intros sock sock' Hs Hq].
    + apply wp_ret. wp_go; [|done]. apply (Hf (sockets (server c)) [x]); try done.
      * left. rewrite decide_True; done.
      * by apply Forall_singleton.
      * intros kk sk Hs. eapply Forall_impl; [exact (inv_answers _ _ Hinv kk sk Hs)|]. naive_solver.
    + apply wp_ret. wp_go; [|done]. apply (Hf (<[i := sock']> (sockets (server c))) [x]); try done.
      * left. rewrite decide_True; done.
      * by apply Forall_singleton.
      * assert (forall kk sk, sockets (server c) !! kk = Some sk -> Forall (fun o => exists id b, o = Outbound_init id b /\
          (id = PING_MESSAGE_ID \/ is_answer c id b \/ (id, os_request rpc, b) ∈ [x])) (outboundQueue sk)) as Hold.
        { intros kk sk Hkk. eapply Forall_impl; [exact (inv_answers _ _ Hinv kk sk Hkk)|]. naive_solver. }
        intros kk sk [[<- <-]|[_ Hkk]]%lookup_insert_Some; [|by apply (Hold kk)].
        rewrite Hq. apply Forall_app. split; [by apply (Hold i)|]. apply Forall_singleton.
        exists (os_messageId rpc), response. split; [done|]. right. right. by apply list_elem_of_singleton.
  - wp_go; [done|]. unfold wp. simpl. specialize (Hf (sockets (server c)) []). rewrite app_nil_r in Hf.
    apply Hf; try done; [by right|].
    intros kk sk Hs. eapply Forall_impl; [exact (inv_answers _ _ Hinv kk sk Hs)|]. naive_solver.
Qed.

(** A thread of the server gives up on the connection. *)
Lemma inv_close n c k : conn_inv n c -> post (step (CloseSession k)) (fun _ c' => conn_inv n c') c.
Proof.
  intros Hinv. unfold step. apply wp_bind, wp_get. destruct (rpcHandler (server c) !! k) as [rpc|] eqn:Hk; [|done].
  pose proof (fun m => inv_forget n c k rpc (rpc <| os_socket := None |>) m []) as Hf. rewrite app_nil_r in Hf.
  assert (forall m, m ⊆ sockets (server c) -> conn_inv n (c <| server := (server c) <| sockets := m |>
    <| rpcHandler := <[k := rpc <| os_socket := None |>]> (rpcHandler (server c)) |> |>)) as Hdone.
  { intros m Hsub. apply Hf; try done; [by right|]. intros kk sk Hs.
    eapply Forall_impl; [exact (inv_answers _ _ Hinv kk sk (lookup_weaken _ _ _ _ Hs Hsub))|]. naive_solver. }
  unfold on_peer, closeSession, OpaqueServer_handleDisconnect. wp_go; unfold wp; simpl.
  - apply (Hdone (delete z _)), delete_subseteq.
  - by apply (Hdone (sockets (server c))).
Qed.

Lemma inv_server_disconnects n c : conn_inv n c -> post (step ServerDisconnects) (fun _ c' => conn_inv n c') c.
Proof.
  intros Hinv. unfold step, on_peer, OpaqueServer_handleDisconnect. wp_go. apply inv_server; [done|apply Hinv| |apply Hinv].
  simpl. intros k sk [_ Hk]%lookup_delete_Some. by apply (inv_answers _ _ Hinv k).
Qed.

Lemma conn_step n c a :
  conn_inv n c -> n < VERSION_MESSAGE_ID -> post (step a) (fun _ c' => conn_inv (n + 1) c') c.
Proof.
  intros Hinv Hn. assert (forall m : M Connection unit, post m (fun _ c' => conn_inv n c') c -> post m (fun _ c' => conn_inv (n + 1) c') c) as Hsame.
  { intros m Hm. eapply wp_mono; [exact Hm|done|]. intros ? c'. apply inv_weaken. lia. }
  destruct a.
  - by apply inv_start.
  - apply Hsame, inv_queue_action; [done|lia].
  - apply Hsame, (step_client n); [|done]. apply client_keeps_cancel.
  - apply Hsame, wp_bind. eapply wp_mono; [apply (step_client n); [|exact Hinv]|done|by intros]. apply client_keeps_update.
  - apply Hsame, wp_bind. eapply wp_mono; [apply (step_client n); [apply client_keeps_the_rpc|exact Hinv]|done|]. intros rpc c1 H1.
    apply wp_bind. eapply wp_mono; [apply (step_client n); [apply client_keeps_session, keeps_wait_check|exact H1]|done|by intros].
  - apply Hsame, wp_bind. eapply wp_mono; [apply (step_client n); [apply client_keeps_the_rpc|exact Hinv]|done|]. intros rpc c1 H1.
    apply (step_client n); [apply client_keeps_session, keeps_wait_resume|done].
  - apply Hsame, (step_client n); [|done]. apply client_keeps_destroy.
  - apply Hsame, (step_client n); [|done]. apply client_keeps_timer.
  - apply Hsame, inv_to_server; [done|lia].
  - by apply Hsame, conn_answer.
  - by apply Hsame, inv_close.
  - apply Hsame, inv_to_client; [done|lia].
  - apply Hsame, (step_client n); [|done]. apply client_keeps_disconnect.
  - by apply Hsame, inv_server_disconnects.
Qed.

Lemma conn_run n c actions :
  conn_inv n c -> n + Z.of_nat (length actions) <= VERSION_MESSAGE_ID ->
  post (run actions) (fun _ c' => conn_inv (n + Z.of_nat (length actions)) c') c.
Proof.
  revert n c. induction actions as [|a actions IH]; intros n c Hinv Hlen; simpl in *.
  - apply wp_ret. by rewrite Z.add_0_r.
  - apply wp_bind. eapply wp_mono; [apply (conn_step n c a Hinv); lia|done|]. intros ? c' H'.
    eapply wp_mono; [apply (IH (n + 1) c' H'); lia|done|]. intros ? c2. apply inv_weaken. lia.
Qed.

Lemma conn_init ping maxClient maxServer : conn_inv 0 (Connection_init ping maxClient maxServer).
Proof.
  split; try done; simpl; try (by constructor).
  intros k sk [<- <-]%lookup_singleton_Some. constructor.
Qed.

(** C6: Whatever the threads of the client do with their RPCs and in whatever
    order, however often and late the threads of the server answer, whatever
    times out and disconnects: an RPC object that says it has completed holds an
    answer of the server to the request that this object was started with, and
    the server has answered each request at most once. *)
Theorem reply_matches ping maxClient maxServer actions c :
  run actions (Connection_init ping maxClient maxServer) = Ok (tt, c) ->
  Z.of_nat (length actions) <= VERSION_MESSAGE_ID ->
  (forall ref rpc, rpcs (client c).2 !! ref = Some rpc ->
     exists request, sent c !! responseToken rpc = Some (ref, request) /\
       (oc_status rpc = OPAQUE_OK -> (responseToken rpc, request, oc_reply rpc) ∈ answered c)) /\
  NoDup (map (fun x => x.1.1) (answered c)).
Proof.
  intros Hrun Hlen. pose proof (conn_run 0 _ actions (conn_init ping maxClient maxServer)) as Hinv.
  unfold post, wp in Hinv. rewrite Hrun in Hinv. destruct Hinv as []; [lia|]. split; [exact inv_rpcs0|].
  unfold flight in inv_once0. rewrite !app_assoc in inv_once0. by apply NoDup_app in inv_once0 as (_ & _ & ?).
Qed.

(** Two requests answered in the other order, one of them twice, and one that is
    canceled before its answer arrives. *)
Definition demo_actions : list action :=
  [Start 10 ["a"%char]; Start 11 ["b"%char]; Start 12 ["c"%char]; Queue 1; Queue 0; Queue 0; ToServer; ToServer; ToServer;
   Answer 1 ["A"%char]; Cancel 12; Answer 0 ["B"%char]; Answer 1 ["X"%char]; Answer 2 ["C"%char];
   ToClient; ToClient; ToClient; Update 10; Update 11; Update 12].

Definition demo_start : Connection := Connection_init 500 1000 1000.

Definition demo_end : Connection :=
  match run demo_actions demo_start with Ok (_, c) => c | Fail _ => demo_start end.

Lemma reply_matches_witness :
  map (fun ref => (fun rpc => (oc_status rpc, oc_reply rpc)) <$> rpcs (client demo_end).2 !! ref) [10; 11; 12] =
    [Some (OPAQUE_OK, ["A"%char]); Some (OPAQUE_OK, ["B"%char]); Some (OPAQUE_CANCELED, [])] /\
  (exists request, sent demo_end !! 0 = Some (10, request) /\ (0, request, ["A"%char]) ∈ answered demo_end) /\
  NoDup (map (fun x => x.1.1) (answered demo_end)).
Proof.
  destruct (reply_matches 500 1000 1000 demo_actions demo_end) as [Hall Hnd].
  - vm_compute. reflexivity.
  - vm_compute. discriminate.
  - split; [vm_compute; reflexivity|]. split; [|exact Hnd].
    destruct (Hall 10 (mkOpaqueClientRPC false 0 OPAQUE_OK ["A"%char] "")) as (request & Hs & Hok).
    + vm_compute. reflexivity.
    + exists request. split; [exact Hs|]. apply Hok. reflexivity.
Defined.

(** ** What the session does not do *)

(** An RPC that is canceled when its reply has arrived, and has not been looked
    at, is counted twice: the counter of active RPCs wraps around. *)
Lemma cancel_after_reply_underflows :
  safe (run [Start 10 []; Queue 0; ToServer; Answer 0 ["A"%char]; ToClient; Cancel 10])
    (fun _ c => numActiveRPCs (session (client c).2) = 2 ^ 32 - 1) demo_start.
Proof. vm_compute. reflexivity. Qed.

(** A thread that looks at an RPC while another one waits for it frees the
    response that the other one then writes to. *)
Lemma wait_after_update_writes_freed_response :
  run [Start 10 []; Queue 0; ToServer; Answer 0 ["A"%char]; BeginWait 10 1000 0; ToClient; Update 10; EndWait 10] demo_start =
  Fail UndefinedBehavior.
Proof. vm_compute. reflexivity. Qed.
