(* ===== verification/RPCServer.v ===== *)
(** * Services and their threads

    [RPC/Server.{h,cc}], [RPC/Service.h] and
    [RPC/ThreadDispatchService.{h,cc}]: the event loop hands each request to the
    service it names, which queues it for worker threads; a worker runs the
    handler of the service, which replies. *)

From Stdlib Require Import ZArith Lia Ascii String.
From stdpp Require Import base gmap strings list fin_maps.
From S2P Require Import Prelude Stream MessageSocket ClientSession OpaqueServer RPCProtocol.
Local Open Scope Z_scope.
Local Open Scope list_scope.

(** [Protocol::Common::ServiceId] and [MAX_MESSAGE_LENGTH]. *)
Definition CLIENT_SERVICE : Z := 1.
Definition RAFT_SERVICE : Z := 2.
Definition CONTROL_SERVICE : Z := 3.
Definition MAX_MESSAGE_LENGTH : Z := 1024 + 1024 * 1024.

(** [ThreadDispatchService] without the service it dispatches to; [threads] is
    the size of the vector of threads. *)
Record ThreadDispatchService : Type := mkThreadDispatchService {
  maxThreads : Z;
  threads : Z;
  numFreeWorkers : Z;
  tds_exit : bool;
  rpcQueue : list ServerRPC
}.

#[export] Instance ThreadDispatchService_eta : Eta ThreadDispatchService := fun t =>
  mkThreadDispatchService (maxThreads t) (threads t) (numFreeWorkers t) (tds_exit t) (rpcQueue t).

Definition ThreadDispatchService_construct (minThreads maxThreads : Z) : outcome ThreadDispatchService :=
  if (minThreads <=? maxThreads) && (0 <? maxThreads)
  then Ok (mkThreadDispatchService maxThreads minThreads 0 false [])
  else Fail AssertFailed.

(** [ThreadDispatchService::handleRPC]. *)
Definition ThreadDispatchService_handleRPC (rpc : ServerRPC) : M ThreadDispatchService unit :=
  let! t := get in
  assert_ (negb (tds_exit t)) ;;;
  modify (fun t => t <| rpcQueue := rpcQueue t ++ [rpc] |>) ;;;
  when ((numFreeWorkers t =? 0) && (threads t <? maxThreads t))
    (modify (fun t => t <| threads := threads t + 1 |>)).

(** One round of [workerMain] up to the handler: the worker counts itself as free
    and waits, and leaves with an RPC or because of [exit]. *)
Definition workerMain_take (sched : list (M ThreadDispatchService unit)) :
  M ThreadDispatchService (option ServerRPC) :=
  modify (fun t => t <| numFreeWorkers := u32 (numFreeWorkers t + 1) |>) ;;;
  wait_while (fun t => negb (tds_exit t) && bool_decide (rpcQueue t = [])) sched ;;;
  modify (fun t => t <| numFreeWorkers := u32 (numFreeWorkers t - 1) |>) ;;;
  let! t := get in
  if tds_exit t then ret None
  else
    match rpcQueue t with
    | [] => fail UndefinedBehavior
    | rpc :: queue => modify (fun t => t <| rpcQueue := queue |>) ;;; ret (Some rpc)
    end.

(** ** The server *)

(** The map from service ids to their dispatchers. *)
Definition Services : Type := gmap Z ThreadDispatchService.

Abbreviation Server := (OpaqueServer Services).

Definition Server_construct (maxLen : Z) : Server := OpaqueServer_construct (∅ : Services) maxLen.

Definition registerService (serviceId maxThreads : Z) : M Server unit :=
  let! t := lift (ThreadDispatchService_construct 0 maxThreads) in
  modify (fun s => s <| rpcHandler := <[serviceId := t]> (rpcHandler s) |>).

(** A method of the dispatcher of a service. *)
Definition on_service {A} (id : Z) (m : M ThreadDispatchService A) : M Server A := fun s =>
  match rpcHandler s !! id with
  | None => Fail UndefinedBehavior
  | Some t =>
      match m t with
      | Ok (a, t') => Ok (a, s <| rpcHandler := <[id := t']> (rpcHandler s) |>)
      | Fail f => Fail f
      end
  end.

(** [Server::RPCHandler::handleRPC]. *)
#[export] Instance Server_RPCHandler : RPCHandler Services := fun o =>
  let! rpc := ServerRPC_construct o in
  if negb (active rpc) then ret tt
  else
    let! s := get in
    match rpcHandler s !! service rpc with
    | Some _ => on_service (service rpc) (ThreadDispatchService_handleRPC rpc)
    | None => rejectInvalidService rpc ;;; ret tt
    end.

(** The destructor of a dispatcher, once its threads have ended: the RPCs that
    nobody processed close their sessions. *)
Definition ThreadDispatchService_destroy (id : Z) : M Server unit :=
  let! s := get in
  match rpcHandler s !! id with
  | None => ret tt
  | Some t =>
      forM (rpcQueue t) (fun rpc => ServerRPC_closeSession rpc ;;; ret tt) ;;;
      modify (fun s => s <| rpcHandler := delete id (rpcHandler s) |>)
  end.

(** ** Handlers *)

(** [Service]: [handleRPC] on the sockets of the server and the state [G] of the
    process. *)
Class Service (G : Type) := Service_handleRPC : ServerRPC -> M (Server * G) unit.

Definition on_server {G A} (m : M Server A) : M (Server * G) A := zoom fst (fun s w => (s, w.2)) m.
Definition on_globals {G A} (m : M G A) : M (Server * G) A := zoom snd (fun g w => (w.1, g)) m.

(** A worker of service [id] runs one RPC; returns whether it goes on. *)
Definition workerMain_step {G} `{Service G} (id : Z) (sched : list (M ThreadDispatchService unit)) :
  M (Server * G) bool :=
  let! rpc := on_server (on_service id (workerMain_take sched)) in
  match rpc with
  | None => ret false
  | Some rpc => Service_handleRPC rpc ;;; ret true
  end.
