(* ===== verification/LeaderRPC.v ===== *)
(** * Finding the leader

    [Client/LeaderRPC.cc], [Client/SessionManager.cc] and [Client/Backoff.cc]:
    the implementation of [LeaderRPCBase] over sessions to single servers. A
    call is tried on the session to the server last believed to lead, which is
    dropped when the server fails or says that it does not lead; new sessions
    are rate-limited and check that the server belongs to the right cluster.

    The sessions and the RPCs on them are the interface [Network]. *)

From Stdlib Require Import ZArith Lia Ascii String.
From stdpp Require Import base gmap strings list fin_maps sorting.
From S2P Require Import RPCProtocol.
From S2P Require Import Prelude StringUtil Printf Log ClientProto Tree TreeSpec TreeRPC StateMachine Client.
Local Open Scope string_scope.
Local Open Scope Z_scope.
Local Open Scope list_scope.

(** ** Sessions *)

(** [RPC::ClientSession] and [RPC::ClientRPC] for the client service. A session
    that could not be made carries an error message; RPCs on it fail.
    [makeSession] resolves the address first. *)
Class Network (N : Type) := {
  Session : Type;
  Session_eq_dec :: EqDecision Session;
  network_clock :: SteadyClock N;
  sleep : Z -> M N unit;
  makeSession : string -> Z -> M N Session;
  makeErrorSession : string -> M N Session;
  hasErrorMessage : Session -> N -> bool;
  ClientRPC : OpCode -> Type;
  startRPC : forall o : OpCode, Session -> OpRequest o -> M N (ClientRPC o);
  waitForReply : forall o : OpCode, ClientRPC o -> Z -> M N (ReplyStatus (OpResponse o) PC_Error);
  cancelRPC : forall o : OpCode, ClientRPC o -> M N unit
}.

(** ** Rate-limiting *)

Record Backoff : Type := mkBackoff {
  windowCount : Z;
  windowDuration : Z;
  startTimes : list Z
}.
#[export] Instance Backoff_eta : Eta Backoff := fun b =>
  mkBackoff (windowCount b) (windowDuration b) (startTimes b).

(** The loop that fills the window reads the argument, not the member of the
    same name, which is at least 1. *)
Definition Backoff_init (windowCount windowNanos : Z) : Backoff :=
  mkBackoff (Z.max 1 windowCount) windowNanos (repeat TimePoint_min (Z.to_nat windowCount)).

(** The window after an operation that started at [now]. *)
Definition Backoff_begin (now : Z) (b : Backoff) : Backoff :=
  b <| startTimes := drop 1 (startTimes b) ++ [now] |>.

(** ** Creating sessions *)

(** [LockedAssignment] *)
Definition ClusterUUID : Type := option string.
Definition ServerId : Type := option Z.

Section Sessions.
Context {N : Type} `{Network N}.

(** The reference parameters come in and go out; [None] is [NULL]. The private
    flag [skipVerify] is never set but by tests. *)
Definition createSession (address : string) (timeout : Z) (clusterUUID : option ClusterUUID)
    (serverId : option ServerId) : M N (Session * option ClusterUUID * option ServerId) :=
  let! session := makeSession address timeout in
  let! e := get in
  if hasErrorMessage session e then ret (session, clusterUUID, serverId) else
  let uuid := match clusterUUID with
              | Some (Some u) => if string_empty u then None else Some u
              | _ => None
              end in
  let id := match serverId with Some c => c | None => None end in
  let! rpc := startRPC VERIFY_RECIPIENT session (mkVerifyRecipient_Request uuid id) in
  let! status := waitForReply VERIFY_RECIPIENT rpc timeout in
  let failed :=
    let! session := makeErrorSession
      ("Verifying recipient with " +:+ c_str address +:+ " failed (after connecting over TCP)") in
    ret (session, clusterUUID, serverId) in
  match status with
  | Reply_OK response =>
      if default false (vrr_ok response) then
        let clusterUUID :=
          match clusterUUID, uuid, vrr_cluster_uuid response with
          | Some _, None, Some u => if string_empty u then clusterUUID else Some (Some u)
          | _, _, _ => clusterUUID
          end in
        let serverId :=
          match serverId, id, vrr_server_id response with
          | Some _, None, Some i => Some (Some i)
          | _, _, _ => serverId
          end in
        ret (session, clusterUUID, serverId)
      else failed
  | Reply_RPC_FAILED | Reply_TIMEOUT => failed
  | Reply_SERVICE_SPECIFIC_ERROR _ | Reply_RPC_CANCELED | Reply_INVALID_SERVICE | Reply_INVALID_REQUEST =>
      fail Panicked
  end.
End Sessions.

(** ** The leader *)

(** The members of [LeaderRPC], with the objects of the client it refers to. *)
Record LeaderRPC (N : Type) `{Network N} : Type := mkLeaderRPC {
  isConnecting : bool;
  leaderHint : string;
  leaderSession : option Session;
  failuresSinceLastSuccess : Z;
  clusterUUID : ClusterUUID;
  sessionCreationBackoff : Backoff;
  network : N
}.
Arguments mkLeaderRPC {N _}.
Arguments isConnecting {N _}.
Arguments leaderHint {N _}.
Arguments leaderSession {N _}.
Arguments failuresSinceLastSuccess {N _}.
Arguments clusterUUID {N _}.
Arguments sessionCreationBackoff {N _}.
Arguments network {N _}.
#[export] Instance LeaderRPC_eta N `{Network N} : Eta (LeaderRPC N) := fun l =>
  mkLeaderRPC (isConnecting l) (leaderHint l) (leaderSession l) (failuresSinceLastSuccess l)
    (clusterUUID l) (sessionCreationBackoff l) (network l).

Definition LeaderRPC_init {N} `{Network N} (uuid : ClusterUUID) (backoff : Backoff) (n : N) : LeaderRPC N :=
  mkLeaderRPC false "" None 0 uuid backoff n.

Section Leader.
Context {N : Type} `{Network N} (hosts : string).

Definition on_network {A} (m : M N A) : M (LeaderRPC N) A :=
  zoom network (fun n l => l <| network := n |>) m.

Definition leader_now : M (LeaderRPC N) Z := on_network Clock_now.

(** [Backoff::delayAndBegin]; the result, which the code does not return, is the
    time recorded as the start of the operation, if one was. [at(0)] throws on
    an empty window. *)
Definition delay_start (timeout : Z) : M (LeaderRPC N) (option Z) :=
  let begin (now : Z) :=
    modify (fun l => l <| sessionCreationBackoff := Backoff_begin now (sessionCreationBackoff l) |>) ;;;
    ret (Some now) in
  let! now := leader_now in
  if timeout <? now then ret None else
  let! l := get in
  let b := sessionCreationBackoff l in
  match startTimes b with
  | [] => fail OutOfRange
  | oldest :: _ =>
      let permissible := i64 (oldest + windowDuration b) in
      if now <? permissible then
        if timeout <? permissible then on_network (sleep timeout) ;;; ret None
        else
          on_network (sleep permissible) ;;;
          let! now := leader_now in
          begin now
      else begin now
  end.

Definition delayAndBegin (timeout : Z) : M (LeaderRPC N) unit :=
  delay_start timeout ;;; ret tt.

(** Waiting for another thread to make the session: [false] when the timeout
    elapsed. Between two wake-ups the other threads run. *)
Fixpoint wait_connected (timeout : Z) (sched : list (M (LeaderRPC N) unit)) : M (LeaderRPC N) bool :=
  let! l := get in
  if isConnecting l then
    match sched with
    | [] => fail Blocked
    | env :: sched' =>
        env ;;;
        let! now := leader_now in
        if timeout <? now then ret false else wait_connected timeout sched'
    end
  else ret true.

(** The connecting is done without the mutex: the other threads do [during]. *)
Definition getSession (timeout : Z) (waiting : list (M (LeaderRPC N) unit)) (during : M (LeaderRPC N) unit) :
    M (LeaderRPC N) Session :=
  let! ready := wait_connected timeout waiting in
  if negb ready then
    on_network (makeErrorSession
      "Failed to get session to leader in time that another thread is creating: timeout expired")
  else
  let! l := get in
  match leaderSession l with
  | Some session => ret session
  | None =>
      put (l <| isConnecting := true |>) ;;;
      let address := if string_empty (leaderHint l) then hosts else leaderHint l in
      delayAndBegin timeout ;;;
      let! now := leader_now in
      let! (session, usedHint) :=
        (if timeout <? now then
           let! session := on_network (makeErrorSession
             "Failed to create session to leader: timeout expired") in
           ret (session, false)
         else
           let! l := get in
           let! (session, uuid, _) := on_network (createSession address timeout (Some (clusterUUID l)) None) in
           modify (fun l => l <| clusterUUID := default (clusterUUID l) uuid |>) ;;;
           ret (session, true)) in
      during ;;;
      modify (fun l => l <| leaderSession := Some session |>
                         <| leaderHint := if (usedHint : bool) then "" else leaderHint l |>
                         <| isConnecting := false |>) ;;;
      ret session
  end.

(** What the reports have in common: a report about a session that is no longer
    in use is ignored. *)
Definition drop_session (cachedSession : option Session) (hint : option string) : M (LeaderRPC N) unit :=
  let! l := get in
  when (bool_decide (cachedSession = leaderSession l)) (
    put (l <| failuresSinceLastSuccess := u64 (failuresSinceLastSuccess l + 1) |>
           <| leaderSession := None |>
           <| leaderHint := default (leaderHint l) hint |>)).

Definition reportFailure (cachedSession : option Session) : M (LeaderRPC N) unit :=
  drop_session cachedSession None.
Definition reportNotLeader (cachedSession : option Session) : M (LeaderRPC N) unit :=
  drop_session cachedSession None.
Definition reportRedirect (cachedSession : option Session) (host : string) : M (LeaderRPC N) unit :=
  drop_session cachedSession (Some host).
Definition reportSuccess (cachedSession : option Session) : M (LeaderRPC N) unit :=
  let! l := get in
  when (bool_decide (cachedSession = leaderSession l)) (
    put (l <| failuresSinceLastSuccess := 0 |>)).

(** ** One attempt *)

(** [LeaderRPC::Call]; a canceled call has no session. *)
Record LeaderRPC_Call (o : OpCode) : Type := mkCall {
  cachedSession : option Session;
  rpc : ClientRPC o
}.
Arguments mkCall {o}.
Arguments cachedSession {o}.
Arguments rpc {o}.

Definition Call_start (o : OpCode) (request : OpRequest o) (timeout : Z)
    (waiting : list (M (LeaderRPC N) unit)) (during : M (LeaderRPC N) unit) :
    M (LeaderRPC N) (LeaderRPC_Call o) :=
  let! session := getSession timeout waiting during in
  let! rpc := on_network (startRPC o session request) in
  ret (mkCall (Some session) rpc).

Definition Call_wait {o : OpCode} (c : LeaderRPC_Call o) (timeout : Z) :
    M (LeaderRPC N) (CallStatus (OpResponse o)) :=
  let! status := on_network (waitForReply o (rpc c) timeout) in
  let retry :=
    let! now := leader_now in
    ret (if timeout <? now then Call_TIMEOUT else Call_RETRY) in
  match status with
  | Reply_OK response => reportSuccess (cachedSession c) ;;; ret (Call_OK response)
  | Reply_SERVICE_SPECIFIC_ERROR error =>
      match error_code error with
      | ErrorCode.NOT_LEADER =>
          match leader_hint error with
          | Some hint => reportRedirect (cachedSession c) hint
          | None => reportNotLeader (cachedSession c)
          end ;;;
          retry
      | ErrorCode.UNKNOWN => fail Panicked
      end
  | Reply_RPC_FAILED => reportFailure (cachedSession c) ;;; retry
  | Reply_RPC_CANCELED => retry
  | Reply_TIMEOUT => ret Call_TIMEOUT
  | Reply_INVALID_SERVICE => fail Panicked
  | Reply_INVALID_REQUEST => ret Call_INVALID_REQUEST
  end.

(** ** Calls *)

(** What the other threads do during an attempt. *)
Definition attempt : Type := list (M (LeaderRPC N) unit) * M (LeaderRPC N) unit.

(** [while (true)]: an attempt for every element of the list. *)
Fixpoint call (attempts : list attempt) (o : OpCode) (request : OpRequest o) (timeout : Z) :
    M (LeaderRPC N) (RPCStatus (OpResponse o)) :=
  match attempts with
  | [] => fail Blocked
  | (waiting, during) :: attempts' =>
      let! c := Call_start o request timeout waiting during in
      let! status := Call_wait c timeout in
      match status with
      | Call_OK response => ret (RPC_OK response)
      | Call_TIMEOUT => ret RPC_TIMEOUT
      | Call_RETRY => call attempts' o request timeout
      | Call_INVALID_REQUEST => ret RPC_INVALID_REQUEST
      end
  end.

(** Alone: no other thread uses the object. *)
Definition alone (n : nat) : list attempt := repeat ([], ret tt) n.

(** ** Calls to one server *)

(** [ClientImpl::getServerInfo]: every attempt makes a session of its own. *)
Fixpoint getServerInfo (fuel : nat) (host : string) (timeout : Z) :
    M (LeaderRPC N) (C_Result * option Raft_Server) :=
  let timeoutResult := mkC_Result C_TIMEOUT "Client-specified timeout elapsed" in
  match fuel with
  | O => fail Blocked
  | S fuel' =>
      delayAndBegin timeout ;;;
      let! l := get in
      let! (session, uuid, _) := on_network (createSession host timeout (Some (clusterUUID l)) None) in
      modify (fun l => l <| clusterUUID := default (clusterUUID l) uuid |>) ;;;
      let! rpc := on_network (startRPC GET_SERVER_INFO session tt) in
      let! status := on_network (waitForReply GET_SERVER_INFO rpc timeout) in
      match status with
      | Reply_OK info => ret (C_Result_init, Some info)
      | Reply_TIMEOUT => ret (timeoutResult, None)
      | Reply_RPC_FAILED =>
          let! now := leader_now in
          if timeout <? now then ret (timeoutResult, None) else getServerInfo fuel' host timeout
      | Reply_SERVICE_SPECIFIC_ERROR _ | Reply_RPC_CANCELED | Reply_INVALID_SERVICE
      | Reply_INVALID_REQUEST => fail Panicked
      end
  end.
End Leader.
Arguments LeaderRPC_Call N {_} o.
Arguments mkCall {N _ o}.
Arguments cachedSession {N _ o}.
Arguments rpc {N _ o}.
Arguments attempt N {_}.

(** ** The implementation of the interface *)

Section Instances.
Context {N : Type} `{Network N} (hosts : string) (fuel : nat).

#[export] Instance LeaderRPC_clock : SteadyClock (LeaderRPC N) := leader_now.

(** One thread, [fuel] attempts: enough of them are [LeaderSpec.call_returns]. *)
#[export] Instance LeaderRPC_base : LeaderRPCBase (LeaderRPC N) := {
  LeaderCall := LeaderRPC_Call N STATE_MACHINE_COMMAND;
  leader_call o request timeout := call hosts (alone fuel) o request timeout;
  startCall request timeout := Call_start hosts STATE_MACHINE_COMMAND request timeout [] (ret tt);
  waitCall c timeout := Call_wait c timeout;
  cancelCall c := on_network (cancelRPC STATE_MACHINE_COMMAND (rpc c))
}.
End Instances.
