(* ===== verification/LeaderSpec.v ===== *)
(** * What the search for the leader promises

    On any network that keeps [NetworkLaws]: a call returns, after an attempt that
    started by its deadline, and sessions are not made faster than the window of [Backoff] allows. *)

From Stdlib Require Import ZArith Lia Ascii String.
From stdpp Require Import base gmap strings list fin_maps sorting.
From S2P Require Import RPCProtocol.
From S2P Require Import Prelude StringUtil Printf Log ClientProto Tree TreeSpec TreeRPC StateMachine Client LeaderRPC.
Local Open Scope string_scope.
Local Open Scope Z_scope.
Local Open Scope list_scope.

(** ** What the network promises *)

(** A reply that servers of this version send. *)
Definition proper {o : OpCode} (status : ReplyStatus (OpResponse o) PC_Error) : Prop :=
  match status with
  | Reply_OK _ | Reply_RPC_FAILED | Reply_TIMEOUT => True
  | Reply_SERVICE_SPECIFIC_ERROR e => o <> VERIFY_RECIPIENT /\ error_code e = ErrorCode.NOT_LEADER
  | Reply_INVALID_REQUEST => o <> VERIFY_RECIPIENT
  | Reply_RPC_CANCELED | Reply_INVALID_SERVICE => False
  end.

(** The clock is steady; waiting for a reply takes time, and ends with
    [TIMEOUT] only once the deadline has passed. *)
Class NetworkLaws (N : Type) `{Network N} := {
  time : N -> Z;
  law_now n : Clock_now n = Ok (time n, n);
  law_sleep n t : exists n', sleep t n = Ok (tt, n') /\ time n <= time n' /\ t <= time n';
  law_makeSession n a t : exists s n', makeSession a t n = Ok (s, n') /\ time n <= time n';
  law_makeErrorSession n e : exists s n', makeErrorSession e n = Ok (s, n') /\ time n <= time n';
  law_startRPC n o s r : exists c n', startRPC o s r n = Ok (c, n') /\ time n <= time n';
  law_waitForReply n o (c : ClientRPC o) t : exists status n', waitForReply o c t n = Ok (status, n') /\
    time n < time n' /\ proper status /\ (status = Reply_TIMEOUT -> t < time n')
}.

Section Spec.
Context {N : Type} `{NetworkLaws N} (hosts : string).

(** ** Time only goes on *)

Definition later (n n' : N) : Prop := time n <= time n'.

Definition on_time (l l' : LeaderRPC N) : Prop := time (network l) <= time (network l').

Lemma wp_leader_now (l : LeaderRPC N) (Q : Z -> LeaderRPC N -> Prop) :
  Q (time (network l)) l -> safe leader_now Q l.
Proof.
  intros HQ. apply wp_zoom. unfold wp. rewrite law_now. by destruct l.
Qed.

Lemma wp_on_network {A} (m : M N A) (l : LeaderRPC N) (Q : A -> LeaderRPC N -> Prop) a n' :
  m (network l) = Ok (a, n') -> Q a (l <| network := n' |>) -> safe (on_network m) Q l.
Proof. intros Hm HQ. apply wp_zoom. unfold wp. by rewrite Hm. Qed.

Lemma createSession_runs n a t uuid id :
  exists r n', createSession a t uuid id n = Ok (r, n') /\ time n <= time n'.
Proof.
  unfold createSession, bind, get.
  destruct (law_makeSession n a t) as (s & n1 & -> & H1').
  destruct (hasErrorMessage s n1); [by do 2 eexists|]. cbv zeta.
  match goal with |- context [startRPC ?o ?s ?r] =>
    destruct (law_startRPC n1 o s r) as (c & n2 & -> & H2') end.
  destruct (law_waitForReply n2 _ c t) as (status & n3 & -> & H3' & Hproper & _).
  set (e := "Verifying recipient with " +:+ _).
  destruct (law_makeErrorSession n3 e) as (s' & n4 & He & H4').
  destruct status as [response|e0| | | | |]; simpl in Hproper; try done; rewrite ?He.
  - destruct (default false (vrr_ok response)); rewrite ?He; (do 2 eexists; split; [reflexivity|lia]).
  - by destruct Hproper.
  - do 2 eexists. split; [reflexivity|lia].
  - do 2 eexists. split; [reflexivity|lia].
Qed.

(** ** The window *)

Definition window_ok (l : LeaderRPC N) : Prop := startTimes (sessionCreationBackoff l) <> [].

Lemma safe_delay_start timeout (l : LeaderRPC N) :
  window_ok l ->
  safe (delay_start timeout) (fun t l' => on_time l l' /\ isConnecting l' = isConnecting l /\
    leaderSession l' = leaderSession l /\
    match t with
    | None => sessionCreationBackoff l' = sessionCreationBackoff l
    | Some t => sessionCreationBackoff l' = Backoff_begin t (sessionCreationBackoff l) /\ 
        time (network l) <= t <= time (network l') /\
        forall oldest, head (startTimes (sessionCreationBackoff l)) = Some oldest ->
          i64 (oldest + windowDuration (sessionCreationBackoff l)) <= t
    end) l.
Proof.
  intros Hw. unfold delay_start, safe. cbv zeta. wp_step. apply wp_leader_now.
  destruct (Z.ltb_spec timeout (time (network l))); [apply wp_ret; unfold on_time; by split_and!|].
  do 2 wp_step. unfold window_ok in Hw. destruct (startTimes (sessionCreationBackoff l)) as [|oldest ts] eqn:Hst; [done|].
  destruct (Z.ltb_spec (time (network l)) (i64 (oldest + windowDuration (sessionCreationBackoff l)))) as [Hlt|Hge].
  - destruct (Z.ltb_spec timeout (i64 (oldest + windowDuration (sessionCreationBackoff l)))) as [Hlt'|Hge'].
    + wp_step. destruct (law_sleep (network l) timeout) as (n' & Hn & Hle & _).
      eapply wp_on_network; [done|]. apply wp_ret. unfold on_time. by split_and!.
    + wp_step. destruct (law_sleep (network l) (i64 (oldest + windowDuration (sessionCreationBackoff l)))) as (n' & Hn & Hle & Hp).
      eapply wp_on_network; [done|]. wp_step. apply wp_leader_now. do 2 wp_step. apply wp_ret. simpl.
      unfold on_time. simpl. split_and!; try done; try lia. by intros o [= <-].
  - do 2 wp_step. apply wp_ret. unfold on_time. simpl. split_and!; try done; try lia. by intros o [= <-].
Qed.

(** ** Calls end *)

Definition ready (l : LeaderRPC N) : Prop := isConnecting l = false /\ window_ok l.

Lemma Backoff_begin_window t (b : Backoff) : startTimes (Backoff_begin t b) <> [].
Proof. unfold Backoff_begin. simpl. by destruct (drop 1 (startTimes b)). Qed.

Lemma safe_delayAndBegin timeout (l : LeaderRPC N) :
  window_ok l ->
  safe (delayAndBegin timeout) (fun _ l' => on_time l l' /\ window_ok l') l.
Proof.
  intros Hw. unfold delayAndBegin, safe. wp_step. eapply wp_mono; [by apply safe_delay_start|done|].
  intros t l' (Ht & _ & _ & Hb). apply wp_ret. split; [done|]. unfold window_ok.
  destruct t as [t|]; [destruct Hb as [-> _]; apply Backoff_begin_window|by rewrite Hb].
Qed.

Lemma safe_getSession timeout (l : LeaderRPC N) :
  ready l -> safe (getSession hosts timeout [] (ret tt)) (fun _ l' => on_time l l' /\ ready l') l.
Proof.
  intros [Hc Hw]. unfold getSession, wait_connected, safe. do 3 wp_step. rewrite Hc. apply wp_ret. cbn [negb].
  do 2 wp_step. destruct (leaderSession l) as [s|].
  { apply wp_ret. split; [unfold on_time; lia|done]. }
  do 2 wp_step. cbv zeta. wp_step.
  eapply wp_mono; [by apply safe_delayAndBegin|done|]. intros [] l1 (Ht1 & Hw1). wp_step. apply wp_leader_now.
  do 2 wp_step.
  - wp_step. match goal with |- context [makeErrorSession ?e] =>
      destruct (law_makeErrorSession (network l1) e) as (s & n' & Hn & Hle) end.
    eapply wp_on_network; [done|]. wp_go. unfold on_time, ready, window_ok in *.
    simpl in *. split_and!; try done. lia.
  - do 3 wp_step. destruct (createSession_runs (network l1) (if string_empty (leaderHint l) then hosts else leaderHint l)
      timeout (Some (clusterUUID l1)) None) as ([[s uuid] id] & n' & Hn & Hle).
    eapply wp_on_network; [done|]. wp_go. unfold on_time, ready, window_ok in *.
    simpl in *. split_and!; try done. lia.
Qed.

Lemma safe_drop_session c hint (l : LeaderRPC N) :
  ready l -> safe (drop_session c hint) (fun _ l' => network l' = network l /\ ready l') l.
Proof.
  intros Hr. unfold drop_session, safe. do 2 wp_step. wp_step; [|done]. apply wp_put. by split.
Qed.

Lemma safe_attempt o request timeout (l : LeaderRPC N) :
  ready l ->
  safe (let! c := Call_start hosts o request timeout [] (ret tt) in Call_wait c timeout) (fun status l' =>
    ready l' /\ time (network l) < time (network l') /\
    (status = Call_TIMEOUT -> timeout < time (network l')) /\
    (status = Call_RETRY -> time (network l') <= timeout)) l.
Proof.
  intros Hr. unfold Call_start, Call_wait, safe. do 2 wp_step.
  eapply wp_mono; [by apply safe_getSession|done|]. intros s l1 (Ht1 & Hr1). wp_step.
  destruct (law_startRPC (network l1) o s request) as (c & n2 & Hn2 & Hle2).
  eapply wp_on_network; [done|]. apply wp_ret. wp_step. cbn [rpc].
  destruct (law_waitForReply n2 o c timeout) as (status & n3 & Hn3 & Hlt3 & Hproper & Hto).
  eapply wp_on_network; [exact Hn3|]. cbv zeta. set (l3 := l1 <| network := n2 |> <| network := n3 |>).
  assert (ready l3) as Hr3 by done.
  assert (forall l4, network l4 = n3 -> ready l4 -> wp (fun _ => False)
    (let! now := leader_now in ret (if timeout <? now then Call_TIMEOUT else Call_RETRY))
    (fun (status : CallStatus (OpResponse o)) l' => ready l' /\ time (network l) < time (network l') /\
      (status = Call_TIMEOUT -> timeout < time (network l')) /\
      (status = Call_RETRY -> time (network l') <= timeout)) l4) as Hretry.
  { intros l4 Hn4 Hr4. wp_step. apply wp_leader_now. apply wp_ret. unfold on_time in Ht1. rewrite Hn4.
    split; [done|]. split; [lia|]. destruct (Z.ltb_spec timeout (time n3)); by split. }
  assert (time (network l) < time n3) as Hlt by (unfold on_time in Ht1; lia).
  destruct status as [response|e| | | | |]; simpl in Hproper; try done.
  - unfold reportSuccess. do 3 wp_step. wp_step; [apply wp_put|]; apply wp_ret; split_and!; by destruct Hr3.
  - destruct Hproper as [_ ->]. wp_step.
    destruct (leader_hint e); (eapply wp_mono; [by apply safe_drop_session|done|]);
      intros [] l4 [Hn4 Hr4]; by apply Hretry.
  - wp_step. eapply wp_mono; [by apply safe_drop_session|done|]. intros [] l4 [Hn4 Hr4]. by apply Hretry.
  - apply wp_ret. split_and!; try done. intros _. by apply Hto.
Qed.

(** C37: A call returns. For the only thread that uses the object, on a network
    with a steady clock where waiting for a reply takes at least a tick and the
    replies are [proper] ones (none on which the client panics; nobody cancels), the
    loop of [call] ends however often the servers fail or redirect: as many
    attempts as there are ticks until the deadline are enough, and any larger
    number gives the same result. The last attempt started by the deadline,
    unless it is the first and only one; [TIMEOUT] is returned only after the
    deadline; and the object is left ready for the next call. *)
Theorem call_returns n o request timeout (l : LeaderRPC N) :
  ready l -> (0 < n)%nat -> timeout - time (network l) < Z.of_nat n ->
  exists status l' last,
    (forall m, (n <= m)%nat -> call hosts (alone m) o request timeout l = Ok (status, l')) /\ ready l' /\
    (status = RPC_TIMEOUT -> timeout < time (network l')) /\
    (last = l \/ time (network last) <= timeout) /\ call hosts (alone 1) o request timeout last = Ok (status, l').
Proof.
  revert l. induction n as [|n IH]; intros l Hr Hn Htime; [lia|]. clear Hn.
  pose proof (safe_attempt o request timeout l Hr) as (status & l1 & Hrun & Hr1 & Ht1 & Hto & Hretry)%safe_run.
  assert (forall m, call hosts (alone (S m)) o request timeout l =
    match status with
    | Call_OK response => Ok (RPC_OK response, l1)
    | Call_TIMEOUT => Ok (RPC_TIMEOUT, l1)
    | Call_RETRY => call hosts (alone m) o request timeout l1
    | Call_INVALID_REQUEST => Ok (RPC_INVALID_REQUEST, l1)
    end) as Hstep.
  { intros m. simpl. unfold bind in Hrun |- *. destruct (Call_start _ _ _ _ _ _ l) as [[c l0]|]; [|done].
    rewrite Hrun. by destruct status. }
  assert (forall result, status <> Call_RETRY -> (forall m, call hosts (alone (S m)) o request timeout l = Ok (result, l1)) ->
    (result = RPC_TIMEOUT -> timeout < time (network l1)) ->
    exists status l' last, (forall m, (S n <= m)%nat -> call hosts (alone m) o request timeout l = Ok (status, l')) /\
      ready l' /\ (status = RPC_TIMEOUT -> timeout < time (network l')) /\
      (last = l \/ time (network last) <= timeout) /\
      call hosts (alone 1) o request timeout last = Ok (status, l')) as Hdone.
  { intros result _ Hres Hlate. exists result, l1, l. split_and!; [|done|done|by left|by apply Hres].
    intros [|m] Hm; [lia|apply Hres]. }
  destruct status as [r| | |]; [by eapply Hdone| |eapply Hdone; [done|done|by intros _; apply Hto]|by eapply Hdone].
  specialize (Hretry eq_refl). destruct (IH l1 Hr1) as (status & l' & last & Hall & Hready & Hlate & Hlast & Hone); [lia|lia|].
  exists status, l', last. split_and!; try done.
  - intros [|m] Hm; [lia|]. rewrite Hstep. apply Hall. lia.
  - right. by destruct Hlast as [->|].
Qed.

(** ** Sessions are not made too fast *)

(** Any [W + 1] starts in a row take at least [D]. *)
Definition spaced (W : nat) (D : Z) (starts : list Z) : Prop :=
  forall i x y, starts !! i = Some x -> starts !! (i + W)%nat = Some y -> x + D <= y.

(** [delayAndBegin] again and again, and the times it recorded. *)
Fixpoint delays (timeouts : list Z) : M (LeaderRPC N) (list Z) :=
  match timeouts with
  | [] => ret []
  | timeout :: timeouts' =>
      let! t := delay_start timeout in
      let! rest := delays timeouts' in
      ret (match t with Some t => t :: rest | None => rest end)
  end.

(** The window after the starts [h]. *)
Record window_of (W : nat) (D : Z) (h : list Z) (l : LeaderRPC N) : Prop := {
  w_duration : windowDuration (sessionCreationBackoff l) = D;
  w_times : startTimes (sessionCreationBackoff l) = drop (length h) (repeat TimePoint_min W ++ h);
  w_past : Forall (fun t => 0 <= t <= time (network l)) h;
  w_spaced : time (network l) + D <= TimePoint_max -> spaced W D h
}.

Lemma window_of_window W D h l : (0 < W)%nat -> window_of W D h l -> window_ok l.
Proof.
  intros HW [_ Ht _ _]. unfold window_ok. rewrite Ht. intros Hnil.
  apply (f_equal length) in Hnil. rewrite length_drop, length_app, repeat_length in Hnil. simpl in Hnil. lia.
Qed.

Lemma window_of_none W D h l l' :
  window_of W D h l -> sessionCreationBackoff l' = sessionCreationBackoff l -> on_time l l' ->
  window_of W D h l'.
Proof.
  intros [Hd Ht Hp Hs] Hb Hon. constructor; rewrite ?Hb; try done; unfold on_time in Hon.
  - eapply Forall_impl; [exact Hp|]. simpl. lia.
  - intros Hmax. apply Hs. lia.
Qed.

Lemma window_of_some W D h l l' t :
  (0 < W)%nat -> 0 <= D <= TimePoint_max -> 0 <= time (network l) ->
  window_of W D h l -> sessionCreationBackoff l' = Backoff_begin t (sessionCreationBackoff l) ->
  time (network l) <= t <= time (network l') ->
  (forall oldest, head (startTimes (sessionCreationBackoff l)) = Some oldest ->
     i64 (oldest + windowDuration (sessionCreationBackoff l)) <= t) ->
  window_of W D (h ++ [t]) l'.
Proof.
  intros HW HD H0' [Hd Ht Hp Hs] Hb Htime Hold.
  constructor; rewrite ?Hb; unfold Backoff_begin; simpl; [done| | |].
  - rewrite Ht, drop_drop, length_app, app_assoc. simpl.
    rewrite (drop_app_le (repeat _ _ ++ h)) by (rewrite length_app, repeat_length; lia). done.
  - apply Forall_app. split; [|constructor; [lia|done]]. eapply Forall_impl; [exact Hp|]. simpl. lia.
  - intros Hmax i x y Hx Hy.
    destruct (decide (i + W = length h)%nat) as [Hlast|Hnot].
    + rewrite Hlast, lookup_app_r, Nat.sub_diag in Hy by lia. injection Hy as <-.
      rewrite lookup_app_l in Hx by (apply lookup_lt_Some in Hx; rewrite length_app in Hx; simpl in Hx; lia).
      rewrite Hd, Ht in Hold. specialize (Hold x).
      rewrite head_lookup, lookup_drop, Nat.add_0_r, lookup_app_r, repeat_length in Hold
        by (rewrite repeat_length; lia).
      replace (length h - W)%nat with i in Hold by lia. specialize (Hold Hx).
      rewrite Forall_forall in Hp. specialize (Hp x (list_elem_of_lookup_2 _ _ _ Hx)). simpl in Hp.
      unfold i64, TimePoint_max in *. rewrite Z.mod_small in Hold by lia. lia.
    + assert (i + W < length h)%nat.
      { apply lookup_lt_Some in Hy. rewrite length_app in Hy. simpl in Hy. lia. }
      rewrite lookup_app_l in Hx, Hy by lia. apply (Hs ltac:(lia) i x y); done.
Qed.

Lemma delays_spaced W D timeouts h (l : LeaderRPC N) :
  (0 < W)%nat -> 0 <= D <= TimePoint_max -> 0 <= time (network l) -> window_of W D h l ->
  safe (delays timeouts) (fun starts l' => window_of W D (h ++ starts) l') l.
Proof.
  intros HW HD. revert h l. induction timeouts as [|timeout ts IH]; intros h l H0' Hw; simpl.
  { apply wp_ret. by rewrite app_nil_r. }
  unfold safe. wp_step. eapply wp_mono; [by eapply safe_delay_start, window_of_window|done|].
  intros t l1 (Hon & _ & _ & Hb). unfold on_time in Hon. wp_step.
  destruct t as [t|].
  - destruct Hb as (Hb & Ht & Hold).
    eapply wp_mono; [apply (IH (h ++ [t])); [lia|by eapply window_of_some]|done|].
    intros starts l2 Hw2. apply wp_ret. cbv beta in Hw2. by rewrite <-app_assoc in Hw2.
  - eapply wp_mono; [apply (IH h); [lia|by eapply window_of_none]|done|].
    intros starts l2 Hw2. by apply wp_ret.
Qed.

(** [Backoff] limits the rate. Of the operations that [delayAndBegin] lets
    start, whatever the timeouts its callers give, any [windowCount + 1] in a
    row take at least [windowNanos], as long as the clock is that far from its
    end; and it neither fails nor forgets one. *)
Theorem backoff_limits (W : nat) D timeouts (l : LeaderRPC N) :
  (0 < W)%nat -> 0 <= D <= TimePoint_max -> 0 <= time (network l) ->
  sessionCreationBackoff l = Backoff_init (Z.of_nat W) D ->
  exists starts l', delays timeouts l = Ok (starts, l') /\
    (time (network l') + D <= TimePoint_max -> spaced W D starts) /\
    startTimes (sessionCreationBackoff l') = drop (length starts) (repeat TimePoint_min W ++ starts).
Proof.
  intros HW HD H0' Hb.
  assert (window_of W D [] l) as Hw.
  { constructor; rewrite ?Hb; simpl; [done| |done|intros _ i x y; done].
    by rewrite Nat2Z.id, app_nil_r, drop_0. }
  pose proof (delays_spaced W D timeouts [] l HW HD H0' Hw) as (starts & l' & Hrun & [_ Ht _ Hs])%safe_run.
  exists starts, l'. split; [done|]. by split.
Qed.
End Spec.
