(* ===== verification/LeaderDemo.v ===== *)
(** * A small cluster for the client

    A network whose servers redirect the client to the leader, on which the
    theorems about [LeaderRPC] are instantiated. *)

From Stdlib Require Import ZArith Lia Ascii String.
From stdpp Require Import base gmap strings list fin_maps sorting.
From S2P Require Import RPCProtocol.
From S2P Require Import Prelude StringUtil Printf Log ClientProto Tree TreeSpec TreeRPC StateMachine Client LeaderRPC LeaderSpec.
Local Open Scope string_scope.
Local Open Scope Z_scope.
Local Open Scope list_scope.

(** The clock and the number of sessions made so far. *)
Record Net : Type := mkNet { net_time : Z; net_sessions : nat }.

Definition net_wait (o : OpCode) (address : string) : ReplyStatus (OpResponse o) PC_Error :=
  match o return ReplyStatus (OpResponse o) PC_Error with
  | VERIFY_RECIPIENT => Reply_OK (mkVerifyRecipient_Response (Some "uuid") (Some 1) (Some true) None)
  | STATE_MACHINE_COMMAND =>
      if String.eqb address "leader" then Reply_OK (Command_Response_init <| resp_open_session := Some 7 |>)
      else if String.eqb address "any" then
        Reply_SERVICE_SPECIFIC_ERROR (mkPC_Error ErrorCode.NOT_LEADER (Some "follower"))
      else Reply_SERVICE_SPECIFIC_ERROR (mkPC_Error ErrorCode.NOT_LEADER (Some "leader"))
  | _ => Reply_RPC_FAILED
  end.

#[local] Instance net_clock : SteadyClock Net := gets net_time.
#[local] Instance net : Network Net := {
  Session := string * nat;
  network_clock := net_clock;
  sleep t := modify (fun n => mkNet (Z.max t (net_time n)) (net_sessions n));
  makeSession a _ := fun n => Ok ((a, net_sessions n), mkNet (net_time n) (S (net_sessions n)));
  makeErrorSession _ := fun n => Ok (("", net_sessions n), mkNet (net_time n) (S (net_sessions n)));
  hasErrorMessage s _ := String.eqb s.1 "";
  ClientRPC _ := string;
  startRPC _ s _ := ret s.1;
  waitForReply o a _ := fun n => Ok (net_wait o a, mkNet (net_time n + 1) (net_sessions n));
  cancelRPC _ _ := ret tt
}.

#[local, refine] Instance net_laws : NetworkLaws Net := { time := net_time }.
Proof.
  - done.
  - intros n t. eexists. split; [reflexivity|]. simpl. lia.
  - intros n a t. do 2 eexists. split; [reflexivity|]. simpl. lia.
  - intros n e. do 2 eexists. split; [reflexivity|]. simpl. lia.
  - intros n o s r. do 2 eexists. split; [reflexivity|]. lia.
  - intros n o c t. do 2 eexists. split; [reflexivity|]. split; [simpl; lia|].
    destruct o; simpl; try done. destruct (String.eqb c "leader"), (String.eqb c "any"); simpl; try done;
      (split; [done|]); done.
Defined.

Definition demo_leader : LeaderRPC Net := LeaderRPC_init None (Backoff_init 5 100000000) (mkNet 1000 0).

(** Two redirections and the leader; the cluster's identity is learned. *)
Example demo_call :
  match call "any" (alone 5) STATE_MACHINE_COMMAND open_session_request 2000 demo_leader with
  | Ok (status, l) =>
      status = RPC_OK (Command_Response_init <| resp_open_session := Some 7 |>) /\
      leaderSession l = Some ("leader", 2%nat) /\ clusterUUID l = Some "uuid" /\
      failuresSinceLastSuccess l = 0 /\ net_time (network l) = 1006
  | Fail _ => False
  end.
Proof. vm_compute. repeat split. Qed.

Lemma call_returns_witness :
  exists status l' last,
    (forall m, (1001 <= m)%nat ->
       call "any" (alone m) STATE_MACHINE_COMMAND open_session_request 2000 demo_leader = Ok (status, l')) /\ ready l' /\
    (status = RPC_TIMEOUT -> 2000 < time (network l')) /\
    (last = demo_leader \/ time (network last) <= 2000) /\
    call "any" (alone 1) STATE_MACHINE_COMMAND open_session_request 2000 last = Ok (status, l').
Proof.
  apply (call_returns "any" 1001 STATE_MACHINE_COMMAND open_session_request 2000 demo_leader).
  - by split.
  - lia.
  - simpl. lia.
Defined.

Lemma backoff_limits_witness :
  exists starts l', delays [5000; 10; 5000; 900000000; 900000000; 900000000; 900000000] demo_leader = Ok (starts, l') /\
    (time (network l') + 100000000 <= TimePoint_max -> spaced 5 100000000 starts) /\
    startTimes (sessionCreationBackoff l') = drop (length starts) (repeat TimePoint_min 5 ++ starts).
Proof.
  apply (backoff_limits 5 100000000 [5000; 10; 5000; 900000000; 900000000; 900000000; 900000000] demo_leader).
  - lia.
  - vm_compute. split; discriminate.
  - simpl. lia.
  - reflexivity.
Defined.
