(* ===== verification/ClientSystem.v ===== *)
(** * Clients and the replicated state machine together

    Any number of clients, each with several threads, and the state machine of
    the cluster. Requests are sent and sent again, arrive late, twice or never;
    answers arrive late or never; calls time out; sessions expire, are closed,
    or are opened for a client that never learns of it. Between the two is the
    log: what consensus promises of it is that every server applies the same
    entries in the same order, so that one state machine stands for all.

    The clients run the code of [Client], each turn of a method that holds the
    mutex being one action; the state machine runs that of [StateMachine]. The
    theorem is the exactly-once semantics of [Client/ClientImpl.h]: every
    request takes effect at most once, and an answered one exactly once. *)

From Stdlib Require Import ZArith Lia Ascii String.
From stdpp Require Import countable base gmap strings list fin_maps sorting.
From S2P Require Import Prelude OrderedMap StringUtil Stream SnapshotFile Printf Consensus Log ClientProto Tree TreeSpec TreeSnapshot TreeRPC StateMachine StateMachineSpec Client ClientSpec.
Local Open Scope string_scope.
Local Open Scope Z_scope.
Local Open Scope list_scope.

(** ** The leader as a client's thread sees it *)

(** During one action the clock stands still, and a call returns what the
    network brought. *)
Record Oracle : Type := mkOracle {
  oracle_now : Z;
  oracle_reply : RPCStatus Command_Response
}.

#[export] Instance oracle_clock : SteadyClock Oracle := gets oracle_now.
#[export] Instance oracle_leader : LeaderRPCBase Oracle := {
  LeaderCall := unit;
  leader_call o := match o return OpRequest o -> Z -> M Oracle (RPCStatus (OpResponse o)) with
                   | STATE_MACHINE_COMMAND => fun _ _ => gets oracle_reply
                   | _ => fun _ _ => fail Blocked
                   end;
  startCall _ _ := fail Blocked;
  waitCall _ _ := fail Blocked;
  cancelCall _ := fail Blocked
}.

Definition Helper : Type := ExactlyOnceRPCHelper unit.

(** A method of a client, started with the helper [h]. *)
Definition at_client {A} (m : M (Client Oracle) A) (now : Z) (reply : RPCStatus Command_Response) (h : Helper) :
    option (A * Helper) :=
  match m (mkClientImpl h (mkOracle now reply)) with
  | Ok (a, c) => Some (a, exactlyOnceRPCHelper c)
  | Fail _ => None
  end.

(** ** State *)

(** [sent]: every command sent, with the client that sent it. [applied]: the
    log, each entry with the position in [sent] of its command. [replies]: what
    the servers answered to which command. The last two are the history: the
    requests executed with their responses, in order, and what the calls of
    the clients returned. *)
Record Cluster : Type := mkCluster {
  sm : StateMachine;
  lastIndex : Z;
  clients : gmap nat Helper;
  sent : list (nat * Command_Request);
  applied : list (Z * nat);
  replies : list (nat * Command_Response);
  executed : list (ReadWriteTree_Request * ReadWriteTree_Response);
  returned : list (ReadWriteTree_Request * ReadWriteTree_Response)
}.
#[export] Instance Cluster_eta : Eta Cluster := fun s =>
  mkCluster (sm s) (lastIndex s) (clients s) (sent s) (applied s) (replies s) (executed s) (returned s).

Definition Cluster_init : Cluster :=
  mkCluster StateMachine_init 0 ∅ [] [] [] [] [].

(** ** Actions *)

Inductive action : Type :=
(** A client library starts. *)
| NewClient (k : nat) (closeTimeout : Z)
(** A command that is not on the tree: to open, to close a session, to advance
    the version, by client [k] or an administrator. *)
| SendCommand (k : nat) (c : Command_Request)
(** [getRPCInfo], and the request [t] sent with the information. The answer to
    the request that opens the session, if there is one to wait for, is number
    [reply]; [None]: the timeout elapsed. *)
| Begin (k : nat) (now : Z) (reply : option nat) (t : ReadWriteTree_Request)
(** A server applies the next entry of the log: command number [j], or none. *)
| Apply (j : nat) (now clusterTime : Z)
| ApplySkip (now clusterTime : Z)
(** A server answers the command of entry number [a]. *)
| Answer (a : nat)
(** The call that sent command number [j] returns, with answer number [reply]
    or because the timeout elapsed; [doneWithRPC]. *)
| Return (k : nat) (j : nat) (now : Z) (reply : option nat).

Definition with_info (i : ExactlyOnceRPCInfo) (t : ReadWriteTree_Request) : ReadWriteTree_Request :=
  mkReadWriteTree_Request i (rw_condition t) (make_directory t) (remove_directory t) (write_ t) (remove_file t).

(** Answer number [m] as the status of a call by client [k] whose command
    satisfies [p]. *)
Definition status_of (s : Cluster) (k : nat) (p : nat -> Command_Request -> bool) (m : option nat) :
    option (RPCStatus Command_Response) :=
  match m with
  | None => Some RPC_TIMEOUT
  | Some m =>
      '(j, r) ← replies s !! m;
      '(k', c) ← sent s !! j;
      guard (k' = k /\ p j c = true);; Some (RPC_OK r)
  end.

Definition is_open_session (c : Command_Request) : bool :=
  match cmd_tree c, cmd_open_session c with None, Some _ => true | _, _ => false end.

Definition has_op (t : ReadWriteTree_Request) : bool :=
  match rw_op t with Some _ => true | None => false end.

Section Cluster.
Context (opts : Options) `{ProtoBuf Command_Request} `{ProtoBuf Snapshot_Header}.
Context `{ProtoBuf Snapshot_Directory} `{ProtoBuf Snapshot_File}.

Definition log_entry (s : Cluster) (c : Command_Request) (clusterTime : Z) : Entry :=
  mkEntry Entry.DATA (lastIndex s + 1) (pb_serialize c) None clusterTime.

(** What applying [c] executes, if anything. *)
Definition execution (s : Cluster) (e : Entry) (c : Command_Request) :
    list (ReadWriteTree_Request * ReadWriteTree_Response) :=
  match cmd_tree c with
  | Some t =>
      if executes (sm s) e then
        match readWriteTreeRPC t (tree (sm s)) with
        | Ok (r, _) => [(t, r)]
        | Fail _ => []
        end
      else []
  | None => []
  end.

Definition do_apply (s : Cluster) (now : Z) (e : Entry) : option Cluster :=
  guard (lastIndex s < u64_max);;
  match applyEntry opts now e (sm s) with
  | Ok (_, sm') => Some (s <| sm := sm' |> <| lastIndex := entry_index e |>)
  | Fail _ => None
  end.

(** [None]: the action is not possible. Neither the 2^64 numbers of a client
    nor those of the log are used up. *)
Definition step (s : Cluster) (a : action) : option Cluster :=
  match a with
  | NewClient k closeTimeout =>
      guard (clients s !! k = None);;
      Some (s <| clients := <[k := ExactlyOnceRPCHelper_init closeTimeout]> (clients s) |>)
  | SendCommand k c =>
      guard (cmd_tree c = None);;
      Some (s <| sent := sent s ++ [(k, c)] |>)
  | Begin k now reply t =>
      h ← clients s !! k;
      guard (nextRPCNumber h < u64_max /\ has_op t = true);;
      status ← status_of s k (fun _ => is_open_session) reply;
      '(i, h') ← at_client (getRPCInfo 0) now status h;
      let s := s <| clients := <[k := h']> (clients s) |> in
      Some (if client_id i =? 0 then s
            else s <| sent := sent s ++ [(k, tree_request (with_info i t))] |>)
  | Apply j now clusterTime =>
      '(k, c) ← sent s !! j;
      let e := log_entry s c clusterTime in
      s' ← do_apply s now e;
      Some (s' <| applied := applied s ++ [(entry_index e, j)] |>
               <| executed := executed s ++ execution s e c |>)
  | ApplySkip now clusterTime =>
      do_apply s now (mkEntry Entry.SKIP (lastIndex s + 1) [] None clusterTime)
  | Answer a =>
      '(i, j) ← applied s !! a;
      '(k, c) ← sent s !! j;
      match waitForResponse i c [] (sm s) with
      | Ok (Some r, _) => Some (s <| replies := replies s ++ [(j, r)] |>)
      | _ => None
      end
  | Return k j now reply =>
      h ← clients s !! k;
      '(k', c) ← sent s !! j;
      t ← cmd_tree c;
      guard (k' = k /\ rpc_number (exactly_once t) ∈ outstandingRPCNumbers h);;
      status ← status_of s k (fun j' _ => j' =? j)%nat reply;
      '(r, h') ← at_client (let! r := treeCommand t 0 in doneWithRPC (exactly_once t) ;;; ret r)
                   now status h;
      Some (s <| clients := <[k := h']> (clients s) |>
              <| returned := returned s ++ [(t, r)] |>)
  end.

Fixpoint run (l : list action) (s : Cluster) : option Cluster :=
  match l with
  | [] => Some s
  | a :: l' => s' ← step s a; run l' s'
  end.
End Cluster.

(** ** What holds of every run *)

(** Requests one after the other on a tree, with their responses. *)
Inductive sequential (t0 : Tree) : list (ReadWriteTree_Request * ReadWriteTree_Response) -> Tree -> Prop :=
| sequential_nil : sequential t0 [] t0
| sequential_snoc l t q r t' :
    sequential t0 l t -> readWriteTreeRPC q t = Ok (r, t') -> sequential t0 (l ++ [(q, r)]) t'.

Definition key (t : ReadWriteTree_Request) : Z * Z :=
  (client_id (exactly_once t), rpc_number (exactly_once t)).

Definition response_of (r : ReadWriteTree_Response) : Command_Response :=
  Command_Response_init <| resp_tree := Some r |>.

Definition session_expired : ReadWriteTree_Response := mkReadWriteTree_Response (Some PC_SESSION_EXPIRED) None.

(** Command number [j] of [l] is the request [t] of client [k]. *)
Definition sent_tree (l : list (nat * Command_Request)) (j k : nat) (t : ReadWriteTree_Request) : Prop :=
  exists c, l !! j = Some (k, c) /\ cmd_tree c = Some t.

(** A true answer: the response of the execution, or that there is no session. *)
Definition answered (s : Cluster) (t : ReadWriteTree_Request) (r : ReadWriteTree_Response) : Prop :=
  (t, r) ∈ executed s \/
  sessions (sm s) !! client_id (exactly_once t) = None /\ r = session_expired.

(** The requests a client may still send, or have under way, are those from
    [f] on. *)
Definition lower_bound (h : Helper) (f : Z) : Prop :=
  f <= nextRPCNumber h /\ forall m, m ∈ outstandingRPCNumbers h -> f <= m.

Record helper_ok (h : Helper) : Prop := {
  h_clientId : 0 <= clientId h;
  h_next : 1 <= nextRPCNumber h <= u64_max;
  h_outstanding m : m ∈ outstandingRPCNumbers h -> 1 <= m < nextRPCNumber h;
  h_closed : clientId h = 0 -> outstandingRPCNumbers h = ∅
}.

(** A request as a client with the helper [h] has sent it. *)
Record request_ok (h : Helper) (t : ReadWriteTree_Request) : Prop := {
  q_id : client_id (exactly_once t) = clientId h;
  q_open : clientId h <> 0;
  q_op : has_op t = true;
  q_number : rpc_number (exactly_once t) < nextRPCNumber h;
  q_first : lower_bound h (first_outstanding_rpc (exactly_once t));
  q_self : first_outstanding_rpc (exactly_once t) <= rpc_number (exactly_once t)
}.

Record cluster_inv (s : Cluster) : Prop := {
  i_sm : sm_inv (lastIndex s) (sm s);
  i_applied : lastApplied (sm s) = lastIndex s;
  i_last : lastIndex s <= u64_max;
  i_log i j : (i, j) ∈ applied s -> i <= lastIndex s /\ (j < length (sent s))%nat;
  i_replies j r : (j, r) ∈ replies s -> (j < length (sent s))%nat;
  i_log_once i j j' : (i, j) ∈ applied s -> (i, j') ∈ applied s -> j = j';
  i_helper k h : clients s !! k = Some h -> helper_ok h;
  i_id k h : clients s !! k = Some h -> clientId h <> 0 ->
    exists j c, (clientId h, j) ∈ applied s /\ sent s !! j = Some (k, c);
  i_sent j k t : sent_tree (sent s) j k t -> exists h, clients s !! k = Some h /\ request_ok h t;
  i_unique j j' k t t' : sent_tree (sent s) j k t -> sent_tree (sent s) j' k t' ->
    rpc_number (exactly_once t) = rpc_number (exactly_once t') -> t = t';
  i_first c ses : sessions (sm s) !! c = Some ses ->
    firstOutstandingRPC ses = 0 \/
    exists j k t, sent_tree (sent s) j k t /\ client_id (exactly_once t) = c /\
      firstOutstandingRPC ses = first_outstanding_rpc (exactly_once t);
  i_response c ses n r : sessions (sm s) !! c = Some ses -> responses ses !! n = Some r ->
    exists t r', (t, r') ∈ executed s /\ key t = (c, n) /\ r = response_of r';
  i_executed t r : (t, r) ∈ executed s ->
    (exists j k, sent_tree (sent s) j k t) /\
    recorded (client_id (exactly_once t)) (rpc_number (exactly_once t)) (response_of r) (sm s);
  i_once : NoDup (map (fun p => key p.1) (executed s));
  i_sequential : sequential Tree_init (executed s) (tree (sm s));
  i_done i j k t : (i, j) ∈ applied s -> sent_tree (sent s) j k t ->
    (exists r, (t, r) ∈ executed s) \/
    forall ses, sessions (sm s) !! client_id (exactly_once t) = Some ses ->
                rpc_number (exactly_once t) < firstOutstandingRPC ses;
  i_open_reply j r k c : (j, r) ∈ replies s -> sent s !! j = Some (k, c) -> is_open_session c = true ->
    exists i, (i, j) ∈ applied s /\ resp_open_session r = Some i;
  i_reply j r k t h : (j, r) ∈ replies s -> sent_tree (sent s) j k t -> clients s !! k = Some h ->
    rpc_number (exactly_once t) ∈ outstandingRPCNumbers h ->
    exists r', r = response_of r' /\ answered s t r';
  i_returned t r : (t, r) ∈ returned s ->
    (exists j k, sent_tree (sent s) j k t) /\ (rwr_status r = Some PC_TIMEOUT \/ answered s t r)
}.

(** ** The actions of a client *)

Lemma at_client_getRPCInfo t0 status (h : Helper) i h' :
  helper_ok h -> nextRPCNumber h < u64_max -> at_client (getRPCInfo 0) t0 status h = Some (i, h') ->
  (client_id i = 0 /\ clientId h' = clientId h /\ nextRPCNumber h' = nextRPCNumber h /\
   outstandingRPCNumbers h' = outstandingRPCNumbers h) \/
  (client_id i <> 0 /\ clientId h' = client_id i /\
   (clientId h = client_id i \/
    clientId h = 0 /\ exists r, status = RPC_OK r /\ resp_open_session r = Some (client_id i)) /\
   0 < client_id i /\ rpc_number i = nextRPCNumber h /\ nextRPCNumber h' = nextRPCNumber h + 1 /\
   outstandingRPCNumbers h' = {[nextRPCNumber h]} ∪ outstandingRPCNumbers h /\
   forall m, m ∈ outstandingRPCNumbers h' -> first_outstanding_rpc i <= m).
Proof.
  destruct h as [o id0 n e l k c a th]. intros [Hid Hnext Hout Hclosed] Hlt. cbn in *.
  assert (u64 (n + 1) = n + 1) as Hu by (apply u64_small; unfold is_u64, u64_max in *; lia).
  destruct (set_begin_spec ({[n]} ∪ o) n) as (m & Hm & _ & Hmin); [set_solver|].
  unfold at_client, getRPCInfo, openSession, numberRPC, now, on_leader, zoom, on_helper, modify, helper, gets, lift.
  unfold bind. cbn.
  destruct (Z.eqb_spec id0 0) as [Hz|Hz].
  - destruct status as [r| |]; cbn; [|by intros [= <- <-]; left|done].
    destruct (resp_open_session r) as [id|] eqn:Hr; [|done]. cbn.
    destruct (Z.ltb_spec 0 id) as [Hpos|]; [|done]. cbn. rewrite Hm, Hu. cbn.
    intros [= <- <-]. right. cbn. split; [lia|]. split; [done|]. split; [right; eauto|].
    by repeat (split; [done|]).
  - cbn. rewrite Hm, Hu. cbn. intros [= <- <-]. right. cbn. split; [done|]. split; [done|]. split; [by left|].
    split; [lia|]. by repeat (split; [done|]).
Qed.

Lemma at_client_Return t now status (h : Helper) r h' :
  client_id (exactly_once t) <> 0 ->
  at_client (let! r := treeCommand t 0 in doneWithRPC (exactly_once t) ;;; ret r) now status h = Some (r, h') ->
  h' = h <| outstandingRPCNumbers := outstandingRPCNumbers h ∖ {[rpc_number (exactly_once t)]} |> /\
  match status with
  | RPC_OK resp => r = default ReadWriteTree_Response_init (resp_tree resp)
  | RPC_TIMEOUT => rwr_status r = Some PC_TIMEOUT
  | RPC_INVALID_REQUEST => False
  end.
Proof.
  intros Hid. unfold at_client, treeCommand, doneWithRPC, bind, on_leader, zoom, on_helper, modify.
  rewrite (proj2 (Z.eqb_neq _ _)) by done. cbn.
  destruct status; cbn; [|by intros [= <- <-]..|done]; by intros [= <- <-].
Qed.

(** ** What applying an entry does to the sessions *)

(** Where the sessions of [s'] come from: opened by entry [idx], or there
    before, but that the request of [c] may have raised the first outstanding
    number and added the responses of [ex]. *)
Definition sessions_from (idx : Z) (c : option Command_Request)
    (ex : list (ReadWriteTree_Request * ReadWriteTree_Response)) (s s' : StateMachine) : Prop :=
  forall cid ses', sessions s' !! cid = Some ses' ->
    (cid = idx /\ firstOutstandingRPC ses' = 0 /\ responses ses' = ∅) \/
    exists ses, sessions s !! cid = Some ses /\
      (firstOutstandingRPC ses' = firstOutstandingRPC ses \/
       exists c' t, c = Some c' /\ cmd_tree c' = Some t /\ client_id (exactly_once t) = cid /\
                    firstOutstandingRPC ses' = first_outstanding_rpc (exactly_once t)) /\
      forall n r, responses ses' !! n = Some r ->
        responses ses !! n = Some r \/ exists t r', (t, r') ∈ ex /\ key t = (cid, n) /\ r = response_of r'.

Lemma sessions_from_subset idx c ex s s' :
  (forall cid ses, sessions s' !! cid = Some ses -> sessions s !! cid = Some ses) -> sessions_from idx c ex s s'.
Proof. intros Hs cid ses' H'. right. exists ses'. split; [by apply Hs|]. split; by left. Qed.

Lemma sessions_from_expire idx c ex s s' ct :
  sessions_from idx c ex s s' -> sessions_from idx c ex s (expireSessions ct s').
Proof. intros Hs cid ses' [H' _]%expireSessions_lookup. by apply Hs. Qed.

Lemma expireResponses_from ses f :
  (firstOutstandingRPC (expireResponses ses f) = firstOutstandingRPC ses \/
   firstOutstandingRPC (expireResponses ses f) = f) /\
  forall n r, responses (expireResponses ses f) !! n = Some r -> responses ses !! n = Some r.
Proof.
  split.
  - destruct (expireResponses_spec ses f 0) as [_ ->]. lia.
  - intros n r. destruct (expireResponses_spec ses f n) as [-> _]. by case_decide.
Qed.

Lemma sessions_from_put idx c t ex s s1 ses0 ses' :
  cmd_tree c = Some t -> sessions s1 = sessions s ->
  sessions s !! client_id (exactly_once t) = Some ses0 ->
  firstOutstandingRPC ses' = firstOutstandingRPC (expireResponses ses0 (first_outstanding_rpc (exactly_once t))) ->
  (forall n r, responses ses' !! n = Some r ->
     responses (expireResponses ses0 (first_outstanding_rpc (exactly_once t))) !! n = Some r \/
     exists r', (t, r') ∈ ex /\ n = rpc_number (exactly_once t) /\ r = response_of r') ->
  sessions_from idx (Some c) ex s (put_session (client_id (exactly_once t)) ses' s1).
Proof.
  intros Ht Hs1 Hses Hf Hr cid ses1. simpl. rewrite Hs1, lookup_insert.
  destruct (expireResponses_from ses0 (first_outstanding_rpc (exactly_once t))) as [Hfe Hre]. case_decide as Hcid.
  - intros [= <-]. subst cid. right. exists ses0. split; [done|]. rewrite Hf. split.
    + destruct Hfe as [Hfe|Hfe]; [by left|right]. by exists c, t.
    + intros n r [?%Hre|(r' & Hin & -> & ->)]%Hr; [by left|]. right. by exists t, r'.
  - intros Hc. right. exists ses1. split; [done|]. split; by left.
Qed.

Section Invariant.
Context (opts : Options) `{ProtoBufLaws Command_Request} `{ProtoBuf Snapshot_Header}.
Context `{ProtoBuf Snapshot_Directory} `{ProtoBuf Snapshot_File}.

Lemma parsed_log_entry s c ct : parsed (log_entry s c ct) = Some c.
Proof. apply pb_parse_serialize. Qed.

(** What a run of the state machine leaves, for the command [c] of entry
    [lastIndex s + 1]. *)
Lemma sessions_from_apply s c ct now sm' :
  sm_inv (lastIndex s) (sm s) -> lastIndex s < u64_max ->
  applyEntry opts now (log_entry s c ct) (sm s) = Ok (tt, sm') ->
  sessions_from (lastIndex s + 1) (Some c) (execution s (log_entry s c ct) c) (sm s) sm'.
Proof.
  intros Hinv Hlast. set (e := log_entry s c ct). unfold applyEntry. cbn [entry_type e log_entry].
  intros ([] & s1 & Hrun & Hrest)%bind_Ok. unfold bind, modify in Hrest. injection Hrest as <-.
  apply (sessions_from_expire _ _ _ _ s1 ct).
  unfold apply in Hrun. change (pb_parse (command e)) with (parsed e) in Hrun.
  rewrite (parsed_log_entry s c ct : parsed e = Some c) in Hrun.
  apply bind_Ok in Hrun as (v & s2 & Hv & Hrun).
  assert (s2 = sm s) as ->.
  { unfold getVersion, bind, get in Hv. destruct (om_before _ _) as [[]|]; [|done]. by injection Hv. }
  unfold execution. destruct (cmd_tree c) as [t|] eqn:Ht.
  { rewrite apply_tree_eq in Hrun. cbv zeta in Hrun. unfold executes.
    rewrite (parsed_log_entry s c ct : parsed e = Some c), Ht. cbn [entry_type e log_entry].
    unfold current_session in *. destruct (sessions (sm s) !! _) as [ses0|] eqn:Hses; simpl in *.
    2: { injection Hrun as <-. by apply sessions_from_subset. }
    destruct (is_new _ _) eqn:Hnew.
    - destruct (readWriteTreeRPC t (tree (sm s))) as [[r t']|f]; [|done]. injection Hrun as <-.
      eapply sessions_from_put; [done| |done|done|]; [done|].
      intros n r0. simpl. rewrite lookup_insert. case_decide; [|by left].
      intros [= <-]. right. exists r. split; [by left|done].
    - injection Hrun as <-. eapply sessions_from_put; [done| |done|done|]; [done|]. by left. }
  destruct (cmd_open_session c).
  { unfold bind, get, set_session, modify in Hrun. injection Hrun as <-. intros cid ses'. simpl.
    rewrite lookup_insert. case_decide as Hcid; [|intros Hc; right; exists ses'; split; [done|]; split; by left].
    intros [= <-]. left. split; [done|].
    destruct (sessions (sm s) !! _) as [ses|] eqn:Hses; [|done].
    apply (inv_sessions _ _ Hinv) in Hses as [Hle _]. simpl in Hle. lia. }
  destruct (cmd_close_session c) as [cid|].
  { destruct (2 <=? v).
    - injection Hrun as <-. apply sessions_from_subset. intros c' ses. simpl. by intros [_ ?]%lookup_delete_Some.
    - apply sessions_from_subset.
      pose proof (proj1 (post_run _ _ _) (warnUnknownRequest_sessions opts now (sm s)) _ _ Hrun) as [-> _]. done. }
  destruct (cmd_advance_version c) as [req|].
  - apply sessions_from_subset.
    pose proof (proj1 (post_run _ _ _) (apply_advance_sessions _ v req (sm s)) _ _ Hrun) as [-> _]. done.
  - apply sessions_from_subset.
    pose proof (proj1 (post_run _ _ _) (warnUnknownRequest_sessions opts now (sm s)) _ _ Hrun) as [-> _]. done.
Qed.

(** ** The actions of a client keep the invariant *)

Lemma sent_tree_lt l j k t : sent_tree l j k t -> (j < length l)%nat.
Proof. intros (c & Hj & _). by apply lookup_lt_Some in Hj. Qed.

Lemma lookup_snoc_old {A} (l : list A) x j : (j < length l)%nat -> (l ++ [x]) !! j = l !! j.
Proof. intros Hj. by apply lookup_app_l. Qed.

Lemma sent_tree_snoc l k0 c j k t :
  sent_tree (l ++ [(k0, c)]) j k t <-> sent_tree l j k t \/ (j = length l /\ k = k0 /\ cmd_tree c = Some t).
Proof.
  unfold sent_tree. split.
  - intros (c' & Hj & Ht). apply lookup_app_Some in Hj as [Hj|[Hle Hj]]; [left; by exists c'|right].
    apply list_lookup_singleton_Some in Hj as [Hz [= <- <-]]. split; [lia|done].
  - intros [(c' & Hj & Ht)|(-> & -> & Ht)].
    + exists c'. split; [|done]. by apply lookup_app_l_Some.
    + exists c. split; [|done]. by apply list_lookup_middle.
Qed.

Lemma inv_init : cluster_inv Cluster_init.
Proof.
  constructor; simpl; try done; try (intros; set_solver).
  - apply sm_inv_init.
  - intros j k t (c & Hj & _). done.
  - intros j j' k t t' (c & Hj & _). done.
  - constructor.
  - constructor.
Qed.

(** A client's numbers go up, it opens its session, its calls come back. *)
Lemma inv_update_client s (k : nat) (h h' : Helper) :
  cluster_inv s -> clients s !! k = Some h -> helper_ok h' -> nextRPCNumber h <= nextRPCNumber h' ->
  (clientId h' = clientId h \/
   clientId h = 0 /\ exists j c, (clientId h', j) ∈ applied s /\ sent s !! j = Some (k, c)) ->
  (forall m, m ∈ outstandingRPCNumbers h' -> m ∈ outstandingRPCNumbers h \/ nextRPCNumber h <= m) ->
  cluster_inv (s <| clients := <[k := h']> (clients s) |>).
Proof.
  intros Hinv Hk Hok' Hnext Hid Hout. destruct (Hinv). constructor; simpl; try assumption.
  - intros k1 h1. rewrite lookup_insert. case_decide; [by intros [= <-]|]. apply i_helper0.
  - intros k1 h1. rewrite lookup_insert. case_decide as Heq; [|apply i_id0]. subst k1. intros [= <-] Hne.
    destruct Hid as [Heq|[_ Hid]]; [|done]. rewrite Heq in *. by apply (i_id0 k).
  - intros j k1 t Hs. destruct (i_sent0 _ _ _ Hs) as (h1 & Hk1 & Hreq).
    destruct (decide (k = k1)) as [<-|Hne]; [|exists h1; by rewrite lookup_insert_ne].
    assert (h1 = h) as -> by congruence. exists h'. rewrite lookup_insert_eq. split; [done|].
    destruct Hreq as [Hq1 Hq2 Hq3 Hq4 [Hq5 Hq6] Hq7]. destruct Hid as [Hid|[Hid _]]; [|done].
    constructor; [congruence|congruence|done|lia| |done]. split; [lia|].
    intros m [Hm|Hm]%Hout; [by apply Hq6|lia].
  - intros j r k1 t h1 Hr Hs. rewrite lookup_insert. case_decide as Heq; [|by apply (i_reply0 j)].
    subst k1. intros [= <-] Hm. apply (i_reply0 j r k t h); [done..|].
    destruct (Hout _ Hm) as [|Hge]; [done|].
    destruct (i_sent0 _ _ _ Hs) as (h1 & Hk1 & Hreq). assert (h1 = h) as -> by congruence.
    destruct Hreq. lia.
Qed.

(** A new command on the network. *)
Lemma inv_send s k c :
  cluster_inv s ->
  (forall t, cmd_tree c = Some t -> exists h, clients s !! k = Some h /\ request_ok h t /\
     forall j t', sent_tree (sent s) j k t' -> rpc_number (exactly_once t') < rpc_number (exactly_once t)) ->
  cluster_inv (s <| sent := sent s ++ [(k, c)] |>).
Proof.
  intros Hinv Hc. destruct (Hinv). constructor; simpl; try assumption.
  - intros i j Hij. destruct (i_log0 _ _ Hij). rewrite length_app. lia.
  - intros j r Hjr. specialize (i_replies0 _ _ Hjr). rewrite length_app. lia.
  - intros k1 h1 Hk1 Hne. destruct (i_id0 _ _ Hk1 Hne) as (j & c' & Hij & Hj). exists j, c'.
    split; [done|]. by apply lookup_app_l_Some.
  - intros j k1 t [Hs|(_ & -> & Ht)]%sent_tree_snoc; [by apply (i_sent0 j)|].
    destruct (Hc _ Ht) as (h & Hk & Hreq & _). by exists h.
  - intros j j' k1 t t' [Hs|(_ & -> & Ht)]%sent_tree_snoc [Hs'|(_ & Hk' & Ht')]%sent_tree_snoc Hn.
    + by eapply i_unique0.
    + subst. destruct (Hc _ Ht') as (_ & _ & _ & Hlt). specialize (Hlt _ _ Hs). lia.
    + destruct (Hc _ Ht) as (_ & _ & _ & Hlt). specialize (Hlt _ _ Hs'). lia.
    + congruence.
  - intros cid ses Hses. destruct (i_first0 _ _ Hses) as [?|(j & k1 & t & Hs & ? & ?)]; [by left|right].
    exists j, k1, t. split; [|done]. apply sent_tree_snoc. by left.
  - intros t r Hin. destruct (i_executed0 _ _ Hin) as [(j & k1 & Hs) Hr]. split; [|done].
    exists j, k1. apply sent_tree_snoc. by left.
  - intros i j k1 t Hij [Hs|(-> & _ & _)]%sent_tree_snoc; [by eapply i_done0|].
    apply i_log0 in Hij. lia.
  - intros j r k1 c1 Hjr. rewrite lookup_snoc_old by (by eapply i_replies0). by apply i_open_reply0.
  - intros j r k1 t h1 Hjr [Hs|(-> & _ & _)]%sent_tree_snoc; [by apply (i_reply0 j)|].
    apply i_replies0 in Hjr. lia.
  - intros t r Hin. destruct (i_returned0 _ _ Hin) as [(j & k1 & Hs) Hr]. split; [|done].
    exists j, k1. apply sent_tree_snoc. by left.
Qed.

(** Two clients do not share a session. *)
Lemma clients_differ s k k' (h h' : Helper) :
  cluster_inv s -> clients s !! k = Some h -> clients s !! k' = Some h' ->
  clientId h <> 0 -> clientId h = clientId h' -> k = k'.
Proof.
  intros Hinv Hk Hk' Hne Heq.
  destruct (i_id _ Hinv _ _ Hk Hne) as (j & c & Hij & Hj).
  destruct (i_id _ Hinv _ _ Hk' ltac:(congruence)) as (j' & c' & Hij' & Hj').
  rewrite Heq in Hij. pose proof (i_log_once _ Hinv _ _ _ Hij Hij'). subst j'. congruence.
Qed.

Lemma sent_id s j k t :
  cluster_inv s -> sent_tree (sent s) j k t -> 0 < client_id (exactly_once t) <= lastIndex s.
Proof.
  intros Hinv Hs. destruct (i_sent _ Hinv _ _ _ Hs) as (h & Hk & [Hid Hne _ _ _ _]).
  destruct (i_id _ Hinv _ _ Hk Hne) as (j' & c & Hij & _). apply (i_log _ Hinv) in Hij as [Hle _].
  pose proof (h_clientId _ (i_helper _ Hinv _ _ Hk)). lia.
Qed.

(** A key names one request. *)
Lemma key_inj s j k t j' k' t' :
  cluster_inv s -> sent_tree (sent s) j k t -> sent_tree (sent s) j' k' t' -> key t = key t' -> t = t'.
Proof.
  intros Hinv Hs Hs' [= Hid Hn].
  destruct (i_sent _ Hinv _ _ _ Hs) as (h & Hk & [Hq Hne _ _ _ _]).
  destruct (i_sent _ Hinv _ _ _ Hs') as (h' & Hk' & [Hq' _ _ _ _ _]).
  assert (k = k') as <- by (eapply clients_differ; [done..|congruence]).
  by eapply i_unique.
Qed.

Lemma status_of_reply s k p m r :
  status_of s k p m = Some (RPC_OK r) ->
  exists j c, (j, r) ∈ replies s /\ sent s !! j = Some (k, c) /\ p j c = true.
Proof.
  unfold status_of. destruct m as [m|]; [|done]. intros Hr.
  destruct (replies s !! m) as [[j r']|] eqn:Hm; [|done]. simpl in Hr.
  destruct (sent s !! j) as [[k' c]|] eqn:Hj; [|done]. simpl in Hr. case_guard as Hg; [|done]. simpl in Hr. injection Hr as <-.
  destruct Hg as [-> Hp]. exists j, c. split; [by eapply list_elem_of_lookup_2|done].
Qed.

Lemma inv_begin s k now m t s' :
  cluster_inv s -> step opts s (Begin k now m t) = Some s' -> cluster_inv s'.
Proof.
  intros Hinv. simpl. destruct (clients s !! k) as [h|] eqn:Hk; [|done]. simpl.
  intros Hstep. case_guard as Hg; [|done]. destruct Hg as [Hlt Hop]. simpl in Hstep.
  destruct (status_of s k _ m) as [status|] eqn:Hstatus; [|done]. simpl in Hstep.
  destruct (at_client _ now status h) as [[i h']|] eqn:Hrun; [|done]. simpl in Hstep.
  pose proof (i_helper _ Hinv _ _ Hk) as Hok. pose proof Hok as [Hh1 Hh2 Hh3 Hh4].
  destruct (at_client_getRPCInfo _ _ _ _ _ Hok Hlt Hrun)
    as [(Hz & Hid & Hn & Ho)|(Hz & Hid & Hfrom & Hpos & Hnum & Hn & Ho & Hfirst)].
  - rewrite Hz in Hstep. simpl in Hstep. injection Hstep as <-.
    apply (inv_update_client s k h); [done|done| |lia|by left|rewrite Ho; by left].
    constructor; rewrite ?Hid, ?Hn, ?Ho; auto.
  - rewrite (proj2 (Z.eqb_neq _ _)) in Hstep by done. injection Hstep as <-.
    assert (helper_ok h') as Hok'.
    { constructor; rewrite ?Hid, ?Hn, ?Ho; [lia|lia| |lia].
      intros x [->%elem_of_singleton|Hx%Hh3]%elem_of_union; lia. }
    set (s1 := s <| clients := _ |>). change (sent s) with (sent s1). apply inv_send.
    + apply (inv_update_client s k h); [done|done|done|lia| |].
      * destruct Hfrom as [Hfrom|(Hfrom & r & -> & Hr)]; [left; congruence|right]. split; [done|].
        apply status_of_reply in Hstatus as (j & c & Hjr & Hj & Hc).
        destruct (i_open_reply _ Hinv _ _ _ _ Hjr Hj Hc) as (x & Hx & Hrx).
        exists j, c. rewrite Hid. split; [|done]. congruence.
      * rewrite Ho. intros x [->%elem_of_singleton|Hx]%elem_of_union; [right; lia|by left].
    + intros t' [= <-]. exists h'. simpl. rewrite lookup_insert_eq. split; [done|]. split.
      * assert (first_outstanding_rpc i <= nextRPCNumber h) as Hle by (apply Hfirst; rewrite Ho; set_solver).
        constructor; simpl; [done|congruence|done|lia| |lia]. split; [lia|done].
      * intros j t' Hs. destruct (i_sent _ Hinv _ _ _ Hs) as (h1 & Hk1 & Hreq).
        assert (h1 = h) as -> by congruence. rewrite Hnum. apply Hreq.
Qed.

Lemma inv_return s k j now m s' :
  cluster_inv s -> step opts s (Return k j now m) = Some s' -> cluster_inv s'.
Proof.
  intros Hinv. simpl. destruct (clients s !! k) as [h|] eqn:Hk; [|done]. simpl.
  destruct (sent s !! j) as [[k' c]|] eqn:Hj; [|done]. simpl.
  destruct (cmd_tree c) as [t|] eqn:Ht; [|done]. simpl.
  intros Hstep. case_guard as Hg; [|done]. destruct Hg as [-> Hout]. simpl in Hstep.
  destruct (status_of s k _ m) as [status|] eqn:Hstatus; [|done]. simpl in Hstep.
  destruct (at_client _ now status h) as [[r h']|] eqn:Hrun; [|done]. simpl in Hstep. injection Hstep as <-.
  assert (sent_tree (sent s) j k t) as Hs by (by exists c).
  destruct (i_sent _ Hinv _ _ _ Hs) as (h1 & Hk1 & Hreq). assert (h1 = h) as -> by congruence.
  assert (client_id (exactly_once t) <> 0) as Hne by (destruct Hreq; congruence).
  destruct (at_client_Return _ _ _ _ _ _ Hne Hrun) as [-> Hr].
  pose proof (i_helper _ Hinv _ _ Hk) as [Hh1 Hh2 Hh3 Hh4].
  set (h' := h <| outstandingRPCNumbers := _ |>).
  assert (cluster_inv (s <| clients := <[k := h']> (clients s) |>)) as Hinv'.
  { apply (inv_update_client s k h); [done|done| |done|by left|].
    - constructor; simpl; [done|done| |].
      + intros x [Hx _]%elem_of_difference. by apply Hh3.
      + intros Hz%Hh4. rewrite Hz. set_solver.
    - simpl. intros x [Hx _]%elem_of_difference. by left. }
  destruct Hinv'. constructor; simpl in *; try assumption.
  intros t' r' [Hin|Hin]%elem_of_app; [by apply i_returned0|].
  apply list_elem_of_singleton in Hin. injection Hin as -> ->.
  split; [by exists j, k|]. destruct status as [resp| |]; [|by left|done]. right.
  apply status_of_reply in Hstatus as (j' & c' & Hjr & Hj' & Heq). apply Nat.eqb_eq in Heq as ->.
  destruct (i_reply _ Hinv j resp k t h) as (r' & -> & Hans); [done..|]. by subst r.
Qed.

(** ** The actions of the servers keep the invariant *)

Lemma waitForResponse_session i c s :
  is_open_session c = true -> forall r s', waitForResponse i c [] s = Ok (Some r, s') -> resp_open_session r = Some i.
Proof.
  unfold is_open_session. destruct (cmd_tree c) eqn:Ht; [done|]. destruct (cmd_open_session c) eqn:Ho; [|done].
  intros _ r s'. unfold waitForResponse. rewrite Ht, Ho.
  intros ([] & s1 & _ & Hrun)%bind_Ok. apply bind_Ok in Hrun as (v & s2 & _ & Hrun).
  apply bind_Ok in Hrun as (s3 & s4 & _ & Hrun). by injection Hrun as <- _.
Qed.

Lemma waitForResponse_tree i c t s r s' :
  cmd_tree c = Some t -> waitForResponse i c [] s = Ok (Some r, s') ->
  r = match sessions s !! client_id (exactly_once t) with
      | Some ses => default (response_of session_expired) (responses ses !! rpc_number (exactly_once t))
      | None => response_of session_expired
      end.
Proof.
  intros Ht. unfold waitForResponse, wait_while, getVersion, bind, get. rewrite Ht.
  destruct (lastApplied s <? i); [done|]. cbn. destruct (om_before _ _) as [[i' v]|]; [|done]. cbn.
  destruct (sessions s !! _) as [ses|]; [|by intros [= <- _]].
  destruct (responses ses !! _); by intros [= <- _].
Qed.

Lemma first_le s k (h : Helper) j t ses m :
  cluster_inv s -> clients s !! k = Some h -> sent_tree (sent s) j k t ->
  sessions (sm s) !! client_id (exactly_once t) = Some ses -> m ∈ outstandingRPCNumbers h ->
  firstOutstandingRPC ses <= m.
Proof.
  intros Hinv Hk Hs Hses Hm. pose proof (i_helper _ Hinv _ _ Hk) as [_ _ Hout _].
  destruct (i_first _ Hinv _ _ Hses) as [->|(j' & k' & t' & Hs' & Hid' & ->)]; [apply Hout in Hm; lia|].
  destruct (i_sent _ Hinv _ _ _ Hs) as (h1 & Hk1 & [Hq Hne _ _ _ _]). assert (h1 = h) as -> by congruence.
  destruct (i_sent _ Hinv _ _ _ Hs') as (h' & Hk' & [Hq' _ _ _ Hlow _]).
  assert (k' = k) as -> by (symmetry; apply (clients_differ s k k' h h'); [done..|congruence]).
  assert (h' = h) as -> by congruence. by apply Hlow.
Qed.

Lemma inv_answer s a s' :
  cluster_inv s -> step opts s (Answer a) = Some s' -> cluster_inv s'.
Proof.
  intros Hinv. simpl. destruct (applied s !! a) as [[i j]|] eqn:Ha; [|done]. simpl.
  destruct (sent s !! j) as [[k c]|] eqn:Hj; [|done]. simpl.
  destruct (waitForResponse i c [] (sm s)) as [[[r|] s1]|] eqn:Hw; [|done..]. intros [= <-].
  apply list_elem_of_lookup_2 in Ha.
  destruct (Hinv). constructor; simpl; try assumption.
  - intros j' r' [Hin|Hin]%elem_of_app; [by eapply i_replies0|].
    apply list_elem_of_singleton in Hin. injection Hin as -> ->. by apply lookup_lt_Some in Hj.
  - intros j' r' k' c' [Hin|Hin]%elem_of_app; [by apply i_open_reply0|].
    apply list_elem_of_singleton in Hin. injection Hin as -> ->. rewrite Hj. intros [= <- <-] Hopen.
    exists i. split; [done|]. by eapply waitForResponse_session.
  - intros j' r' k' t h [Hin|Hin]%elem_of_app Hs Hk Hm; [by apply (i_reply0 j' r' k' t h)|].
    apply list_elem_of_singleton in Hin. injection Hin as -> ->.
    destruct Hs as (c' & Hj' & Ht). rewrite Hj in Hj'. injection Hj' as -> ->.
    assert (sent_tree (sent s) j k' t) as Hs by (by exists c').
    pose proof (waitForResponse_tree _ _ _ _ _ _ Ht Hw) as ->. unfold answered. simpl.
    destruct (sessions (sm s) !! _) as [ses|] eqn:Hses.
    2: { exists session_expired. split; [done|]. by right. }
    pose proof (first_le _ _ _ _ _ _ _ Hinv Hk Hs Hses Hm) as Hle.
    destruct (i_done0 _ _ _ _ Ha Hs) as [[r Hr]|Hlt]; [|specialize (Hlt _ Hses); lia].
    destruct (i_executed0 _ _ Hr) as [_ Hrec]. rewrite (Hrec _ Hses Hle). exists r. split; [done|]. by left.
Qed.

(** A session that is gone stays gone. *)
Lemma session_gone s sm' idx c :
  evolves idx s sm' -> c <> idx -> sessions s !! c = None -> sessions sm' !! c = None.
Proof.
  intros Hev Hc Hnone. destruct (sessions sm' !! c) as [ses|] eqn:Hs; [|done].
  destruct (Hev _ _ Hc Hs) as (ses0 & H0' & _). congruence.
Qed.

(** What a server's next entry may do: execute at most one request, one that
    was sent and had not been executed. *)
Record applies (s : Cluster) (sm' : StateMachine) (c : option Command_Request)
    (ex : list (ReadWriteTree_Request * ReadWriteTree_Response)) : Prop := {
  a_last : lastIndex s < u64_max;
  a_inv : sm_inv (lastIndex s + 1) sm';
  a_applied : lastApplied sm' = lastIndex s + 1;
  a_evolves : evolves (lastIndex s + 1) (sm s) sm';
  a_from : sessions_from (lastIndex s + 1) c ex (sm s) sm';
  a_tree : ex = [] /\ tree sm' = tree (sm s) \/
    exists t r j k, ex = [(t, r)] /\ readWriteTreeRPC t (tree (sm s)) = Ok (r, tree sm') /\
      sent_tree (sent s) j k t /\ (key t ∉ map (fun p => key p.1) (executed s)) /\
      recorded (client_id (exactly_once t)) (rpc_number (exactly_once t)) (response_of r) sm'
}.

Lemma inv_applies s sm' c ex new :
  cluster_inv s -> applies s sm' c ex ->
  (new = [] /\ c = None \/
   exists j k c', new = [(lastIndex s + 1, j)] /\ sent s !! j = Some (k, c') /\ c = Some c' /\
     forall t, cmd_tree c' = Some t -> (exists r, (t, r) ∈ executed s ++ ex) \/
       forall ses, sessions sm' !! client_id (exactly_once t) = Some ses ->
                   rpc_number (exactly_once t) < firstOutstandingRPC ses) ->
  cluster_inv (s <| sm := sm' |> <| lastIndex := lastIndex s + 1 |>
                 <| applied := applied s ++ new |> <| executed := executed s ++ ex |>).
Proof.
  intros Hinv [Hlast Hsm Happ Hev Hfrom Htree] Hnew.
  assert (forall j k t, sent_tree (sent s) j k t -> client_id (exactly_once t) <> lastIndex s + 1) as Hold.
  { intros j k t Hs. pose proof (sent_id _ _ _ _ Hinv Hs). lia. }
  assert (forall t r, answered s t r -> client_id (exactly_once t) <> lastIndex s + 1 ->
    (t, r) ∈ executed s ++ ex \/ sessions sm' !! client_id (exactly_once t) = None /\ r = session_expired) as Hans.
  { intros t r [Hin|[Hnone ->]] Hne; [left; set_solver|right]. split; [|done]. by eapply session_gone. }
  assert (forall i j, (i, j) ∈ applied s ++ new -> i <= lastIndex s + 1 /\ (j < length (sent s))%nat) as Hlog.
  { intros i j [Hij%(i_log _ Hinv)|Hij]%elem_of_app; [lia|].
    destruct Hnew as [[-> _]|(j' & k & c' & -> & Hj & _)]; [set_solver|].
    apply list_elem_of_singleton in Hij as [= -> ->]. apply lookup_lt_Some in Hj. lia. }
  destruct (Hinv). constructor; simpl; try assumption.
  - lia.
  - intros i j j' Hij Hij'. destruct Hnew as [[-> _]|(j0 & k & c' & -> & _)].
    { rewrite app_nil_r in *. by eapply i_log_once0. }
    apply elem_of_app in Hij, Hij'. rewrite !list_elem_of_singleton in Hij, Hij'.
    destruct Hij as [Hij|[= -> ->]], Hij' as [Hij'|Heq]; [by eapply i_log_once0|..|by injection Heq].
    + injection Heq as -> ->. apply i_log0 in Hij. lia.
    + apply i_log0 in Hij'. lia.
  - intros k h Hk Hne. destruct (i_id0 _ _ Hk Hne) as (j & c' & Hij & Hj). exists j, c'.
    split; [apply elem_of_app; by left|done].
  - intros cid ses Hses. destruct (Hfrom _ _ Hses) as [(_ & -> & _)|(ses0 & Hs0 & Hf & _)]; [by left|].
    destruct Hf as [->|(c' & t & -> & Ht & Hid & ->)]; [by apply i_first0|right].
    destruct Hnew as [[_ Heq]|(j & k & c1 & _ & Hj & [= ->] & _)]; [done|].
    exists j, k, t. split; [by exists c1|done].
  - intros cid ses n r Hses Hr. destruct (Hfrom _ _ Hses) as [(_ & _ & Hnone)|(ses0 & Hs0 & _ & Hresp)].
    { by rewrite Hnone in Hr. }
    destruct (Hresp _ _ Hr) as [Hr0|(t & r' & Hin & Hk & ->)].
    + destruct (i_response0 _ _ _ _ Hs0 Hr0) as (t & r' & Hin & Hk & ->). exists t, r'. set_solver.
    + exists t, r'. set_solver.
  - intros t r [Hin|Hin]%elem_of_app.
    + destruct (i_executed0 _ _ Hin) as [(j & k & Hs) Hrec]. split; [by exists j, k|].
      eapply recorded_evolves; [|done|done]. by eapply Hold.
    + destruct Htree as [[-> _]|(t1 & r1 & j & k & -> & _ & Hs & _ & Hrec)]; [set_solver|].
      apply list_elem_of_singleton in Hin as [= -> ->]. split; [by exists j, k|done].
  - rewrite map_app. destruct Htree as [[-> _]|(t1 & r1 & j & k & -> & _ & _ & Hnin & _)].
    + by rewrite app_nil_r.
    + apply NoDup_app. split; [done|]. split; [|apply NoDup_singleton].
      intros x Hx ->%list_elem_of_singleton. done.
  - destruct Htree as [[-> ->]|(t1 & r1 & j & k & -> & Hrun & _)]; [by rewrite app_nil_r|].
    by eapply sequential_snoc.
  - intros i j k t [Hij|Hij]%elem_of_app Hs.
    + destruct (i_done0 _ _ _ _ Hij Hs) as [[r Hr]|Hlt]; [left; exists r; set_solver|right].
      intros ses Hses. destruct (Hev _ _ (Hold _ _ _ Hs) Hses) as (ses0 & Hs0 & Hf & _).
      specialize (Hlt _ Hs0). lia.
    + destruct Hnew as [[-> _]|(j' & k' & c' & -> & Hj & _ & Hdone)]; [set_solver|].
      apply list_elem_of_singleton in Hij as [= -> ->]. destruct Hs as (c1 & Hj1 & Ht).
      apply Hdone. congruence.
  - intros j r k c' Hjr Hj Hopen. destruct (i_open_reply0 _ _ _ _ Hjr Hj Hopen) as (i & Hij & Hr).
    exists i. split; [set_solver|done].
  - intros j r k t h Hjr Hs Hk Hm. destruct (i_reply0 _ _ _ _ _ Hjr Hs Hk Hm) as (r' & -> & Ha).
    exists r'. split; [done|]. apply Hans; [done|]. by eapply Hold.
  - intros t r Hin. destruct (i_returned0 _ _ Hin) as [(j & k & Hs) Hr]. split; [by exists j, k|].
    destruct Hr as [Hr|Hr]; [by left|right]. apply Hans; [done|]. by eapply Hold.
Qed.

Lemma do_apply_some s now e s' :
  do_apply opts s now e = Some s' ->
  lastIndex s < u64_max /\ exists sm', applyEntry opts now e (sm s) = Ok (tt, sm') /\
    s' = s <| sm := sm' |> <| lastIndex := entry_index e |>.
Proof.
  unfold do_apply. intros Hs. case_guard as Hlt; [|done]. simpl in Hs.
  destruct (applyEntry opts now e (sm s)) as [[[] sm']|]; [|done]. injection Hs as <-. split; [done|].
  by exists sm'.
Qed.

(** An entry without a command. *)
Lemma inv_skip s now ct s' :
  cluster_inv s -> step opts s (ApplySkip now ct) = Some s' -> cluster_inv s'.
Proof.
  intros Hinv. simpl. intros (Hlast & sm' & Hrun & ->)%do_apply_some. simpl.
  set (e := mkEntry _ _ _ _ _) in *.
  pose proof (inv_applied _ _ (i_sm _ Hinv)) as Hpos.
  destruct (applyEntry_inv opts (lastIndex s) now e _ _ (i_sm _ Hinv)
    ltac:(simpl; lia) ltac:(done) Hrun) as [Hsm Happ].
  pose proof (proj1 (post_run _ _ _) (evolves_applyEntry opts now e (sm s) ltac:(done)) _ _ Hrun) as Hev.
  assert (sm' = expireSessions ct (sm s) <| lastApplied := lastIndex s + 1 |>) as Hsm'.
  { unfold applyEntry in Hrun. simpl in Hrun. by injection Hrun as <-. }
  assert (applies s sm' None []) as Happlies.
  { constructor; [done|done|done|done| |].
    - subst sm'. apply (sessions_from_expire _ _ _ _ (sm s) ct), sessions_from_subset. done.
    - left. by subst sm'. }
  pose proof (inv_applies s sm' None [] [] Hinv Happlies ltac:(by left)) as Hinv'.
  rewrite !app_nil_r in Hinv'. by destruct s.
Qed.

(** The next command of the log. *)
Lemma inv_apply s j now ct s' :
  cluster_inv s -> step opts s (Apply j now ct) = Some s' -> cluster_inv s'.
Proof.
  intros Hinv. simpl. destruct (sent s !! j) as [[k c]|] eqn:Hj; [|done]. simpl.
  destruct (do_apply _ _ _ _) as [s1|] eqn:Hdo; [|done]. simpl. intros [= <-].
  apply do_apply_some in Hdo as (Hlast & sm' & Hrun & ->). simpl.
  set (e := log_entry s c ct) in *.
  pose proof (inv_applied _ _ (i_sm _ Hinv)) as Hpos.
  destruct (applyEntry_inv opts (lastIndex s) now e _ _ (i_sm _ Hinv)
    ltac:(simpl; lia) ltac:(done) Hrun) as [Hsm Happ].
  pose proof (proj1 (post_run _ _ _) (evolves_applyEntry opts now e (sm s) ltac:(done)) _ _ Hrun) as Hev.
  pose proof (sessions_from_apply s c ct now sm' (i_sm _ Hinv) Hlast Hrun) as Hfrom.
  assert (parsed e = Some c) as Hp by apply parsed_log_entry.
  assert (lastIndex s < entry_index e) as Hidx by (simpl; lia).
  apply (inv_applies s sm' (Some c) (execution s e c) [(lastIndex s + 1, j)] Hinv).
  - constructor; [done|done|done|done|done|]. unfold execution.
    destruct (cmd_tree c) as [t|] eqn:Ht; [destruct (executes (sm s) e) eqn:Hex|].
    2,3: left; split; [done|]; refine (proj1 (post_run _ _ _) (not_executes_tree opts now e (sm s) _ ltac:(done)) _ _ Hrun).
    2: done.
    2: unfold executes; by rewrite Hp, Ht.
    right. destruct (executes_effect opts _ _ _ _ _ _ _ (i_sm _ Hinv) Hidx Hp Ht Hex Hrun)
      as (Hc & r & Hr & Hrec). rewrite Hr.
    exists t, r, j, k. split; [done|]. split; [done|]. split; [by exists c|]. split; [|done].
    intros Hin. apply list_elem_of_fmap in Hin as ([t0 r0] & Hkey & Hin). simpl in Hkey.
    destruct (i_executed _ Hinv _ _ Hin) as [_ Hrec0]. injection Hkey as Hid Hn.
    rewrite <-Hid, <-Hn in Hrec0. pose proof (recorded_not_executed _ _ _ _ _ Hp Ht Hrec0). congruence.
  - right. exists j, k, c. split; [done|]. split; [done|]. split; [done|]. intros t Ht.
    destruct (executes (sm s) e) eqn:Hex.
    { left. destruct (executes_effect opts _ _ _ _ _ _ _ (i_sm _ Hinv) Hidx Hp Ht Hex Hrun)
        as (Hc & r & Hr & Hrec). exists r. unfold execution. rewrite Ht, Hex, Hr. set_solver. }
    assert (sent_tree (sent s) j k t) as Hs by (by exists c).
    pose proof (sent_id _ _ _ _ Hinv Hs) as Hid.
    destruct (sessions (sm s) !! client_id (exactly_once t)) as [ses0|] eqn:Hses0.
    2: { right. intros ses Hses. destruct (Hev (client_id (exactly_once t)) ses ltac:(simpl; lia) Hses) as (? & ? & _). congruence. }
    unfold executes in Hex. rewrite Hp, Ht in Hex. simpl in Hex. unfold current_session in Hex.
    rewrite Hses0 in Hex. simpl in Hex. apply not_true_iff_false in Hex. rewrite is_new_spec in Hex.
    destruct (expireResponses_spec ses0 (first_outstanding_rpc (exactly_once t)) (rpc_number (exactly_once t))) as [Hresp Hf].
    rewrite Hf, Hresp in Hex. destruct (i_sent _ Hinv _ _ _ Hs) as (h & Hk & [_ _ _ _ _ Hself]).
    destruct (decide (rpc_number (exactly_once t) < firstOutstandingRPC ses0)) as [Hlt|Hge].
    { right. intros ses Hses. destruct (Hev (client_id (exactly_once t)) ses ltac:(simpl; lia) Hses) as (ses1 & Hs1 & Hle & _).
      assert (ses1 = ses0) as -> by congruence. lia. }
    rewrite decide_False in Hex by lia.
    destruct (responses ses0 !! _) as [r|] eqn:Hr; [|exfalso; apply Hex; split; [lia|done]].
    destruct (i_response _ Hinv _ _ _ _ Hses0 Hr) as (t' & r' & Hin & Hkey & _). left. exists r'.
    destruct (i_executed _ Hinv _ _ Hin) as [(j' & k' & Hs') _].
    assert (t' = t) as -> by (by eapply key_inj). set_solver.
Qed.

Lemma inv_step s a s' : cluster_inv s -> step opts s a = Some s' -> cluster_inv s'.
Proof.
  intros Hinv. destruct a as [k closeTimeout|k c|k now m t|j now ct|now ct|a|k j now m].
  - simpl. intros Hstep. case_guard as Hk; [|done]. injection Hstep as <-.
    destruct (Hinv). constructor; simpl; try assumption.
    + intros k1 h1. rewrite lookup_insert. case_decide; [intros [= <-]|apply i_helper0].
      constructor; simpl; [lia|unfold u64_max; lia|set_solver|done].
    + intros k1 h1. rewrite lookup_insert. case_decide; [by intros [= <-]|apply i_id0].
    + intros j k1 t Hs. destruct (i_sent0 _ _ _ Hs) as (h1 & Hk1 & Hreq). exists h1.
      by rewrite lookup_insert_ne by congruence.
    + intros j r k1 t h1 Hr Hs. rewrite lookup_insert. case_decide; [intros [= <-]; set_solver|].
      by apply (i_reply0 j).
  - simpl. intros Hstep. case_guard as Hk; [|done]. injection Hstep as <-.
    apply inv_send; [done|]. intros t Ht. congruence.
  - by apply inv_begin.
  - by apply inv_apply.
  - by apply inv_skip.
  - by apply inv_answer.
  - by apply inv_return.
Qed.

Lemma inv_run l s s' : cluster_inv s -> run opts l s = Some s' -> cluster_inv s'.
Proof.
  revert s. induction l as [|a l IH]; intros s Hinv; simpl; [by intros [= <-]|].
  destruct (step opts s a) as [s1|] eqn:Hstep; [|done]. simpl. apply IH. by eapply inv_step.
Qed.

(** C4: exactly-once semantics, end to end. However requests are repeated,
    delayed and lost, however calls time out and sessions come and go: the tree
    is that of the executed requests run one after the other, each a request of
    some client and none executed twice; and what a call returned is a timeout,
    or the response of that one execution, or, if the session is gone, that it
    expired (whereupon the library gives up). *)
Theorem exactly_once_end_to_end l s :
  run opts l Cluster_init = Some s ->
  sequential Tree_init (executed s) (tree (sm s)) /\
  NoDup (map (fun p => key p.1) (executed s)) /\
  (forall t r, (t, r) ∈ executed s -> exists j k, sent_tree (sent s) j k t) /\
  forall t r, (t, r) ∈ returned s ->
    rwr_status r = Some PC_TIMEOUT \/ (t, r) ∈ executed s \/
    sessions (sm s) !! client_id (exactly_once t) = None /\ r = session_expired.
Proof.
  intros Hrun. pose proof (inv_run _ _ _ inv_init Hrun) as Hinv.
  split; [apply Hinv|]. split; [apply Hinv|]. split.
  - intros t r Hin. by apply (i_executed _ Hinv) in Hin as [? _].
  - intros t r Hin. by apply (i_returned _ Hinv) in Hin as [_ ?].
Qed.

(** The commands that a client library sends: requests on the tree, and those
    that open a session and close one (of whatever number). *)
Definition library_command (c : Command_Request) : Prop :=
  is_Some (cmd_tree c) \/ c = open_session_request \/ exists clientId, c = close_session_request clientId.

(** C40: Nothing that a client library sends can stop the servers. In every state
    that a run reaches, the next entry of the log may hold any command that was
    sent, a request on the tree or the opening or closing of a session, however
    often it was applied before and whatever became of the session, and the
    state machine applies it without a fault. *)
Theorem client_requests_apply l s j k c now ct :
  run opts l Cluster_init = Some s -> sent s !! j = Some (k, c) -> library_command c -> lastIndex s < u64_max ->
  exists s', step opts s (Apply j now ct) = Some s' /\ lastIndex s' = lastIndex s + 1.
Proof.
  intros Hrun Hj Hc Hlast. pose proof (inv_run _ _ _ inv_init Hrun) as Hinv.
  set (e := log_entry s c ct). simpl. rewrite Hj. simpl. fold e. unfold do_apply.
  rewrite option_guard_True by done. simpl.
  pose proof (inv_applied _ _ (i_sm _ Hinv)) as Hpos.
  pose proof (apply_ok opts (lastIndex s) now e (sm s) (i_sm _ Hinv) ltac:(simpl; lia) eq_refl) as Hok.
  assert (acceptable (sm s) e = true) as Hacc.
  { unfold acceptable. rewrite (parsed_log_entry s c ct : parsed e = Some c).
    destruct Hc as [[t Ht]|[->|[id ->]]]; [|done|done]. rewrite Ht. unfold has_operation.
    destruct (i_sent _ Hinv j k t) as (h & _ & Hreq); [by exists c|].
    pose proof (q_op _ _ Hreq) as Hop. unfold has_op in Hop. destruct (rw_op t); [|done].
    by rewrite orb_true_r, orb_true_r. }
  rewrite Hacc in Hok. apply safe_run in Hok as ([] & s1 & Hrun1 & _).
  unfold applyEntry. simpl. unfold bind at 1. rewrite Hrun1. eexists. split; [reflexivity|done].
Qed.
End Invariant.
