(* ===== verification/ClientDemo.v ===== *)
(** * A run of clients and servers

    A client whose request reaches the log twice and whose answer comes from
    the second entry, and one that gives up; the concrete codec stands for the
    protobuf library's. *)

From Stdlib Require Import ZArith Lia Ascii String.
From stdpp Require Import countable base gmap strings list fin_maps sorting.
From S2P Require Import Prelude OrderedMap StringUtil Stream SnapshotFile Printf Consensus Log ClientProto Tree TreeSpec TreeSnapshot TreeRPC StateMachine StateMachineSpec StateMachineDemo Client ClientSpec ClientSystem.
Local Open Scope string_scope.
Local Open Scope Z_scope.
Local Open Scope list_scope.
Import TreeSnapshot.Demo DemoHeader.

(** ** A codec for commands *)

#[export] Instance ExactlyOnceRPCInfo_eq_dec : EqDecision ExactlyOnceRPCInfo.
Proof. solve_decision. Defined.
#[export] Instance ExactlyOnceRPCInfo_countable : Countable ExactlyOnceRPCInfo.
Proof.
  by refine (inj_countable' (fun r => (client_id r, first_outstanding_rpc r, rpc_number r))
    (fun p => mkExactlyOnceRPCInfo p.1.1 p.1.2 p.2) _); intros [].
Defined.
#[export] Instance TreeCondition_eq_dec : EqDecision TreeCondition.
Proof. solve_decision. Defined.
#[export] Instance TreeCondition_countable : Countable TreeCondition.
Proof.
  by refine (inj_countable' (fun r => (cond_path r, cond_contents r))
    (fun p => mkTreeCondition p.1 p.2) _); intros [].
Defined.
#[export] Instance ReadWriteTree_Request_eq_dec : EqDecision ReadWriteTree_Request.
Proof. solve_decision. Defined.
#[export] Instance ReadWriteTree_Request_countable : Countable ReadWriteTree_Request.
Proof.
  by refine (inj_countable'
    (fun r => (exactly_once r, rw_condition r, make_directory r, remove_directory r, write_ r, remove_file r))
    (fun p => mkReadWriteTree_Request p.1.1.1.1.1 p.1.1.1.1.2 p.1.1.1.2 p.1.1.2 p.1.2 p.2) _); intros [].
Defined.
#[export] Instance Command_Request_eq_dec : EqDecision Command_Request.
Proof. solve_decision. Defined.
#[export] Instance Command_Request_countable : Countable Command_Request.
Proof.
  by refine (inj_countable' (fun r => (cmd_open_session r, cmd_close_session r, cmd_tree r, cmd_advance_version r))
    (fun p => mkCommand_Request p.1.1.1 p.1.1.2 p.1.2 p.2) _); intros [].
Defined.

#[local] Instance command_codec : ProtoBuf Command_Request := countable_protobuf Command_Request.
#[local] Instance command_codec_laws : ProtoBufLaws Command_Request := countable_protobuf_laws Command_Request.

(** ** The run *)

Definition anyone : ExactlyOnceRPCInfo := mkExactlyOnceRPCInfo 0 0 0.

Definition write_f : ReadWriteTree_Request :=
  mkReadWriteTree_Request anyone None None None (Some ("/f", "x")) None.

Definition remove_f : ReadWriteTree_Request :=
  mkReadWriteTree_Request anyone None None None None (Some "/f").

Definition demo_actions : list action :=
  [NewClient 0 1000;
   NewClient 1 1000;
   SendCommand 0 open_session_request;
   Apply 0 10 100;
   Answer 0;
   Begin 0 11 (Some 0%nat) write_f;
   Begin 0 12 None remove_f;
   Apply 1 12 101;
   Apply 1 13 102;
   Return 0 2 14 None;
   Begin 1 14 None write_f;
   Answer 2;
   Return 0 1 15 (Some 1%nat);
   Apply 2 15 103].

Definition demo_end : Cluster := default Cluster_init (run Options_default demo_actions Cluster_init).

Definition written : ReadWriteTree_Request :=
  mkReadWriteTree_Request (mkExactlyOnceRPCInfo 1 1 1) None None None (Some ("/f", "x")) None.
Definition removed : ReadWriteTree_Request :=
  mkReadWriteTree_Request (mkExactlyOnceRPCInfo 1 1 2) None None None None (Some "/f").

Lemma demo_run : run Options_default demo_actions Cluster_init = Some demo_end.
Proof.
  assert (match run Options_default demo_actions Cluster_init with Some _ => true | None => false end = true) as Hrun
    by (vm_compute; reflexivity).
  unfold demo_end. by destruct (run _ _ _).
Qed.

(** The write was applied twice and executed once; the removal, which its
    caller gave up on, still happened. *)
Example demo_history :
  executed demo_end = [(written, mkReadWriteTree_Response (Some PC_OK) None);
                       (removed, mkReadWriteTree_Response (Some PC_OK) None)] /\
  returned demo_end = [(removed, mkReadWriteTree_Response (Some PC_TIMEOUT) (Some "Client-specified timeout elapsed"));
                       (written, mkReadWriteTree_Response (Some PC_OK) None)] /\
  applied demo_end = [(1, 0%nat); (2, 1%nat); (3, 1%nat); (4, 2%nat)].
Proof. vm_compute. repeat split. Qed.

Lemma exactly_once_end_to_end_witness :
  sequential Tree_init (executed demo_end) (tree (sm demo_end)) /\
  NoDup (map (fun p => key p.1) (executed demo_end)) /\
  (forall t r, (t, r) ∈ executed demo_end -> exists j k, sent_tree (sent demo_end) j k t) /\
  forall t r, (t, r) ∈ returned demo_end ->
    rwr_status r = Some PC_TIMEOUT \/ (t, r) ∈ executed demo_end \/
    sessions (sm demo_end) !! client_id (exactly_once t) = None /\ r = session_expired.
Proof. exact (exactly_once_end_to_end Options_default demo_actions demo_end demo_run). Defined.

(** Client 0 closes its session, and the command is applied; then its requests
    and the closing arrive again. *)
Definition closing_actions : list action :=
  demo_actions ++ [SendCommand 0 (close_session_request 1); Apply 3 16 104].
Definition closed_end : Cluster := default Cluster_init (run Options_default closing_actions Cluster_init).
Lemma closing_run : run Options_default closing_actions Cluster_init = Some closed_end.
Proof.
  assert (match run Options_default closing_actions Cluster_init with Some _ => true | None => false end = true) as Hrun
    by (vm_compute; reflexivity).
  unfold closed_end. by destruct (run _ _ _).
Qed.

Lemma client_requests_apply_witness :
  Forall (fun j => exists s', step Options_default closed_end (Apply j 20 200) = Some s' /\
    lastIndex s' = lastIndex closed_end + 1) [0%nat; 1%nat; 3%nat].
Proof.
  repeat constructor.
  - apply (client_requests_apply Options_default closing_actions closed_end 0 0 open_session_request 20 200 closing_run);
      [vm_compute; reflexivity|right; left; reflexivity|vm_compute; reflexivity].
  - apply (client_requests_apply Options_default closing_actions closed_end 1 0 (tree_request written) 20 200 closing_run);
      [vm_compute; reflexivity|left; exists written; reflexivity|vm_compute; reflexivity].
  - apply (client_requests_apply Options_default closing_actions closed_end 3 0 (close_session_request 1) 20 200 closing_run);
      [vm_compute; reflexivity|right; right; exists 1; reflexivity|vm_compute; reflexivity].
Defined.
