(* ===== verification/ClientService.v ===== *)
(** * The services of a server

    [Server/ClientService.cc] and [Server/RaftService.cc]: each RPC handler
    parses its request, calls the consensus module and the state machine, and
    replies. [Globals] holds the modules a server shares between services. *)

From Stdlib Require Import ZArith Lia Ascii String.
From stdpp Require Import base gmap strings list fin_maps.
From S2P Require Import Prelude Stream MessageSocket OpaqueServer RPCProtocol RPCServer.
From S2P Require Import StringUtil Printf OrderedMap Consensus Log ClientProto TreeRPC Configuration.
From S2P Require Import Raft StateMachine Client.
Local Open Scope string_scope.
Local Open Scope Z_scope.
Local Open Scope list_scope.

(** The members of [Server::Globals] that the services use. [clusterUUID] is
    a locked assignment. *)
Record Globals (L : Type) : Type := mkGlobals {
  raft : RaftConsensus L;
  stateMachine : StateMachine;
  g_clusterUUID : option string;
  g_serverId : Z
}.
Arguments mkGlobals {L}.
Arguments raft {L}.
Arguments stateMachine {L}.
Arguments g_clusterUUID {L}.
Arguments g_serverId {L}.

#[export] Instance Globals_eta {L} : Eta (Globals L) :=
  fun g => mkGlobals (raft g) (stateMachine g) (g_clusterUUID g) (g_serverId g).

(** What the other threads do while a handler waits: in the consensus module, in
    its second and third wait, and in the state machine; and the clock. *)
Record Waits (L : Type) : Type := mkWaits {
  w_raft : list (M (RaftConsensus L) unit);
  w_commit : list (M (RaftConsensus L) unit);
  w_stable : list (M (RaftConsensus L) unit);
  w_stateMachine : list (M StateMachine unit);
  w_now : Z
}.
Arguments mkWaits {L}.
Arguments w_raft {L}.
Arguments w_commit {L}.
Arguments w_stable {L}.
Arguments w_stateMachine {L}.
Arguments w_now {L}.

(** The numbers of [Protocol::Client::OpCode] that have a handler. *)
Definition OpCode_of_code (x : Z) : option OpCode :=
  match x with
  | 1 => Some STATE_MACHINE_QUERY
  | 2 => Some STATE_MACHINE_COMMAND
  | 3 => Some VERIFY_RECIPIENT
  | 4 => Some GET_CONFIGURATION
  | 5 => Some SET_CONFIGURATION
  | 7 => Some GET_SERVER_INFO
  | _ => None
  end.

Definition OpCode_code (o : OpCode) : Z :=
  match o with
  | STATE_MACHINE_QUERY => 1
  | STATE_MACHINE_COMMAND => 2
  | VERIFY_RECIPIENT => 3
  | GET_CONFIGURATION => 4
  | SET_CONFIGURATION => 5
  | GET_SERVER_INFO => 7
  end.

Section ClientService.
Context {L : Type} `{LogOps L} `{ProtoBuf Metadata_Header}.
Context (opts : RaftOptions) (clock : nat -> Z) (randomRange : nat -> Z -> Z -> Z).
Context (sm_opts : Options).
Context `{forall o, ProtoBuf (OpRequest o)} `{forall o, ProtoBuf (OpResponse o)} `{ProtoBuf PC_Error}.

Abbreviation G := (Globals L).
Abbreviation MW := (M (RPCServer.Server * G)).

Definition on_raft {A} (m : M (RaftConsensus L) A) : MW A :=
  on_globals (zoom raft (fun r g => g <| raft := r |>) m).

Definition on_stateMachine {A} (m : M StateMachine A) : MW A :=
  on_globals (zoom stateMachine (fun s g => g <| stateMachine := s |>) m).

(** The macro [PRELUDE]: parses the request of [o] and hands it to the body, or
    returns; the RPC comes back for the next use. *)
Definition prelude (o : OpCode) (rpc : ServerRPC) (body : OpRequest o -> ServerRPC -> MW unit) : MW unit :=
  let! (request, rpc) := on_server (getRequest rpc) in
  match request with
  | None => ret tt
  | Some request => body request rpc
  end.

Definition reply_with (o : OpCode) (response : OpResponse o) (rpc : ServerRPC) : MW unit :=
  on_server (ServerRPC_reply response rpc) ;;; ret tt.

(** The answer of a server that cannot help: not the leader, with a hint. *)
Definition not_leader (rpc : ServerRPC) : MW unit :=
  let! leaderHint := on_raft (gets getLeaderHint) in
  let error := mkPC_Error ErrorCode.NOT_LEADER (if string_empty leaderHint then None else Some leaderHint) in
  on_server (returnError error rpc) ;;; ret tt.

Definition getServerInfo (rpc : ServerRPC) : MW unit :=
  prelude GET_SERVER_INFO rpc (fun _ rpc =>
    let! r := on_raft get in
    reply_with GET_SERVER_INFO (mkRaft_Server (raft_serverId r) (raft_serverAddresses r)) rpc).

Definition ClientService_getConfiguration (w : Waits L) (rpc : ServerRPC) : MW unit :=
  prelude GET_CONFIGURATION rpc (fun _ rpc =>
    let! (result, answer) := on_raft (Raft.getConfiguration clock (w_raft w)) in
    match result with
    | RETRY | NOT_LEADER => not_leader rpc
    | _ =>
        let (configuration, id) := default ([], 0) answer in
        reply_with GET_CONFIGURATION (mkGetConfiguration_Response id configuration) rpc
    end).

Definition ClientService_setConfiguration (w : Waits L) (rpc : ServerRPC) : MW unit :=
  prelude SET_CONFIGURATION rpc (fun request rpc =>
    let! (result, response) :=
      on_raft (Raft.setConfiguration opts clock request (w_raft w) (w_commit w) (w_stable w)) in
    match result with
    | RETRY | NOT_LEADER => not_leader rpc
    | _ => reply_with SET_CONFIGURATION response rpc
    end).

Definition stateMachineCommand (w : Waits L) (rpc : ServerRPC) : MW unit :=
  prelude STATE_MACHINE_COMMAND rpc (fun request rpc =>
    let! cmdBuffer := on_server (getRequest_bytes rpc) in
    let! (result, logIndex) := on_raft (replicate clock (default [] cmdBuffer) (w_raft w)) in
    match result with
    | RETRY | NOT_LEADER => not_leader rpc
    | FAIL => fail AssertFailed
    | SUCCESS =>
        let! response := on_stateMachine (waitForResponse logIndex request (w_stateMachine w)) in
        match response with
        | None => on_server (rejectInvalidRequest rpc) ;;; ret tt
        | Some response => reply_with STATE_MACHINE_COMMAND response rpc
        end
    end).

(** A query that the state machine does not understand is rejected, and then the
    handler goes on to reply with the empty response. *)
Definition stateMachineQuery (w : Waits L) (rpc : ServerRPC) : MW unit :=
  prelude STATE_MACHINE_QUERY rpc (fun request rpc =>
    let! (result, logIndex) := on_raft (getLastCommitIndex clock (w_raft w)) in
    match result with
    | RETRY | NOT_LEADER => not_leader rpc
    | FAIL => fail AssertFailed
    | SUCCESS =>
        on_stateMachine (wait logIndex (w_stateMachine w)) ;;;
        let! response := on_stateMachine (query sm_opts (w_now w) request) in
        match response with
        | Some response => reply_with STATE_MACHINE_QUERY response rpc
        | None =>
            let! rpc := on_server (rejectInvalidRequest rpc) in
            reply_with STATE_MACHINE_QUERY (mkQuery_Response None) rpc
        end
    end).

(** [""] if the id of the cluster is not known. *)
Definition verifyRecipient (rpc : ServerRPC) : MW unit :=
  prelude VERIFY_RECIPIENT rpc (fun request rpc =>
    let! g := on_globals get in
    let clusterUUID := default "" (g_clusterUUID g) in
    let serverId := g_serverId g in
    let response := VerifyRecipient_Response_init
      <| vrr_cluster_uuid := if string_empty clusterUUID then None else Some clusterUUID |>
      <| vrr_server_id := Some serverId |> in
    let requested := match vr_cluster_uuid request with
                     | Some u => if string_empty u then None else Some u
                     | None => None
                     end in
    let wrong_cluster := match requested with
                         | Some u => negb (string_empty clusterUUID) && negb (String.eqb clusterUUID u)
                         | None => false
                         end in
    let wrong_server := match vr_server_id request with
                        | Some id => negb (serverId =? id)
                        | None => false
                        end in
    if wrong_cluster then
      reply_with VERIFY_RECIPIENT (response
        <| vrr_ok := Some false |>
        <| vrr_error := Some ("Mismatched cluster UUIDs: request intended for " +:+ c_str (default "" requested) +:+
             ", but this server is in " +:+ c_str clusterUUID) |>) rpc
    else if wrong_server then
      reply_with VERIFY_RECIPIENT (response
        <| vrr_ok := Some false |>
        <| vrr_error := Some ("Mismatched server IDs: request intended for " +:+
             print_lu (default 0 (vr_server_id request)) +:+ ", but this server is " +:+ print_lu serverId) |>) rpc
    else
      let response := response <| vrr_ok := Some true |> in
      match requested with
      | Some u =>
          if string_empty clusterUUID then
            on_globals (modify (fun g => g <| g_clusterUUID := Some u |>)) ;;;
            reply_with VERIFY_RECIPIENT (response <| vrr_cluster_uuid := Some u |>) rpc
          else reply_with VERIFY_RECIPIENT response rpc
      | None => reply_with VERIFY_RECIPIENT response rpc
      end).

(** [ClientService::handleRPC]. *)
Definition ClientService_handleRPC (w : Waits L) (rpc : ServerRPC) : MW unit :=
  match OpCode_of_code (opCode rpc) with
  | Some GET_SERVER_INFO => getServerInfo rpc
  | Some VERIFY_RECIPIENT => verifyRecipient rpc
  | Some GET_CONFIGURATION => ClientService_getConfiguration w rpc
  | Some SET_CONFIGURATION => ClientService_setConfiguration w rpc
  | Some STATE_MACHINE_COMMAND => stateMachineCommand w rpc
  | Some STATE_MACHINE_QUERY => stateMachineQuery w rpc
  | None => on_server (rejectInvalidRequest rpc) ;;; ret tt
  end.
End ClientService.

(** ** The service for the other servers *)

Section RaftService.
Context {L : Type} `{LogOps L} `{ProtoBuf Metadata_Header}.
Context (opts : RaftOptions) (clock : nat -> Z) (randomRange : nat -> Z -> Z -> Z) (stagingNameAt : nat -> string).
Context `{ProtoBuf RequestVote_Request} `{ProtoBuf RequestVote_Response}.
Context `{ProtoBuf AppendEntries_Request} `{ProtoBuf AppendEntries_Response}.
Context `{ProtoBuf InstallSnapshot_Request} `{ProtoBuf InstallSnapshot_Response}.

(** The macro [PRELUDE], a handler of the consensus module, and the reply. *)
Definition raft_handler {Req Resp} `{ProtoBuf Req} `{ProtoBuf Resp}
    (handler : Req -> M (RaftConsensus L) Resp) (rpc : ServerRPC) : M (RPCServer.Server * Globals L) unit :=
  let! (request, rpc) := on_server (getRequest rpc) in
  match request with
  | None => ret tt
  | Some request =>
      let! response := on_raft (handler request) in
      on_server (ServerRPC_reply response rpc) ;;; ret tt
  end.

(** [RaftService::handleRPC] on the numbers of [Protocol::Raft::OpCode]. *)
Definition RaftService_handleRPC (rpc : ServerRPC) : M (RPCServer.Server * Globals L) unit :=
  match opCode rpc with
  | 1 => raft_handler (handleRequestVote opts clock randomRange) rpc
  | 2 => raft_handler (handleAppendEntries opts clock randomRange) rpc
  | 3 => raft_handler (handleInstallSnapshot opts clock randomRange stagingNameAt) rpc
  | _ => on_server (rejectInvalidRequest rpc) ;;; ret tt
  end.
End RaftService.
