(* ===== verification/ServicesSpec.v ===== *)
(** * Every request has one answer

    A request that arrives at a server is rejected at once, or waits in the queue
    of the service it names; the handler that a worker runs on it sends one
    answer, on the connection and with the message id of the request. *)

From Stdlib Require Import ZArith Lia Ascii String.
From stdpp Require Import base gmap strings list fin_maps.
From S2P Require Import Prelude Stream MessageSocket OpaqueServer RPCProtocol RPCServer.
From S2P Require Import StringUtil Printf OrderedMap Consensus Log ClientProto TreeRPC Configuration.
From S2P Require Import Raft StateMachine Client ClientService.
Local Open Scope Z_scope.
Local Open Scope list_scope.

(** ** One answer to each request *)

Section Answers.
Context {G : Type} (c id : Z) (sock : MessageSocket) (s : RPCServer.Server).
Context (Hsock : sockets s !! c = Some sock).

(** The RPC waits for its answer. *)
Definition unanswered (rpc : ServerRPC) : Prop :=
  active rpc = true /\ os_socket (opaqueRPC rpc) = Some c /\ os_messageId (opaqueRPC rpc) = id.

(** The queue of the connection has one more message, the answer to the request,
    and the server is otherwise as it was. *)
Definition answered_once (s' : RPCServer.Server) : Prop :=
  exists sock' b, outboundQueue sock' = outboundQueue sock ++ [Outbound_init id b] /\ b <> [] /\
    s' = s <| sockets := <[c := sock']> (sockets s) |>.

Definition answers (m : M (RPCServer.Server * G) unit) : Prop :=
  forall g, post m (fun _ w => answered_once w.1) (s, g).

Lemma respond_answers status payload rpc :
  unanswered rpc -> post (respond status payload rpc) (fun rpc' s' =>
    (active rpc' = false /\ os_socket (opaqueRPC rpc') = None) /\ answered_once s') s.
Proof.
  intros (_ & Hc & Hid). unfold respond. apply wp_bind. unfold sendReply. simpl. rewrite Hc, Hid.
  apply wp_bind, wp_send_on; [by rewrite Hsock|]. intros sock0 sock' Hs0 Hq. rewrite Hsock in Hs0. simplify_eq.
  apply wp_ret, wp_ret. split; [done|]. by eexists sock', _.
Qed.

Lemma answers_respond status payload rpc : unanswered rpc -> answers (on_server (respond status payload rpc) ;;; ret tt).
Proof.
  intros Hrpc g. apply wp_bind, wp_zoom. eapply wp_mono; [by apply respond_answers|done|].
  intros rpc' s' [_ H]. by apply wp_ret.
Qed.

(** An RPC does not answer twice. *)
Lemma answers_respond_twice status payload status' payload' rpc :
  unanswered rpc ->
  answers (let! rpc := on_server (respond status payload rpc) in on_server (respond status' payload' rpc) ;;; ret tt).
Proof.
  intros Hrpc g. apply wp_bind, wp_zoom. eapply wp_mono; [by apply respond_answers|done|]. intros rpc' s' [[_ Hnone] H].
  apply wp_bind, wp_zoom. unfold respond, sendReply. simpl. rewrite Hnone. by wp_go.
Qed.

Lemma answers_globals {A} (m : M G A) k : (forall a, answers (k a)) -> answers (bind (on_globals m) k).
Proof.
  intros Hk g. apply wp_bind, wp_zoom. unfold wp. simpl. destruct (m g) as [[a g']|]; [|done]. by apply Hk.
Qed.

(** A request that cannot be parsed is rejected. *)
Lemma answers_getRequest {T} `{ProtoBuf T} rpc (k : option T * ServerRPC -> M (RPCServer.Server * G) unit) :
  unanswered rpc -> (forall m, answers (k (Some m, rpc))) -> (forall rpc', k (None, rpc') = ret tt) ->
  answers (bind (on_server (getRequest rpc)) k).
Proof.
  intros Hrpc Hsome Hnone g. apply wp_bind, wp_zoom. unfold getRequest. rewrite (proj1 Hrpc). simpl negb. cbv iota.
  apply wp_bind, wp_lift. destruct (parse _ _) as [[m|]|]; [| |done].
  - apply wp_ret. apply Hsome.
  - apply wp_bind. eapply wp_mono; [by apply respond_answers|done|]. intros rpc' s' [_ H']. apply wp_ret. by rewrite Hnone.
Qed.

Lemma answers_getRequest_bytes rpc (k : option bytes -> M (RPCServer.Server * G) unit) :
  (forall b, answers (k b)) -> answers (bind (on_server (getRequest_bytes rpc)) k).
Proof. intros Hk g. apply wp_bind, wp_zoom. unfold getRequest_bytes. wp_go; apply Hk. Qed.
End Answers.

Create HintDb answers.
#[export] Hint Resolve answers_respond answers_respond_twice answers_getRequest_bytes : answers.

(** Runs a handler up to its answer. *)
Ltac answer :=
  repeat match goal with
  | |- answers _ _ _ _ (bind (on_raft _) _) => apply answers_globals; intros
  | |- answers _ _ _ _ (bind (on_stateMachine _) _) => apply answers_globals; intros
  | |- answers _ _ _ _ (bind (on_globals _) _) => apply answers_globals; intros
  | |- answers _ _ _ _ (bind (on_server (getRequest_bytes _)) _) => apply answers_getRequest_bytes; intros
  | |- answers _ _ _ _ (bind (on_server (getRequest _)) _) => apply answers_getRequest; [done|done|intros|by intros]
  | |- answers _ _ _ _ (match ?x with _ => _ end) => destruct x
  | |- answers _ _ _ _ (fail _) => by intros ?
  | |- answers _ _ _ _ (reply_with _ _ _) => by apply answers_respond
  | |- _ => by eauto with answers
  end.

Section Services.
Context {L : Type} `{LogOps L} `{ProtoBuf Metadata_Header}.
Context (opts : RaftOptions) (clock : nat -> Z) (randomRange : nat -> Z -> Z -> Z) (stagingNameAt : nat -> string).
Context (sm_opts : Options).
Context `{forall o, ProtoBuf (OpRequest o)} `{forall o, ProtoBuf (OpResponse o)} `{ProtoBuf PC_Error}.
Context `{ProtoBuf RequestVote_Request} `{ProtoBuf RequestVote_Response}.
Context `{ProtoBuf AppendEntries_Request} `{ProtoBuf AppendEntries_Response}.
Context `{ProtoBuf InstallSnapshot_Request} `{ProtoBuf InstallSnapshot_Response}.

Lemma ClientService_answers c id sock s w rpc :
  sockets s !! c = Some sock -> unanswered c id rpc ->
  answers c id sock s (ClientService_handleRPC (L := L) opts clock sm_opts w rpc).
Proof.
  intros Hsock Hrpc. unfold ClientService_handleRPC.
  destruct (OpCode_of_code (opCode rpc)) as [[]|]; [..|by apply answers_respond].
  all: unfold stateMachineQuery, stateMachineCommand, verifyRecipient, ClientService_getConfiguration,
    ClientService_setConfiguration, getServerInfo, prelude, not_leader.
  all: answer.
Qed.

Lemma RaftService_answers c id sock s rpc :
  sockets s !! c = Some sock -> unanswered c id rpc ->
  answers c id sock s (RaftService_handleRPC (L := L) opts clock randomRange stagingNameAt rpc).
Proof.
  intros Hsock Hrpc. unfold RaftService_handleRPC, raft_handler. answer.
Qed.

(** The two services of a server. *)
Definition handler (w : Waits L) (id : Z) : option (ServerRPC -> M (RPCServer.Server * Globals L) unit) :=
  if id =? CLIENT_SERVICE then Some (ClientService_handleRPC opts clock sm_opts w)
  else if id =? RAFT_SERVICE then Some (RaftService_handleRPC opts clock randomRange stagingNameAt)
  else None.

(** The request waits in the queue of the service that it names. *)
Definition queued (o : OpaqueServerRPC) (c : Z) (s s' : RPCServer.Server) : Prop :=
  exists rpc t t', rpcHandler s !! service rpc = Some t /\ rpcQueue t' = rpcQueue t ++ [rpc] /\
    opaqueRPC rpc = o /\ unanswered c (os_messageId o) rpc /\
    s' = s <| rpcHandler := <[service rpc := t']> (rpcHandler s) |>.

Lemma construct_spec c sock (s : RPCServer.Server) o :
  sockets s !! c = Some sock -> os_socket o = Some c ->
  post (ServerRPC_construct o) (fun rpc s' =>
    active rpc = false /\ answered_once c (os_messageId o) sock s s' \/
    unanswered c (os_messageId o) rpc /\ opaqueRPC rpc = o /\ s' = s) s.
Proof.
  intros Hsock Hc. unfold ServerRPC_construct, reject.
  assert (forall status, post (respond status [] (mkServerRPC o true 0 0 0)) (fun rpc s' =>
    active rpc = false /\ answered_once c (os_messageId o) sock s s' \/
    unanswered c (os_messageId o) rpc /\ opaqueRPC rpc = o /\ s' = s) s) as Hrej.
  { intros status. eapply wp_mono; [by apply (respond_answers c (os_messageId o) sock s Hsock)|done|].
    intros rpc s'. cbv beta. intros [[Hact _] H']. by left. }
  destruct (bool_decide _); [apply Hrej|]. destruct (negb _ || _); [apply Hrej|]. apply wp_ret. by right.
Qed.

Lemma dispatch_spec c sock (s : RPCServer.Server) o :
  sockets s !! c = Some sock -> os_socket o = Some c ->
  post (handleRPC o) (fun _ s' => answered_once c (os_messageId o) sock s s' \/ queued o c s s') s.
Proof.
  intros Hsock Hc. unfold handleRPC, Server_RPCHandler. apply wp_bind.
  eapply wp_mono; [by apply (construct_spec c sock s o)|done|].
  intros rpc s' [[Hact Hans]|(Hrpc & Ho & ->)]; [rewrite Hact; apply wp_ret; by left|].
  rewrite (proj1 Hrpc). simpl negb. cbv iota. apply wp_bind, wp_get.
  destruct (rpcHandler s !! service rpc) as [t|] eqn:Ht.
  - unfold on_service, wp. rewrite Ht. unfold ThreadDispatchService_handleRPC, bind, get, assert_, modify, when.
    destruct (tds_exit t); [done|]. simpl. destruct (_ && _); right; exists rpc, t; eexists;
      (split; [done|]; split; [|split; [done|]; split; [done|reflexivity]]); done.
  - apply wp_bind. eapply wp_mono; [by apply (respond_answers c (os_messageId o) sock s Hsock)|done|].
    intros rpc' s' [_ H']. apply wp_ret. by left.
Qed.

(** C8: Every request gets exactly one answer. The event loop rejects a request,
    with one answer, or leaves it in the queue of the service that it names; and
    the handler of that service, if it returns, has put exactly one message on
    the connection of the request, with its message id, whatever the request, the
    state of the server and the other threads are, and even where the code
    replies twice. *)
Theorem one_answer_per_request c sock (s : RPCServer.Server) :
  sockets s !! c = Some sock ->
  (forall o s', os_socket o = Some c -> handleRPC o s = Ok (tt, s') ->
     answered_once c (os_messageId o) sock s s' \/ queued o c s s') /\
  (forall w sv h rpc g s' g', handler w sv = Some h -> active rpc = true -> os_socket (opaqueRPC rpc) = Some c ->
     h rpc (s, g) = Ok (tt, (s', g')) -> answered_once c (os_messageId (opaqueRPC rpc)) sock s s').
Proof.
  intros Hsock. split.
  - intros o s' Hc Hrun. by apply (proj1 (post_run _ _ _) (dispatch_spec c sock s o Hsock Hc) tt).
  - intros w sv h rpc g s' g' Hh Hact Hc Hrun.
    assert (answers c (os_messageId (opaqueRPC rpc)) sock s (h rpc)) as Ha.
    { unfold handler in Hh. destruct (sv =? CLIENT_SERVICE); [|destruct (sv =? RAFT_SERVICE); [|done]]; simplify_eq.
      - by apply ClientService_answers.
      - by apply RaftService_answers. }
    exact (proj1 (post_run _ _ _) (Ha g) tt (s', g') Hrun).
Qed.
End Services.
