(* ===== verification/ServicesDemo.v ===== *)
(** * A request to a server that is not the leader

    The client service on the server of [RaftDemo]: a command of a client is
    answered with an error, on the connection that it came from. *)

From Stdlib Require Import ZArith Lia Ascii String.
From stdpp Require Import base gmap strings list fin_maps.
From S2P Require Import Prelude Stream Endian MessageSocket OpaqueServer RPCProtocol RPCServer.
From S2P Require Import Consensus Log ClientProto Configuration Raft StateMachine StateMachineDemo RaftDemo Client ClientService ServicesSpec.
Local Open Scope Z_scope.
Local Open Scope list_scope.

(** Commands in the encoding of [StateMachineDemo]; the other messages are not
    used. *)
Definition unused {T} : ProtoBuf T := {| pb_serialize _ := []; pb_parse _ := None |}.

#[local] Existing Instance DemoRaft.ops.
#[local] Existing Instance DemoRaft.header_codec.
#[local] Instance demo_requests : forall o, ProtoBuf (OpRequest o) := fun o =>
  match o with STATE_MACHINE_COMMAND => DemoCommands.codec | _ => unused end.
#[local] Instance demo_responses : forall o, ProtoBuf (OpResponse o) := fun _ => unused.
#[local] Instance demo_errors : ProtoBuf PC_Error :=
  {| pb_serialize e := ["E"%char]; pb_parse _ := Some (mkPC_Error ErrorCode.NOT_LEADER None) |}.

#[local] Instance demo_vote : ProtoBuf RequestVote_Request := unused.
#[local] Instance demo_voted : ProtoBuf RequestVote_Response := unused.
#[local] Instance demo_append : ProtoBuf AppendEntries_Request := unused.
#[local] Instance demo_appended : ProtoBuf AppendEntries_Response := unused.
#[local] Instance demo_install : ProtoBuf InstallSnapshot_Request := unused.
#[local] Instance demo_installed : ProtoBuf InstallSnapshot_Response := unused.

Definition demo_socket : MessageSocket := MessageSocket_construct [] (mkSendKernel [] []) MAX_MESSAGE_LENGTH.

(** The client service with one dispatcher, and connection 0. *)
Definition demo_server : RPCServer.Server :=
  mkOpaqueServer MAX_MESSAGE_LENGTH {[0 := demo_socket]} 1 {[CLIENT_SERVICE := mkThreadDispatchService 16 0 0 false []]}.

Definition demo_globals : Globals MemoryLog := mkGlobals DemoRaft.started StateMachine_init None 1.

(** The command "open a session", as request 7 of the connection. *)
Definition demo_request : OpaqueServerRPC :=
  mkOpaqueServerRPC (RequestHeader_toBigEndian (mkRequestHeader 1 CLIENT_SERVICE 1 2) ++ ["o"%char]) [] (Some 0) 7.

Definition demo_rpc : ServerRPC := mkServerRPC demo_request true CLIENT_SERVICE 1 2.

Definition demo_waits : Waits MemoryLog := mkWaits [] [] [] [] 0.

Definition demo_handled : RPCServer.Server * Globals MemoryLog :=
  match ClientService_handleRPC DemoRaft.opts DemoRaft.clock Options_default demo_waits demo_rpc (demo_server, demo_globals) with
  | Ok (_, w) => w
  | Fail _ => (demo_server, demo_globals)
  end.

Definition demo_arrived : RPCServer.Server :=
  match handleRPC demo_request demo_server with Ok (_, s) => s | Fail _ => demo_server end.

Lemma one_answer_per_request_witness :
  (answered_once 0 7 demo_socket demo_server demo_arrived \/ queued demo_request 0 demo_server demo_arrived) /\
  outboundQueue <$> (sockets demo_handled.1 !! 0) =
    Some [Outbound_init 7 (ResponseHeader STATUS_SERVICE_SPECIFIC_ERROR ++ ["E"%char])] /\
  answered_once 0 7 demo_socket demo_server demo_handled.1.
Proof.
  destruct (one_answer_per_request DemoRaft.opts DemoRaft.clock DemoRaft.randomRange DemoRaft.stagingNameAt Options_default
              0 demo_socket demo_server) as [Harrive Hhandle].
  - reflexivity.
  - split; [|split].
    + apply (Harrive demo_request demo_arrived); [reflexivity|vm_compute; reflexivity].
    + vm_compute. reflexivity.
    + apply (Hhandle demo_waits CLIENT_SERVICE (ClientService_handleRPC DemoRaft.opts DemoRaft.clock Options_default demo_waits)
               demo_rpc demo_globals demo_handled.1 demo_handled.2); [reflexivity..|].
      vm_compute. reflexivity.
Defined.
